(* ===== verification/_CoqProject ===== *)
-Q . S2P
Prelude.v
CLib.v
ConfigReader.v
Utilities.v
ThreadPool.v
Json.v
Handlers.v
Proxy.v
ExpireCleaner.v
Fmt.v
PatternFormatter.v
PatternTheory.v
Files.v
Sinks.v
RotatingTheory.v
CircularQueue.v
TimedSinks.v
Logger.v
MemorySinks.v
ConsoleSinks.v
Registry.v
Levels.v
ProxyLog.v
JsonLexer.v
JsonParser.v
JsonCallback.v
JsonText.v
JsonReading.v
JsonComplete.v
InputAdapters.v
JsonValue.v
BinaryFloat.v
FloatTheory.v
Grisu.v
FloatRound.v
GrisuTheory.v
Serializer.v
EscapeTheory.v
SerializerTheory.v
JsonRoundtrip.v
Replies.v
JsonPointer.v
JsonPatch.v
PointerTheory.v
PatchTheory.v
Binary.v
Cbor.v
BinaryTheory.v
CborTheory.v
MsgPack.v
MsgPackTheory.v
Bson.v
BsonTheory.v
Ubjson.v
UbjsonTheory.v
AsyncPool.v
AsyncTheory.v
AsyncLogger.v
FmtArgs.v
FmtWrite.v
FmtParse.v
FmtTheory.v
FmtPieces.v
FmtLog.v
