(* ===== verification/Prelude.v ===== *)
(** * FileCacheProxy, verified

    The program is a HTTP proxy in front of a FastDFS file storage.  [main] reads a configuration
    file ([Config], [configReader.cpp]), makes a log (the vendored spdlog), binds a socket and
    starts a thread pool ([thread_pool.h]) whose threads run libevent loops; each loop hands requests
    to [upload_handler], [delete_handler] or [fileinfo_handler] ([fileCacheProxy.cpp]), which call
    the FastDFS client, answer with JSON (the vendored json.hpp) and record uploads in a file.
    A second executable, [expireCleaner.cpp], deletes recorded files that are too old.  Signals
    end the proxy.

    ** The files of this library

    - [Prelude]: byte strings, machine integers, tactics, searching, splitting and counting in
      lists.  [CLib]: what the code uses of the C and C++ libraries ([strtol], [snprintf],
      [std::string], [strftime]).
    - [ConfigReader] ([configReader.cpp]): [Split], [trim], [str2int], [Config::Load] over a model of
      [ifstream] with its flags, [ReadString]/[ReadInt].  [Utilities] ([ultilities.cpp]).
    - [ThreadPool] ([include/thread_pool.h]): the pool as a transition system with the mutex, the
      condition variable, spurious wake-ups and the destructor.
    - [Json], [JsonLexer], [JsonParser] ([include/json.hpp]): the printing the proxy uses with its
      UTF-8 automaton, the lexer, the parser with the handler that builds values.  [JsonText]: the
      grammar of RFC 8259, a specification; [JsonReading] and [JsonComplete]: the parser reads every
      text of it.  [JsonCallback]: the handler with a callback; [InputAdapters]: UTF-16 and UTF-32 input.
      [Grisu], [FloatRound], [GrisuTheory]: printing doubles.  [Serializer]: printing any value
      with every option; [EscapeTheory] and [SerializerTheory]: what it writes.  [JsonRoundtrip]: the
      proxy's printing is a case of it.  [JsonValue] (comparison and access), [JsonPointer] and [JsonPatch]
      (pointers, [flatten], [patch], [diff], [merge_patch]), with [PointerTheory] and [PatchTheory].  The binary formats:
      [BinaryFloat] and [FloatTheory] (numbers as bytes), [Binary] and [BinaryTheory] (what reader
      and writer of every format share), [Cbor], [CborTheory], [MsgPack], [MsgPackTheory],
      [Bson], [BsonTheory], [Ubjson], [UbjsonTheory].
    - [Handlers] ([fileCacheProxy.cpp]): the request handlers in a state and exception monad over
      a trace of effects (an operation ends with a value, with an exception or in undefined
      behaviour); [Service] is the interface of libevent and FastDFS, of which nothing is assumed.
      [Replies]: the answers as a client parses them.
    - [Proxy] ([fileCacheProxy.cpp], [main.cpp]): [init], [startService], the signal handlers, [exit],
      [main].  [ExpireCleaner] ([expireCleaner.cpp]).
    - The log: [Fmt] (integer formatting and levels), [PatternFormatter] and [PatternTheory]
      ([pattern_formatter-inl.h]), [Files] ([details/os-inl.h], [details/file_helper-inl.h], a file
      system), [Sinks] and [RotatingTheory] ([sinks/*.h]), [CircularQueue] ([details/circular_q.h]),
      [Logger] ([logger-inl.h], [details/backtracer-inl.h]; [Class Sink] is what a logger asks of a sink),
      [Registry] ([details/registry-inl.h], [spdlog-inl.h]), [Levels] ([cfg/*.h]: levels from texts),
      [ProxyLog]: the proxy's use of all of it.  Sinks the proxy does not use: [TimedSinks] (daily and
      hourly files), [MemorySinks] (ring buffer, stream, distribution, filter of duplicates),
      [ConsoleSinks] (standard output, colours of the terminal).
    - Formatting ([fmt/bundled/core.h], [format.h]): [FmtArgs] (the arguments, packed and looked up),
      [FmtWrite] (writing one argument under specifiers), [FmtParse] (format strings, [vformat_to]),
      [FmtTheory] (every string), [FmtPieces] (the strings that mean something), [FmtLog] (the
      proxy's messages, and what other files take from the library).
    - Asynchronous logging: [AsyncPool] and [AsyncTheory] ([details/mpmc_blocking_q.h],
      [details/thread_pool-inl.h]) and [AsyncLogger] ([async_logger-inl.h]).
    Definitions keep the names of the source; a record's fields are the data members.  A function
    that changes an object takes it and returns it; [None] is undefined behaviour of the source
    (or missing fuel), never an error the source handles: those are values ([outcome], result
    codes, [Throw]).

    ** What the theorems show

    - Each operation against a specification of its own: configuration files parse to what their
      lines say and print back ([Load_correct]), a handler implements its
      contract and answers exactly once, or for which uploads it does not ([upload_correct], [serve_answers]), [init] and
      [startService] on every path, the cleaner deletes exactly the files that are due, rotation
      keeps the newest files ([rotating_sink_correct], by date [timed_sink_correct]), log lines have the pattern's form.
    - End to end: what a client parses out of the answers to an upload, a query and a deletion
      ([client_roundtrip]); what the proxy's log file holds after a run ([proxy_log_correct],
      and [proxy_events_logged] with the arguments of its messages formatted by the library).
    - Invariants and progress of the concurrent parts under every schedule: both thread pools
      ([pool_invariant], [pool_progress], [async_queue_correct], [async_pool_terminates]) and
      [async_equals_sync]: asynchronous logging is synchronous logging, later.
    - Optimised code against plain definitions: integers printed two digits at a time, the
      UTF-8 automaton against RFC 3629, the circular queue against a list, the two parsers of
      format strings against each other ([parse_paths_agree]), types packed into a descriptor
      against the list of arguments ([format_args_correct]).
    - Format strings: formatting ends on every string without undefined behaviour
      ([format_total]), does what the pieces of the string say ([format_pieces_correct]), and
      writes the field that the specifiers describe ([write_arg_correct]).
    - JSON pointers and patches: [split] and [to_string] are inverse and the accesses agree
      ([pointer_correct]); applying the difference of two values to the one gives the other
      ([patch_diff]).
    - Binary formats: what is written is read back ([cbor_correct], [msgpack_correct],
      [bson_correct], [ubjson_correct]), floating point numbers through their bits; which values BSON refuses
      ([to_bson_correct]); every input is read to an end ([binary_total]).
    - JSON texts: the parser ends on every input ([parse_total]), returns well-formed values
      ([parse_wf]) and reads every text of the grammar ([parse_complete]); no callback breaks it
      ([parse_callback_total], [parse_callback_keep_all]), wide text is read as its UTF-8 bytes ([wide_input_correct]); what the serializer
      writes with any options is such a text and means the value ([dump_correct],
      [dump_roundtrip]), or a string was no UTF-8 ([dump_invalid_utf8]); Grisu2 prints every double
      so that reading gives it back ([to_chars_correct]).
    - What the code gets wrong, as theorems about it: a long line makes [Load] loop for ever
      ([Load_diverges]), stopping the pool can leave a worker asleep ([pool_lost_wakeup]), handlers
      leak ([serve_all_leaks]), a daily file can be deleted by the rotation that opened it
      ([rotation_deletes_its_file]), and others.

    ** Fuel and bounds

    Loops of the source that are not structural run on fuel.  The lexer and the parser take
    [input_fuel], the length of the input and two: every iteration reads a character or ends
    ([scan_total], [sax_loop_total]); so do the readers of the binary formats ([binary_total]).  [Load] takes one unit per [getline]; each call consumes
    input or sets [eofbit], and [Load_diverges] states that no fuel suffices otherwise.  The loop
    over an escaped string takes twice its length and one, a byte being read at most twice; the digits of a
    fraction take 20 rounds, each multiplying by ten what stays below 2^64.  Loops
    over a counted range recurse on the count.  The loops over a format string take its length
    and one, so do those of [replace_substring] and [split] over a pointer, the loops over the digits of a 64-bit integer 64 rounds ([format_total]).  The transition systems have no fuel: a run is a
    list of actions, and termination is a measure ([remaining]).

    ** Not modelled

    libevent and the FastDFS client are headers only: parameters, about which nothing is assumed.  Of json.hpp: conversions
    to C++ types, iterators, and input from streams; of spdlog: the sinks
    on sockets and system logs, the periodic worker, the Windows parts, the factories of [async.h]; of fmt: floats, 128-bit and
    custom types, wide characters, dates, colours, compiled formats, and theorems on the digit
    groups of locales.  Scripts and build files are glue.  Allocation does not fail; memory
    ordering below the mutexes is sequential consistency. *)
From stdpp Require Export base tactics option list numbers strings gmap.
From Stdlib Require Export ZArith Lia Ascii.


(** ** Byte strings *)

(** [std::string], C strings and character buffers are lists of characters. *)
Abbreviation bytes := (list ascii).

Definition B (s : string) : bytes := String.list_ascii_of_string s.
Arguments B !s /.

(** The numeric value of a [char] taken as [unsigned char], and back. *)
Definition code (c : ascii) : Z := Z.of_N (N_of_ascii c).
Definition chr (z : Z) : ascii := ascii_of_N (Z.to_N z).

Definition NUL : ascii := "000"%char.
Definition LF : ascii := "010"%char.
Definition DQUOTE : ascii := "034"%char.

Declare Scope fdfs_scope.
Delimit Scope fdfs_scope with fdfs.
Notation "c =c d" := (Ascii.eqb c d) (at level 70, no associativity) : fdfs_scope.
Notation "s =s t" := (bool_decide (@eq bytes s t)) (at level 70, no associativity) : fdfs_scope.
Open Scope fdfs_scope.

(** ** Machine integers: values are [Z], conversions write the wrap-around out *)

Definition wrapu (w z : Z) : Z := z `mod` 2 ^ w.
Definition wraps (w z : Z) : Z := (z + 2 ^ (w - 1)) `mod` 2 ^ w - 2 ^ (w - 1).

Definition u16 := wrapu 16.
Definition u32 := wrapu 32.
Definition u64 := wrapu 64.
Definition s32 := wraps 32.

Definition INT_MAX : Z := 2 ^ 31 - 1.
Definition INT_MIN : Z := - 2 ^ 31.
Definition LONG_MAX : Z := 2 ^ 63 - 1.
Definition LONG_MIN : Z := - 2 ^ 63.

(** ** Searching sequences, as the member functions of [std::string] do *)

Section seq_search.
  Context {A : Type}.
  Implicit Types (p : A -> bool) (s : list A).

  (** Index of the first element that satisfies [p]; [None] is [npos]. *)
Fixpoint find_if p s : option nat :=
    match s with
    | [] => None
    | c :: s' => if p c then Some 0 else S <$> find_if p s'
    end.

  (** Index of the last element that satisfies [p]. *)
Fixpoint rfind_if p s : option nat :=
    match s with
    | [] => None
    | c :: s' =>
        match rfind_if p s' with
        | Some i => Some (S i)
        | None => if p c then Some 0 else None
        end
    end.

  (** Index of the first element at or after position [pos] that satisfies [p]. *)
Definition find_from p s (pos : nat) : option nat :=
    Nat.add pos <$> find_if p (drop pos s).

Fixpoint take_while p s : list A :=
    match s with
    | [] => []
    | c :: s' => if p c then c :: take_while p s' else []
    end.

Fixpoint drop_while p s : list A :=
    match s with
    | [] => []
    | c :: s' => if p c then drop_while p s' else s
    end.

  (** The pieces of [s] between the elements that satisfy [p] (always at least one piece). *)
Fixpoint split_on p s : list (list A) :=
    match s with
    | [] => [[]]
    | c :: s' =>
        if p c then [] :: split_on p s'
        else match split_on p s' with
             | w :: ws => (c :: w) :: ws
             | [] => [[c]]
             end
    end.
End seq_search.

(** [substr(pos, n)]; [None] stands for [npos]. *)
Definition substr (s : bytes) (pos : nat) (n : option nat) : bytes :=
  match n with
  | Some k => take k (drop pos s)
  | None => drop pos s
  end.

(** The C string held by a buffer: everything before the first NUL. *)
Definition c_str (s : bytes) : bytes := take_while (fun c => negb (c =c NUL)) s.

(** ** Characters of the C locale *)

Definition isspace (c : ascii) : bool := (code c =? 32)%Z || ((9 <=? code c) && (code c <=? 13))%Z.
Definition isdigit (c : ascii) : bool := ((48 <=? code c) && (code c <=? 57))%Z.

(** ** Automation *)

Create HintDb fdfs.

(** Case analysis on the boolean tests of the code. *)
Ltac case_test :=
  match goal with
  | |- context [if ?b then _ else _] =>
      lazymatch type of b with bool => destruct b eqn:? | _ => destruct b end
  | H : context [if ?b then _ else _] |- _ =>
      lazymatch type of b with bool => destruct b eqn:? | _ => destruct b end
  end.

(** Turns boolean comparisons into propositions. *)
Ltac to_prop :=
  repeat match goal with
  | H : _ && _ = true |- _ => apply andb_true_iff in H; destruct H
  | H : _ || _ = false |- _ => apply orb_false_iff in H; destruct H
  | H : _ && _ = false |- _ => apply andb_false_iff in H
  | H : _ || _ = true |- _ => apply orb_true_iff in H
  | H : negb _ = true |- _ => apply negb_true_iff in H
  | H : negb _ = false |- _ => apply negb_false_iff in H
  | H : (_ <? _)%Z = true |- _ => apply Z.ltb_lt in H
  | H : (_ <? _)%Z = false |- _ => apply Z.ltb_ge in H
  | H : (_ <=? _)%Z = true |- _ => apply Z.leb_le in H
  | H : (_ <=? _)%Z = false |- _ => apply Z.leb_gt in H
  | H : (_ =? _)%Z = true |- _ => apply Z.eqb_eq in H
  | H : (_ =? _)%Z = false |- _ => apply Z.eqb_neq in H
  | H : (_ <? _)%nat = true |- _ => apply Nat.ltb_lt in H
  | H : (_ <? _)%nat = false |- _ => apply Nat.ltb_ge in H
  | H : (_ <=? _)%nat = true |- _ => apply Nat.leb_le in H
  | H : (_ <=? _)%nat = false |- _ => apply Nat.leb_gt in H
  | H : (_ =? _)%nat = true |- _ => apply Nat.eqb_eq in H
  | H : (_ =? _)%nat = false |- _ => apply Nat.eqb_neq in H
  | H : Ascii.eqb _ _ = true |- _ => apply Ascii.eqb_eq in H
  | H : Ascii.eqb _ _ = false |- _ => apply Ascii.eqb_neq in H
  | H : bool_decide _ = true |- _ => apply bool_decide_eq_true in H
  | H : bool_decide _ = false |- _ => apply bool_decide_eq_false in H
  end.

Ltac solve_tests := repeat case_test; to_prop; simplify_eq/=; try lia; auto with fdfs.

(** ** Values in the range of their type *)

Lemma u64_small z : (0 <= z < 2 ^ 64)%Z -> u64 z = z.
Proof. apply Z.mod_small. Qed.

(** ** Lemmas on searching *)

Lemma forallb_Forall {A} (p : A -> bool) (l : list A) :
  forallb p l = true <-> Forall (fun x => p x = true) l.
Proof.
  induction l as [|x l IH]; simpl; [done|]. rewrite andb_true_iff, Forall_cons. naive_solver.
Qed.

Section seq_lemmas.
  Context {A : Type}.
  Implicit Types (p : A -> bool) (s l r : list A).

Lemma find_if_app p l c r :
    Forall (fun x => p x = false) l -> p c = true -> find_if p (l ++ c :: r) = Some (length l).
Proof. induction 1 as [|x l Hx _ IH]; intros Hc; simpl; [by rewrite Hc|]. by rewrite Hx, IH. Qed.

Lemma find_if_none p s : find_if p s = None <-> Forall (fun x => p x = false) s.
Proof.
    induction s as [|c s IH]; simpl; [done|].
    rewrite Forall_cons. destruct (p c) eqn:Hc; [naive_solver|].
    rewrite fmap_None. naive_solver.
  Qed.

Lemma find_if_some p s i :
    find_if p s = Some i ->
    exists l c r, s = l ++ c :: r /\ length l = i /\ p c = true /\ Forall (fun x => p x = false) l.
Proof.
    revert i. induction s as [|c s IH]; intros i; simpl; [done|].
    destruct (p c) eqn:Hc; intros H; simplify_eq/=.
    - by exists [], c, s.
    - apply fmap_Some in H as (j & Hj & ->). destruct (IH j Hj) as (l & d & r & -> & <- & Hd & Hl).
      exists (c :: l), d, r. repeat split; auto.
  Qed.

Lemma find_if_lt p s i : find_if p s = Some i -> i < length s.
Proof. intros (l & c & r & -> & <- & _)%find_if_some. rewrite length_app. simpl. lia. Qed.

Lemma rfind_if_app p l c r :
    Forall (fun x => p x = false) r -> p c = true -> rfind_if p (l ++ c :: r) = Some (length l).
Proof.
    intros Hr Hc. assert (rfind_if p r = None) as Hn.
    { induction Hr as [|x r Hx _ IH]; simpl; [done|]. by rewrite IH, Hx. }
    induction l as [|x l IH]; simpl; [by rewrite Hn, Hc|]. by rewrite IH.
  Qed.

Lemma rfind_if_none p s : rfind_if p s = None <-> Forall (fun x => p x = false) s.
Proof.
    induction s as [|c s IH]; simpl; [done|]. rewrite Forall_cons.
    destruct (rfind_if p s) eqn:Hs; [split; [done|]; intros [_ H]; apply IH in H; done|].
    destruct (p c) eqn:Hc; naive_solver.
  Qed.

Lemma rfind_if_some p s i :
    rfind_if p s = Some i ->
    exists l c r, s = l ++ c :: r /\ length l = i /\ p c = true /\ Forall (fun x => p x = false) r.
Proof.
    revert i. induction s as [|c s IH]; intros i; simpl; [done|].
    destruct (rfind_if p s) as [j|] eqn:Hs.
    - intros [= <-]. destruct (IH j eq_refl) as (l & d & r & -> & <- & Hd & Hr).
      exists (c :: l), d, r. auto.
    - destruct (p c) eqn:Hc; intros [= <-]. exists [], c, s.
      repeat split; auto. by apply rfind_if_none.
  Qed.

Lemma rfind_if_lt p s i : rfind_if p s = Some i -> i < length s.
Proof. intros (l & c & r & -> & <- & _)%rfind_if_some. rewrite length_app. simpl. lia. Qed.

Lemma take_drop_while p s : take_while p s ++ drop_while p s = s.
Proof. induction s as [|c s IH]; simpl; [done|]. destruct (p c); simpl; congruence. Qed.

Lemma take_while_all p s : Forall (fun x => p x = true) (take_while p s).
Proof. induction s as [|c s IH]; simpl; [done|]. destruct (p c) eqn:?; auto. Qed.

Lemma take_while_id p s : Forall (fun x => p x = true) s -> take_while p s = s.
Proof. induction 1 as [|x l Hx _ IH]; simpl; [done|]. by rewrite Hx, IH. Qed.

Lemma take_while_app_stop p l c r :
    Forall (fun x => p x = true) l -> p c = false -> take_while p (l ++ c :: r) = l.
Proof. induction 1 as [|x l Hx _ IH]; intros Hc; simpl; [by rewrite Hc|]. by rewrite Hx, IH. Qed.

Lemma drop_while_app_stop p l c r :
    Forall (fun x => p x = true) l -> p c = false -> drop_while p (l ++ c :: r) = c :: r.
Proof. induction 1 as [|x l Hx _ IH]; intros Hc; simpl; [by rewrite Hc|]. by rewrite Hx, IH. Qed.

Lemma drop_while_nil p s : drop_while p s = [] <-> Forall (fun x => p x = true) s.
Proof.
    induction s as [|c s IH]; simpl; [done|]. rewrite Forall_cons.
    destruct (p c) eqn:?; naive_solver.
  Qed.

Lemma drop_while_head p s c r : drop_while p s = c :: r -> p c = false.
Proof. induction s as [|d s IH]; simpl; [done|]. destruct (p d) eqn:?; naive_solver. Qed.

Lemma drop_while_length p s : length (drop_while p s) <= length s.
Proof. rewrite <- (take_drop_while p s) at 2. rewrite length_app. lia. Qed.

Lemma drop_take_while p s : drop (length (take_while p s)) s = drop_while p s.
Proof. rewrite <- (take_drop_while p s) at 2. apply drop_app_length. Qed.

Lemma take_take_while p s : take (length (take_while p s)) s = take_while p s.
Proof. rewrite <- (take_drop_while p s) at 2. apply take_app_length. Qed.

Lemma find_if_drop_while p s :
    find_if (fun x => negb (p x)) s =
      match drop_while p s with [] => None | _ => Some (length (take_while p s)) end.
Proof.
    induction s as [|c s IH]; simpl; [done|].
    destruct (p c) eqn:Hc; simpl; [|done]. rewrite IH. by destruct (drop_while p s).
  Qed.

Lemma split_on_nonnil p s : split_on p s <> [].
Proof. induction s as [|c s IH]; simpl; [done|]. destruct (p c); [done|]. by destruct (split_on p s). Qed.

Lemma split_on_free p s : Forall (fun x => p x = false) s -> split_on p s = [s].
Proof. induction 1 as [|x l Hx _ IH]; simpl; [done|]. by rewrite Hx, IH. Qed.

Lemma split_on_app p l c r :
    Forall (fun x => p x = false) l -> p c = true -> split_on p (l ++ c :: r) = l :: split_on p r.
Proof.
    induction 1 as [|x l Hx _ IH]; intros Hc; simpl; [by rewrite Hc|]. by rewrite Hx, IH.
  Qed.

Lemma split_on_pieces p s : Forall (Forall (fun x => p x = false)) (split_on p s).
Proof.
    induction s as [|c s IH]; simpl; [by repeat constructor|].
    destruct (p c) eqn:Hc; [by constructor|].
    destruct (split_on p s) as [|w ws]; [by repeat constructor|].
    apply Forall_cons in IH as [Hw Hws]. by repeat constructor.
  Qed.
End seq_lemmas.

#[export] Hint Resolve take_while_all drop_while_length split_on_pieces : fdfs.

(** ** Counting *)

Definition countb {A} (f : A -> bool) (l : list A) : nat := length (List.filter f l).

Lemma countb_app {A} (f : A -> bool) l k : countb f (l ++ k) = countb f l + countb f k.
Proof. unfold countb. by rewrite List.filter_app, length_app. Qed.

Lemma countb_le {A} (f : A -> bool) l : countb f l <= length l.
Proof. unfold countb. induction l as [|x l IH]; simpl; [lia|]. destruct (f x); simpl; lia. Qed.

Lemma countb_insert {A} (f : A -> bool) (l : list A) i x y :
  l !! i = Some y ->
  countb f (<[i := x]> l) + Nat.b2n (f y) = countb f l + Nat.b2n (f x).
Proof.
  unfold countb. revert i. induction l as [|z l IH]; intros [|i]; simpl; intros H; simplify_eq.
  - destruct (f x), (f y); simpl; lia.
  - specialize (IH i H). destruct (f z); simpl; lia.
Qed.

Lemma countb_mono {A} (f g : A -> bool) l :
  (forall x, f x = true -> g x = true) -> countb f l <= countb g l.
Proof.
  intros H. unfold countb. induction l as [|x l IH]; simpl; [lia|].
  destruct (f x) eqn:Hf; [rewrite (H x Hf); simpl; lia|]. destruct (g x); simpl; lia.
Qed.

Lemma countb_cons {A} (f : A -> bool) x l : countb f (x :: l) = Nat.b2n (f x) + countb f l.
Proof. unfold countb. simpl. by destruct (f x). Qed.

Lemma countb_map {A} (f : A -> bool) (g : A -> A) l : countb f (g <$> l) = countb (fun x => f (g x)) l.
Proof. induction l as [|x l IH]; [done|]. by rewrite fmap_cons, !countb_cons, IH. Qed.

Lemma countb_existsb {A} (f : A -> bool) l : existsb f l = false <-> countb f l = 0.
Proof.
  unfold countb. induction l as [|x l IH]; simpl; [done|].
  destruct (f x); simpl; [split; [done|lia]|done].
Qed.

(** The sum of the weights of a list. *)
Definition weigh {A} (f : A -> nat) (l : list A) : nat := foldr (fun x n => f x + n) 0 l.

Lemma weigh_app {A} (f : A -> nat) l k : weigh f (l ++ k) = weigh f l + weigh f k.
Proof. unfold weigh. induction l as [|x l IH]; simpl; lia. Qed.

Lemma weigh_single {A} (f : A -> nat) x : weigh f [x] = f x.
Proof. apply Nat.add_0_r. Qed.

Lemma weigh_insert {A} (f : A -> nat) (l : list A) i x y :
  l !! i = Some y -> weigh f (<[i := x]> l) + f y = weigh f l + f x.
Proof.
  unfold weigh. revert i. induction l as [|z l IH]; intros [|i] H; simplify_eq/=; [lia|]. specialize (IH i H). lia.
Qed.

Lemma countb_lookup {A} (f : A -> bool) l : 0 < countb f l -> exists i x, l !! i = Some x /\ f x = true.
Proof.
  induction l as [|x l IH]; [cbn; lia|]. rewrite countb_cons. destruct (f x) eqn:Hf; [by exists 0, x|].
  cbn [Nat.b2n]. intros H. destruct (IH H) as (i & y & Hi & Hy). by exists (S i), y.
Qed.

Lemma countb_zero {A} (f : A -> bool) l : countb f l = 0 <-> Forall (fun x => f x = false) l.
Proof.
  induction l as [|x l IH]; [done|]. rewrite countb_cons, Forall_cons, <- IH. destruct (f x); cbn [Nat.b2n]; (split; [|intros [? ?]]); intros; try split; done || lia.
Qed.

Lemma countb_all {A} (f : A -> bool) l : countb f l = length l <-> Forall (fun x => f x = true) l.
Proof.
  induction l as [|x l IH]; [done|]. rewrite countb_cons, Forall_cons, <- IH. pose proof (countb_le f l).
  destruct (f x); cbn [Nat.b2n length]; (split; [|intros [? ?]]); intros; try split; done || lia.
Qed.

Lemma countb_nil {A} (f : A -> bool) : countb f [] = 0.
Proof. done. Qed.

Lemma countb_replicate {A} (f : A -> bool) n x : countb f (replicate n x) = if f x then n else 0.
Proof. induction n as [|n IH]; cbn [replicate]; [by destruct (f x)|]. rewrite countb_cons, IH. by destruct (f x). Qed.

#[export] Instance countb_Proper {A} (f : A -> bool) : Proper ((≡ₚ) ==> eq) (countb f).
Proof. intros l k Hl. induction Hl; rewrite ?countb_cons; lia. Qed.

Lemma u16_range z : (0 <= u16 z <= 65535)%Z.
Proof. unfold u16, wrapu. pose proof (Z.mod_pos_bound z (2 ^ 16) ltac:(done)). lia. Qed.
