(* ===== verification/CLib.v ===== *)
(** * The C and C++ standard library functions the program relies on

    [strtol], [std::istream::getline], [fgets] and decimal printing, modelled from the
    language standards; and the files a process can open, a finite map from path to
    contents.  Nothing here maps to a line of the repository. *)
From S2P Require Import Prelude.

(** The readable files: path to contents. *)
Abbreviation files := (gmap bytes bytes).

(** ** Decimal digits *)

Definition digit_val (c : ascii) : Z := code c - 48.
Definition digit_chr (d : Z) : ascii := chr (d + 48).

(** Value of a run of digits read rem to right, from accumulator [acc]. *)
Fixpoint dec_value (acc : Z) (s : bytes) : Z :=
  match s with
  | [] => acc
  | c :: s' => dec_value (acc * 10 + digit_val c) s'
  end.

(** The shortest decimal representation of [n], most significant digit first; [fuel] bounds
    the number of digits. *)
Fixpoint dec_go (fuel : nat) (n : Z) (acc : bytes) : bytes :=
  match fuel with
  | 0 => acc
  | S fuel =>
      let acc := digit_chr (n `mod` 10) :: acc in
      if (n <? 10)%Z then acc else dec_go fuel (n / 10) acc
  end.

Definition dec_nat (n : Z) : bytes := dec_go (S (Z.to_nat (Z.log2 n))) n [].

(** Reference decimal printing of an integer, as [%d] prints it. *)
Definition dec (z : Z) : bytes := if (z <? 0)%Z then "-"%char :: dec_nat (- z) else dec_nat z.

(** ** [strtol(s, nullptr, 10)]: skip white space, optional sign, digits; saturates at the
    bounds of [long]. *)
Definition clamp_long (z : Z) : Z := Z.max LONG_MIN (Z.min LONG_MAX z).

Definition strtol (s : bytes) : Z :=
  let s := drop_while isspace s in
  let '(neg, ds) :=
    match s with
    | c :: s' => if (c =c "-"%char) then (true, s') else if (c =c "+"%char) then (false, s') else (false, s)
    | [] => (false, [])
    end in
  let v := dec_value 0 (take_while isdigit ds) in
  clamp_long (if neg then - v else v).

(** ** Writing a buffer from its end: [*(--ptr) = c] on a buffer and an index into it *)
Definition push_front (c : ascii) (st : bytes * nat) : bytes * nat :=
  let '(buf, ptr) := st in (<[ptr - 1 := c]> buf, ptr - 1).

(** The buffer starts with [pre], then [k] characters still to be written up to the pointer,
    then [suf]. *)
Definition region (pre : bytes) (k : nat) (suf : bytes) (st : bytes * nat) : Prop :=
  exists junk, length junk = k /\ st = (pre ++ junk ++ suf, length pre + k).

(** ** Input streams *)

Record istream := IStream { rest : bytes; eofbit : bool; failbit : bool }.

Definition good (st : istream) : bool := negb (eofbit st) && negb (failbit st).

(** Characters [getline] stores before it stops, with at most [room] stored:
    the stored part, what is left, and the bits it sets. The order of the tests is the
    standard's: end of file, then delimiter, then a full buffer. *)
Fixpoint getline_go (room : nat) (s : bytes) {struct s} : bytes * bytes * (bool * bool) :=
  match s with
  | [] => ([], [], (true, false))
  | c :: s' =>
      if c =c LF then ([], s', (false, false))
      else match room with
           | 0 => ([], s, (false, true))
           | S room =>
               let '(stored, rem, bits) := getline_go room s' in (c :: stored, rem, bits)
           end
  end.

(** [st.getline(buf, n)]: the stored characters and the new stream. A stream that is not
    [good] stores nothing and sets the fail bit; extracting nothing sets the fail bit. *)
Definition getline (st : istream) (n : nat) : bytes * istream :=
  if negb (good st) then ([], IStream (rest st) (eofbit st) true)
  else
    let '(stored, rem, (e, f)) := getline_go (n - 1) (rest st) in
    let none := match rest st with [] => true | _ => false end in
    (stored, IStream rem e (f || none)).

(** [fgets(buf, n, fp)]: up to [n - 1] characters, stopping after a newline, which is kept;
    [None] at end of file. *)
Fixpoint fgets_go (room : nat) (s : bytes) {struct s} : bytes * bytes :=
  match room, s with
  | 0, _ => ([], s)
  | _, [] => ([], [])
  | S room, c :: s' =>
      if c =c LF then ([c], s')
      else let '(got, rem) := fgets_go room s' in (c :: got, rem)
  end.

Definition fgets (n : nat) (s : bytes) : option (bytes * bytes) :=
  match s with [] => None | _ => Some (fgets_go (n - 1) s) end.

(** ** Calendar time ([struct tm]) and [strftime] *)

Record tm := MkTm {
  tm_sec : Z; tm_min : Z; tm_hour : Z; tm_mday : Z; tm_mon : Z; tm_year : Z;
  tm_wday : Z; tm_yday : Z; tm_isdst : Z; tm_gmtoff : Z }.

(** The fields of a calendar date that [localtime] and [gmtime] can return. *)
Definition tm_ok (t : tm) : bool :=
  ((0 <=? tm_sec t) && (tm_sec t <=? 60) && (0 <=? tm_min t) && (tm_min t <=? 59) &&
   (0 <=? tm_hour t) && (tm_hour t <=? 23) && (1 <=? tm_mday t) && (tm_mday t <=? 31) &&
   (0 <=? tm_mon t) && (tm_mon t <=? 11) && (-900 <=? tm_year t) && (tm_year t <=? 8099) &&
   (0 <=? tm_wday t) && (tm_wday t <=? 6))%Z.

(** Decimal padded with zeros on the left to [w] digits. *)
Definition zpad (w : nat) (n : Z) : bytes :=
  let ds := dec_nat n in replicate (w - length ds) "0"%char ++ ds.

(** [strftime(_, _, "%Y-%m-%d %H:%M:%S", &t)]. *)
Definition strftime_iso (t : tm) : bytes :=
  dec (tm_year t + 1900) ++ B "-" ++ zpad 2 (tm_mon t + 1) ++ B "-" ++ zpad 2 (tm_mday t) ++ B " " ++
  zpad 2 (tm_hour t) ++ B ":" ++ zpad 2 (tm_min t) ++ B ":" ++ zpad 2 (tm_sec t).

(** ** [printf] formats: the directives the program uses, [%s], [%d] and [%%] *)

Inductive printf_arg := AStr (s : bytes) | AInt (z : Z).

(** The complete output of a format; [None] when a directive is unknown or has no argument
    of its type. *)
Fixpoint vformat (fmt : bytes) (args : list printf_arg) : option bytes :=
  match fmt with
  | [] => Some []
  | c :: fmt' =>
      if c =c "%"%char then
        match fmt' with
        | [] => None
        | d :: fmt' =>
            if d =c "%"%char then cons "%"%char <$> vformat fmt' args
            else match args with
                 | AStr s :: args => if d =c "s"%char then app (c_str s) <$> vformat fmt' args else None
                 | AInt z :: args => if d =c "d"%char then app (dec z) <$> vformat fmt' args else None
                 | [] => None
                 end
        end
      else cons c <$> vformat fmt' args
  end.

(** [vsnprintf(buf, n, fmt, ap)]: the return value and the buffer afterwards, whose first
    [n - 1] characters and a NUL are written when [n] is not 0. *)
Definition vsnprintf (buf : bytes) (n : nat) (out : bytes) : Z * bytes :=
  (Z.of_nat (length out),
   match n with
   | 0 => buf
   | S m => let w := take m out ++ [NUL] in w ++ drop (length w) buf
   end).

(** ** Lemmas: characters *)

Lemma code_range c : (0 <= code c < 256)%Z.
Proof. unfold code. pose proof (N_ascii_bounded c). lia. Qed.

Lemma code_chr z : (0 <= z < 256)%Z -> code (chr z) = z.
Proof. intros H. unfold code, chr. rewrite N_ascii_embedding by lia. lia. Qed.

Lemma chr_code c : chr (code c) = c.
Proof. unfold code, chr. rewrite N2Z.id. apply ascii_N_embedding. Qed.

Lemma code_inj c d : code c = code d -> c = d.
Proof. intros H. by rewrite <- (chr_code c), H, chr_code. Qed.

Lemma digit_val_chr d : (0 <= d < 10)%Z -> digit_val (digit_chr d) = d.
Proof. intros H. unfold digit_val, digit_chr. rewrite code_chr; lia. Qed.

Lemma isdigit_digit_chr d : (0 <= d < 10)%Z -> isdigit (digit_chr d) = true.
Proof.
  intros H. unfold isdigit, digit_chr. rewrite code_chr by lia.
  apply andb_true_iff. rewrite !Z.leb_le. lia.
Qed.

Lemma isdigit_range c : isdigit c = true -> (0 <= digit_val c < 10)%Z.
Proof. unfold isdigit, digit_val. intros. to_prop. lia. Qed.

Lemma isdigit_not_space c : isdigit c = true -> isspace c = false.
Proof. unfold isdigit, isspace. intros. to_prop. apply orb_false_iff. rewrite andb_false_iff.
  rewrite Z.eqb_neq, !Z.leb_gt. lia. Qed.

#[export] Hint Resolve code_range isdigit_digit_chr : fdfs.

(** ** Lemmas: decimal printing and reading *)

Lemma dec_value_app a s t : dec_value a (s ++ t) = dec_value (dec_value a s) t.
Proof. revert a. induction s as [|c s IH]; intros a; simpl; auto. Qed.

Lemma dec_value_nonneg a s : (0 <= a)%Z -> Forall (fun c => isdigit c = true) s -> (0 <= dec_value a s)%Z.
Proof.
  intros Ha Hs. revert a Ha. induction Hs as [|c s Hc _ IH]; intros a Ha; simpl; [done|].
  apply IH. pose proof (isdigit_range c Hc). lia.
Qed.

Lemma dec_go_digits fuel n acc :
  (0 <= n)%Z -> Forall (fun c => isdigit c = true) acc ->
  Forall (fun c => isdigit c = true) (dec_go fuel n acc).
Proof.
  revert n acc. induction fuel as [|fuel IH]; intros n acc Hn Hacc; simpl; [done|].
  pose proof (Z.mod_pos_bound n 10 ltac:(lia)).
  case_test; [constructor; auto with fdfs|].
  apply IH; [apply Z.div_pos; lia|]. constructor; auto with fdfs.
Qed.

Lemma dec_go_nonnil fuel n acc : acc <> [] \/ 0 < fuel -> dec_go fuel n acc <> [].
Proof.
  revert n acc. induction fuel as [|fuel IH]; intros n acc H; simpl; [intuition lia|].
  case_test; [done|]. apply IH. by left.
Qed.

Lemma dec_go_value fuel n acc :
  (0 <= n < 2 ^ Z.of_nat fuel)%Z -> dec_value 0 (dec_go fuel n acc) = dec_value n acc.
Proof.
  revert n acc. induction fuel as [|fuel IH]; intros n acc Hn; simpl.
  - change (2 ^ Z.of_nat 0)%Z with 1%Z in Hn. by replace n with 0%Z by lia.
  - pose proof (Z.mod_pos_bound n 10 ltac:(lia)) as Hm.
    pose proof (Z.div_mod n 10 ltac:(lia)) as Hd.
    destruct (n <? 10)%Z eqn:Hlt; to_prop.
    + simpl. rewrite digit_val_chr by lia. rewrite Z.mod_small by lia. by f_equal; lia.
    + rewrite IH; [simpl; rewrite digit_val_chr by lia; f_equal; lia|].
      rewrite Nat2Z.inj_succ, Z.pow_succ_r in Hn by lia.
      split; [apply Z.div_pos; lia|]. apply Z.div_lt_upper_bound; lia.
Qed.

Lemma log2_fuel n : (0 <= n)%Z -> (0 <= n < 2 ^ Z.of_nat (S (Z.to_nat (Z.log2 n))))%Z.
Proof.
  intros Hn. rewrite Nat2Z.inj_succ, Z2Nat.id by apply Z.log2_nonneg.
  destruct (Z.eq_dec n 0) as [->|]; [done|]. pose proof (Z.log2_spec n). lia.
Qed.

Lemma dec_nat_value n : (0 <= n)%Z -> dec_value 0 (dec_nat n) = n.
Proof. intros Hn. unfold dec_nat. rewrite dec_go_value; [done|by apply log2_fuel]. Qed.

Lemma dec_nat_digits n : (0 <= n)%Z -> Forall (fun c => isdigit c = true) (dec_nat n).
Proof. intros Hn. by apply dec_go_digits. Qed.

Lemma dec_nat_nonnil n : dec_nat n <> [].
Proof. apply dec_go_nonnil. right. lia. Qed.

Lemma dec_nat_inj m n : (0 <= m)%Z -> (0 <= n)%Z -> dec_nat m = dec_nat n -> m = n.
Proof. intros Hm Hn H. by rewrite <- (dec_nat_value m), <- (dec_nat_value n), H. Qed.

#[export] Hint Resolve dec_nat_digits dec_nat_nonnil : fdfs.

Lemma isdigit_minus : isdigit "-"%char = false.
Proof. reflexivity. Qed.

Lemma strtol_dec z : strtol (dec z) = clamp_long z.
Proof.
  unfold dec. destruct (z <? 0)%Z eqn:Hz; to_prop.
  - unfold strtol. simpl. rewrite take_while_id by (apply dec_nat_digits; lia).
    rewrite dec_nat_value by lia. f_equal. lia.
  - pose proof (dec_nat_digits z Hz) as Hds. pose proof (dec_nat_value z Hz) as Hv.
    destruct (dec_nat z) as [|c s] eqn:Hd; [by apply dec_nat_nonnil in Hd|].
    unfold strtol. apply Forall_cons in Hds as Hc. destruct Hc as [Hc _].
    simpl drop_while. rewrite (isdigit_not_space c Hc).
    assert ((c =c "-"%char) = false) as ->.
    { apply Ascii.eqb_neq. intros ->. done. }
    assert ((c =c "+"%char) = false) as ->.
    { apply Ascii.eqb_neq. intros ->. done. }
    by rewrite take_while_id, Hv.
Qed.

(** ** Lemmas: lines *)

Definition is_lf (c : ascii) : bool := c =c LF.

Lemma getline_go_line room l r :
  Forall (fun c => is_lf c = false) l -> length l <= room ->
  getline_go room (l ++ LF :: r) = (l, r, (false, false)).
Proof.
  intros Hl. revert room. induction Hl as [|c l Hc _ IH]; intros room Hlen; simpl in *; [done|].
  unfold is_lf in Hc. rewrite Hc. destruct room as [|room]; [lia|]. by rewrite IH by lia.
Qed.

Lemma getline_go_last room l :
  Forall (fun c => is_lf c = false) l -> length l <= room ->
  getline_go room l = (l, [], (true, false)).
Proof.
  intros Hl. revert room. induction Hl as [|c l Hc _ IH]; intros room Hlen; simpl in *; [done|].
  unfold is_lf in Hc. rewrite Hc. destruct room as [|room]; [lia|]. by rewrite IH by lia.
Qed.

Lemma getline_go_long room l r :
  Forall (fun c => is_lf c = false) l -> room < length l ->
  getline_go room (l ++ r) = (take room l, drop room l ++ r, (false, true)).
Proof.
  intros Hl. revert room. induction Hl as [|c l Hc _ IH]; intros room Hlen; simpl in *; [lia|].
  unfold is_lf in Hc. rewrite Hc. destruct room as [|room]; [done|]. by rewrite IH by lia.
Qed.

Lemma fgets_go_app room s : let '(got, rem) := fgets_go room s in got ++ rem = s.
Proof.
  revert s. induction room as [|room IH]; intros [|c s]; simpl; auto.
  destruct (c =c LF); [done|]. specialize (IH s). destruct (fgets_go room s). simpl. congruence.
Qed.

Lemma fgets_go_length room s : length (fst (fgets_go room s)) <= room.
Proof.
  revert s. induction room as [|room IH]; intros [|c s]; simpl; try lia.
  destruct (c =c LF); simpl; [lia|]. specialize (IH s). destruct (fgets_go room s). simpl in *. lia.
Qed.

(** ** Lemmas: decimal digits by position *)

Lemma dec_go_acc fuel n acc : dec_go fuel n acc = dec_go fuel n [] ++ acc.
Proof.
  revert n acc. induction fuel as [|fuel IH]; intros n acc; simpl; [done|].
  case_test; [done|]. rewrite IH, (IH _ [digit_chr (n `mod` 10)]), <- app_assoc. done.
Qed.

Lemma dec_go_fuel f1 f2 n :
  (0 <= n)%Z -> (n < 2 ^ Z.of_nat f1)%Z -> (n < 2 ^ Z.of_nat f2)%Z -> 0 < f1 -> 0 < f2 ->
  dec_go f1 n [] = dec_go f2 n [].
Proof.
  revert f2 n. induction f1 as [|f1 IH]; intros f2 n Hn H1 H2 L1 L2; [lia|].
  destruct f2 as [|f2]; [lia|]. simpl. destruct (n <? 10)%Z eqn:Hlt; [done|]. to_prop.
  rewrite dec_go_acc, (dec_go_acc f2). f_equal.
  rewrite Nat2Z.inj_succ, Z.pow_succ_r in H1, H2 by lia.
  assert (0 < n / 10)%Z by (apply Z.div_str_pos; lia).
  assert (0 < f1) by (destruct f1; [change (2 ^ Z.of_nat 0)%Z with 1%Z in H1; lia|lia]).
  assert (0 < f2) by (destruct f2; [change (2 ^ Z.of_nat 0)%Z with 1%Z in H2; lia|lia]).
  apply IH; try lia; apply Z.div_lt_upper_bound; lia.
Qed.

Lemma dec_nat_small n : (0 <= n < 10)%Z -> dec_nat n = [digit_chr n].
Proof.
  intros Hn. unfold dec_nat. simpl. rewrite (proj2 (Z.ltb_lt n 10)) by lia.
  by rewrite Z.mod_small by lia.
Qed.

Lemma dec_nat_step n : (10 <= n)%Z -> dec_nat n = dec_nat (n / 10) ++ [digit_chr (n `mod` 10)].
Proof.
  intros Hn. assert (0 < n / 10)%Z by (apply Z.div_str_pos; lia).
  pose proof (log2_fuel (n / 10) ltac:(lia)) as Hf.
  pose proof (log2_fuel n ltac:(lia)) as Hg.
  rewrite Nat2Z.inj_succ, Z.pow_succ_r in Hg by lia.
  assert (dec_go (Z.to_nat (Z.log2 n)) (n / 10) [] = dec_nat (n / 10)) as <-.
  { unfold dec_nat. apply dec_go_fuel; [lia| |lia| |lia].
    - apply Z.div_lt_upper_bound; lia.
    - assert (0 < Z.log2 n)%Z by (apply Z.log2_pos; lia). lia. }
  unfold dec_nat. simpl. rewrite (proj2 (Z.ltb_ge n 10)) by lia. apply dec_go_acc.
Qed.

Lemma dec_nat_step2 n :
  (100 <= n)%Z ->
  dec_nat n = dec_nat (n / 100) ++ [digit_chr (n `mod` 100 / 10); digit_chr (n `mod` 100 `mod` 10)].
Proof.
  intros Hn. rewrite dec_nat_step by lia.
  rewrite dec_nat_step by (apply Z.div_le_lower_bound; lia).
  rewrite Z.div_div by lia. change (10 * 10)%Z with 100%Z. rewrite <- app_assoc. simpl.
  pose proof (Z.rem_mul_r n 10 10 ltac:(lia) ltac:(lia)) as Hr. change (10 * 10)%Z with 100%Z in Hr.
  pose proof (Z.mod_pos_bound n 10 ltac:(lia)) as Hb.
  assert (n `mod` 100 / 10 = (n / 10) `mod` 10)%Z as ->.
  { rewrite Hr, Z.mul_comm, Z.div_add by lia. rewrite Z.div_small by lia. lia. }
  assert (n `mod` 100 `mod` 10 = n `mod` 10)%Z as ->.
  { rewrite Hr, Z.mul_comm, Z.mod_add by lia. apply Z.mod_small. lia. }
  done.
Qed.

Lemma dec_nat_two n : (10 <= n < 100)%Z -> dec_nat n = [digit_chr (n / 10); digit_chr (n `mod` 10)].
Proof.
  intros Hn. rewrite dec_nat_step by lia. rewrite dec_nat_small; [done|].
  split; [apply Z.div_pos; lia|apply Z.div_lt_upper_bound; lia].
Qed.

Lemma dec_nat_length_step n : (10 <= n)%Z -> length (dec_nat n) = S (length (dec_nat (n / 10))).
Proof. intros Hn. rewrite dec_nat_step, length_app by lia. simpl. lia. Qed.

(** The number of decimal digits, bounded by powers of ten. *)
Lemma dec_nat_length_bounds n k :
  (0 < k)%nat -> (0 <= n)%Z ->
  (length (dec_nat n) <= k)%nat <-> (n < 10 ^ Z.of_nat k)%Z.
Proof.
  intros Hk Hn. destruct k as [|k]; [lia|]. clear Hk. revert n Hn.
  induction k as [|k IH]; intros n Hn.
  - change (10 ^ Z.of_nat 1)%Z with 10%Z. destruct (Z_lt_le_dec n 10).
    + rewrite dec_nat_small by lia. simpl. lia.
    + rewrite dec_nat_length_step by lia. pose proof (dec_nat_nonnil (n / 10)) as Hne.
      destruct (dec_nat (n / 10)); simpl; [done|lia].
  - rewrite Nat2Z.inj_succ, Z.pow_succ_r by lia. destruct (Z_lt_le_dec n 10).
    + rewrite dec_nat_small by lia. simpl.
      pose proof (Z.pow_pos_nonneg 10 (Z.of_nat (S k)) ltac:(lia) ltac:(lia)). lia.
    + rewrite dec_nat_length_step by lia. specialize (IH (n / 10)%Z (Z.div_pos n 10 Hn ltac:(lia))).
      rewrite <- Nat.succ_le_mono, IH. split; intros H.
      * pose proof (Z.mul_succ_div_gt n 10 ltac:(lia)). lia.
      * apply Z.div_lt_upper_bound; lia.
Qed.

Lemma push_front_region c pre k suf st :
  region pre (S k) suf st -> region pre k (c :: suf) (push_front c st).
Proof.
  intros (junk & Hlen & ->). destruct junk as [|d junk _] using rev_ind; [done|].
  rewrite length_app in Hlen. simpl in Hlen. assert (length junk = k) as Hk by lia.
  exists junk. split; [done|]. unfold push_front.
  replace (length pre + S k - 1) with (length pre + (length junk + 0)) by lia.
  rewrite insert_app_r, <- app_assoc, insert_app_r. simpl. f_equal. lia.
Qed.

Lemma region_start buf pre k :
  length pre + k <= length buf -> take (length pre) buf = pre ->
  region pre k (drop (length pre + k) buf) (buf, length pre + k).
Proof.
  intros Hlen Hpre. exists (take k (drop (length pre) buf)). split.
  - rewrite length_take, length_drop. lia.
  - f_equal. rewrite <- Hpre at 1. rewrite <- drop_drop, take_drop. by rewrite take_drop.
Qed.

(** The first digit of a positive number is not 0. *)
Lemma dec_nat_head n : (0 < n)%Z -> exists d ds, dec_nat n = digit_chr d :: ds /\ (1 <= d <= 9)%Z.
Proof.
  intros Hn. remember (Z.to_nat n) as k eqn:Hk. revert n Hn Hk. induction (lt_wf k) as [k _ IH]. intros n Hn ->.
  destruct (Z.lt_ge_cases n 10) as [Hlt|Hge]; [rewrite dec_nat_small by lia; exists n, []; split; [done|lia]|].
  rewrite dec_nat_step by done. assert (0 < n / 10 < n)%Z as Hq.
  { split; [apply Z.div_str_pos; lia|apply Z.div_lt; lia]. }
  destruct (IH (Z.to_nat (n / 10)) ltac:(lia) (n / 10)%Z ltac:(lia) eq_refl) as (d & ds & -> & Hd).
  exists d, (ds ++ [digit_chr (n `mod` 10)]). done.
Qed.
