(* ===== verification/ConfigReader.v ===== *)
(** * The configuration reader: [src/configReader.cpp], [include/configReader.h]

    [split], [trim] and [str2int], and the [Config] class: its state, [Load] with its read
    loop, and [getValue].  [Load] runs with fuel because the loop need not end. *)
From S2P Require Import Prelude CLib.

(** Error codes of [include/common.h]. *)
Definition SUCCESS : Z := 0.
Definition ERR_NOT_READY : Z := 101.
Definition ERR_PARAM : Z := 103.
Definition ERR_NETWORK : Z := 104.
Definition ERR_TRACKER : Z := 105.
Definition ERR_EV_NEW : Z := 106.
Definition ERR_DO_NOT_EXIST : Z := 107.
Definition ERR_FILE_OPEN_FAILED : Z := 108.

(** ** [split] *)

(** The local lambda: first position at or after [pos] that is not the delimiter. *)
Definition string_find_first_not (s : bytes) (delim : ascii) (pos : option nat) : option nat :=
  match pos with
  | None => None
  | Some pos => find_from (fun c => negb (c =c delim)) s pos
  end.

(** [s.find(delim, pos)]. *)
Definition string_find (s : bytes) (delim : ascii) (pos : option nat) : option nat :=
  match pos with
  | None => None
  | Some pos => find_from (fun c => c =c delim) s pos
  end.

(** The [while (lastPos != npos)] loop. *)
Fixpoint split_loop (fuel : nat) (s : bytes) (delim : ascii) (lastPos pos : option nat)
    (tokens : list bytes) : option (list bytes) :=
  match fuel with
  | 0 => None
  | S fuel =>
      match lastPos with
      | None => Some tokens
      | Some lp =>
          let tokens := tokens ++ [substr s lp ((fun p => p - lp) <$> pos)] in
          let lastPos := string_find_first_not s delim pos in
          let pos := string_find s delim lastPos in
          split_loop fuel s delim lastPos pos tokens
      end
  end.

Definition split (s : bytes) (delim : ascii) : option (list bytes) :=
  let lastPos := string_find_first_not s delim (Some 0) in
  let pos := string_find s delim lastPos in
  split_loop (S (length s)) s delim lastPos pos [].

(** ** [trim] and [str2int] *)

(** [iter1] is the distance of the first iterator from [begin()], [iter2] that of the base of
    the reverse iterator: one past the last character that is not a space. *)
Definition trim (s : bytes) : bytes :=
  let isntspace := fun c => negb (isspace c) in
  let iter1 := default (length s) (find_if isntspace s) in
  let iter2 := default 0 (S <$> rfind_if isntspace s) in
  if (iter1 <? iter2)%nat then take (iter2 - iter1) (drop iter1 s) else [].

Definition str2int (str : bytes) : Z := s32 (strtol (c_str str)).

(** ** [Config] *)

Record Config := MkConfig { filePath : bytes; mItems : gmap bytes bytes }.

(** [std::map::insert]: keeps the value already stored under the key. *)
Definition map_insert (k v : bytes) (m : gmap bytes bytes) : gmap bytes bytes :=
  match m !! k with
  | Some _ => m
  | None => <[k := v]> m
  end.

(** What one line of the file adds to the items. *)
Definition load_line (line : bytes) (items : gmap bytes bytes) : gmap bytes bytes :=
  match split line "="%char with
  | Some [k; v] => map_insert (trim k) (trim v) items
  | _ => items
  end.

Definition GETLINE_MAX : nat := 100.

(** The [while (!fConfig.eof())] loop of [Load]. *)
Fixpoint load_loop (fuel : nat) (fConfig : istream) (items : gmap bytes bytes)
    : option (gmap bytes bytes) :=
  match fuel with
  | 0 => None
  | S fuel =>
      if eofbit fConfig then Some items
      else
        let '(buffer, fConfig) := getline fConfig GETLINE_MAX in
        load_loop fuel fConfig (load_line (c_str buffer) items)
  end.

(** [Load]: the error code and the object afterwards; [None] when [fuel] rounds of the loop
    were not enough. *)
Definition Load (fuel : nat) (fs : files) (conf : Config) : option (Z * Config) :=
  match fs !! filePath conf with
  | None => Some (ERR_FILE_OPEN_FAILED, conf)
  | Some text =>
      items ← load_loop fuel (IStream text false false) (mItems conf);
      Some (0%Z, MkConfig (filePath conf) items)
  end.

Definition getValue (conf : Config) (Key : bytes) : bytes :=
  match mItems conf !! Key with
  | Some v => v
  | None => []
  end.

(** ** Reference definitions *)

(** The non-empty pieces between delimiters. *)
Definition split_spec (s : bytes) (delim : ascii) : list bytes :=
  filter (fun w => w <> []) (split_on (fun c => c =c delim) s).

Definition file_lines (text : bytes) : list bytes := split_on is_lf text.

(** Without the white space at both ends. *)
Definition strip (s : bytes) : bytes := rev (drop_while isspace (rev (drop_while isspace s))).

(** The item of a line that has exactly two non-empty pieces around its equals signs; a line
    ends at a null character. *)
Definition line_item (line : bytes) : option (bytes * bytes) :=
  match split_spec (c_str line) "="%char with [k; v] => Some (strip k, strip v) | _ => None end.

(** The value in the first line of a file that has the key. *)
Definition first_line_value (k text : bytes) : option bytes :=
  snd <$> find (fun kv => fst kv =s k) (omap line_item (file_lines text)).

(** The loop of [Load] without the stream. *)
Definition load_lines (text : bytes) (items : gmap bytes bytes) : gmap bytes bytes :=
  foldl (fun m line => load_line (c_str line) m) items (file_lines text).

(** A configuration file with one [key = value] line per pair. *)
Definition print_item (kv : bytes * bytes) : bytes := fst kv ++ B " = " ++ snd kv ++ [LF].
Definition print_config (kvs : list (bytes * bytes)) : bytes := concat (map print_item kvs).

(** A word that survives [getline], [split] and [trim]: printable, without the separator,
    not empty and not surrounded by spaces. *)
Definition word_char (c : ascii) : bool :=
  negb (c =c "="%char) && negb (is_lf c) && negb (c =c NUL).

Definition good_word (w : bytes) : bool :=
  forallb word_char w &&
  match w with [] => false | c :: _ => negb (isspace c) end &&
  match last w with None => false | Some c => negb (isspace c) end.

Definition good_item (kv : bytes * bytes) : bool :=
  good_word (fst kv) && good_word (snd kv) && (length (fst kv) + length (snd kv) <=? 96)%nat.

(** The value of the first pair with key [k]. *)
Definition first_value (k : bytes) (kvs : list (bytes * bytes)) : bytes :=
  match find_if (fun kv => fst kv =s k) kvs with
  | Some i => default [] (snd <$> kvs !! i)
  | None => []
  end.

Definition spaces (s : bytes) : Prop := Forall (fun c => isspace c = true) s.

(** No space at either end. *)
Definition trimmed (w : bytes) : Prop :=
  (forall c, head w = Some c -> isspace c = false) /\ (forall c, last w = Some c -> isspace c = false).

(** ** [split] splits at runs of the delimiter *)

Section split_facts.
  Variable delim : ascii.
Let is_delim : ascii -> bool := fun c => c =c delim.
Let not_delim : ascii -> bool := fun c => negb (c =c delim).

Lemma words_step (r : bytes) :
    filter (fun w => w <> []) (split_on is_delim r) =
      match drop_while is_delim r with
      | [] => []
      | r1 => take_while not_delim r1 ::
              filter (fun w => w <> []) (split_on is_delim (drop_while not_delim r1))
      end.
Proof.
    induction r as [|c r IH]; [done|]. simpl. destruct (is_delim c) eqn:Hc.
    - rewrite filter_cons_False by (intros H; by apply H). done.
    - assert (not_delim c = true) as Hn by (unfold not_delim; unfold is_delim in Hc; by rewrite Hc).
      rewrite Hn. rewrite <- (take_drop_while not_delim r) at 1.
      pose proof (take_while_all not_delim r) as Ht.
      assert (Forall (fun x => is_delim x = false) (take_while not_delim r)) as Hf.
      { eapply Forall_impl; [exact Ht|]. intros x. unfold not_delim, is_delim. by intros ->%negb_true_iff. }
      destruct (drop_while not_delim r) as [|d q] eqn:Hq.
      + rewrite app_nil_r, (split_on_free is_delim) by done. simpl.
        rewrite filter_cons_True by done. done.
      + pose proof (drop_while_head _ _ _ _ Hq) as Hd. unfold not_delim in Hd.
        apply negb_false_iff in Hd. rewrite (split_on_app is_delim) by done.
        rewrite filter_cons_True by done. simpl. unfold is_delim at 2. rewrite Hd.
        by rewrite filter_cons_False by (intros H; by apply H).
  Qed.

Lemma find_first_not_drop s i :
    string_find_first_not s delim (Some i) =
      match drop_while is_delim (drop i s) with
      | [] => None
      | _ => Some (i + length (take_while is_delim (drop i s)))
      end.
Proof.
    unfold string_find_first_not, find_from. rewrite (find_if_drop_while is_delim).
    by destruct (drop_while is_delim (drop i s)).
  Qed.

Lemma find_drop s i :
    string_find s delim (Some i) =
      match drop_while not_delim (drop i s) with
      | [] => None
      | _ => Some (i + length (take_while not_delim (drop i s)))
      end.
Proof.
    unfold string_find, find_from.
    assert (find_if (fun c => c =c delim) (drop i s) = find_if (fun c => negb (not_delim c)) (drop i s)) as ->.
    { generalize (drop i s). intros l. induction l as [|c l IH]; simpl; [done|].
      unfold not_delim at 1. rewrite negb_involutive, IH. done. }
    rewrite (find_if_drop_while not_delim). by destruct (drop_while not_delim (drop i s)).
  Qed.

Lemma split_loop_words fuel s i tokens :
    length s - i < fuel ->
    let lp := string_find_first_not s delim (Some i) in
    split_loop fuel s delim lp (string_find s delim lp) tokens =
      Some (tokens ++ filter (fun w => w <> []) (split_on is_delim (drop i s))).
Proof.
    revert i tokens. induction fuel as [|fuel IH]; intros i tokens Hfuel; [lia|].
    rewrite words_step. cbv zeta. rewrite find_first_not_drop.
    destruct (drop_while is_delim (drop i s)) as [|c r1] eqn:Hr1; simpl; [by rewrite app_nil_r|].
    set (j := i + length (take_while is_delim (drop i s))).
    assert (drop j s = c :: r1) as Hj.
    { unfold j. rewrite <- drop_drop, drop_take_while. done. }
    assert (j < length s) as Hlt.
    { assert (length (drop j s) = S (length r1)) as Hl by (rewrite Hj; done). rewrite length_drop in Hl. lia. }
    assert (i <= j) by (unfold j; lia).
    pose proof (find_drop s j) as Hfd. unfold string_find in Hfd. rewrite Hfd, Hj. clear Hfd.
    pose proof (drop_while_head _ _ _ _ Hr1) as Hc.
    assert (not_delim c = true) as Hn by (unfold not_delim; unfold is_delim in Hc; by rewrite Hc).
    simpl. rewrite Hn.
    destruct (drop_while not_delim r1) as [|d q] eqn:Hq; simpl.
    - unfold substr; simpl. rewrite Hj. destruct fuel; [lia|]. simpl.
      assert (take_while not_delim r1 = r1) as -> by (apply take_while_id, drop_while_nil; done).
      done.
    - set (k := j + S (length (take_while not_delim r1))).
      assert (drop k s = d :: q) as Hk.
      { unfold k. rewrite <- drop_drop, Hj. simpl. by rewrite drop_take_while. }
      unfold substr; simpl. replace (k - j) with (S (length (take_while not_delim r1))) by (unfold k; lia).
      rewrite Hj. simpl.
      rewrite (IH k) by (unfold k; lia). rewrite Hk, <- app_assoc. simpl.
      by rewrite take_take_while.
  Qed.
End split_facts.

Lemma split_words s delim : split s delim = Some (split_spec s delim).
Proof. unfold split, split_spec. rewrite (split_loop_words delim) by lia. done. Qed.

(** [split] returns, within its fuel, exactly the non-empty runs between delimiters, in
    order: it agrees with the structural reference [split_spec] on every input. *)
Theorem split_correct (s : bytes) (delim : ascii) : split s delim = Some (split_spec s delim).
Proof. apply split_words. Qed.

(** ** [trim] and [str2int] *)

Lemma trim_app (l w r : bytes) :
  spaces l -> spaces r -> trimmed w -> trim (l ++ w ++ r) = w.
Proof.
  intros Hl Hr [Hh Ht]. unfold trim.
  assert (forall t, spaces t -> Forall (fun c => negb (isspace c) = false) t) as Hsp.
  { intros t Ht'. eapply Forall_impl; [exact Ht'|]. by intros c ->. }
  destruct w as [|c w'] using rev_ind; simpl.
  - assert (find_if (fun c => negb (isspace c)) (l ++ r) = None) as ->.
    { apply find_if_none, Forall_app. split; by apply Hsp. }
    assert (rfind_if (fun c => negb (isspace c)) (l ++ r) = None) as ->.
    { apply rfind_if_none, Forall_app. split; by apply Hsp. }
    done.
  - clear IHw'. assert (isspace c = false) as Hc by (apply Ht; by rewrite last_snoc).
    rewrite <- app_assoc, app_assoc. simpl.
    rewrite (rfind_if_app _ (l ++ w') c r); [|by apply Hsp|by rewrite Hc].
    destruct (w' ++ [c]) as [|d w2] eqn:Hw; [by destruct w'|].
    assert (isspace d = false) as Hd by (by apply Hh).
    assert ((l ++ w') ++ c :: r = l ++ d :: w2 ++ r) as Heq.
    { rewrite <- app_assoc. f_equal. change (d :: w2 ++ r) with ((d :: w2) ++ r).
      by rewrite <- Hw, <- app_assoc. }
    rewrite Heq, (find_if_app _ l d (w2 ++ r)); [|by apply Hsp|by rewrite Hd].
    simpl. rewrite length_app, drop_app_length.
    rewrite (proj2 (Nat.ltb_lt _ _)) by lia.
    change (d :: w2 ++ r) with ((d :: w2) ++ r).
    apply take_app_length'. rewrite <- Hw, length_app. simpl. lia.
Qed.

Lemma trim_parts (s : bytes) :
  exists l w r, s = l ++ w ++ r /\ spaces l /\ spaces r /\ trimmed w.
Proof.
  destruct (find_if (fun c => negb (isspace c)) s) as [i|] eqn:Hf.
  - apply find_if_some in Hf as (l & c & t & -> & _ & Hc & Hl).
    destruct (rfind_if (fun c => negb (isspace c)) (c :: t)) as [j|] eqn:Hr.
    + apply rfind_if_some in Hr as (u & d & r & Heq & _ & Hd & Hr).
      exists l, (u ++ [d]), r. rewrite <- app_assoc. simpl. rewrite <- Heq.
      split_and!; [done| | |split].
      * eapply Forall_impl; [exact Hl|]. by intros x ->%negb_false_iff.
      * eapply Forall_impl; [exact Hr|]. by intros x ->%negb_false_iff.
      * intros x Hx. destruct u; simpl in *; simplify_eq; by apply negb_true_iff.
      * intros x Hx. rewrite last_snoc in Hx. simplify_eq. by apply negb_true_iff.
    + apply rfind_if_none, Forall_cons in Hr as [Hr _]. congruence.
  - exists s, [], []. rewrite app_nil_r. split_and!; [done| |by constructor|by split].
    apply find_if_none in Hf. eapply Forall_impl; [exact Hf|]. by intros x ->%negb_false_iff.
Qed.

(** [trim s] is the only [w] with no space at either end such that [s] is [w] with white
    space put before and after it (the empty string when [s] is all white space). *)
Theorem trim_correct (s w : bytes) :
  trim s = w <-> exists l r, s = l ++ w ++ r /\ spaces l /\ spaces r /\ trimmed w.
Proof.
  split.
  - intros <-. destruct (trim_parts s) as (l & w & r & -> & Hl & Hr & Hw).
    exists l, r. rewrite trim_app; auto.
  - intros (l & r & -> & Hl & Hr & Hw). by apply trim_app.
Qed.

Lemma c_str_id (s : bytes) : Forall (fun c => (c =c NUL) = false) s -> c_str s = s.
Proof. intros H. apply take_while_id. eapply Forall_impl; [exact H|]. by intros c ->. Qed.

Lemma digits_no_nul (s : bytes) :
  Forall (fun c => isdigit c = true) s -> Forall (fun c => (c =c NUL) = false) s.
Proof. intros H. eapply Forall_impl; [exact H|]. intros c Hc. apply Ascii.eqb_neq. by intros ->. Qed.

Lemma c_str_dec (z : Z) : c_str (dec z) = dec z.
Proof.
  apply c_str_id. unfold dec. case_test; to_prop.
  - constructor; [done|]. apply digits_no_nul, dec_nat_digits. lia.
  - apply digits_no_nul, dec_nat_digits. lia.
Qed.

Lemma s32_id z : (INT_MIN <= z <= INT_MAX)%Z -> s32 z = z.
Proof. unfold INT_MIN, INT_MAX, s32, wraps. intros H. rewrite Z.mod_small by lia. lia. Qed.

(** [str2int] inverts decimal printing on the range of [int]; beyond it the result is
    not an error: values of [long] are reduced modulo 2^32, and texts beyond [long]
    saturate first and give -1 or 0. *)
Theorem str2int_dec (z : Z) :
  ((INT_MIN <= z <= INT_MAX)%Z -> str2int (dec z) = z) /\
  ((LONG_MIN <= z <= LONG_MAX)%Z -> str2int (dec z) = s32 z) /\
  ((LONG_MAX <= z)%Z -> str2int (dec z) = (-1)%Z) /\
  ((z <= LONG_MIN)%Z -> str2int (dec z) = 0%Z).
Proof.
  unfold str2int. rewrite c_str_dec, strtol_dec. unfold clamp_long.
  split_and!; intros H.
  - rewrite Z.max_r, Z.min_r by (unfold INT_MIN, INT_MAX, LONG_MAX, LONG_MIN in *; lia).
    by apply s32_id.
  - by rewrite Z.min_r, Z.max_r by lia.
  - rewrite Z.min_l, Z.max_r by (unfold LONG_MAX, LONG_MIN in *; lia). reflexivity.
  - rewrite Z.max_l by (unfold LONG_MAX, LONG_MIN in *; lia). reflexivity.
Qed.

Lemma str2int_dec_witness : str2int (dec (-42)) = (-42)%Z.
Proof. apply (proj1 (str2int_dec (-42))). unfold INT_MIN, INT_MAX. lia. Defined.

(** ** [Load] *)

Lemma file_lines_cases (text : bytes) :
  (Forall (fun c => is_lf c = false) text /\ file_lines text = [text]) \/
  (exists l r, text = l ++ LF :: r /\ Forall (fun c => is_lf c = false) l /\
               file_lines text = l :: file_lines r).
Proof.
  unfold file_lines. destruct (find_if is_lf text) as [i|] eqn:Hf.
  - right. apply find_if_some in Hf as (l & c & r & -> & _ & Hc & Hl).
    exists l, r. assert (c = LF) as -> by (by apply Ascii.eqb_eq).
    split_and!; [done|done|]. by apply split_on_app.
  - left. apply find_if_none in Hf. split; [done|]. by apply split_on_free.
Qed.

Lemma load_loop_eof fuel text f items :
  0 < fuel -> load_loop fuel (IStream text true f) items = Some items.
Proof. destruct fuel; [lia|done]. Qed.

(** A stream that failed before the end of the file stays so: the loop makes no progress. *)
Lemma load_loop_failed fuel text items : load_loop fuel (IStream text false true) items = None.
Proof.
  revert items. induction fuel as [|fuel IH]; intros items; simpl; [done|].
  unfold getline, good. simpl. apply IH.
Qed.

Definition short_line (l : bytes) : Prop := length l < GETLINE_MAX.

Lemma load_loop_line fuel l r items :
  Forall (fun c => is_lf c = false) l -> short_line l ->
  load_loop (S fuel) (IStream (l ++ LF :: r) false false) items =
    load_loop fuel (IStream r false false) (load_line (c_str l) items).
Proof.
  intros Hl Hlen. simpl. unfold getline, good. simpl rest.
  rewrite getline_go_line; [|done|unfold short_line, GETLINE_MAX in *; simpl; lia].
  by destruct l.
Qed.

Lemma load_loop_spec text fuel items :
  Forall short_line (file_lines text) -> length (file_lines text) < fuel ->
  load_loop fuel (IStream text false false) items = Some (load_lines text items).
Proof.
  unfold load_lines. remember (file_lines text) as ls eqn:Hls. revert text Hls fuel items.
  induction ls as [|l ls IH]; intros text Hls fuel items Hshort Hfuel.
  { by destruct (split_on_nonnil is_lf text). }
  destruct fuel as [|fuel]; [simpl in *; lia|]. apply Forall_cons in Hshort as [Hl Hshort].
  destruct (file_lines_cases text) as [[Hfree Heq]|(l' & r & -> & Hl' & Heq)];
    rewrite Heq in Hls; simplify_eq.
  - simpl. unfold getline, good. simpl rest.
    rewrite getline_go_last; [|done|unfold short_line, GETLINE_MAX in *; simpl; lia].
    apply load_loop_eof. simpl in Hfuel. lia.
  - rewrite load_loop_line by done. simpl. apply IH; [done|done|]. simpl in Hfuel. lia.
Qed.

Lemma load_loop_long text fuel items :
  ~ Forall short_line (file_lines text) -> load_loop fuel (IStream text false false) items = None.
Proof.
  remember (file_lines text) as ls eqn:Hls. revert text Hls fuel items.
  induction ls as [|l ls IH]; intros text Hls fuel items Hlong.
  { by destruct (split_on_nonnil is_lf text). }
  destruct fuel as [|fuel]; [done|].
  assert (forall t, Forall (fun c => is_lf c = false) l -> ~ short_line l ->
    load_loop (S fuel) (IStream (l ++ t) false false) items = None) as Hstuck.
  { intros t Hfree Hl. simpl. unfold getline, good. simpl rest. unfold short_line, GETLINE_MAX in Hl.
    rewrite getline_go_long; [|done|unfold GETLINE_MAX; simpl; lia].
    simpl. apply load_loop_failed. }
  assert (Decision (short_line l)) as [Hl|Hl] by (unfold short_line; apply _).
  - destruct (file_lines_cases text) as [[Hfree Heq]|(l' & r & -> & Hl' & Heq)];
      rewrite Heq in Hls; simplify_eq.
    + destruct Hlong. by apply Forall_singleton.
    + rewrite load_loop_line by done. apply IH; [done|]. intros Hr. apply Hlong. by constructor.
  - destruct (file_lines_cases text) as [[Hfree Heq]|(l' & r & -> & Hl' & Heq)];
      rewrite Heq in Hls; simplify_eq; [|by apply Hstuck].
    rewrite <- (app_nil_r text). by apply Hstuck.
Qed.

Lemma strip_parts (s : bytes) : exists l r, s = l ++ strip s ++ r /\ spaces l /\ spaces r /\ trimmed (strip s).
Proof.
  unfold strip. set (a := drop_while isspace s). pose proof (take_drop_while isspace s) as Hs. fold a in Hs.
  set (b := drop_while isspace (rev a)). pose proof (take_drop_while isspace (rev a)) as Ha. fold b in Ha.
  exists (take_while isspace s), (rev (take_while isspace (rev a))).
  split_and!; [by rewrite <- rev_app_distr, Ha, rev_involutive|apply take_while_all| |].
  - unfold spaces. apply Forall_rev. apply take_while_all.
  - split; intros c Hc.
    + assert (exists r, a = c :: r) as [r Hr].
      { apply (f_equal (@rev ascii)) in Ha. rewrite rev_app_distr, rev_involutive in Ha. rewrite <- Ha. destruct (rev b); [done|]. injection Hc as ->. by eexists. }
      by apply (drop_while_head isspace s c r).
    + destruct b as [|d r] eqn:Hb; [done|]. change (rev (d :: r)) with (rev r ++ [d]) in Hc. rewrite last_snoc in Hc. injection Hc as <-.
      by apply (drop_while_head isspace (rev a) d r).
Qed.

Lemma trim_strip s : trim s = strip s.
Proof. destruct (strip_parts s) as (l & r & Hs & Hl & Hr & Ht). rewrite Hs at 1. by apply trim_app. Qed.

Lemma map_lookup_insert (k k' v : bytes) (m : gmap bytes bytes) :
  map_insert k v m !! k' = match m !! k' with
                           | Some v' => Some v'
                           | None => if decide (k = k') then Some v else None
                           end.
Proof.
  unfold map_insert. destruct (m !! k) as [w|] eqn:Hk.
  - destruct (m !! k') eqn:Hk'; [done|]. case_decide; congruence.
  - rewrite lookup_insert. case_decide; [subst; by rewrite Hk|]. by destruct (m !! k').
Qed.

Lemma load_line_is line items :
  load_line (c_str line) items = match line_item line with Some (k, v) => map_insert k v items | None => items end.
Proof.
  unfold load_line, line_item. rewrite split_words. destruct (split_spec _ _) as [|k [|v [|? ?]]]; try done. by rewrite !trim_strip.
Qed.

Lemma load_lines_lookup lines items k :
  foldl (fun m line => load_line (c_str line) m) items lines !! k =
    match items !! k with
    | Some v => Some v
    | None => snd <$> find (fun kv => fst kv =s k) (omap line_item lines)
    end.
Proof.
  revert items. induction lines as [|line lines IH]; intros items; cbn [foldl omap list_omap]; [by destruct (items !! k)|].
  rewrite IH, load_line_is. destruct (line_item line) as [[k' v]|]; [|done]. rewrite map_lookup_insert.
  destruct (items !! k); [done|]. cbn [find fst]. by case_decide as Hk; [rewrite bool_decide_eq_true_2|rewrite bool_decide_eq_false_2].
Qed.

(** C7: [Load] of an existing file whose lines (what lies between newlines) have fewer than
    100 characters ends within one round per line plus one, returns 0 and keeps the path; a key
    has then the value it had before, or else the one in the first line that has the key: a line
    has an item when it has exactly two non-empty pieces between equals signs, which the white
    space around them is no part of.  A missing file gives [ERR_FILE_OPEN_FAILED] and changes nothing. *)
Theorem Load_correct (fs : files) (conf : Config) (fuel : nat) :
  (fs !! filePath conf = None -> Load fuel fs conf = Some (ERR_FILE_OPEN_FAILED, conf)) /\
  (forall text, fs !! filePath conf = Some text ->
     Forall short_line (file_lines text) -> length (file_lines text) < fuel ->
     exists conf', Load fuel fs conf = Some (0%Z, conf') /\ filePath conf' = filePath conf /\
       forall k, mItems conf' !! k = match mItems conf !! k with Some v => Some v | None => first_line_value k text end).
Proof.
  unfold Load. split.
  - by intros ->.
  - intros text -> Hshort Hfuel. rewrite load_loop_spec by done. eexists. split; [done|]. split; [done|]. intros k. apply load_lines_lookup.
Qed.

(** C37: the read loop of [Load] never ends when some line has 100 characters or more: the
    stream is left failed but not at end of file, so no amount of fuel is enough. *)
Theorem Load_diverges (fs : files) (conf : Config) (text : bytes) :
  fs !! filePath conf = Some text -> ~ Forall short_line (file_lines text) ->
  forall fuel, Load fuel fs conf = None.
Proof. intros Hfs Hlong fuel. unfold Load. by rewrite Hfs, load_loop_long. Qed.

(** A good word has no separator, newline or NUL, and spaces at neither end. *)
Lemma good_word_spec w :
  good_word w = true ->
  w <> [] /\ trimmed w /\ Forall (fun c => (c =c "="%char) = false) w /\
  Forall (fun c => is_lf c = false) w /\ Forall (fun c => (c =c NUL) = false) w.
Proof.
  unfold good_word. intros [[Hw Hh]%andb_true_iff Ht]%andb_true_iff.
  assert (Forall (fun c => word_char c = true) w) as Hc by (by apply forallb_Forall).
  destruct w as [|c w]; [done|]. split_and!; [done| | | |].
  - split; intros d Hd; simpl in *.
    + simplify_eq. by apply negb_true_iff.
    + rewrite Hd in Ht. by apply negb_true_iff.
  - eapply Forall_impl; [exact Hc|]. unfold word_char. intros d Hd. rewrite !andb_true_iff, !negb_true_iff in Hd. tauto.
  - eapply Forall_impl; [exact Hc|]. unfold word_char. intros d Hd. rewrite !andb_true_iff, !negb_true_iff in Hd. tauto.
  - eapply Forall_impl; [exact Hc|]. unfold word_char. intros d Hd. rewrite !andb_true_iff, !negb_true_iff in Hd. tauto.
Qed.

Definition item_line (kv : bytes * bytes) : bytes := fst kv ++ B " = " ++ snd kv.

Lemma print_item_line kv : print_item kv = item_line kv ++ [LF].
Proof. unfold print_item, item_line. by rewrite <- !app_assoc. Qed.

Lemma item_line_free (p : ascii -> bool) kv :
  Forall (fun c => p c = false) (fst kv) -> Forall (fun c => p c = false) (snd kv) ->
  Forall (fun c => p c = false) (B " = ") -> Forall (fun c => p c = false) (item_line kv).
Proof. intros. unfold item_line. by rewrite !Forall_app. Qed.

Lemma load_line_item kv items :
  good_item kv = true -> load_line (c_str (item_line kv)) items = map_insert (fst kv) (snd kv) items.
Proof.
  destruct kv as [k v]. unfold good_item. simpl. intros Hg. to_prop.
  destruct (good_word_spec k ltac:(done)) as (Hk0 & Hkt & Hke & Hkl & Hkn).
  destruct (good_word_spec v ltac:(done)) as (Hv0 & Hvt & Hve & Hvl & Hvn).
  rewrite c_str_id by (apply item_line_free; [done|done|by repeat constructor]).
  unfold load_line. rewrite split_words. unfold split_spec.
  assert (item_line (k, v) = (k ++ [" "%char]) ++ "="%char :: (" "%char :: v)) as ->.
  { unfold item_line. simpl. by rewrite <- app_assoc. }
  rewrite split_on_app; [|by rewrite Forall_app; split; [|repeat constructor]|done].
  rewrite split_on_free by (by constructor).
  rewrite filter_cons_True by (by destruct k). rewrite filter_cons_True by done. simpl.
  f_equal.
  - by apply (trim_app [] k [" "%char]); [constructor|repeat constructor|].
  - rewrite <- (app_nil_r v) at 1. by apply (trim_app [" "%char] v []); [repeat constructor|constructor|].
Qed.

Lemma item_line_ok kv :
  good_item kv = true -> Forall (fun c => is_lf c = false) (item_line kv) /\ short_line (item_line kv).
Proof.
  destruct kv as [k v]. unfold good_item. simpl. intros Hg. to_prop.
  destruct (good_word_spec k ltac:(done)) as (_ & _ & _ & Hkl & _).
  destruct (good_word_spec v ltac:(done)) as (_ & _ & _ & Hvl & _).
  split; [apply item_line_free; [done|done|by repeat constructor]|].
  unfold short_line, GETLINE_MAX, item_line. rewrite !length_app. simpl. lia.
Qed.

Lemma file_lines_print kvs :
  Forall (fun kv => good_item kv = true) kvs ->
  file_lines (print_config kvs) = map item_line kvs ++ [[]].
Proof.
  induction 1 as [|kv kvs Hkv _ IH]; [done|]. unfold print_config in *. simpl.
  rewrite print_item_line, <- app_assoc. simpl. unfold file_lines in *.
  rewrite split_on_app; [|by apply item_line_ok|done]. by rewrite IH.
Qed.

Lemma load_items_lookup kvs items k :
  Forall (fun kv => good_item kv = true) kvs ->
  foldl (fun m line => load_line (c_str line) m) items (map item_line kvs) !! k =
    match items !! k with
    | Some v => Some v
    | None => snd <$> (find_if (fun kv => fst kv =s k) kvs ≫= fun i => kvs !! i)
    end.
Proof.
  intros Hg. revert items. induction Hg as [|kv kvs Hkv _ IH]; intros items; simpl.
  { by destruct (items !! k). }
  rewrite load_line_item, IH, map_lookup_insert by done.
  destruct (items !! k); [done|]. destruct kv as [k' v']. simpl.
  destruct (decide (k' = k)) as [->|Hne].
  - by rewrite bool_decide_eq_true_2.
  - rewrite bool_decide_eq_false_2 by done.
    destruct (find_if (fun kv => fst kv =s k) kvs) eqn:Hf; simpl; done.
Qed.

(** Round trip: loading a file printed from key/value pairs with printable, space-free
    ends and short enough lines succeeds, and [getValue] then gives the value of the first
    pair with that key, or the empty string when there is none. *)
Theorem Load_print_roundtrip (path : bytes) (kvs : list (bytes * bytes)) :
  Forall (fun kv => good_item kv = true) kvs ->
  exists conf, Load (length kvs + 2) {[ path := print_config kvs ]} (MkConfig path ∅) = Some (0%Z, conf) /\
    forall k, getValue conf k = first_value k kvs.
Proof.
  intros Hg. pose proof (file_lines_print kvs Hg) as Hlines.
  exists (MkConfig path (load_lines (print_config kvs) ∅)). split.
  - unfold Load. simpl. rewrite lookup_singleton_eq. simpl. rewrite load_loop_spec; [done| |].
    + rewrite Hlines, Forall_app, Forall_map, Forall_singleton. split.
      * eapply Forall_impl; [exact Hg|]. by intros kv [_ ?]%item_line_ok.
      * unfold short_line, GETLINE_MAX. simpl. lia.
    + rewrite Hlines, length_app, length_map. simpl. lia.
  - intros k. unfold getValue, load_lines, first_value. simpl.
    rewrite Hlines, foldl_app. simpl.
    change (load_line (c_str []) ?m) with m. rewrite load_items_lookup, lookup_empty by done.
    destruct (find_if _ kvs) as [i|]; simpl; [|done]. by destruct (kvs !! i).
Qed.

(** ** Concrete runs *)

Definition conf_path : bytes := B "fileCacheProxy.conf".
Definition conf_items : list (bytes * bytes) :=
  [(B "localhost", B "172.17.0.4"); (B "port", B "9999"); (B "ThreadCount", B "4");
   (B "expiredays", B "5"); (B "clientConfPath", B "/etc/fdfs/client.conf")].

Lemma Load_correct_witness :
  exists conf, Load 9 {[ conf_path := print_config (conf_items ++ [(B "port", B "1")]) ]} (MkConfig conf_path ∅) = Some (0%Z, conf) /\
    filePath conf = conf_path /\ mItems conf !! B "port" = Some (B "9999").
Proof.
  destruct (proj2 (Load_correct {[ conf_path := print_config (conf_items ++ [(B "port", B "1")]) ]} (MkConfig conf_path ∅) 9) (print_config (conf_items ++ [(B "port", B "1")])))
    as (conf & H1 & H2 & H3); [reflexivity| |vm_compute; lia|].
  - apply (Forall_impl (fun l => bool_decide (length l < 100) = true)).
    + apply (forallb_Forall (fun l => bool_decide (length l < 100))). vm_compute. reflexivity.
    + intros l. by intros ?%bool_decide_eq_true.
  - exists conf. split; [exact H1|]. split; [exact H2|]. rewrite (H3 (B "port")). vm_compute. reflexivity.
Defined.

Lemma Load_print_roundtrip_witness :
  exists conf, Load 7 {[ conf_path := print_config conf_items ]} (MkConfig conf_path ∅) = Some (0%Z, conf) /\
    forall k, getValue conf k = first_value k conf_items.
Proof. apply (Load_print_roundtrip conf_path conf_items). repeat constructor. Defined.

Definition long_line : bytes := B "ThreadCount = 4" ++ [LF] ++ replicate 100 "x"%char.

Lemma Load_diverges_witness :
  Load 1000 {[ conf_path := long_line ]} (MkConfig conf_path ∅) = None.
Proof.
  apply (Load_diverges _ _ long_line); [reflexivity|].
  intros H. assert (In (replicate 100 "x"%char) (file_lines long_line)) as Hin.
  { vm_compute. right. left. reflexivity. }
  rewrite Forall_forall in H. apply list_elem_of_In, H in Hin.
  unfold short_line, GETLINE_MAX in Hin. rewrite length_replicate in Hin. lia.
Defined.
