(* ===== verification/Utilities.v ===== *)
(** * String formatting and file helpers: [src/ultilities.cpp], [include/utilities.h] *)
From S2P Require Import Prelude CLib.

(** ** [string_format]

    The buffer is a [char] array of [n] characters whose initial contents are arbitrary
    ([junk]); [n] is an [int].  A run either returns a string, writes past the buffer,
    overflows [n], uses a directive the model does not know, or needs more rounds. *)
Inductive sf_result :=
  | SfDone (s : bytes)
  | SfHeapOverflow
  | SfIntOverflow
  | SfBadFormat
  | SfNoFuel.

(** [strcpy] into a fresh array of [n] characters. *)
Definition strcpy_ok (n : Z) (s : bytes) : bool := (Z.of_nat (length (c_str s)) + 1 <=? n)%Z.

Fixpoint string_format_loop (fuel : nat) (junk : Z -> bytes) (n : Z) (fmt_str : bytes)
    (args : list printf_arg) : sf_result :=
  match fuel with
  | 0 => SfNoFuel
  | S fuel =>
      let formatted := take (Z.to_nat n) (junk n) in
      if negb (strcpy_ok n fmt_str) then SfHeapOverflow
      else
        let formatted := c_str fmt_str ++ [NUL] ++ drop (S (length (c_str fmt_str))) formatted in
        match vformat (c_str fmt_str) args with
        | None => SfBadFormat
        | Some out =>
            let '(final_n, formatted) :=
              if (INT_MAX <? Z.of_nat (length out))%Z then ((-1)%Z, formatted)
              else vsnprintf formatted (Z.to_nat n) out in
            if (final_n <? 0)%Z || (n <=? final_n)%Z then
              let n := (n + Z.abs (final_n - n + 1))%Z in
              if (INT_MAX <? n)%Z then SfIntOverflow
              else string_format_loop fuel junk n fmt_str args
            else SfDone (c_str formatted)
        end
  end.

Definition string_format (fuel : nat) (junk : Z -> bytes) (fmt_str : bytes) (args : list printf_arg)
    : sf_result :=
  let n := (s32 (Z.of_nat (length fmt_str)) * 2)%Z in
  if (INT_MAX <? n)%Z then SfIntOverflow else string_format_loop fuel junk n fmt_str args.

(** ** [get_time_now] and [doFileExists] *)

(** The clock and time zone are the environment's: [now] is what [localtime] gives. *)
Definition get_time_now (now : tm) : bytes := c_str (strftime_iso now).

Definition doFileExists (fs : files) (name : bytes) : bool :=
  bool_decide (is_Some (fs !! c_str name)).

(** ** [string_format] formats *)

Lemma vsnprintf_fits buf n out :
  (Z.of_nat (length out) < n)%Z ->
  vsnprintf buf (Z.to_nat n) out =
    (Z.of_nat (length out), out ++ [NUL] ++ drop (S (length out)) buf).
Proof.
  intros Hn. unfold vsnprintf. destruct (Z.to_nat n) as [|m] eqn:Hm; [lia|].
  rewrite take_ge by lia. rewrite <- app_assoc, length_app. simpl. by rewrite Nat.add_1_r.
Qed.

Lemma c_str_app_nul s t : c_str (s ++ [NUL] ++ t) = c_str s.
Proof.
  unfold c_str. induction s as [|c s IH]; [done|]. simpl.
  destruct (c =c NUL); simpl; [done|]. by f_equal.
Qed.

(** A round whose buffer is large enough ends with the whole output. *)
Lemma string_format_loop_done fuel junk n fmt args out :
  vformat (c_str fmt) args = Some out ->
  (Z.of_nat (length (c_str fmt)) + 1 <= n)%Z ->
  (Z.of_nat (length out) < n)%Z -> (Z.of_nat (length out) <= INT_MAX)%Z ->
  string_format_loop (S fuel) junk n fmt args = SfDone (c_str out).
Proof.
  intros Hv Hfmt Hn Hmax. cbn [string_format_loop]. unfold strcpy_ok.
  rewrite (proj2 (Z.leb_le _ _)) by lia. cbn [negb]. rewrite Hv.
  rewrite (proj2 (Z.ltb_ge _ _)) by lia. rewrite vsnprintf_fits by done.
  rewrite (proj2 (Z.ltb_ge (Z.of_nat (length out)) 0)) by lia.
  rewrite (proj2 (Z.leb_gt _ _)) by lia. cbn [orb]. by rewrite c_str_app_nul.
Qed.

(** A round whose buffer is too small asks for exactly one character more than the output. *)
Lemma string_format_loop_retry fuel junk n fmt args out :
  vformat (c_str fmt) args = Some out ->
  (Z.of_nat (length (c_str fmt)) + 1 <= n)%Z ->
  (n <= Z.of_nat (length out))%Z -> (Z.of_nat (length out) < INT_MAX)%Z ->
  string_format_loop (S fuel) junk n fmt args =
    string_format_loop fuel junk (Z.of_nat (length out) + 1) fmt args.
Proof.
  intros Hv Hfmt Hn Hmax. cbn [string_format_loop]. unfold strcpy_ok.
  rewrite (proj2 (Z.leb_le _ _)) by lia. cbn [negb]. rewrite Hv.
  rewrite (proj2 (Z.ltb_ge _ _)) by lia. unfold vsnprintf.
  rewrite (proj2 (Z.leb_le n _)) by lia. rewrite orb_true_r.
  rewrite Z.abs_eq by lia. rewrite (proj2 (Z.ltb_ge _ _)) by lia.
  f_equal. lia.
Qed.

Lemma c_str_length s : length (c_str s) <= length s.
Proof.
  unfold c_str. induction s as [|c s IH]; simpl; [lia|]. destruct (c =c NUL); simpl; lia.
Qed.

Lemma s32_nat k : (Z.of_nat k <= INT_MAX)%Z -> s32 (Z.of_nat k) = Z.of_nat k.
Proof.
  intros H. unfold s32, wraps, INT_MAX in *. rewrite Z.mod_small by lia. lia.
Qed.

(** An upper limit on the lengths for which no [int] of [string_format] overflows. *)
Definition FORMAT_MAX : Z := 2 ^ 30 - 1.

Lemma string_format_done junk fmt args out :
  fmt <> [] -> (Z.of_nat (length fmt) <= FORMAT_MAX)%Z -> (Z.of_nat (length out) <= FORMAT_MAX)%Z ->
  vformat (c_str fmt) args = Some out ->
  string_format 2 junk fmt args = SfDone (c_str out).
Proof.
  unfold FORMAT_MAX. intros Hne Hfmt Hout Hv.
  assert (0 < length fmt) by (destruct fmt; simpl; [done|lia]).
  pose proof (c_str_length fmt). unfold string_format.
  rewrite s32_nat by (unfold INT_MAX; lia). rewrite (proj2 (Z.ltb_ge _ _)) by (unfold INT_MAX; lia).
  destruct (Z_lt_le_dec (Z.of_nat (length out)) (Z.of_nat (length fmt) * 2)) as [Hlt|Hge].
  - apply (string_format_loop_done 1); [done|lia|lia|unfold INT_MAX; lia].
  - rewrite (string_format_loop_retry 1 _ _ _ _ out) by (unfold INT_MAX; first [done|lia]).
    apply string_format_loop_done; [done|lia|lia|unfold INT_MAX; lia].
Qed.

(** For a non-empty format, [string_format] ends within two rounds of its loop, never
    writes past its buffer, and returns the whole formatted text without truncation,
    whatever the fresh buffers contain. *)
Theorem string_format_correct (junk : Z -> bytes) (fmt : bytes) (args : list printf_arg) (out : bytes) :
  fmt <> [] -> (Z.of_nat (length fmt) <= FORMAT_MAX)%Z -> (Z.of_nat (length out) <= FORMAT_MAX)%Z ->
  vformat (c_str fmt) args = Some out ->
  string_format 2 junk fmt args = SfDone (c_str out).
Proof. apply string_format_done. Qed.

Lemma string_format_correct_witness :
  string_format 2 (fun _ => []) (B "%s/log") [AStr (B "/opt/proxy")] = SfDone (B "/opt/proxy/log").
Proof. apply (string_format_correct _ _ _ (B "/opt/proxy/log")); done. Defined.

(** The format the handlers use: two C strings joined by a slash. *)
Lemma string_format_join junk a b :
  (Z.of_nat (length (c_str a) + length (c_str b)) < FORMAT_MAX)%Z ->
  string_format 2 junk (B "%s/%s") [AStr a; AStr b] = SfDone (c_str a ++ B "/" ++ c_str b).
Proof.
  intros Hlen. unfold FORMAT_MAX in Hlen.
  rewrite (string_format_done _ _ _ (c_str a ++ B "/" ++ c_str b)).
  - f_equal. apply take_while_id. rewrite !Forall_app. split_and!; [| by repeat constructor |];
      apply take_while_all.
  - done.
  - unfold FORMAT_MAX. simpl. lia.
  - unfold FORMAT_MAX. rewrite !length_app. simpl. lia.
  - simpl. by rewrite app_nil_r.
Qed.

(** The empty format makes [strcpy] write one character into an array of none. *)
Lemma string_format_empty fuel junk args :
  string_format (S fuel) junk [] args = SfHeapOverflow.
Proof. reflexivity. Qed.
