(* ===== verification/ThreadPool.v ===== *)
(** * The proxy's thread pool: [include/thread_pool.h]

    The pool is a transition system: one step per synchronisation point of a worker thread,
    a [commit] by a client, or the destructor.  A worker's next step is a function of the
    pool's state ([worker_step]), so runs can be evaluated; the scheduler chooses who moves.  The
    condition variable is modelled with its notifications and spurious wake-ups, and the
    moment between testing the condition and blocking is a state of its own. *)
From S2P Require Import Prelude.

Definition THREADPOOL_MAX_NUM : nat := 16.

Section pool.
  (** The closures in the queue. *)
  Context {T : Type}.

  (** Where a worker thread stands in its loop. *)
Inductive wstate :=
  | WLoop              (* about to test [while (_run)] *)
  | WWait              (* about to take the lock and test the condition of [wait] *)
  | WBlock             (* the condition was false: holds the lock, about to block *)
  | WSleep             (* blocked on [_task_cv], the lock released *)
  | WTaken (t : T)     (* has popped a task, before [_idlThrNum--] *)
  | WRun (t : T)       (* inside [task()] *)
  | WDone              (* [task()] has returned, before [_idlThrNum++] *)
  | WExit.             (* the thread function has returned *)

  (** [notifies] counts the commits that have not reached [notify_one] yet, [waking] tells
      whether the destructor still has to call [notify_all]; [committed], [taken] and
      [n_done] are history: what was put in the queue, what workers took out of it, and how
      many tasks have returned. *)
Record pool := MkPool {
    workers : list wstate; tasks : list T; run : bool; idl : Z; notifies : nat; waking : bool;
    committed : list T; taken : list T; n_done : nat }.

Definition set_workers (ws : list wstate) (p : pool) : pool :=
    MkPool ws (tasks p) (run p) (idl p) (notifies p) (waking p) (committed p) (taken p) (n_done p).

Definition set_worker (i : nat) (w : wstate) (p : pool) : pool := set_workers (<[i := w]> (workers p)) p.

Definition add_idl (d : Z) (p : pool) : pool :=
    MkPool (workers p) (tasks p) (run p) (idl p + d) (notifies p) (waking p)
           (committed p) (taken p) (n_done p).

Definition asleep (w : wstate) : bool := match w with WSleep => true | _ => false end.
Definition locking (w : wstate) : bool := match w with WBlock => true | _ => false end.

  (** Nobody is inside a critical section that is more than one step long. *)
Definition lock_free (p : pool) : bool := negb (existsb locking (workers p)).

  (** [addThread]: nobody else holds the pool yet when the constructor calls it. *)
Fixpoint addThread (size : nat) (p : pool) : pool :=
    match size with
    | 0 => p
    | S size =>
        if (length (workers p) <? THREADPOOL_MAX_NUM)%nat then
          addThread size (add_idl 1 (set_workers (workers p ++ [WLoop]) p))
        else p
    end.

  (** The constructor; its parameter is an [unsigned short]. *)
Definition threadpool (size : Z) : pool :=
    addThread (Z.to_nat (u16 size)) (MkPool [] [] true 0 0 false [] [] 0).

  (** [commit] up to the end of its critical section: [None] is the [runtime_error] thrown on
      a stopped pool. *)
Definition commit (t : T) (p : pool) : option pool :=
    if negb (run p) then None
    else Some (MkPool (workers p) (tasks p ++ [t]) (run p) (idl p) (S (notifies p)) (waking p)
                      (committed p ++ [t]) (taken p) (n_done p)).

Definition wake (i : nat) (p : pool) : option pool :=
    match workers p !! i with Some WSleep => Some (set_worker i WWait p) | _ => None end.

Definition notified (p : pool) : pool :=
    MkPool (workers p) (tasks p) (run p) (idl p) (pred (notifies p)) (waking p)
           (committed p) (taken p) (n_done p).

  (** [_task_cv.notify_one()] at the end of a [commit]: wakes the sleeper [i] the scheduler
      chooses; without sleepers the notification is lost. *)
Definition notify_one (i : nat) (p : pool) : option pool :=
    if (notifies p =? 0)%nat then None
    else if existsb asleep (workers p) then notified <$> wake i p
    else Some (notified p).

  (** The destructor: clears [_run], without the lock, then wakes every sleeper; detaching
      the threads changes nothing in the pool. *)
Definition stop (p : pool) : pool :=
    MkPool (workers p) (tasks p) false (idl p) (notifies p) true (committed p) (taken p) (n_done p).

Definition notify_all (p : pool) : option pool :=
    if waking p then
      Some (MkPool ((fun w => if asleep w then WWait else w) <$> workers p) (tasks p) (run p) (idl p)
                   (notifies p) false (committed p) (taken p) (n_done p))
    else None.

Definition idlCount (p : pool) : Z := idl p.
Definition thrCount (p : pool) : nat := length (workers p).

  (** The next step of worker [i]; [None] when it is blocked, has exited or does not exist.
      The step out of [WRun] is the task's return, which a task need never reach. *)
Definition worker_step (i : nat) (p : pool) : option pool :=
    match workers p !! i with
    | Some WLoop => Some (set_worker i (if run p then WWait else WExit) p)
    | Some WWait =>
        if negb (lock_free p) then None else
        match tasks p with
        | [] => Some (set_worker i (if run p then WBlock else WExit) p)
        | t :: ts =>
            Some (MkPool (<[i := WTaken t]> (workers p)) ts (run p) (idl p) (notifies p) (waking p)
                         (committed p) (taken p ++ [t]) (n_done p))
        end
    | Some WBlock => Some (set_worker i WSleep p)
    | Some (WTaken t) => Some (add_idl (-1) (set_worker i (WRun t) p))
    | Some (WRun _) =>
        Some (MkPool (<[i := WDone]> (workers p)) (tasks p) (run p) (idl p) (notifies p) (waking p)
                     (committed p) (taken p) (S (n_done p)))
    | Some WDone => Some (add_idl 1 (set_worker i WLoop p))
    | Some WSleep | Some WExit | None => None
    end.

  (** [step_spurious]: a wait may return without a notification. *)
Inductive step : pool -> pool -> Prop :=
  | step_worker i p p' : worker_step i p = Some p' -> step p p'
  | step_commit t p p' : lock_free p = true -> commit t p = Some p' -> step p p'
  | step_notify i p p' : notify_one i p = Some p' -> step p p'
  | step_spurious i p p' : wake i p = Some p' -> step p p'
  | step_stop p : step p (stop p)
  | step_notify_all p p' : notify_all p = Some p' -> step p p'.

Inductive steps : pool -> pool -> Prop :=
  | steps_refl p : steps p p
  | steps_step p q r : step p q -> steps q r -> steps p r.

  (** Steps of the worker threads only, waking up included, with their number. *)
Inductive wsteps : nat -> pool -> pool -> Prop :=
  | wsteps_refl p : wsteps 0 p p
  | wsteps_step n i p q r : worker_step i p = Some q -> wsteps n q r -> wsteps (S n) p r
  | wsteps_wake n i p q r : wake i p = Some q -> wsteps n q r -> wsteps (S n) p r.

Definition reachable (size : Z) (p : pool) : Prop := steps (threadpool size) p.

  (** The worker has decremented [_idlThrNum] and not incremented it again. *)
Definition not_idle (w : wstate) : bool := match w with WRun _ | WDone => true | _ => false end.
  (** The worker holds a task that has not returned. *)
Definition holding (w : wstate) : bool := match w with WTaken _ | WRun _ => true | _ => false end.
Definition exited (w : wstate) : bool := match w with WExit => true | _ => false end.
Definition waiting (w : wstate) : bool :=
    match w with WWait | WBlock | WSleep => true | _ => false end.
  (** The worker will look at the queue without being notified. *)
Definition looking (w : wstate) : bool := match w with WLoop | WWait => true | _ => false end.
Definition needs_wake (w : wstate) : bool := match w with WBlock | WSleep => true | _ => false end.

  (** [inv_wake]: while the pool runs, a worker that needs waking is not forgotten, since
      every queued task has a notification under way or a worker about to look at the queue. *)
Record pool_inv (p : pool) : Prop := {
    inv_cap : length (workers p) <= THREADPOOL_MAX_NUM;
    inv_idl : idl p = (Z.of_nat (length (workers p)) - Z.of_nat (countb not_idle (workers p)))%Z;
    inv_fifo : committed p = taken p ++ tasks p;
    inv_held : length (taken p) = n_done p + countb holding (workers p);
    inv_alive : run p = true -> countb exited (workers p) = 0;
    inv_lock : countb locking (workers p) = 0 \/
               countb locking (workers p) = 1 /\ length (tasks p) = 0;
    inv_wake : run p = true -> countb needs_wake (workers p) = 0 \/
               length (tasks p) <= notifies p + countb looking (workers p) }.

  (** ** Lemmas *)

Lemma lock_free_countb p : lock_free p = true <-> countb locking (workers p) = 0.
Proof. unfold lock_free. rewrite negb_true_iff. apply countb_existsb. Qed.

  (** The counts after the change of one worker, for the predicates of the invariant. *)
Local Ltac count_facts Hw :=
    pose proof (fun x => countb_insert not_idle _ _ x _ Hw);
    pose proof (fun x => countb_insert holding _ _ x _ Hw);
    pose proof (fun x => countb_insert exited _ _ x _ Hw);
    pose proof (fun x => countb_insert locking _ _ x _ Hw);
    pose proof (fun x => countb_insert needs_wake _ _ x _ Hw);
    pose proof (fun x => countb_insert looking _ _ x _ Hw).

Local Ltac solve_worker w :=
    repeat match goal with H : forall x : wstate, _ |- _ => specialize (H w) end;
    split; simpl in *; rewrite ?length_insert, ?length_app; simpl; auto;
    try match goal with |- ?r = true -> _ => let Hr := fresh in intros Hr;
      repeat match goal with H : r = true -> _ |- _ => specialize (H Hr) end end;
    simpl in *; try lia; try congruence.

Lemma addThread_inv size p : lock_free p = true -> pool_inv p -> pool_inv (addThread size p).
Proof.
    revert p. induction size as [|size IH]; intros p Hl Hp; simpl; [done|].
    destruct (length (workers p) <? THREADPOOL_MAX_NUM)%nat eqn:Hlt; [|done]. to_prop.
    apply lock_free_countb in Hl. destruct Hp as [Hc Hi Hf Hh Ha Hk Hw].
    assert (forall f, countb f (workers p ++ [WLoop]) = countb f (workers p) + Nat.b2n (f WLoop)) as Hadd.
    { intros f. rewrite countb_app. f_equal. unfold countb. simpl. by destruct (f WLoop). }
    apply IH; [apply lock_free_countb; simpl; rewrite Hadd; simpl; lia|].
    split; simpl; rewrite ?Hadd, ?length_app; simpl; try lia; auto.
    - intros Hr. rewrite Ha by done. lia.
    - intros Hr. specialize (Hw Hr). lia.
  Qed.

Lemma threadpool_inv size : pool_inv (threadpool size).
Proof.
    apply addThread_inv; [done|].
    split; simpl; unfold THREADPOOL_MAX_NUM; try lia; auto.
  Qed.

Lemma worker_step_inv i p p' : worker_step i p = Some p' -> pool_inv p -> pool_inv p'.
Proof.
    unfold worker_step. intros Hs [Hc Hi Hf Hh Ha Hk Hv].
    destruct (workers p !! i) as [w|] eqn:Hw; [|done]. count_facts Hw.
    destruct w as [| | | |t|t| |]; simplify_eq/=.
    - destruct (run p) eqn:Hr; [solve_worker (@WWait)|solve_worker (@WExit)].
    - destruct (lock_free p) eqn:Hlock; simplify_eq/=. apply lock_free_countb in Hlock.
      destruct (tasks p) as [|t ts] eqn:Ht; simplify_eq.
      + destruct (run p) eqn:Hr; [solve_worker (@WBlock)|solve_worker (@WExit)]; rewrite ?Ht; simpl; lia || auto.
      + solve_worker (WTaken t). by rewrite Hf, <- app_assoc.
    - solve_worker (@WSleep). 
    - solve_worker (WRun t).
    - solve_worker (@WDone).
    - solve_worker (@WLoop).
  Qed.

Lemma wake_inv i p p' : wake i p = Some p' -> pool_inv p -> pool_inv p'.
Proof.
    unfold wake. intros Hs [Hc Hi Hf Hh Ha Hk Hv].
    destruct (workers p !! i) as [w|] eqn:Hw; [|done]. count_facts Hw.
    destruct w; simplify_eq/=. solve_worker (@WWait).
  Qed.

  (** A notification can be consumed when it woke somebody or nobody sleeps. *)
Lemma notified_inv p :
    pool_inv p -> (run p = true -> countb needs_wake (workers p) = 0 \/
      length (tasks p) <= pred (notifies p) + countb looking (workers p)) ->
    pool_inv (notified p).
Proof. intros [Hc Hi Hf Hh Ha Hk Hv] Hv'. by split. Qed.

Lemma notify_one_inv i p p' : notify_one i p = Some p' -> pool_inv p -> pool_inv p'.
Proof.
    unfold notify_one. destruct (notifies p =? 0)%nat eqn:Hn; [done|]. to_prop.
    destruct (existsb asleep (workers p)) eqn:Hs; intros H Hp.
    - destruct (wake i p) as [q|] eqn:Hw; simplify_eq/=.
      apply notified_inv; [by eapply wake_inv|]. intros Hr.
      unfold wake in Hw. destruct (workers p !! i) as [w|] eqn:Hi; [|done].
      count_facts Hi. destruct w; simplify_eq/=. specialize (inv_wake _ Hp Hr).
      repeat match goal with H : forall x : wstate, _ |- _ => specialize (H WWait) end.
      simpl in *. lia.
    - simplify_eq. apply notified_inv; [done|]. intros Hr. apply countb_existsb in Hs.
      assert (countb needs_wake (workers p) = countb asleep (workers p) + countb locking (workers p)) as Hsum.
      { clear Hs. induction (workers p) as [|w l IH]; [done|]. rewrite !countb_cons, IH. destruct w; simpl; lia. }
      destruct (inv_lock _ Hp) as [?|[_ Ht]]; [left; lia|right]. rewrite Ht. simpl. lia.
  Qed.

Lemma notify_all_inv p p' : notify_all p = Some p' -> pool_inv p -> pool_inv p'.
Proof.
    unfold notify_all. destruct (waking p); [|done]. intros [= <-] [Hc Hi Hf Hh Ha Hk Hv].
    set (g := fun w => if asleep w then WWait else w).
    assert (forall f, (forall w, f (g w) = f w) -> countb f (g <$> workers p) = countb f (workers p)) as Hg.
    { intros f Hfg. rewrite countb_map.
      clear -Hfg. induction (workers p) as [|w l IH]; [done|]. by rewrite !countb_cons, Hfg, IH. }
    split; simpl; rewrite ?length_fmap, ?Hg by (by intros []); auto.
    intros Hr. rewrite !countb_map. destruct (Hv Hr) as [?|?].
    - left. apply Nat.le_0_r. etrans; [|apply Nat.eq_le_incl; eassumption].
      apply countb_mono. by intros [].
    - right. etrans; [eassumption|]. apply Nat.add_le_mono_l, countb_mono. by intros [].
  Qed.

Lemma step_inv p p' : step p p' -> pool_inv p -> pool_inv p'.
Proof.
    intros [i q q' H|t q q' Hl H|i q q' H|i q q' H|q|q q' H] Hp;
      [by eapply worker_step_inv| |by eapply notify_one_inv|by eapply wake_inv| |by eapply notify_all_inv].
    - unfold commit in H. apply lock_free_countb in Hl.
      destruct (run q) eqn:Hr; simplify_eq/=. destruct Hp as [Hc Hi Hf Hh Ha Hk Hv].
      split; simpl; auto; rewrite ?length_app; simpl; [by rewrite Hf, <- app_assoc|].
      intros _. specialize (Hv Hr). lia.
    - destruct Hp as [Hc Hi Hf Hh Ha Hk Hv]. by split; simpl.
  Qed.

Lemma steps_inv p p' : steps p p' -> pool_inv p -> pool_inv p'.
Proof. induction 1; eauto using step_inv. Qed.

Lemma reachable_inv size p : reachable size p -> pool_inv p.
Proof. intros H. eapply steps_inv; [exact H|]. apply threadpool_inv. Qed.

Lemma addThread_workers size p :
    length (workers p) <= THREADPOOL_MAX_NUM ->
    length (workers (addThread size p)) = Nat.min THREADPOOL_MAX_NUM (length (workers p) + size).
Proof.
    revert p. induction size as [|size IH]; intros p Hp; cbn [addThread]; [lia|].
    destruct (length (workers p) <? THREADPOOL_MAX_NUM)%nat eqn:Hlt; to_prop; [|lia].
    rewrite IH; cbn [workers add_idl set_workers]; rewrite length_app; cbn [length]; lia.
  Qed.

Lemma worker_step_workers i p p' : worker_step i p = Some p' -> length (workers p') = length (workers p).
Proof.
    unfold worker_step. intros H. destruct (workers p !! i) as [[]|]; simplify_eq/=;
      rewrite ?length_insert; auto.
    destruct (lock_free p), (tasks p); simplify_eq/=; by rewrite length_insert.
  Qed.

Lemma wake_workers i p p' : wake i p = Some p' -> length (workers p') = length (workers p).
Proof. unfold wake. intros H. destruct (workers p !! i) as [[]|]; simplify_eq/=; by rewrite length_insert. Qed.

Lemma step_workers p p' : step p p' -> length (workers p') = length (workers p).
Proof.
    intros [i q q' H|t q q' _ H|i q q' H|i q q' H|q|q q' H]; eauto using worker_step_workers, wake_workers.
    - unfold commit in H. destruct (run q); by simplify_eq/=.
    - unfold notify_one in H. destruct (notifies q =? 0)%nat; [done|].
      destruct (existsb asleep (workers q)); [|by simplify_eq].
      destruct (wake i q) eqn:Hw; simplify_eq/=. by eapply wake_workers.
    - unfold notify_all in H. destruct (waking q); simplify_eq/=. by rewrite length_fmap.
  Qed.

Lemma steps_workers p p' : steps p p' -> length (workers p') = length (workers p).
Proof. induction 1 as [|p q r H _ IH]; [done|]. rewrite IH. by apply step_workers. Qed.

Lemma threadpool_workers size :
    length (workers (threadpool size)) = Nat.min THREADPOOL_MAX_NUM (Z.to_nat (u16 size)).
Proof. unfold threadpool. rewrite addThread_workers; simpl; unfold THREADPOOL_MAX_NUM; lia. Qed.
End pool.

Arguments wstate : clear implicits.
Arguments pool : clear implicits.

(** C5: in every reachable state of a pool built with [size] threads there are
    min(16, size mod 65536) workers; the queue is first-in first-out and loses or repeats
    nothing (what was committed is what was taken followed by what is queued); the counter
    of idle threads is the number of workers outside a task; and the tasks taken are those
    that returned plus those a worker holds. *)
Theorem pool_invariant {T : Type} (size : Z) (p : pool T) :
  reachable size p ->
  thrCount p = Nat.min 16 (Z.to_nat (u16 size)) /\
  committed p = taken p ++ tasks p /\
  idlCount p = (Z.of_nat (thrCount p) - Z.of_nat (countb not_idle (workers p)))%Z /\
  length (taken p) = n_done p + countb holding (workers p).
Proof.
  intros H. destruct (reachable_inv _ _ H) as [Hc Hi Hf Hh _ _ _]. split_and!; [|done|done|done].
  unfold thrCount. rewrite (steps_workers _ _ H). apply threadpool_workers.
Qed.

Lemma pool_bound {T : Type} (size : Z) (p : pool T) :
  reachable size p ->
  length (taken p) <= n_done p + Nat.min 16 (Z.to_nat (u16 size)) /\
  length (committed p) <= length (tasks p) + n_done p + Nat.min 16 (Z.to_nat (u16 size)).
Proof.
  intros H. pose proof (reachable_inv _ _ H) as Hinv.
  assert (length (workers p) = Nat.min 16 (Z.to_nat (u16 size))) as Hw.
  { rewrite (steps_workers _ _ H). apply threadpool_workers. }
  pose proof (countb_le holding (workers p)). pose proof (inv_held _ Hinv).
  rewrite (inv_fifo _ Hinv), length_app. lia.
Qed.

(** At most 16 tasks that never return are ever started: whatever the requested size and
    however many tasks are committed, the tasks taken out of the queue exceed those that have
    returned by at most min(16, size mod 65536). *)
Theorem pool_saturation {T : Type} (size : Z) (p : pool T) :
  reachable size p ->
  length (taken p) <= n_done p + Nat.min 16 (Z.to_nat (u16 size)) /\
  length (committed p) <= length (tasks p) + n_done p + Nat.min 16 (Z.to_nat (u16 size)).
Proof. apply pool_bound. Qed.

(** ** Stopping *)

Section stopped.
  Context {T : Type}.

  (** What a worker of a stopped pool can still do. *)
Definition work_left (w : wstate T) : nat :=
    match w with
    | WExit => 0 | WLoop => 1 | WDone => 2 | WRun _ => 3 | WTaken _ => 4 | WWait => 5
    | WSleep => 6 | WBlock => 7
    end.

Definition pool_work (p : pool T) : nat := sum_list_with work_left (workers p).

Lemma sum_insert (f : wstate T -> nat) l i x y :
    l !! i = Some y -> sum_list_with f (<[i := x]> l) + f y = sum_list_with f l + f x.
Proof.
    revert i. induction l as [|z l IH]; intros [|i]; simpl; intros H; simplify_eq; [lia|].
    specialize (IH i H). lia.
  Qed.

  (** A step of a stopped pool uses up work and starts only what a waiting worker takes. *)
Definition stopped_rel (p q : pool T) : Prop :=
    run q = false /\ pool_work q < pool_work p /\
    length (taken q) + countb waiting (workers q) <= length (taken p) + countb waiting (workers p) /\
    taken q ++ tasks q = taken p ++ tasks p.

Local Ltac solve_stopped w :=
    repeat match goal with H : forall x : wstate T, _ |- _ => specialize (H w) end;
    unfold stopped_rel, pool_work in *; simpl in *; split_and!; auto; lia.

Lemma stopped_step i (p q : pool T) :
    run p = false -> worker_step i p = Some q \/ wake i p = Some q -> stopped_rel p q.
Proof.
    unfold worker_step, wake, pool_work. intros Hrun H.
    destruct (workers p !! i) as [w|] eqn:Hw; [|by destruct H].
    pose proof (fun x => sum_insert work_left _ _ x _ Hw) as Hn.
    pose proof (fun x => countb_insert waiting _ _ x _ Hw) as Hd.
    destruct w as [| | | |t|t| |]; destruct H as [H|H]; simplify_eq/=.
    - rewrite Hrun. solve_stopped (WExit (T:=T)).
    - destruct (lock_free p); simplify_eq/=. rewrite Hrun in H.
      destruct (tasks p) as [|t ts] eqn:Ht; simplify_eq/=.
      + solve_stopped (WExit (T:=T)).
      + unfold stopped_rel. rewrite Ht. simpl. rewrite length_app, <- app_assoc.
        solve_stopped (WTaken t).
    - solve_stopped (WSleep (T:=T)).
    - solve_stopped (WWait (T:=T)).
    - solve_stopped (WRun t).
    - solve_stopped (WDone (T:=T)).
    - solve_stopped (WLoop (T:=T)).
  Qed.

Lemma stopped_steps n (p q : pool T) :
    wsteps n p q -> run p = false ->
    n + pool_work q <= pool_work p /\
    length (taken q) <= length (taken p) + countb waiting (workers p) /\
    taken q ++ tasks q = taken p ++ tasks p.
Proof.
    induction 1 as [p|n i p q r H _ IH|n i p q r H _ IH]; intros Hrun; [split_and!; auto; lia| |].
    all: destruct (stopped_step i p q Hrun ltac:(auto)) as (Hq & Hw & Ht & Hf);
      destruct (IH Hq) as (Hw' & Ht' & Hf'); split_and!; [lia|lia|congruence].
  Qed.

Lemma work_bound (l : list (wstate T)) : sum_list_with work_left l <= 7 * length l.
Proof. induction l as [|w l IH]; simpl; [lia|]. destruct w; simpl; lia. Qed.
End stopped.

(** Once the destructor has cleared [_run], [commit] throws, the worker threads take at
    most 112 more steps between them (even if all their tasks return and however they are
    woken), and only workers that were already waiting start another task: the other queued
    tasks are abandoned. *)
Theorem pool_stop {T : Type} (size : Z) (p q : pool T) (n : nat) :
  reachable size p -> wsteps n (stop p) q ->
  (forall t, commit t (stop p) = None) /\
  n <= 112 /\
  length (taken q) <= length (taken p) + countb waiting (workers p) /\
  length (tasks q) + countb waiting (workers p) >= length (tasks p).
Proof.
  intros Hr H. pose proof (inv_cap _ (reachable_inv _ _ Hr)) as Hc.
  destruct (stopped_steps n (stop p) q H eq_refl) as (Hw & Ht & Hf). simpl in *.
  pose proof (work_bound (workers p)). unfold pool_work, THREADPOOL_MAX_NUM in *. simpl in *.
  apply (f_equal length) in Hf. rewrite !length_app in Hf.
  split_and!; [done|lia|lia|lia].
Qed.

(** ** Progress *)

Section progress.
  Context {T : Type}.
  Implicit Types p q : pool T.

Lemma countb_pos {A} (f : A -> bool) l : 0 < countb f l -> exists i x, l !! i = Some x /\ f x = true.
Proof.
    induction l as [|x l IH]; [unfold countb; simpl; lia|]. rewrite countb_cons.
    destruct (f x) eqn:Hf; simpl; intros H; [by exists 0, x|].
    destruct (IH H) as (i & y & ? & ?). by exists (S i), y.
  Qed.

  (** A worker that is neither asleep nor gone can move, or the holder of the lock can. *)
Lemma worker_moves i w p :
    workers p !! i = Some w -> asleep w = false -> exited w = false ->
    exists j q, worker_step j p = Some q.
Proof.
    intros Hi Ha He. destruct (lock_free p) eqn:Hl.
    - exists i. unfold worker_step. rewrite Hi, Hl. destruct w; simpl in *; eauto; try done.
      destruct (tasks p); eauto.
    - assert (0 < countb locking (workers p)) as Hpos.
      { destruct (countb locking (workers p)) eqn:Hc; [|lia]. apply lock_free_countb in Hc. congruence. }
      destruct (countb_pos _ _ Hpos) as (j & v & Hj & Hv). exists j. unfold worker_step. rewrite Hj.
      destruct v; eauto; done.
  Qed.

Lemma notify_one_moves p : 0 < notifies p -> exists i q, notify_one i p = Some q.
Proof.
    intros Hn. unfold notify_one. rewrite (proj2 (Nat.eqb_neq _ _)) by lia.
    destruct (existsb asleep (workers p)) eqn:Hs; [|exists 0; eauto].
    apply existsb_exists in Hs as (w & Hin & Hw). apply list_elem_of_In, list_elem_of_lookup in Hin as [i Hi].
    exists i. unfold wake. rewrite Hi. destruct w; eauto; done.
  Qed.

Lemma alive size p i w :
    reachable size p -> run p = true -> workers p !! i = Some w -> exited w = false.
Proof.
    intros Hr Hrun Hi. pose proof (inv_alive _ (reachable_inv _ _ Hr) Hrun) as Hexit.
    pose proof (countb_insert exited _ _ WLoop _ Hi) as H. destruct w; simpl in *; lia || done.
  Qed.

Lemma all_asleep (l : list (wstate T)) :
    (forall i w, l !! i = Some w -> asleep w = true) -> countb needs_wake l = length l /\ countb looking l = 0.
Proof.
    induction l as [|w l IH]; intros H; [done|]. rewrite !countb_cons.
    pose proof (H 0 w eq_refl). destruct (IH (fun i => H (S i))) as [H1 H2].
    rewrite H1, H2. destruct w; done.
  Qed.
End progress.

Lemma step_no_workers {T} (p q : pool T) : step p q -> workers p = [] -> taken q = taken p.
Proof.
  intros Hs Hw. destruct Hs as [i p q H|t p q _ H|i p q H|i p q H|p|p q H].
  - unfold worker_step in H. by rewrite Hw in H.
  - unfold commit in H. by repeat case_match; simplify_eq.
  - unfold notify_one, wake in H. rewrite Hw in H. by repeat case_match; simplify_eq/=.
  - unfold wake in H. by rewrite Hw in H.
  - done.
  - unfold notify_all in H. by repeat case_match; simplify_eq.
Qed.

Lemma no_workers_taken {T} (p q : pool T) : steps p q -> workers p = [] -> taken q = taken p.
Proof.
  induction 1 as [|p q r Hs _ IH]; [done|]. intros Hw. rewrite IH; [by apply step_no_workers|].
  apply length_zero_iff_nil. rewrite (step_workers _ _ Hs). by rewrite Hw.
Qed.

Lemma addThread_taken {T} n (p : pool T) : taken (addThread n p) = taken p.
Proof. revert p. induction n as [|n IH]; intros p; simpl; [done|]. case_match; [by rewrite IH|done]. Qed.

(** C9: no task is stranded and there is no deadlock while the pool runs, if its size is not 0
    modulo 65536: in every reachable state a worker can take a step, or a notification of a
    [commit] is still to be delivered and can be, or the queue is empty and every worker
    sleeps.  A pool whose size is 0 modulo 65536 has no worker and keeps every task for ever. *)
Theorem pool_progress {T : Type} (size : Z) (p : pool T) :
  reachable size p -> run p = true ->
  if (u16 size =? 0)%Z then workers p = [] /\ tasks p = committed p
  else
    (exists i q, worker_step i p = Some q) \/
    (exists i q, notify_one i p = Some q) \/
    (tasks p = [] /\ forall i w, workers p !! i = Some w -> w = WSleep).
Proof.
  intros Hr Hrun. pose proof (steps_workers _ _ Hr) as Hw. rewrite threadpool_workers in Hw. unfold THREADPOOL_MAX_NUM in Hw.
  pose proof (u16_range size). destruct (u16 size =? 0)%Z eqn:Hz; to_prop.
  { rewrite Hz in Hw. apply length_zero_iff_nil in Hw. split; [done|]. rewrite (inv_fifo _ (reachable_inv _ _ Hr)).
    rewrite (no_workers_taken _ _ Hr); [by unfold threadpool; rewrite addThread_taken|].
    apply length_zero_iff_nil. by rewrite threadpool_workers, Hz. }
  destruct (existsb (fun w => negb (asleep w)) (workers p)) eqn:Hall.
  { left. apply existsb_exists in Hall as (w & Hin & Hne). apply negb_true_iff in Hne.
    apply list_elem_of_In, list_elem_of_lookup in Hin as [i Hi]. eauto using worker_moves, alive. }
  assert (forall i w, workers p !! i = Some w -> asleep w = true) as Hsleep.
  { intros i w Hi. destruct (asleep w) eqn:Hn; [done|]. exfalso.
    assert (existsb (fun w => negb (asleep w)) (workers p) = true); [|congruence].
    apply existsb_exists. exists w. rewrite Hn. split; [|done].
    by apply list_elem_of_In, (list_elem_of_lookup_2 _ i). }
  destruct (all_asleep _ Hsleep) as [Hn Hl].
  destruct (inv_wake _ (reachable_inv _ _ Hr) Hrun) as [?|Ht]; [lia|]. rewrite Hl in Ht.
  right. destruct (notifies p) eqn:Hno; [right|left; apply notify_one_moves; lia].
  split; [destruct (tasks p); simpl in *; [done|lia]|].
  intros i w Hi. specialize (Hsleep i w Hi). by destruct w.
Qed.

(** ** Concrete runs *)

Definition demo0 : pool nat := threadpool 1.
Definition demo (p : pool nat) (sched : list (pool nat -> option (pool nat))) : option (pool nat) :=
  foldl (fun o f => o ≫= f) (Some p) sched.

Definition locked_commit (t : nat) (p : pool nat) : option (pool nat) :=
  if lock_free p then commit t p else None.

Definition is_step (f : pool nat -> option (pool nat)) : Prop :=
  forall p q, f p = Some q -> step p q.

Lemma is_step_worker i : is_step (worker_step i).
Proof. intros p q. apply step_worker. Qed.
Lemma is_step_notify i : is_step (notify_one i).
Proof. intros p q. apply step_notify. Qed.
Lemma is_step_commit t : is_step (locked_commit t).
Proof. intros p q. unfold locked_commit. destruct (lock_free p) eqn:?; [|done]. by apply step_commit. Qed.
Lemma is_step_stop : is_step (fun p => Some (stop p)).
Proof. intros p q [= <-]. apply step_stop. Qed.
Lemma is_step_notify_all : is_step notify_all.
Proof. intros p q. apply step_notify_all. Qed.
#[local] Hint Resolve is_step_worker is_step_notify is_step_commit is_step_stop is_step_notify_all : fdfs.

Lemma demo_steps p sched q : Forall is_step sched -> demo p sched = Some q -> steps p q.
Proof.
  intros H. revert p. induction H as [|f sched Hf _ IH]; intros p; unfold demo in *; simpl.
  - intros [= ->]. constructor.
  - destruct (f p) as [r|] eqn:Hr; [intros Hq; econstructor; [by apply Hf|by apply IH]|].
    assert (forall l, foldl (fun (o : option (pool nat)) f => o ≫= f) None l = None) as Hnone.
    { induction l; simpl; auto. }
    by rewrite Hnone.
Qed.

(** One worker, two commits, the worker running the first task. *)
Definition demo_sched : list (pool nat -> option (pool nat)) :=
  [locked_commit 7; notify_one 0; locked_commit 8; worker_step 0; worker_step 0; worker_step 0].

Definition demo_pool : pool nat := default demo0 (demo demo0 demo_sched).

Lemma demo_reachable : reachable 1 demo_pool.
Proof.
  apply (demo_steps demo0 demo_sched); [|reflexivity].
  unfold demo_sched. repeat (constructor; [auto with fdfs|]). constructor.
Qed.

(** The destructor runs between the worker's test of the condition and its blocking. *)
Definition lost_sched : list (pool nat -> option (pool nat)) :=
  [worker_step 0; worker_step 0; fun p => Some (stop p); notify_all; worker_step 0].

(** C38: the destructor can leave a worker asleep for ever: it clears [_run] without taking
    the lock, so when a worker has tested its condition and not blocked yet, the only
    [notify_all] comes too early and no notification is left to wake that worker. *)
Theorem pool_lost_wakeup :
  exists p : pool nat, reachable 1 p /\ run p = false /\ workers p = [WSleep] /\
    notifies p = 0 /\ waking p = false /\ (forall i, worker_step i p = None) /\
    (forall i, notify_one i p = None) /\ notify_all p = None.
Proof.
  exists (default demo0 (demo demo0 lost_sched)). split_and!; try reflexivity.
  - apply (demo_steps demo0 lost_sched); [|reflexivity].
    unfold lost_sched. repeat (constructor; [auto with fdfs|]). constructor.
  - by intros [|i].
Qed.

Lemma pool_invariant_witness :
  thrCount demo_pool = 1 /\ committed demo_pool = taken demo_pool ++ tasks demo_pool /\
  idlCount demo_pool = 0%Z /\ taken demo_pool = [7].
Proof.
  destruct (pool_invariant 1 demo_pool demo_reachable) as (H1 & H2 & H3 & _).
  split_and!; [exact H1|exact H2|exact H3|reflexivity].
Defined.

Lemma pool_saturation_witness : length (taken demo_pool) <= 0 + 1.
Proof. apply (pool_saturation 1 demo_pool demo_reachable). Defined.

Lemma pool_stop_witness :
  length (tasks (default demo0 (worker_step 0 (stop demo_pool)))) + 0 >= 1.
Proof.
  apply (pool_stop 1 demo_pool (default demo0 (worker_step 0 (stop demo_pool))) 1 demo_reachable).
  apply (wsteps_step 0 0 _ (default demo0 (worker_step 0 (stop demo_pool)))); [reflexivity|constructor].
Defined.

Lemma pool_progress_witness :
  (exists i q, worker_step i demo_pool = Some q) \/
  (exists i q, notify_one i demo_pool = Some q) \/
  (tasks demo_pool = [] /\ forall i w, workers demo_pool !! i = Some w -> w = WSleep).
Proof. exact (pool_progress 1 demo_pool demo_reachable eq_refl). Defined.
