(* ===== verification/Json.v ===== *)
(** * The JSON the proxy answers with: the serializer of [include/json.hpp]

    Values (without floats and binaries, which the proxy never builds), [operator[]] on
    objects, compact [dump], integer printing and string escaping with the UTF-8 automaton.
    Printing is in strict mode, the default: an exception is [None]. *)
From S2P Require Import Prelude CLib.

(** ** Values *)

Inductive json :=
  | JNull
  | JBool (b : bool)
  | JInt (z : Z)                        (* number_integer and number_unsigned *)
  | JStr (s : bytes)
  | JArr (l : list json)
  | JObj (l : list (bytes * json)).     (* a std::map: keys in increasing order *)

(** [std::less<std::string>]: lexicographic on [unsigned char]. *)
Fixpoint bytes_lt (s t : bytes) : bool :=
  match s, t with
  | _, [] => false
  | [], _ :: _ => true
  | c :: s, d :: t => if (code c <? code d)%Z then true else (code c =? code d)%Z && bytes_lt s t
  end.

(** [object[key]] on the map: the element, inserted as null when absent, given to [f]. *)
Fixpoint obj_update (k : bytes) (f : json -> option json) (l : list (bytes * json))
    : option (list (bytes * json)) :=
  match l with
  | [] => v ← f JNull; Some [(k, v)]
  | (k', v') :: l' =>
      if bytes_lt k k' then v ← f JNull; Some ((k, v) :: l)
      else if k =s k' then v ← f v'; Some ((k', v) :: l')
      else l'' ← obj_update k f l'; Some ((k', v') :: l'')
  end.

(** [j[key]] with the reference passed to [f]: null becomes an object, other types throw. *)
Definition json_at (k : bytes) (f : json -> option json) (j : json) : option json :=
  match j with
  | JNull => JObj <$> obj_update k f []
  | JObj l => JObj <$> obj_update k f l
  | _ => None
  end.

Definition json_set (v : json) (_ : json) : option json := Some v.

(** ** Integers: [count_digits] and [dump_integer] *)

Fixpoint count_digits_loop (fuel : nat) (x n_digits : Z) : option Z :=
  match fuel with
  | 0 => None
  | S fuel =>
      if (x <? 10)%Z then Some n_digits
      else if (x <? 100)%Z then Some (n_digits + 1)%Z
      else if (x <? 1000)%Z then Some (n_digits + 2)%Z
      else if (x <? 10000)%Z then Some (n_digits + 3)%Z
      else count_digits_loop fuel (x / 10000) (n_digits + 4)
  end.

(** Five rounds are enough below 10^20, hence for every 64-bit value. *)
Definition count_digits (x : Z) : option Z := count_digits_loop 5 x 1.

(** [digits_to_99[i]]. *)
Definition digits_to_99 (i : Z) : ascii * ascii := (digit_chr (i / 10), digit_chr (i `mod` 10)).

Fixpoint dump_pairs (fuel : nat) (abs_value : Z) (st : bytes * nat) : option (Z * (bytes * nat)) :=
  match fuel with
  | 0 => None
  | S fuel =>
      if (100 <=? abs_value)%Z then
        let '(d1, d0) := digits_to_99 (abs_value `mod` 100) in
        dump_pairs fuel (abs_value / 100) (push_front d1 (push_front d0 st))
      else Some (abs_value, st)
  end.

Definition number_buffer_size : nat := 64.

Definition dump_integer (x : Z) : option bytes :=
  if (x =? 0)%Z then Some (B "0")
  else
    let neg := (x <? 0)%Z in
    let buf := replicate number_buffer_size NUL in
    (* remove_sign: -(x + 1) + 1, computed without overflow *)
    let abs_value := if neg then (- (x + 1) + 1)%Z else x in
    let buf := if neg then <[0 := "-"%char]> buf else buf in
    n ← count_digits abs_value;
    let n_chars := Z.to_nat (if neg then 1 + n else n)%Z in
    '(v, st) ← dump_pairs 11 abs_value (buf, n_chars);
    let '(buf, _) :=
      if (10 <=? v)%Z then
        let '(d1, d0) := digits_to_99 v in push_front d1 (push_front d0 st)
      else push_front (digit_chr v) st in
    Some (take n_chars buf).

(** ** Strings: the UTF-8 automaton and [dump_escaped] *)

Definition UTF8_ACCEPT : Z := 0.
Definition UTF8_REJECT : Z := 1.

Definition utf8d : list Z :=
  [0; 0; 0; 0; 0; 0; 0; 0; 0; 0; 0; 0; 0; 0; 0; 0; 0; 0; 0; 0; 0; 0; 0; 0; 0; 0; 0; 0; 0; 0; 0; 0;
    0; 0; 0; 0; 0; 0; 0; 0; 0; 0; 0; 0; 0; 0; 0; 0; 0; 0; 0; 0; 0; 0; 0; 0; 0; 0; 0; 0; 0; 0; 0; 0;
    0; 0; 0; 0; 0; 0; 0; 0; 0; 0; 0; 0; 0; 0; 0; 0; 0; 0; 0; 0; 0; 0; 0; 0; 0; 0; 0; 0; 0; 0; 0; 0;
    0; 0; 0; 0; 0; 0; 0; 0; 0; 0; 0; 0; 0; 0; 0; 0; 0; 0; 0; 0; 0; 0; 0; 0; 0; 0; 0; 0; 0; 0; 0; 0;
    1; 1; 1; 1; 1; 1; 1; 1; 1; 1; 1; 1; 1; 1; 1; 1; 9; 9; 9; 9; 9; 9; 9; 9; 9; 9; 9; 9; 9; 9; 9; 9;
    7; 7; 7; 7; 7; 7; 7; 7; 7; 7; 7; 7; 7; 7; 7; 7; 7; 7; 7; 7; 7; 7; 7; 7; 7; 7; 7; 7; 7; 7; 7; 7;
    8; 8; 2; 2; 2; 2; 2; 2; 2; 2; 2; 2; 2; 2; 2; 2; 2; 2; 2; 2; 2; 2; 2; 2; 2; 2; 2; 2; 2; 2; 2; 2;
    10; 3; 3; 3; 3; 3; 3; 3; 3; 3; 3; 3; 3; 4; 3; 3; 11; 6; 6; 6; 5; 8; 8; 8; 8; 8; 8; 8; 8; 8; 8; 8;
    0; 1; 2; 3; 5; 8; 7; 1; 1; 1; 4; 6; 1; 1; 1; 1; 1; 1; 1; 1; 1; 1; 1; 1; 1; 1; 1; 1; 1; 1; 1; 1;
    1; 0; 1; 1; 1; 1; 1; 0; 1; 0; 1; 1; 1; 1; 1; 1; 1; 2; 1; 1; 1; 1; 1; 2; 1; 2; 1; 1; 1; 1; 1; 1;
    1; 1; 1; 1; 1; 1; 1; 2; 1; 1; 1; 1; 1; 1; 1; 1; 1; 2; 1; 1; 1; 1; 1; 1; 1; 2; 1; 1; 1; 1; 1; 1;
    1; 1; 1; 1; 1; 1; 1; 3; 1; 3; 1; 1; 1; 1; 1; 1; 1; 3; 1; 1; 1; 1; 1; 3; 1; 3; 1; 1; 1; 1; 1; 1;
    1; 3; 1; 1; 1; 1; 1; 1; 1; 1; 1; 1; 1; 1; 1; 1]%Z.

(** [decode]: the new state and code point ([codep] is a [uint32_t]). *)
Definition decode (state codep byte : Z) : Z * Z :=
  let type := nth (Z.to_nat byte) utf8d 0%Z in
  let codep :=
    if (state =? UTF8_ACCEPT)%Z then Z.land (Z.shiftr 255 type) byte
    else Z.lor (Z.land byte 63) (u32 (Z.shiftl codep 6)) in
  (nth (Z.to_nat (256 + state * 16 + type)) utf8d 0%Z, codep).

Definition hex_chr (d : Z) : ascii := if (d <? 10)%Z then chr (d + 48) else chr (d + 87).

(** [snprintf] with [\u%04x]. *)
Definition u_escape (z : Z) : bytes :=
  let z := u16 z in
  B "\u" ++ [hex_chr (z / 4096); hex_chr ((z / 256) `mod` 16); hex_chr ((z / 16) `mod` 16); hex_chr (z `mod` 16)].

(** What the code point [cp], whose last byte is [c], adds to the buffer. *)
Definition escape_cp (ensure_ascii : bool) (cp : Z) (c : ascii) : bytes :=
  if (cp =? 0x08)%Z then B "\b"
  else if (cp =? 0x09)%Z then B "\t"
  else if (cp =? 0x0A)%Z then B "\n"
  else if (cp =? 0x0C)%Z then B "\f"
  else if (cp =? 0x0D)%Z then B "\r"
  else if (cp =? 0x22)%Z then ["\"%char; DQUOTE]
  else if (cp =? 0x5C)%Z then B "\\"
  else if (cp <=? 0x1F)%Z || (ensure_ascii && (0x7F <=? cp)%Z) then
    if (cp <=? 0xFFFF)%Z then u_escape cp
    else u_escape (0xD7C0 + Z.shiftr cp 10) ++ u_escape (0xDC00 + Z.land cp 0x3FF)
  else [c].

(** [s_buf] is the part of [string_buffer] in use, [s_out] what was already written. *)
Record ser := Ser { s_out : bytes; s_buf : bytes; s_state : Z; s_cp : Z }.

Definition string_buffer_size : nat := 512.

(** One character of the input; [None] is the exception of strict mode. *)
Definition dump_step (ensure_ascii : bool) (st : ser) (c : ascii) : option ser :=
  let '(state, cp) := decode (s_state st) (s_cp st) (code c) in
  if (state =? UTF8_ACCEPT)%Z then
    let buf := s_buf st ++ escape_cp ensure_ascii cp c in
    if (string_buffer_size - length buf <? 13)%nat
    then Some (Ser (s_out st ++ buf) [] state cp)
    else Some (Ser (s_out st) buf state cp)
  else if (state =? UTF8_REJECT)%Z then None
  else Some (Ser (s_out st) (if ensure_ascii then s_buf st else s_buf st ++ [c]) state cp).

Fixpoint dump_loop (ensure_ascii : bool) (s : bytes) (st : ser) : option ser :=
  match s with
  | [] => Some st
  | c :: s => st ← dump_step ensure_ascii st c; dump_loop ensure_ascii s st
  end.

Definition dump_escaped (ensure_ascii : bool) (s : bytes) : option bytes :=
  st ← dump_loop ensure_ascii s (Ser [] [] UTF8_ACCEPT 0);
  if (s_state st =? UTF8_ACCEPT)%Z then Some (s_out st ++ s_buf st) else None.

(** ** Values: compact [dump] *)

Section members.
  Variable dump : json -> option bytes.

  (** [n - 1] members each followed by a comma, then the last one. *)
Fixpoint dump_members (l : list (bytes * json)) : option bytes :=
    match l with
    | [] => Some []
    | [(k, v)] =>
        k ← dump_escaped false k; v ← dump v;
        Some ([DQUOTE] ++ k ++ [DQUOTE; ":"%char] ++ v)
    | (k, v) :: l =>
        k ← dump_escaped false k; v ← dump v; r ← dump_members l;
        Some ([DQUOTE] ++ k ++ [DQUOTE; ":"%char] ++ v ++ B "," ++ r)
    end.

Fixpoint dump_elements (l : list json) : option bytes :=
    match l with
    | [] => Some []
    | [v] => dump v
    | v :: l => v ← dump v; r ← dump_elements l; Some (v ++ B "," ++ r)
    end.
End members.

Fixpoint dump (j : json) : option bytes :=
  match j with
  | JNull => Some (B "null")
  | JBool b => Some (if b then B "true" else B "false")
  | JInt z => dump_integer z
  | JStr s => t ← dump_escaped false s; Some ([DQUOTE] ++ t ++ [DQUOTE])
  | JArr [] => Some (B "[]")
  | JArr l => t ← dump_elements dump l; Some (B "[" ++ t ++ B "]")
  | JObj [] => Some (B "{}")
  | JObj l => t ← dump_members dump l; Some (B "{" ++ t ++ B "}")
  end.

(** ** Reference: reading a JSON string body back (RFC 8259, escapes below U+0080) *)

Definition hex_val (c : ascii) : option Z :=
  if isdigit c then Some (code c - 48)%Z
  else if (97 <=? code c)%Z && (code c <=? 102)%Z then Some (code c - 87)%Z else None.

Definition read_hex4 (a b c d : ascii) : option Z :=
  a ← hex_val a; b ← hex_val b; c ← hex_val c; d ← hex_val d;
  Some (a * 4096 + b * 256 + c * 16 + d)%Z.

Fixpoint unescape (s : bytes) : option bytes :=
  match s with
  | [] => Some []
  | c :: s =>
      if c =c "\"%char then
        match s with
        | e :: s =>
            if e =c "u"%char then
              match s with
              | a :: b :: c :: d :: s =>
                  cp ← read_hex4 a b c d;
                  if (cp <? 128)%Z then cons (chr cp) <$> unescape s else None
              | _ => None
              end
            else if e =c "b"%char then cons (chr 8) <$> unescape s
            else if e =c "t"%char then cons (chr 9) <$> unescape s
            else if e =c "n"%char then cons (chr 10) <$> unescape s
            else if e =c "f"%char then cons (chr 12) <$> unescape s
            else if e =c "r"%char then cons (chr 13) <$> unescape s
            else if (e =c DQUOTE) || (e =c "\"%char) then cons e <$> unescape s
            else None
        | [] => None
        end
      else if (c =c DQUOTE) || (code c <? 32)%Z then None
      else cons c <$> unescape s
  end.

(** ** Integers *)

Lemma dec_nat_length_10000 x :
  (10000 <= x)%Z -> length (dec_nat x) = 4 + length (dec_nat (x / 10000)).
Proof.
  intros Hx. rewrite (dec_nat_step2 x), length_app by lia.
  assert (100 <= x / 100)%Z by (apply Z.div_le_lower_bound; lia).
  rewrite (dec_nat_step2 (x / 100)), length_app by lia. rewrite Z.div_div by lia.
  cbn [length]. change (100 * 100)%Z with 10000%Z. lia.
Qed.

Lemma count_digits_loop_spec fuel x n :
  (0 < fuel)%nat -> (0 <= x < 10 ^ (4 * Z.of_nat fuel))%Z ->
  count_digits_loop fuel x n = Some (n + Z.of_nat (length (dec_nat x)) - 1)%Z.
Proof.
  revert x n. induction fuel as [|fuel IH]; intros x n Hfuel Hx; [lia|].
  assert (forall k, (0 < k)%nat -> (length (dec_nat x) <= k)%nat <-> (x < 10 ^ Z.of_nat k)%Z) as Hb.
  { intros k Hk. apply dec_nat_length_bounds; [done|lia]. }
  pose proof (Hb 1 ltac:(lia)) as H1. pose proof (Hb 2 ltac:(lia)) as H2.
  pose proof (Hb 3 ltac:(lia)) as H3. pose proof (Hb 4 ltac:(lia)) as H4.
  change (10 ^ Z.of_nat 1)%Z with 10%Z in H1. change (10 ^ Z.of_nat 2)%Z with 100%Z in H2.
  change (10 ^ Z.of_nat 3)%Z with 1000%Z in H3. change (10 ^ Z.of_nat 4)%Z with 10000%Z in H4.
  assert (0 < length (dec_nat x)).
  { pose proof (dec_nat_nonnil x). destruct (dec_nat x); [done|simpl; lia]. }
  cbn [count_digits_loop].
  destruct (x <? 10)%Z eqn:?; to_prop; [f_equal; lia|].
  destruct (x <? 100)%Z eqn:?; to_prop; [f_equal; lia|].
  destruct (x <? 1000)%Z eqn:?; to_prop; [f_equal; lia|].
  destruct (x <? 10000)%Z eqn:?; to_prop; [f_equal; lia|].
  assert (0 < fuel)%nat.
  { destruct fuel; [|lia]. change (10 ^ (4 * Z.of_nat 1))%Z with 10000%Z in Hx. lia. }
  rewrite IH; [f_equal; rewrite (dec_nat_length_10000 x) by lia; lia|done|].
  split; [apply Z.div_pos; lia|]. apply Z.div_lt_upper_bound; [lia|].
  replace (4 * Z.of_nat (S fuel))%Z with (4 + 4 * Z.of_nat fuel)%Z in Hx by lia.
  rewrite Z.pow_add_r in Hx by lia. change (10 ^ 4)%Z with 10000%Z in Hx. lia.
Qed.

Lemma dump_pairs_spec fuel x st pre suf :
  (0 < fuel)%nat -> (0 <= x < 100 ^ Z.of_nat fuel)%Z -> region pre (length (dec_nat x)) suf st ->
  exists v st' suf', dump_pairs fuel x st = Some (v, st') /\ (0 <= v < 100)%Z /\
    region pre (length (dec_nat v)) suf' st' /\ dec_nat v ++ suf' = dec_nat x ++ suf.
Proof.
  revert x st suf. induction fuel as [|fuel IH]; intros x st suf Hfuel Hx Hst; [lia|].
  cbn [dump_pairs]. destruct (100 <=? x)%Z eqn:Hge; to_prop; [|by exists x, st, suf; auto with lia].
  unfold digits_to_99. rewrite dec_nat_step2 in Hst by lia.
  rewrite length_app in Hst. simpl length in Hst. rewrite Nat.add_comm in Hst. simpl in Hst.
  pose proof (push_front_region (digit_chr (x `mod` 100 `mod` 10)) _ _ _ _ Hst) as H1.
  pose proof (push_front_region (digit_chr (x `mod` 100 / 10)) _ _ _ _ H1) as H2.
  assert (0 < fuel)%nat.
  { destruct fuel; [|lia]. change (100 ^ Z.of_nat 1)%Z with 100%Z in Hx. lia. }
  assert (0 <= x / 100 < 100 ^ Z.of_nat fuel)%Z as Hb.
  { rewrite Nat2Z.inj_succ, Z.pow_succ_r in Hx by lia.
    split; [apply Z.div_pos; lia|apply Z.div_lt_upper_bound; lia]. }
  destruct (IH (x / 100)%Z _ _ ltac:(done) Hb H2) as (v & st' & suf' & Heq & Hv & Hr & Happ).
  exists v, st', suf'. split_and!; auto; try lia.
  rewrite Happ, (dec_nat_step2 x) by lia. by rewrite <- app_assoc.
Qed.

Lemma push_last pre v suf st :
  (0 <= v < 100)%Z -> region pre (length (dec_nat v)) suf st ->
  (if (10 <=? v)%Z
   then let '(d1, d0) := digits_to_99 v in push_front d1 (push_front d0 st)
   else push_front (digit_chr v) st) = (pre ++ dec_nat v ++ suf, length pre).
Proof.
  intros Hv Hr. destruct (10 <=? v)%Z eqn:Hge; to_prop.
  - rewrite dec_nat_two in Hr |- * by lia. simpl in Hr. unfold digits_to_99.
    apply (push_front_region (digit_chr (v `mod` 10))) in Hr.
    apply (push_front_region (digit_chr (v / 10))) in Hr as (junk & Hj & ->).
    destruct junk; [|done]. simpl. f_equal. lia.
  - rewrite dec_nat_small in Hr |- * by lia. simpl in Hr.
    apply (push_front_region (digit_chr v)) in Hr as (junk & Hj & ->).
    destruct junk; [|done]. simpl. f_equal. lia.
Qed.

(** Writing the digits of a positive number behind a sign that is already in the buffer. *)
Lemma dump_digits_spec x pre :
  (0 < x < 2 ^ 64)%Z -> length pre <= 1 ->
  let buf := pre ++ replicate (number_buffer_size - length pre) NUL in
  let n := length (dec_nat x) in
  exists v st, dump_pairs 11 x (buf, length pre + n) = Some (v, st) /\
    take (length pre + n)
      (fst (if (10 <=? v)%Z
            then let '(d1, d0) := digits_to_99 v in push_front d1 (push_front d0 st)
            else push_front (digit_chr v) st)) = pre ++ dec_nat x.
Proof.
  intros Hx Hpre buf n.
  assert (n <= 20) as Hn.
  { apply dec_nat_length_bounds; [lia|lia|]. apply (Z.lt_trans _ (2 ^ 64)); [lia|done]. }
  assert (region pre n (drop (length pre + n) buf) (buf, length pre + n)) as Hr.
  { apply region_start; unfold buf.
    - rewrite length_app, length_replicate. unfold number_buffer_size. lia.
    - by rewrite take_app_length. }
  destruct (dump_pairs_spec 11 x _ _ _ ltac:(lia) ltac:(split; [lia|
    apply (Z.lt_trans _ (2 ^ 64)); [lia|done]]) Hr) as (v & st & suf' & -> & Hv & Hr' & Happ).
  exists v, st. split; [done|]. rewrite (push_last pre v suf' st Hv Hr'). simpl. rewrite Happ.
  rewrite app_assoc. apply take_app_length'. by rewrite length_app.
Qed.

Lemma dump_integer_dec x : (- 2 ^ 63 <= x < 2 ^ 64)%Z -> dump_integer x = Some (dec x).
Proof.
  intros Hx. unfold dump_integer. destruct (x =? 0)%Z eqn:H0; to_prop; [by subst|].
  set (a := if (x <? 0)%Z then (- (x + 1) + 1)%Z else x).
  assert (0 < a < 2 ^ 64)%Z as Ha by (unfold a; destruct (x <? 0)%Z eqn:?; to_prop; lia).
  unfold count_digits. rewrite count_digits_loop_spec; [|lia|].
  2: { split; [lia|]. apply (Z.lt_trans _ (2 ^ 64)); [lia|done]. }
  unfold dec. destruct (x <? 0)%Z eqn:Hneg; to_prop; cbn [mbind option_bind].
  - assert (a = (- x)%Z) as Hax by (unfold a; lia).
    destruct (dump_digits_spec a ["-"%char] Ha ltac:(done)) as (v & st & Heq & Htake).
    replace (Z.to_nat (1 + (1 + Z.of_nat (length (dec_nat a)) - 1))) with
      (length ["-"%char] + length (dec_nat a)) by (simpl; lia).
    change (<[0:="-"%char]> (replicate number_buffer_size NUL)) with
      (["-"%char] ++ replicate (number_buffer_size - length ["-"%char]) NUL).
    rewrite Heq. cbn [mbind option_bind].
    destruct (if (10 <=? v)%Z then _ else _) as [b i]. cbn [fst] in Htake. rewrite Htake, Hax. done.
  - destruct (dump_digits_spec a [] Ha ltac:(simpl; lia)) as (v & st & Heq & Htake).
    replace (Z.to_nat (1 + Z.of_nat (length (dec_nat a)) - 1)) with (0 + length (dec_nat a)) by lia.
    cbn [length app] in Heq, Htake. rewrite Nat.sub_0_r in Heq. rewrite Heq. cbn [mbind option_bind].
    destruct (if (10 <=? v)%Z then _ else _) as [b i]. cbn [fst] in Htake. rewrite Htake. done.
Qed.

(** For every value of a 64-bit integer type, signed or unsigned, [dump_integer] (digit
    count by powers of 10000, two digits at a time from the back of the number buffer)
    prints the shortest decimal representation. *)
Theorem dump_integer_correct x : (- 2 ^ 63 <= x < 2 ^ 64)%Z -> dump_integer x = Some (dec x).
Proof. apply dump_integer_dec. Qed.

Lemma dump_integer_correct_witness :
  dump_integer (- 2 ^ 63) = Some (dec (- 2 ^ 63)) /\ dec (- 2 ^ 63) = B "-9223372036854775808".
Proof. split; [apply (dump_integer_correct (- 2 ^ 63)); lia|reflexivity]. Defined.

(** ** Strings: what the automaton accepts *)

(** Well-formed UTF-8 byte sequences (the table of RFC 3629, section 4): the ranges of the
    bytes that must follow a lead byte. *)
Definition cont : Z * Z := (0x80, 0xBF)%Z.

Definition utf8_lead (b : Z) : option (list (Z * Z)) :=
  (if b <=? 0x7F then Some []
   else if b <? 0xC2 then None
   else if b <=? 0xDF then Some [cont]
   else if b =? 0xE0 then Some [(0xA0, 0xBF); cont]
   else if b =? 0xED then Some [(0x80, 0x9F); cont]
   else if b <=? 0xEF then Some [cont; cont]
   else if b =? 0xF0 then Some [(0x90, 0xBF); cont; cont]
   else if b <=? 0xF3 then Some [cont; cont; cont]
   else if b =? 0xF4 then Some [(0x80, 0x8F); cont; cont]
   else None)%Z.

Definition utf8_next (pending : list (Z * Z)) (b : Z) : option (list (Z * Z)) :=
  match pending with
  | [] => utf8_lead b
  | (lo, hi) :: pending => if (lo <=? b)%Z && (b <=? hi)%Z then Some pending else None
  end.

Fixpoint utf8_wf (pending : list (Z * Z)) (s : bytes) : bool :=
  match s with
  | [] => match pending with [] => true | _ => false end
  | c :: s => match utf8_next pending (code c) with
              | Some pending => utf8_wf pending s
              | None => false
              end
  end.

(** What the states of the automaton wait for, and the code points they can have read. *)
Definition state_pending (state : Z) : option (list (Z * Z)) :=
  nth (Z.to_nat state)
    [Some []; None; Some [cont]; Some [cont; cont]; Some [(0xA0, 0xBF); cont]%Z;
     Some [(0x80, 0x9F); cont]%Z; Some [(0x90, 0xBF); cont; cont]%Z;
     Some [cont; cont; cont]; Some [(0x80, 0x8F); cont; cont]%Z] None.

Definition state_cp_range (state : Z) : Z * Z :=
  nth (Z.to_nat state)
    [(0, 2 ^ 32); (0, 0); (2, 2 ^ 16); (1, 2 ^ 10 - 1); (0, 0); (13, 13); (0, 0); (1, 7); (4, 4)]%Z (0, 0)%Z.

Definition next_state (state byte : Z) : Z :=
  nth (Z.to_nat (256 + state * 16 + nth (Z.to_nat byte) utf8d 0%Z)) utf8d 0%Z.

(** One transition: towards the same pending bytes, or rejecting; a code point below 128 is
    complete after the byte that is its own value. *)
Definition transition_ok (state byte : Z) : bool :=
  let state' := next_state state byte in
  let '(lo, hi) := state_cp_range state in
  let '(lo', hi') := state_cp_range state' in
  let b := (byte mod 64)%Z in
  let first := (Z.land (Z.shiftr 255 (nth (Z.to_nat byte) utf8d 0%Z)) byte)%Z in
  bool_decide (state_pending state' = (p ← state_pending state; utf8_next p byte)) &&
  (0 <=? state')%Z && (state' <=? 8)%Z &&
  ((state' =? 1) ||
   if state =? 0 then
     if state' =? 0 then (first =? byte) && (byte <? 128)
     else (128 <=? byte) && (lo' <=? first) && (first <=? hi')
   else
     (128 <=? byte) && (0 <=? lo) && (hi <? 2 ^ 26) && (lo' <=? lo * 64 + b) && (hi * 64 + b <=? hi') &&
     ((negb (state' =? 0)) || (128 <=? lo * 64 + b)))%Z.

Lemma transition_table :
  forallb (fun state => forallb (fun byte => transition_ok (Z.of_nat state) (Z.of_nat byte)) (seq 0 256))
    [0; 2; 3; 4; 5; 6; 7; 8] = true.
Proof. vm_compute. reflexivity. Qed.

Lemma transition_spec state byte :
  (0 <= state <= 8)%Z -> (state <> 1)%Z -> (0 <= byte < 256)%Z -> transition_ok state byte = true.
Proof.
  intros Hs Hs1 Hb. pose proof transition_table as Ht. rewrite forallb_Forall, Forall_forall in Ht.
  specialize (Ht (Z.to_nat state)). rewrite Z2Nat.id in Ht by lia.
  rewrite forallb_Forall, Forall_forall in Ht.
  rewrite <- (Z2Nat.id byte) by lia. apply Ht.
  - apply list_elem_of_In. clear Ht. simpl. lia.
  - apply elem_of_seq. lia.
Qed.

Lemma append_cont byte cp :
  (0 <= byte)%Z -> (0 <= cp < 2 ^ 26)%Z ->
  Z.lor (Z.land byte 63) (u32 (Z.shiftl cp 6)) = (cp * 64 + byte mod 64)%Z.
Proof.
  intros Hb Hcp. change 63%Z with (Z.ones 6). rewrite Z.land_ones by lia.
  rewrite Z.shiftl_mul_pow2 by lia. unfold u32, wrapu.
  rewrite (Z.mod_small (cp * 2 ^ 6)) by lia. change (2 ^ 6)%Z with 64%Z.
  assert (Z.land (byte mod 64) (cp * 64) = 0)%Z as Hz.
  { apply Z.bits_inj'. intros n Hn. rewrite Z.land_spec, Z.bits_0. change 64%Z with (2 ^ 6)%Z.
    destruct (Z.lt_ge_cases n 6).
    - by rewrite andb_comm, Z.mul_pow2_bits_low by lia.
    - by rewrite Z.mod_pow2_bits_high by lia. }
  rewrite <- Z.lxor_lor, <- Z.add_nocarry_lxor by done. lia.
Qed.

(** The states reached while reading and the code points read so far. *)
Definition ser_ok (state cp : Z) : Prop :=
  (0 <= state <= 8 /\ state <> 1 /\
   (state = 0 \/ fst (state_cp_range state) <= cp <= snd (state_cp_range state)))%Z.

Lemma decode_state state cp byte : fst (decode state cp byte) = next_state state byte.
Proof. reflexivity. Qed.

Lemma pending_reject state :
  (0 <= state <= 8)%Z -> state_pending state = None <-> state = UTF8_REJECT.
Proof.
  intros Hs. assert (exists n, n < 9 /\ state = Z.of_nat n) as (n & Hn & ->)
    by (exists (Z.to_nat state); lia).
  unfold state_pending, UTF8_REJECT. rewrite Nat2Z.id.
  do 9 (destruct n as [|n]; [simpl; split; intros; done || lia|]). lia.
Qed.

(** One call of [decode]: it follows [utf8_next]; a completed code point below 128 is a byte
    of its own, any other byte read is at least 128. *)
Lemma decode_spec state cp c pending :
  ser_ok state cp -> state_pending state = Some pending ->
  let '(state', cp') := decode state cp (code c) in
  match utf8_next pending (code c) with
  | None => state' = UTF8_REJECT
  | Some pending' =>
      ser_ok state' cp' /\ state_pending state' = Some pending' /\
      ((state' = UTF8_ACCEPT /\ cp' = code c /\ (code c < 128)%Z) \/
       ((128 <= code c)%Z /\ (state' = UTF8_ACCEPT -> (128 <= cp')%Z)))
  end.
Proof.
  intros (Hs & Hs1 & Hcp) Hp. pose proof (code_range c) as Hc.
  pose proof (transition_spec state (code c) Hs Hs1 Hc) as Ht.
  destruct (decode state cp (code c)) as [state' cp'] eqn:Hd.
  assert (state' = next_state state (code c)) as Hst by (by rewrite <- (decode_state _ cp), Hd).
  unfold transition_ok in Ht. rewrite <- Hst, Hp in Ht. cbn [mbind option_bind] in Ht.
  unfold decode, UTF8_ACCEPT in Hd. apply (f_equal snd) in Hd. cbn [snd] in Hd.
  unfold ser_ok, UTF8_ACCEPT in *.
  destruct (state_cp_range state) as [lo hi]. destruct (state_cp_range state') as [lo' hi'].
  cbn [fst snd] in *. apply andb_true_iff in Ht as [Ht Hc']. to_prop.
  pose proof (pending_reject state' ltac:(lia)) as Hrej. unfold UTF8_REJECT in *.
  rewrite H in Hrej |- *. destruct (utf8_next pending (code c)) as [pending'|]; [|by apply Hrej].
  assert (state' <> 1%Z) as Hne by (intros Heq; by apply Hrej in Heq).
  split; [split; [lia|split; [done|]]|split; [done|]]; destruct Hc' as [?|Hc']; to_prop; try lia.
  - destruct (state =? 0)%Z eqn:Hs0; to_prop.
    + destruct (state' =? 0)%Z eqn:?; to_prop; lia.
    + rewrite append_cont in Hd by lia. lia.
  - destruct (state =? 0)%Z eqn:Hs0; to_prop.
    + destruct (state' =? 0)%Z eqn:?; to_prop; lia.
    + rewrite append_cont in Hd by lia. right. split; [lia|]. intros ->.
      repeat match goal with H : _ \/ _ |- _ => destruct H end; to_prop; lia.
Qed.

(** ** Strings: escaping and reading back *)

(** [p] is a way to write the characters [s] in a JSON string. *)
Definition writes (p s : bytes) : Prop :=
  forall rest, unescape (p ++ rest) = app s <$> unescape rest.

Lemma writes_nil : writes [] [].
Proof. intros rest. simpl. by destruct (unescape rest). Qed.

Lemma writes_app p q s t : writes p s -> writes q t -> writes (p ++ q) (s ++ t).
Proof.
  intros Hp Hq rest. rewrite <- app_assoc, Hp, Hq. destruct (unescape rest); simpl; [|done].
  by rewrite <- app_assoc.
Qed.

Lemma writes_high c : (128 <= code c)%Z -> writes [c] [c].
Proof.
  intros Hc rest. cbn [app unescape].
  assert (c <> "\"%char) by (intros ->; done). assert (c <> DQUOTE) by (intros ->; done).
  rewrite (proj2 (Ascii.eqb_neq c "\"%char)), (proj2 (Ascii.eqb_neq c DQUOTE)) by done.
  by rewrite (proj2 (Z.ltb_ge (code c) 32)) by lia.
Qed.

Lemma writes_escape c : (code c < 128)%Z -> writes (escape_cp false (code c) c) [c].
Proof.
  intros Hc rest.
  destruct c as [[] [] [] [] [] [] [] []]; first [exfalso; vm_compute in Hc; discriminate|reflexivity].
Qed.

Lemma escape_cp_high cp c : (128 <= cp)%Z -> escape_cp false cp c = [c].
Proof.
  intros H. unfold escape_cp.
  repeat (case_test; to_prop; try lia; try done).
Qed.

Lemma dump_step_spec c out buf state cp pending :
  ser_ok state cp -> state_pending state = Some pending ->
  match utf8_next pending (code c) with
  | None => dump_step false (Ser out buf state cp) c = None
  | Some pending' =>
      exists e out' buf' state' cp',
        dump_step false (Ser out buf state cp) c = Some (Ser out' buf' state' cp') /\
        out' ++ buf' = out ++ buf ++ e /\ writes e [c] /\
        ser_ok state' cp' /\ state_pending state' = Some pending'
  end.
Proof.
  intros Hok Hp. pose proof (decode_spec state cp c pending Hok Hp) as Hd.
  unfold dump_step. cbn [s_state s_cp s_out s_buf].
  destruct (decode state cp (code c)) as [state' cp']. destruct (utf8_next pending (code c)) as [p'|].
  - destruct Hd as (Hok' & Hp' & Hcase). destruct (state' =? UTF8_ACCEPT)%Z eqn:Ha; to_prop.
    + assert (writes (escape_cp false cp' c) [c]) as Hw.
      { destruct Hcase as [(_ & -> & Hc)|(Hc & Hcp)]; [by apply writes_escape|].
        rewrite escape_cp_high by auto. by apply writes_high. }
      exists (escape_cp false cp' c). case_test; do 4 eexists; split_and!; eauto.
      by rewrite app_nil_r.
    + destruct (state' =? UTF8_REJECT)%Z eqn:Hr; to_prop; [destruct Hok' as (_ & ? & _); done|].
      destruct Hcase as [(-> & _)|(Hc & _)]; [done|].
      exists [c]. do 4 eexists; split_and!; eauto using writes_high.
  - by rewrite Hd.
Qed.

Lemma dump_loop_spec s out buf state cp pending :
  ser_ok state cp -> state_pending state = Some pending ->
  match dump_loop false s (Ser out buf state cp) with
  | None => utf8_wf pending s = false
  | Some st =>
      utf8_wf pending s = (s_state st =? UTF8_ACCEPT)%Z /\
      exists e, s_out st ++ s_buf st = out ++ buf ++ e /\ writes e s
  end.
Proof.
  revert out buf state cp pending. induction s as [|c s IH]; intros out buf state cp pending Hok Hp; simpl.
  - split; [|by exists []; rewrite app_nil_r; auto using writes_nil].
    destruct Hok as (Hs & _). unfold UTF8_ACCEPT.
    assert (exists n, n < 9 /\ state = Z.of_nat n) as (n & Hn & ->) by (exists (Z.to_nat state); lia).
    unfold state_pending in Hp. rewrite Nat2Z.id in Hp.
    do 9 (destruct n as [|n]; [simpl in Hp; by simplify_eq|]). lia.
  - pose proof (dump_step_spec c out buf state cp pending Hok Hp) as Hs.
    destruct (utf8_next pending (code c)) as [p'|]; [|by rewrite Hs].
    destruct Hs as (e & out' & buf' & state' & cp' & -> & Heq & Hw & Hok' & Hp'). cbn [mbind option_bind].
    specialize (IH out' buf' state' cp' p' Hok' Hp').
    destruct (dump_loop false s (Ser out' buf' state' cp')) as [st|]; [|done].
    destruct IH as (Hwf & e' & Heq' & Hw'). split; [done|]. exists (e ++ e'). split.
    + rewrite Heq', app_assoc, Heq, <- !app_assoc. done.
    + by apply (writes_app e e' [c] s).
Qed.

Lemma dump_escaped_spec s :
  match dump_escaped false s with
  | Some out => utf8_wf [] s = true /\ writes out s
  | None => utf8_wf [] s = false
  end.
Proof.
  unfold dump_escaped.
  pose proof (dump_loop_spec s [] [] UTF8_ACCEPT 0 [] ltac:(split_and!; [done|done|done|by left])
    eq_refl) as Hl.
  destruct (dump_loop false s _) as [st|]; [|done]. cbn [mbind option_bind].
  destruct Hl as (Hwf & e & Heq & Hw). destruct (s_state st =? UTF8_ACCEPT)%Z; [|done].
  rewrite Heq. auto.
Qed.

(** ** The text of a string literal holds no control character *)

Definition printable (c : ascii) : Prop := (32 <= code c)%Z.

Lemma hex_val_printable c v : hex_val c = Some v -> printable c.
Proof. unfold hex_val, isdigit, printable. intros H. repeat case_test; to_prop; simplify_eq; lia. Qed.

Lemma unescape_printable s r : unescape s = Some r -> Forall printable s.
Proof.
  remember (length s) as n eqn:Hn. assert (length s <= n) as Hle by lia. clear Hn.
  revert s r Hle. induction n as [|n IH]; intros [|c s] r Hle H; simpl in Hle; try lia; [by constructor..|].
  assert (forall s' f, length s' <= n -> (f : bytes -> bytes) <$> unescape s' = Some r -> Forall printable s') as IH'.
  { intros s' f Hl Hf. apply fmap_Some in Hf as (r' & Hr' & _). eauto. }
  cbn [unescape] in H. destruct (c =c "\"%char) eqn:Hc.
  - to_prop. subst c. constructor; [unfold printable; vm_compute; discriminate|].
    destruct s as [|e s]; [done|]. simpl in Hle.
    assert (forall v, e = v -> printable v -> forall f : bytes -> bytes,
      f <$> unescape s = Some r -> Forall printable (e :: s)) as Hesc.
    { intros v -> Hv f Hf. constructor; [done|]. eapply IH'; [lia|exact Hf]. }
    destruct (e =c "u"%char) eqn:Hu; to_prop.
    { subst e. constructor; [unfold printable; vm_compute; discriminate|].
      destruct s as [|a [|b [|c [|d s]]]]; try done. simpl in Hle. unfold read_hex4 in H.
      destruct (hex_val a) eqn:?, (hex_val b) eqn:?, (hex_val c) eqn:?, (hex_val d) eqn:?; try done.
      cbn [mbind option_bind] in H. case_test; [|done].
      repeat (constructor; [eapply hex_val_printable; eassumption|]). eapply IH'; [lia|exact H]. }
    repeat (case_test; [to_prop; eapply Hesc; [eassumption|unfold printable; vm_compute; discriminate|exact H]|]).
    case_test; [|done]. to_prop.
    destruct Heqb4; to_prop; (eapply Hesc; [eassumption|unfold printable; vm_compute; discriminate|exact H]).
  - case_test; [done|]. to_prop. constructor; [done|]. eapply IH'; [lia|exact H].
Qed.

Lemma dump_escaped_read s out :
  dump_escaped false s = Some out -> unescape out = Some s.
Proof.
  intros Ho. pose proof (dump_escaped_spec s) as H. rewrite Ho in H.
  destruct H as [_ Hw]. specialize (Hw []). rewrite app_nil_r in Hw. rewrite Hw. cbn. by rewrite app_nil_r.
Qed.

Lemma dump_escaped_total s : utf8_wf [] s = true -> is_Some (dump_escaped false s).
Proof.
  intros Hs. pose proof (dump_escaped_spec s) as H.
  destruct (dump_escaped false s); [by eexists|congruence].
Qed.

(** ** Texts that need no escape *)

Definition plain (c : ascii) : bool :=
  (32 <=? code c)%Z && (code c <? 127)%Z && negb (c =c DQUOTE) && negb (c =c "\"%char).

Lemma escape_plain c : plain c = true -> escape_cp false (code c) c = [c].
Proof. destruct c as [[] [] [] [] [] [] [] []]; intros H; first [discriminate H|reflexivity]. Qed.

Lemma dump_step_plain c out buf cp :
  plain c = true ->
  exists out' buf' cp', dump_step false (Ser out buf UTF8_ACCEPT cp) c = Some (Ser out' buf' UTF8_ACCEPT cp') /\
    out' ++ buf' = out ++ buf ++ [c].
Proof.
  intros Hc.
  pose proof (decode_spec UTF8_ACCEPT cp c [] ltac:(split_and!; [done|done|done|by left]) eq_refl) as Hd.
  unfold dump_step. cbn [s_state s_cp s_out s_buf].
  assert (code c < 127)%Z as Hlt by (unfold plain in Hc; to_prop; lia).
  assert (utf8_next [] (code c) = Some []) as Hn.
  { simpl. unfold utf8_lead. by rewrite (proj2 (Z.leb_le _ _)) by lia. }
  rewrite Hn in Hd. destruct (decode UTF8_ACCEPT cp (code c)) as [state' cp'].
  destruct Hd as (_ & _ & [(-> & -> & _)|[? _]]); [|lia].
  cbn [Z.eqb UTF8_ACCEPT]. rewrite escape_plain by done.
  case_test; do 3 eexists; (split; [reflexivity|]); by rewrite ?app_nil_r.
Qed.

Lemma dump_loop_plain s out buf cp :
  Forall (fun c => plain c = true) s ->
  exists out' buf' cp', dump_loop false s (Ser out buf UTF8_ACCEPT cp) = Some (Ser out' buf' UTF8_ACCEPT cp') /\
    out' ++ buf' = out ++ buf ++ s.
Proof.
  intros Hs. revert out buf cp. induction Hs as [|c s Hc _ IH]; intros out buf cp; cbn [dump_loop].
  - exists out, buf, cp. by rewrite app_nil_r.
  - destruct (dump_step_plain c out buf cp Hc) as (out1 & buf1 & cp1 & -> & H1). cbn [mbind option_bind].
    destruct (IH out1 buf1 cp1) as (out2 & buf2 & cp2 & -> & H2). exists out2, buf2, cp2. split; [done|].
    rewrite H2, app_assoc, H1, <- !app_assoc. done.
Qed.

Lemma dump_escaped_plain s : Forall (fun c => plain c = true) s -> dump_escaped false s = Some s.
Proof.
  intros Hs. unfold dump_escaped. destruct (dump_loop_plain s [] [] 0 Hs) as (out & buf & cp & -> & H).
  cbn [mbind option_bind s_state s_out s_buf Z.eqb UTF8_ACCEPT]. by rewrite H.
Qed.

(** Escaping is total on well-formed UTF-8 and throws on everything else (the automaton of
    [decode] decides exactly the byte sequences of RFC 3629), and a reader that knows the
    escapes gets the original string back. *)
Theorem dump_escaped_correct s :
  match dump_escaped false s with
  | Some out => utf8_wf [] s = true /\ unescape out = Some s
  | None => utf8_wf [] s = false
  end.
Proof.
  pose proof (dump_escaped_spec s) as H. destruct (dump_escaped false s) as [out|]; [|done].
  destruct H as [Hwf Hw]. split; [done|].
  specialize (Hw []). rewrite app_nil_r in Hw. rewrite Hw. cbn. by rewrite app_nil_r.
Qed.
