(* ===== verification/Handlers.v ===== *)
(** * The request handlers: [src/fileCacheProxy.cpp], lines 303-453

    What a handler does is the sequence of its calls to the libraries.  libevent and the
    FastDFS client are not part of the repository: a [Service] gives the results of their
    functions on a state of the outside world, and the handlers are functions of it. *)
From S2P Require Import Prelude CLib ConfigReader Utilities Json.

(** ** The libraries *)

(** The fields of [FDFSFileInfo] the program could read. *)
Record FDFSFileInfo := MkInfo { create_timestamp : Z; crc32 : Z; file_size : Z }.

Class Service := {
  World : Type;
  Conn : Type;    (* an open [ConnectionInfo] *)
  Addr : Type;    (* a [ConnectionInfo] that is not connected *)
  evhttp_find_header : list (bytes * bytes) -> bytes -> option bytes;
  tracker_query_storage_store : Conn -> World -> (Z * (Addr * bytes * Z)) * World;
  tracker_make_connection : Addr -> World -> (option Conn * Z) * World;
  storage_upload_by_filebuff :
    Conn -> Conn -> Z -> bytes -> option bytes -> bytes -> World -> (Z * (bytes * bytes)) * World;
  storage_delete_file1 : Conn -> bytes -> World -> Z * World;
  fdfs_get_file_info1 : bytes -> World -> (Z * FDFSFileInfo) * World;
  local_now : World -> tm;
  STRERROR : Z -> bytes;
  fresh_memory : Z -> bytes }.

(** ** Requests and the trace of a handler *)

(** [req_body] is [None] when [evhttp_request_get_input_buffer] returns a null pointer. *)
Record request := MkRequest { req_headers : list (bytes * bytes); req_body : option bytes }.

Inductive action `{Service} :=
  | ANewArray (size : nat)                               (* new char[size] *)
  | AFreeArray (size : nat)                              (* delete[] *)
  | AConnect (c : Conn)                                  (* a storage connection was made *)
  | ADisconnect (c : Conn)                               (* tracker_close_connection *)
  | ANewBuffer                                           (* evbuffer_new *)
  | AFreeBuffer                                          (* evbuffer_free *)
  | AAddHeader (key value : bytes)                       (* evhttp_add_header, response *)
  | ASendReply (code : Z) (reason : bytes) (body : option bytes)
  | ARecord (line : bytes).                              (* fFileID << line *)

Definition HTTP_OK : Z := 200.
Definition HTTP_200 : Z := HTTP_OK.
Definition HTTP_400 : Z := 400.
Definition HTTP_503 : Z := 503.
Definition FDFS_GROUP_NAME_MAX_LEN : nat := 16.
Definition PATH_LEN : nat := 256.

Section handlers.
  Context `{Service}.

Record hstate := HState { world : World; trace : list action }.

  (** How a computation of a handler ends: with a value, with an exception that leaves the
      handler, or in undefined behaviour. *)
Inductive outcome (A : Type) := Ended (x : A) (st : hstate) | Threw (st : hstate) | Undefined.
#[global] Arguments Ended {A} x st.
#[global] Arguments Threw {A} st.
#[global] Arguments Undefined {A}.

Definition M (A : Type) : Type := hstate -> outcome A.

#[global] Instance M_ret : MRet M := fun A x st => Ended x st.
#[global] Instance M_bind : MBind M := fun A C f m st =>
    match m st with Ended x st' => f x st' | Threw st' => Threw st' | Undefined => Undefined end.

Definition act (a : action) : M unit := fun st => Ended tt (HState (world st) (trace st ++ [a])).

  (** A call of a library function. *)
Definition call {A} (f : World -> A * World) : M A := fun st =>
    let '(x, w) := f (world st) in Ended x (HState w (trace st)).

  (** An operation of [json] that may throw. *)
Definition throws {A} (o : option A) : M A := fun st => match o with Some x => Ended x st | None => Threw st end.

Definition format (fmt : bytes) (args : list printf_arg) : M bytes := fun st =>
    match string_format 2 fresh_memory fmt args with SfDone s => Ended s st | _ => Undefined end.

  (** What a library function wrote into a [char] array of [size] characters: a text that does
      not fit with its null character was written past the array. *)
Definition fits (size : nat) (text : bytes) : bool := (length (c_str text) <? size)%nat.
Definition in_array (size : nat) (text : bytes) : M unit := fun st => if fits size text then Ended tt st else Undefined.

Definition evhttp_send_reply (code : Z) (reason : bytes) (body : option bytes) : M unit :=
    act (ASendReply code reason body).

  (** The two headers every JSON answer gets. *)
Definition json_headers (j_str : bytes) : M unit :=
    _ ← act (AAddHeader (B "Content-Length") (dec (Z.of_nat (length j_str))));
    act (AAddHeader (B "Content-Type") (B "application/json")).

Definition httpd_handler (req : request) (arg : Conn) : M unit :=
    evhttp_send_reply HTTP_400 (B "Bad Request") None.

Definition upload_handler (req : request) (arg : Conn) : M unit :=
    let file_ext_name := evhttp_find_header (req_headers req) (B "FileExt") in
    match req_body req with
    | None => evhttp_send_reply HTTP_400 (B "Bad Request") None
    | Some file_content =>
        _ ← act (ANewArray (length file_content));
        '(result, (storageServer, group_name, store_path_index)) ← call (tracker_query_storage_store arg);
        if negb (result =? 0)%Z then evhttp_send_reply HTTP_503 (B "Service Temporarily Unavailable") None
        else
          _ ← in_array (FDFS_GROUP_NAME_MAX_LEN + 1) group_name;
          '(pStorageServer, result) ← call (tracker_make_connection storageServer);
          match pStorageServer with
          | None => evhttp_send_reply HTTP_503 (B "Service Temporarily Unavailable") None
          | Some c =>
              _ ← act (AConnect c);
              '(result, (group_name, remote_filename)) ←
                call (storage_upload_by_filebuff arg c store_path_index file_content file_ext_name group_name);
              if negb (result =? 0)%Z then evhttp_send_reply HTTP_503 (B "Service Temporarily Unavailable") None
              else
                _ ← in_array (FDFS_GROUP_NAME_MAX_LEN + 1) group_name;
                _ ← in_array PATH_LEN remote_filename;
                id ← format (B "%s/%s") [AStr group_name; AStr remote_filename];
                j ← throws (json_at (B "FileID") (json_set (JStr id)) (JObj []));
                j_str ← throws (dump j);
                _ ← act ANewBuffer;
                _ ← json_headers j_str;
                _ ← evhttp_send_reply HTTP_200 (B "OK") (Some (c_str j_str));
                _ ← act AFreeBuffer;
                act (ARecord (j_str ++ [LF]))
          end
    end.

Definition delete_handler (req : request) (arg : Conn) : M unit :=
    match evhttp_find_header (req_headers req) (B "FileID") with
    | None => evhttp_send_reply HTTP_400 (B "FileID is NULL") None
    | Some fileID =>
        result ← call (storage_delete_file1 arg fileID);
        if negb (result =? 0)%Z then
          _ ← act ANewBuffer;
          _ ← evhttp_send_reply HTTP_400 (B "Bad Request") (Some (c_str (STRERROR result)));
          act AFreeBuffer
        else
          j_str ← throws (dump (JObj []));
          _ ← act ANewBuffer;
          _ ← json_headers j_str;
          evhttp_send_reply HTTP_200 (B "OK") None
    end.

  (** The members of [j["FileInfo"]], in the order of the assignments; [file_size] is an
      [int64_t] and [crc32] an [int]. *)
Definition fileinfo_json (now : bytes) (i : FDFSFileInfo) : option json :=
    j ← json_at (B "FileInfo") (json_at (B "CreateTime") (json_set (JStr now))) (JObj []);
    j ← json_at (B "FileInfo") (json_at (B "FileSize") (json_set (JInt (wraps 64 (file_size i))))) j;
    json_at (B "FileInfo") (json_at (B "FileCrc32") (json_set (JInt (s32 (crc32 i))))) j.

Definition fileinfo_handler (req : request) (arg : Conn) : M unit :=
    match evhttp_find_header (req_headers req) (B "FileID") with
    | None => evhttp_send_reply HTTP_400 (B "FileID is NULL") None
    | Some fileID =>
        '(result, FileInfo) ← call (fdfs_get_file_info1 fileID);
        if negb (result =? 0)%Z then evhttp_send_reply HTTP_400 (B "Bad Request") None
        else
          now ← call (fun w => (get_time_now (local_now w), w));
          j ← throws (fileinfo_json now FileInfo);
          j_str ← throws (dump j);
          _ ← act ANewBuffer;
          _ ← json_headers j_str;
          _ ← evhttp_send_reply HTTP_OK (B "OK") (Some (c_str j_str));
          act AFreeBuffer
    end.

  (** ** Dispatch: [mPath2Handle] and libevent's callbacks *)

Definition handler : Type := request -> Conn -> M unit.

  (** The map the constructor of [fileCacheProxy] fills. *)
Definition mPath2Handle : gmap bytes handler :=
    <[B "/delete" := delete_handler]>
    (<[B "/upload" := upload_handler]>
    (<[B "/fileinfo" := fileinfo_handler]>
    (<[B "/" := httpd_handler]> ∅))).

  (** The callback libevent invokes: the one set for the path with [evhttp_set_cb], and for
      any other path the one set with [evhttp_set_gencb]. *)
Definition serve (path : bytes) (req : request) (arg : Conn) : M unit :=
    default httpd_handler (mPath2Handle !! path) req arg.

  (** Requests served one after the other by one event loop. *)
Fixpoint serve_all (reqs : list (bytes * request)) (arg : Conn) : M unit :=
    match reqs with
    | [] => mret tt
    | (path, req) :: reqs => _ ← serve path req arg; serve_all reqs arg
    end.
End handlers.

(** ** Observations on a trace *)

Section observe.
  Context `{Service}.

Definition replies (t : list action) : list (Z * bytes * option bytes) :=
    omap (fun a => match a with ASendReply c r b => Some (c, r, b) | _ => None end) t.
Definition headers (t : list action) : list (bytes * bytes) :=
    omap (fun a => match a with AAddHeader k v => Some (k, v) | _ => None end) t.
Definition records (t : list action) : list bytes :=
    omap (fun a => match a with ARecord l => Some l | _ => None end) t.
Definition connections (t : list action) : list Conn :=
    omap (fun a => match a with AConnect c => Some c | _ => None end) t.

  (** What the actions leave behind: characters allocated and not freed, storage connections
      open, response buffers not freed. *)
Definition live_bytes (t : list action) : Z :=
    foldr (fun a n => match a with ANewArray k => n + Z.of_nat k | AFreeArray k => n - Z.of_nat k | _ => n end)%Z 0%Z t.
Definition live_conns (t : list action) : Z :=
    foldr (fun a n => match a with AConnect _ => n + 1 | ADisconnect _ => n - 1 | _ => n end)%Z 0%Z t.
Definition live_buffers (t : list action) : Z :=
    foldr (fun a n => match a with ANewBuffer => n + 1 | AFreeBuffer => n - 1 | _ => n end)%Z 0%Z t.

  (** From the world [w] the computation ends with [x] in [w'] after the actions [t]; is left
      by an exception there; is undefined. *)
Definition runs {A} (m : M A) (w : World) (x : A) (w' : World) (t : list action) : Prop :=
    forall t0, m (HState w t0) = Ended x (HState w' (t0 ++ t)).
Definition escapes {A} (m : M A) (w w' : World) (t : list action) : Prop :=
    forall t0, m (HState w t0) = Threw (HState w' (t0 ++ t)).
Definition undefined {A} (m : M A) (w : World) : Prop := forall t0, m (HState w t0) = Undefined.

Lemma runs_fun {A} (m : M A) w x w' t x2 w2 t2 :
    runs m w x w' t -> runs m w x2 w2 t2 -> x = x2 /\ w' = w2 /\ t = t2.
Proof. intros H1 H2. specialize (H1 []). rewrite (H2 []) in H1. by simplify_eq/=. Qed.

  (** [string_format("%s/%s", a, b)] with texts that fit their arrays. *)
Lemma runs_format_join a b w :
    fits (FDFS_GROUP_NAME_MAX_LEN + 1) a = true -> fits PATH_LEN b = true ->
    runs (format (B "%s/%s") [AStr a; AStr b]) w (c_str a ++ B "/" ++ c_str b) w [].
Proof.
    unfold fits. intros Ha%Nat.ltb_lt Hb%Nat.ltb_lt t0. unfold format, FDFS_GROUP_NAME_MAX_LEN, PATH_LEN in *.
    rewrite string_format_join by (unfold FORMAT_MAX; lia). by rewrite app_nil_r.
  Qed.
End observe.

(** ** The answer of an upload *)

Definition file_id_json (esc : bytes) : bytes :=
  B "{" ++ [DQUOTE] ++ B "FileID" ++ [DQUOTE] ++ B ":" ++ [DQUOTE] ++ esc ++ [DQUOTE] ++ B "}".

Lemma json_file_id id :
  json_at (B "FileID") (json_set (JStr id)) (JObj []) = Some (JObj [(B "FileID", JStr id)]).
Proof. reflexivity. Qed.

Lemma dump_file_id id esc :
  dump_escaped false id = Some esc -> dump (JObj [(B "FileID", JStr id)]) = Some (file_id_json esc).
Proof.
  intros H. cbn [dump dump_members]. rewrite H.
  change (dump_escaped false (B "FileID")) with (Some (B "FileID")).
  cbn [mbind option_bind]. unfold file_id_json. by rewrite <- !app_assoc.
Qed.

Lemma dump_file_id_fails id :
  dump_escaped false id = None -> dump (JObj [(B "FileID", JStr id)]) = None.
Proof. intros H. cbn [dump dump_members]. rewrite H. reflexivity. Qed.

Lemma c_str_printable s : Forall printable s -> c_str s = s.
Proof.
  intros Hs. apply c_str_id. eapply Forall_impl; [exact Hs|]. intros c Hc.
  apply Ascii.eqb_neq. intros ->. unfold printable in Hc. vm_compute in Hc. by apply Hc.
Qed.

Lemma B_printable s : forallb (fun c => (32 <=? code c)%Z) (B s) = true -> Forall printable (B s).
Proof. rewrite forallb_Forall. intros H. eapply Forall_impl; [exact H|]. intros c. apply Z.leb_le. Qed.

Lemma printable_quote : Forall printable [DQUOTE].
Proof. constructor; [unfold printable; vm_compute; discriminate|constructor]. Qed.

Lemma file_id_json_c_str esc : Forall printable esc -> c_str (file_id_json esc) = file_id_json esc.
Proof.
  intros He. apply c_str_printable. unfold file_id_json.
  rewrite !Forall_app. split_and!; first [done|apply printable_quote|by apply B_printable].
Qed.

(** What came of the three calls of an upload: one failed, the file was stored under a group and
    a name, or a text the library wrote did not fit its array. *)
Inductive upload_outcome := NotStored | Stored (group name : bytes) | Overrun.

Definition name_fits (group name : bytes) : bool := fits (FDFS_GROUP_NAME_MAX_LEN + 1) group && fits PATH_LEN name.

Inductive upload_result `{Service} (arg : Conn) (content : bytes) (ext : option bytes) (w : World)
    : World -> list action -> upload_outcome -> Prop :=
  | up_no_server r addr g spi w1 :
      tracker_query_storage_store arg w = ((r, (addr, g, spi)), w1) -> r <> 0%Z ->
      upload_result arg content ext w w1 [] NotStored
  | up_overrun addr g spi w1 :
      tracker_query_storage_store arg w = ((0%Z, (addr, g, spi)), w1) -> fits (FDFS_GROUP_NAME_MAX_LEN + 1) g = false ->
      upload_result arg content ext w w1 [] Overrun
  | up_no_connection addr g spi r w1 w2 :
      tracker_query_storage_store arg w = ((0%Z, (addr, g, spi)), w1) -> fits (FDFS_GROUP_NAME_MAX_LEN + 1) g = true ->
      tracker_make_connection addr w1 = ((None, r), w2) ->
      upload_result arg content ext w w2 [] NotStored
  | up_failed addr g spi w1 c r1 w2 r group name w3 :
      tracker_query_storage_store arg w = ((0%Z, (addr, g, spi)), w1) -> fits (FDFS_GROUP_NAME_MAX_LEN + 1) g = true ->
      tracker_make_connection addr w1 = ((Some c, r1), w2) ->
      storage_upload_by_filebuff arg c spi content ext g w2 = ((r, (group, name)), w3) -> r <> 0%Z ->
      upload_result arg content ext w w3 [AConnect c] NotStored
  | up_stored addr g spi w1 c r1 w2 group name w3 :
      tracker_query_storage_store arg w = ((0%Z, (addr, g, spi)), w1) -> fits (FDFS_GROUP_NAME_MAX_LEN + 1) g = true ->
      tracker_make_connection addr w1 = ((Some c, r1), w2) ->
      storage_upload_by_filebuff arg c spi content ext g w2 = ((0%Z, (group, name)), w3) ->
      upload_result arg content ext w w3 [AConnect c] (if name_fits group name then Stored group name else Overrun).

Definition upload_request `{Service} (req : request) (content : bytes) (ext : option bytes) : Prop :=
  req_body req = Some content /\ evhttp_find_header (req_headers req) (B "FileExt") = ext.

(** The actions of a stored upload after its connection. *)
Definition upload_answer `{Service} (j : bytes) : list action :=
  [ANewBuffer; AAddHeader (B "Content-Length") (dec (Z.of_nat (length j)));
   AAddHeader (B "Content-Type") (B "application/json");
   ASendReply HTTP_200 (B "OK") (Some j); AFreeBuffer; ARecord (j ++ [LF])].

Section upload.
  Context `{Service}.
  Context (req : request) (arg : Conn) (content : bytes) (ext : option bytes).
  Hypothesis Hreq : upload_request req content ext.

Local Ltac calls :=
    let t0 := fresh "t0" in intros t0; unfold upload_handler; destruct Hreq as [-> ->];
    unfold mbind, M_bind, act, call, in_array; cbn [world trace];
    repeat match goal with
    | E : tracker_query_storage_store _ _ = _ |- _ => rewrite E; cbn [world trace negb Z.eqb]; clear E
    | E : tracker_make_connection _ _ = _ |- _ => rewrite E; cbn [world trace negb Z.eqb]; clear E
    | E : storage_upload_by_filebuff _ _ _ _ _ _ _ = _ |- _ => rewrite E; cbn [world trace negb Z.eqb]; clear E
    | E : fits _ ?g = _ |- context [fits _ ?g] => rewrite E; cbn [world trace]
    | E : ?r <> 0%Z |- _ => rewrite (proj2 (Z.eqb_neq r 0) E); clear E
    end; cbn [negb Z.eqb world trace].

Lemma upload_none w w' t :
    upload_result arg content ext w w' t NotStored ->
    runs (upload_handler req arg) w tt w'
      (ANewArray (length content) :: t ++ [ASendReply HTTP_503 (B "Service Temporarily Unavailable") None]).
Proof.
    intros Hr. inversion Hr; subst; try by destruct (name_fits _ _). all: calls; unfold evhttp_send_reply, act; cbn [world trace];
      by rewrite <- ?app_assoc.
  Qed.

Lemma upload_overrun w w' t : upload_result arg content ext w w' t Overrun -> undefined (upload_handler req arg) w.
Proof.
    intros Hr. inversion Hr as [|addr g spi w1 Hq Hg| | |addr g spi w1 c r1 w2 group name w3 Hq Hg Hc Hu Hw Ht Hn]; subst; [by calls|].
    unfold name_fits in Hn. destruct (fits (FDFS_GROUP_NAME_MAX_LEN + 1) group) eqn:H1; [|by calls].
    destruct (fits PATH_LEN name) eqn:H2; [done|by calls].
  Qed.

Lemma stored_inv w w' t group name :
    upload_result arg content ext w w' t (Stored group name) ->
    exists addr g spi w1 c r1 w2, tracker_query_storage_store arg w = ((0%Z, (addr, g, spi)), w1) /\ fits (FDFS_GROUP_NAME_MAX_LEN + 1) g = true /\
      tracker_make_connection addr w1 = ((Some c, r1), w2) /\
      storage_upload_by_filebuff arg c spi content ext g w2 = ((0%Z, (group, name)), w') /\ t = [AConnect c] /\
      fits (FDFS_GROUP_NAME_MAX_LEN + 1) group = true /\ fits PATH_LEN name = true.
Proof.
    intros Hr. inversion Hr as [| | | |addr g spi w1 c r1 w2 group' name' w3 Hq Hg Hc Hu Hw Ht Hn]. destruct (name_fits group' name') eqn:Hf; [|done].
    injection Hn as -> ->. apply andb_true_iff in Hf as [H1 H2]. subst. by exists addr, g, spi, w1, c, r1, w2.
  Qed.

Lemma upload_some w w' t group name esc :
    upload_result arg content ext w w' t (Stored group name) ->
    dump_escaped false (c_str group ++ B "/" ++ c_str name) = Some esc ->
    runs (upload_handler req arg) w tt w'
      (ANewArray (length content) :: t ++ upload_answer (file_id_json esc)).
Proof.
    intros Hr He. destruct (stored_inv _ _ _ _ _ Hr) as (addr & g & spi & w1 & c & r1 & w2 & H1 & H2 & H3 & H4 & -> & Hg & Hn).
    pose proof (runs_format_join group name w' Hg Hn) as Hf. pose proof (dump_file_id _ _ He) as Hd.
    pose proof (unescape_printable _ _ (dump_escaped_read _ _ He)) as Hp.
    calls. rewrite Hf. cbn [world trace]. unfold throws.
    rewrite json_file_id. cbn [world trace]. rewrite Hd. cbn [world trace].
    unfold json_headers, evhttp_send_reply, mbind, M_bind, act; cbn [world trace].
    rewrite file_id_json_c_str by done. unfold upload_answer. by rewrite <- !app_assoc.
  Qed.

Lemma upload_bad_name w w' t group name :
    upload_result arg content ext w w' t (Stored group name) ->
    dump_escaped false (c_str group ++ B "/" ++ c_str name) = None ->
    escapes (upload_handler req arg) w w' (ANewArray (length content) :: t).
Proof.
    intros Hr He. destruct (stored_inv _ _ _ _ _ Hr) as (addr & g & spi & w1 & c & r1 & w2 & H1 & H2 & H3 & H4 & -> & Hg & Hn).
    pose proof (runs_format_join group name w' Hg Hn) as Hf. pose proof (dump_file_id_fails _ He) as Hd.
    calls. rewrite Hf. cbn [world trace]. unfold throws. rewrite json_file_id. cbn [world trace]. rewrite Hd.
    by rewrite <- !app_assoc.
  Qed.

Lemma upload_result_total w : exists w' t res, upload_result arg content ext w w' t res.
Proof.
    destruct (tracker_query_storage_store arg w) as [[r1 [[addr g] spi]] w1] eqn:E1.
    destruct (decide (r1 = 0%Z)) as [->|Hr1]; [|eauto using up_no_server].
    destruct (fits (FDFS_GROUP_NAME_MAX_LEN + 1) g) eqn:Hg; [|eauto using up_overrun].
    destruct (tracker_make_connection addr w1) as [[[c|] r2] w2] eqn:E2; [|eauto using up_no_connection].
    destruct (storage_upload_by_filebuff arg c spi content ext g w2) as [[r3 [group name]] w3] eqn:E3.
    destruct (decide (r3 = 0%Z)) as [->|Hr3]; eauto using up_failed, up_stored.
  Qed.
End upload.

(** ** The answer of [/fileinfo] *)

Lemma dec_nat_all_digits n : Forall (fun c => isdigit c = true) (dec_nat n).
Proof.
  destruct (Z_lt_le_dec n 0) as [Hn|Hn]; [|by apply dec_nat_digits].
  unfold dec_nat. rewrite Z.log2_nonpos by lia. simpl. rewrite (proj2 (Z.ltb_lt n 10)) by lia.
  constructor; [|constructor]. apply isdigit_digit_chr. apply Z.mod_pos_bound. lia.
Qed.

Lemma isdigit_plain c : isdigit c = true -> plain c = true.
Proof. destruct c as [[] [] [] [] [] [] [] []]; intros H; first [discriminate H|reflexivity]. Qed.

Definition all_plain (s : bytes) : Prop := Forall (fun c => plain c = true) s.

Lemma plain_digits s : Forall (fun c => isdigit c = true) s -> all_plain s.
Proof. intros H. eapply Forall_impl; [exact H|]. apply isdigit_plain. Qed.

Lemma all_plain_app s t : all_plain (s ++ t) <-> all_plain s /\ all_plain t.
Proof. apply Forall_app. Qed.

Lemma plain_B s : forallb plain (B s) = true -> all_plain (B s).
Proof. apply forallb_Forall. Qed.

Lemma plain_dec z : all_plain (dec z).
Proof.
  unfold dec. case_test; [constructor; [done|]|]; apply plain_digits, dec_nat_all_digits.
Qed.

Lemma plain_zpad w n : all_plain (zpad w n).
Proof.
  apply plain_digits. unfold zpad. apply Forall_app. split; [|apply dec_nat_all_digits].
  by apply Forall_replicate.
Qed.

Lemma plain_printable s : all_plain s -> Forall printable s.
Proof. intros H. eapply Forall_impl; [exact H|]. unfold plain, printable. intros c Hc. to_prop. lia. Qed.

#[local] Hint Resolve plain_dec plain_zpad : fdfs.

Lemma plain_now t : all_plain (get_time_now t).
Proof.
  assert (all_plain (strftime_iso t)) as H.
  { unfold strftime_iso. rewrite !all_plain_app.
    split_and!; first [apply plain_dec | apply plain_zpad | by apply plain_B]. }
  unfold get_time_now. by rewrite c_str_printable by (by apply plain_printable).
Qed.

Lemma wraps_range w z : (0 < w)%Z -> (- 2 ^ (w - 1) <= wraps w z < 2 ^ (w - 1))%Z.
Proof.
  intros Hw. unfold wraps. pose proof (Z.mod_pos_bound (z + 2 ^ (w - 1)) (2 ^ w) ltac:(apply Z.pow_pos_nonneg; lia)).
  assert (2 ^ w = 2 * 2 ^ (w - 1))%Z; [|lia].
  rewrite <- Z.pow_succ_r by lia. f_equal. lia.
Qed.

Lemma dump_integer_wraps w z : (0 < w <= 64)%Z -> dump_integer (wraps w z) = Some (dec (wraps w z)).
Proof.
  intros Hw. apply dump_integer_dec. pose proof (wraps_range w z ltac:(lia)).
  assert (2 ^ (w - 1) <= 2 ^ 63)%Z by (apply Z.pow_le_mono_r; lia). lia.
Qed.

Definition quoted (s : bytes) : bytes := [DQUOTE] ++ s ++ [DQUOTE].

Definition fileinfo_text (now : bytes) (i : FDFSFileInfo) : bytes :=
  B "{" ++ quoted (B "FileInfo") ++ B ":{" ++
    quoted (B "CreateTime") ++ B ":" ++ quoted now ++ B "," ++
    quoted (B "FileCrc32") ++ B ":" ++ dec (s32 (crc32 i)) ++ B "," ++
    quoted (B "FileSize") ++ B ":" ++ dec (wraps 64 (file_size i)) ++ B "}}".

Lemma fileinfo_json_eq now i :
  fileinfo_json now i =
    Some (JObj [(B "FileInfo", JObj [(B "CreateTime", JStr now); (B "FileCrc32", JInt (s32 (crc32 i)));
                                     (B "FileSize", JInt (wraps 64 (file_size i)))])]).
Proof. reflexivity. Qed.

Lemma dump_fileinfo now i :
  all_plain now ->
  dump (JObj [(B "FileInfo", JObj [(B "CreateTime", JStr now); (B "FileCrc32", JInt (s32 (crc32 i)));
                                   (B "FileSize", JInt (wraps 64 (file_size i)))])])
    = Some (fileinfo_text now i).
Proof.
  intros Hn. cbn [dump dump_members]. rewrite (dump_escaped_plain now Hn).
  unfold s32. rewrite !dump_integer_wraps by lia.
  change (dump_escaped false (B "FileInfo")) with (Some (B "FileInfo")).
  change (dump_escaped false (B "CreateTime")) with (Some (B "CreateTime")).
  change (dump_escaped false (B "FileCrc32")) with (Some (B "FileCrc32")).
  change (dump_escaped false (B "FileSize")) with (Some (B "FileSize")).
  cbn [mbind option_bind]. f_equal. unfold fileinfo_text, quoted, s32.
  by rewrite <- ?app_assoc; cbn [app B String.list_ascii_of_string]; rewrite <- ?app_assoc.
Qed.

Lemma fileinfo_text_c_str now i : all_plain now -> c_str (fileinfo_text now i) = fileinfo_text now i.
Proof.
  intros Hn. apply c_str_printable. unfold fileinfo_text, quoted.
  rewrite !Forall_app.
  split_and!; first [apply printable_quote | by apply B_printable | apply plain_printable; auto with fdfs].
Qed.

(** ** The runs of the other two handlers *)

Section lookups.
  Context `{Service}.

Local Ltac call_rule E :=
    let t0 := fresh "t0" in intros t0; unfold mbind, M_bind, act, call; cbn [world trace];
    rewrite E; cbn [world trace negb Z.eqb].

Lemma fileinfo_runs req arg id w info w' :
    evhttp_find_header (req_headers req) (B "FileID") = Some id ->
    fdfs_get_file_info1 id w = ((0%Z, info), w') ->
    let j := fileinfo_text (get_time_now (local_now w')) info in
    runs (fileinfo_handler req arg) w tt w'
      [ANewBuffer; AAddHeader (B "Content-Length") (dec (Z.of_nat (length j)));
       AAddHeader (B "Content-Type") (B "application/json"); ASendReply 200 (B "OK") (Some j); AFreeBuffer].
Proof.
    intros Hid Hi j. pose proof (plain_now (local_now w')) as Hn.
    unfold fileinfo_handler. rewrite Hid. call_rule Hi. unfold throws.
    rewrite fileinfo_json_eq. cbn [world trace].
    rewrite (dump_fileinfo _ _ Hn).
    unfold json_headers, evhttp_send_reply, mbind, M_bind, act; cbn [world trace].
    rewrite fileinfo_text_c_str by done. by rewrite <- !app_assoc.
  Qed.

Lemma fileinfo_runs_error req arg id w r info w' :
    evhttp_find_header (req_headers req) (B "FileID") = Some id ->
    fdfs_get_file_info1 id w = ((r, info), w') -> r <> 0%Z ->
    runs (fileinfo_handler req arg) w tt w' [ASendReply 400 (B "Bad Request") None].
Proof.
    intros Hid Hi Hr. unfold fileinfo_handler. rewrite Hid. call_rule Hi.
    by rewrite (proj2 (Z.eqb_neq r 0) Hr).
  Qed.

Lemma delete_runs_error req arg id w r w' :
    evhttp_find_header (req_headers req) (B "FileID") = Some id ->
    storage_delete_file1 arg id w = (r, w') -> r <> 0%Z ->
    runs (delete_handler req arg) w tt w' [ANewBuffer; ASendReply 400 (B "Bad Request") (Some (c_str (STRERROR r))); AFreeBuffer].
Proof.
    intros Hid Hi Hr. unfold delete_handler. rewrite Hid. call_rule Hi.
    rewrite (proj2 (Z.eqb_neq r 0) Hr). cbn [negb]. unfold evhttp_send_reply, mbind, M_bind, act; cbn [world trace]. by rewrite <- !app_assoc.
  Qed.

Lemma delete_runs req arg id w w' :
    evhttp_find_header (req_headers req) (B "FileID") = Some id ->
    storage_delete_file1 arg id w = (0%Z, w') ->
    runs (delete_handler req arg) w tt w'
      [ANewBuffer; AAddHeader (B "Content-Length") (B "2");
       AAddHeader (B "Content-Type") (B "application/json"); ASendReply 200 (B "OK") None].
Proof.
    intros Hid Hi. unfold delete_handler. rewrite Hid. call_rule Hi. unfold throws.
    change (dump (JObj [])) with (Some (B "{}")).
    unfold json_headers, evhttp_send_reply, mbind, M_bind, act; cbn [world trace].
    by rewrite <- !app_assoc.
  Qed.
End lookups.

(** ** One answer per request *)

Definition json_answer_headers (n : nat) : list (bytes * bytes) :=
  [(B "Content-Length", dec (Z.of_nat n)); (B "Content-Type", B "application/json")].

(** A handler's actions [t]: one reply; its headers, body and what it leaves behind. *)
Inductive answered `{Service} (path : bytes) (req : request) (t : list action) : Prop :=
  | ans_json body :
      replies t = [(200%Z, B "OK", Some body)] ->
      headers t = json_answer_headers (length body) ->
      records t = (if path =s B "/upload" then [body ++ [LF]] else []) ->
      live_buffers t = 0%Z -> answered path req t
  | ans_deleted :
      path = B "/delete" -> replies t = [(200%Z, B "OK", None)] ->
      headers t = json_answer_headers 2 -> records t = [] ->
      live_buffers t = 1%Z -> answered path req t
  | ans_error code reason body :
      code = 400%Z \/ code = 503%Z -> replies t = [(code, reason, body)] ->
      headers t = [] -> records t = [] -> live_buffers t = 0%Z -> answered path req t.

Section answers.
  Context `{Service}.

Definition uploaded (path : bytes) (req : request) : Z :=
    if path =s B "/upload" then Z.of_nat (length (default [] (req_body req))) else 0%Z.

Definition answer_post (path : bytes) (req : request) (t : list action) : Prop :=
    answered path req t /\ live_bytes t = uploaded path req /\
    (0 <= live_conns t <= if path =s B "/upload" then 1 else 0)%Z /\
    (path = B "/upload" -> records t <> [] -> live_conns t = 1%Z).

Lemma live_bytes_app t t' : live_bytes (t ++ t') = (live_bytes t + live_bytes t')%Z.
Proof. unfold live_bytes. induction t as [|a t IH]; [done|]. cbn [app foldr]. rewrite IH. destruct a; lia. Qed.
Lemma live_bytes_cons n t : live_bytes (ANewArray n :: t) = (live_bytes t + Z.of_nat n)%Z.
Proof. done. Qed.
Lemma live_conns_app t t' : live_conns (t ++ t') = (live_conns t + live_conns t')%Z.
Proof. unfold live_conns. induction t as [|a t IH]; [done|]. cbn [app foldr]. rewrite IH. destruct a; lia. Qed.
Lemma live_buffers_app t t' : live_buffers (t ++ t') = (live_buffers t + live_buffers t')%Z.
Proof. unfold live_buffers. induction t as [|a t IH]; [done|]. cbn [app foldr]. rewrite IH. destruct a; lia. Qed.

Definition answers (m : M unit) (path : bytes) (req : request) (w : World) : Prop :=
    exists w' t, runs m w tt w' t /\ answer_post path req t.

Local Ltac finish_error :=
    split_and!; [eapply ans_error; [|reflexivity|reflexivity|reflexivity|reflexivity]; auto
                |simpl; lia|simpl; lia|simpl; lia|try done].

Lemma refused_answers path req w code reason :
    code = 400%Z \/ code = 503%Z -> uploaded path req = 0%Z -> answers (evhttp_send_reply code reason None) path req w.
Proof.
    intros Hc Hu. exists w, [ASendReply code reason None]. split; [by intros t0|]. unfold answer_post. rewrite Hu.
    split_and!; [by eapply ans_error|done|done|by case_match|done].
  Qed.

Lemma uploaded_other path req : path <> B "/upload" -> uploaded path req = 0%Z.
Proof. intros Hp. unfold uploaded. by rewrite bool_decide_eq_false_2. Qed.

Lemma delete_answers req arg w : answers (delete_handler req arg) (B "/delete") req w.
Proof.
    destruct (evhttp_find_header (req_headers req) (B "FileID")) as [id|] eqn:Hid;
      [|unfold delete_handler; rewrite Hid; apply refused_answers; auto using uploaded_other].
    destruct (storage_delete_file1 arg id w) as [r w'] eqn:Hr. destruct (decide (r = 0%Z)) as [->|Hne].
    - eexists _, _. split; [by eapply delete_runs|]. split_and!; [by apply ans_deleted|done..].
    - eexists _, _. split; [by eapply delete_runs_error|]. unfold answer_post, uploaded. finish_error.
  Qed.

Lemma fileinfo_answers req arg w : answers (fileinfo_handler req arg) (B "/fileinfo") req w.
Proof.
    destruct (evhttp_find_header (req_headers req) (B "FileID")) as [id|] eqn:Hid;
      [|unfold fileinfo_handler; rewrite Hid; apply refused_answers; auto using uploaded_other].
    destruct (fdfs_get_file_info1 id w) as [[r info] w'] eqn:Hr. destruct (decide (r = 0%Z)) as [->|Hne].
    - eexists _, _. split; [by eapply fileinfo_runs|]. split_and!; [by eapply ans_json|done..].
    - eexists _, _. split; [by eapply fileinfo_runs_error|]. unfold answer_post, uploaded. finish_error.
  Qed.

  (** The two ways an upload ends without an answer. *)
Definition stored_badly (req : request) (arg : Conn) (w w' : World) (t : list action) : Prop :=
    exists content ext group name, upload_request req content ext /\ upload_result arg content ext w w' t (Stored group name) /\
      utf8_wf [] (c_str group ++ B "/" ++ c_str name) = false.
Definition overran (req : request) (arg : Conn) (w : World) : Prop :=
    exists content ext w' t, upload_request req content ext /\ upload_result arg content ext w w' t Overrun.

Definition unanswered (m : M unit) (req : request) (arg : Conn) (w : World) : Prop :=
    (exists content w' t, stored_badly req arg w w' t /\ escapes m w w' (ANewArray content :: t)) \/ (overran req arg w /\ undefined m w).

Lemma upload_result_connections arg content ext w w' t res :
    upload_result arg content ext w w' t res -> t = [] \/ exists c, t = [AConnect c].
Proof. intros []; eauto. Qed.

Lemma upload_answers req arg w :
    answers (upload_handler req arg) (B "/upload") req w \/ unanswered (upload_handler req arg) req arg w.
Proof.
    destruct (req_body req) as [content|] eqn:Hb.
    2: { left. unfold upload_handler. rewrite Hb. apply refused_answers; [auto|]. unfold uploaded. by rewrite Hb. }
    set (ext := evhttp_find_header (req_headers req) (B "FileExt")). assert (upload_request req content ext) as Hreq by done.
    destruct (upload_result_total arg content ext w) as (w' & t & res & Hres).
    destruct res as [|group name|].
    - left. eexists _, _. split; [by apply (upload_none req arg content ext Hreq w w' t)|]. unfold answer_post, uploaded. rewrite Hb.
      destruct (upload_result_connections _ _ _ _ _ _ _ Hres) as [->|[c ->]]; finish_error.
    - destruct (dump_escaped false (c_str group ++ B "/" ++ c_str name)) as [esc|] eqn:He.
      + left. destruct (stored_inv _ _ _ _ _ _ _ _ Hres) as (addr & g & spi & w1 & c & r1 & w2 & _ & _ & _ & _ & -> & _).
        eexists _, _. split; [by apply (upload_some req arg content ext Hreq w w' [AConnect c] group name esc)|].
        unfold answer_post, uploaded. rewrite Hb. split_and!; [by apply (ans_json _ _ _ (file_id_json esc))|simpl; lia|simpl; lia|simpl; lia|done].
      + right. left. exists (length content), w', t. split; [|by apply (upload_bad_name req arg content ext Hreq w w' t group name)].
        exists content, ext, group, name. split_and!; [done|done|]. pose proof (dump_escaped_total (c_str group ++ B "/" ++ c_str name)) as Ht.
        destruct (utf8_wf [] _); [|done]. destruct (Ht eq_refl). congruence.
    - right. right. split; [by exists content, ext, w', t|by apply (upload_overrun req arg content ext Hreq w w' t)].
  Qed.

Lemma serve_cases path req arg w :
    answers (serve path req arg) path req w \/ path = B "/upload" /\ unanswered (serve path req arg) req arg w.
Proof.
    unfold serve, mPath2Handle.
    destruct (decide (path = B "/delete")) as [->|H1]; [rewrite lookup_insert_eq; left; apply delete_answers|].
    rewrite lookup_insert_ne by done.
    destruct (decide (path = B "/upload")) as [->|H2]; [rewrite lookup_insert_eq; cbn; destruct (upload_answers req arg w); auto|].
    rewrite lookup_insert_ne by done. left.
    destruct (decide (path = B "/fileinfo")) as [->|H3]; [rewrite lookup_insert_eq; apply fileinfo_answers|].
    rewrite lookup_insert_ne by done.
    destruct (decide (path = B "/")) as [->|H4]; [rewrite lookup_insert_eq; apply refused_answers; auto using uploaded_other|].
    rewrite lookup_insert_ne by done. apply refused_answers; auto using uploaded_other.
  Qed.
End answers.

(** ** Sequences of requests *)

Section sequences.
  Context `{Service}.

Lemma answered_replies path req t : answered path req t -> length (replies t) = 1.
Proof. intros [? ->|_ ->|? ? ? _ ->]; done. Qed.

Lemma answered_records path req t : answered path req t -> length (records t) <= 1 /\ (records t <> [] -> path = B "/upload").
Proof.
    intros [body _ _ -> _|_ _ _ -> _|? ? ? _ _ _ -> _]; simpl; split; try lia; try done.
    - case_bool_decide; simpl; lia.
    - by case_bool_decide.
  Qed.

Lemma answered_buffers path req t : answered path req t -> (0 <= live_buffers t <= 1)%Z.
Proof. intros [? _ _ _ ->|_ _ _ _ ->|? ? ? _ _ _ _ ->]; lia. Qed.

Definition total_uploaded (reqs : list (bytes * request)) : Z :=
    foldr (fun pr n => uploaded (fst pr) (snd pr) + n)%Z 0%Z reqs.

Lemma serve_ended path req arg st st' :
    serve path req arg st = Ended tt st' -> exists t, trace st' = trace st ++ t /\ answer_post path req t.
Proof.
    destruct st as [w t0]. intros Hs. destruct (serve_cases path req arg w) as [(w' & t & Hr & Ha)|[_ [(n & w' & t & _ & Hr)|[_ Hr]]]];
      specialize (Hr t0); rewrite Hr in Hs; [|done..]. injection Hs as <-. by exists t.
  Qed.

Lemma serve_all_post reqs arg st st' :
    serve_all reqs arg st = Ended tt st' -> exists t, trace st' = trace st ++ t /\
      length (replies t) = length reqs /\ live_bytes t = total_uploaded reqs /\
      (Z.of_nat (length (records t)) <= live_conns t <=
        Z.of_nat (length (List.filter (fun pr => fst pr =s B "/upload") reqs)))%Z /\
      (0 <= live_buffers t)%Z.
Proof.
    revert st. induction reqs as [|[path req] reqs IH]; intros st Hrun; cbn [serve_all] in Hrun.
    { injection Hrun as <-. exists []. by rewrite app_nil_r. }
    unfold mbind, M_bind in Hrun. destruct (serve path req arg st) as [[] st1| |] eqn:Hs; [|done..].
    destruct (serve_ended _ _ _ _ _ Hs) as (t & Ht0 & Ha & Hb & Hc & Hr).
    destruct (IH _ Hrun) as (t' & Ht & H1 & H2 & H3 & H4). exists (t ++ t'). split; [by rewrite Ht, Ht0, app_assoc|].
    pose proof (answered_replies _ _ _ Ha). pose proof (answered_records _ _ _ Ha) as [Hlen Hpath].
    pose proof (answered_buffers _ _ _ Ha).
    unfold replies, records in *. rewrite !omap_app, !length_app, live_bytes_app, live_conns_app, live_buffers_app.
    cbn [length total_uploaded foldr fst snd List.filter]. fold (total_uploaded reqs).
    split_and!; [lia|lia| | |lia].
    - destruct (omap _ t) as [|r rs] eqn:Hrec; [simpl; lia|].
      rewrite Hr by (by try apply Hpath). simpl in *. lia.
    - revert Hc. destruct (path =s B "/upload"); cbn [length]; lia.
  Qed.
End sequences.

(** C10: for every request, whatever its path: when the handler returns, it has called
    [evhttp_send_reply] exactly once: 200 with a JSON body whose length is the [Content-Length]
    sent (and only then, for an upload, with that body recorded as a line), 400 or 503 without
    these headers; a successful delete is the exception, which announces 2 characters, sends no
    body and does not free its buffer.  A handler does not return for one kind of request only:
    an exception leaves it, without reply and record, for an upload that was stored under a
    name that is no UTF-8; and it is undefined when the library wrote past the array of a name. *)
Theorem serve_answers `{Service} path req arg st :
  match serve path req arg st with
  | Ended _ st' => exists t, trace st' = trace st ++ t /\ answered path req t
  | Threw st' =>
      path = B "/upload" /\ exists size t, trace st' = trace st ++ ANewArray size :: t /\ replies t = [] /\ records t = [] /\
        stored_badly req arg (world st) (world st') t
  | Undefined => path = B "/upload" /\ overran req arg (world st)
  end.
Proof.
  destruct st as [w t0]. destruct (serve_cases path req arg w) as [(w' & t & Hr & Ha & _)|[Hp [(n & w' & t & Hb & Hr)|[Ho Hr]]]]; rewrite (Hr t0).
  - by exists t.
  - split; [done|]. exists n, t. split; [done|]. destruct Hb as (content & ext & group & name & Hreq & Hres & Hu).
    assert (replies t = [] /\ records t = []) as [? ?] by (by destruct (upload_result_connections _ _ _ _ _ _ _ Hres) as [->|[c ->]]).
    split_and!; [done|done|]. by exists content, ext, group, name.
  - done.
Qed.

(** An event loop leaks with every upload: after any sequence of requests, one reply
    each, the copies of all uploaded bodies are still allocated and the storage connections
    of (at least) all recorded uploads are still open. *)
Theorem serve_all_leaks `{Service} reqs arg st st' :
  serve_all reqs arg st = Ended tt st' ->
  exists t, trace st' = trace st ++ t /\ length (replies t) = length reqs /\
    live_bytes t = total_uploaded reqs /\ (Z.of_nat (length (records t)) <= live_conns t)%Z.
Proof.
  intros Hr. destruct (serve_all_post reqs arg _ _ Hr) as (t & Ht & H1 & H2 & H3 & _).
  exists t. split_and!; [done|done|done|lia].
Qed.

(** ** The upload handler implements its contract *)

Section upload_contract.
  Context `{Service}.

  (** What an upload whose FastDFS calls went as [res] says does. *)
Definition upload_effect (req : request) (arg : Conn) (content : bytes) (w w' : World) (res : upload_outcome) : Prop :=
    match res with
    | NotStored =>
        exists t, runs (upload_handler req arg) w tt w' t /\
          replies t = [(503%Z, B "Service Temporarily Unavailable", None)] /\ records t = [] /\ live_bytes t = Z.of_nat (length content)
    | Stored group name =>
        let id := c_str group ++ B "/" ++ c_str name in
        if utf8_wf [] id then
          exists esc t, unescape esc = Some id /\ runs (upload_handler req arg) w tt w' t /\
            replies t = [(200%Z, B "OK", Some (file_id_json esc))] /\
            headers t = json_answer_headers (length (file_id_json esc)) /\
            records t = [file_id_json esc ++ [LF]] /\ live_bytes t = Z.of_nat (length content)
        else
          exists t, escapes (upload_handler req arg) w w' t /\
            replies t = [] /\ headers t = [] /\ records t = [] /\ live_bytes t = Z.of_nat (length content)
    | Overrun => undefined (upload_handler req arg) w
    end.
End upload_contract.

(** C1: the upload handler on every outcome of its three FastDFS calls (and there is one,
    [upload_result_total]): when one of them failed the request is answered 503 and nothing is
    recorded; when the file was stored under a group and name that are UTF-8, the request is
    answered 200 with a JSON object whose FileID reads back as group/name and with its length
    announced, and exactly that body is recorded as a line; for a name that is no UTF-8 an
    exception leaves the handler with no answer and no record (the copy of the body is never
    freed); and when the library wrote more
    than the arrays for group and name hold, the behaviour is undefined. *)
Theorem upload_correct `{Service} req arg content ext w w' t res :
  upload_request req content ext -> upload_result arg content ext w w' t res ->
  upload_effect req arg content w w' res.
Proof.
  intros Hreq Hres. destruct res as [|group name|]; cbn [upload_effect].
  - eexists. split; [by apply (upload_none req arg content ext Hreq w w' t)|].
    destruct (upload_result_connections _ _ _ _ _ _ _ Hres) as [->|[c ->]]; split_and!; try done; simpl; lia.
  - destruct (utf8_wf [] _) eqn:Hu.
    + destruct (dump_escaped_total _ Hu) as [esc He]. exists esc. eexists. split; [by apply dump_escaped_read|].
      split; [by apply (upload_some req arg content ext Hreq w w' t group name esc)|].
      destruct (upload_result_connections _ _ _ _ _ _ _ Hres) as [->|[c ->]]; split_and!; try done; simpl; lia.
    + eexists. split; [apply (upload_bad_name req arg content ext Hreq w w' t group name Hres)|].
      * pose proof (dump_escaped_spec (c_str group ++ B "/" ++ c_str name)) as Hs.
        destruct (dump_escaped false _); [|done]. destruct Hs as [Hs _]. congruence.
      * destruct (upload_result_connections _ _ _ _ _ _ _ Hres) as [->|[c ->]]; split_and!; try done; simpl; lia.
  - by apply (upload_overrun req arg content ext Hreq w w' t).
Qed.

(** ** A small service: one group, room for one file *)

Definition shelf_id : bytes := B "group1/M00/00/00/f.bin".

Definition shelf : Service := {|
  World := option bytes;
  Conn := unit;
  Addr := unit;
  evhttp_find_header hs k := snd <$> find (fun kv => fst kv =s k) hs;
  tracker_query_storage_store _ w := ((0%Z, (tt, B "group1", 0%Z)), w);
  tracker_make_connection _ w := ((Some tt, 0%Z), w);
  storage_upload_by_filebuff _ _ _ content _ _ w :=
    match w with
    | None => ((0%Z, (B "group1", B "M00/00/00/f.bin")), Some content)
    | Some _ => ((28%Z, ([], [])), w)
    end;
  storage_delete_file1 _ id w :=
    match w with Some _ => if id =s shelf_id then (0%Z, None) else (2%Z, w) | None => (2%Z, w) end;
  fdfs_get_file_info1 id w :=
    match w with
    | Some content => if id =s shelf_id then ((0%Z, MkInfo 0 (-5) (Z.of_nat (length content))), w)
                      else ((2%Z, MkInfo 0 0 0), w)
    | None => ((2%Z, MkInfo 0 0 0), w)
    end;
  local_now _ := MkTm 1 2 3 4 0 124 4 3 0 0;
  STRERROR _ := B "No such file or directory";
  fresh_memory _ := [] |}.

#[local] Existing Instance shelf.

Definition demo_upload : request := MkRequest [(B "FileExt", B "bin")] (Some (B "hello")).
Definition demo_by_id : request := MkRequest [(B "FileID", shelf_id)] None.
Definition demo_start : hstate := HState (None : World) [].
Definition demo_after (reqs : list (bytes * request)) : hstate :=
  match @serve_all shelf reqs tt demo_start with Ended _ st => st | _ => demo_start end.

Definition demo_reqs : list (bytes * request) :=
  [(B "/upload", demo_upload); (B "/fileinfo", demo_by_id); (B "/delete", demo_by_id);
   (B "/upload", demo_upload); (B "/other", demo_by_id)].

Lemma serve_all_leaks_witness :
  exists t, trace (demo_after demo_reqs) = [] ++ t /\ length (replies t) = 5 /\
    live_bytes t = 10%Z /\ (Z.of_nat (length (records t)) <= live_conns t)%Z.
Proof. apply (@serve_all_leaks shelf demo_reqs tt demo_start). vm_compute. reflexivity. Defined.

Lemma upload_correct_witness :
  @upload_effect shelf demo_upload tt (B "hello") None (Some (B "hello")) (Stored (B "group1") (B "M00/00/00/f.bin")).
Proof.
  apply (@upload_correct shelf demo_upload tt (B "hello") (Some (B "bin")) None (Some (B "hello")) [@AConnect shelf tt]).
  - by split.
  - apply (@up_stored shelf _ _ _ _ tt (B "group1") 0%Z None tt 0%Z None (B "group1") (B "M00/00/00/f.bin")); reflexivity.
Defined.

(** The same service with a name that is not UTF-8: a stored upload without an answer. *)
Definition bad_shelf : Service := {|
  World := unit; Conn := unit; Addr := unit;
  evhttp_find_header _ _ := None;
  tracker_query_storage_store _ w := ((0%Z, (tt, B "g", 0%Z)), w);
  tracker_make_connection _ w := ((Some tt, 0%Z), w);
  storage_upload_by_filebuff _ _ _ _ _ _ w := ((0%Z, (B "g", [chr 255])), w);
  storage_delete_file1 _ _ w := (2%Z, w);
  fdfs_get_file_info1 _ w := ((2%Z, MkInfo 0 0 0), w);
  local_now _ := MkTm 1 2 3 4 0 124 4 3 0 0;
  STRERROR _ := []; fresh_memory _ := [] |}.

Example bad_name_unanswered :
  @serve bad_shelf (B "/upload") demo_upload tt (@HState bad_shelf tt []) =
  Threw (@HState bad_shelf tt [@ANewArray bad_shelf 5; @AConnect bad_shelf tt]).
Proof. vm_compute. reflexivity. Qed.
