(* ===== verification/Proxy.v ===== *)
(** * The proxy's life: [src/fileCacheProxy.cpp] lines 1-301 and 455-487, [src/main.cpp]

    Initialisation, the start of the service, signals, the destructor and [main].  What the
    operating system, spdlog and the FastDFS client answer is an [env]; the handlers the
    service installs are in [Handlers]. *)
From S2P Require Import Prelude CLib ConfigReader Utilities ThreadPool.

(** ** State *)

Definition PATH_LEN : nat := 256.
Definition MAX_CONNECTION_TEST : nat := 16.
Definition ERR_DIR : Z := 102.

Definition SIGHUP : Z := 1.
Definition SIGINT : Z := 2.
Definition SIGQUIT : Z := 3.
Definition SIGTERM : Z := 15.

(** One event loop: the threadID and whether [tracker_get_connection_r] gave a connection. *)
Record threadParam := MkParam { threadID : nat; connected : bool }.

(** The object's data members; [None] is a member the constructor leaves uninitialised. The
    tasks of the pool are the event loops, by their threadID. *)
Record proxy := MkProxy {
  isReady : bool;
  mWorkDir : bytes; mlogDir : bytes; mFclogFile : bytes; mRecordDir : bytes; mProclogFile : bytes;
  has_logger : bool;
  localhost : bytes; port : Z; ThreadCount : Z; expiredays : Z; mClientConfPath : bytes;
  listenfd : option Z;
  mThreadPool : option (pool nat);
  threadParams : list threadParam }.

(** The constructor; numbers it does not set are given as 0. *)
Definition fileCacheProxy : proxy :=
  MkProxy false [] [] [] [] [] false [] 0 0 0 [] None None [].

Definition set_ready (b : bool) (p : proxy) : proxy :=
  MkProxy b (mWorkDir p) (mlogDir p) (mFclogFile p) (mRecordDir p) (mProclogFile p) (has_logger p)
    (localhost p) (port p) (ThreadCount p) (expiredays p) (mClientConfPath p) (listenfd p)
    (mThreadPool p) (threadParams p).

(** ** What the surroundings answer *)

Record env := MkEnv {
  e_files : files;               (* the files that can be opened for reading *)
  e_exe : option bytes;          (* what /proc/<pid>/exe links to *)
  e_junk : bytes;                (* the memory of mWorkDir before init *)
  e_fresh : Z -> bytes;          (* fresh heap memory, for string_format *)
  e_logger : bytes -> bool;      (* the rotating logger can be made for this file *)
  e_socket : Z;
  e_setsockopt : Z;
  e_bind : bytes -> Z -> Z;      (* address and port *)
  e_listen : Z;
  e_fdfs_client_init : bytes -> Z }.

(** How a step of [init] ends: it goes on, returns from [init], accesses memory it may not or
    throws, or does not end. *)
Inductive stage :=
  | Go (p : proxy)
  | Return (code : Z) (p : proxy)
  | Crash
  | NoFuel.

Definition stage_bind (s : stage) (f : proxy -> stage) : stage :=
  match s with Go p => f p | _ => s end.
Notation "s >> f" := (stage_bind s f) (at level 50, left associativity) : fdfs_scope.

(** ** [init], step 1: the directories *)

(** [readlink(path, mWorkDir, 256)]: no NUL is added. *)
Definition readlink_buf (e : env) : bytes :=
  let buf := take PATH_LEN (e_junk e) in
  match e_exe e with
  | Some target => let w := take PATH_LEN target in w ++ drop (length w) buf
  | None => buf
  end.

(** [strrchr(mWorkDir, '/')] and [endPos[1] = 0]: the buffer must hold a C string, with a
    slash in it. *)
Definition cut_exe (buf : bytes) : option bytes :=
  if existsb (fun c => c =c NUL) buf then
    i ← rfind_if (fun c => c =c "/"%char) (c_str buf);
    Some (<[S i := NUL]> buf)
  else None.

Definition format1 (e : env) (fmt : bytes) (arg : bytes) (f : bytes -> stage) : stage :=
  match string_format 2 (e_fresh e) fmt [AStr arg] with SfDone s => f s | _ => Crash end.

Definition init_dirs (e : env) (p : proxy) : stage :=
  match cut_exe (readlink_buf e) with
  | None => Crash
  | Some buf =>
      format1 e (B "%s/log") buf (fun logDir =>
      format1 e (B "%s/fileCacheProxy.log") logDir (fun logFile =>
      format1 e (B "%s/records/") buf (fun recordDir =>
      format1 e (B "%s/process.log") recordDir (fun procFile =>
      (* mkdir for both directories: failures are only printed *)
      Go (MkProxy (isReady p) buf logDir logFile recordDir procFile (has_logger p)
            (localhost p) (port p) (ThreadCount p) (expiredays p) (mClientConfPath p) (listenfd p)
            (mThreadPool p) (threadParams p))))))
  end.

(** ** Step 2: the logger; making it may throw *)
Definition init_logger (e : env) (p : proxy) : stage :=
  if e_logger e (c_str (mFclogFile p)) then
    Go (MkProxy (isReady p) (mWorkDir p) (mlogDir p) (mFclogFile p) (mRecordDir p) (mProclogFile p) true
          (localhost p) (port p) (ThreadCount p) (expiredays p) (mClientConfPath p) (listenfd p)
          (mThreadPool p) (threadParams p))
  else Crash.

(** ** Step 3: the configuration *)

Definition configFileName : bytes := B "fileCacheProxy.conf".

Definition set_config (host : bytes) (prt tc days : Z) (conf : bytes) (p : proxy) : proxy :=
  MkProxy (isReady p) (mWorkDir p) (mlogDir p) (mFclogFile p) (mRecordDir p) (mProclogFile p)
    (has_logger p) host prt tc days conf (listenfd p) (mThreadPool p) (threadParams p).

(** [ThreadCount] and [expiredays]: absent or out of range gives the default. *)
Definition read_ThreadCount (strVal : bytes) : Z :=
  if strVal =s [] then 1%Z
  else let n := str2int strVal in if (n <? 1)%Z then 1%Z else n.

Definition read_expiredays (strVal : bytes) : Z :=
  if strVal =s [] then 7%Z
  else let n := str2int strVal in if (n <? 0)%Z then 7%Z else n.

Definition load_config (fuel : nat) (e : env) (p : proxy) : stage :=
  match Load fuel (e_files e) (MkConfig configFileName ∅) with
  | None => NoFuel
  | Some (code, myConfig) =>
      if negb (code =? 0)%Z then Return ERR_DO_NOT_EXIST p
      else
        let host := getValue myConfig (B "localhost") in
        if host =s [] then Return ERR_PARAM p
        else
          let p := set_config host (port p) (ThreadCount p) (expiredays p) (mClientConfPath p) p in
          let strVal := getValue myConfig (B "port") in
          if strVal =s [] then Return ERR_PARAM p
          else
            (* port is an uint16_t *)
            let prt := u16 (str2int strVal) in
            let p := set_config host prt (ThreadCount p) (expiredays p) (mClientConfPath p) p in
            if (prt <? 0)%Z || (65535 <? prt)%Z then Return ERR_PARAM p
            else
              let tc := read_ThreadCount (getValue myConfig (B "ThreadCount")) in
              let days := read_expiredays (getValue myConfig (B "expiredays")) in
              let p := set_config host prt tc days (mClientConfPath p) p in
              let strVal := getValue myConfig (B "clientConfPath") in
              if negb (doFileExists (e_files e) strVal) then Return ERR_PARAM p
              (* strncpy into 256 characters, then read as a C string *)
              else if (PATH_LEN <=? length (c_str strVal))%nat then Crash
              else Go (set_config host prt tc days (c_str strVal) p)
  end.

(** ** Steps 4 to 6: the socket, the thread pool, the FastDFS client *)

Definition bind_socket (e : env) (p : proxy) : stage :=
  let p := MkProxy (isReady p) (mWorkDir p) (mlogDir p) (mFclogFile p) (mRecordDir p) (mProclogFile p)
             (has_logger p) (localhost p) (port p) (ThreadCount p) (expiredays p) (mClientConfPath p)
             (Some (e_socket e)) (mThreadPool p) (threadParams p) in
  if (e_socket e <? 0)%Z then Return ERR_NETWORK p
  else if (e_setsockopt e <? 0)%Z then Return ERR_NETWORK p
  else if (e_bind e (c_str (localhost p)) (port p) <? 0)%Z then Return ERR_NETWORK p
  else if (e_listen e <? 0)%Z then Return ERR_NETWORK p
  else Go p.

Definition make_pool (p : proxy) : stage :=
  Go (MkProxy (isReady p) (mWorkDir p) (mlogDir p) (mFclogFile p) (mRecordDir p) (mProclogFile p)
        (has_logger p) (localhost p) (port p) (ThreadCount p) (expiredays p) (mClientConfPath p)
        (listenfd p) (Some (threadpool (ThreadCount p))) (threadParams p)).

Definition init_fdfs (e : env) (p : proxy) : stage :=
  if negb (e_fdfs_client_init e (mClientConfPath p) =? 0)%Z then Return ERR_TRACKER p else Go p.

Definition init (fuel : nat) (e : env) (p : proxy) : stage :=
  if isReady p then Return 0 p
  else
    init_dirs e p >> init_logger e >> load_config fuel e >> bind_socket e >> make_pool >> init_fdfs e
    >> fun p => Return SUCCESS (set_ready true p).

(** ** Signals *)

(** [None]: the first statement logs through a null [shared_ptr]. *)
Definition signal_handle (signum : Z) (p : proxy) : option proxy :=
  if negb (has_logger p) then None
  else if existsb (Z.eqb signum) [SIGHUP; SIGINT; SIGQUIT; SIGTERM] then Some (set_ready false p)
  else Some p.

(** ** [startService] *)

(** What the libraries answer while thread [i] is set up: the [info->count > 0] of each
    connection attempt, whether the connection itself was made, [event_base_new],
    [evhttp_new] and the result of [evhttp_accept_socket]. *)
Record slot_env := MkSlot {
  s_count : nat -> bool; s_connected : bool; s_event_base_new : bool; s_evhttp_new : bool;
  s_accept : Z }.

(** The [while] loop: the value of [testNum] when it ends; each failed attempt sleeps a
    second. *)
Fixpoint connect_loop (fuel : nat) (s : slot_env) (testNum : nat) : option nat :=
  match fuel with
  | 0 => None
  | S fuel =>
      if (testNum <? MAX_CONNECTION_TEST)%nat then
        if s_count s testNum then Some testNum else connect_loop fuel s (S testNum)
      else Some testNum
  end.

(** [leaked] counts the [TrackerServerInfo] that no [threadParam] owns, [sleeps] the seconds
    slept. *)
Record service := MkService {
  sv_params : list threadParam; sv_pool : pool nat; leaked : nat; sleeps : nat }.

Inductive start_result :=
  | Started (sv : service)
  | Failed (code : Z) (sv : service)
  | Threw (sv : service)
  | StartNoFuel.

Definition skip_slot (n : nat) (sv : service) : service :=
  MkService (sv_params sv) (sv_pool sv) (S (leaked sv)) (sleeps sv + n).

Section start.
  (** What the workers do before the commit of thread [i]. *)
  Variable work : nat -> pool nat -> pool nat.

(** One iteration of the [for] loop. *)
Definition start_slot (i : nat) (s : slot_env) (sv : service) : start_result :=
  match connect_loop (S MAX_CONNECTION_TEST) s 0 with
  | None => StartNoFuel
  | Some testNum =>
      if (MAX_CONNECTION_TEST <=? testNum)%nat then Started (skip_slot testNum sv)
      else if negb (s_event_base_new s) then Started (skip_slot testNum sv)
      else if negb (s_evhttp_new s) then Started (skip_slot testNum sv)
      else if negb (s_accept s =? 0)%Z then Failed ERR_EV_NEW (skip_slot testNum sv)
      else
        match commit i (work i (sv_pool sv)) with
        | Some pl =>
            Started (MkService (sv_params sv ++ [MkParam i (s_connected s)]) pl (leaked sv) (sleeps sv + testNum))
        | None =>
            Threw (MkService (sv_params sv ++ [MkParam i (s_connected s)]) (sv_pool sv) (leaked sv) (sleeps sv + testNum))
        end
  end.

(** The [for] loop from [i], with [n] iterations left. *)
Fixpoint start_loop (n i : nat) (slots : nat -> slot_env) (sv : service) : start_result :=
  match n with
  | 0 => Started sv
  | S n =>
      match start_slot i (slots i) sv with
      | Started sv => start_loop n (S i) slots sv
      | r => r
      end
  end.

End start.

(** The [while (isReady)] loop: [ready t] is what the flag is after [t] seconds. *)
Fixpoint wait_loop (fuel : nat) (ready : nat -> bool) (t : nat) : option nat :=
  match fuel with
  | 0 => None
  | S fuel => if ready t then wait_loop fuel ready (S t) else Some t
  end.

Inductive service_end :=
  | Returned (code : Z) (p : proxy)      (* [startService] returned *)
  | Waiting (p : proxy)                  (* still in the waiting loop *)
  | Terminated.                          (* an exception, or the pool is not there *)

Definition set_service (sv : service) (p : proxy) : proxy :=
  MkProxy (isReady p) (mWorkDir p) (mlogDir p) (mFclogFile p) (mRecordDir p) (mProclogFile p)
    (has_logger p) (localhost p) (port p) (ThreadCount p) (expiredays p) (mClientConfPath p)
    (listenfd p) (Some (sv_pool sv)) (sv_params sv).

Definition startService (fuel : nat) (work : nat -> pool nat -> pool nat) (slots : nat -> slot_env) (ready : nat -> bool) (p : proxy) : service_end :=
  if negb (isReady p) then Returned ERR_NOT_READY p
  else
    match mThreadPool p with
    | None => Terminated
    | Some pl =>
        match start_loop work (Z.to_nat (ThreadCount p)) 0 slots (MkService (threadParams p) pl 0 0) with
        | Started sv =>
            let p := set_service sv p in
            match wait_loop fuel ready 0 with
            | Some _ => Returned 0 (set_ready false p)
            | None => Waiting p
            end
        | Failed code sv => Returned code (set_service sv p)
        | Threw _ | StartNoFuel => Terminated
        end
    end.

(** ** The destructor and [main] *)

(** [~fileCacheProxy]: the event loops freed, in order, and the pool afterwards; [None] when
    [delete(mThreadPool)] meets an uninitialised pointer. *)
Definition destroy (p : proxy) : list nat * option (pool nat) :=
  (threadID <$> threadParams p, stop <$> mThreadPool p).

Inductive exit :=
  | Exited (status : Z) (freed : list nat) (pl : pool nat)
  | Undefined                            (* the destructor deletes an uninitialised pointer *)
  | Aborted                              (* crash or uncaught exception *)
  | Running (p : proxy).

Definition leave (p : proxy) : exit :=
  match destroy p with
  | (freed, Some pl) => Exited 0 freed pl
  | (_, None) => Undefined
  end.

(** [main], then the destructor of the static [m_garbo]. *)
Definition main (fuel : nat) (e : env) (work : nat -> pool nat -> pool nat) (slots : nat -> slot_env)
    (ready : nat -> bool) : exit :=
  match init fuel e fileCacheProxy with
  | Return iRet p =>
      if negb (iRet =? 0)%Z then leave p
      else match startService fuel work slots ready p with
           | Returned _ p => leave p
           | Waiting p => Running p
           | Terminated => Aborted
           end
  | Go p => leave p
  | Crash => Aborted
  | NoFuel => Running fileCacheProxy
  end.

(** ** The process and its signals *)

(** Where the process stands: before the logger is made, in the rest of [init], at the start
    of [startService], in its [for] loop, in its waiting loop, killed, or past [startService]. *)
Inductive phase := PInit0 | PInit | PServe | PLoop | PWait | PDead | PExit.

(** [asked]: a terminating signal was handled; [late]: one was handled after [init]. *)
Record proc := MkProc { ph : phase; px : proxy; asked : bool; late : bool }.

Definition serving (h : phase) : bool := match h with PServe | PLoop | PWait => true | _ => false end.
Definition alive_phase (h : phase) : bool := match h with PDead | PExit => false | _ => true end.
Definition terminating (signum : Z) : bool := existsb (Z.eqb signum) [SIGHUP; SIGINT; SIGQUIT; SIGTERM].
Arguments terminating : simpl never.

Inductive proc_step : proc -> proc -> Prop :=
  | ps_logger p p' a l :
      isReady p' = isReady p -> has_logger p' = true ->
      proc_step (MkProc PInit0 p a l) (MkProc PInit p' a l)
  | ps_init_fails p a l : proc_step (MkProc PInit p a l) (MkProc PExit p a l)
  | ps_init_ends p p' a l :
      has_logger p' = has_logger p ->
      proc_step (MkProc PInit p a l) (MkProc PServe (set_ready true p') a l)
  | ps_check p a l :
      proc_step (MkProc PServe p a l) (MkProc (if isReady p then PLoop else PExit) p a l)
  | ps_loop_ends p a l : proc_step (MkProc PLoop p a l) (MkProc PWait p a l)
  | ps_loop_fails p a l : proc_step (MkProc PLoop p a l) (MkProc PExit p a l)
  | ps_wait p a l :
      proc_step (MkProc PWait p a l) (MkProc (if isReady p then PWait else PExit) p a l).

Inductive signal_step : proc -> proc -> Prop :=
  | ss_handled h p p' a l signum :
      alive_phase h = true -> signal_handle signum p = Some p' ->
      signal_step (MkProc h p a l) (MkProc h p' (a || terminating signum) (l || (serving h && terminating signum)))
  | ss_killed h p a l signum :
      alive_phase h = true -> signal_handle signum p = None ->
      signal_step (MkProc h p a l) (MkProc PDead p a l).

Inductive proc_reach : proc -> Prop :=
  | pr_start : proc_reach (MkProc PInit0 fileCacheProxy false false)
  | pr_step s s' : proc_reach s -> proc_step s s' \/ signal_step s s' -> proc_reach s'.

(** ** The working directory *)

Definition no_char (c : ascii) (s : bytes) : Prop := Forall (fun d => (d =c c) = false) s.

Lemma existsb_app_nul l k : existsb (fun c => c =c NUL) (l ++ NUL :: k) = true.
Proof. induction l as [|c l IH]; simpl; [done|]. by rewrite IH, orb_true_r. Qed.

Lemma c_str_stop s k : no_char NUL s -> c_str (s ++ NUL :: k) = s.
Proof.
  intros Hs. apply take_while_app_stop; [|done]. eapply Forall_impl; [exact Hs|]. by intros c ->.
Qed.

Lemma cut_exe_spec dir exe k :
  no_char NUL dir -> no_char NUL exe -> no_char "/"%char exe ->
  exists buf, cut_exe ((dir ++ "/"%char :: exe) ++ NUL :: k) = Some buf /\ c_str buf = dir ++ B "/".
Proof.
  intros Hd He Hs. unfold cut_exe. rewrite existsb_app_nul.
  rewrite c_str_stop by (apply Forall_app; split; [done|]; by constructor).
  rewrite (rfind_if_app _ dir "/"%char exe) by done. cbn [mbind option_bind].
  eexists. split; [reflexivity|].
  replace (S (length dir)) with (length (dir ++ ["/"%char])) by (rewrite length_app; simpl; lia).
  change ("/"%char :: exe) with (["/"%char] ++ exe). rewrite (app_assoc dir), <- app_assoc.
  rewrite <- (Nat.add_0_r (length (dir ++ ["/"%char]))), insert_app_r.
  destruct exe as [|c exe]; cbn [app]; (apply c_str_stop; apply Forall_app; split; [done|by constructor]).
Qed.

Lemma format1_done e fmt arg f :
  fmt <> [] -> (Z.of_nat (length fmt) <= FORMAT_MAX)%Z ->
  forall out, vformat (c_str fmt) [AStr arg] = Some out -> (Z.of_nat (length out) <= FORMAT_MAX)%Z ->
  format1 e fmt arg f = f (c_str out).
Proof.
  intros H1 H2 out H3 H4. unfold format1. by rewrite (string_format_done _ fmt [AStr arg] out).
Qed.

Lemma c_str_twice s : c_str (c_str s) = c_str s.
Proof. apply take_while_id, take_while_all. Qed.

Lemma c_str_app_free s t : no_char NUL t -> c_str (c_str s ++ t) = c_str s ++ t.
Proof.
  intros Ht. apply take_while_id, Forall_app. split; [apply take_while_all|].
  eapply Forall_impl; [exact Ht|]. by intros c ->.
Qed.

(** [string_format("%s" + suffix, arg)]. *)
Lemma format1_suffix e (suffix : string) arg f :
  no_char NUL (B suffix) -> no_char "%"%char (B suffix) -> length (B suffix) <= 100 -> length arg <= 1000 ->
  format1 e ("%"%char :: "s"%char :: B suffix) arg f = f (c_str arg ++ B suffix).
Proof.
  intros Hn Hp Hl Ha. pose proof (c_str_length arg) as Hc.
  assert (forall s, no_char "%"%char s -> vformat s [] = Some s) as Hv.
  { induction 1 as [|c s Hc' _ IH]; simpl; [done|]. by rewrite Hc', IH. }
  rewrite (format1_done e ("%"%char :: "s"%char :: B suffix) arg f ltac:(done)
    ltac:(unfold FORMAT_MAX; cbn [length]; lia) (c_str arg ++ B suffix)).
  - by rewrite c_str_app_free.
  - assert (c_str ("%"%char :: "s"%char :: B suffix) = "%"%char :: "s"%char :: B suffix) as ->.
    { apply c_str_id. by repeat constructor. }
    cbn. by rewrite Hv.
  - unfold FORMAT_MAX. rewrite length_app. lia.
Qed.

Lemma cut_exe_length buf buf' : cut_exe buf = Some buf' -> length buf' = length buf.
Proof.
  unfold cut_exe. case_test; [|done]. destruct (rfind_if _ _); [|done].
  intros [= <-]. apply length_insert.
Qed.

Lemma init_dirs_spec e p dir exe :
  e_exe e = Some (dir ++ "/"%char :: exe) -> e_junk e = replicate PATH_LEN NUL ->
  length (dir ++ "/"%char :: exe) < PATH_LEN ->
  no_char NUL dir -> no_char NUL exe -> no_char "/"%char exe ->
  exists p', init_dirs e p = Go p' /\ c_str (mWorkDir p') = dir ++ B "/" /\
    mlogDir p' = dir ++ B "//log" /\ mFclogFile p' = dir ++ B "//log/fileCacheProxy.log" /\
    mRecordDir p' = dir ++ B "//records/" /\ mProclogFile p' = dir ++ B "//records//process.log" /\
    isReady p' = isReady p /\ mThreadPool p' = mThreadPool p.
Proof.
  intros He Hj Hlen Hd Hx Hs. unfold init_dirs, readlink_buf. rewrite He, Hj.
  rewrite (take_ge (dir ++ _)) by lia.
  assert (exists k, drop (length (dir ++ "/"%char :: exe)) (take PATH_LEN (replicate PATH_LEN NUL)) = NUL :: k /\
    length k <= PATH_LEN) as (k & Hk & Hkl).
  { rewrite take_ge by (by rewrite length_replicate). rewrite drop_replicate.
    destruct (PATH_LEN - length (dir ++ "/"%char :: exe)) as [|n] eqn:E; [lia|].
    exists (replicate n NUL). split; [done|]. rewrite length_replicate. lia. }
  rewrite Hk. destruct (cut_exe_spec dir exe k Hd Hx Hs) as (buf & Hcut & Hbuf). rewrite Hcut.
  pose proof (cut_exe_length _ _ Hcut) as Hbl. unfold PATH_LEN in Hlen, Hkl.
  assert (length buf <= 1000) by (rewrite Hbl, length_app; cbn [length]; lia).
  rewrite length_app in Hlen. cbn [length] in Hlen.
  change (B "%s/log") with ("%"%char :: "s"%char :: B "/log").
  change (B "%s/fileCacheProxy.log") with ("%"%char :: "s"%char :: B "/fileCacheProxy.log").
  change (B "%s/records/") with ("%"%char :: "s"%char :: B "/records/").
  change (B "%s/process.log") with ("%"%char :: "s"%char :: B "/process.log").
  assert (forall suf f arg, In suf ["/log"; "/fileCacheProxy.log"; "/records/"; "/process.log"]%string ->
    length arg <= 1000 ->
    format1 e ("%"%char :: "s"%char :: B suf) arg f = f (c_str arg ++ B suf)) as Hf.
  { intros suf f arg Hin Ha. simpl in Hin.
    destruct Hin as [<-|[<-|[<-|[<-|[]]]]]; (apply format1_suffix; [by repeat constructor..|simpl; lia|lia]). }
  assert (no_char NUL (dir ++ B "/")) as Hdn by (apply Forall_app; split; [done|by repeat constructor]).
  assert (forall suf, no_char NUL (B suf) -> c_str (c_str buf ++ B suf) = c_str buf ++ B suf) as Hc.
  { intros suf Hn. by apply c_str_app_free. }
  rewrite Hf by (first [simpl; tauto|lia]). rewrite Hbuf in Hc |- *.
  assert (length (dir ++ B "/") <= 260) as Hdl by (rewrite length_app; cbn; lia).
  rewrite Hf by (first [rewrite !length_app; simpl; lia|simpl; tauto]).
  rewrite Hf by (first [simpl; tauto|lia]). rewrite Hbuf.
  rewrite Hf by (first [rewrite !length_app; simpl; lia|simpl; tauto]).
  rewrite !Hc by (by repeat constructor).
  eexists. split; [reflexivity|]. cbn [mWorkDir mlogDir mFclogFile mRecordDir mProclogFile isReady mThreadPool].
  rewrite Hbuf, <- !app_assoc. by split_and!.
Qed.

(** ** [init] *)

(** What [init] leaves in the object when it returns [code]. *)
Definition init_post (e : env) (code : Z) (p : proxy) : Prop :=
  (code = SUCCESS /\ isReady p = true /\ has_logger p = true /\ localhost p <> [] /\
   (0 <= port p <= 65535)%Z /\ (1 <= ThreadCount p)%Z /\ (0 <= expiredays p)%Z /\
   is_Some (e_files e !! mClientConfPath p) /\ length (mClientConfPath p) < PATH_LEN /\
   listenfd p = Some (e_socket e) /\ (0 <= e_socket e)%Z /\
   (0 <= e_bind e (c_str (localhost p)) (port p))%Z /\
   mThreadPool p = Some (threadpool (ThreadCount p)) /\ threadParams p = [] /\
   e_fdfs_client_init e (mClientConfPath p) = 0%Z) \/
  (isReady p = false /\ has_logger p = true /\ mThreadPool p = None /\
   (code = ERR_DO_NOT_EXIST \/ code = ERR_PARAM \/ code = ERR_NETWORK)) \/
  (code = ERR_TRACKER /\ isReady p = false /\ mThreadPool p = Some (threadpool (ThreadCount p))).

(** What every step keeps of the fresh object. *)
Definition fresh (p : proxy) : Prop := isReady p = false /\ mThreadPool p = None /\ threadParams p = [].

Definition stage_post (s : stage) (G : proxy -> Prop) (R : Z -> proxy -> Prop) : Prop :=
  match s with Go p => G p | Return c p => R c p | _ => True end.

Lemma stage_bind_post s f (G G' : proxy -> Prop) R :
  stage_post s G R -> (forall p, G p -> stage_post (f p) G' R) -> stage_post (s >> f) G' R.
Proof. destruct s; simpl; auto. Qed.

Lemma format1_post e fmt arg f G R :
  (forall s, stage_post (f s) G R) -> stage_post (format1 e fmt arg f) G R.
Proof. intros Hf. unfold format1. by destruct (string_format _ _ _ _). Qed.

Lemma init_dirs_post e p R : fresh p -> stage_post (init_dirs e p) fresh R.
Proof.
  intros Hp. unfold init_dirs. destruct (cut_exe _); [|done].
  apply format1_post; intros ?. apply format1_post; intros ?.
  apply format1_post; intros ?. apply format1_post; intros ?. done.
Qed.

Lemma init_logger_post e p R :
  fresh p -> stage_post (init_logger e p) (fun p => fresh p /\ has_logger p = true) R.
Proof. intros Hp. unfold init_logger. by case_test. Qed.

Lemma read_ThreadCount_pos v : (1 <= read_ThreadCount v)%Z.
Proof. unfold read_ThreadCount. repeat case_test; to_prop; lia. Qed.

Lemma read_expiredays_nonneg v : (0 <= read_expiredays v)%Z.
Proof. unfold read_expiredays. repeat case_test; to_prop; lia. Qed.

Definition configured (e : env) (p : proxy) : Prop :=
  fresh p /\ has_logger p = true /\ localhost p <> [] /\ (0 <= port p <= 65535)%Z /\
  (1 <= ThreadCount p)%Z /\ (0 <= expiredays p)%Z /\
  is_Some (e_files e !! mClientConfPath p) /\ length (mClientConfPath p) < PATH_LEN.

Lemma load_config_post fuel e p :
  fresh p -> has_logger p = true -> stage_post (load_config fuel e p) (configured e) (init_post e).
Proof.
  intros [Hr [Hp Ht]] Hl. unfold load_config. destruct (Load _ _ _) as [[code conf]|]; [|done].
  assert (forall c h pr tc d f, c = ERR_DO_NOT_EXIST \/ c = ERR_PARAM ->
    init_post e c (set_config h pr tc d f p)) as Hret.
  { intros c h pr tc d f Hc. right. left. simpl. split_and!; auto. tauto. }
  case_test; [right; left; split_and!; auto|]. case_test; [right; left; split_and!; auto|]. to_prop.
  case_test; [apply Hret; auto|].
  rewrite (proj2 (Z.ltb_ge _ _)) by apply u16_range. rewrite (proj2 (Z.ltb_ge _ _)) by apply u16_range.
  cbn [orb]. case_test; [apply Hret; auto|]. to_prop. case_test; [done|]. to_prop.
  unfold configured, fresh; cbn. 
  split_and!; auto using read_ThreadCount_pos, read_expiredays_nonneg; try apply u16_range.
  unfold doFileExists in *. match goal with Hb : bool_decide _ = true |- _ => by apply bool_decide_eq_true in Hb end.
Qed.

Definition bound (e : env) (p : proxy) : Prop :=
  listenfd p = Some (e_socket e) /\ (0 <= e_socket e)%Z /\ (0 <= e_bind e (c_str (localhost p)) (port p))%Z.

(** Everything a successful [init] has established before it sets [isReady]. *)
Definition prepared (e : env) (p : proxy) : Prop :=
  isReady p = false /\ has_logger p = true /\ localhost p <> [] /\ (0 <= port p <= 65535)%Z /\
  (1 <= ThreadCount p)%Z /\ (0 <= expiredays p)%Z /\
  is_Some (e_files e !! mClientConfPath p) /\ length (mClientConfPath p) < PATH_LEN /\ bound e p /\
  mThreadPool p = Some (threadpool (ThreadCount p)) /\ threadParams p = [].

Lemma bind_socket_post e p :
  configured e p -> stage_post (bind_socket e p) (fun p => configured e p /\ bound e p) (init_post e).
Proof.
  intros Hc. pose proof Hc as ([Hr [Hp _]] & Hl & _). unfold bind_socket.
  repeat (case_test; [right; left; cbn; tauto|]). to_prop. cbn. by repeat split; try apply Hc.
Qed.

Lemma make_pool_post e p R :
  configured e p /\ bound e p -> stage_post (make_pool p) (prepared e) R.
Proof. intros [([Hr [_ Ht]] & Hc) Hb]. unfold prepared, bound in *; cbn. tauto. Qed.

Lemma init_fdfs_post e p :
  prepared e p ->
  stage_post (init_fdfs e p) (fun p => prepared e p /\ e_fdfs_client_init e (mClientConfPath p) = 0%Z) (init_post e).
Proof.
  intros Hp. unfold init_fdfs. case_test; to_prop; [|by split].
  right. right. unfold prepared in Hp. tauto.
Qed.

Lemma init_ends fuel e p code q :
  fresh p -> init fuel e p = Return code q -> init_post e code q.
Proof.
  intros Hp Hi. unfold init in Hi. rewrite (proj1 Hp) in Hi.
  enough (stage_post (Return code q) (fun _ => True) (init_post e)) by done.
  rewrite <- Hi. clear Hi.
  apply (stage_bind_post _ _ (fun p => prepared e p /\ e_fdfs_client_init e (mClientConfPath p) = 0%Z));
    [|intros r [H Hi]; left; unfold prepared, bound in H; cbn; tauto].
  apply (stage_bind_post _ _ (prepared e)); [|apply init_fdfs_post].
  apply (stage_bind_post _ _ (fun p => configured e p /\ bound e p)); [|intros r; apply make_pool_post].
  apply (stage_bind_post _ _ (configured e)); [|apply bind_socket_post].
  apply (stage_bind_post _ _ (fun p => fresh p /\ has_logger p = true));
    [|intros r [H1 H2]; by apply load_config_post].
  apply (stage_bind_post _ _ fresh); [|intros r; apply init_logger_post]. by apply init_dirs_post.
Qed.

Lemma fresh_proxy : fresh fileCacheProxy.
Proof. done. Qed.

(** C2: [init] of the fresh object is all or nothing: it returns 0 only with every setting in
    its range (a host, a port of 16 bits, at least one thread, days not negative, a client
    configuration that can be opened), the socket bound, the pool made for that many
    threads and the FastDFS client initialised, and then the proxy is ready; any other
    return leaves it not ready, and unless the code is [ERR_TRACKER] without a pool. *)
Theorem init_correct fuel e code p :
  init fuel e fileCacheProxy = Return code p -> init_post e code p.
Proof. apply init_ends, fresh_proxy. Qed.

(** The range check of the port never fires: [load_config] answers [ERR_PARAM] only when
    localhost or port is missing or the client configuration cannot be opened, and a port
    outside 0..65535 is used modulo 65536. *)
Theorem port_check_dead fuel e p :
  match load_config fuel e p with
  | Return code p' =>
      code = ERR_PARAM ->
      exists conf, Load fuel (e_files e) (MkConfig configFileName ∅) = Some (0%Z, conf) /\
        (getValue conf (B "localhost") = [] \/ getValue conf (B "port") = [] \/
         doFileExists (e_files e) (getValue conf (B "clientConfPath")) = false)
  | Go p' =>
      exists conf, Load fuel (e_files e) (MkConfig configFileName ∅) = Some (0%Z, conf) /\
        port p' = (str2int (getValue conf (B "port")) `mod` 65536)%Z
  | _ => True
  end.
Proof.
  unfold load_config. destruct (Load _ _ _) as [[code conf]|]; [|done].
  case_test; [done|]. to_prop. subst code.
  case_test; to_prop; [by intros _; exists conf; auto|].
  case_test; to_prop; [by intros _; exists conf; auto|].
  rewrite (proj2 (Z.ltb_ge _ _)) by apply u16_range. rewrite (proj2 (Z.ltb_ge _ _)) by apply u16_range.
  cbn [orb]. case_test; to_prop; [by intros _; exists conf; auto|]. case_test; [done|].
  by exists conf.
Qed.

(** ** Starting the service *)

(** Thread [i] gets its event loop and HTTP server (when [accept] works too). *)
Definition slot_up (s : slot_env) : bool :=
  existsb (s_count s) (seq 0 MAX_CONNECTION_TEST) && s_event_base_new s && s_evhttp_new s.

Definition started_ids (slots : nat -> slot_env) (i n : nat) : list nat :=
  List.filter (fun j => slot_up (slots j)) (seq i n).

(** A thread that got so far has its socket accepted. *)
Definition accepted (s : slot_env) : Prop := slot_up s = true -> s_accept s = 0%Z.

(** Of the [n] threads from [i] on the [k]th is the first whose socket is not accepted. *)
Definition refused_at (slots : nat -> slot_env) (i n k : nat) : Prop :=
  k < n /\ slot_up (slots (i + k)) = true /\ s_accept (slots (i + k)) <> 0%Z /\
  forall j, i <= j < i + k -> accepted (slots j).

(** Between two commits the workers take steps of the pool that leave its lock free. *)
Record fair_work (work : nat -> pool nat -> pool nat) : Prop := {
  fw_steps i p : steps p (work i p);
  fw_run i p : run (work i p) = run p;
  fw_committed i p : committed (work i p) = committed p;
  fw_lock i p : lock_free p = true -> lock_free (work i p) = true }.

Lemma connect_loop_spec s t fuel :
  MAX_CONNECTION_TEST - t < fuel -> t <= MAX_CONNECTION_TEST ->
  exists n, connect_loop fuel s t = Some n /\ n <= MAX_CONNECTION_TEST /\
    (MAX_CONNECTION_TEST <=? n)%nat = negb (existsb (s_count s) (seq t (MAX_CONNECTION_TEST - t))).
Proof.
  revert t. induction fuel as [|fuel IH]; intros t Hf Ht; [lia|]. cbn [connect_loop].
  destruct (t <? MAX_CONNECTION_TEST)%nat eqn:Hlt; to_prop.
  - replace (MAX_CONNECTION_TEST - t) with (S (MAX_CONNECTION_TEST - S t)) by lia. cbn [seq existsb].
    destruct (s_count s t) eqn:Hc; cbn [orb].
    + exists t. split_and!; [done|lia|]. apply Nat.leb_gt. lia.
    + apply IH; lia.
  - exists t. replace (MAX_CONNECTION_TEST - t) with 0 by lia. split_and!; [done|lia|].
    apply Nat.leb_le. lia.
Qed.

Lemma steps_trans {T} (p q r : pool T) : steps p q -> steps q r -> steps p r.
Proof. induction 1; [done|]. intros. econstructor; eauto. Qed.

Section starting.
  Context (work : nat -> pool nat -> pool nat) (Hwork : fair_work work) (slots : nat -> slot_env).

  (** The ids in [ids] were started from [sv], [n] threads having been tried. *)
Record progress (sv sv' : service) (ids : list nat) (n : nat) : Prop := {
    pg_params : threadID <$> sv_params sv' = (threadID <$> sv_params sv) ++ ids;
    pg_committed : committed (sv_pool sv') = committed (sv_pool sv) ++ ids;
    pg_leaked : leaked sv' + length ids = leaked sv + n;
    pg_sleeps : sleeps sv' <= sleeps sv + MAX_CONNECTION_TEST * n;
    pg_steps : steps (sv_pool sv) (sv_pool sv');
    pg_run : run (sv_pool sv') = true;
    pg_lock : lock_free (sv_pool sv') = true }.

Lemma progress_trans sv sv1 sv2 ids ids' n m :
    progress sv sv1 ids n -> progress sv1 sv2 ids' m -> progress sv sv2 (ids ++ ids') (n + m).
Proof.
    intros [P C L S T R K] [P' C' L' S' T' R' K']. split; auto.
    - by rewrite P', P, app_assoc.
    - by rewrite C', C, app_assoc.
    - rewrite length_app. lia.
    - lia.
    - by eapply steps_trans.
  Qed.

Lemma progress_skip sv k : run (sv_pool sv) = true -> lock_free (sv_pool sv) = true ->
    k <= MAX_CONNECTION_TEST -> progress sv (skip_slot k sv) [] 1.
Proof.
    intros. split; cbn [skip_slot sv_params sv_pool leaked sleeps length]; rewrite ?app_nil_r; auto using steps_refl;
      lia.
  Qed.

Lemma start_slot_spec i sv :
    run (sv_pool sv) = true -> lock_free (sv_pool sv) = true ->
    match start_slot work i (slots i) sv with
    | Started sv' =>
        progress sv sv' (if slot_up (slots i) then [i] else []) 1 /\
        (slot_up (slots i) = true -> s_accept (slots i) = 0%Z)
    | Failed code sv' =>
        code = ERR_EV_NEW /\ slot_up (slots i) = true /\ s_accept (slots i) <> 0%Z /\ progress sv sv' [] 1
    | _ => False
    end.
Proof.
    intros Hr Hl. unfold start_slot.
    destruct (connect_loop_spec (slots i) 0 (S MAX_CONNECTION_TEST)) as (k & -> & Hk & Hup); [lia|lia|].
    pose proof (progress_skip sv k Hr Hl Hk) as Hskip. unfold slot_up.
    rewrite Nat.sub_0_r in Hup. rewrite Hup. destruct (existsb _ _); cbn [negb andb]; [|by split].
    destruct (s_event_base_new (slots i)); cbn [negb andb]; [|by split].
    destruct (s_evhttp_new (slots i)); cbn [negb]; [|by split].
    destruct (s_accept (slots i) =? 0)%Z eqn:Ha; cbn [negb]; to_prop; [|by split_and!].
    unfold commit. rewrite (fw_run _ Hwork), Hr. cbn [negb]. split; [|done].
    split; cbn [sv_params sv_pool leaked sleeps length committed run]; auto; try lia.
    - by rewrite fmap_app.
    - by rewrite (fw_committed _ Hwork).
    - eapply steps_trans; [apply (fw_steps _ Hwork i)|]. econstructor; [|constructor].
      eapply (step_commit i); [by apply (fw_lock _ Hwork)|]. unfold commit.
      by rewrite (fw_run _ Hwork), Hr.
    - by apply (fw_lock _ Hwork).
  Qed.

Lemma start_loop_spec n i sv :
    run (sv_pool sv) = true -> lock_free (sv_pool sv) = true ->
    match start_loop work n i slots sv with
    | Started sv' =>
        progress sv sv' (started_ids slots i n) n /\
        (forall j, i <= j < i + n -> accepted (slots j))
    | Failed code sv' =>
        code = ERR_EV_NEW /\ exists k, refused_at slots i n k /\ progress sv sv' (started_ids slots i k) (S k)
    | _ => False
    end.
Proof.
    revert i sv. induction n as [|n IH]; intros i sv Hr Hl; cbn [start_loop].
    { split; [|intros; lia]. split; rewrite ?app_nil_r; cbn [length started_ids]; auto using steps_refl; simpl; lia. }
    pose proof (start_slot_spec i sv Hr Hl) as Hs.
    destruct (start_slot work i (slots i) sv) as [sv1|code sv1| |]; [| |done..].
    - destruct Hs as [Hp Ha]. specialize (IH (S i) sv1 (pg_run _ _ _ _ Hp) (pg_lock _ _ _ _ Hp)).
      assert (forall k, started_ids slots i (S k) =
        (if slot_up (slots i) then [i] else []) ++ started_ids slots (S i) k) as Hids.
      { intros k. unfold started_ids. simpl. by destruct (slot_up (slots i)). }
      destruct (start_loop work n (S i) slots sv1) as [sv2|code sv2| |]; [| |done..].
      + destruct IH as [Hp' Ha']. split.
        * rewrite Hids. by apply (progress_trans _ _ _ _ _ 1 n Hp).
        * intros j Hj. destruct (decide (j = i)) as [->|]; [done|]. apply Ha'. lia.
      + destruct IH as (-> & k & (Hk & Hu & Hacc & Hall) & Hp'). split; [done|]. exists (S k). split.
        { unfold refused_at. rewrite <- Nat.add_succ_comm. split_and!; [lia|done|done|].
          intros j Hj. destruct (decide (j = i)) as [->|]; [exact Ha|]. apply Hall. lia. }
        rewrite Hids. by apply (progress_trans _ _ _ _ _ 1 (S k) Hp).
    - destruct Hs as (-> & Hu & Ha & Hp). split; [done|]. exists 0. split; [|done]. unfold refused_at. rewrite Nat.add_0_r.
      split_and!; [lia|done|done|]. intros j Hj. lia.
  Qed.
End starting.

(** What the service keeps of a pool of [size] threads: at any later time no more event loops
    run than the pool has threads. *)
Definition pool_promise (size : Z) (ids : list nat) (p : proxy) : Prop :=
  exists pl, mThreadPool p = Some pl /\ reachable size pl /\ committed pl = ids /\
    threadID <$> threadParams p = ids /\
    forall later, steps pl later ->
      length (taken later) <= n_done later + Nat.min 16 (Z.to_nat (u16 size)).

Lemma promise_later size (pl later : pool nat) : reachable size pl -> steps pl later ->
  length (taken later) <= n_done later + Nat.min 16 (Z.to_nat (u16 size)).
Proof. intros Hr Hs. apply pool_bound. by eapply steps_trans. Qed.

Lemma addThread_quiet {T} n (p : pool T) :
  run p = true -> lock_free p = true -> committed p = [] ->
  run (addThread n p) = true /\ lock_free (addThread n p) = true /\ committed (addThread n p) = [].
Proof.
  revert p. induction n as [|n IH]; intros p Hr Hl Hc; cbn [addThread]; [done|].
  case_test; [|done]. apply IH; [done| |done]. unfold lock_free in *. simpl.
  rewrite existsb_app. simpl. by rewrite orb_false_r.
Qed.

Lemma threadpool_quiet {T} size :
  run (threadpool (T := T) size) = true /\ lock_free (threadpool (T := T) size) = true /\
  committed (threadpool (T := T) size) = [].
Proof. by apply addThread_quiet. Qed.

Definition service_ready (p : proxy) : Prop :=
  isReady p = true /\ mThreadPool p = Some (threadpool (ThreadCount p)) /\ threadParams p = [].

Lemma wait_loop_spec fuel ready t :
  match wait_loop fuel ready t with
  | Some t' => t <= t' < t + fuel /\ ready t' = false
  | None => forall t', t <= t' < t + fuel -> ready t' = true
  end.
Proof.
  revert t. induction fuel as [|fuel IH]; intros t; cbn [wait_loop]; [intros; lia|]. destruct (ready t) eqn:Hr; [|split; [lia|done]].
  specialize (IH (S t)). destruct (wait_loop fuel ready (S t)) as [t'|].
  - destruct IH. split; [lia|done].
  - intros t' Ht'. destruct (decide (t' = t)) as [->|]; [done|]. apply IH. lia.
Qed.

Lemma startService_spec fuel work slots ready p :
  fair_work work -> service_ready p ->
  let n := Z.to_nat (ThreadCount p) in
  match startService fuel work slots ready p with
  | Returned code q =>
      (code = 0%Z /\ isReady q = false /\ (exists t, t < fuel /\ ready t = false) /\
       (forall j, j < n -> accepted (slots j)) /\ pool_promise (ThreadCount p) (started_ids slots 0 n) q) \/
      (code = ERR_EV_NEW /\ isReady q = true /\
       exists k, refused_at slots 0 n k /\ pool_promise (ThreadCount p) (started_ids slots 0 k) q)
  | Waiting q =>
      isReady q = true /\ (forall t, t < fuel -> ready t = true) /\
      (forall j, j < n -> accepted (slots j)) /\ pool_promise (ThreadCount p) (started_ids slots 0 n) q
  | Terminated => False
  end.
Proof.
  intros Hw (Hr & Hp & Ht) n. unfold startService. rewrite Hr, Hp, Ht. cbn [negb].
  destruct (threadpool_quiet (T := nat) (ThreadCount p)) as (H1 & H2 & H3).
  pose proof (start_loop_spec work Hw slots n 0 (MkService [] (threadpool (ThreadCount p)) 0 0) H1 H2) as Hs.
  assert (forall sv ids m, progress (MkService [] (threadpool (ThreadCount p)) 0 0) sv ids m ->
    forall b, pool_promise (ThreadCount p) ids (set_ready b (set_service sv p))) as Hprom.
  { intros sv ids m [P C L S T R K] b. exists (sv_pool sv). simpl in *. rewrite H3 in C.
    split_and!; auto. intros later. by apply promise_later. }
  assert (forall sv, set_service sv p = set_ready (isReady p) (set_service sv p)) as Hset by done.
  fold n. destruct (start_loop work n 0 slots _) as [sv|code sv| |]; [| |done..].
  - destruct Hs as [Hpg Hacc]. assert (forall j, j < n -> accepted (slots j)) as Hacc' by (intros j Hj; apply Hacc; lia).
    pose proof (wait_loop_spec fuel ready 0) as Hwait. destruct (wait_loop fuel ready 0) as [t|].
    + left. destruct Hwait as [Ht1 Ht2]. split_and!; [done|done|exists t; split; [lia|done]|done|by eapply Hprom].
    + split_and!; [by simpl|intros t Ht1; apply Hwait; lia|done|]. rewrite Hset. by eapply Hprom.
  - destruct Hs as (-> & k & Hk & Hpg). right. split_and!; [done|by simpl|].
    exists k. split_and!; [done|]. rewrite Hset. by eapply Hprom.
Qed.

(** C39: [startService] on an initialised proxy sets up exactly the threads for which one of
    at most 16 connection attempts succeeds and libevent's objects can be made, in order,
    one event loop committed for each.  It gives up with [ERR_EV_NEW] exactly when one of these
    threads cannot accept the socket, at the first one, keeping those before; otherwise it waits
    for [isReady] to become false and returns 0.  Whatever ThreadCount is, at no later time do
    more than min(16, ThreadCount mod 65536) event loops run. *)
Theorem startService_correct fuel work slots ready p :
  fair_work work -> service_ready p ->
  let n := Z.to_nat (ThreadCount p) in
  match startService fuel work slots ready p with
  | Returned code q =>
      (code = 0%Z /\ isReady q = false /\ (exists t, t < fuel /\ ready t = false) /\
       (forall j, j < n -> accepted (slots j)) /\ pool_promise (ThreadCount p) (started_ids slots 0 n) q) \/
      (code = ERR_EV_NEW /\ isReady q = true /\
       exists k, refused_at slots 0 n k /\ pool_promise (ThreadCount p) (started_ids slots 0 k) q)
  | Waiting q =>
      isReady q = true /\ (forall t, t < fuel -> ready t = true) /\
      (forall j, j < n -> accepted (slots j)) /\ pool_promise (ThreadCount p) (started_ids slots 0 n) q
  | Terminated => False
  end.
Proof. apply startService_spec. Qed.

(** The time [startService] can spend in [sleep] before it waits. *)
Lemma startup_sleeps work slots p :
  fair_work work -> service_ready p ->
  match start_loop work (Z.to_nat (ThreadCount p)) 0 slots (MkService [] (threadpool (ThreadCount p)) 0 0) with
  | Started sv | Failed _ sv => sleeps sv <= 16 * Z.to_nat (ThreadCount p)
  | _ => False
  end.
Proof.
  intros Hw (Hr & Hp & Ht). destruct (threadpool_quiet (T := nat) (ThreadCount p)) as (H1 & H2 & H3).
  pose proof (start_loop_spec work Hw slots (Z.to_nat (ThreadCount p)) 0
    (MkService [] (threadpool (ThreadCount p)) 0 0) H1 H2) as Hs.
  destruct (start_loop work _ 0 slots _) as [sv|code sv| |]; [| |done..].
  - destruct Hs as [Hpg _]. pose proof (pg_sleeps _ _ _ _ Hpg). unfold MAX_CONNECTION_TEST in *. simpl in *. lia.
  - destruct Hs as (_ & k & (Hk & _) & Hpg). pose proof (pg_sleeps _ _ _ _ Hpg).
    unfold MAX_CONNECTION_TEST in *. simpl in *. lia.
Qed.

(** ** [main] *)

Lemma init_not_go fuel e p q : init fuel e p <> Go q.
Proof. unfold init. case_test; [done|]. match goal with |- (?s >> _) <> _ => by destruct s end. Qed.

(** The process never reports a failure: when it ends normally its status is 0 and the
    initialisation succeeded (or only the FastDFS client failed); when [init] fails before
    the pool is made, the destructor of the static object deletes an uninitialised
    pointer. *)
Theorem main_exits fuel e work slots ready :
  fair_work work ->
  match main fuel e work slots ready with
  | Exited status freed pl =>
      status = 0%Z /\ run pl = false /\
      exists code p, init fuel e fileCacheProxy = Return code p /\ (code = SUCCESS \/ code = ERR_TRACKER)
  | Undefined =>
      exists code p, init fuel e fileCacheProxy = Return code p /\
        (code = ERR_DO_NOT_EXIST \/ code = ERR_PARAM \/ code = ERR_NETWORK)
  | Aborted => init fuel e fileCacheProxy = Crash
  | Running p => True
  end.
Proof.
  intros Hw. unfold main. destruct (init fuel e fileCacheProxy) as [p|code p| |] eqn:Hi; [|..|done|done].
  { by apply init_not_go in Hi. }
  destruct (init_ends _ _ _ _ _ fresh_proxy Hi) as [H|[H|H]].
  - destruct H as (-> & Hr & _ & _ & _ & _ & _ & _ & _ & _ & _ & _ & Hp & Ht & _). cbn [negb Z.eqb SUCCESS].
    pose proof (startService_spec fuel work slots ready p Hw ltac:(by split_and!)) as Hs.
    destruct (startService fuel work slots ready p) as [code q|q|]; [|done|done].
    assert (exists ids, pool_promise (ThreadCount p) ids q) as (ids & pl & Hpl & _).
    { destruct Hs as [(_ & _ & _ & _ & Hs)|(_ & _ & k & _ & Hs)]; eauto. }
    unfold leave, destroy. rewrite Hpl. cbn. split_and!; [done|done|eauto].
  - destruct H as (_ & _ & Hp & Hc).
    assert ((code =? 0)%Z = false) as -> by (destruct Hc as [->|[->| ->]]; done).
    cbn [negb]. unfold leave, destroy. rewrite Hp. cbn. eauto.
  - destruct H as (-> & _ & Hp). cbn [negb Z.eqb ERR_TRACKER]. unfold leave, destroy. rewrite Hp. cbn.
    split_and!; [done|done|eauto].
Qed.

(** ** Signals *)

Lemma signal_handle_some signum p p' :
  signal_handle signum p = Some p' ->
  has_logger p' = true /\ isReady p' = (isReady p && negb (terminating signum)).
Proof.
  unfold signal_handle, terminating. destruct (has_logger p) eqn:Hl; [|done]. cbn [negb].
  destruct (existsb _ _); intros [= <-]; cbn [negb]; rewrite ?andb_false_r, ?andb_true_r; by split.
Qed.

Record proc_ok (s : proc) : Prop := {
  po_logger : ph s <> PInit0 -> ph s <> PDead -> has_logger (px s) = true;
  po_late : late s = true -> ph s <> PDead -> isReady (px s) = false /\ ph s <> PInit0 /\ ph s <> PInit }.

Lemma proc_step_ok s s' : proc_step s s' -> proc_ok s -> proc_ok s'.
Proof.
  intros Hs [H1 H2]. destruct Hs as [p p' a l Hr Hl|p a l|p p' a l Hl|p a l|p a l|p a l|p a l];
    cbn in H1, H2; split; cbn; intros HA HB.
  - done.
  - destruct (H2 HA ltac:(done)) as (_ & ? & _). done.
  - by apply H1.
  - by destruct (H2 HA ltac:(done)) as (_ & _ & ?).
  - rewrite Hl. by apply H1.
  - by destruct (H2 HA ltac:(done)) as (_ & _ & ?).
  - by apply H1.
  - destruct (H2 HA ltac:(done)) as (-> & _ & _). done.
  - by apply H1.
  - by destruct (H2 HA ltac:(done)) as (-> & _ & _).
  - by apply H1.
  - by destruct (H2 HA ltac:(done)) as (-> & _ & _).
  - by apply H1.
  - by destruct (H2 HA ltac:(done)) as (-> & _ & _).
Qed.

Lemma signal_step_ok s s' : signal_step s s' -> proc_ok s -> proc_ok s'.
Proof.
  intros [h p p' a l signum Hh Hs|h p a l signum Hh Hs] [H1 H2]; cbn in H1, H2; split; cbn; intros HA HB; try done.
  - by destruct (signal_handle_some _ _ _ Hs).
  - destruct (signal_handle_some _ _ _ Hs) as [_ ->]. destruct l; cbn in HA.
    + by destruct (H2 eq_refl HB) as (-> & ? & ?).
    + apply andb_true_iff in HA as [Hv Hterm]. rewrite Hterm, andb_false_r. split_and!; [done|by intros ->..].
Qed.

Lemma proc_reach_ok s : proc_reach s -> proc_ok s.
Proof.
  induction 1 as [|s s' _ IH [Hs|Hs]]; [by split|by eapply proc_step_ok|by eapply signal_step_ok].
Qed.

(** SIGHUP, SIGINT, SIGQUIT and SIGTERM stop the service: once one was handled after
    [init], the process is never ready again and its next step in the waiting loop leaves
    it; and after the logger is made no signal kills the process. *)
Theorem signal_stops s :
  proc_reach s ->
  (late s = true -> ph s <> PDead ->
     isReady (px s) = false /\
     forall s', proc_step s s' -> late s' = true /\ isReady (px s') = false /\ (ph s = PWait -> ph s' = PExit)) /\
  (ph s <> PInit0 -> ph s <> PDead -> forall signum, is_Some (signal_handle signum (px s))).
Proof.
  intros Hr. pose proof (proc_reach_ok s Hr) as [H1 H2]. split.
  - intros Hl Hd. destruct (H2 Hl Hd) as (Hn & Hp0 & Hp1). split; [done|]. intros s' Hs.
    destruct Hs; cbn in *; try done. rewrite Hn. by split_and!.
  - intros Hp Hd signum. unfold signal_handle. rewrite (H1 Hp Hd). cbn [negb].
    case_test; by eexists.
Qed.

(** A signal handled while [init] runs is lost: the process can be waiting with the
    service ready although SIGTERM was handled; and before the logger is made the handler
    itself crashes the process. *)
Theorem signal_during_init_lost :
  (exists s, proc_reach s /\ ph s = PWait /\ asked s = true /\ isReady (px s) = true /\
     forall s', proc_step s s' -> s' = s) /\
  (exists s, proc_reach s /\ ph s = PInit0 /\
     signal_step s (MkProc PDead (px s) (asked s) (late s))).
Proof.
  split.
  - set (p0 := MkProxy false [] [] [] [] [] true [] 0 0 0 [] None None []).
    exists (MkProc PWait (set_ready true p0) true false). split_and!; try done.
    + apply (pr_step (MkProc PLoop (set_ready true p0) true false)); [|left; constructor].
      apply (pr_step (MkProc PServe (set_ready true p0) true false)); [|left; apply ps_check].
      apply (pr_step (MkProc PInit p0 true false)); [|left; by apply ps_init_ends].
      apply (pr_step (MkProc PInit p0 false false)); [|right; by apply (ss_handled PInit p0 p0 false false 15)].
      apply (pr_step (MkProc PInit0 fileCacheProxy false false)); [constructor|left; by apply ps_logger].
    + intros s' Hs. by inversion Hs; subst.
  - exists (MkProc PInit0 fileCacheProxy false false). split_and!; [constructor|done|].
    by apply (ss_killed PInit0 fileCacheProxy false false 15).
Qed.

(** When the executable is [dir]/[exe] with a path of less than 256 characters and the
    object's memory was zero, the working directory is [dir]/ and the log and record paths
    are below it; the three nested [string_format] calls neither truncate nor fail. *)
Theorem workdir_correct e p dir exe :
  e_exe e = Some (dir ++ "/"%char :: exe) -> e_junk e = replicate PATH_LEN NUL ->
  length (dir ++ "/"%char :: exe) < PATH_LEN ->
  no_char NUL dir -> no_char NUL exe -> no_char "/"%char exe ->
  exists p', init_dirs e p = Go p' /\ c_str (mWorkDir p') = dir ++ B "/" /\
    mlogDir p' = dir ++ B "//log" /\ mFclogFile p' = dir ++ B "//log/fileCacheProxy.log" /\
    mRecordDir p' = dir ++ B "//records/" /\ mProclogFile p' = dir ++ B "//records//process.log" /\
    isReady p' = isReady p /\ mThreadPool p' = mThreadPool p.
Proof. apply init_dirs_spec. Qed.

(** ** A concrete run *)

Definition demo_conf : bytes :=
  B "localhost = 127.0.0.1" ++ [LF] ++ B "port = 70000" ++ [LF] ++ B "ThreadCount=2" ++ [LF] ++
  B "clientConfPath = /etc/fdfs/client.conf" ++ [LF].

Definition demo_env : env := {|
  e_files := {[ configFileName := demo_conf; B "/etc/fdfs/client.conf" := [] ]};
  e_exe := Some (B "/opt/proxy/fileCacheProxy");
  e_junk := replicate PATH_LEN NUL;
  e_fresh := fun _ => [];
  e_logger := fun _ => true;
  e_socket := 3; e_setsockopt := 0; e_bind := fun _ _ => 0%Z; e_listen := 0;
  e_fdfs_client_init := fun _ => 0%Z |}.

Definition demo_proxy : proxy :=
  match init 10 demo_env fileCacheProxy with Return _ p => p | _ => fileCacheProxy end.

Lemma init_correct_witness : init_post demo_env 0 demo_proxy /\ port demo_proxy = 4464%Z.
Proof.
  split; [|reflexivity]. apply (init_correct 10 demo_env 0 demo_proxy). vm_compute. reflexivity.
Defined.

Definition idle_work (i : nat) (p : pool nat) : pool nat := p.

Lemma idle_fair : fair_work idle_work.
Proof. split; try done. constructor. Qed.

(** Thread 0 connects at the third attempt, thread 1 never. *)
Definition demo_slots (i : nat) : slot_env :=
  MkSlot (fun t => if (i =? 0)%nat then (t =? 2)%nat else false) true true true 0.

Lemma startService_correct_witness :
  exists q, startService 10 idle_work demo_slots (fun t => (t <? 3)%nat) demo_proxy = Returned 0 q /\
    isReady q = false /\ pool_promise 2 [0] q.
Proof.
  pose proof (startService_correct 10 idle_work demo_slots (fun t => (t <? 3)%nat) demo_proxy idle_fair) as H.
  assert (service_ready demo_proxy) as Hr by (split_and!; vm_compute; reflexivity). specialize (H Hr).
  destruct (startService 10 idle_work demo_slots (fun t => (t <? 3)%nat) demo_proxy) as [code q|q|] eqn:Hs;
    [|vm_compute in Hs; discriminate Hs|vm_compute in Hs; discriminate Hs].
  destruct H as [(Hc & H1 & _ & _ & H2)|(Hc & _)]; [|rewrite Hc in Hs; vm_compute in Hs; discriminate Hs].
  rewrite Hc. exists q. split; [reflexivity|]. split; [exact H1|exact H2].
Defined.

(** The same machine without a configuration file. *)
Definition bare_env : env :=
  MkEnv ∅ (e_exe demo_env) (e_junk demo_env) (e_fresh demo_env) (e_logger demo_env)
    3 0 (fun _ _ => 0%Z) 0 (fun _ => 0%Z).

Lemma bare_main : main 10 bare_env idle_work demo_slots (fun _ => true) = Undefined.
Proof. vm_compute. reflexivity. Qed.

Lemma main_exits_witness :
  exists code p, init 10 bare_env fileCacheProxy = Return code p /\
    (code = ERR_DO_NOT_EXIST \/ code = ERR_PARAM \/ code = ERR_NETWORK).
Proof.
  pose proof (main_exits 10 bare_env idle_work demo_slots (fun _ => true) idle_fair) as H.
  rewrite bare_main in H. exact H.
Defined.

Definition logging_proxy : proxy := MkProxy false [] [] [] [] [] true [] 0 0 0 [] None None [].
Definition demo_stopping : proc := MkProc PServe logging_proxy true true.

Lemma demo_stopping_reach : proc_reach demo_stopping.
Proof.
  set (p0 := logging_proxy).
  apply (pr_step (MkProc PServe (set_ready true p0) false false)).
  - apply (pr_step (MkProc PInit p0 false false)); [|left; by apply ps_init_ends].
    apply (pr_step (MkProc PInit0 fileCacheProxy false false)); [constructor|left; by apply ps_logger].
  - right. by apply (ss_handled PServe (set_ready true p0) p0 false false 15).
Qed.

Lemma signal_stops_witness : isReady (px demo_stopping) = false.
Proof.
  destruct (proj1 (signal_stops demo_stopping demo_stopping_reach)) as [H _]; [reflexivity|discriminate|exact H].
Defined.

Lemma workdir_correct_witness :
  exists p', init_dirs demo_env fileCacheProxy = Go p' /\ c_str (mWorkDir p') = B "/opt/proxy" ++ B "/" /\
    mlogDir p' = B "/opt/proxy" ++ B "//log".
Proof.
  destruct (workdir_correct demo_env fileCacheProxy (B "/opt/proxy") (B "fileCacheProxy")) as (p' & H1 & H2 & H3 & _);
    [reflexivity|reflexivity|vm_compute; lia|by repeat constructor..|].
  exists p'. by split_and!.
Defined.
