(* ===== verification/ExpireCleaner.v ===== *)
(** * The deletion tool: [src/expireCleaner.cpp]

    Reads file ids from a list with [fgets] and asks the storage service to delete each. *)
From S2P Require Import Prelude CLib ConfigReader Handlers.

Definition ID_LEN : nat := 128.

Section cleaner.
  Context `{Service}.

  (** What the other calls of [main] answer; [c_errno] is [errno] after a failed
      [tracker_get_connection], and [ECONNREFUSED] the constant of the platform. *)
Record clean_env := CleanEnv {
    c_files : files; c_fdfs_client_init : bytes -> Z; c_tracker : option Conn; c_errno : Z;
    c_ECONNREFUSED : Z }.

  (** The [while] loop: the last result, the world, and the ids with their results in the order
      of the calls. [None]: the fuel ran out. *)
Fixpoint delete_loop (fuel : nat) (pTrackerServer : Conn) (fp : bytes) (result : Z) (w : World)
      (log : list (bytes * Z)) : option (Z * World * list (bytes * Z)) :=
    match fuel with
    | 0 => None
    | S fuel =>
        match fgets ID_LEN fp with
        | None => Some (result, w, log)
        | Some (file_id, fp) =>
            let '(result, w) := storage_delete_file1 pTrackerServer (c_str file_id) w in
            delete_loop fuel pTrackerServer fp result w (log ++ [(c_str file_id, result)])
        end
    end.

  (** How the tool ends: its status, the calls made, and whether the tracker connection and
      the FastDFS client were released. *)
Inductive clean_end :=
  | CleanExit (status : Z) (w : World) (log : list (bytes * Z)) (released : bool)
  | CleanNoFuel.

Definition clean_main (fuel : nat) (e : clean_env) (argv : list bytes) (w : World) : clean_end :=
    match argv with
    | _ :: conf :: list :: _ =>
        match Load fuel (c_files e) (MkConfig (c_str conf) ∅) with
        | None => CleanNoFuel
        | Some (code, conf) =>
            if negb (code =? 0)%Z then CleanExit 0 w [] true
            else
              let conf_filename := getValue conf (B "clientConfPath") in
              let result := c_fdfs_client_init e (c_str conf_filename) in
              if negb (result =? 0)%Z then CleanExit result w [] true
              else
                match c_tracker e with
                | None => CleanExit (if negb (c_errno e =? 0)%Z then c_errno e else c_ECONNREFUSED e) w [] true
                | Some pTrackerServer =>
                    match c_files e !! c_str list with
                    | None => CleanExit 0 w [] false
                    | Some fp =>
                        match delete_loop fuel pTrackerServer fp result w [] with
                        | Some (result, w, log) => CleanExit result w log true
                        | None => CleanNoFuel
                        end
                    end
                end
        end
    | _ => CleanExit 1 w [] true
    end.

  (** ** The ids the loop reads *)

  (** The pieces [fgets] cuts a text into. *)
Definition fgets_piece (s : bytes) : bytes * bytes := fgets_go (ID_LEN - 1) s.

Definition piece_ok (p : bytes) : Prop :=
    0 < length p < ID_LEN /\
    forall l c r, p = l ++ c :: r -> c = LF -> r = [].

Lemma fgets_go_piece room s :
    let '(got, rem) := fgets_go room s in
    (forall l c r, got = l ++ c :: r -> c = LF -> r = []) /\
    (rem <> [] -> length got = room \/ last got = Some LF).
Proof.
    revert s. induction room as [|room IH]; intros [|c s]; cbn [fgets_go].
    - split; [by intros [|]|done].
    - split; [by intros [|]|by left].
    - split; [by intros [|]|done].
    - destruct (c =c LF) eqn:Hc; to_prop.
      + subst c. split; [|by right]. intros [|x [|]] d r [= -> ?]; done.
      + specialize (IH s). destruct (fgets_go room s) as [got rem]. destruct IH as [IH1 IH2]. split.
        * intros [|x l] d r Heq Hd; injection Heq as <- Heq; [done|]. by eapply IH1.
        * intros Hrem. destruct (IH2 Hrem) as [<-|Hl]; [by left|right].
          destruct got; [done|]. exact Hl.
  Qed.

Lemma fgets_split s p rest : fgets ID_LEN s = Some (p, rest) -> s = p ++ rest /\ piece_ok p.
Proof.
    unfold fgets. destruct s as [|c s]; [done|]. intros Hf. apply (inj Some) in Hf.
    pose proof (fgets_go_app (ID_LEN - 1) (c :: s)) as Ha.
    pose proof (fgets_go_length (ID_LEN - 1) (c :: s)) as Hl.
    pose proof (fgets_go_piece (ID_LEN - 1) (c :: s)) as Hp.
    rewrite Hf in Ha, Hl, Hp. split; [done|]. destruct Hp as [Hp _]. split; [|done].
    cbn [fst] in Hl. assert (p <> []); [|destruct p as [|d p]; [done|unfold ID_LEN in *; cbn [length] in *; lia]].
    intros ->. apply (f_equal fst) in Hf.
    assert (forall n, fst (fgets_go (S n) (c :: s)) <> []) as Hne; [|by apply (Hne 126) in Hf].
    intros n. cbn [fgets_go]. destruct (c =c LF); [done|]. by destruct (fgets_go n s).
  Qed.

Lemma last_default {A} (x : A) l d d' : List.last (x :: l) d = List.last (x :: l) d'.
Proof. revert x. induction l as [|y l IH]; intros x; [done|]. apply (IH y). Qed.

  (** The log of the loop: every piece of the text, in order, was passed to
      [storage_delete_file1] once, and the result is the last one. *)
Lemma delete_loop_spec fuel conn fp result w log :
    length fp < fuel ->
    exists w' pieces results,
      delete_loop fuel conn fp result w log =
        Some (List.last results result, w', log ++ zip (c_str <$> pieces) results) /\
      length results = length pieces /\ concat pieces = fp /\ Forall piece_ok pieces.
Proof.
    revert fp result w log. induction fuel as [|fuel IH]; intros fp result w log Hf; [lia|].
    cbn [delete_loop]. destruct (fgets ID_LEN fp) as [[p rest]|] eqn:Hg.
    - destruct (fgets_split _ _ _ Hg) as [-> Hp]. destruct (storage_delete_file1 conn (c_str p) w) as [r w1].
      destruct (IH rest r w1 (log ++ [(c_str p, r)])) as (w' & ps & rs & -> & Hlen & Hc & Hall).
      { rewrite length_app in Hf. destruct Hp. lia. }
      exists w', (p :: ps), (r :: rs). split_and!; [|simpl; lia|simpl; by rewrite Hc|by constructor].
      rewrite <- app_assoc. f_equal. f_equal. f_equal. destruct rs as [|r' rs]; [done|]. exact (last_default r' rs r result).
    - unfold fgets in Hg. destruct fp; [|done]. exists w, [], []. rewrite app_nil_r. by split_and!.
  Qed.

Lemma fgets_line l r :
    Forall (fun c => (c =c LF) = false) l -> length l < ID_LEN - 1 ->
    fgets ID_LEN (l ++ LF :: r) = Some (l ++ [LF], r).
Proof.
    intros Hl Hlen. assert (forall room, length l < room -> fgets_go room (l ++ LF :: r) = (l ++ [LF], r)) as Hg.
    { clear Hlen. induction Hl as [|c l Hc _ IH]; intros [|room] Hr; simpl in Hr; try lia; cbn [app fgets_go].
      - done.
      - by rewrite Hc, IH by lia. }
    unfold fgets. rewrite Hg by done. by destruct l.
  Qed.

  (** What the loop makes of a list with one id per line. *)
Fixpoint delete_each (conn : Conn) (ids : list bytes) (w : World) : World * list (bytes * Z) :=
    match ids with
    | [] => (w, [])
    | id :: ids =>
        let '(r, w) := storage_delete_file1 conn id w in
        let '(w, log) := delete_each conn ids w in (w, (id, r) :: log)
    end.

Definition id_line (l : bytes) : Prop :=
    Forall (fun c => (c =c LF) = false /\ (c =c NUL) = false) l /\ length l < ID_LEN - 1.

Lemma delete_loop_lines fuel conn lines result w log :
    Forall id_line lines -> length lines < fuel ->
    let '(w', calls) := delete_each conn ((fun l => l ++ [LF]) <$> lines) w in
    delete_loop fuel conn (concat ((fun l => l ++ [LF]) <$> lines)) result w log =
      Some (List.last (snd <$> calls) result, w', log ++ calls).
Proof.
    intros Hl. revert fuel result w log. induction Hl as [|l lines [Hl Hlen] _ IH]; intros fuel result w log Hf.
    - destruct fuel; [simpl in Hf; lia|]. simpl. by rewrite app_nil_r.
    - destruct fuel as [|fuel]; [simpl in Hf; lia|]. cbn [fmap list_fmap delete_each concat delete_loop].
      rewrite <- app_assoc. cbn [app]. rewrite fgets_line;
        [|eapply Forall_impl; [exact Hl|by intros c [Hc _]]|done].
      assert (c_str (l ++ [LF]) = l ++ [LF]) as ->.
      { apply c_str_id, Forall_app. split; [|by constructor]. eapply Forall_impl; [exact Hl|by intros c [_ Hc]]. }
      destruct (storage_delete_file1 conn (l ++ [LF]) w) as [r w1].
      specialize (IH fuel r w1 (log ++ [(l ++ [LF], r)]) ltac:(simpl in Hf; lia)).
      destruct (delete_each conn ((fun l => l ++ [LF]) <$> lines) w1) as [w2 calls].
      cbn [fmap list_fmap] in IH. rewrite IH, <- app_assoc. f_equal. f_equal. f_equal.
      destruct calls as [|[id' r'] calls]; [done|]. exact (last_default r' (List.map snd calls) r result).
  Qed.

  (** The situation in which the tool reaches its loop. *)
Definition list_opened (fuel : nat) (e : clean_env) (conf list text : bytes) (conn : Conn) : Prop :=
    (exists c, Load fuel (c_files e) (MkConfig (c_str conf) ∅) = Some (0%Z, c) /\
       c_fdfs_client_init e (c_str (getValue c (B "clientConfPath"))) = 0%Z) /\
    c_tracker e = Some conn /\ c_files e !! c_str list = Some text.

Lemma clean_main_loop fuel e prog conf list text conn w :
    list_opened fuel e conf list text conn ->
    clean_main fuel e [prog; conf; list] w =
      match delete_loop fuel conn text 0 w [] with
      | Some (result, w, log) => CleanExit result w log true
      | None => CleanNoFuel
      end.
Proof.
    intros ((c & Hl & Hi) & Ht & Hf). unfold clean_main. rewrite Hl. cbn [negb Z.eqb].
    rewrite Hi. cbn [negb Z.eqb]. by rewrite Ht, Hf.
  Qed.
End cleaner.

(** C40: once the list is open the tool ends (after at most one round per character), having
    passed every piece of the list to [storage_delete_file1] exactly once and in order,
    where the pieces make up the list, have 1 to 127 characters and hold a newline only at
    their end; its status is the result of the last deletion only, 0 for an empty list. *)
Theorem clean_main_correct `{Service} fuel e prog conf list text conn w :
  list_opened fuel e conf list text conn -> length text < fuel ->
  exists w' pieces results,
    clean_main fuel e [prog; conf; list] w =
      CleanExit (List.last results 0%Z) w' (zip (c_str <$> pieces) results) true /\
    length results = length pieces /\ concat pieces = text /\ Forall piece_ok pieces.
Proof.
  intros Ho Hf. rewrite (clean_main_loop _ _ _ _ _ _ _ _ Ho).
  destruct (delete_loop_spec fuel conn text 0 w [] Hf) as (w' & ps & rs & -> & H1 & H2 & H3).
  by exists w', ps, rs.
Qed.

(** For a list with one id per line (ids of at most 126 characters) the ids the service
    is asked to delete are the lines with their newline still attached: the tool does
    exactly what deleting [id ++ newline] for each [id] does. *)
Theorem clean_main_keeps_newlines `{Service} fuel e prog conf list lines conn w :
  list_opened fuel e conf list (concat ((fun l => l ++ [LF]) <$> lines)) conn ->
  Forall id_line lines -> length lines < fuel ->
  let '(w', calls) := delete_each conn ((fun l => l ++ [LF]) <$> lines) w in
  clean_main fuel e [prog; conf; list] w = CleanExit (List.last (snd <$> calls) 0%Z) w' calls true.
Proof.
  intros Ho Hl Hf. rewrite (clean_main_loop _ _ _ _ _ _ _ _ Ho).
  pose proof (delete_loop_lines fuel conn lines 0 w [] Hl Hf) as Hd.
  destruct (delete_each conn _ w) as [w' calls]. by rewrite Hd.
Qed.

(** ** A concrete run on the service of [Handlers]: the file is not deleted *)

Definition demo_clean_env : clean_env (H := shelf) :=
  @CleanEnv shelf {[ B "proxy.conf" := B "clientConfPath=/etc/fdfs/client.conf" ++ [LF];
                     B "ids" := shelf_id ++ [LF] ]}
    (fun _ => 0%Z) (Some tt) 0 111.

Definition demo_shelved : @World shelf := Some (B "x").

Lemma demo_list_opened :
  @list_opened shelf 100 demo_clean_env (B "proxy.conf") (B "ids") (shelf_id ++ [LF]) tt.
Proof. split; [|by split]. eexists. split; vm_compute; reflexivity. Qed.

Lemma clean_main_correct_witness :
  exists w' pieces results,
    @clean_main shelf 100 demo_clean_env [B "expireCleaner"; B "proxy.conf"; B "ids"] demo_shelved =
      CleanExit (List.last results 0%Z) w' (zip (c_str <$> pieces) results) true /\
    length results = length pieces /\ concat pieces = shelf_id ++ [LF] /\ Forall piece_ok pieces.
Proof.
  apply (@clean_main_correct shelf 100 demo_clean_env (B "expireCleaner") (B "proxy.conf") (B "ids")
    (shelf_id ++ [LF]) tt demo_shelved demo_list_opened).
  vm_compute. lia.
Defined.

Lemma clean_main_keeps_newlines_witness :
  @clean_main shelf 100 demo_clean_env [B "expireCleaner"; B "proxy.conf"; B "ids"] demo_shelved =
    CleanExit 2 demo_shelved [(shelf_id ++ [LF], 2%Z)] true.
Proof.
  apply (@clean_main_keeps_newlines shelf 100 demo_clean_env (B "expireCleaner") (B "proxy.conf") (B "ids")
    [shelf_id] tt demo_shelved).
  - exact demo_list_opened.
  - constructor; [|constructor]. split; [by repeat constructor|vm_compute; lia].
  - simpl. lia.
Defined.
