(* ===== verification/Fmt.v ===== *)
(** * Integer formatting: [spdlog/fmt/bundled/format.h], [spdlog/details/fmt_helper.h], [spdlog/common.h]

    What the log patterns are printed with: digit counting by a table on the highest set bit,
    [format_int], the padding helpers, and the level names.  A buffer ([memory_buf_t]) is the
    list of its characters. *)
From S2P Require Import Prelude CLib Json.

(** ** Digit counting *)

(** [bsr2log10]. *)
Definition bsr2log10_data : list Z :=
  [1; 1; 1; 2; 2; 2; 3; 3; 3; 4; 4; 4; 4; 5; 5; 5; 6; 6; 6; 7; 7; 7; 7; 8; 8; 8; 9; 9; 9; 10; 10; 10;
   10; 11; 11; 11; 12; 12; 12; 13; 13; 13; 13; 14; 14; 14; 15; 15; 15; 16; 16; 16; 16; 17; 17; 17;
   18; 18; 18; 19; 19; 19; 19; 20]%Z.

Definition bsr2log10 (bsr : Z) : Z := nth (Z.to_nat bsr) bsr2log10_data 0%Z.

(** [zero_or_powers_of_10_64_new]. *)
Definition zero_or_powers_of_10_64_new : list Z :=
  [0; 0; 10; 100; 1000; 10000; 100000; 1000000; 10000000; 100000000; 1000000000; 10000000000;
   100000000000; 1000000000000; 10000000000000; 100000000000000; 1000000000000000;
   10000000000000000; 100000000000000000; 1000000000000000000; 10000000000000000000]%Z.

(** [count_digits] for a [uint64_t]: [__builtin_clzll(n | 1) ^ 63] is the index of the highest
    set bit. *)
Definition count_digits (n : Z) : Z :=
  let t := bsr2log10 (Z.log2 (Z.lor n 1)) in
  (t - Z.b2z (n <? nth (Z.to_nat t) zero_or_powers_of_10_64_new 0))%Z.

(** [count_digits] for a [uint32_t], with the table of 32-bit powers. *)
Definition zero_or_powers_of_10_32_new : list Z :=
  [0; 0; 10; 100; 1000; 10000; 100000; 1000000; 10000000; 100000000; 1000000000]%Z.

Definition count_digits32 (n : Z) : Z :=
  let t := bsr2log10 (Z.log2 (Z.lor n 1)) in
  (t - Z.b2z (n <? nth (Z.to_nat t) zero_or_powers_of_10_32_new 0))%Z.

(** ** [format_decimal] and [format_int] *)

(** [copy2(out, digits[i])]. *)
Definition copy2 (i : Z) (buf : bytes) (out : nat) : bytes :=
  let '(d1, d0) := digits_to_99 i in <[S out := d0]> (<[out := d1]> buf).

(** The state is the buffer and the index of [out]. *)
Fixpoint format_decimal_loop (fuel : nat) (value : Z) (buf : bytes) (out : nat) : option (Z * bytes * nat) :=
  match fuel with
  | 0 => None
  | S fuel =>
      if (100 <=? value)%Z then
        format_decimal_loop fuel (value / 100) (copy2 (value `mod` 100) buf (out - 2)) (out - 2)
      else Some (value, buf, out)
  end.

(** [format_decimal(buf, value, size)]: the buffer and the index where the digits begin; eleven
    rounds are enough for 64 bits. *)
Definition format_decimal (buf : bytes) (value : Z) (size : nat) : option (bytes * nat) :=
  '(value, buf, out) ← format_decimal_loop 11 value buf size;
  Some (if (value <? 10)%Z then (<[out - 1 := digit_chr value]> buf, out - 1)
        else (copy2 value buf (out - 2), out - 2)).

(** [digits10 + 3] for 64 bits. *)
Definition buffer_size : nat := 22.

(** [data()] and [size()] of a [format_int] on an unsigned value of [w] bits. *)
Definition format_unsigned (junk : bytes) (value : Z) : option bytes :=
  '(buf, begin) ← format_decimal (take buffer_size junk) value (buffer_size - 1);
  Some (take (buffer_size - 1 - begin) (drop begin buf)).

(** On a signed value: its absolute value as unsigned of [w] bits, then the sign. *)
Definition format_signed (w : Z) (junk : bytes) (value : Z) : option bytes :=
  let abs_value := wrapu w value in
  let negative := (value <? 0)%Z in
  let abs_value := if negative then wrapu w (0 - abs_value) else abs_value in
  '(buf, begin) ← format_decimal (take buffer_size junk) abs_value (buffer_size - 1);
  let '(buf, begin) := if negative then (<[begin - 1 := "-"%char]> buf, begin - 1) else (buf, begin) in
  Some (take (buffer_size - 1 - begin) (drop begin buf)).

(** ** [fmt_helper] *)

Definition append_string_view (view dest : bytes) : bytes := dest ++ view.

(** [append_int] of an unsigned 32- or 64-bit value, and of an [int] (or another signed type). *)
Definition append_uint (n : Z) (dest : bytes) : bytes :=
  dest ++ default [] (format_unsigned (replicate buffer_size NUL) n).
Definition append_int (w n : Z) (dest : bytes) : bytes :=
  dest ++ default [] (format_signed w (replicate buffer_size NUL) n).

(** [fmt::format_to(dest, "{:02}", n)]: sign, then zeros up to a width of two. *)
Definition format_02 (n : Z) : bytes :=
  if (n <? 0)%Z then "-"%char :: zpad 1 (- n) else zpad 2 n.

Definition pad2 (n : Z) (dest : bytes) : bytes :=
  if (0 <=? n)%Z && (n <? 100)%Z then dest ++ [digit_chr (n / 10); digit_chr (n `mod` 10)]
  else dest ++ format_02 n.

Fixpoint push_zeros (fuel : nat) (digits width : Z) (dest : bytes) : bytes :=
  match fuel with
  | 0 => dest
  | S fuel => if (digits <? width)%Z then push_zeros fuel (digits + 1) width (dest ++ ["0"%char]) else dest
  end.

Definition pad_uint (n width : Z) (dest : bytes) : bytes :=
  append_uint n (push_zeros (Z.to_nat width) (count_digits n) width dest).

Definition pad3 (n : Z) (dest : bytes) : bytes :=
  if (n <? 1000)%Z then
    let dest := dest ++ [digit_chr (n / 100)] in
    let n := (n `mod` 100)%Z in
    dest ++ [digit_chr (n / 10)] ++ [digit_chr (n `mod` 10)]
  else append_uint n dest.

Definition pad6 (n : Z) (dest : bytes) : bytes := pad_uint n 6 dest.
Definition pad9 (n : Z) (dest : bytes) : bytes := pad_uint n 9 dest.

(** [time_fraction]: times count nanoseconds since the epoch; [duration_cast] truncates
    towards zero; [unit] is the length of the wanted unit in nanoseconds. *)
Definition duration_cast (unit ns : Z) : Z := Z.quot ns unit.
Definition NS_PER_SEC : Z := 1000000000.
Definition seconds_of (ns : Z) : Z := duration_cast NS_PER_SEC ns.
Definition time_fraction (unit ns : Z) : Z :=
  (duration_cast unit ns - duration_cast unit (seconds_of ns * NS_PER_SEC))%Z.

(** ** Levels *)

Inductive level_enum := trace | debug | info | warn | err | critical | off.

#[global] Instance level_eq_dec : EqDecision level_enum.
Proof. solve_decision. Defined.

Definition level_num (l : level_enum) : Z :=
  match l with trace => 0 | debug => 1 | info => 2 | warn => 3 | err => 4 | critical => 5 | off => 6 end.

(** [static_cast<level_enum>(n)] for an enumerator's value. *)
Definition level_of_num (n : nat) : level_enum :=
  nth n [trace; debug; info; warn; err; critical; off] off.

Definition level_string_views : list bytes :=
  [B "trace"; B "debug"; B "info"; B "warning"; B "error"; B "critical"; B "off"].
Definition short_level_names : list bytes := [B "T"; B "D"; B "I"; B "W"; B "E"; B "C"; B "O"].

Definition to_string_view (l : level_enum) : bytes := nth (Z.to_nat (level_num l)) level_string_views [].
Definition to_short_c_str (l : level_enum) : bytes := nth (Z.to_nat (level_num l)) short_level_names [].

(** The loop of [from_str] over the names, counting. *)
Fixpoint from_str_loop (views : list bytes) (level : nat) (name : bytes) : option level_enum :=
  match views with
  | [] => None
  | v :: views => if v =s name then Some (level_of_num level) else from_str_loop views (S level) name
  end.

Definition from_str (name : bytes) : level_enum :=
  match from_str_loop level_string_views 0 name with
  | Some l => l
  | None => if name =s B "warn" then warn else if name =s B "err" then err else off
  end.

(** ** Digit counting is right *)

(** For a value whose highest bit is [k], the table's guess is right or one too large. *)
Definition bsr_ok (k : nat) : bool :=
  let t := bsr2log10 (Z.of_nat k) in
  ((1 <=? t) && ((t =? 1) || (10 ^ (t - 2) <=? 2 ^ Z.of_nat k)) && (2 ^ (Z.of_nat k + 1) <=? 10 ^ t) &&
   (nth (Z.to_nat t) zero_or_powers_of_10_64_new 0 =? (if t =? 1 then 0 else 10 ^ (t - 1))))%Z.

Lemma bsr_table : forallb bsr_ok (seq 0 64) = true.
Proof. vm_compute. reflexivity. Qed.

Lemma lor_one_log2 n : (0 <= n)%Z -> Z.log2 (Z.lor n 1) = Z.log2 n.
Proof.
  intros Hn. destruct (Z.eq_dec n 0) as [->|]; [done|].
  rewrite Z.log2_lor by lia. change (Z.log2 1) with 0%Z.
  pose proof (Z.log2_nonneg n). lia.
Qed.

Lemma count_digits_length n :
  (0 <= n < 2 ^ 64)%Z -> count_digits n = Z.of_nat (length (dec_nat n)).
Proof.
  intros Hn. unfold count_digits. rewrite lor_one_log2 by lia.
  set (k := Z.to_nat (Z.log2 n)).
  assert (Z.of_nat k = Z.log2 n) as Hk by (unfold k; rewrite Z2Nat.id; [done|apply Z.log2_nonneg]).
  assert (k < 64).
  { unfold k. destruct (Z.eq_dec n 0) as [->|]; [simpl; lia|].
    assert (Z.log2 n < 64)%Z by (apply Z.log2_lt_pow2; lia). lia. }
  pose proof bsr_table as Ht. rewrite forallb_Forall, Forall_forall in Ht.
  specialize (Ht k ltac:(apply elem_of_seq; lia)). unfold bsr_ok in Ht. rewrite <- Hk.
  set (t := bsr2log10 (Z.of_nat k)) in *. to_prop.
  match goal with H : nth _ zero_or_powers_of_10_64_new 0%Z = _ |- _ => rewrite H end.
  assert (forall m, (0 < m)%nat -> (length (dec_nat n) <= m)%nat <-> (n < 10 ^ Z.of_nat m)%Z) as Hb.
  { intros m Hm. apply dec_nat_length_bounds; [done|lia]. }
  assert (n < 2 ^ (Z.of_nat k + 1))%Z.
  { rewrite Hk. destruct (Z.eq_dec n 0) as [->|]; [done|].
    rewrite Z.add_1_r. apply Z.log2_spec. lia. }
  assert (n = 0 \/ 2 ^ Z.of_nat k <= n)%Z as Hlow.
  { rewrite Hk. destruct (Z.eq_dec n 0); [by left|right]. apply Z.log2_spec; lia. }
  pose proof (Hb (Z.to_nat t) ltac:(lia)) as Hup. rewrite Z2Nat.id in Hup by lia.
  assert (0 < length (dec_nat n))%nat.
  { pose proof (dec_nat_nonnil n). destruct (dec_nat n); [done|simpl; lia]. }
  destruct (t =? 1)%Z eqn:Ht1; to_prop.
  - rewrite (proj2 (Z.ltb_ge n 0)) by lia. simpl. lia.
  - pose proof (Hb (Z.to_nat (t - 1)) ltac:(lia)) as Hup1. rewrite Z2Nat.id in Hup1 by lia.
    assert (10 ^ (t - 2) <= 2 ^ Z.of_nat k)%Z as Hp.
    { match goal with H : _ \/ (10 ^ (t - 2) <=? _)%Z = true |- _ => destruct H; to_prop; [lia|done] end. }
    assert (2 ^ Z.of_nat k <= n)%Z as Hge.
    { destruct Hlow as [->|?]; [|done]. exfalso. apply Ht1. unfold t. rewrite Hk. reflexivity. }
    assert (t - 2 < Z.of_nat (length (dec_nat n)))%Z.
    { destruct (Z_lt_le_dec 0 (t - 2)) as [Hpos|]; [|lia].
      pose proof (Hb (Z.to_nat (t - 2)) ltac:(lia)) as Hlo. rewrite Z2Nat.id in Hlo by lia. lia. }
    destruct (n <? 10 ^ (t - 1))%Z eqn:Hlt; to_prop; cbn [Z.b2z]; lia.
Qed.

(** ** Printing integers is right *)

Lemma copy2_push i buf out :
  2 <= out -> copy2 i buf (out - 2) = fst (push_front (fst (digits_to_99 i)) (push_front (snd (digits_to_99 i)) (buf, out))).
Proof.
  intros Ho. unfold copy2, push_front. destruct (digits_to_99 i) as [d1 d0]. cbn [fst snd].
  replace (S (out - 2)) with (out - 1) by lia. replace (out - 1 - 1) with (out - 2) by lia.
  rewrite list_insert_insert_ne by lia. done.
Qed.

Lemma region_pos pre k suf buf out : region pre k suf (buf, out) -> out = length pre + k.
Proof. by intros (junk & _ & [= _ ->]). Qed.

Lemma format_decimal_loop_pairs fuel v buf out pre suf :
  (0 <= v)%Z -> region pre (length (dec_nat v)) suf (buf, out) ->
  format_decimal_loop fuel v buf out = '(v, (buf, out)) ← dump_pairs fuel v (buf, out); Some (v, buf, out).
Proof.
  revert v buf out suf. induction fuel as [|fuel IH]; intros v buf out suf Hv Hr; [done|].
  cbn [format_decimal_loop dump_pairs]. destruct (100 <=? v)%Z eqn:Hge; [|done]. to_prop.
  pose proof (region_pos _ _ _ _ _ Hr) as Ho.
  rewrite dec_nat_step2, length_app in Hr, Ho by lia. cbn [length] in Hr, Ho.
  rewrite copy2_push by lia. unfold digits_to_99 in *. cbn [fst snd].
  rewrite Nat.add_comm in Hr. apply (push_front_region (digit_chr (v `mod` 100 `mod` 10))) in Hr.
  apply (push_front_region (digit_chr (v `mod` 100 / 10))) in Hr.
  unfold push_front in Hr |- *. cbn [fst].
  replace (out - 1 - 1) with (out - 2) in * by lia. eapply IH; [apply Z.div_pos; lia|exact Hr].
Qed.

Lemma format_decimal_spec pre suf v buf :
  (0 <= v < 2 ^ 64)%Z -> region pre (length (dec_nat v)) suf (buf, length pre + length (dec_nat v)) ->
  format_decimal buf v (length pre + length (dec_nat v)) = Some (pre ++ dec_nat v ++ suf, length pre).
Proof.
  intros Hv Hr. unfold format_decimal.
  rewrite (format_decimal_loop_pairs _ _ _ _ _ _ (proj1 Hv) Hr).
  destruct (dump_pairs_spec 11 v _ _ _ ltac:(lia) ltac:(split; [lia|
    apply (Z.lt_trans _ (2 ^ 64)); [lia|done]]) Hr) as (w & [buf' out'] & suf' & -> & Hw & Hr' & Happ).
  cbn [mbind option_bind]. f_equal. rewrite <- Happ, <- (push_last pre w suf' _ Hw Hr').
  pose proof (region_pos _ _ _ _ _ Hr') as Ho.
  destruct (w <? 10)%Z eqn:Hlt; to_prop.
  - by rewrite (proj2 (Z.leb_gt 10 w)) by lia.
  - rewrite (proj2 (Z.leb_le 10 w)) by lia. rewrite dec_nat_two in Ho by lia. cbn [length] in Ho.
    rewrite copy2_push by lia. unfold digits_to_99, push_front. cbn [fst snd]. f_equal. lia.
Qed.

Lemma format_unsigned_spec junk v :
  (0 <= v < 2 ^ 64)%Z -> length junk = buffer_size -> format_unsigned junk v = Some (dec_nat v).
Proof.
  intros Hv Hj. unfold format_unsigned. rewrite take_ge by lia.
  assert (length (dec_nat v) <= 20) as Hl.
  { apply dec_nat_length_bounds; [lia|lia|]. apply (Z.lt_trans _ (2 ^ 64)); [lia|done]. }
  set (n := buffer_size - 1 - length (dec_nat v)).
  assert (length (take n junk) = n) as Hpre by (rewrite length_take; unfold n, buffer_size in *; lia).
  replace (buffer_size - 1) with (length (take n junk) + length (dec_nat v))
    by (unfold n, buffer_size in *; lia).
  rewrite (format_decimal_spec (take n junk) (drop (length (take n junk) + length (dec_nat v)) junk)).
  - cbn [mbind option_bind]. rewrite drop_app_length. f_equal. apply take_app_length'. lia.
  - done.
  - apply region_start; [unfold n, buffer_size in *; lia|]. by rewrite Hpre.
Qed.

Lemma format_signed_spec w junk v :
  (0 < w <= 64)%Z -> (- 2 ^ (w - 1) <= v < 2 ^ (w - 1))%Z -> length junk = buffer_size ->
  format_signed w junk v = Some (dec v).
Proof.
  intros Hw Hv Hj. unfold format_signed. rewrite take_ge by lia.
  assert (2 ^ w = 2 * 2 ^ (w - 1))%Z as Hpow by (rewrite <- Z.pow_succ_r by lia; f_equal; lia).
  assert (0 < 2 ^ (w - 1))%Z by (apply Z.pow_pos_nonneg; lia).
  assert (2 ^ (w - 1) <= 2 ^ 63)%Z by (apply Z.pow_le_mono_r; lia).
  set (a := Z.abs v).
  assert ((if (v <? 0)%Z then wrapu w (0 - wrapu w v) else wrapu w v) = a) as ->.
  { unfold a, wrapu. destruct (v <? 0)%Z eqn:Hneg; to_prop.
    - rewrite Zminus_mod_idemp_r. rewrite Z.mod_small by lia. lia.
    - rewrite Z.mod_small by lia. lia. }
  assert (length (dec_nat a) <= 19) as Hl.
  { apply dec_nat_length_bounds; [lia|lia|]. apply (Z.le_lt_trans _ (2 ^ 63)); [lia|done]. }
  set (n := buffer_size - 1 - length (dec_nat a)).
  assert (length (take n junk) = n) as Hpre by (rewrite length_take; unfold n, buffer_size in *; lia).
  replace (buffer_size - 1) with (length (take n junk) + length (dec_nat a))
    by (unfold n, buffer_size in *; lia).
  rewrite (format_decimal_spec (take n junk) (drop (length (take n junk) + length (dec_nat a)) junk));
    [|lia|apply region_start; [unfold n, buffer_size in *; lia|by rewrite Hpre]].
  assert (0 < n) as Hpos by (unfold n, buffer_size; lia). clearbody n.
  cbn [mbind option_bind]. unfold dec. unfold a in *. destruct (v <? 0)%Z eqn:Hneg; to_prop.
  - rewrite Z.abs_neq in * by lia.
    assert (exists q d, take n junk = q ++ [d]) as (q & d & Hq).
    { destruct (take n junk) as [|x l] using rev_ind; [simpl in Hpre; lia|by exists l, x]. }
    rewrite Hq, length_app. cbn [length]. rewrite Nat.add_sub.
    rewrite <- app_assoc. cbn [app]. rewrite insert_app_r_alt by lia. rewrite Nat.sub_diag.
    cbn [insert list_insert]. rewrite drop_app_length.
    f_equal. change ("-"%char :: dec_nat (- v) ++ ?s) with (("-"%char :: dec_nat (- v)) ++ s).
    apply take_app_length'. cbn [length]. lia.
  - rewrite Z.abs_eq in * by lia. rewrite drop_app_length. f_equal. apply take_app_length'. lia.
Qed.

Lemma append_uint_eq n dest : (0 <= n < 2 ^ 64)%Z -> append_uint n dest = dest ++ dec_nat n.
Proof. intros Hn. unfold append_uint. by rewrite format_unsigned_spec. Qed.

Lemma append_int_eq w n dest :
  (0 < w <= 64)%Z -> (- 2 ^ (w - 1) <= n < 2 ^ (w - 1))%Z -> append_int w n dest = dest ++ dec n.
Proof. intros Hw Hn. unfold append_int. by rewrite format_signed_spec. Qed.

Lemma count_digits32_eq n : (0 <= n < 2 ^ 32)%Z -> count_digits32 n = count_digits n.
Proof.
  intros Hn. unfold count_digits32, count_digits. rewrite lor_one_log2 by lia.
  assert (exists k, k < 32 /\ Z.log2 n = Z.of_nat k) as (k & Hk & ->).
  { exists (Z.to_nat (Z.log2 n)). rewrite Z2Nat.id by apply Z.log2_nonneg. split; [|done].
    destruct (Z.eq_dec n 0) as [->|]; [simpl; lia|].
    assert (Z.log2 n < 32)%Z by (apply Z.log2_lt_pow2; lia). lia. }
  do 32 (destruct k as [|k]; [reflexivity|]). lia.
Qed.

Lemma zpad_small w n : (Z.of_nat w = 2 /\ 0 <= n < 100)%Z -> zpad w n = [digit_chr (n / 10); digit_chr (n `mod` 10)].
Proof.
  intros [Hw Hn]. assert (w = 2) as -> by lia. unfold zpad. destruct (Z_lt_le_dec n 10).
  - rewrite dec_nat_small by lia. cbn [length Nat.sub replicate app].
    rewrite (Z.div_small n 10), (Z.mod_small n 10) by lia. reflexivity.
  - rewrite dec_nat_two by lia. reflexivity.
Qed.

Lemma pad2_eq n dest : (0 <= n < 100)%Z -> pad2 n dest = dest ++ zpad 2 n.
Proof.
  intros Hn. unfold pad2. rewrite (proj2 (Z.leb_le 0 n)), (proj2 (Z.ltb_lt n 100)) by lia.
  cbn [andb]. by rewrite zpad_small.
Qed.

Lemma pad3_eq n dest : (0 <= n < 1000)%Z -> pad3 n dest = dest ++ zpad 3 n.
Proof.
  intros Hn. unfold pad3. rewrite (proj2 (Z.ltb_lt n 1000)) by lia. rewrite <- !app_assoc. f_equal.
  unfold zpad. destruct (Z_lt_le_dec n 10).
  - rewrite dec_nat_small by lia. cbn [length Nat.sub replicate app].
    rewrite (Z.mod_small n 100), (Z.div_small n 100), (Z.div_small n 10), (Z.mod_small n 10) by lia. reflexivity.
  - destruct (Z_lt_le_dec n 100).
    + rewrite dec_nat_two by lia. cbn [length Nat.sub replicate app].
      by rewrite (Z.div_small n 100), (Z.mod_small n 100) by lia.
    + rewrite dec_nat_step2 by lia.
      rewrite (dec_nat_small (n / 100)) by (split; [apply Z.div_pos; lia|apply Z.div_lt_upper_bound; lia]).
      cbn [length Nat.sub replicate app]. done.
Qed.

Lemma push_zeros_eq fuel d w dest :
  (0 <= d)%Z -> (Z.to_nat (w - d) <= fuel)%nat ->
  push_zeros fuel d w dest = dest ++ replicate (Z.to_nat (w - d)) "0"%char.
Proof.
  revert d dest. induction fuel as [|fuel IH]; intros d dest Hd Hf; cbn [push_zeros].
  - replace (Z.to_nat (w - d)) with 0 by lia. by rewrite app_nil_r.
  - destruct (d <? w)%Z eqn:Hlt; to_prop.
    + rewrite IH by lia. rewrite <- app_assoc. f_equal.
      replace (Z.to_nat (w - d)) with (S (Z.to_nat (w - (d + 1)))) by lia. done.
    + replace (Z.to_nat (w - d)) with 0 by lia. by rewrite app_nil_r.
Qed.

Lemma pad_uint_eq n w dest :
  (0 <= n < 2 ^ 64)%Z -> (0 <= w)%Z -> pad_uint n w dest = dest ++ zpad (Z.to_nat w) n.
Proof.
  intros Hn Hw. unfold pad_uint. rewrite count_digits_length by done.
  rewrite push_zeros_eq by lia. rewrite append_uint_eq by done. rewrite <- app_assoc. f_equal.
  unfold zpad. by replace (Z.to_nat (w - Z.of_nat (length (dec_nat n)))) with (Z.to_nat w - length (dec_nat n)) by lia.
Qed.

Lemma time_fraction_range unit ns :
  (0 <= ns)%Z -> (0 < unit)%Z -> (unit | NS_PER_SEC)%Z ->
  time_fraction unit ns = (ns `mod` NS_PER_SEC / unit)%Z /\ (0 <= time_fraction unit ns < NS_PER_SEC / unit)%Z.
Proof.
  intros Hn Hu [q Hq]. unfold time_fraction, seconds_of, duration_cast.
  assert (0 < NS_PER_SEC)%Z as Hs by done. assert (0 < q)%Z by nia.
  rewrite (Z.quot_div_nonneg ns NS_PER_SEC) by lia.
  assert (0 <= ns / NS_PER_SEC)%Z by (apply Z.div_pos; lia).
  rewrite !Z.quot_div_nonneg by nia.
  assert (ns / NS_PER_SEC * NS_PER_SEC / unit = ns / NS_PER_SEC * q)%Z as ->.
  { rewrite Hq at 2. rewrite Z.mul_assoc, Z.div_mul by lia. done. }
  assert (ns / unit - ns / NS_PER_SEC * q = ns `mod` NS_PER_SEC / unit)%Z as ->.
  { rewrite (Z.div_mod ns NS_PER_SEC) at 1 by lia. rewrite Hq at 1.
    replace (q * unit * (ns / NS_PER_SEC) + ns `mod` NS_PER_SEC)%Z
      with (ns `mod` NS_PER_SEC + (q * (ns / NS_PER_SEC)) * unit)%Z by ring.
    rewrite Z.div_add by lia. lia. }
  split; [done|]. pose proof (Z.mod_pos_bound ns NS_PER_SEC Hs). split; [apply Z.div_pos; lia|].
  apply Z.div_lt_upper_bound; [lia|]. rewrite Hq at 2. rewrite Z.div_mul by lia. lia.
Qed.

(** [format_int] prints every 32- and 64-bit integer, signed or unsigned, in decimal
    (the two-digits-at-a-time loop from the end of its buffer, the modular absolute value),
    and the table-based [count_digits] is the length of that text. *)
Theorem format_int_correct (n : Z) :
  ((0 <= n < 2 ^ 64)%Z ->
     (forall dest, append_uint n dest = dest ++ dec_nat n) /\
     count_digits n = Z.of_nat (length (dec_nat n))) /\
  ((0 <= n < 2 ^ 32)%Z -> count_digits32 n = Z.of_nat (length (dec_nat n))) /\
  ((- 2 ^ 31 <= n < 2 ^ 31)%Z -> forall dest, append_int 32 n dest = dest ++ dec n) /\
  ((- 2 ^ 63 <= n < 2 ^ 63)%Z -> forall dest, append_int 64 n dest = dest ++ dec n).
Proof.
  split_and!.
  - intros Hn. split; [intros dest; by apply append_uint_eq|by apply count_digits_length].
  - intros Hn. rewrite count_digits32_eq by done. apply count_digits_length. lia.
  - intros Hn dest. by apply append_int_eq.
  - intros Hn dest. by apply append_int_eq.
Qed.

Lemma format_int_correct_witness : append_int 64 (- 2 ^ 63) [] = B "-9223372036854775808" /\ count_digits (2 ^ 64 - 1) = 20%Z.
Proof.
  split.
  - apply (proj2 (proj2 (proj2 (format_int_correct (- 2 ^ 63))))). lia.
  - apply (proj1 (format_int_correct (2 ^ 64 - 1))). lia.
Defined.

(** [from_str] inverts [to_string_view], accepts "warn" and "err" too, and maps every
    other name to [off]. *)
Theorem from_str_correct :
  (forall l, from_str (to_string_view l) = l) /\ from_str (B "warn") = warn /\ from_str (B "err") = err /\
  forall name, name <> B "warn" -> name <> B "err" -> from_str name <> off -> name = to_string_view (from_str name).
Proof.
  split_and!; [by intros []|reflexivity|reflexivity|].
  intros name Hw He. unfold from_str, level_string_views. cbn [from_str_loop].
  do 7 (case_bool_decide as Hn; [by subst name|]; clear Hn).
  rewrite !bool_decide_eq_false_2 by done. done.
Qed.
