(* ===== verification/PatternFormatter.v ===== *)
(** * Log patterns: [spdlog/pattern_formatter.h], [spdlog/pattern_formatter-inl.h]

    The flag formatters, the compilation of a pattern into a list of them, and the formatter
    with its cached calendar time.  A buffer grows at its end; [None] is undefined behaviour
    (an array read out of bounds) or a resize to a negative size. *)
From S2P Require Import Prelude CLib Json Fmt.

(** ** Messages and padding *)

Record source_loc := MkLoc { filename : bytes; line : Z; funcname : bytes }.
Definition source_empty (s : source_loc) : bool := (line s =? 0)%Z.

(** [time] counts nanoseconds since the epoch. *)
Record log_msg := MkMsg {
  logger_name : bytes; msg_level : level_enum; time : Z; thread_id : Z; source : source_loc; payload : bytes }.

Inductive pad_side := pad_left | pad_right | pad_center.

Record padding_info := MkPad { width_ : Z; side_ : pad_side; truncate_ : bool; enabled_ : bool }.

(** [padding_info{}] and [padding_info(width, side, truncate)]. *)
Definition no_padding : padding_info := MkPad 0 pad_left false false.
Definition mk_padding (width : Z) (side : pad_side) (truncate : bool) : padding_info :=
  MkPad width side truncate true.

(** ** [scoped_padder] and [null_scoped_padder] *)

Inductive padder := scoped_padder | null_scoped_padder.

(** The literal of spaces has 64 characters. *)
Definition spaces_size : Z := 64.
Definition SP : ascii := " "%char.

Definition pad_it (count : Z) (dest : bytes) : option bytes :=
  if (count <=? spaces_size)%Z then Some (dest ++ replicate (Z.to_nat count) SP) else None.

(** The constructor: what is left to pad after it, and the buffer. *)
Definition padder_ctor (wrapped_size : Z) (padinfo : padding_info) (dest : bytes) : option (Z * bytes) :=
  let remaining_pad := (width_ padinfo - wrapped_size)%Z in
  if (remaining_pad <=? 0)%Z then Some (remaining_pad, dest)
  else
    match side_ padinfo with
    | pad_left => dest ← pad_it remaining_pad dest; Some (0%Z, dest)
    | pad_center =>
        let half_pad := Z.quot remaining_pad 2 in
        let reminder := Z.land remaining_pad 1 in
        dest ← pad_it half_pad dest; Some ((half_pad + reminder)%Z, dest)
    | pad_right => Some (remaining_pad, dest)
    end.

(** The destructor; [dest_.resize] to a size that wrapped around runs out of memory. *)
Definition padder_dtor (remaining_pad : Z) (padinfo : padding_info) (dest : bytes) : option bytes :=
  if (0 <=? remaining_pad)%Z then pad_it remaining_pad dest
  else if truncate_ padinfo then
    let new_size := (Z.of_nat (length dest) + remaining_pad)%Z in
    if (new_size <? 0)%Z then None else Some (take (Z.to_nat new_size) dest)
  else Some dest.

(** [ScopedPadder p(wrapped_size, padinfo_, dest);] around the body of a [format]. *)
Definition with_padder (sp : padder) (wrapped_size : Z) (padinfo : padding_info)
    (body : bytes -> option bytes) (dest : bytes) : option bytes :=
  match sp with
  | null_scoped_padder => body dest
  | scoped_padder =>
      '(remaining_pad, dest) ← padder_ctor wrapped_size padinfo dest;
      dest ← body dest;
      padder_dtor remaining_pad padinfo dest
  end.

(** [ScopedPadder::count_digits], for 64- and 32-bit numbers. *)
Definition sp_count_digits (sp : padder) (n : Z) : Z :=
  match sp with scoped_padder => Fmt.count_digits n | null_scoped_padder => 0 end.
Definition sp_count_digits32 (sp : padder) (n : Z) : Z :=
  match sp with scoped_padder => count_digits32 (u32 n) | null_scoped_padder => 0 end.

Definition push_back (c : ascii) (dest : bytes) : bytes := dest ++ [c].

Definition text (s : bytes) (dest : bytes) : option bytes := Some (append_string_view s dest).

(** An element of a [std::array] of names. *)
Definition name_at (names : list bytes) (i : Z) : option bytes :=
  if (i <? 0)%Z then None else names !! Z.to_nat i.

(** ** Flag formatters without state: their [format] functions *)

Section formatters.
  Context (sp : padder) (padinfo : padding_info) (msg : log_msg) (t : tm).

  (** Fields that consist of one text. *)
Definition padded_text (s : bytes) : bytes -> option bytes :=
    with_padder sp (Z.of_nat (length s)) padinfo (text s).

Definition name_format : bytes -> option bytes := padded_text (logger_name msg).
Definition level_format : bytes -> option bytes := padded_text (to_string_view (msg_level msg)).
Definition short_level_format : bytes -> option bytes := padded_text (to_short_c_str (msg_level msg)).

Definition ampm : bytes := if (12 <=? tm_hour t)%Z then B "PM" else B "AM".
Definition to12h : Z := if (12 <? tm_hour t)%Z then tm_hour t - 12 else tm_hour t.

Definition days : list bytes := B <$> ["Sun"; "Mon"; "Tue"; "Wed"; "Thu"; "Fri"; "Sat"]%string.
Definition a_format (dest : bytes) : option bytes := s ← name_at days (tm_wday t); padded_text s dest.

Definition full_days : list bytes :=
    B <$> ["Sunday"; "Monday"; "Tuesday"; "Wednesday"; "Thursday"; "Friday"; "Saturday"]%string.
Definition A_format (dest : bytes) : option bytes := s ← name_at full_days (tm_wday t); padded_text s dest.

Definition months : list bytes :=
    B <$> ["Jan"; "Feb"; "Mar"; "Apr"; "May"; "Jun"; "Jul"; "Aug"; "Sept"; "Oct"; "Nov"; "Dec"]%string.
Definition b_format (dest : bytes) : option bytes := s ← name_at months (tm_mon t); padded_text s dest.

Definition full_months : list bytes :=
    B <$> ["January"; "February"; "March"; "April"; "May"; "June"; "July"; "August"; "September";
           "October"; "November"; "December"]%string.
Definition B_format (dest : bytes) : option bytes := s ← name_at full_months (tm_mon t); padded_text s dest.

  (** The fields the classes give as [field_size]. *)
Definition field (field_size : Z) (body : bytes -> bytes) : bytes -> option bytes :=
    with_padder sp field_size padinfo (fun dest => Some (body dest)).

Definition c_format : bytes -> option bytes :=
    with_padder sp 24 padinfo (fun dest =>
      day ← name_at days (tm_wday t);
      month ← name_at months (tm_mon t);
      let dest := push_back SP (append_string_view day dest) in
      let dest := push_back SP (append_string_view month dest) in
      let dest := push_back SP (append_int 32 (tm_mday t) dest) in
      let dest := push_back ":"%char (pad2 (tm_hour t) dest) in
      let dest := push_back ":"%char (pad2 (tm_min t) dest) in
      let dest := push_back SP (pad2 (tm_sec t) dest) in
      Some (append_int 32 (tm_year t + 1900) dest)).

Definition C_format : bytes -> option bytes := field 2 (pad2 (Z.rem (tm_year t) 100)).

Definition D_format : bytes -> option bytes :=
    field 10 (fun dest =>
      let dest := push_back "/"%char (pad2 (tm_mon t + 1) dest) in
      let dest := push_back "/"%char (pad2 (tm_mday t) dest) in
      pad2 (Z.rem (tm_year t) 100) dest).

Definition Y_format : bytes -> option bytes := field 4 (append_int 32 (tm_year t + 1900)).
Definition m_format : bytes -> option bytes := field 2 (pad2 (tm_mon t + 1)).
Definition d_format : bytes -> option bytes := field 2 (pad2 (tm_mday t)).
Definition H_format : bytes -> option bytes := field 2 (pad2 (tm_hour t)).
Definition I_format : bytes -> option bytes := field 2 (pad2 to12h).
Definition M_format : bytes -> option bytes := field 2 (pad2 (tm_min t)).
Definition S_format : bytes -> option bytes := field 2 (pad2 (tm_sec t)).

Definition MILLI : Z := 1000000.
Definition MICRO : Z := 1000.

Definition e_format : bytes -> option bytes := field 3 (pad3 (u32 (time_fraction MILLI (time msg)))).
Definition f_format : bytes -> option bytes := field 6 (pad6 (u64 (time_fraction MICRO (time msg)))).
Definition F_format : bytes -> option bytes := field 9 (pad9 (u64 (time_fraction 1 (time msg)))).
Definition E_format : bytes -> option bytes := field 10 (append_int 64 (seconds_of (time msg))).

Definition p_format : bytes -> option bytes := field 2 (append_string_view ampm).

Definition r_format : bytes -> option bytes :=
    field 11 (fun dest =>
      let dest := push_back ":"%char (pad2 to12h dest) in
      let dest := push_back ":"%char (pad2 (tm_min t) dest) in
      let dest := push_back SP (pad2 (tm_sec t) dest) in
      append_string_view ampm dest).

Definition R_format : bytes -> option bytes :=
    field 5 (fun dest => pad2 (tm_min t) (push_back ":"%char (pad2 (tm_hour t) dest))).

Definition T_format : bytes -> option bytes :=
    field 8 (fun dest =>
      let dest := push_back ":"%char (pad2 (tm_hour t) dest) in
      let dest := push_back ":"%char (pad2 (tm_min t) dest) in
      pad2 (tm_sec t) dest).

Definition t_format : bytes -> option bytes :=
    field (sp_count_digits sp (thread_id msg)) (append_uint (thread_id msg)).

  (** [os::pid()] is the process's. *)
Definition pid_format (pid : Z) : bytes -> option bytes :=
    let pid := u32 pid in field (sp_count_digits32 sp pid) (append_uint pid).

Definition v_format : bytes -> option bytes := padded_text (payload msg).

  (** Fields of the source location: nothing without one. *)
Definition with_source (f : bytes -> option bytes) (dest : bytes) : option bytes :=
    if source_empty (source msg) then Some dest else f dest.

Definition text_size (s : bytes) : Z := if enabled_ padinfo then Z.of_nat (length s) else 0.

Definition source_location_format : bytes -> option bytes :=
    with_source (fun dest =>
      let size := if enabled_ padinfo
        then (Z.of_nat (length (filename (source msg))) + sp_count_digits32 sp (line (source msg)) + 1)%Z
        else 0%Z in
      field size (fun dest =>
        append_int 32 (line (source msg)) (push_back ":"%char (append_string_view (filename (source msg)) dest))) dest).

Definition source_filename_format : bytes -> option bytes :=
    with_source (with_padder sp (text_size (filename (source msg))) padinfo (text (filename (source msg)))).

  (** [basename]: the folder separators are one character. *)
Definition basename (s : bytes) : bytes :=
    match rfind_if (fun c => c =c "/"%char) s with Some i => drop (S i) s | None => s end.

Definition short_filename_format : bytes -> option bytes :=
    with_source (fun dest =>
      let s := basename (filename (source msg)) in
      with_padder sp (text_size s) padinfo (text s) dest).

Definition source_linenum_format : bytes -> option bytes :=
    with_source (field (sp_count_digits32 sp (line (source msg))) (append_int 32 (line (source msg)))).

Definition source_funcname_format : bytes -> option bytes :=
    with_source (with_padder sp (text_size (funcname (source msg))) padinfo (text (funcname (source msg)))).
End formatters.

(** ** Flag formatters with state *)

(** [os::utc_minutes_offset] where [struct tm] has [tm_gmtoff]. *)
Definition utc_minutes_offset (t : tm) : Z := s32 (Z.quot (tm_gmtoff t) 60).

(** [z_formatter]: [last_update_] in nanoseconds, [offset_minutes_]. *)
Definition get_cached_offset (last_update offset_minutes : Z) (msg : log_msg) (t : tm) : Z * Z :=
  if (10 * NS_PER_SEC <=? time msg - last_update)%Z then (time msg, utc_minutes_offset t)
  else (last_update, offset_minutes).

Definition z_format (sp : padder) (padinfo : padding_info) (st : Z * Z) (msg : log_msg) (t : tm) (dest : bytes)
    : option ((Z * Z) * bytes) :=
  let st := get_cached_offset (fst st) (snd st) msg t in
  let total_minutes := snd st in
  let is_negative := (total_minutes <? 0)%Z in
  let minutes := if is_negative then (- total_minutes)%Z else total_minutes in
  dest ← field sp padinfo 6 (fun dest =>
    let dest := push_back (if is_negative then "-"%char else "+"%char) dest in
    pad2 (Z.rem minutes 60) (push_back ":"%char (pad2 (Z.quot minutes 60) dest))) dest;
  Some (st, dest).

(** [elapsed_formatter]: [unit] is the length of its unit in nanoseconds. *)
Definition elapsed_format (sp : padder) (unit : Z) (padinfo : padding_info) (last_message_time : Z)
    (msg : log_msg) (dest : bytes) : option (Z * bytes) :=
  let delta := Z.max (time msg - last_message_time) 0 in
  let delta_count := u64 (duration_cast unit delta) in
  dest ← field sp padinfo (sp_count_digits sp delta_count) (append_uint delta_count) dest;
  Some (time msg, dest).

(** The colour range of a message, which formatters set. *)
Record color_range := MkRange { color_range_start : Z; color_range_end : Z }.

(** [full_formatter]: [cache_timestamp_] in seconds and [cached_datetime_]. *)
Definition full_datetime (t : tm) : bytes :=
  let dest := push_back "["%char [] in
  let dest := push_back "-"%char (append_int 32 (tm_year t + 1900) dest) in
  let dest := push_back "-"%char (pad2 (tm_mon t + 1) dest) in
  let dest := push_back SP (pad2 (tm_mday t) dest) in
  let dest := push_back ":"%char (pad2 (tm_hour t) dest) in
  let dest := push_back ":"%char (pad2 (tm_min t) dest) in
  push_back "."%char (pad2 (tm_sec t) dest).

Definition full_format (st : Z * bytes) (msg : log_msg) (t : tm) (dest : bytes)
    : (Z * bytes) * color_range * bytes :=
  let '(cache_timestamp, cached_datetime) := st in
  let secs := seconds_of (time msg) in
  let st :=
    if negb (cache_timestamp =? secs)%Z || (length cached_datetime =? 0)%nat
    then (secs, full_datetime t) else st in
  let dest := dest ++ snd st in
  let dest := pad3 (u32 (time_fraction MILLI (time msg))) dest in
  let dest := push_back SP (push_back "]"%char dest) in
  let dest :=
    if (0 <? length (logger_name msg))%nat
    then push_back SP (push_back "]"%char (append_string_view (logger_name msg) (push_back "["%char dest)))
    else dest in
  let dest := push_back "["%char dest in
  let range_start := Z.of_nat (length dest) in
  let dest := append_string_view (to_string_view (msg_level msg)) dest in
  let range_end := Z.of_nat (length dest) in
  let dest := push_back SP (push_back "]"%char dest) in
  let dest :=
    if source_empty (source msg) then dest
    else
      let dest := append_string_view (basename (filename (source msg))) (push_back "["%char dest) in
      let dest := append_int 32 (line (source msg)) (push_back ":"%char dest) in
      push_back SP (push_back "]"%char dest) in
  (st, MkRange range_start range_end, append_string_view (payload msg) dest).

(** ** Formatters as objects *)

Section pattern.
  (** Custom flag formatters are the user's: what one writes, and its next state. *)
  Context {Custom : Type} (custom_format : Custom -> padding_info -> log_msg -> tm -> bytes -> Custom * bytes).

  (** The stateless classes are given by their [format] function, applied to the padder and the
      padding of the object. *)
Inductive flag_formatter :=
  | simple_formatter (f : log_msg -> tm -> bytes -> option bytes)
  | z_formatter (sp : padder) (padinfo : padding_info) (last_update offset_minutes : Z)
  | elapsed_formatter (sp : padder) (unit : Z) (padinfo : padding_info) (last_message_time : Z)
  | full_formatter (padinfo : padding_info) (cache_timestamp : Z) (cached_datetime : bytes)
  | ch_formatter (ch : ascii)
  | aggregate_formatter (str : bytes)
  | color_start_formatter
  | color_stop_formatter
  | custom_formatter (c : Custom) (padinfo : padding_info).

  (** The virtual [format]: the formatter afterwards, the colour range and the buffer. *)
Definition flag_format (f : flag_formatter) (msg : log_msg) (t : tm) (r : color_range) (dest : bytes)
      : option (flag_formatter * color_range * bytes) :=
    match f with
    | simple_formatter g => dest ← g msg t dest; Some (f, r, dest)
    | z_formatter sp padinfo last ofs =>
        '((last, ofs), dest) ← z_format sp padinfo (last, ofs) msg t dest;
        Some (z_formatter sp padinfo last ofs, r, dest)
    | elapsed_formatter sp unit padinfo last =>
        '(last, dest) ← elapsed_format sp unit padinfo last msg dest;
        Some (elapsed_formatter sp unit padinfo last, r, dest)
    | full_formatter padinfo ts cached =>
        let '((ts, cached), r, dest) := full_format (ts, cached) msg t dest in
        Some (full_formatter padinfo ts cached, r, dest)
    | ch_formatter ch => Some (f, r, push_back ch dest)
    | aggregate_formatter str => Some (f, r, append_string_view str dest)
    | color_start_formatter => Some (f, MkRange (Z.of_nat (length dest)) (color_range_end r), dest)
    | color_stop_formatter => Some (f, MkRange (color_range_start r) (Z.of_nat (length dest)), dest)
    | custom_formatter c padinfo =>
        let '(c, dest) := custom_format c padinfo msg t dest in Some (custom_formatter c padinfo, r, dest)
    end.

  (** [clone] of the custom formatters does not change them; [now] is the clock when a pattern
      is compiled. *)
Definition custom_flags := gmap ascii Custom.

Definition source_funcname_formatter (sp : padder) (padding : padding_info) : flag_formatter :=
    simple_formatter (fun msg _ => source_funcname_format sp padding msg).

  (** [handle_flag_]: the formatters it appends. *)
Definition handle_flag_ (custom_handlers : custom_flags) (pid now : Z) (Padder : padder) (flag : ascii)
      (padding : padding_info) : list flag_formatter :=
    match custom_handlers !! flag with
    | Some c => [custom_formatter c padding]
    | None =>
        let msg_formatter (f : padder -> padding_info -> log_msg -> bytes -> option bytes) :=
          [simple_formatter (fun msg _ => f Padder padding msg)] in
        let tm_formatter (f : padder -> padding_info -> tm -> bytes -> option bytes) :=
          [simple_formatter (fun _ t => f Padder padding t)] in
        match flag with
        | "+" => [full_formatter padding 0 []]
        | "n" => msg_formatter name_format
        | "l" => msg_formatter level_format
        | "L" => msg_formatter short_level_format
        | "t" => msg_formatter t_format
        | "v" => msg_formatter v_format
        | "a" => tm_formatter a_format
        | "A" => tm_formatter A_format
        | "b" | "h" => tm_formatter b_format
        | "B" => tm_formatter B_format
        | "c" => tm_formatter c_format
        | "C" => tm_formatter C_format
        | "Y" => tm_formatter Y_format
        | "D" | "x" => tm_formatter D_format
        | "m" => tm_formatter m_format
        | "d" => tm_formatter d_format
        | "H" => tm_formatter H_format
        | "I" => tm_formatter I_format
        | "M" => tm_formatter M_format
        | "S" => tm_formatter S_format
        | "e" => msg_formatter e_format
        | "f" => msg_formatter f_format
        | "F" => msg_formatter F_format
        | "E" => msg_formatter E_format
        | "p" => tm_formatter p_format
        | "r" => tm_formatter r_format
        | "R" => tm_formatter R_format
        | "T" | "X" => tm_formatter T_format
        | "z" => [z_formatter Padder padding 0 0]
        | "P" => tm_formatter (fun sp padinfo _ => pid_format sp padinfo pid)
        | "^" => [color_start_formatter]
        | "$" => [color_stop_formatter]
        | "@" => msg_formatter source_location_format
        | "s" => msg_formatter short_filename_format
        | "g" => msg_formatter source_filename_format
        | "#" => msg_formatter source_linenum_format
        | "!" => msg_formatter source_funcname_format
        | "%" => [ch_formatter "%"]
        | "u" => [elapsed_formatter Padder 1 padding now]
        | "i" => [elapsed_formatter Padder MICRO padding now]
        | "o" => [elapsed_formatter Padder MILLI padding now]
        | "O" => [elapsed_formatter Padder NS_PER_SEC padding now]
        | _ =>
            if negb (truncate_ padding) then [aggregate_formatter ["%"; flag]]
            else
              let padding := MkPad (width_ padding) (side_ padding) false (enabled_ padding) in
              [source_funcname_formatter Padder padding; aggregate_formatter [flag]]
        end%char
    end.

Definition max_width : Z := 64.

  (** The digits of a width, [width] so far; [size_t] wraps around. *)
Fixpoint read_width (width : Z) (s : bytes) : Z * bytes :=
    match s with
    | c :: s' => if isdigit c then read_width (u64 (width * 10 + digit_val c)) s' else (width, s)
    | [] => (width, [])
    end.

  (** [handle_padspec_] from the position after the percent sign: the padding and the rest. *)
Definition handle_padspec_ (s : bytes) : padding_info * bytes :=
    match s with
    | [] => (no_padding, [])
    | c :: s' =>
        let '(side, s) :=
          if c =c "-"%char then (pad_right, s')
          else if c =c "="%char then (pad_center, s')
          else (pad_left, s) in
        match s with
        | d :: s' =>
            if isdigit d then
              let '(width, s) := read_width (digit_val d) s' in
              let '(truncate, s) :=
                match s with
                | e :: s' => if e =c "!"%char then (true, s') else (false, s)
                | [] => (false, [])
                end in
              (mk_padding (Z.min width max_width) side truncate, s)
            else (no_padding, s)
        | [] => (no_padding, [])
        end
    end.

Definition flush (user_chars : option bytes) : list flag_formatter :=
    match user_chars with Some str => [aggregate_formatter str] | None => [] end.

  (** [compile_pattern_]: every round of the loop reads at least one character. *)
Fixpoint compile_loop (fuel : nat) (custom_handlers : custom_flags) (pid now : Z) (s : bytes)
      (user_chars : option bytes) (formatters : list flag_formatter) : option (list flag_formatter) :=
    match fuel with
    | 0 => None
    | S fuel =>
        match s with
        | [] => Some (formatters ++ flush user_chars)
        | c :: s =>
            if c =c "%"%char then
              let formatters := formatters ++ flush user_chars in
              let '(padding, s) := handle_padspec_ s in
              match s with
              | [] => Some formatters
              | flag :: s =>
                  let sp := if enabled_ padding then scoped_padder else null_scoped_padder in
                  compile_loop fuel custom_handlers pid now s None
                    (formatters ++ handle_flag_ custom_handlers pid now sp flag padding)
              end
            else
              compile_loop fuel custom_handlers pid now s
                (Some (default [] user_chars ++ [c])) formatters
        end
    end.

Definition compile_pattern_ (custom_handlers : custom_flags) (pid now : Z) (pattern : bytes)
      : option (list flag_formatter) :=
    compile_loop (S (length pattern)) custom_handlers pid now pattern None [].

  (** ** [pattern_formatter] *)

Inductive pattern_time_type := local | utc.

Record pattern_formatter := MkPattern {
    pattern_ : bytes; eol_ : bytes; pattern_time_type_ : pattern_time_type; cached_tm_ : tm;
    last_log_secs_ : Z; formatters_ : list flag_formatter; custom_handlers_ : custom_flags }.

  (** [memset(&cached_tm_, 0, ...)]. *)
Definition zero_tm : tm := MkTm 0 0 0 0 0 0 0 0 0 0.

Definition mk_pattern_formatter (pid now : Z) (pattern : bytes) (time_type : pattern_time_type) (eol : bytes)
      (custom : custom_flags) : option pattern_formatter :=
    fs ← compile_pattern_ custom pid now pattern;
    Some (MkPattern pattern eol time_type zero_tm 0 fs custom).

  (** The constructor without a pattern. *)
Definition mk_default_formatter (time_type : pattern_time_type) (eol : bytes) : pattern_formatter :=
    MkPattern (B "%+") eol time_type zero_tm 0 [full_formatter no_padding 0 []] ∅.

Definition clone (pid now : Z) (p : pattern_formatter) : option pattern_formatter :=
    mk_pattern_formatter pid now (pattern_ p) (pattern_time_type_ p) (eol_ p) (custom_handlers_ p).

Definition set_pattern (pid now : Z) (pattern : bytes) (p : pattern_formatter) : option pattern_formatter :=
    fs ← compile_pattern_ (custom_handlers_ p) pid now pattern;
    Some (MkPattern pattern (eol_ p) (pattern_time_type_ p) (cached_tm_ p) (last_log_secs_ p) fs (custom_handlers_ p)).

  (** The C library's conversions of a [time_t]. *)
  Context (localtime gmtime : Z -> tm).

Definition get_time_ (p : pattern_formatter) (msg : log_msg) : tm :=
    match pattern_time_type_ p with
    | local => localtime (seconds_of (time msg))
    | utc => gmtime (seconds_of (time msg))
    end.

Fixpoint format_all (fs : list flag_formatter) (msg : log_msg) (t : tm) (r : color_range) (dest : bytes)
      : option (list flag_formatter * color_range * bytes) :=
    match fs with
    | [] => Some ([], r, dest)
    | f :: fs =>
        '(f, r, dest) ← flag_format f msg t r dest;
        '(fs, r, dest) ← format_all fs msg t r dest;
        Some (f :: fs, r, dest)
    end.

Definition format (p : pattern_formatter) (msg : log_msg) (r : color_range) (dest : bytes)
      : option (pattern_formatter * color_range * bytes) :=
    let secs := seconds_of (time msg) in
    let '(cached, last) :=
      if negb (secs =? last_log_secs_ p)%Z then (get_time_ p msg, secs) else (cached_tm_ p, last_log_secs_ p) in
    '(fs, r, dest) ← format_all (formatters_ p) msg cached r dest;
    Some (MkPattern (pattern_ p) (eol_ p) (pattern_time_type_ p) cached last fs (custom_handlers_ p), r,
          append_string_view (eol_ p) dest).
End pattern.

Arguments flag_formatter : clear implicits.
Arguments pattern_formatter : clear implicits.
Arguments custom_flags : clear implicits.

(** ** Padding *)

Definition blanks (n : Z) : bytes := replicate (Z.to_nat n) SP.

(** What padding promises for a field of text [s]: the width is reached on the chosen side, and
    a longer text is cut only when truncation was asked for. *)
Definition pad_text (p : padding_info) (s : bytes) : bytes :=
  let rem := (width_ p - Z.of_nat (length s))%Z in
  if (0 <=? rem)%Z then
    match side_ p with
    | pad_left => blanks rem ++ s
    | pad_right => s ++ blanks rem
    | pad_center => blanks (rem / 2) ++ s ++ blanks (rem / 2 + rem `mod` 2)
    end
  else if truncate_ p then take (Z.to_nat (width_ p)) s else s.

Lemma pad_it_ok n dest : (n <= spaces_size)%Z -> pad_it n dest = Some (dest ++ blanks n).
Proof. intros Hn. unfold pad_it. by rewrite (proj2 (Z.leb_le _ _) Hn). Qed.

Lemma land_one n : Z.land n 1 = (n `mod` 2)%Z.
Proof. change 1%Z with (Z.ones 1). by rewrite Z.land_ones by lia. Qed.

Lemma with_padder_text p s dest body :
  (0 <= width_ p <= 64)%Z -> (forall d, body d = Some (d ++ s)) ->
  with_padder scoped_padder (Z.of_nat (length s)) p body dest = Some (dest ++ pad_text p s).
Proof.
  intros Hw Hb. unfold with_padder, padder_ctor, pad_text.
  set (rem := (width_ p - Z.of_nat (length s))%Z).
  assert (rem <= spaces_size)%Z as Hs by (unfold rem, spaces_size; lia).
  destruct (rem <=? 0)%Z eqn:Hle; to_prop.
  - cbn [mbind option_bind]. rewrite Hb. cbn [mbind option_bind]. unfold padder_dtor.
    destruct (0 <=? rem)%Z eqn:H0; to_prop.
    + assert (rem = 0%Z) as Hr by lia. rewrite pad_it_ok by lia. rewrite Hr. unfold blanks. simpl.
      destruct (side_ p); by rewrite ?app_nil_r.
    + destruct (truncate_ p); [|done]. rewrite length_app.
      rewrite (proj2 (Z.ltb_ge _ _)) by (unfold rem in *; lia).
      replace (Z.to_nat (Z.of_nat (length dest + length s) + rem)) with (length dest + Z.to_nat (width_ p))
        by (unfold rem in *; lia).
      by rewrite take_app_add.
  - rewrite (proj2 (Z.leb_le 0 rem)) by lia. destruct (side_ p).
    + rewrite pad_it_ok by lia. cbn [mbind option_bind]. rewrite Hb. cbn [mbind option_bind padder_dtor Z.leb].
      unfold padder_dtor. cbn [Z.leb]. rewrite pad_it_ok by done. unfold blanks at 2. simpl.
      by rewrite app_nil_r, <- app_assoc.
    + cbn [mbind option_bind]. rewrite Hb. cbn [mbind option_bind]. unfold padder_dtor.
      rewrite (proj2 (Z.leb_le 0 rem)) by lia. rewrite pad_it_ok by lia. by rewrite <- app_assoc.
    + rewrite Z.quot_div_nonneg by lia.
      assert (0 <= rem / 2 <= rem)%Z by (split; [apply Z.div_pos; lia|apply Z.div_le_upper_bound; lia]).
      rewrite pad_it_ok by lia. cbn [mbind option_bind]. rewrite Hb. cbn [mbind option_bind]. unfold padder_dtor.
      rewrite land_one. pose proof (Z.mod_pos_bound rem 2 ltac:(lia)).
      pose proof (Z.div_mod rem 2 ltac:(lia)).
      rewrite (proj2 (Z.leb_le 0 _)) by lia. rewrite pad_it_ok by lia. by rewrite <- !app_assoc.
Qed.

Lemma blanks_length n : (0 <= n)%Z -> Z.of_nat (length (blanks n)) = n.
Proof. intros Hn. unfold blanks. rewrite length_replicate. lia. Qed.

Lemma pad_text_length p s :
  (0 <= width_ p)%Z ->
  Z.of_nat (length (pad_text p s)) =
    if truncate_ p then width_ p else Z.max (width_ p) (Z.of_nat (length s)).
Proof.
  intros Hw. unfold pad_text. set (rem := (width_ p - Z.of_nat (length s))%Z).
  destruct (0 <=? rem)%Z eqn:H0; to_prop.
  - pose proof (Z.div_mod rem 2 ltac:(lia)). pose proof (Z.mod_pos_bound rem 2 ltac:(lia)).
    pose proof (Z.div_pos rem 2 ltac:(lia) ltac:(lia)).
    assert (forall l k : bytes, Z.of_nat (length (l ++ k)) = Z.of_nat (length l) + Z.of_nat (length k))%Z as Happ.
    { intros l k. rewrite length_app. lia. }
    destruct (side_ p); rewrite !Happ, ?blanks_length by lia; destruct (truncate_ p); unfold rem in *; lia.
  - destruct (truncate_ p); [rewrite length_take|]; unfold rem in *; lia.
Qed.

(** A padded text field (names, levels, messages, week days, months): the buffer is
    extended by exactly [pad_text], the field has exactly the asked width when it is
    truncated and at least that width otherwise, and the 64 blanks are enough. *)
Theorem padding_correct p s dest :
  (0 <= width_ p <= max_width)%Z ->
  padded_text scoped_padder p s dest = Some (dest ++ pad_text p s) /\
  Z.of_nat (length (pad_text p s)) =
    (if truncate_ p then width_ p else Z.max (width_ p) (Z.of_nat (length s))).
Proof.
  unfold max_width. intros Hw. split; [|apply pad_text_length; lia].
  unfold padded_text. by apply with_padder_text.
Qed.

Lemma padding_correct_witness :
  padded_text scoped_padder (mk_padding 6 pad_center false) (B "abc") [] = Some (B " abc  ") /\
  padded_text scoped_padder (mk_padding 2 pad_left true) (B "abc") (B "x") = Some (B "xab").
Proof.
  split.
  - apply (padding_correct (mk_padding 6 pad_center false) (B "abc") []). unfold max_width. simpl. lia.
  - apply (padding_correct (mk_padding 2 pad_left true) (B "abc") (B "x")). unfold max_width. simpl. lia.
Defined.

(** ** Dates whose declared size is not their size *)

Definition date_text (t : tm) : bytes :=
  zpad 2 (tm_mon t + 1) ++ B "/" ++ zpad 2 (tm_mday t) ++ B "/" ++ zpad 2 (Z.rem (tm_year t) 100).

Lemma tm_ok_fields t : tm_ok t = true ->
  (0 <= tm_sec t <= 60 /\ 0 <= tm_min t <= 59 /\ 0 <= tm_hour t <= 23 /\ 1 <= tm_mday t <= 31 /\
   0 <= tm_mon t <= 11 /\ -900 <= tm_year t <= 8099 /\ 0 <= tm_wday t <= 6)%Z.
Proof. unfold tm_ok. intros. to_prop. lia. Qed.

Lemma zpad2_length n : (0 <= n < 100)%Z -> length (zpad 2 n) = 2.
Proof. intros Hn. by rewrite zpad_small. Qed.

Lemma D_body t dest :
  tm_ok t = true -> (0 <= tm_year t)%Z ->
  pad2 (Z.rem (tm_year t) 100) (push_back "/"%char (pad2 (tm_mday t) (push_back "/"%char (pad2 (tm_mon t + 1) dest))))
    = dest ++ date_text t.
Proof.
  intros Ht Hy. apply tm_ok_fields in Ht. pose proof (Z.rem_bound_pos (tm_year t) 100 Hy ltac:(lia)).
  rewrite !pad2_eq by lia. unfold push_back, date_text. by rewrite <- !app_assoc.
Qed.

Lemma date_text_length t : tm_ok t = true -> (0 <= tm_year t)%Z -> length (date_text t) = 8.
Proof.
  intros Ht Hy. apply tm_ok_fields in Ht. pose proof (Z.rem_bound_pos (tm_year t) 100 Hy ltac:(lia)).
  unfold date_text. rewrite !length_app, !zpad2_length by lia. done.
Qed.

(** [%D] declares 10 characters and writes 8: asked to pad the date to 8, 9 or 10
    characters it pads nothing, and asked to truncate it to nothing it removes two
    characters of the text before it as well; at the start of a line the new size wraps around. *)
Theorem date_field_size t w dest :
  tm_ok t = true -> (0 <= tm_year t)%Z -> (8 <= w <= 10)%Z -> 2 <= length dest ->
  length (date_text t) = 8 /\
  D_format scoped_padder (mk_padding w pad_left false) t dest = Some (dest ++ date_text t) /\
  D_format scoped_padder (mk_padding 0 pad_left true) t dest = Some (take (length dest - 2) dest) /\
  D_format scoped_padder (mk_padding 0 pad_left true) t [] = None.
Proof.
  intros Ht Hy Hw Hd. split; [by apply date_text_length|].
  unfold D_format, field, with_padder, padder_ctor, mk_padding. cbn [width_ side_ truncate_]. split_and!.
  - rewrite (proj2 (Z.leb_le (w - 10) 0)) by lia. cbn [mbind option_bind].
    rewrite D_body by done. cbn [mbind option_bind]. unfold padder_dtor. cbn [truncate_].
    destruct (0 <=? w - 10)%Z eqn:H0; [|done]. to_prop. rewrite pad_it_ok by (unfold spaces_size; lia).
    replace (w - 10)%Z with 0%Z by lia. by rewrite app_nil_r.
  - rewrite (proj2 (Z.leb_le (0 - 10) 0)) by lia. cbn [mbind option_bind].
    rewrite D_body by done. cbn [mbind option_bind]. unfold padder_dtor. cbn [truncate_].
    rewrite (proj2 (Z.leb_gt 0 (0 - 10))) by lia. rewrite length_app, date_text_length by done.
    rewrite (proj2 (Z.ltb_ge _ _)) by lia.
    replace (Z.to_nat (Z.of_nat (length dest + 8) + (0 - 10))) with (length dest - 2) by lia.
    by rewrite take_app_le by lia.
  - rewrite (proj2 (Z.leb_le (0 - 10) 0)) by lia. cbn [mbind option_bind].
    rewrite D_body by done. cbn [mbind option_bind]. unfold padder_dtor. cbn [truncate_].
    rewrite (proj2 (Z.leb_gt 0 (0 - 10))) by lia. cbn [app]. rewrite date_text_length by done. done.
Qed.

Definition demo_tm : tm := MkTm 7 8 0 4 8 124 3 247 0 7200.

Lemma date_field_size_witness :
  D_format scoped_padder (mk_padding 10 pad_left false) demo_tm (B "on ") = Some (B "on 09/04/24") /\
  D_format scoped_padder (mk_padding 0 pad_left true) demo_tm (B "on ") = Some (B "o") /\
  D_format scoped_padder (mk_padding 0 pad_left true) demo_tm [] = None.
Proof.
  apply (date_field_size demo_tm 10 (B "on ")); [reflexivity|simpl; lia|lia|simpl; lia].
Defined.
