(* ===== verification/PatternTheory.v ===== *)
(** * What the log patterns print

    The lines of the pattern the proxy sets and of the default pattern, for any sequence of
    messages and through the caches of [pattern_formatter] and [full_formatter]; and the safety
    of every pattern without truncation. *)
From S2P Require Import Prelude CLib Json Fmt PatternFormatter.

(** ** Sequences of calls *)

(** One [format] per message, each with the buffer it appends to; the messages and buffers of
    the calls in order. *)
Section sequences.
  Context {Custom : Type} (custom_format : Custom -> padding_info -> log_msg -> tm -> bytes -> Custom * bytes).
  Context (localtime gmtime : Z -> tm).

Fixpoint format_seq (p : pattern_formatter Custom) (calls : list (log_msg * bytes)) : option (list bytes) :=
    match calls with
    | [] => Some []
    | (msg, dest) :: calls =>
        '(p, _, out) ← format custom_format localtime gmtime p msg (MkRange 0 0) dest;
        outs ← format_seq p calls; Some (out :: outs)
    end.

  (** The calendar time of a message under the formatter's kind of time. *)
Definition tm_of (ty : pattern_time_type) (msg : log_msg) : tm :=
    match ty with local => localtime (seconds_of (time msg)) | utc => gmtime (seconds_of (time msg)) end.

  (** The cached calendar time belongs to the cached second, unless that is the initial 0. *)
Definition cache_ok (p : pattern_formatter Custom) : Prop :=
    last_log_secs_ p = 0%Z \/
    forall msg, seconds_of (time msg) = last_log_secs_ p -> cached_tm_ p = tm_of (pattern_time_type_ p) msg.

Lemma get_time_tm_of (p : pattern_formatter Custom) msg : get_time_ localtime gmtime p msg = tm_of (pattern_time_type_ p) msg.
Proof. done. Qed.

Lemma format_uncached p msg r dest fs r' out :
  cache_ok p -> seconds_of (time msg) <> 0%Z ->
  format_all custom_format (formatters_ p) msg (tm_of (pattern_time_type_ p) msg) r dest = Some (fs, r', out) ->
  exists p', format custom_format localtime gmtime p msg r dest = Some (p', r', out ++ eol_ p) /\
    cache_ok p' /\ formatters_ p' = fs /\ pattern_time_type_ p' = pattern_time_type_ p /\ eol_ p' = eol_ p.
Proof.
  intros Hc Hs Hf. unfold format. destruct (seconds_of (time msg) =? last_log_secs_ p)%Z eqn:Heq; cbn [negb]; to_prop.
  - destruct Hc as [H0|Hc]; [congruence|]. rewrite (Hc msg) by done. rewrite Hf. cbn [mbind option_bind].
    eexists. split; [done|]. split_and!; try done. right. exact Hc || (intros m Hm; cbn in *; rewrite <- (Hc m Hm); symmetry; by apply Hc).
  - rewrite get_time_tm_of, Hf. cbn [mbind option_bind]. eexists. split; [done|]. split_and!; try done.
    right. cbn. intros m Hm. unfold tm_of. by rewrite Hm.
Qed.

  (** A sequence of calls on a formatter whose flags stay within [inv] and print [line]. *)
Lemma format_seq_lines (inv : list (flag_formatter Custom) -> Prop) (ok : log_msg -> Prop)
      (line : log_msg -> tm -> bytes) p calls :
  cache_ok p -> inv (formatters_ p) ->
  Forall (fun c => ok (fst c) /\ seconds_of (time (fst c)) <> 0%Z) calls ->
  (forall fs msg r dest, inv fs -> ok msg ->
     exists fs' r', format_all custom_format fs msg (tm_of (pattern_time_type_ p) msg) r dest =
       Some (fs', r', dest ++ line msg (tm_of (pattern_time_type_ p) msg)) /\ inv fs') ->
  format_seq p calls =
    Some ((fun c => snd c ++ line (fst c) (tm_of (pattern_time_type_ p) (fst c)) ++ eol_ p) <$> calls).
Proof.
  intros Hc Hi Hok Hstep. revert p Hc Hi Hstep.
  induction Hok as [|[msg dest] calls [Hm Hs] _ IH]; intros p Hc Hi Hstep; [done|]. cbn [fst] in Hm, Hs.
  destruct (Hstep _ _ (MkRange 0 0) dest Hi Hm) as (fs & r & Hf & Hi').
  destruct (format_uncached p msg _ _ _ _ _ Hc Hs Hf) as (p' & Hp & Hc' & Hfs & Hty & Heol).
  cbn [format_seq]. rewrite Hp. cbn [mbind option_bind].
  rewrite IH; [|done|by rewrite Hfs|by rewrite Hty].
  cbn [mbind option_bind fmap list_fmap fst snd]. rewrite Hty, Heol, <- app_assoc. done.
Qed.
End sequences.

(** ** Messages *)

(** What a message holds: a time after the epoch that fits 64 bits of nanoseconds, a 64-bit
    thread id, an [int] line. *)
Definition msg_ok (msg : log_msg) : bool :=
  ((0 <=? time msg) && (time msg <? 2 ^ 63) && (0 <=? thread_id msg) && (thread_id msg <? 2 ^ 64) &&
   (- 2 ^ 31 <=? line (source msg)) && (line (source msg) <? 2 ^ 31))%Z.

Lemma msg_ok_fields msg : msg_ok msg = true ->
  (0 <= time msg < 2 ^ 63 /\ 0 <= thread_id msg < 2 ^ 64 /\ - 2 ^ 31 <= line (source msg) < 2 ^ 31)%Z.
Proof. unfold msg_ok. intros. to_prop. lia. Qed.

Lemma seconds_div msg : msg_ok msg = true -> seconds_of (time msg) = (time msg / NS_PER_SEC)%Z.
Proof. intros Hm%msg_ok_fields. apply Z.quot_div_nonneg; [lia|done]. Qed.

Lemma seconds_nonzero calls :
  Forall (fun c : log_msg * bytes => msg_ok (fst c) = true /\ NS_PER_SEC <= time (fst c))%Z calls ->
  Forall (fun c => msg_ok (fst c) = true /\ seconds_of (time (fst c)) <> 0%Z) calls.
Proof.
  intros Hc. eapply Forall_impl; [exact Hc|]. intros [m d] [Hm Ht]. cbn [fst] in *. split; [done|].
  rewrite seconds_div by done. assert (1 <= time m / NS_PER_SEC)%Z by (apply Z.div_le_lower_bound; [done|lia]). lia.
Qed.

(** Milliseconds of a message's second. *)
Definition millis (msg : log_msg) : Z := (time msg `mod` NS_PER_SEC / MILLI)%Z.

Lemma millis_eq msg : msg_ok msg = true ->
  u32 (time_fraction MILLI (time msg)) = millis msg /\ (0 <= millis msg < 1000)%Z.
Proof.
  intros Hm. apply msg_ok_fields in Hm as (Ht & _).
  destruct (time_fraction_range MILLI (time msg)) as [He Hr]; [lia|done|by exists 1000%Z|].
  change (NS_PER_SEC / MILLI)%Z with 1000%Z in Hr. unfold millis. rewrite <- He. split; [|done].
  unfold u32, wrapu. apply Z.mod_small. change (2 ^ 32)%Z with 4294967296%Z. lia.
Qed.

(** ** The proxy's pattern *)

Definition proxy_pattern : bytes := B "[%Y-%m-%d %H:%M:%S.%e][%t][%l] %v".

Definition proxy_line (msg : log_msg) (t : tm) : bytes :=
  B "[" ++ strftime_iso t ++ B "." ++ zpad 3 (millis msg) ++ B "][" ++ dec_nat (thread_id msg) ++ B "][" ++
  to_string_view (msg_level msg) ++ B "] " ++ payload msg.

Section proxy.
  Context {Custom : Type} (custom_format : Custom -> padding_info -> log_msg -> tm -> bytes -> Custom * bytes).
  Context (localtime gmtime : Z -> tm).

  (** The flags the proxy's pattern compiles to. *)
Definition proxy_flags : list (flag_formatter Custom) :=
    let np := null_scoped_padder in
    let tmf (f : padder -> padding_info -> tm -> bytes -> option bytes) :=
      simple_formatter (fun _ t => f np no_padding t) in
    let msgf (f : padder -> padding_info -> log_msg -> bytes -> option bytes) :=
      simple_formatter (fun msg _ => f np no_padding msg) in
    [aggregate_formatter (B "["); tmf Y_format; aggregate_formatter (B "-"); tmf m_format;
     aggregate_formatter (B "-"); tmf d_format; aggregate_formatter (B " "); tmf H_format;
     aggregate_formatter (B ":"); tmf M_format; aggregate_formatter (B ":"); tmf S_format;
     aggregate_formatter (B "."); msgf e_format; aggregate_formatter (B "]["); msgf t_format;
     aggregate_formatter (B "]["); msgf level_format; aggregate_formatter (B "] "); msgf v_format].

Lemma compile_proxy_pattern pid now : compile_pattern_ ∅ pid now proxy_pattern = Some proxy_flags.
Proof. reflexivity. Qed.

Lemma proxy_flags_text msg t r dest :
  msg_ok msg = true -> tm_ok t = true ->
  format_all custom_format proxy_flags msg t r dest = Some (proxy_flags, r, dest ++ proxy_line msg t).
Proof.
  intros Hm Ht. apply tm_ok_fields in Ht. pose proof (millis_eq msg Hm) as [He Hr].
  apply msg_ok_fields in Hm as (_ & Hid & _).
  unfold proxy_flags, proxy_line, strftime_iso. cbn [format_all flag_format mbind option_bind].
  unfold Y_format, m_format, d_format, H_format, M_format, S_format, e_format, t_format, level_format,
    v_format, padded_text, field, with_padder, text. cbn [mbind option_bind].
  rewrite He. rewrite append_uint_eq, pad3_eq, append_int_eq, !pad2_eq by lia.
  unfold append_string_view. do 2 f_equal. by rewrite <- !app_assoc.
Qed.
End proxy.

(** C27: [set_pattern] with the proxy's pattern: for any sequence of messages from the
    second second of 1970 on, in any order of their times, every call appends the message's
    line to its buffer: the local calendar date and time of the message's second (never a stale
    one from the cache), the milliseconds in three digits, the thread, the level and
    the text. *)
Theorem proxy_pattern_lines {Custom} (custom_format : Custom -> padding_info -> log_msg -> tm -> bytes -> Custom * bytes)
    localtime gmtime pid now eol calls :
  (forall s, tm_ok (localtime s) = true) ->
  Forall (fun c => msg_ok (fst c) = true /\ NS_PER_SEC <= time (fst c))%Z calls ->
  exists p, mk_pattern_formatter pid now proxy_pattern local eol ∅ = Some p /\
    format_seq custom_format localtime gmtime p calls =
      Some ((fun c => snd c ++ proxy_line (fst c) (localtime (time (fst c) / NS_PER_SEC)%Z) ++ eol) <$> calls).
Proof.
  intros Hl Hc. unfold mk_pattern_formatter. rewrite compile_proxy_pattern. cbn [mbind option_bind].
  eexists. split; [done|].
  rewrite (format_seq_lines _ _ _ (fun fs => fs = proxy_flags) (fun m => msg_ok m = true) proxy_line); cycle 1.
  - by left.
  - done.
  - by apply seconds_nonzero.
  - intros fs msg r dest -> Hm. exists proxy_flags, r. split; [|done]. apply proxy_flags_text; [done|apply Hl].
  - f_equal. apply list_fmap_ext. intros i [m d] Hi. cbn [fst snd pattern_time_type_ eol_ tm_of].
    rewrite Forall_forall in Hc. apply list_elem_of_lookup_2, Hc in Hi as [Hm _]. cbn [fst] in Hm. by rewrite seconds_div.
Qed.

Definition demo_msg (ns : Z) (text : bytes) : log_msg := MkMsg (B "fc") info ns 140 (MkLoc [] 0 []) text.

Lemma proxy_pattern_lines_witness :
  exists p : pattern_formatter unit, mk_pattern_formatter 1 0 proxy_pattern local [LF] ∅ = Some p /\
    format_seq (fun c _ _ _ d => (c, d)) (fun _ => demo_tm) (fun _ => demo_tm) p
      [(demo_msg 5042000000 (B "up"), []); (demo_msg 5999000000 (B "down"), B "x")] =
    Some [B "[2024-09-04 00:08:07.042][140][info] up" ++ [LF]; B "x[2024-09-04 00:08:07.999][140][info] down" ++ [LF]].
Proof.
  apply (proxy_pattern_lines (fun c _ _ _ d => (c, d)) (fun _ => demo_tm) (fun _ => demo_tm) 1 0 [LF]
           [(demo_msg 5042000000 (B "up"), []); (demo_msg 5999000000 (B "down"), B "x")]).
  - intros _. reflexivity.
  - repeat constructor; done.
Defined.

(** ** The default pattern *)

(** [[date time.millis] [name] [level] [file:line] text], where the name and the source
    location are left out when there are none. *)
Definition default_line (msg : log_msg) (t : tm) : bytes :=
  B "[" ++ strftime_iso t ++ B "." ++ zpad 3 (millis msg) ++ B "] " ++
  (if (0 <? length (logger_name msg))%nat then B "[" ++ logger_name msg ++ B "] " else []) ++
  B "[" ++ to_string_view (msg_level msg) ++ B "] " ++
  (if source_empty (source msg) then []
   else B "[" ++ basename (filename (source msg)) ++ B ":" ++ dec (line (source msg)) ++ B "] ") ++
  payload msg.

Lemma full_datetime_eq t : tm_ok t = true -> full_datetime t = B "[" ++ strftime_iso t ++ B ".".
Proof.
  intros Ht. apply tm_ok_fields in Ht. unfold full_datetime, strftime_iso, push_back.
  rewrite append_int_eq, !pad2_eq by lia. by rewrite <- !app_assoc.
Qed.

Lemma full_datetime_nonempty t : (length (full_datetime t) =? 0)%nat = false.
Proof. apply Nat.eqb_neq. unfold full_datetime, push_back. rewrite length_app. cbn [length]. lia. Qed.

(** With [full_datetime t] in its cache after the test, [full_format] prints the line, and marks
    the level's text as the colour range. *)
Lemma full_format_line ts cached msg t dest :
  msg_ok msg = true -> tm_ok t = true ->
  (ts = seconds_of (time msg) -> cached <> [] -> cached = full_datetime t) ->
  exists r, full_format (ts, cached) msg t dest = ((seconds_of (time msg), full_datetime t), r, dest ++ default_line msg t).
Proof.
  intros Hm Ht Hcache. pose proof (millis_eq msg Hm) as [He Hr]. apply msg_ok_fields in Hm as (_ & _ & Hline).
  assert ((if negb (ts =? seconds_of (time msg))%Z || (length cached =? 0)%nat
           then (seconds_of (time msg), full_datetime t) else (ts, cached)) =
          (seconds_of (time msg), full_datetime t)) as Hst.
  { destruct (negb _ || _) eqn:Htest; [done|]. to_prop. subst ts.
    rewrite <- Hcache; [done|done|]. intros ->. done. }
  eexists. unfold full_format. rewrite Hst. cbn [snd]. f_equal.
  rewrite He, pad3_eq, full_datetime_eq by done. unfold default_line, append_string_view, push_back.
  destruct (0 <? length (logger_name msg))%nat; destruct (source_empty (source msg));
    rewrite ?append_int_eq by lia; by rewrite <- !app_assoc.
Qed.

Section default_pattern.
  Context {Custom : Type} (custom_format : Custom -> padding_info -> log_msg -> tm -> bytes -> Custom * bytes).
  Context (localtime gmtime : Z -> tm).

Definition full_inv (ty : pattern_time_type) (fs : list (flag_formatter Custom)) : Prop :=
    exists p ts cached, fs = [full_formatter p ts cached] /\
      (cached = [] \/ forall msg, seconds_of (time msg) = ts -> cached = full_datetime (tm_of localtime gmtime ty msg)).

Lemma full_inv_step ty fs msg r dest :
  full_inv ty fs -> msg_ok msg = true -> tm_ok (tm_of localtime gmtime ty msg) = true ->
  exists fs' r', format_all custom_format fs msg (tm_of localtime gmtime ty msg) r dest =
    Some (fs', r', dest ++ default_line msg (tm_of localtime gmtime ty msg)) /\ full_inv ty fs'.
Proof.
  intros (p & ts & cached & -> & Hc) Hm Ht.
  destruct (full_format_line ts cached msg (tm_of localtime gmtime ty msg) dest Hm Ht) as (r' & Hf).
  { intros -> Hne. destruct Hc as [->|Hc]; [done|]. by apply Hc. }
  cbn [format_all flag_format]. rewrite Hf. cbn [mbind option_bind].
  eexists _, r'. split; [done|]. eexists p, _, _. split; [done|]. right.
  intros m Hs. unfold tm_of. by rewrite Hs.
Qed.
End default_pattern.

(** The formatter every sink starts with, over any sequence of messages after the first
    second of the epoch in any order: with its two caches (the calendar time and the text of the
    date) every call appends the line of its own message. *)
Theorem default_pattern_lines {Custom} (custom_format : Custom -> padding_info -> log_msg -> tm -> bytes -> Custom * bytes)
    localtime gmtime ty eol calls :
  (forall s, tm_ok (localtime s) = true) -> (forall s, tm_ok (gmtime s) = true) ->
  Forall (fun c => msg_ok (fst c) = true /\ NS_PER_SEC <= time (fst c))%Z calls ->
  format_seq custom_format localtime gmtime (mk_default_formatter ty eol) calls =
    Some ((fun c => snd c ++ default_line (fst c) (tm_of localtime gmtime ty (fst c)) ++ eol) <$> calls).
Proof.
  intros Hl Hg Hc.
  rewrite (format_seq_lines _ _ _ (full_inv localtime gmtime ty) (fun m => msg_ok m = true) default_line); cycle 1.
  - by left.
  - eexists no_padding, 0%Z, []. split; [done|by left].
  - by apply seconds_nonzero.
  - intros fs msg r dest Hi Hm. apply full_inv_step; [done|done|]. cbn [pattern_time_type_ mk_default_formatter].
    destruct ty; [apply Hl|apply Hg].
  - done.
Qed.

Lemma default_pattern_lines_witness :
  format_seq (fun (c : unit) _ _ _ d => (c, d)) (fun _ => demo_tm) (fun _ => demo_tm) (mk_default_formatter local [LF])
      [(demo_msg 5042000000 (B "up"), []); (MkMsg [] err 7000000000 1 (MkLoc (B "a/b.c") 12 []) (B "down"), [])] =
    Some [B "[2024-09-04 00:08:07.042] [fc] [info] up" ++ [LF]; B "[2024-09-04 00:08:07.000] [error] [b.c:12] down" ++ [LF]].
Proof.
  apply (default_pattern_lines (fun c _ _ _ d => (c, d)) (fun _ => demo_tm) (fun _ => demo_tm) local [LF]
           [(demo_msg 5042000000 (B "up"), []); (MkMsg [] err 7000000000 1 (MkLoc (B "a/b.c") 12 []) (B "down"), [])]).
  - intros _. reflexivity.
  - intros _. reflexivity.
  - repeat constructor; done.
Defined.

(** ** Patterns without truncation *)

(** A body that only appends. *)
Definition appends (f : bytes -> option bytes) : Prop := forall dest, exists out, f dest = Some (dest ++ out).
Definition appends' (f : bytes -> bytes) : Prop := forall dest, exists out, f dest = dest ++ out.

Create HintDb append.

Lemma appends_pure f : appends' f -> appends (fun dest => Some (f dest)).
Proof. intros Hf dest. destruct (Hf dest) as [out ->]. by eexists. Qed.

Lemma appends'_comp f g : appends' f -> appends' g -> appends' (fun dest => f (g dest)).
Proof.
  intros Hf Hg dest. destruct (Hg dest) as [out ->]. destruct (Hf (dest ++ out)) as [out' ->].
  eexists. by rewrite <- app_assoc.
Qed.

Lemma appends_text s : appends (text s).
Proof. intros dest. by eexists. Qed.

Lemma appends'_view s : appends' (append_string_view s).
Proof. intros dest. by eexists. Qed.

Lemma appends'_push c : appends' (push_back c).
Proof. intros dest. by eexists. Qed.

Lemma appends'_uint n : appends' (append_uint n).
Proof. intros dest. by eexists. Qed.

Lemma appends'_int w n : appends' (append_int w n).
Proof. intros dest. by eexists. Qed.

Lemma appends'_id : appends' (fun dest => dest).
Proof. intros dest. exists []. by rewrite app_nil_r. Qed.

Lemma appends'_pad2 n : appends' (pad2 n).
Proof. intros dest. unfold pad2. case_match; by eexists. Qed.

Lemma appends'_zeros fuel d w : appends' (push_zeros fuel d w).
Proof.
  revert d. induction fuel as [|fuel IH]; intros d dest; cbn [push_zeros]; [apply appends'_id|].
  case_match; [|apply appends'_id]. destruct (IH (d + 1)%Z (dest ++ ["0"%char])) as [out ->].
  eexists. by rewrite <- app_assoc.
Qed.

Lemma appends'_pad_uint n w : appends' (pad_uint n w).
Proof. apply (appends'_comp (append_uint n)); [apply appends'_uint|apply appends'_zeros]. Qed.

Lemma appends'_pad3 n : appends' (pad3 n).
Proof.
  intros dest. unfold pad3. case_match; [|apply appends'_uint]. eexists. by rewrite <- app_assoc.
Qed.

#[export] Hint Resolve appends_pure appends_text appends'_view appends'_push appends'_uint appends'_int
  appends'_id appends'_pad2 appends'_zeros appends'_pad_uint appends'_pad3 : append.

(** A padding a pattern without an exclamation mark can ask for. *)
Definition pad_safe (p : padding_info) : Prop := (0 <= width_ p <= 64)%Z /\ truncate_ p = false.

Lemma pad_it_appends n : (n <= 64)%Z -> appends (pad_it n).
Proof. intros Hn dest. rewrite pad_it_ok by done. by eexists. Qed.

Lemma with_padder_appends sp n p body :
  pad_safe p -> (0 <= n)%Z -> appends body -> appends (with_padder sp n p body).
Proof.
  intros [Hw Ht] Hn Hb dest. destruct sp; [|apply Hb]. unfold with_padder.
  assert (exists rem out, padder_ctor n p dest = Some (rem, dest ++ out) /\ (rem <= 64)%Z) as (rem & out & -> & Hrem).
  { unfold padder_ctor. destruct (_ <=? 0)%Z eqn:H0; to_prop; [exists (width_ p - n)%Z, []; rewrite app_nil_r; split; [done|lia]|].
    destruct (side_ p); rewrite ?Z.quot_div_nonneg by lia.
    - rewrite pad_it_ok by (unfold spaces_size; lia). eexists _, _. split; [done|lia].
    - exists (width_ p - n)%Z, []. rewrite app_nil_r. split; [done|lia].
    - assert ((width_ p - n) / 2 <= width_ p - n)%Z by (apply Z.div_le_upper_bound; lia).
      rewrite pad_it_ok by (unfold spaces_size; lia). eexists _, _. split; [done|].
      rewrite land_one. pose proof (Z.div_mod (width_ p - n) 2 ltac:(lia)).
      pose proof (Z.div_pos (width_ p - n) 2 ltac:(lia) ltac:(lia)). lia. }
  cbn [mbind option_bind]. destruct (Hb (dest ++ out)) as [out' ->]. cbn [mbind option_bind].
  unfold padder_dtor. rewrite Ht. case_match.
  - destruct (pad_it_appends rem Hrem ((dest ++ out) ++ out')) as [o ->]. eexists. by rewrite <- !app_assoc.
  - eexists. by rewrite <- app_assoc.
Qed.

Lemma sp_count_digits_nonneg sp n : (0 <= n < 2 ^ 64)%Z -> (0 <= sp_count_digits sp n)%Z.
Proof. intros Hn. destruct sp; cbn [sp_count_digits]; [|done]. rewrite count_digits_length by done. lia. Qed.

Lemma sp_count_digits32_nonneg sp n : (0 <= sp_count_digits32 sp n)%Z.
Proof.
  destruct sp; cbn [sp_count_digits32]; [|done].
  assert (0 <= u32 n < 2 ^ 32)%Z by (apply Z.mod_pos_bound; done).
  rewrite count_digits32_eq, count_digits_length by lia. lia.
Qed.

Lemma u64_range n : (0 <= u64 n < 2 ^ 64)%Z.
Proof. by apply Z.mod_pos_bound. Qed.

Lemma text_size_nonneg p s : (0 <= text_size p s)%Z.
Proof. unfold text_size. case_match; lia. Qed.

Lemma with_source_appends msg f : appends f -> appends (with_source msg f).
Proof. intros Hf dest. unfold with_source. case_match; [exists []; by rewrite app_nil_r|apply Hf]. Qed.

Lemma name_at_total names i : (0 <= i < Z.of_nat (length names))%Z -> exists s, name_at names i = Some s.
Proof.
  intros Hi. unfold name_at. rewrite (proj2 (Z.ltb_ge i 0)) by lia. apply lookup_lt_is_Some_2. lia.
Qed.

Lemma padded_text_appends sp p s : pad_safe p -> appends (padded_text sp p s).
Proof. intros Hp. apply with_padder_appends; [done|lia|auto with append]. Qed.

Lemma named_appends sp p names i :
  pad_safe p -> (0 <= i < Z.of_nat (length names))%Z ->
  appends (fun dest => s ← name_at names i; padded_text sp p s dest).
Proof.
  intros Hp Hi. destruct (name_at_total names i Hi) as [s Hs]. intros dest. rewrite Hs. cbn [mbind option_bind].
  by apply padded_text_appends.
Qed.

Lemma field_appends sp p n f : pad_safe p -> (0 <= n)%Z -> appends' f -> appends (field sp p n f).
Proof. intros Hp Hn Hf. apply with_padder_appends; auto with append. Qed.

(** A body that is a chain of appending calls. *)
Ltac appends_chain :=
  cbv zeta;
  lazymatch goal with
  | |- appends' (fun d => ?f (@?g d)) => apply (appends'_comp f g); [solve [auto with append]|appends_chain]
  | |- _ => solve [auto with append]
  end.

Section flags.
  Context (sp : padder) (p : padding_info) (Hp : pad_safe p).

Lemma c_format_appends t : tm_ok t = true -> appends (c_format sp p t).
Proof.
  intros Ht%tm_ok_fields. apply with_padder_appends; [done|done|]. intros dest.
  destruct (name_at_total days (tm_wday t)) as [d ->]; [cbn; lia|].
  destruct (name_at_total months (tm_mon t)) as [m ->]; [cbn; lia|]. cbn [mbind option_bind].
  revert dest. apply appends_pure. appends_chain.
Qed.

Lemma tm_format_appends t : tm_ok t = true ->
  Forall (fun f => appends (f sp p t))
    [a_format; A_format; b_format; B_format; c_format; C_format; Y_format; D_format; m_format; d_format;
     H_format; I_format; M_format; S_format; p_format; r_format; R_format; T_format].
Proof.
  intros Ht. pose proof (tm_ok_fields t Ht).
  repeat apply Forall_cons_2; try apply Forall_nil_2; try (apply c_format_appends; assumption).
  1-4: apply named_appends; [done|cbn; lia].
  all: apply field_appends; [done|done|appends_chain].
Qed.

Lemma pid_format_appends pid : appends (pid_format sp p pid).
Proof. apply field_appends; [done|apply sp_count_digits32_nonneg|auto with append]. Qed.

Lemma msg_format_appends msg : msg_ok msg = true ->
  Forall (fun f => appends (f sp p msg))
    [name_format; level_format; short_level_format; e_format; f_format; F_format; E_format; t_format; v_format;
     source_location_format; source_filename_format; short_filename_format; source_linenum_format;
     source_funcname_format].
Proof.
  intros Hm. pose proof (msg_ok_fields msg Hm).
  repeat apply Forall_cons_2; try apply Forall_nil_2.
  - by apply padded_text_appends.
  - by apply padded_text_appends.
  - by apply padded_text_appends.
  - apply field_appends; [done|done|auto with append].
  - apply field_appends; [done|done|apply appends'_pad_uint].
  - apply field_appends; [done|done|apply appends'_pad_uint].
  - apply field_appends; [done|done|auto with append].
  - apply field_appends; [done|apply sp_count_digits_nonneg; tauto|auto with append].
  - by apply padded_text_appends.
  - apply with_source_appends, field_appends; [done| |appends_chain].
    case_match; [|done]. pose proof (sp_count_digits32_nonneg sp (line (source msg))). lia.
  - apply with_source_appends, with_padder_appends; [done|apply text_size_nonneg|auto with append].
  - apply with_source_appends, with_padder_appends; [done|apply text_size_nonneg|auto with append].
  - apply with_source_appends, field_appends; [done|apply sp_count_digits32_nonneg|auto with append].
  - apply with_source_appends, with_padder_appends; [done|apply text_size_nonneg|auto with append].
Qed.

Lemma z_format_appends st msg t : exists st', forall dest, exists out, z_format sp p st msg t dest = Some (st', dest ++ out).
Proof.
  eexists. intros dest. unfold z_format. set (st' := get_cached_offset _ _ _ _).
  match goal with |- context [field sp p 6 ?b dest] =>
    destruct (field_appends sp p 6 b) with (dest := dest) as [out ->]; [done|done|appends_chain|] end.
  cbn [mbind option_bind]. by eexists.
Qed.

Lemma elapsed_format_appends unit last msg dest :
  exists out, elapsed_format sp unit p last msg dest = Some (time msg, dest ++ out).
Proof.
  unfold elapsed_format. set (n := u64 _).
  destruct (field_appends sp p (sp_count_digits sp n) (append_uint n)) with (dest := dest) as [out ->];
    [done|apply sp_count_digits_nonneg, u64_range|auto with append|]. cbn [mbind option_bind]. by eexists.
Qed.
End flags.

Lemma full_format_appends st msg t dest : exists st' r' out, full_format st msg t dest = (st', r', dest ++ out).
Proof.
  destruct st as [ts cached]. unfold full_format.
  unfold append_string_view, push_back, pad3, append_uint, append_int.
  case_match; case_match; case_match; case_match; eexists _, _, _; f_equal;
    rewrite <- !app_assoc; reflexivity.
Qed.

Section safe.
  Context {Custom : Type} (custom_format : Custom -> padding_info -> log_msg -> tm -> bytes -> Custom * bytes).
  Context (localtime gmtime : Z -> tm).

  (** A flag formatter that, on every message and in every state, only appends. *)
Definition flag_safe (f : flag_formatter Custom) : Prop :=
    match f with
    | simple_formatter g => forall msg t, msg_ok msg = true -> tm_ok t = true -> appends (g msg t)
    | z_formatter _ p _ _ | elapsed_formatter _ _ p _ => pad_safe p
    | custom_formatter _ _ => False
    | _ => True
    end.

Lemma flag_safe_step f msg t r dest :
  flag_safe f -> msg_ok msg = true -> tm_ok t = true ->
  exists f' r' out, flag_format custom_format f msg t r dest = Some (f', r', dest ++ out) /\ flag_safe f'.
Proof.
  intros Hf Hm Ht. destruct f as [g|sp p l o|sp u p l|p ts cached|ch|str| | |c p]; cbn [flag_format flag_safe] in *.
  - destruct (Hf msg t Hm Ht dest) as [out ->]. cbn [mbind option_bind]. by eexists _, _, _.
  - destruct (z_format_appends sp p Hf (l, o) msg t) as [[l' o'] Hz]. destruct (Hz dest) as [out ->].
    cbn [mbind option_bind]. by eexists _, _, _.
  - destruct (elapsed_format_appends sp p Hf u l msg dest) as [out ->]. cbn [mbind option_bind]. by eexists _, _, _.
  - destruct (full_format_appends (ts, cached) msg t dest) as ([ts' cached'] & r' & out & ->). by eexists _, _, _.
  - by eexists _, _, _.
  - by eexists _, _, _.
  - eexists _, _, []. split; [by rewrite app_nil_r|done].
  - eexists _, _, []. split; [by rewrite app_nil_r|done].
  - done.
Qed.

Lemma format_all_safe fs msg t r dest :
  Forall flag_safe fs -> msg_ok msg = true -> tm_ok t = true ->
  exists fs' r' out, format_all custom_format fs msg t r dest = Some (fs', r', dest ++ out) /\ Forall flag_safe fs'.
Proof.
  intros Hfs Hm Ht. revert r dest. induction Hfs as [|f fs Hf _ IH]; intros r dest; cbn [format_all].
  - eexists _, _, []. by rewrite app_nil_r.
  - destruct (flag_safe_step f msg t r dest Hf Hm Ht) as (f' & r' & out & -> & Hf'). cbn [mbind option_bind].
    destruct (IH r' (dest ++ out)) as (fs' & r'' & out' & -> & Hfs'). cbn [mbind option_bind].
    eexists _, _, _. rewrite <- app_assoc. split; [done|by constructor].
Qed.

  (** The flag classes, by membership in the lists of the two lemmas above. *)
Lemma tm_flag_safe sp p f :
  pad_safe p ->
  f ∈ [a_format; A_format; b_format; B_format; c_format; C_format; Y_format; D_format; m_format; d_format;
       H_format; I_format; M_format; S_format; p_format; r_format; R_format; T_format] ->
  flag_safe (simple_formatter (fun _ t => f sp p t)).
Proof.
  intros Hp Hf msg t _ Ht. pose proof (tm_format_appends sp p Hp t Ht) as Hall.
  rewrite Forall_forall in Hall. exact (Hall f Hf).
Qed.

Lemma msg_flag_safe sp p f :
  pad_safe p ->
  f ∈ [name_format; level_format; short_level_format; e_format; f_format; F_format; E_format; t_format; v_format;
       source_location_format; source_filename_format; short_filename_format; source_linenum_format;
       source_funcname_format] ->
  flag_safe (simple_formatter (fun msg _ => f sp p msg)).
Proof.
  intros Hp Hf msg t Hm _. pose proof (msg_format_appends sp p Hp msg Hm) as Hall.
  rewrite Forall_forall in Hall. exact (Hall f Hf).
Qed.

Lemma handle_flag_safe pid now sp flag p : pad_safe p -> Forall flag_safe (handle_flag_ ∅ pid now sp flag p).
Proof.
  clear custom_format localtime gmtime. intros Hp. unfold handle_flag_. change ((∅ : custom_flags Custom) !! flag) with ((∅ : gmap ascii Custom) !! flag). rewrite lookup_empty. destruct Hp as [Hw Ht]. rewrite Ht. cbn [negb].
  destruct flag as [[] [] [] [] [] [] [] []]; (apply Forall_cons_2; [|apply Forall_nil_2]);
    solve [exact I | by split | apply tm_flag_safe; [by split|repeat constructor] | apply msg_flag_safe; [by split|repeat constructor]
          | intros msg t _ _; apply pid_format_appends; by split].
Qed.

  (** Compiling a pattern. *)
Definition no_bang (c : ascii) : Prop := (c =c "!"%char) = false.

Lemma read_width_spec w s :
  (0 <= w)%Z ->
  (0 <= fst (read_width w s))%Z /\ length (snd (read_width w s)) <= length s /\
  (Forall no_bang s -> Forall no_bang (snd (read_width w s))).
Proof.
  revert w. induction s as [|c s IH]; intros w Hw; cbn [read_width]; [done|].
  destruct (isdigit c); [|done]. destruct (IH (u64 (w * 10 + digit_val c))) as (H1 & H2 & H3); [apply u64_range|].
  split_and!; [done|cbn [length]; lia|]. intros [_ Hs]%Forall_cons. auto.
Qed.

  (** After the side: the width, the exclamation mark and the flag. *)
Lemma handle_padspec_spec s :
  length (snd (handle_padspec_ s)) <= length s /\
  (Forall no_bang s -> pad_safe (fst (handle_padspec_ s)) /\ Forall no_bang (snd (handle_padspec_ s))).
Proof.
  assert (pad_safe no_padding) as Hn by done.
  destruct s as [|c s]; cbn [handle_padspec_]; [done|].
  set (st := if c =c "-"%char then _ else _).
  assert (length (snd st) <= length (c :: s) /\ (Forall no_bang (c :: s) -> Forall no_bang (snd st))) as [Hl Hb].
  { unfold st. case_match; [|case_match]; cbn [snd length]; (split; [lia|]); rewrite ?Forall_cons; tauto. }
  destruct st as [side s1]. cbn [snd] in Hl, Hb.
  destruct s1 as [|d s2]; [split; [cbn; lia|done]|].
  destruct (isdigit d) eqn:Hd; [|split; [exact Hl|auto]].
  destruct (read_width_spec (digit_val d) s2) as (Hw & Hl2 & Hb2); [pose proof (isdigit_range d Hd); lia|].
  destruct (read_width (digit_val d) s2) as [w s3]. cbn [fst snd] in *. cbn [length] in Hl |- *.
  destruct s3 as [|e s3].
  - cbn [fst snd length]. split; [lia|]. intros _. split; [|done].
    split; [|done]. cbn [width_ mk_padding]. unfold max_width. lia.
  - destruct (e =c "!"%char) eqn:He; cbn [fst snd length] in *.
    + split; [lia|]. intros Hs. apply Hb, Forall_cons in Hs as [_ Hs]. apply Hb2, Forall_cons in Hs as [Hs _].
      unfold no_bang in Hs. congruence.
    + split; [lia|]. intros Hs. apply Hb, Forall_cons in Hs as [_ Hs]. split; [|by apply Hb2].
      split; [|done]. cbn [width_ mk_padding]. unfold max_width. lia.
Qed.

Lemma compile_loop_total fuel (custom : custom_flags Custom) pid now s uc fs :
  length s < fuel -> exists fs', compile_loop fuel custom pid now s uc fs = Some fs'.
Proof.
  revert s uc fs. induction fuel as [|fuel IH]; intros s uc fs Hf; [lia|]. cbn [compile_loop].
  destruct s as [|c s]; [by eexists|]. cbn [length] in Hf. case_match; [|apply IH; lia].
  destruct (handle_padspec_spec s) as [Hl _]. destruct (handle_padspec_ s) as [p s']. cbn [snd] in Hl.
  destruct s' as [|flag s']; [by eexists|]. cbn [length] in Hl. apply IH. lia.
Qed.

Lemma compile_loop_safe fuel pid now s uc fs :
  length s < fuel -> Forall no_bang s -> Forall flag_safe fs ->
  exists fs', compile_loop fuel ∅ pid now s uc fs = Some fs' /\ Forall flag_safe fs'.
Proof.
  revert s uc fs. induction fuel as [|fuel IH]; intros s uc fs Hf Hs Hfs; [lia|]. cbn [compile_loop].
  assert (Forall flag_safe (fs ++ flush uc)) as Hfl.
  { apply Forall_app. split; [done|]. destruct uc; cbn [flush]; [by apply Forall_singleton|done]. }
  destruct s as [|c s]; [by eexists|]. apply Forall_cons in Hs as [_ Hs]. cbn [length] in Hf.
  case_match; [|apply IH; [lia|done|done]].
  destruct (handle_padspec_spec s) as [Hl Hp]. destruct (Hp Hs) as [Hps Hs'].
  destruct (handle_padspec_ s) as [p s']. cbn [fst snd] in *.
  destruct s' as [|flag s']; [by eexists|]. apply Forall_cons in Hs' as [_ Hs']. cbn [length] in Hl.
  apply IH; [lia|done|]. apply Forall_app. split; [done|by apply handle_flag_safe].
Qed.

Lemma format_seq_safe p calls :
  (forall s, tm_ok (localtime s) = true) -> (forall s, tm_ok (gmtime s) = true) ->
  cache_ok localtime gmtime p -> Forall flag_safe (formatters_ p) ->
  Forall (fun c => msg_ok (fst c) = true /\ seconds_of (time (fst c)) <> 0%Z) calls ->
  exists outs, format_seq custom_format localtime gmtime p calls = Some outs /\
    Forall2 (fun c out => exists text, out = snd c ++ text ++ eol_ p) calls outs.
Proof.
  intros Hl Hg Hc Hfs Hcalls. revert p Hc Hfs.
  induction Hcalls as [|[msg dest] calls [Hm Hs] _ IH]; intros p Hc Hfs; [by eexists|]. cbn [fst] in Hm, Hs.
  assert (tm_ok (tm_of localtime gmtime (pattern_time_type_ p) msg) = true) as Ht.
  { unfold tm_of. destruct (pattern_time_type_ p); auto. }
  destruct (format_all_safe (formatters_ p) msg _ (MkRange 0 0) dest Hfs Hm Ht) as (fs & r & out & Hf & Hfs').
  destruct (format_uncached custom_format localtime gmtime p msg _ _ _ _ _ Hc Hs Hf) as (p' & Hp & Hc' & Hp'fs & Hty & Heol).
  cbn [format_seq]. rewrite Hp. cbn [mbind option_bind].
  destruct (IH p' Hc') as (outs & -> & Houts); [by rewrite Hp'fs|].
  rewrite Heol in Houts. cbn [mbind option_bind]. eexists. split; [done|]. constructor; [|done].
  exists out. cbn [snd]. by rewrite app_assoc.
Qed.
End safe.

(** Compiling any pattern ends with a formatter, whatever the custom flags; and for a
    pattern without an exclamation mark (no truncation, no function name) and without
    custom flags, whatever its flags, widths and sides, every call of a sequence after the first
    second succeeds: it only appends to its buffer, ending in the end of line. *)
Theorem pattern_total {Custom} (custom_format : Custom -> padding_info -> log_msg -> tm -> bytes -> Custom * bytes)
    localtime gmtime pid now pattern ty eol :
  (forall custom, is_Some (mk_pattern_formatter (Custom := Custom) pid now pattern ty eol custom)) /\
  ((forall s, tm_ok (localtime s) = true) -> (forall s, tm_ok (gmtime s) = true) -> Forall no_bang pattern ->
   exists p, mk_pattern_formatter pid now pattern ty eol ∅ = Some p /\
     forall calls, Forall (fun c => msg_ok (fst c) = true /\ NS_PER_SEC <= time (fst c))%Z calls ->
       exists outs, format_seq custom_format localtime gmtime p calls = Some outs /\
         Forall2 (fun c out => exists text, out = snd c ++ text ++ eol) calls outs).
Proof.
  unfold mk_pattern_formatter, compile_pattern_. split.
  - intros custom. destruct (compile_loop_total (S (length pattern)) custom pid now pattern None []) as [fs ->]; [lia|].
    by eexists.
  - intros Hl Hg Hb. destruct (compile_loop_safe (Custom := Custom) (S (length pattern)) pid now pattern None [])
      as (fs & -> & Hfs); [lia|done|done|].
    cbn [mbind option_bind]. eexists. split; [done|]. intros calls Hc.
    apply (format_seq_safe custom_format localtime gmtime (MkPattern pattern eol ty zero_tm 0 fs ∅)); try done; [by left|].
    by apply seconds_nonzero.
Qed.

Lemma pattern_total_witness :
  exists p : pattern_formatter unit, mk_pattern_formatter 1 0 (B "%-9n|%=70D %+") utc [LF] ∅ = Some p /\
     forall calls, Forall (fun c => msg_ok (fst c) = true /\ NS_PER_SEC <= time (fst c))%Z calls ->
       exists outs, format_seq (fun c _ _ _ d => (c, d)) (fun _ => demo_tm) (fun _ => demo_tm) p calls = Some outs /\
         Forall2 (fun c out => exists text, out = snd c ++ text ++ [LF]) calls outs.
Proof.
  apply (proj2 (pattern_total (Custom := unit) (fun c _ _ _ d => (c, d)) (fun _ => demo_tm) (fun _ => demo_tm) 1 0
    (B "%-9n|%=70D %+") utc [LF])).
  - intros _. reflexivity.
  - intros _. reflexivity.
  - repeat constructor.
Defined.
