(* ===== verification/Files.v ===== *)
(** * Files: [spdlog/details/os-inl.h], [spdlog/details/file_helper-inl.h]

    What the sinks use of the operating system, on a file system given by its regular files and
    its directories, and [file_helper], the open log file with its retries.  The calls of the C
    library the program tests for failure ([fopen], [mkdir], [remove], [rename], [fwrite]) take
    the next answer of a list of faults; without faults they do what POSIX says.  Renaming a
    directory and the case of another process that moves an open file are left out. *)
From S2P Require Import Prelude CLib.

(** ** Outcomes: a value, a [spdlog_ex], or undefined behaviour; the state is kept in each case *)

Inductive outcome (A : Type) := Ok (a : A) | Throw (what : bytes) | Undef.
Arguments Ok {A} a.
Arguments Throw {A} what.
Arguments Undef {A}.

(** ** The file system *)

Definition is_sep (c : ascii) : bool := c =c "/"%char.

(** A name: whether it is absolute, and its components; empty components do not count. *)
Abbreviation path := (bool * list bytes)%type.
Definition resolve (name : bytes) : path :=
  (match name with c :: _ => is_sep c | [] => false end,
   filter (fun w => negb (w =s [])) (split_on is_sep name)).

Definition parent (p : path) : path := (fst p, removelast (snd p)).

Record world := MkWorld { files_ : gmap path bytes; dirs : gset path; faults : list bool }.

(** Whether the next call fails, and the world after it was asked. *)
Definition next_fault (w : world) : bool * world :=
  match faults w with
  | [] => (false, w)
  | b :: bs => (b, MkWorld (files_ w) (dirs w) bs)
  end.

Definition set_file (p : path) (s : bytes) (w : world) : world :=
  MkWorld (<[p := s]> (files_ w)) (dirs w) (faults w).
Definition del_file (p : path) (w : world) : world :=
  MkWorld (delete p (files_ w)) (dirs w) (faults w).
Definition add_dir (p : path) (w : world) : world :=
  MkWorld (files_ w) ({[p]} ∪ dirs w) (faults w).

(** The root and the working directory have no components. *)
Definition is_dir (p : path) (w : world) : bool :=
  match snd p with [] => true | _ => bool_decide (p ∈ dirs w) end.
Definition is_file (p : path) (w : world) : bool := bool_decide (is_Some (files_ w !! p)).

(** ** [os]: the functions of [os-inl.h] on a POSIX system *)

Definition path_exists (name : bytes) (w : world) : bool :=
  match name with [] => false | _ => is_dir (resolve name) w || is_file (resolve name) w end.

(** Whether a file of that name can be opened for writing. *)
Definition openable (name : bytes) (w : world) : bool :=
  match last name with
  | None => false
  | Some c => negb (is_sep c) && is_dir (parent (resolve name)) w && negb (is_dir (resolve name) w)
  end.

(** A [FILE *]: its file and what is written but not flushed. *)
Record FILE := MkFILE { f_path : path; f_buf : bytes }.

Definition contents (p : path) (w : world) : bytes := default [] (files_ w !! p).

(** [fopen_s] with the mode to append ("ab") or to truncate ("wb"): the file when it succeeds
    (the function itself returns whether it failed). *)
Definition fopen_s (name : bytes) (truncate : bool) (w : world) : option FILE * world :=
  let '(bad, w) := next_fault w in
  if bad || negb (openable name w) then (None, w)
  else
    let p := resolve name in
    (Some (MkFILE p []), set_file p (if truncate then [] else contents p w) w).

Definition fflush (f : FILE) (w : world) : FILE * world :=
  (MkFILE (f_path f) [], set_file (f_path f) (contents (f_path f) w ++ f_buf f) w).
Definition fclose (f : FILE) (w : world) : world := snd (fflush f w).

(** Whether everything was written; a failing call writes nothing. *)
Definition fwrite (data : bytes) (f : FILE) (w : world) : bool * FILE * world :=
  match data with
  | [] => (true, f, w)
  | _ =>
      let '(bad, w) := next_fault w in
      if bad then (false, f, w) else (true, MkFILE (f_path f) (f_buf f ++ data), w)
  end.

(** [remove] and [rename] return whether they succeeded; a directory is removed when nothing
    is in it. *)
Definition has_children (p : path) (w : world) : bool :=
  existsb (fun q => bool_decide (parent q = p /\ snd q <> [])) (elements (dirs w) ++ (map_to_list (files_ w)).*1).

Definition remove (name : bytes) (w : world) : bool * world :=
  let '(bad, w) := next_fault w in
  let p := resolve name in
  if bad then (false, w)
  else if is_file p w then (true, del_file p w)
  else if bool_decide (p ∈ dirs w) && negb (has_children p w) then
    (true, MkWorld (files_ w) (dirs w ∖ {[p]}) (faults w))
  else (false, w).

Definition rename (from to : bytes) (w : world) : bool * world :=
  let '(bad, w) := next_fault w in
  match files_ w !! resolve from with
  | Some s =>
      if bad || negb (openable to w) then (false, w)
      else (true, set_file (resolve to) s (del_file (resolve from) w))
  | None => (false, w)
  end.

(** [os::remove_if_exists]. *)
Definition remove_if_exists (name : bytes) (w : world) : bool * world :=
  if path_exists name w then remove name w else (true, w).

(** [os::filesize] of an open file: what was flushed. *)
Definition filesize (f : FILE) (w : world) : Z := Z.of_nat (length (contents (f_path f) w)).

Definition mkdir_ (name : bytes) (w : world) : bool * world :=
  let '(bad, w) := next_fault w in
  let p := resolve name in
  if bad || path_exists name w || negb (is_dir (parent p) w) then (false, w) else (true, add_dir p w).

(** [create_dir]: every round of the loop moves [search_offset] forward. *)
Fixpoint create_dir_loop (fuel : nat) (pth : bytes) (search_offset : nat) (w : world) : option (bool * world) :=
  match fuel with
  | 0 => None
  | S fuel =>
      let token_pos := match find_from is_sep pth search_offset with Some i => i | None => length pth end in
      let subdir := substr pth 0 (Some token_pos) in
      let '(ok, w) :=
        if negb (subdir =s []) && negb (path_exists subdir w) then mkdir_ subdir w else (true, w) in
      if negb ok then Some (false, w)
      else
        let search_offset := token_pos + 1 in
        if (search_offset <? length pth)%nat then create_dir_loop fuel pth search_offset w else Some (true, w)
  end.

Definition create_dir (pth : bytes) (w : world) : option (bool * world) :=
  if path_exists pth w then Some (true, w)
  else match pth with
       | [] => Some (false, w)
       | _ => create_dir_loop (S (length pth)) pth 0 w
       end.

Definition dir_name (pth : bytes) : bytes :=
  match rfind_if is_sep pth with Some pos => substr pth 0 (Some pos) | None => [] end.

(** ** [file_helper] *)

Record file_helper := MkHelper { fd_ : option FILE; filename_ : bytes }.

Definition new_helper : file_helper := MkHelper None [].
Definition open_tries_ : nat := 5.

Abbreviation helper_st := (file_helper * world)%type.

Definition close (st : helper_st) : helper_st :=
  let '(h, w) := st in
  match fd_ h with
  | Some f => (MkHelper None (filename_ h), fclose f w)
  | None => (h, w)
  end.

(** One call of [create_dir] whose result is not looked at. *)
Definition ensure_dir (fname : bytes) (w : world) : world :=
  match create_dir (dir_name fname) w with Some (_, w) => w | None => w end.

Fixpoint open_loop (tries : nat) (fname : bytes) (truncate : bool) (h : file_helper) (w : world)
    : outcome unit * helper_st :=
  match tries with
  | 0 => (Throw (B "Failed opening file " ++ filename_ h ++ B " for writing"), (h, w))
  | S tries =>
      let w := ensure_dir fname w in
      let '(skip, w) :=
        if truncate then
          match fopen_s fname true w with
          | (None, w) => (true, w)
          | (Some tmp, w) => (false, fclose tmp w)
          end
        else (false, w) in
      if skip then open_loop tries fname truncate h w
      else
        match fopen_s fname false w with
        | (Some f, w) => (Ok tt, (MkHelper (Some f) (filename_ h), w))
        | (None, w) => open_loop tries fname truncate h w
        end
  end.

Definition open (fname : bytes) (truncate : bool) (st : helper_st) : outcome unit * helper_st :=
  let '(h, w) := close st in
  open_loop open_tries_ fname truncate (MkHelper (fd_ h) fname) w.

Definition reopen (truncate : bool) (st : helper_st) : outcome unit * helper_st :=
  if filename_ (fst st) =s [] then (Throw (B "Failed re opening file - was not opened before"), st)
  else open (filename_ (fst st)) truncate st.

(** Flushing a null [FILE *] flushes every stream, which changes nothing here. *)
Definition flush (st : helper_st) : helper_st :=
  let '(h, w) := st in
  match fd_ h with
  | Some f => let '(f, w) := fflush f w in (MkHelper (Some f) (filename_ h), w)
  | None => (h, w)
  end.

(** [fwrite] on a null [FILE *] is undefined. *)
Definition write (buf : bytes) (st : helper_st) : outcome unit * helper_st :=
  let '(h, w) := st in
  match fd_ h with
  | None => (Undef, st)
  | Some f =>
      let '(ok, f, w) := fwrite buf f w in
      let st := (MkHelper (Some f) (filename_ h), w) in
      if ok then (Ok tt, st) else (Throw (B "Failed writing to file " ++ filename_ h), st)
  end.

Definition size (st : helper_st) : outcome Z :=
  match fd_ (fst st) with
  | None => Throw (B "Cannot use size() on closed file " ++ filename_ (fst st))
  | Some f => Ok (filesize f (snd st))
  end.

(** [split_by_extension]. *)
Definition split_by_extension (fname : bytes) : bytes * bytes :=
  match rfind_if (fun c => c =c "."%char) fname with
  | None => (fname, [])
  | Some ext_index =>
      if (ext_index =? 0)%nat || (ext_index =? length fname - 1)%nat then (fname, [])
      else
        match rfind_if is_sep fname with
        | Some folder_index =>
            if (ext_index - 1 <=? folder_index)%nat then (fname, [])
            else (substr fname 0 (Some ext_index), substr fname ext_index None)
        | None => (substr fname 0 (Some ext_index), substr fname ext_index None)
        end
  end.

(** ** Names: the components of a path *)

Lemma split_on_app_last p (d : bytes) c l :
  p c = true -> Forall (fun x => p x = false) l -> split_on p (d ++ c :: l) = split_on p d ++ [l].
Proof.
  intros Hc Hl. induction d as [|x d IH]; cbn [app split_on].
  - rewrite Hc. by rewrite split_on_free.
  - rewrite IH. destruct (p x); [done|]. pose proof (split_on_nonnil p d). by destruct (split_on p d).
Qed.

(** A directory part: empty, or up to a separator. *)
Definition dir_part (d : bytes) : Prop := d = [] \/ exists d', d = d' ++ B "/".

Definition no_sep (l : bytes) : Prop := Forall (fun c => is_sep c = false) l.

Definition dir_of (d : bytes) : path :=
  (match d with c :: _ => is_sep c | [] => false end,
   match d with [] => [] | _ => filter (fun w => negb (w =s [])) (split_on is_sep (removelast d)) end).

Lemma resolve_last d l :
  dir_part d -> l <> [] -> no_sep l -> resolve (d ++ l) = (fst (dir_of d), snd (dir_of d) ++ [l]).
Proof.
  intros Hd Hl Hs. unfold resolve, dir_of. cbn [fst snd].
  assert (negb (l =s []) = true) as Hnl by (apply negb_true_iff; by case_bool_decide).
  destruct Hd as [->|[d' ->]].
  - cbn [app]. rewrite split_on_free by done. f_equal.
    + destruct l as [|c l]; [done|]. by apply Forall_cons in Hs as [Hc _].
    + unfold filter, list_filter. by rewrite decide_True by (by rewrite Hnl).
  - rewrite <- app_assoc. f_equal; [by destruct d'|].
    change (B "/" ++ l) with ("/"%char :: l). rewrite split_on_app_last by done.
    assert (forall X : list bytes, match d' ++ B "/" with [] => [] | _ => X end = X) as -> by (by destruct d').
    change (B "/") with ["/"%char]. rewrite removelast_last, filter_app. f_equal. unfold filter, list_filter.
    by rewrite decide_True by (by rewrite Hnl).
Qed.

Lemma parent_last ab cs l : parent (ab, cs ++ [l]) = (ab, cs).
Proof. unfold parent. cbn [fst snd]. by rewrite removelast_last. Qed.

Lemma no_sep_app l k : no_sep (l ++ k) <-> no_sep l /\ no_sep k.
Proof. apply Forall_app. Qed.

(** The text after the last separator. *)
Lemma split_dir s : exists d l, s = d ++ l /\ dir_part d /\ no_sep l /\
  (forall c, last s = Some c -> is_sep c = false -> l <> []).
Proof.
  destruct (rfind_if is_sep s) as [i|] eqn:Hr.
  - apply rfind_if_some in Hr as (l & c & r & -> & _ & Hc & Hf).
    assert (c = "/"%char) as -> by (unfold is_sep in Hc; by to_prop).
    exists (l ++ B "/"), r. split_and!; [by rewrite <- app_assoc|right; by exists l|done|].
    intros c. rewrite last_app_cons. destruct r; [|done]. cbn. intros [= <-]. done.
  - apply rfind_if_none in Hr. exists [], s. split_and!; [done|by left|done|]. intros c. by destruct s.
Qed.

(** What [split_by_extension] returns: a directory, a name that is not empty, and an extension. *)
Lemma split_by_extension_spec s c :
  last s = Some c -> is_sep c = false ->
  exists d l e, split_by_extension s = (d ++ l, e) /\ s = d ++ l ++ e /\ dir_part d /\ l <> [] /\ no_sep l /\ no_sep e.
Proof.
  intros Hlast Hc. unfold split_by_extension.
  assert (exists d l e, (s, []) = (d ++ l, e) /\ s = d ++ l ++ e /\ dir_part d /\ l <> [] /\ no_sep l /\ no_sep e) as Hwhole.
  { destruct (split_dir s) as (d & l & Hs & Hd & Hn & Hne). exists d, l, [].
    rewrite app_nil_r. split_and!; try done; [by rewrite <- Hs|by apply (Hne c)|constructor]. }
  destruct (rfind_if _ s) as [ext|] eqn:Hext; [|exact Hwhole].
  case_match eqn:Hedge; [exact Hwhole|]. to_prop.
  pose proof (rfind_if_lt _ _ _ Hext) as Hlt. unfold substr. rewrite drop_0.
  destruct (rfind_if is_sep s) as [folder|] eqn:Hf.
  - case_match; [exact Hwhole|]. to_prop.
    apply rfind_if_some in Hf as (d & x & r & -> & Hd & Hx & Hr).
    assert (x = "/"%char) as -> by (unfold is_sep in Hx; by to_prop).
    rewrite length_app in Hlt. cbn [length] in Hlt.
    exists (d ++ B "/"), (take (ext - S (length d)) r), (drop (ext - S (length d)) r).
    assert (take ext (d ++ "/"%char :: r) = (d ++ B "/") ++ take (ext - S (length d)) r) as ->.
    { rewrite <- app_assoc, take_app. rewrite take_ge by lia. f_equal.
      replace (ext - length d) with (S (ext - S (length d))) by lia. done. }
    assert (drop ext (d ++ "/"%char :: r) = drop (ext - S (length d)) r) as ->.
    { rewrite drop_app, drop_ge by lia. replace (ext - length d) with (S (ext - S (length d))) by lia. done. }
    split_and!; [done|by rewrite take_drop, <- app_assoc|right; by exists d| |by apply Forall_take|by apply Forall_drop].
    intros Hnil. apply (f_equal length) in Hnil. rewrite length_take in Hnil. cbn [length] in Hnil. lia.
  - apply rfind_if_none in Hf. exists [], (take ext s), (drop ext s).
    split_and!; [done|by rewrite take_drop|by left| |by apply Forall_take|by apply Forall_drop].
    intros Hnil. apply (f_equal length) in Hnil. rewrite length_take in Hnil. cbn [length] in Hnil. lia.
Qed.
