(* ===== verification/Sinks.v ===== *)
(** * Sinks: [spdlog/sinks/sink.h], [base_sink.h], [basic_file_sink.h], [rotating_file_sink.h]

    What every sink has (a level and a formatter) and the two sinks on a file.  The formatter is
    an interface, which [pattern_formatter] implements. *)
From S2P Require Import Prelude CLib Fmt PatternFormatter Files.

(** ** The formatter interface *)

(** [formatter::format] into an empty buffer, [clone], and the formatter of a pattern. *)
Class Formatter (F : Type) := {
  f_format : F -> log_msg -> option (F * bytes);
  f_clone : F -> F;
  f_pattern : bytes -> F }.

Section pattern_instance.
  Context {Custom : Type} (custom_format : Custom -> padding_info -> log_msg -> tm -> bytes -> Custom * bytes).
  Context (localtime gmtime : Z -> tm) (pid now : Z).

#[local] Instance pattern_Formatter : Formatter (pattern_formatter Custom) := {
    f_format p msg := '(p, _, out) ← format custom_format localtime gmtime p msg (MkRange 0 0) []; Some (p, out);
    f_clone p := default p (clone pid now p);
    f_pattern s := default (mk_default_formatter local [LF]) (mk_pattern_formatter pid now s local [LF] ∅) }.
End pattern_instance.

Section sinks.
  Context {F : Type} `{Formatter F}.

  (** ** [sink] and [base_sink] *)

Record base_sink := MkBase { level_ : level_enum; formatter_ : F }.

Definition new_base (formatter : F) : base_sink := MkBase trace formatter.
Definition should_log (msg_level : level_enum) (s : base_sink) : bool := (level_num (level_ s) <=? level_num msg_level)%Z.
Definition set_level (log_level : level_enum) (s : base_sink) : base_sink := MkBase log_level (formatter_ s).
Definition set_formatter_ (sink_formatter : F) (s : base_sink) : base_sink := MkBase (level_ s) sink_formatter.
Definition set_pattern_ (pattern : bytes) (s : base_sink) : base_sink := set_formatter_ (f_pattern pattern) s.

  (** ** [basic_file_sink] *)

Record basic_file_sink := MkBasic { basic_base : base_sink; basic_helper : file_helper }.

Definition mk_basic_file_sink (formatter : F) (filename : bytes) (truncate : bool) (w : world)
      : outcome basic_file_sink * world :=
    match open filename truncate (new_helper, w) with
    | (Ok _, (h, w)) => (Ok (MkBasic (new_base formatter) h), w)
    | (Throw e, (_, w)) => (Throw e, w)
    | (Undef, (_, w)) => (Undef, w)
    end.

Definition basic_sink_it_ (msg : log_msg) (s : basic_file_sink) (w : world) : outcome unit * (basic_file_sink * world) :=
    match f_format (formatter_ (basic_base s)) msg with
    | None => (Undef, (s, w))
    | Some (f, formatted) =>
        let '(r, (h, w)) := write formatted (basic_helper s, w) in
        (r, (MkBasic (set_formatter_ f (basic_base s)) h, w))
    end.

Definition basic_flush_ (s : basic_file_sink) (w : world) : basic_file_sink * world :=
    let '(h, w) := flush (basic_helper s, w) in (MkBasic (basic_base s) h, w).

  (** ** [rotating_file_sink] *)

Record rotating_file_sink := MkRotating {
    rot_base : base_sink; base_filename_ : bytes; max_size_ : Z; max_files_ : nat; current_size_ : Z;
    file_helper_ : file_helper }.

Abbreviation rot_st := (rotating_file_sink * world)%type.

Definition calc_filename (filename : bytes) (index : nat) : bytes :=
    match index with
    | 0 => filename
    | _ =>
        let '(basename, ext) := split_by_extension filename in
        basename ++ B "." ++ dec_nat (Z.of_nat index) ++ ext
    end.

Definition with_helper (h : file_helper) (s : rotating_file_sink) : rotating_file_sink :=
    MkRotating (rot_base s) (base_filename_ s) (max_size_ s) (max_files_ s) (current_size_ s) h.
Definition with_size (n : Z) (s : rotating_file_sink) : rotating_file_sink :=
    MkRotating (rot_base s) (base_filename_ s) (max_size_ s) (max_files_ s) (u64 n) (file_helper_ s).
Definition with_base (b : base_sink) (s : rotating_file_sink) : rotating_file_sink :=
    MkRotating b (base_filename_ s) (max_size_ s) (max_files_ s) (current_size_ s) (file_helper_ s).

Definition rename_file_ (src_filename target_filename : bytes) (w : world) : bool * world :=
    let '(_, w) := remove target_filename w in rename src_filename target_filename w.

Definition reopen_ (truncate : bool) (st : rot_st) : outcome unit * rot_st :=
    let '(s, w) := st in
    let '(r, (h, w)) := reopen truncate (file_helper_ s, w) in (r, (with_helper h s, w)).

  (** The loop of [rotate_] from index [i] down to 1; sleeping between the two tries of a
      renaming changes nothing. *)
Fixpoint rotate_loop (i : nat) (st : rot_st) : outcome unit * rot_st :=
    match i with
    | 0 => (Ok tt, st)
    | S k =>
        let '(s, w) := st in
        let src := calc_filename (base_filename_ s) k in
        if negb (path_exists src w) then rotate_loop k (s, w)
        else
          let target := calc_filename (base_filename_ s) i in
          let '(ok, w) := rename_file_ src target w in
          if ok then rotate_loop k (s, w)
          else
            let '(ok, w) := rename_file_ src target w in
            if ok then rotate_loop k (s, w)
            else
              match reopen_ true (s, w) with
              | (Ok _, (s, w)) =>
                  (Throw (B "rotating_file_sink: failed renaming " ++ src ++ B " to " ++ target), (with_size 0 s, w))
              | r => r
              end
    end.

Definition rotate_ (st : rot_st) : outcome unit * rot_st :=
    let '(s, w) := st in
    let '(h, w) := close (file_helper_ s, w) in
    match rotate_loop (max_files_ s) (with_helper h s, w) with
    | (Ok _, st) => reopen_ true st
    | r => r
    end.

Definition mk_rotating_file_sink (formatter : F) (base_filename : bytes) (max_size : Z) (max_files : nat)
      (rotate_on_open : bool) (w : world) : outcome rotating_file_sink * world :=
    match open (calc_filename base_filename 0) false (new_helper, w) with
    | (Ok _, (h, w)) =>
        match size (h, w) with
        | Ok n =>
            let s := with_size n (MkRotating (new_base formatter) base_filename max_size max_files 0 h) in
            if rotate_on_open && (0 <? current_size_ s)%Z then
              match rotate_ (s, w) with
              | (Ok _, (s, w)) => (Ok s, w)
              | (Throw e, (_, w)) => (Throw e, w)
              | (Undef, (_, w)) => (Undef, w)
              end
            else (Ok s, w)
        | Throw e => (Throw e, w)
        | Undef => (Undef, w)
        end
    | (Throw e, (_, w)) => (Throw e, w)
    | (Undef, (_, w)) => (Undef, w)
    end.

Definition write_ (buf : bytes) (st : rot_st) : outcome unit * rot_st :=
    let '(s, w) := st in
    let '(r, (h, w)) := write buf (file_helper_ s, w) in (r, (with_helper h s, w)).

Definition sink_it_ (msg : log_msg) (st : rot_st) : outcome unit * rot_st :=
    let '(s, w) := st in
    match f_format (formatter_ (rot_base s)) msg with
    | None => (Undef, (s, w))
    | Some (f, formatted) =>
        let s := with_base (set_formatter_ f (rot_base s)) s in
        let len := Z.of_nat (length formatted) in
        let s := with_size (current_size_ s + len) s in
        if (max_size_ s <? current_size_ s)%Z then
          match rotate_ (s, w) with
          | (Ok _, (s, w)) => write_ formatted (with_size len s, w)
          | r => r
          end
        else write_ formatted (s, w)
    end.

Definition flush_ (st : rot_st) : rot_st :=
    let '(s, w) := st in let '(h, w) := flush (file_helper_ s, w) in (with_helper h s, w).
End sinks.

Arguments base_sink : clear implicits.
Arguments basic_file_sink : clear implicits.
Arguments rotating_file_sink : clear implicits.
