(* ===== verification/RotatingTheory.v ===== *)
(** * The rotating file sink keeps its promise

    A log is a list of archived texts, newest first, and a current text.  Without faults the
    files of the sink hold exactly that log, which the specification below describes line by
    line; and what happens when a file cannot be opened again. *)
From S2P Require Import Prelude CLib Fmt PatternFormatter Files Sinks.

(** ** Names of the files *)

Definition name_ok (base : bytes) : Prop := exists c, last base = Some c /\ is_sep c = false.

Definition R (base : bytes) (i : nat) : path := resolve (calc_filename base i).

Lemma last_no_sep (d l : bytes) : l <> [] -> no_sep l -> name_ok (d ++ l).
Proof.
  intros Hl Hs. destruct l as [|c l _] using rev_ind; [done|]. exists c.
  rewrite app_assoc, last_snoc. split; [done|]. apply no_sep_app in Hs as [_ Hs].
  by inversion Hs.
Qed.

Lemma dec_nat_no_sep n : (0 <= n)%Z -> no_sep (dec_nat n).
Proof.
  intros Hn. eapply Forall_impl; [by apply dec_nat_digits|]. intros c Hc. unfold is_sep.
  destruct (Ascii.eqb_spec c "/"%char) as [->|]; [|done]. by vm_compute in Hc.
Qed.

(** The file names of a sink: one directory, a different last component for each index. *)
Lemma calc_names base : name_ok base ->
  exists d nm, (forall i, calc_filename base i = d ++ nm i) /\ dir_part d /\
    (forall i, nm i <> [] /\ no_sep (nm i)) /\ (forall i j, nm i = nm j -> i = j).
Proof.
  intros (c & Hl & Hc). destruct (split_by_extension_spec base c Hl Hc) as (d & l & e & Hs & Hb & Hd & Hne & Hln & Hen).
  exists d, (fun i => match i with 0 => l ++ e | _ => l ++ B "." ++ dec_nat (Z.of_nat i) ++ e end).
  split_and!; [|done| |].
  - intros [|i]; cbn [calc_filename]; [done|]. by rewrite Hs, <- app_assoc.
  - intros [|i]; (split; [by destruct l|]); rewrite ?no_sep_app; split_and!; try done; [by repeat constructor|].
    apply dec_nat_no_sep. lia.
  - intros [|i] [|j]; [done| | |]; intros H; apply (inj (app l)) in H.
    + apply (f_equal length) in H. rewrite !length_app in H. change (length (B ".")) with 1 in H. lia.
    + apply (f_equal length) in H. rewrite !length_app in H. change (length (B ".")) with 1 in H. lia.
    + apply (inj (app (B "."))), (inj (fun x => x ++ e)), dec_nat_inj in H; lia.
Qed.

Section names.
  Context (base : bytes) (Hbase : name_ok base).

Lemma R_inj i j : R base i = R base j -> i = j.
Proof.
  destruct (calc_names base Hbase) as (d & nm & Hc & Hd & Hn & Hi). unfold R. rewrite !Hc.
  rewrite !resolve_last by (done || apply Hn). intros [= H]. apply app_inj_tail in H as [_ H]. by apply Hi.
Qed.

Lemma R_parent i : parent (R base i) = parent (R base 0).
Proof.
  destruct (calc_names base Hbase) as (d & nm & Hc & Hd & Hn & Hi). unfold R. rewrite !Hc.
  rewrite !resolve_last by (done || apply Hn). by rewrite !parent_last.
Qed.

Lemma R_nonroot i : snd (R base i) <> [].
Proof.
  destruct (calc_names base Hbase) as (d & nm & Hc & Hd & Hn & Hi). unfold R. rewrite !Hc.
  rewrite !resolve_last by (done || apply Hn). cbn [snd]. by destruct (snd (dir_of d)).
Qed.

Lemma calc_name_ok i : name_ok (calc_filename base i).
Proof.
  destruct (calc_names base Hbase) as (d & nm & Hc & Hd & Hn & Hi). rewrite Hc. by apply last_no_sep; apply Hn.
Qed.

  (** The directory of the log exists and no directory has the name of one of its [n] files. *)
Definition place_ok (n : nat) (w : world) : Prop :=
    is_dir (parent (R base 0)) w = true /\ forall i, i <= n -> R base i ∉ dirs w.

Lemma place_not_dir n w i : place_ok n w -> i <= n -> is_dir (R base i) w = false.
Proof.
  intros [_ Hp] Hi. unfold is_dir. pose proof (R_nonroot i). destruct (snd (R base i)); [done|].
  apply bool_decide_eq_false. auto.
Qed.

Lemma openable_calc n w i : place_ok n w -> i <= n -> openable (calc_filename base i) w = true.
Proof.
  intros Hp Hi. unfold openable. destruct (calc_name_ok i) as (c & -> & ->). fold (R base i).
  rewrite R_parent, (place_not_dir n w i Hp Hi). by destruct Hp as [-> _].
Qed.

Lemma exists_calc n w i : place_ok n w -> i <= n ->
  path_exists (calc_filename base i) w = is_file (R base i) w.
Proof.
  intros Hp Hi. unfold path_exists. fold (R base i). rewrite (place_not_dir n w i Hp Hi).
  destruct (calc_name_ok i) as (c & Hc & _). by destruct (calc_filename base i).
Qed.

  (** Making the directory of the log does nothing when it exists. *)
Lemma ensure_dir_base n w : place_ok n w -> ensure_dir base w = w.
Proof.
  intros [Hp _]. unfold ensure_dir, create_dir.
  assert (dir_name base = [] \/ path_exists (dir_name base) w = true) as [Hd0|Hd0]; [|by rewrite Hd0|by rewrite Hd0].
  destruct (calc_names base Hbase) as (d & nm & Hc & Hd & Hn & Hi). specialize (Hc 0). cbn [calc_filename] in Hc.
  destruct (Hn 0) as [Hne Hns]. unfold R in Hp. cbn [calc_filename] in Hp. rewrite Hc in Hp |- *.
  rewrite resolve_last, parent_last in Hp by done. unfold dir_name, substr. rewrite drop_0.
  destruct Hd as [->|[d' ->]].
  - left. cbn [app]. by rewrite (proj2 (rfind_if_none _ _) Hns).
  - change (B "/") with ["/"%char] in *. rewrite <- app_assoc. cbn [app].
    rewrite rfind_if_app, take_app_length by done. destruct d' as [|c d']; [by left|right].
    unfold path_exists. unfold dir_of in Hp. cbn [fst snd app] in Hp.
    change (c :: d' ++ ["/"%char]) with ((c :: d') ++ ["/"%char]) in Hp. rewrite removelast_last in Hp.
    unfold resolve. by rewrite Hp.
Qed.
End names.

(** ** Renaming, opening and writing without faults *)

Definition quiet (w : world) : Prop := faults w = [].

Lemma next_fault_quiet w : quiet w -> next_fault w = (false, w).
Proof. intros Hq. unfold next_fault. by rewrite Hq. Qed.

(** What changes in a step of the sink: some files, nothing else. *)
Definition same_place (w w' : world) : Prop := quiet w' /\ dirs w' = dirs w.

Lemma same_place_refl w : quiet w -> same_place w w.
Proof. by split. Qed.

Lemma same_place_trans w1 w2 w3 : same_place w1 w2 -> same_place w2 w3 -> same_place w1 w3.
Proof. intros [_ H1] [Hq H2]. split; congruence. Qed.

Lemma place_ok_same base n w w' : place_ok base n w -> same_place w w' -> place_ok base n w'.
Proof. unfold place_ok, is_dir. intros Hp [_ Hd]. by rewrite Hd. Qed.

#[export] Hint Resolve same_place_refl same_place_trans place_ok_same : fdfs.

Section moves.
  Context (base : bytes) (Hbase : name_ok base) (n : nat).

Lemma rename_file_ok w k c :
  quiet w -> place_ok base n w -> S k <= n -> files_ w !! R base k = Some c ->
  exists w', rename_file_ (calc_filename base k) (calc_filename base (S k)) w = (true, w') /\ same_place w w' /\
    forall p, files_ w' !! p = if decide (p = R base (S k)) then Some c
                               else if decide (p = R base k) then None else files_ w !! p.
Proof.
  intros Hq Hp Hk Hc. unfold rename_file_, remove. rewrite (next_fault_quiet w Hq). fold (R base (S k)).
  rewrite (bool_decide_eq_false_2 (R base (S k) ∈ dirs w)) by (by apply Hp). cbn [andb].
  assert (R base k <> R base (S k)) as Hne by (intros H%R_inj; [lia|done]).
  set (w1 := if is_file (R base (S k)) w then _ else _).
  assert (exists b w1', w1 = (b, w1') /\ same_place w w1' /\
            forall p, files_ w1' !! p = if decide (p = R base (S k)) then None else files_ w !! p) as (b & w1' & -> & Hs & Hl).
  { unfold w1. destruct (is_file (R base (S k)) w) eqn:Hf; eexists _, _; (split; [done|split; [by split|]]); intros p.
    - unfold del_file. cbn [files_]. destruct (decide (p = _)) as [->|]; [apply lookup_delete_eq|by apply lookup_delete_ne].
    - destruct (decide (p = _)) as [->|]; [|done]. unfold is_file in Hf. apply bool_decide_eq_false in Hf.
      by apply eq_None_not_Some. }
  unfold rename. destruct Hs as [Hq1 Hd1]. rewrite (next_fault_quiet w1' Hq1). fold (R base k). fold (R base (S k)).
  rewrite Hl, decide_False, Hc by done. cbn [orb].
  rewrite (openable_calc base Hbase n) by (done || by apply (place_ok_same _ _ w)). cbn [negb].
  eexists. split; [done|]. split; [by split|]. intros p. unfold set_file, del_file. cbn [files_].
  destruct (decide (p = R base (S k))) as [->|]; [apply lookup_insert_eq|]. rewrite lookup_insert_ne by done.
  destruct (decide (p = R base k)) as [->|]; [apply lookup_delete_eq|]. rewrite lookup_delete_ne by done.
  by rewrite Hl, decide_False.
Qed.

  (** The files with index up to [i] hold the list [l]. *)
Definition holds (i : nat) (w : world) (l : list bytes) : Prop := forall j, j <= i -> files_ w !! R base j = l !! j.

Context {F : Type} `{Formatter F}.

Lemma rotate_loop_spec i l (s : rotating_file_sink F) w :
  i <= n -> base_filename_ s = base -> quiet w -> place_ok base n w -> holds i w l ->
  exists w', rotate_loop i (s, w) = (Ok tt, (s, w')) /\ same_place w w' /\
    (forall j, j < i -> files_ w' !! R base (S j) = l !! j) /\
    (0 < i -> files_ w' !! R base 0 = None) /\
    (forall p, (forall j, j <= i -> p <> R base j) -> files_ w' !! p = files_ w !! p).
Proof.
  intros Hi Hs. revert l w. induction i as [|k IH]; intros l w Hq Hp Hh; cbn [rotate_loop].
  - exists w. split_and!; [done|by split|lia|lia|done].
  - rewrite Hs, (exists_calc base Hbase n) by (done || lia). unfold is_file.
    rewrite (Hh k) by lia. destruct (l !! k) as [c|] eqn:Hlk.
    + rewrite bool_decide_eq_true_2 by done. cbn [negb].
      destruct (rename_file_ok w k c) as (w1 & -> & Hw1 & Hf1); [done|done|lia|by rewrite (Hh k) by lia|].
      destruct (IH ltac:(lia) (take k l) w1) as (w2 & Hr & Hw2 & Hf2 & H02 & He2).
      { by destruct Hw1. }
      { by apply (place_ok_same _ _ w). }
      { intros j Hj. rewrite Hf1, decide_False by (intros Heq%R_inj; [lia|done]).
        destruct (decide (R base j = R base k)) as [Heq|Hne].
        - apply R_inj in Heq; [|done]. subst j. by rewrite lookup_take_ge by lia.
        - assert (j <> k) by congruence. rewrite lookup_take_lt by lia. apply Hh. lia. }
      exists w2. split_and!; [done|by eapply same_place_trans| | |].
      * intros j Hj. destruct (decide (j = k)) as [->|].
        { rewrite He2, Hf1, decide_True by (done || (intros j Hj' Heq%R_inj; [lia|done])). by rewrite Hlk. }
        rewrite Hf2 by lia. apply lookup_take_lt. lia.
      * intros _. destruct (decide (k = 0)) as [->|]; [|apply H02; lia].
        cbn [rotate_loop] in Hr. injection Hr as <-.
        by rewrite Hf1, decide_False, decide_True by (done || (intros Heq%R_inj; [lia|done])).
      * intros p Hpj. rewrite He2 by (intros j Hj; apply Hpj; lia).
        by rewrite Hf1, !decide_False by (apply Hpj; lia).
    + rewrite bool_decide_eq_false_2 by (by intros [? ?]). cbn [negb].
      destruct (IH ltac:(lia) l w) as (w2 & Hr & Hw2 & Hf2 & H02 & He2); [done|done|intros j Hj; apply Hh; lia|].
      exists w2. split_and!; [done|done| | |].
      * intros j Hj. destruct (decide (j = k)) as [->|]; [|apply Hf2; lia].
        rewrite He2 by (intros j Hj' Heq%R_inj; [lia|done]). rewrite (Hh (S k)) by lia. rewrite Hlk.
        apply lookup_ge_None in Hlk. apply lookup_ge_None. lia.
      * intros _. destruct (decide (k = 0)) as [->|]; [|apply H02; lia].
        cbn [rotate_loop] in Hr. injection Hr as <-. by rewrite (Hh 0) by lia.
      * intros p Hpj. apply He2. intros j Hj. apply Hpj. lia.
Qed.

Lemma fopen_ok tr w :
  quiet w -> place_ok base n w ->
  fopen_s base tr w = (Some (MkFILE (R base 0) []), set_file (R base 0) (if tr then [] else contents (R base 0) w) w).
Proof.
  intros Hq Hp. unfold fopen_s. rewrite (next_fault_quiet w Hq).
  pose proof (openable_calc base Hbase n w 0 Hp ltac:(lia)) as Ho. cbn [calc_filename] in Ho. by rewrite Ho.
Qed.

Lemma set_file_same p s w : quiet w -> same_place w (set_file p s w).
Proof. by split. Qed.

Lemma set_file_twice p s t w : set_file p t (set_file p s w) = set_file p t w.
Proof. unfold set_file. cbn [files_ dirs faults]. by rewrite insert_insert_eq. Qed.

Lemma contents_set p s w : contents p (set_file p s w) = s.
Proof. unfold contents, set_file. cbn [files_]. by rewrite lookup_insert_eq. Qed.

(** The text the log file starts with after it is opened. *)
Definition opened (tr : bool) (w : world) : bytes := if tr then [] else contents (R base 0) w.

Lemma open_ok tr h w :
  quiet w -> place_ok base n w -> fd_ h = None ->
  open base tr (h, w) =
    (Ok tt, (MkHelper (Some (MkFILE (R base 0) [])) base, set_file (R base 0) (opened tr w) w)).
Proof.
  intros Hq Hp Hfd. unfold open, close. rewrite Hfd. cbn [fd_ open_tries_ open_loop].
  rewrite (ensure_dir_base base Hbase n w Hp). unfold opened. destruct tr.
  - rewrite fopen_ok by done. unfold fclose, fflush. cbn [f_path f_buf snd].
    rewrite contents_set, set_file_twice. cbn [app].
    rewrite fopen_ok by (done || by apply (place_ok_same _ _ w), set_file_same).
    by rewrite contents_set, set_file_twice.
  - by rewrite fopen_ok by done.
Qed.

Lemma base_nonempty : base <> [].
Proof. destruct Hbase as (c & Hc & _). by destruct base. Qed.

(** ** The specification *)

Record rlog := MkLog { archive : list bytes; current : bytes }.

(** One line more: into the current text, or into a new one when it would get too long. *)
Definition log_line (max_size : Z) (a : rlog) (line : bytes) : rlog :=
  if (max_size <? Z.of_nat (length (current a)) + Z.of_nat (length line))%Z
  then MkLog (take n (current a :: archive a)) line
  else MkLog (archive a) (current a ++ line).

(** The state of a sink holds a log: the files, and what is written but not flushed. *)
Record sink_holds (s : rotating_file_sink F) (w : world) (a : rlog) : Prop := {
  sh_quiet : quiet w;
  sh_place : place_ok base n w;
  sh_base : base_filename_ s = base;
  sh_max : max_files_ s = n;
  sh_size : current_size_ s = Z.of_nat (length (current a));
  sh_current : exists disk buf, file_helper_ s = MkHelper (Some (MkFILE (R base 0) buf)) base /\
      files_ w !! R base 0 = Some disk /\ disk ++ buf = current a;
  sh_archive : forall i, i < n -> files_ w !! R base (S i) = archive a !! i;
  sh_bound : length (archive a) <= n }.

Lemma rotate_ok (s : rotating_file_sink F) w a :
  quiet w -> place_ok base n w -> base_filename_ s = base -> max_files_ s = n ->
  (exists disk buf, file_helper_ s = MkHelper (Some (MkFILE (R base 0) buf)) base /\
      files_ w !! R base 0 = Some disk /\ disk ++ buf = current a) ->
  (forall i, i < n -> files_ w !! R base (S i) = archive a !! i) -> length (archive a) <= n ->
  exists w', rotate_ (s, w) = (Ok tt, (with_helper (MkHelper (Some (MkFILE (R base 0) [])) base) s, w')) /\
    same_place w w' /\ files_ w' !! R base 0 = Some [] /\
    (forall i, i < n -> files_ w' !! R base (S i) = take n (current a :: archive a) !! i) /\
    (forall p, (forall i, i <= n -> p <> R base i) -> files_ w' !! p = files_ w !! p).
Proof.
  intros Hq Hp Hb Hm (disk & buf & Hh & Hdisk & Hcur) Har Hlen.
  unfold rotate_, close. rewrite Hh. cbn [fd_ filename_]. unfold fclose, fflush. cbn [f_path f_buf snd].
  unfold contents. rewrite Hdisk. cbn [default from_option id]. rewrite Hcur. set (w1 := set_file _ _ w).
  set (s1 := with_helper _ s).
  assert (same_place w w1) as Hw1 by (by apply set_file_same).
  destruct (rotate_loop_spec n (current a :: archive a) s1 w1) as (w2 & Hr & Hw2 & Hf & H0 & He); try done.
  { intros [|j] Hj; unfold w1, set_file; cbn [files_]; [apply lookup_insert_eq|].
    rewrite lookup_insert_ne by (intros Heq%R_inj; [lia|done]). apply Har. lia. }
  rewrite Hm, Hr. unfold reopen_, reopen. cbn [file_helper_ with_helper s1 filename_ fst snd].
  rewrite bool_decide_eq_false_2 by apply base_nonempty.
  rewrite open_ok; [|by destruct Hw2|by eapply place_ok_same; [|exact Hw2]; apply (place_ok_same _ _ w)|done].
  eexists. split; [done|]. unfold opened. split_and!.
  - apply (same_place_trans w w1); [done|]. apply (same_place_trans w1 w2); [done|]. apply set_file_same. by destruct Hw2.
  - unfold set_file. cbn [files_]. apply lookup_insert_eq.
  - intros i Hi. unfold set_file. cbn [files_]. rewrite lookup_insert_ne by (intros Heq%R_inj; [lia|done]).
    by rewrite Hf, lookup_take_lt by lia.
  - intros p Hpi. unfold set_file. cbn [files_]. rewrite lookup_insert_ne by (symmetry; apply Hpi; lia).
    rewrite He by done. unfold w1, set_file. cbn [files_]. apply lookup_insert_ne. symmetry. apply Hpi. lia.
Qed.

(** The lengths that keep [size_t] from wrapping around. *)
Definition small (z : Z) : Prop := (0 <= z < 2 ^ 63)%Z.

Lemma write_ok buf s w disk pend :
  quiet w -> file_helper_ s = MkHelper (Some (MkFILE (R base 0) pend)) base ->
  files_ w !! R base 0 = Some disk ->
  write_ buf (s, w) = (Ok tt, (with_helper (MkHelper (Some (MkFILE (R base 0) (pend ++ buf))) base) (F := F) s, w)).
Proof.
  intros Hq Hh Hd. unfold write_, write. rewrite Hh. cbn [fd_ filename_]. unfold fwrite.
  destruct buf as [|c buf]; [by rewrite app_nil_r|]. rewrite (next_fault_quiet w Hq). done.
Qed.

(** A step of the sink is a step of the specification, and touches only its own files. *)
Lemma sink_it_ok s w a msg f line :
  sink_holds s w a -> f_format (formatter_ (rot_base s)) msg = Some (f, line) ->
  small (max_size_ s) -> small (Z.of_nat (length (current a))) -> small (Z.of_nat (length line)) ->
  exists s' w', sink_it_ msg (s, w) = (Ok tt, (s', w')) /\ sink_holds s' w' (log_line (max_size_ s) a line) /\
    formatter_ (rot_base s') = f /\ max_size_ s' = max_size_ s /\
    (forall p, (forall i, i <= n -> p <> R base i) -> files_ w' !! p = files_ w !! p).
Proof.
  intros Hs Hf Hm Hc Hl. unfold small in *. destruct Hs as [Hq Hp Hb Hn Hsz (disk & buf & Hh & Hd & Hcur) Har Hlen].
  unfold sink_it_. rewrite Hf. cbn [with_base with_size current_size_ max_size_]. rewrite Hsz, u64_small by lia.
  unfold log_line. destruct (max_size_ s <? _)%Z eqn:Hbig.
  - set (s1 := with_size _ _).
    destruct (rotate_ok s1 w a) as (w' & -> & Hw & H0 & Har' & He); [done|done|done|done|by eexists _, _|done|done|].
    rewrite (write_ok _ _ _ [] []) by (done || by destruct Hw).
    eexists _, _. split; [done|]. split_and!; [constructor|done|done|exact He];
      cbn [with_helper with_size base_filename_ max_files_ current_size_ file_helper_ current archive]; try done.
    + by destruct Hw.
    + by apply (place_ok_same _ _ w).
    + apply u64_small. lia.
    + by exists [], line.
    + rewrite length_take. lia.
  - rewrite (write_ok _ _ _ disk buf) by done. eexists _, _. split; [done|].
    split_and!; [constructor|done|done|done];
      cbn [with_helper with_size with_base base_filename_ max_files_ current_size_ file_helper_ current archive]; try done.
    + rewrite length_app, ?u64_small by lia. lia.
    + exists disk, (buf ++ line). split_and!; [done|done|by rewrite app_assoc, Hcur].
Qed.

(** A sequence of messages: the lines a formatter makes of them, and the calls of the sink. *)
Fixpoint format_lines (f : F) (msgs : list log_msg) : option (list bytes) :=
  match msgs with
  | [] => Some []
  | m :: msgs => '(f, line) ← f_format f m; lines ← format_lines f msgs; Some (line :: lines)
  end.

Fixpoint log_all (msgs : list log_msg) (st : rotating_file_sink F * world) : outcome unit * (rotating_file_sink F * world) :=
  match msgs with
  | [] => (Ok tt, st)
  | m :: msgs => match sink_it_ m st with (Ok _, st) => log_all msgs st | r => r end
  end.

Lemma log_line_small max_size a line :
  small max_size -> small (Z.of_nat (length line)) -> small (Z.of_nat (length (current (log_line max_size a line)))).
Proof.
  intros Hm Hl. unfold log_line. destruct (max_size <? _)%Z eqn:Hbig; cbn [current]; [done|]. to_prop.
  unfold small in *. rewrite length_app. lia.
Qed.

Lemma log_all_ok msgs s w a lines :
  sink_holds s w a -> format_lines (formatter_ (rot_base s)) msgs = Some lines ->
  small (max_size_ s) -> small (Z.of_nat (length (current a))) ->
  Forall (fun line => small (Z.of_nat (length line))) lines ->
  exists s' w', log_all msgs (s, w) = (Ok tt, (s', w')) /\
    sink_holds s' w' (foldl (log_line (max_size_ s)) a lines) /\
    (forall p, (forall i, i <= n -> p <> R base i) -> files_ w' !! p = files_ w !! p).
Proof.
  revert s w a lines. induction msgs as [|m msgs IH]; intros s w a lines Hs Hf Hm Hc Hl; cbn [format_lines] in Hf.
  - injection Hf as <-. by exists s, w.
  - destruct (f_format _ m) as [[f line]|] eqn:Hfm; [|done]. cbn [mbind option_bind] in Hf.
    destruct (format_lines f msgs) as [ls|] eqn:Hls; [|done]. cbn [mbind option_bind] in Hf. injection Hf as <-.
    apply Forall_cons in Hl as [Hl Hls'].
    destruct (sink_it_ok s w a m f line Hs Hfm Hm Hc Hl) as (s1 & w1 & Hr & Hs1 & Hf1 & Hm1 & He1).
    cbn [log_all foldl]. rewrite Hr. rewrite <- Hf1 in Hls. rewrite <- Hm1 in Hm.
    destruct (IH s1 w1 _ ls Hs1 Hls Hm) as (s2 & w2 & Hr2 & Hs2 & He2); [rewrite <- Hm1; by apply log_line_small|done|].
    exists s2, w2. rewrite <- Hm1. split_and!; [done|by rewrite Hm1 in *|]. intros p Hp. rewrite He2, He1; done.
Qed.

(** ** Opening, flushing, and what is kept *)

Lemma mk_sink_ok f max_size w ar :
  quiet w -> place_ok base n w -> small (Z.of_nat (length (contents (R base 0) w))) ->
  (forall i, i < n -> files_ w !! R base (S i) = ar !! i) -> length ar <= n ->
  exists s w', mk_rotating_file_sink f base max_size n false w = (Ok s, w') /\
    sink_holds s w' (MkLog ar (contents (R base 0) w)) /\ formatter_ (rot_base s) = f /\ max_size_ s = max_size /\
    (forall p, (forall i, i <= n -> p <> R base i) -> files_ w' !! p = files_ w !! p).
Proof.
  intros Hq Hp Hsm Har Hlen. unfold mk_rotating_file_sink. cbn [calc_filename].
  rewrite open_ok by done. unfold opened, size, filesize. cbn [fd_ fst snd f_path].
  rewrite contents_set. cbn [andb]. eexists _, _. split; [done|].
  split_and!; [constructor| | |]; cbn [with_size base_filename_ max_files_ current_size_ file_helper_ current archive]; try done.
  - apply u64_small. unfold small in Hsm. lia.
  - eexists _, []. rewrite app_nil_r. split_and!; [done| |done]. unfold set_file. cbn [files_]. apply lookup_insert_eq.
  - intros i Hi. unfold set_file. cbn [files_]. rewrite lookup_insert_ne by (intros Heq%R_inj; [lia|done]). by apply Har.
  - intros p Hpi. unfold set_file. cbn [files_]. apply lookup_insert_ne. symmetry. apply Hpi. lia.
Qed.

Lemma flush_ok s w a :
  sink_holds s w a ->
  exists s' w', flush_ (s, w) = (s', w') /\ files_ w' !! R base 0 = Some (current a) /\
    (forall i, i < n -> files_ w' !! R base (S i) = archive a !! i) /\
    (forall p, (forall i, i <= n -> p <> R base i) -> files_ w' !! p = files_ w !! p) /\
    sink_holds s' w' a /\ rot_base s' = rot_base s /\ max_size_ s' = max_size_ s.
Proof.
  intros [Hq Hp Hb Hn Hsz (disk & buf & Hh & Hd & Hcur) Har Hlen]. unfold flush_, flush. rewrite Hh. cbn [fd_].
  unfold fflush. cbn [f_path f_buf]. unfold contents. rewrite Hd. cbn [default from_option id]. rewrite Hcur.
  assert (forall i, files_ (set_file (R base 0) (current a) w) !! R base (S i) = files_ w !! R base (S i)) as Ho.
  { intros i. unfold set_file. cbn [files_]. apply lookup_insert_ne. intros Heq%R_inj; [lia|done]. }
  assert (files_ (set_file (R base 0) (current a) w) !! R base 0 = Some (current a)) as H0 by apply lookup_insert_eq.
  eexists _, _. split; [done|]. split_and!; [done| | |constructor|done|done];
    cbn [with_helper base_filename_ max_files_ current_size_ file_helper_]; try done.
  - intros i Hi. rewrite Ho. by apply Har.
  - intros p Hpi. unfold set_file. cbn [files_]. apply lookup_insert_ne. symmetry. apply Hpi. lia.
  - exists (current a), []. by rewrite app_nil_r.
  - intros i Hi. rewrite Ho. by apply Har.
Qed.

(** The text that is kept, oldest first. *)
Definition kept (a : rlog) : bytes := concat (reverse (archive a)) ++ current a.

Lemma concat_reverse_take (l : list bytes) : exists lost, lost ++ concat (reverse (take n l)) = concat (reverse l).
Proof.
  exists (concat (reverse (drop n l))). rewrite <- concat_app. f_equal. rewrite <- reverse_app. by rewrite take_drop.
Qed.

Lemma kept_log_line max_size a line : exists lost, lost ++ kept (log_line max_size a line) = kept a ++ line.
Proof.
  unfold kept, log_line. case_match; cbn [archive current].
  - destruct (concat_reverse_take (current a :: archive a)) as [lost Hl]. exists lost.
    rewrite app_assoc, Hl, reverse_cons, concat_app. cbn [concat]. by rewrite app_nil_r.
  - exists []. cbn [app]. by rewrite app_assoc.
Qed.

Lemma kept_lines max_size a lines :
  exists lost, lost ++ kept (foldl (log_line max_size) a lines) = kept a ++ concat lines.
Proof.
  revert a. induction lines as [|line lines IH]; intros a; cbn [foldl concat]; [exists []; by rewrite app_nil_r|].
  destruct (IH (log_line max_size a line)) as [lost1 H1]. destruct (kept_log_line max_size a line) as [lost2 H2].
  exists (lost2 ++ lost1). rewrite <- app_assoc, H1, !app_assoc. by rewrite H2.
Qed.

Definition fits (max_size : Z) (s : bytes) : Prop := (Z.of_nat (length s) <= max_size)%Z.

Lemma log_lines_fit max_size a lines :
  Forall (fits max_size) (current a :: archive a) -> Forall (fits max_size) lines ->
  let a' := foldl (log_line max_size) a lines in Forall (fits max_size) (current a' :: archive a').
Proof.
  intros Ha Hl. revert a Ha. induction Hl as [|line lines Hline _ IH]; intros a Ha; cbn [foldl]; [done|].
  apply IH. unfold log_line. destruct (max_size <? _)%Z eqn:Hbig; to_prop; cbn [current archive].
  - constructor; [done|]. by apply Forall_take.
  - apply Forall_cons in Ha as [_ Ha]. constructor; [|done]. unfold fits. rewrite length_app. lia.
Qed.

Lemma rotating_sink_spec f max_size w ar msgs lines :
  quiet w -> place_ok base n w -> small max_size -> small (Z.of_nat (length (contents (R base 0) w))) ->
  (forall i, i < n -> files_ w !! R base (S i) = ar !! i) -> length ar <= n ->
  format_lines f msgs = Some lines -> Forall (fun line => small (Z.of_nat (length line))) lines ->
  let a0 := MkLog ar (contents (R base 0) w) in
  let a := foldl (log_line max_size) a0 lines in
  exists s0 w0 s1 w1 s2 w2, mk_rotating_file_sink f base max_size n false w = (Ok s0, w0) /\
    log_all msgs (s0, w0) = (Ok tt, (s1, w1)) /\ flush_ (s1, w1) = (s2, w2) /\
    files_ w2 !! R base 0 = Some (current a) /\ (forall i, i < n -> files_ w2 !! R base (S i) = archive a !! i) /\
    (forall p, (forall i, i <= n -> p <> R base i) -> files_ w2 !! p = files_ w !! p).
Proof.
  intros Hq Hp Hm Hc Har Hlen Hf Hl a0 a.
  destruct (mk_sink_ok f max_size w ar) as (s0 & w0 & Hmk & Hs0 & Hf0 & Hm0 & He0); try done.
  destruct (log_all_ok msgs s0 w0 a0 lines) as (s1 & w1 & Hlog & Hs1 & He1); rewrite ?Hf0, ?Hm0; try done.
  rewrite Hm0 in Hs1. destruct (flush_ok s1 w1 a Hs1) as (s2 & w2 & Hfl & H0 & Hi & He2 & _).
  exists s0, w0, s1, w1, s2, w2. split_and!; try done. intros p Hpi. by rewrite He2, He1, He0.
Qed.
End moves.

(** C8: the rotating file sink without faults: opened on a directory with the archives of an
    earlier run, it accepts every message, and after a flush its files hold the log that the
    specification gives, index by index; no other file changes; the text that is kept, from the
    oldest archive to the current file, is what there was followed by the new lines, minus a part
    at its beginning; and every file stays within the maximal size when the lines and
    the files there were do. *)
Theorem rotating_sink_correct {F : Type} `{Formatter F} base n f max_size w ar msgs lines :
  name_ok base -> faults w = [] -> place_ok base n w -> small max_size ->
  small (Z.of_nat (length (contents (R base 0) w))) ->
  (forall i, i < n -> files_ w !! R base (S i) = ar !! i) -> length ar <= n ->
  format_lines f msgs = Some lines -> Forall (fun line => small (Z.of_nat (length line))) lines ->
  let a0 := MkLog ar (contents (R base 0) w) in
  let a := foldl (log_line n max_size) a0 lines in
  (exists s0 w0 s1 w1 s2 w2, mk_rotating_file_sink f base max_size n false w = (Ok s0, w0) /\
    log_all msgs (s0, w0) = (Ok tt, (s1, w1)) /\ flush_ (s1, w1) = (s2, w2) /\
    files_ w2 !! R base 0 = Some (current a) /\ (forall i, i < n -> files_ w2 !! R base (S i) = archive a !! i) /\
    (forall p, (forall i, i <= n -> p <> R base i) -> files_ w2 !! p = files_ w !! p)) /\
  (exists lost, lost ++ kept a = kept a0 ++ concat lines) /\
  (Forall (fits max_size) (current a0 :: ar) -> Forall (fits max_size) lines ->
   Forall (fits max_size) (current a :: archive a)).
Proof.
  intros Hb Hq Hp Hm Hc Har Hlen Hf Hl a0 a. split_and!.
  - by apply rotating_sink_spec.
  - apply kept_lines.
  - by apply log_lines_fit.
Qed.

(** A formatter that prints the text alone, and a directory with the log of an earlier run. *)
#[local] Instance text_formatter : Formatter unit := {
  f_format _ msg := Some (tt, payload msg ++ [LF]); f_clone _ := tt; f_pattern _ := tt }.

Definition demo_world : world :=
  MkWorld {[ resolve (B "log/a.txt") := B "old" ++ [LF]; resolve (B "other") := B "x" ]} {[ resolve (B "log") ]} [].

Definition text_msg (s : string) : log_msg := MkMsg [] info 0 0 (MkLoc [] 0 []) (B s).

Lemma rotating_sink_correct_witness :
  exists s w, log_all [text_msg "one"; text_msg "two"; text_msg "three"] s = (Ok tt, w) /\
    let w' := snd (flush_ w) in
    files_ w' !! resolve (B "log/a.txt") = Some (B "three" ++ [LF]) /\
    files_ w' !! resolve (B "log/a.1.txt") = Some (B "two" ++ [LF]) /\
    files_ w' !! resolve (B "other") = Some (B "x").
Proof.
  destruct (rotating_sink_correct (B "log/a.txt") 1 tt 8 demo_world [] [text_msg "one"; text_msg "two"; text_msg "three"]
      [B "one" ++ [LF]; B "two" ++ [LF]; B "three" ++ [LF]])
    as [(s0 & w0 & s1 & w1 & s2 & w2 & _ & Hlog & Hfl & H0 & Hi & He) _].
  - exists "t"%char. split; reflexivity.
  - reflexivity.
  - split; [reflexivity|]. intros i Hi. destruct i as [|[|i]]; [vm_compute; intros H; by inversion H| |lia].
    apply (bool_decide_eq_false_1 (R (B "log/a.txt") 1 ∈ dirs demo_world)). reflexivity.
  - done.
  - done.
  - intros [|i] Hi; [reflexivity|lia].
  - simpl. lia.
  - reflexivity.
  - repeat constructor; done.
  - exists (s0, w0), (s1, w1). split; [exact Hlog|]. rewrite Hfl. cbn [snd]. split_and!.
    + exact H0.
    + exact (Hi 0 ltac:(lia)).
    + rewrite (He (resolve (B "other"))); [reflexivity|]. intros [|[|i]] Hi'; [by vm_compute|by vm_compute|lia].
Defined.

(** ** Any faults *)

Section faults.
  Context {F : Type} `{Formatter F}.

  (** The text of the log file: on the disk and still in the buffer. *)
Definition log_text (h : file_helper) (w : world) : option bytes :=
    f ← fd_ h; Some (contents (f_path f) w ++ f_buf f).

  (** Opening ends with an open file, empty when it was to be truncated, or with an exception
      and none. *)
Lemma open_loop_cases tries fname tr h w :
    fd_ h = None -> filename_ h = fname ->
    (exists w', open_loop tries fname tr h w = (Ok tt, (MkHelper (Some (MkFILE (resolve fname) [])) fname, w')) /\
       (tr = true -> contents (resolve fname) w' = [])) \/
    (exists e w', open_loop tries fname tr h w = (Throw e, (h, w'))).
Proof.
    intros Hfd Hn. revert w. induction tries as [|tries IH]; intros w; cbn [open_loop]; [right; by eexists _, _|].
    set (w1 := ensure_dir fname w). clearbody w1. set (m := if tr then _ else (false, w1)).
    assert (exists skip w2, m = (skip, w2) /\ (tr = true -> skip = false -> contents (resolve fname) w2 = [])) as (skip & w2 & -> & Hc).
    { unfold m. destruct tr; [|by eexists _, _]. unfold fopen_s. destruct (next_fault w1) as [bad w'].
      destruct (bad || _); eexists _, _; (split; [done|]); [done|]. intros _ _. unfold fclose, fflush. cbn [snd f_path f_buf].
      by rewrite !contents_set. }
    destruct skip; [apply IH|]. destruct (fopen_s fname false w2) as [[fl|] w3] eqn:Hop; [|apply IH].
    unfold fopen_s in Hop. destruct (next_fault w2) as [bad w'] eqn:Hbad.
    destruct (bad || negb (openable fname w')); [done|]. injection Hop as <- <-.
    left. rewrite Hn. eexists. split; [done|]. intros ->. rewrite contents_set.
    unfold next_fault in Hbad. unfold contents in *. destruct (faults w2); injection Hbad as _ <-; by apply Hc.
Qed.

Lemma reopen_cases (s : rotating_file_sink F) w :
    fd_ (file_helper_ s) = None -> filename_ (file_helper_ s) = base_filename_ s ->
    (exists w', reopen_ true (s, w) =
       (Ok tt, (with_helper (MkHelper (Some (MkFILE (resolve (base_filename_ s)) [])) (base_filename_ s)) s, w')) /\
       contents (resolve (base_filename_ s)) w' = []) \/
    (exists e w', reopen_ true (s, w) = (Throw e, (s, w'))).
Proof.
    destruct s as [b base mx n cur [fd fname]]. cbn [file_helper_ fd_ filename_ base_filename_]. intros -> ->.
    unfold reopen_, reopen. cbn [file_helper_ fst snd filename_].
    case_bool_decide; [right; by eexists _, _|]. unfold open, close. cbn [fd_].
    destruct (open_loop_cases open_tries_ base true (MkHelper None base) w) as [(w' & -> & Hc)|(e & w' & ->)]; try done.
    - left. eexists. split; [done|]. by apply Hc.
    - right. by eexists _, _.
Qed.

  (** A sink whose file is closed: a failed rotation, or one under way. *)
Definition closed (s : rotating_file_sink F) : Prop :=
    fd_ (file_helper_ s) = None /\ filename_ (file_helper_ s) = base_filename_ s.

  (** After a rotation that did not fail the log is empty; after one that did it is
      empty with size 0, or closed with the size unchanged. *)
Definition emptied (s : rotating_file_sink F) (w : world) : Prop := log_text (file_helper_ s) w = Some [].

Lemma rotate_loop_cases i s w :
    closed s ->
    (exists w', rotate_loop i (s, w) = (Ok tt, (s, w'))) \/
    (exists e s' w', rotate_loop i (s, w) = (Throw e, (s', w')) /\
       base_filename_ s' = base_filename_ s /\ max_size_ s' = max_size_ s /\ rot_base s' = rot_base s /\
       filename_ (file_helper_ s') = base_filename_ s /\
       ((emptied s' w' /\ current_size_ s' = 0%Z) \/ s' = s)).
Proof.
    intros Hcl. revert w. induction i as [|k IH]; intros w; cbn [rotate_loop]; [left; by eexists|].
    case_match; [apply IH|]. destruct (rename_file_ _ _ w) as [[] w1]; [apply IH|].
    destruct (rename_file_ _ _ w1) as [[] w2]; [apply IH|]. right.
    destruct (reopen_cases s w2) as [(w' & -> & Hc)|(e & w' & ->)]; try apply Hcl.
    - eexists _, _, _. split; [done|]. cbn [with_size with_helper base_filename_ max_size_ rot_base file_helper_ filename_ current_size_].
      split_and!; try done. left. split; [|done]. unfold emptied, log_text. cbn. by rewrite Hc.
    - eexists _, _, _. split; [done|]. destruct Hcl. split_and!; auto.
Qed.

Lemma rotate_cases s w :
    filename_ (file_helper_ s) = base_filename_ s ->
    exists r s' w', rotate_ (s, w) = (r, (s', w')) /\ r <> Undef /\
      base_filename_ s' = base_filename_ s /\ max_size_ s' = max_size_ s /\ rot_base s' = rot_base s /\
      filename_ (file_helper_ s') = base_filename_ s /\
      ((emptied s' w' /\ (current_size_ s' = 0%Z \/ r = Ok tt)) \/
       (closed s' /\ current_size_ s' = current_size_ s /\ r <> Ok tt)).
Proof.
    intros Hn. unfold rotate_. destruct (close (file_helper_ s, w)) as [h w1] eqn:Hclose.
    assert (fd_ h = None /\ filename_ h = base_filename_ s) as [Hfd Hh].
    { unfold close in Hclose. destruct (fd_ (file_helper_ s)) eqn:Hfd; by injection Hclose as <- <-. }
    set (s1 := with_helper h s). assert (closed s1) as Hcl by done.
    destruct (rotate_loop_cases (max_files_ s) s1 w1 Hcl) as [(w' & ->)|(e & s' & w' & -> & Hb & Hm & Hr & Hf & Hcase)].
    - destruct (reopen_cases s1 w') as [(w2 & -> & Hc)|(e & w2 & ->)]; try apply Hcl; eexists _, _, _; (split; [done|]).
      + split_and!; try done. left. split; [|by right]. unfold emptied, log_text. subst s1. cbn in *. by rewrite Hc.
      + split_and!; try done. right. by split_and!.
    - eexists _, _, _. split; [done|]. split_and!; try done.
      destruct Hcase as [[He H0]| ->]; [left; by auto|right; by split_and!].
Qed.

  (** The invariant: an open log is no longer than [current_size_], and at most the maximal
      size or [m]; a closed one has a size that makes the next message rotate. *)
Record sink_inv (m total : Z) (s : rotating_file_sink F) (w : world) : Prop := {
    si_name : filename_ (file_helper_ s) = base_filename_ s;
    si_size : (0 <= current_size_ s <= total)%Z;
    si_log : match log_text (file_helper_ s) w with
             | Some text => (Z.of_nat (length text) <= current_size_ s)%Z /\ (Z.of_nat (length text) <= Z.max (max_size_ s) m)%Z
             | None => (max_size_ s < current_size_ s)%Z
             end }.

Lemma closed_text s w : closed s -> log_text (file_helper_ s) w = None.
Proof. intros [Hc _]. unfold log_text. by rewrite Hc. Qed.

Lemma write_cases buf h w text :
    log_text h w = Some text ->
    exists r h' w', write buf (h, w) = (r, (h', w')) /\ r <> Undef /\ filename_ h' = filename_ h /\
      (log_text h' w' = Some text \/ log_text h' w' = Some (text ++ buf)).
Proof.
    unfold log_text, write. destruct h as [[f|] fname]; [|done]. cbn [fd_ mbind option_bind filename_]. intros [= <-].
    unfold fwrite. destruct buf as [|c buf]; [eexists _, _, _; split; [done|]; by auto|].
    destruct (next_fault w) as [bad w'] eqn:Hbad.
    assert (forall p, contents p w' = contents p w) as Hc.
    { intros p. unfold next_fault in Hbad. destruct (faults w); by injection Hbad as _ <-. }
    destruct bad; eexists _, _, _; (split; [done|]); cbn [fd_ filename_ mbind option_bind f_path f_buf];
      (split_and!; [done|done|]); rewrite Hc, ?app_assoc; auto.
Qed.

Lemma sink_it_inv m total msg s w f line :
    sink_inv m total s w -> f_format (formatter_ (rot_base s)) msg = Some (f, line) ->
    (Z.of_nat (length line) <= m)%Z -> (0 <= max_size_ s)%Z -> (total + Z.of_nat (length line) < 2 ^ 64)%Z ->
    exists r s' w', sink_it_ msg (s, w) = (r, (s', w')) /\ r <> Undef /\
      sink_inv m (total + Z.of_nat (length line)) s' w' /\ formatter_ (rot_base s') = f /\ max_size_ s' = max_size_ s.
Proof.
    intros [Hn Hsz Hlog] Hf Hm Hmax Htot. unfold sink_it_. rewrite Hf.
    cbn [with_base with_size current_size_ max_size_]. rewrite u64_small by lia.
    destruct (max_size_ s <? _)%Z eqn:Hbig; to_prop.
    - set (s1 := with_size _ _).
      assert (current_size_ s1 = current_size_ s + Z.of_nat (length line))%Z as Hcur by (apply u64_small; lia).
      destruct (rotate_cases s1 w Hn) as (r & s2 & w2 & -> & Hr & Hb & Hmx & Hbase & Hnm & Hcase).
      destruct r as [[]|e|]; [| |done].
      + destruct Hcase as [[He _]|(_ & _ & Hno)]; [|done].
        unfold write_. cbn [with_size file_helper_].
        destruct (write_cases line _ _ _ He) as (r & h' & w' & -> & Hr' & Hnm' & Htext).
        eexists _, _, _. split; [done|]. split; [done|]. split_and!; [|by cbn; rewrite Hbase|done].
        cbn [with_helper with_size file_helper_ base_filename_ current_size_ max_size_ rot_base].
        constructor; cbn [with_helper with_size file_helper_ base_filename_ current_size_ max_size_].
        * congruence.
        * rewrite u64_small by lia. lia.
        * rewrite u64_small by lia. destruct Htext as [-> | ->]; cbn [app length]; lia.
      + eexists _, _, _. split; [done|]. split; [done|]. split_and!; [|by rewrite Hbase|done].
        destruct Hcase as [[He [H0|?]]|(Hcl & Hc & _)]; [|done|].
        * constructor; [congruence|rewrite H0; lia|]. unfold emptied in He. rewrite He, H0. cbn [length]. lia.
        * constructor; [congruence|rewrite Hc, Hcur; lia|]. rewrite closed_text by done. rewrite Hc, Hcur, Hmx. exact Hbig.
    - destruct (log_text (file_helper_ s) w) as [text|] eqn:Ht; [|lia]. unfold write_. cbn [file_helper_ with_size with_base].
      destruct (write_cases line _ _ _ Ht) as (r & h' & w' & -> & Hr' & Hnm' & Htext).
      eexists _, _, _. split; [done|]. split; [done|]. split_and!; [|done|done].
      constructor; cbn [with_helper with_size with_base file_helper_ base_filename_ current_size_ max_size_].
      + congruence.
      + rewrite ?u64_small by lia. lia.
      + rewrite ?u64_small by lia. destruct Htext as [-> | ->]; rewrite ?length_app; lia.
Qed.

  (** The calls of a logger, which catches the exceptions; [None] is undefined behaviour. *)
Fixpoint log_caught (msgs : list log_msg) (st : rotating_file_sink F * world) : option (rotating_file_sink F * world) :=
    match msgs with
    | [] => Some st
    | m :: msgs => match sink_it_ m st with (Undef, _) => None | (_, st) => log_caught msgs st end
    end.

Definition total_length (lines : list bytes) : Z := foldr (fun l n => Z.of_nat (length l) + n)%Z 0%Z lines.

Lemma total_length_nonneg lines : (0 <= total_length lines)%Z.
Proof. induction lines as [|l lines IH]; cbn [total_length foldr]; [done|]. unfold total_length in IH. lia. Qed.

Lemma log_caught_inv m total msgs s w lines :
    sink_inv m total s w -> format_lines (formatter_ (rot_base s)) msgs = Some lines ->
    Forall (fun l => Z.of_nat (length l) <= m)%Z lines -> (0 <= max_size_ s)%Z ->
    (total + total_length lines < 2 ^ 64)%Z ->
    exists s' w', log_caught msgs (s, w) = Some (s', w') /\ sink_inv m (total + total_length lines) s' w' /\
      max_size_ s' = max_size_ s.
Proof.
    revert s w total lines. induction msgs as [|msg msgs IH]; intros s w total lines Hs Hf Hl Hmax Htot; cbn [format_lines] in Hf.
    - injection Hf as <-. exists s, w. cbn [total_length foldr]. by rewrite Z.add_0_r.
    - destruct (f_format _ msg) as [[f line]|] eqn:Hfm; [|done]. cbn [mbind option_bind] in Hf.
      destruct (format_lines f msgs) as [ls|] eqn:Hls; [|done]. cbn [mbind option_bind] in Hf. injection Hf as <-.
      apply Forall_cons in Hl as [Hl Hls']. cbn [total_length foldr] in *. fold (total_length ls) in *.
      pose proof (total_length_nonneg ls).
      destruct (sink_it_inv m total msg s w f line Hs Hfm Hl Hmax) as (r & s1 & w1 & Hr & Hne & Hs1 & Hf1 & Hm1); [lia|].
      cbn [log_caught]. rewrite Hr. rewrite <- Hf1 in Hls.
      destruct (IH s1 w1 _ ls Hs1 Hls Hls') as (s2 & w2 & Hr2 & Hs2 & Hm2); [lia|lia|].
      exists s2, w2. split_and!; [by destruct r|by rewrite Z.add_assoc|congruence].
Qed.

Lemma mk_sink_cases f base max_size n w :
    (exists (s : rotating_file_sink F) w', mk_rotating_file_sink f base max_size n false w = (Ok s, w') /\
      fd_ (file_helper_ s) = Some (MkFILE (resolve base) []) /\ filename_ (file_helper_ s) = base /\
      base_filename_ s = base /\ max_size_ s = max_size /\ formatter_ (rot_base s) = f /\
      current_size_ s = u64 (Z.of_nat (length (contents (resolve base) w')))) \/
    (exists e w', mk_rotating_file_sink f base max_size n false w = (@Throw (rotating_file_sink F) e, w')).
Proof.
    unfold mk_rotating_file_sink, open, close. cbn [calc_filename new_helper fd_].
    destruct (open_loop_cases open_tries_ base false (MkHelper None base) w) as [(w' & -> & Hc)|(e & w' & ->)]; try done.
    - left. cbn [size fd_ fst snd andb]. by eexists _, _.
    - right. by eexists _, _.
Qed.
End faults.

(** C36: the rotating sink under any faults of the file system, in any state of it: the constructor
    throws or gives a sink; from then on, with exceptions caught as the logger does, no
    sequence of messages leads to a write on a closed file, and the log file never holds more
    than the maximal size or [m], the longest of its initial text and the lines. *)
Theorem rotating_sink_safe {F : Type} `{Formatter F} base n f max_size w :
  (0 <= max_size)%Z ->
  (exists e w', mk_rotating_file_sink f base max_size n false w = (@Throw (rotating_file_sink F) e, w')) \/
  (exists s0 w0, mk_rotating_file_sink f base max_size n false w = (Ok s0, w0) /\
     forall msgs lines m, format_lines f msgs = Some lines ->
       Forall (fun l => Z.of_nat (length l) <= m)%Z (contents (resolve base) w0 :: lines) ->
       (Z.of_nat (length (contents (resolve base) w0)) + total_length lines < 2 ^ 64)%Z ->
       exists s w', log_caught msgs (s0, w0) = Some (s, w') /\
         match log_text (file_helper_ s) w' with
         | Some text => (Z.of_nat (length text) <= Z.max max_size m)%Z
         | None => True
         end).
Proof.
  intros Hmax. destruct (mk_sink_cases f base max_size n w) as [(s0 & w0 & Hmk & Hfd & Hn & Hb & Hm & Hf & Hc)|Ht]; [right|by left].
  exists s0, w0. split; [done|]. intros msgs lines m Hlines Hl Htot. apply Forall_cons in Hl as [Hl0 Hl].
  pose proof (total_length_nonneg lines). rewrite u64_small in Hc by lia.
  assert (sink_inv m (current_size_ s0) s0 w0) as Hinv.
  { constructor; [congruence|lia|]. unfold log_text. rewrite Hfd. cbn. rewrite app_nil_r. lia. }
  destruct (log_caught_inv _ _ msgs s0 w0 lines Hinv) as (s & w' & Hr & Hs & Hms); rewrite ?Hf, ?Hm; try done; [lia|].
  exists s, w'. split; [done|]. pose proof (si_log _ _ _ _ Hs) as Hlog. destruct (log_text _ _); [|done].
  rewrite Hms, Hm in Hlog. lia.
Qed.

(** Opening works once, then the rotation for the second message fails to open the file and
    the third message rotates again. *)
Lemma rotating_sink_safe_witness :
  (exists e w', mk_rotating_file_sink tt (B "log/a.txt") 8 0 false
     (MkWorld (files_ demo_world) (dirs demo_world) [false; false; true; true; true; true; true]) = (@Throw (rotating_file_sink unit) e, w')) \/
  exists s0 w0 s w', mk_rotating_file_sink tt (B "log/a.txt") 8 0 false
     (MkWorld (files_ demo_world) (dirs demo_world) [false; false; true; true; true; true; true]) = (Ok s0, w0) /\
    log_caught [text_msg "one"; text_msg "two"; text_msg "three"] (s0, w0) = Some (s, w') /\
    match log_text (file_helper_ s) w' with Some text => (Z.of_nat (length text) <= Z.max 8 6)%Z | None => True end.
Proof.
  destruct (rotating_sink_safe (F := unit) (B "log/a.txt") 0 tt 8
    (MkWorld (files_ demo_world) (dirs demo_world) [false; false; true; true; true; true; true]))
    as [Ht|(s0 & w0 & Hmk & Hrun)]; [done|by left|right].
  assert (contents (resolve (B "log/a.txt")) w0 = B "old" ++ [LF]) as Hc.
  { change w0 with (snd (Ok s0, w0)). rewrite <- Hmk. vm_compute. reflexivity. }
  destruct (Hrun [text_msg "one"; text_msg "two"; text_msg "three"]
    [B "one" ++ [LF]; B "two" ++ [LF]; B "three" ++ [LF]] 6%Z) as (s & w' & H1 & H2); rewrite ?Hc.
  - reflexivity.
  - repeat constructor; done.
  - reflexivity.
  - by exists s0, w0, s, w'.
Defined.
