(* ===== verification/CircularQueue.v ===== *)
(** * The circular queue: [spdlog/details/circular_q.h]

    A bounded queue in a vector with one reserved slot, which overruns its oldest item; the
    specification is a list of which the oldest items are dropped.  It is the store of the
    backtraces and of the asynchronous queue. *)
From S2P Require Import Prelude.

Section circular_q.
  Context {T : Type}.

Record circular_q := MkQ { max_items_ : nat; head_ : nat; tail_ : nat; overrun_counter_ : Z; v_ : list T }.

  (** [circular_q()] and [circular_q(max_items)], with the default items of the vector; with the
      largest [size_t] the sum would wrap, which no caller asks for. *)
Definition disabled_q : circular_q := MkQ 0 0 0 0 [].
Definition mk_circular_q (junk : T) (max_items : nat) : circular_q :=
    MkQ (max_items + 1) 0 0 0 (replicate (max_items + 1) junk).

Definition push_back (item : T) (q : circular_q) : circular_q :=
    if (0 <? max_items_ q)%nat then
      let v := <[tail_ q := item]> (v_ q) in
      let tail := (tail_ q + 1) `mod` max_items_ q in
      if (tail =? head_ q)%nat then
        MkQ (max_items_ q) ((head_ q + 1) `mod` max_items_ q) tail (u64 (overrun_counter_ q + 1)) v
      else MkQ (max_items_ q) (head_ q) tail (overrun_counter_ q) v
    else q.

  (** Reading the vector at [head_]; nothing is there in a disabled queue. *)
Definition front (q : circular_q) : option T := v_ q !! head_ q.

Definition size (q : circular_q) : nat :=
    if (head_ q <=? tail_ q)%nat then tail_ q - head_ q else max_items_ q - (head_ q - tail_ q).

Definition at_ (i : nat) (q : circular_q) : option T :=
    if (i <? size q)%nat then v_ q !! ((head_ q + i) `mod` max_items_ q) else None.

  (** The remainder by a zero [max_items_] is undefined. *)
Definition pop_front (q : circular_q) : option circular_q :=
    match max_items_ q with
    | 0 => None
    | _ => Some (MkQ (max_items_ q) ((head_ q + 1) `mod` max_items_ q) (tail_ q) (overrun_counter_ q) (v_ q))
    end.

Definition empty (q : circular_q) : bool := (tail_ q =? head_ q)%nat.
Definition full (q : circular_q) : bool :=
    if (0 <? max_items_ q)%nat then ((tail_ q + 1) `mod` max_items_ q =? head_ q)%nat else false.

  (** [copy_moveable]: the moved queue and what is left of the other. *)
Definition copy_moveable (other : circular_q) : circular_q * circular_q := (other, disabled_q).

  (** ** The specification *)

  (** A disabled queue, or indices within the vector. *)
Definition wf (q : circular_q) : Prop :=
    length (v_ q) = max_items_ q /\
    (max_items_ q = 0 /\ head_ q = 0 /\ tail_ q = 0 \/ head_ q < max_items_ q /\ tail_ q < max_items_ q).

  (** The items, oldest first. *)
Definition items (q : circular_q) : list T :=
    let r := v_ q ++ v_ q in take (size q) (drop (head_ q) r).

Definition capacity (q : circular_q) : nat := max_items_ q - 1.

  (** The newest [n] elements of a list. *)
Definition newest (n : nat) (l : list T) : list T := drop (length l - n) l.

  (** What a list keeps when it grows, and what it loses. *)
Lemma newest_split n (l k : list T) :
    newest n (l ++ k) = newest n (newest n l ++ k) /\
    take (length (l ++ k) - n) (l ++ k) =
      take (length l - n) l ++ take (length (newest n l ++ k) - n) (newest n l ++ k).
Proof.
    unfold newest. destruct (decide (length l <= n)) as [Hl|Hl].
    - replace (length l - n) with 0 by lia. by rewrite drop_0.
    - assert (exists a d, l = a ++ d /\ length d = n) as (a & d & -> & Hd).
      { exists (take (length l - n) l), (drop (length l - n) l). rewrite take_drop, length_drop. split; [done|lia]. }
      rewrite !length_app, Hd, Nat.add_sub, take_app_length, drop_app_length, <- !app_assoc, ?length_app, ?Hd.
      replace (length a + n + length k - n) with (length a + (n + length k - n)) by lia. by rewrite drop_app_add, take_app_add.
Qed.

Lemma newest_newest a b (l : list T) : newest a (newest b l) = newest (Nat.min a b) l.
Proof. unfold newest. rewrite length_drop, drop_drop. f_equal. lia. Qed.

Lemma size_bound q : wf q -> size q <= capacity q /\ (max_items_ q = 0 -> size q = 0).
Proof.
    unfold wf, size, capacity. intros [_ [(-> & -> & ->)|[Hh Ht]]]; [done|]. case_match; to_prop; lia.
  Qed.

Lemma mod_wrap a n : 0 < n -> a < n + n -> a `mod` n = if (a <? n)%nat then a else a - n.
Proof.
    intros Hn Ha. destruct (a <? n)%nat eqn:Hlt; to_prop; [by apply Nat.mod_small|].
    replace a with ((a - n) + 1 * n) at 1 by lia. rewrite Nat.Div0.mod_add. apply Nat.mod_small. lia.
  Qed.

Lemma items_length q : wf q -> length (items q) = size q.
Proof.
    intros Hq. pose proof (size_bound q Hq) as [Hs _]. destruct Hq as [Hv Hi]. unfold items.
    rewrite length_take, length_drop, length_app. unfold capacity in Hs. lia.
  Qed.

Lemma items_lookup q i : wf q -> i < size q -> items q !! i = v_ q !! ((head_ q + i) `mod` max_items_ q).
Proof.
    intros Hq Hi. pose proof (size_bound q Hq) as [Hs _]. unfold capacity in Hs. destruct Hq as [Hv Hb].
    assert (0 < max_items_ q) by lia. destruct Hb as [[? _]|[Hh Ht]]; [lia|].
    unfold items. rewrite lookup_take_lt, lookup_drop by done. rewrite mod_wrap by lia.
    destruct (_ <? _)%nat eqn:Hlt; to_prop; [by rewrite lookup_app_l by lia|].
    rewrite lookup_app_r by lia. by rewrite Hv.
  Qed.

Lemma items_ext q l : wf q -> length l = size q -> (forall i, i < size q -> v_ q !! ((head_ q + i) `mod` max_items_ q) = l !! i) -> items q = l.
Proof.
    intros Hq Hl Hi. apply list_eq_same_length with (size q); [done|by apply items_length|].
    intros i x y Hlt Hx Hy. rewrite items_lookup, Hi in Hx by done. congruence.
  Qed.

Lemma wf_new junk n : wf (mk_circular_q junk n).
Proof. split; [apply length_replicate|right; cbn; lia]. Qed.

Lemma wf_disabled : wf disabled_q.
Proof. split; [done|by left]. Qed.

Lemma push_back_wf x q : wf q -> wf (push_back x q).
Proof.
    intros [Hv Hb]. unfold push_back. case_match; [|by split]. to_prop.
    destruct Hb as [[? _]|[Hh Ht]]; [lia|].
    case_match; (split; [by cbn; rewrite length_insert|right; cbn; split]); (lia || by apply Nat.mod_upper_bound; lia).
  Qed.

Lemma pop_front_wf q q' : wf q -> pop_front q = Some q' -> wf q'.
Proof.
    intros [Hv Hb]. unfold pop_front. destruct (max_items_ q) eqn:Hm; [done|]. intros [= <-].
    destruct Hb as [[? _]|[Hh Ht]]; [lia|]. split; [done|right; cbn [head_ tail_ max_items_]].
    split; [exact (Nat.mod_upper_bound (head_ q + 1) (S n) ltac:(lia))|lia].
  Qed.

Lemma full_size q : wf q -> 0 < max_items_ q -> full q = (size q =? capacity q)%nat.
Proof.
    intros [Hv Hb] Hm. unfold full, size, capacity. rewrite (proj2 (Nat.ltb_lt _ _) Hm).
    destruct Hb as [[? _]|[Hh Ht]]; [lia|]. rewrite mod_wrap by lia.
    apply Bool.eq_iff_eq_true. rewrite !Nat.eqb_eq. repeat case_match; to_prop; lia.
  Qed.

Lemma empty_size q : wf q -> empty q = (size q =? 0)%nat.
Proof.
    intros [Hv Hb]. unfold empty, size. apply Bool.eq_iff_eq_true. rewrite !Nat.eqb_eq.
    case_match; to_prop; lia.
  Qed.

  (** What every operation does to the list of items. *)
Lemma push_back_items x q : wf q -> 0 < max_items_ q ->
    items (push_back x q) = newest (capacity q) (items q ++ [x]) /\
    overrun_counter_ (push_back x q) = (if full q then u64 (overrun_counter_ q + 1) else overrun_counter_ q) /\
    max_items_ (push_back x q) = max_items_ q.
Proof.
    intros Hq Hm. pose proof (push_back_wf x q Hq) as Hw. pose proof (size_bound q Hq) as [Hsz _].
    pose proof (items_length q Hq) as Hlen. pose proof Hq as [Hv Hb]. destruct Hb as [[? _]|[Hh Ht]]; [lia|].
    unfold full. rewrite (proj2 (Nat.ltb_lt _ _) Hm).
    unfold push_back in *. rewrite (proj2 (Nat.ltb_lt _ _) Hm) in *.
    set (tail := (tail_ q + 1) `mod` max_items_ q) in *.
    assert (tail = if (tail_ q + 1 <? max_items_ q)%nat then tail_ q + 1 else tail_ q + 1 - max_items_ q) as Htail by (apply mod_wrap; lia).
    unfold capacity in *.
    destruct (tail =? head_ q)%nat eqn:Hfull; to_prop; split_and!; try done; apply items_ext; try done.
    - unfold newest. rewrite length_drop, length_app, Hlen. cbn [length]. unfold size in *. cbn [head_ tail_ max_items_] in *.
      rewrite mod_wrap by lia. repeat case_match; to_prop; lia.
    - intros i Hi. unfold newest. rewrite lookup_drop, length_app, Hlen. cbn [length v_ head_ max_items_].
      assert (size q = max_items_ q - 1) as Hsq by (unfold size; repeat case_match; to_prop; lia).
      rewrite Hsq. replace (max_items_ q - 1 + 1 - (max_items_ q - 1)) with 1 by lia.
      assert (i < max_items_ q - 1) as Hi'.
      { pose proof (size_bound _ Hw) as [Hb' _]. unfold capacity in Hb'. cbn [max_items_] in Hb'. lia. }
      rewrite Nat.Div0.add_mod_idemp_l.
      destruct (decide (i = max_items_ q - 2)) as [->|Hne].
      + rewrite lookup_app_r by lia. replace (1 + (max_items_ q - 2) - length (items q)) with 0 by lia. cbn [lookup list_lookup].
        assert ((head_ q + 1 + (max_items_ q - 2)) `mod` max_items_ q = tail_ q) as ->.
        { rewrite mod_wrap by lia. repeat case_match; to_prop; lia. }
        rewrite list_lookup_insert_eq by lia. done.
      + rewrite lookup_app_l, items_lookup by (done || lia).
        replace (head_ q + (1 + i)) with (head_ q + 1 + i) by lia.
        rewrite list_lookup_insert_ne; [done|]. rewrite mod_wrap by lia. repeat case_match; to_prop; lia.
    - unfold newest. rewrite length_drop, length_app, Hlen. cbn [length]. unfold size in *. cbn [head_ tail_ max_items_] in *.
      repeat case_match; to_prop; lia.
    - intros i Hi. unfold newest. rewrite lookup_drop, length_app, Hlen. cbn [length v_ head_ max_items_].
      assert (size q < max_items_ q - 1) as Hsq by (unfold size; repeat case_match; to_prop; lia).
      replace (size q + 1 - (max_items_ q - 1)) with 0 by lia. cbn [Nat.add].
      assert (i <= size q) as Hi' by (unfold size in *; cbn [head_ tail_ max_items_] in *; repeat case_match; to_prop; lia).
      destruct (decide (i = size q)) as [->|Hne].
      + rewrite lookup_app_r by lia. rewrite Hlen, Nat.sub_diag. cbn [lookup list_lookup].
        assert ((head_ q + size q) `mod` max_items_ q = tail_ q) as ->.
        { unfold size. rewrite mod_wrap by (repeat case_match; to_prop; lia). repeat case_match; to_prop; lia. }
        rewrite list_lookup_insert_eq by lia. done.
      + rewrite lookup_app_l, items_lookup by (done || lia).
        rewrite list_lookup_insert_ne; [done|]. unfold size in *. rewrite mod_wrap by lia. repeat case_match; to_prop; lia.
  Qed.

Lemma front_items q : wf q -> size q <> 0 -> front q = head (items q).
Proof.
    intros Hq Hs. rewrite head_lookup, items_lookup by (done || lia). unfold front. rewrite Nat.add_0_r.
    destruct (size_bound q Hq) as [Hb H0]. destruct Hq as [Hv [(Hm & _)|[Hh Ht]]]; [by apply H0 in Hm|].
    by rewrite Nat.mod_small.
  Qed.

Lemma at_items q i : wf q -> at_ i q = items q !! i.
Proof.
    intros Hq. unfold at_. destruct (i <? size q)%nat eqn:Hi; to_prop; [by rewrite items_lookup|].
    symmetry. apply lookup_ge_None. rewrite items_length by done. lia.
  Qed.

Lemma pop_front_items q : wf q -> size q <> 0 ->
    exists q', pop_front q = Some q' /\ wf q' /\ items q' = tail (items q) /\
      max_items_ q' = max_items_ q /\ overrun_counter_ q' = overrun_counter_ q.
Proof.
    intros Hq Hs. pose proof (size_bound q Hq) as [Hb H0].
    assert (exists q', pop_front q = Some q') as [q' Hp] by (unfold pop_front; destruct (max_items_ q); [lia|by eexists]).
    pose proof (pop_front_wf q q' Hq Hp) as Hq'. exists q'. split; [done|]. split; [done|].
    unfold pop_front in Hp. destruct (max_items_ q) as [|m] eqn:Hm; [done|]. rewrite <- Hm in Hp.
    assert (q' = MkQ (max_items_ q) ((head_ q + 1) `mod` max_items_ q) (tail_ q) (overrun_counter_ q) (v_ q)) as Heq by congruence.
    clear Hp. subst q'. split_and!; [|done|done].
    assert (0 < max_items_ q) as Hpos by lia. clear H0 Hb. clear m Hm. pose proof Hq as [Hv [(Hm & _)|[Hh Ht]]]; [lia|].
    assert (size (MkQ (max_items_ q) ((head_ q + 1) `mod` max_items_ q) (tail_ q) (overrun_counter_ q) (v_ q)) = size q - 1) as Hsz.
    { unfold size in *. cbn [head_ tail_ max_items_]. rewrite mod_wrap by lia. repeat case_match; to_prop; lia. }
    apply items_ext; [done|rewrite length_tl, items_length by done; lia|].
    intros i Hi. rewrite lookup_tail. rewrite items_lookup by (done || lia). cbn [v_ head_ max_items_].
    rewrite Nat.Div0.add_mod_idemp_l. do 2 f_equal. lia.
  Qed.
End circular_q.

Arguments circular_q : clear implicits.

#[export] Hint Resolve wf_new wf_disabled push_back_wf pop_front_wf : fdfs.

(** [circular_q] is a bounded list of the newest items: from either constructor on, whatever
    items are pushed, the queue holds the newest [capacity] of them, oldest first; pushing onto a
    full queue counts an overrun; a disabled queue stays empty; [size], [empty], [full], [front],
    [at] and [pop_front] agree with that list. *)
Theorem circular_q_correct {T} (q : circular_q T) (x : T) :
  wf q ->
  (wf (push_back x q) /\
   items (push_back x q) = (if (0 <? max_items_ q)%nat then newest (capacity q) (items q ++ [x]) else []) /\
   overrun_counter_ (push_back x q) = (if full q then u64 (overrun_counter_ q + 1) else overrun_counter_ q)) /\
  size q = length (items q) /\ empty q = (length (items q) =? 0)%nat /\
  full q = (0 <? max_items_ q)%nat && (length (items q) =? capacity q)%nat /\ length (items q) <= capacity q /\
  (forall i, at_ i q = items q !! i) /\
  (items q <> [] -> front q = head (items q) /\ exists q', pop_front q = Some q' /\ wf q' /\ items q' = tail (items q)) /\
  (copy_moveable q).1 = q /\ wf (copy_moveable q).2 /\ items (copy_moveable q).2 = [].
Proof.
  intros Hq. pose proof (items_length q Hq) as Hlen. pose proof (size_bound q Hq) as [Hb H0].
  split_and!; try done.
  - by apply push_back_wf.
  - destruct (0 <? max_items_ q)%nat eqn:Hm; to_prop; [by apply push_back_items|].
    unfold push_back. rewrite (proj2 (Nat.ltb_ge _ _)) by lia.
    apply nil_length_inv. rewrite Hlen. apply H0. lia.
  - destruct (0 <? max_items_ q)%nat eqn:Hm; to_prop; [by apply push_back_items|].
    unfold push_back, full. by rewrite (proj2 (Nat.ltb_ge 0 (max_items_ q))) by lia.
  - rewrite Hlen. by apply empty_size.
  - rewrite Hlen. destruct (0 <? max_items_ q)%nat eqn:Hm; cbn [andb]; to_prop; [by apply full_size|].
    unfold full. by rewrite (proj2 (Nat.ltb_ge 0 (max_items_ q))) by lia.
  - by rewrite Hlen.
  - intros i. by apply at_items.
  - intros Hne. assert (size q <> 0) as Hs by (rewrite <- Hlen; by destruct (items q)). split; [by apply front_items|].
    destruct (pop_front_items q Hq Hs) as (q' & Hp & Hw & Hi & _). by exists q'.
  - apply wf_disabled.
Qed.

Lemma circular_q_correct_witness :
  let q := push_back 3 (push_back 2 (push_back 1 (mk_circular_q 0 2))) in
  items (push_back 4 q) = [3; 4] /\ overrun_counter_ (push_back 4 q) = 2%Z.
Proof.
  intros q. assert (wf q) as Hq by (do 3 apply push_back_wf; apply wf_new).
  destruct (circular_q_correct q 4 Hq) as ((_ & H1 & H2) & _). split; [exact H1|exact H2].
Defined.
