(* ===== verification/TimedSinks.v ===== *)
(** * Sinks that change their file with the date: [spdlog/sinks/daily_file_sink.h], [hourly_file_sink.h]

    The two sinks are one template of code: what differs is the name of a file, the time it is
    for and the fields of the date it begins at, a [schedule] here.  Times are nanoseconds, as
    [log_clock] counts them; [localtime] and [mktime] are parameters, and so is each answer of
    the clock.  The specification is a file system, the names that are kept and the time of the
    next rotation; the sink refines it as long as the names are new, and examples show what
    happens when a name comes again. *)
From S2P Require Import Prelude CLib Fmt PatternFormatter Files Sinks RotatingTheory CircularQueue.

(** ** Names and schedules *)

(** [{:04d}], as [Fmt.format_02] is [{:02}]. *)
Definition format_04 (n : Z) : bytes := if (n <? 0)%Z then "-"%char :: zpad 3 (- n) else zpad 4 n.

Definition daily_calc_filename (filename : bytes) (now_tm : tm) : bytes :=
  let '(basename, ext) := split_by_extension filename in
  basename ++ B "_" ++ format_04 (tm_year now_tm + 1900) ++ B "-" ++ format_02 (tm_mon now_tm + 1) ++ B "-" ++
  format_02 (tm_mday now_tm) ++ ext.

Definition hourly_calc_filename (filename : bytes) (now_tm : tm) : bytes :=
  let '(basename, ext) := split_by_extension filename in
  basename ++ B "_" ++ format_04 (tm_year now_tm + 1900) ++ format_02 (tm_mon now_tm + 1) ++ format_02 (tm_mday now_tm) ++
  B "_" ++ format_02 (tm_hour now_tm) ++ ext.

Record schedule := MkSchedule {
  name_calc : bytes -> tm -> bytes; period : Z; rotation_date : tm -> tm; removing_failed : bytes }.

Definition hours (n : Z) : Z := n * 3600 * NS_PER_SEC.

Definition at_time (hour min : Z) (date : tm) : tm :=
  MkTm 0 min hour (tm_mday date) (tm_mon date) (tm_year date) (tm_wday date) (tm_yday date) (tm_isdst date) (tm_gmtoff date).

Definition daily (rotation_h_ rotation_m_ : Z) : schedule :=
  MkSchedule daily_calc_filename (hours 24) (at_time rotation_h_ rotation_m_) (B "Failed removing daily file ").
Definition hourly : schedule :=
  MkSchedule hourly_calc_filename (hours 1) (fun date => at_time (tm_hour date) 0 date) (B "Failed removing hourly file ").

(** ** Removing a file that may be open *)

(** The path of no name: resolving drops the empty components. *)
Definition nameless : path := (false, [[]]).

(** [remove_if_exists]; an open file that is removed stays open, without a name. *)
Definition remove_if_exists_open (name : bytes) (st : helper_st) : bool * helper_st :=
  let '(h, w) := st in
  let '(ok, w') := remove_if_exists name w in
  match fd_ h with
  | Some f =>
      if bool_decide (f_path f = resolve name) && is_file (f_path f) w && negb (is_file (f_path f) w') then
        (ok, (MkHelper (Some (MkFILE nameless (f_buf f))) (filename_ h), set_file nameless (contents (f_path f) w) w'))
      else (ok, (h, w'))
  | None => (ok, (h, w'))
  end.

Section timed.
  Context {F : Type} `{Formatter F} (localtime : Z -> tm) (mktime : tm -> Z) (sched : schedule).

  (** ** The sink *)

Record timed_file_sink := MkTimed {
    t_base : base_sink F; t_base_filename_ : bytes; rotation_tp_ : Z; t_file_helper_ : file_helper; t_truncate_ : bool;
    t_max_files_ : nat; filenames_q_ : circular_q bytes }.

Abbreviation timed_st := (timed_file_sink * world)%type.

Definition timed_helper (h : file_helper) (s : timed_file_sink) : timed_file_sink :=
    MkTimed (t_base s) (t_base_filename_ s) (rotation_tp_ s) h (t_truncate_ s) (t_max_files_ s) (filenames_q_ s).
Definition timed_rotation (tp : Z) (s : timed_file_sink) : timed_file_sink :=
    MkTimed (t_base s) (t_base_filename_ s) tp (t_file_helper_ s) (t_truncate_ s) (t_max_files_ s) (filenames_q_ s).
Definition timed_names (q : circular_q bytes) (s : timed_file_sink) : timed_file_sink :=
    MkTimed (t_base s) (t_base_filename_ s) (rotation_tp_ s) (t_file_helper_ s) (t_truncate_ s) (t_max_files_ s) q.
Definition timed_base (b : base_sink F) (s : timed_file_sink) : timed_file_sink :=
    MkTimed b (t_base_filename_ s) (rotation_tp_ s) (t_file_helper_ s) (t_truncate_ s) (t_max_files_ s) (filenames_q_ s).

Definition filename (s : timed_file_sink) : bytes := filename_ (t_file_helper_ s).

Definition now_tm (tp : Z) : tm := localtime (seconds_of tp).

Definition next_rotation_tp_ (now : Z) : Z :=
    let rotation_time := (mktime (rotation_date sched (now_tm now)) * NS_PER_SEC)%Z in
    if (now <? rotation_time)%Z then rotation_time else (rotation_time + period sched)%Z.

  (** The loop of [init_filenames_q_], which stops after [max_files_] names. *)
Fixpoint existing_names (n : nat) (base : bytes) (now : Z) (w : world) : list bytes :=
    match n with
    | 0 => []
    | S n =>
        let filename := name_calc sched base (now_tm now) in
        if negb (path_exists filename w) then [] else filename :: existing_names n base (now - period sched) w
    end.

Definition init_filenames_q_ (now : Z) (w : world) (s : timed_file_sink) : timed_file_sink :=
    let filenames := existing_names (t_max_files_ s) (t_base_filename_ s) now w in
    timed_names (foldl (fun q name => push_back name q) (mk_circular_q [] (t_max_files_ s)) (rev filenames)) s.

  (** The constructor; the clock is asked for the name, for the next rotation and for the names. *)
Definition mk_timed_file_sink (formatter : F) (base_filename : bytes) (truncate : bool) (max_files : nat)
      (now now_rotation now_names : Z) (w : world) : outcome timed_file_sink * world :=
    let filename := name_calc sched base_filename (now_tm now) in
    match open filename truncate (new_helper, w) with
    | (Ok _, (h, w)) =>
        let s := MkTimed (new_base formatter) base_filename (next_rotation_tp_ now_rotation) h truncate max_files disabled_q in
        (Ok (if (0 <? max_files)%nat then init_filenames_q_ now_names w s else s), w)
    | (Throw e, (_, w)) => (Throw e, w)
    | (Undef, (_, w)) => (Undef, w)
    end.

Definition delete_old_ (st : timed_st) : outcome unit * timed_st :=
    let '(s, w) := st in
    let current_file := filename s in
    if full (filenames_q_ s) then
      match front (filenames_q_ s), pop_front (filenames_q_ s) with
      | Some old_filename, Some q =>
          let '(ok, (h, w)) := remove_if_exists_open old_filename (t_file_helper_ s, w) in
          let s := timed_names (push_back current_file q) (timed_helper h s) in
          if ok then (Ok tt, (s, w)) else (Throw (removing_failed sched ++ old_filename), (s, w))
      | _, _ => (Undef, (s, w))
      end
    else (Ok tt, (timed_names (push_back current_file (filenames_q_ s)) s, w)).

  (** [now] is what the clock answers when it is asked. *)
Definition timed_sink_it_ (msg : log_msg) (now : Z) (st : timed_st) : outcome unit * timed_st :=
    let '(s, w) := st in
    let should_rotate := (rotation_tp_ s <=? time msg)%Z in
    let '(r, (s, w)) :=
      if should_rotate then
        let '(r, (h, w)) := open (name_calc sched (t_base_filename_ s) (now_tm (time msg))) (t_truncate_ s) (t_file_helper_ s, w) in
        match r with
        | Ok _ => (r, (timed_rotation (next_rotation_tp_ now) (timed_helper h s), w))
        | _ => (r, (timed_helper h s, w))
        end
      else (Ok tt, (s, w)) in
    match r with
    | Ok _ =>
        match f_format (formatter_ (t_base s)) msg with
        | None => (Undef, (s, w))
        | Some (f, formatted) =>
            let s := timed_base (set_formatter_ f (t_base s)) s in
            let '(r, (h, w)) := write formatted (t_file_helper_ s, w) in
            let s := timed_helper h s in
            match r with
            | Ok _ => if should_rotate && (0 <? t_max_files_ s)%nat then delete_old_ (s, w) else (Ok tt, (s, w))
            | _ => (r, (s, w))
            end
        end
    | _ => (r, (s, w))
    end.

Definition timed_flush_ (st : timed_st) : timed_st :=
    let '(s, w) := st in let '(h, w) := flush (t_file_helper_ s, w) in (timed_helper h s, w).
End timed.

Arguments timed_file_sink : clear implicits.

(** The two sinks. *)
Definition mk_daily_file_sink {F} localtime mktime (formatter : F) (base_filename : bytes) (rotation_hour rotation_minute : Z)
    (truncate : bool) (max_files : nat) (now now_rotation now_names : Z) (w : world) : outcome (timed_file_sink F) * world :=
  if ((rotation_hour <? 0) || (23 <? rotation_hour) || (rotation_minute <? 0) || (59 <? rotation_minute))%Z
  then (Throw (B "daily_file_sink: Invalid rotation time in ctor"), w)
  else mk_timed_file_sink localtime mktime (daily rotation_hour rotation_minute) formatter base_filename truncate max_files
         now now_rotation now_names w.
Definition daily_sink_it_ {F} `{Formatter F} localtime mktime (rotation_h_ rotation_m_ : Z) :=
  timed_sink_it_ localtime mktime (daily rotation_h_ rotation_m_).

Definition mk_hourly_file_sink {F} localtime mktime (formatter : F) (base_filename : bytes) (truncate : bool) (max_files : nat)
    (now now_rotation now_names : Z) (w : world) : outcome (timed_file_sink F) * world :=
  mk_timed_file_sink localtime mktime hourly formatter base_filename truncate max_files now now_rotation now_names w.
Definition hourly_sink_it_ {F} `{Formatter F} localtime mktime := timed_sink_it_ localtime mktime hourly.

(** ** Names that files can be opened under *)

(** The directory is there, and it has no directory of that name. *)
Definition placed (name : bytes) (w : world) : Prop := name_ok name /\ place_ok name 0 w.

Lemma placed_same name w w' : placed name w -> same_place w w' -> placed name w'.
Proof. intros [Hn Hp] Hs. split; [done|by eapply place_ok_same]. Qed.

Lemma placed_exists name w : placed name w -> path_exists name w = is_file (resolve name) w.
Proof. intros [Hn Hp]. exact (exists_calc name Hn 0 w 0 Hp (le_n 0)). Qed.

Lemma zpad_no_sep k n : (0 <= n)%Z -> no_sep (zpad k n).
Proof.
  intros Hn. apply no_sep_app. split; [|by apply dec_nat_no_sep]. apply Forall_forall. by intros c [-> _]%elem_of_replicate.
Qed.

Lemma format_0_no_sep n : no_sep (format_02 n) /\ no_sep (format_04 n).
Proof.
  unfold format_02, format_04. destruct (n <? 0)%Z eqn:Hn; to_prop; split; try (by apply zpad_no_sep); constructor; try done; apply zpad_no_sep; lia.
Qed.

(** Names that add something between the stem of a name and its extension lie in its directory. *)
Definition stem_names (calc : bytes -> tm -> bytes) : Prop :=
  forall base date, exists mid, no_sep mid /\ calc base date = let '(basename, ext) := split_by_extension base in basename ++ mid ++ ext.

Lemma daily_stem h m : stem_names (name_calc (daily h m)).
Proof.
  intros base date. pose proof format_0_no_sep as Hf. cbn [name_calc daily]. unfold daily_calc_filename. destruct (split_by_extension base) as [basename ext].
  exists (B "_" ++ format_04 (tm_year date + 1900) ++ B "-" ++ format_02 (tm_mon date + 1) ++ B "-" ++ format_02 (tm_mday date)).
  rewrite <- !app_assoc. split; [|done]. rewrite !no_sep_app. split_and!; try apply Hf; by repeat constructor.
Qed.

Lemma hourly_stem : stem_names (name_calc hourly).
Proof.
  intros base date. pose proof format_0_no_sep as Hf. cbn [name_calc hourly]. unfold hourly_calc_filename. destruct (split_by_extension base) as [basename ext].
  exists (B "_" ++ format_04 (tm_year date + 1900) ++ format_02 (tm_mon date + 1) ++ format_02 (tm_mday date) ++ B "_" ++ format_02 (tm_hour date)).
  rewrite <- !app_assoc. split; [|done]. rewrite !no_sep_app. split_and!; try apply Hf; by repeat constructor.
Qed.

(** In a directory without directories every such name can be opened. *)
Lemma stem_placed calc base w date :
  stem_names calc -> name_ok base -> is_dir (parent (resolve base)) w = true ->
  (forall p, p ∈ dirs w -> parent p <> parent (resolve base)) -> placed (calc base date) w.
Proof.
  intros Hc (c & Hl & Hsep) Hd Hno. destruct (Hc base date) as (mid & Hmid & Hcalc). rewrite Hcalc.
  destruct (split_by_extension_spec base c Hl Hsep) as (d & l & e & -> & Hb & Hdp & Hne & Hln & Hen).
  assert (l ++ mid ++ e <> [] /\ no_sep (l ++ mid ++ e)) as [Hne2 Hns2] by (split; [by destruct l|by rewrite !no_sep_app]).
  assert (l ++ e <> [] /\ no_sep (l ++ e)) as [Hne1 Hns1] by (split; [by destruct l|by rewrite !no_sep_app]).
  rewrite <- app_assoc. rewrite Hb, (resolve_last d) in Hd, Hno by done. rewrite parent_last in Hd, Hno.
  split; [by apply last_no_sep|]. unfold place_ok, R. cbn [calc_filename].
  split; [by rewrite (resolve_last d), parent_last by done|]. intros i Hi. assert (i = 0) as -> by lia. cbn [calc_filename].
  intros Hin. apply Hno in Hin. by rewrite (resolve_last d), parent_last in Hin by done.
Qed.

(** ** What a helper and the disk hold together *)

(** The files once everything is flushed. *)
Definition view (h : file_helper) (w : world) : gmap path bytes :=
  match fd_ h with Some f => <[f_path f := contents (f_path f) w ++ f_buf f]> (files_ w) | None => files_ w end.

Lemma close_view h w : quiet w -> exists w', close (h, w) = (MkHelper None (filename_ h), w') /\ same_place w w' /\ files_ w' = view h w.
Proof.
  intros Hq. unfold close, view. destruct h as [[f|] n]; cbn [fd_ filename_]; [|by exists w].
  eexists. split; [done|]. split; [by apply set_file_same|done].
Qed.

Lemma flush_view h w : quiet w -> files_ (flush (h, w)).2 = view h w.
Proof. intros Hq. unfold flush, view. by destruct h as [[f|] n]. Qed.

Lemma open_view name tr h w :
  quiet w -> placed name w ->
  let h' := MkHelper (Some (MkFILE (resolve name) [])) name in
  exists w', open name tr (h, w) = (Ok tt, (h', w')) /\ same_place w w' /\ view h' w' = files_ w' /\
    files_ w' = <[resolve name := if tr then [] else default [] (view h w !! resolve name)]> (view h w).
Proof.
  intros Hq Hp. destruct (close_view h w Hq) as (w1 & Hcl & Hw1 & Hf). destruct (placed_same _ _ _ Hp Hw1) as [Hn Hp1].
  assert (open name tr (h, w) = open name tr (MkHelper None (filename_ h), w1)) as -> by (unfold open; by rewrite Hcl).
  rewrite (open_ok name Hn 0) by (done || by destruct Hw1). eexists. split; [done|]. unfold opened. change (R name 0) with (resolve name).
  split; [apply (same_place_trans w w1); [done|]; apply set_file_same; by destruct Hw1|].
  unfold view at 1. cbn [fd_ f_path f_buf]. rewrite contents_set, app_nil_r. unfold set_file. cbn [files_]. rewrite insert_insert_eq, Hf.
  split; [done|]. unfold contents. by rewrite Hf.
Qed.

Lemma write_view line h f w :
  quiet w -> fd_ h = Some f ->
  exists h', write line (h, w) = (Ok tt, (h', w)) /\ h' = MkHelper (Some (MkFILE (f_path f) (f_buf f ++ line))) (filename_ h) /\
    view h' w = <[f_path f := default [] (view h w !! f_path f) ++ line]> (view h w).
Proof.
  intros Hq Hh. unfold write. rewrite Hh. unfold view. rewrite Hh. cbn [fd_]. rewrite lookup_insert_eq, insert_insert_eq. cbn [default from_option id].
  destruct line as [|c line]; cbn [fwrite].
  - eexists. split; [done|]. rewrite !app_nil_r. by destruct f.
  - rewrite (next_fault_quiet w Hq). eexists. split; [done|]. split; [done|]. cbn [fd_ f_path f_buf]. by rewrite app_assoc.
Qed.

Lemma remove_view old h f w :
  quiet w -> placed old w -> fd_ h = Some f -> f_path f <> resolve old ->
  exists w', remove_if_exists_open old (h, w) = (true, (h, w')) /\ same_place w w' /\ view h w' = delete (resolve old) (view h w).
Proof.
  intros Hq Hp Hh Hne. unfold remove_if_exists_open, remove_if_exists. rewrite (placed_exists _ _ Hp), Hh, (bool_decide_eq_false_2 _ Hne).
  unfold view. rewrite Hh. unfold contents. destruct (is_file (resolve old) w) eqn:Hf.
  - unfold remove. rewrite (next_fault_quiet w Hq), Hf. eexists. split; [done|]. split; [by split|]. unfold del_file. cbn [files_].
    by rewrite lookup_delete_ne, delete_insert_ne by done.
  - exists w. split; [done|]. split; [by split|]. rewrite delete_insert_ne by done. symmetry. f_equal. apply delete_id.
    unfold is_file in Hf. apply bool_decide_eq_false in Hf. by apply eq_None_not_Some.
Qed.

(** ** The specification *)

(** The files, the name in use, the names that are kept, oldest first, and the next rotation. *)
Record tlog := MkTlog { t_files : gmap path bytes; t_current : bytes; t_kept : list bytes; t_next : Z }.

#[local] Ltac cbn_timed :=
  cbn [timed_names timed_helper timed_rotation timed_base t_base t_base_filename_ t_truncate_ t_max_files_ t_file_helper_ filenames_q_ rotation_tp_
       t_kept t_current t_files t_next].

Definition delete_names (names : list bytes) (files : gmap path bytes) : gmap path bytes :=
  foldr (fun name files => delete (resolve name) files) files names.

(** The first time after [now] that is [phase] and a number of whole periods. *)
Definition next_time (every phase now : Z) : Z := now + every - (now - phase) mod every.

Lemma next_time_least every phase now :
  (0 < every)%Z ->
  (now < next_time every phase now /\ (next_time every phase now - phase) mod every = 0 /\
   forall t, now < t < next_time every phase now -> (t - phase) mod every <> 0)%Z.
Proof.
  intros He. unfold next_time. pose proof (Z.mod_pos_bound (now - phase) every He) as Hb. pose proof (Z.div_mod (now - phase) every ltac:(lia)) as Hd.
  set (q := ((now - phase) / every)%Z) in *. set (r := ((now - phase) mod every)%Z) in *. split_and!; [lia| |].
  - replace (now + every - r - phase)%Z with ((q + 1) * every)%Z by lia. apply Z.mod_mul. lia.
  - intros t Ht Hm. apply Z.mod_divide in Hm as [k Hk]; [|lia].
    assert (q < k)%Z by (apply (Z.mul_lt_mono_pos_l every); lia). assert (k < q + 1)%Z by (apply (Z.mul_lt_mono_pos_l every); lia). lia.
Qed.

(** A time zone at a constant distance from UTC, and the C library's conversions in it. *)
Definition fixed_offset (localtime : Z -> tm) (mktime : tm -> Z) (off : Z) : Prop :=
  forall s h m, (0 <= s -> 0 <= h < 24 -> 0 <= m < 60 ->
    mktime (at_time h m (localtime s)) = (s + off) / 86400 * 86400 + h * 3600 + m * 60 - off /\
    tm_hour (localtime s) = ((s + off) / 3600) mod 24)%Z.

(** When the two sinks are to rotate: every day at a time of day, every hour. *)
Inductive planned (off : Z) : schedule -> Z -> Prop :=
  | daily_planned h m : (0 <= h < 24)%Z -> (0 <= m < 60)%Z -> planned off (daily h m) ((h * 3600 + m * 60 - off) * NS_PER_SEC)
  | hourly_planned : planned off hourly (- off * NS_PER_SEC).

(** A time of seconds in the last period before [now], or the period that starts there. *)
Lemma next_of_candidate every phase now c :
  (0 < every -> (c - phase) mod every = 0 -> c - every <= now < c + every ->
   (if now <? c then c else c + every) = next_time every phase now)%Z.
Proof.
  intros He Hc Hn. apply Z.mod_divide in Hc as [k Hk]; [|lia]. unfold next_time. destruct (now <? c)%Z eqn:Hlt; to_prop.
  - rewrite <- (Z.mod_unique (now - phase) every (k - 1) (now - (c - every))); lia.
  - rewrite <- (Z.mod_unique (now - phase) every k (now - c)); lia.
Qed.

Lemma seconds_within now : (0 <= now -> 0 <= seconds_of now /\ seconds_of now * NS_PER_SEC <= now < (seconds_of now + 1) * NS_PER_SEC)%Z.
Proof.
  intros Hn. unfold seconds_of, duration_cast. assert (0 < NS_PER_SEC)%Z by done. rewrite Z.quot_div_nonneg by lia.
  pose proof (Z.div_mod now NS_PER_SEC ltac:(lia)). pose proof (Z.mod_pos_bound now NS_PER_SEC ltac:(lia)). split; [apply Z.div_pos; lia|lia].
Qed.

(** The code reckons this time. *)
Lemma next_rotation_planned localtime mktime off sched phase now :
  fixed_offset localtime mktime off -> planned off sched phase -> (0 <= now)%Z ->
  next_rotation_tp_ localtime mktime sched now = next_time (period sched) phase now.
Proof.
  intros Hz Hp Hn. destruct (seconds_within now Hn) as [Hs0 Hs]. unfold next_rotation_tp_, now_tm. set (s := seconds_of now) in *.
  assert (NS_PER_SEC = 1000000000)%Z as Hns by done. rewrite Hns in *. destruct Hp as [h m Hh Hm|]; cbn [period rotation_date daily hourly]; unfold hours; rewrite Hns.
  - destruct (Hz s h m Hs0 Hh Hm) as [-> _]. pose proof (Z.div_mod (s + off) 86400 ltac:(lia)). pose proof (Z.mod_pos_bound (s + off) 86400 ltac:(lia)).
    apply next_of_candidate; [lia| |lia]. replace (_ - _)%Z with ((s + off) / 86400 * (24 * 3600 * 1000000000))%Z by lia. apply Z.mod_mul. lia.
  - destruct (Hz s 0%Z 0%Z Hs0 ltac:(lia) ltac:(lia)) as [_ Hh]. pose proof (Z.mod_pos_bound ((s + off) / 3600) 24 ltac:(lia)) as Hb. rewrite Hh.
    destruct (Hz s (((s + off) / 3600) mod 24)%Z 0%Z Hs0 Hb ltac:(lia)) as [-> _].
    pose proof (Z.div_div (s + off) 3600 24 ltac:(lia) ltac:(lia)) as Hdd. change (3600 * 24)%Z with 86400%Z in Hdd. rewrite <- Hdd.
    pose proof (Z.div_mod (s + off) 3600 ltac:(lia)). pose proof (Z.mod_pos_bound (s + off) 3600 ltac:(lia)).
    pose proof (Z.div_mod ((s + off) / 3600) 24 ltac:(lia)). set (q := ((s + off) / 3600)%Z) in *.
    apply next_of_candidate; [lia| |lia]. replace (_ - _)%Z with (q * (1 * 3600 * 1000000000))%Z by lia. apply Z.mod_mul. lia.
Qed.

Section spec.
  Context {F : Type} `{Formatter F} (localtime : Z -> tm) (mktime : tm -> Z) (sched : schedule) (base : bytes) (tr : bool) (n : nat).
  (** When the rotation after a time is due. *)
  Context (next_of : Z -> Z).

Definition name_of_time (t : Z) : bytes := name_calc sched base (now_tm localtime t).

  (** A line, with the time of its message and what the clock says. *)
Abbreviation event := (Z * Z * bytes)%type.

  (** A line goes to the end of the current file; from the time of the rotation on the current
      file is the one named by the time, and all but the newest [n] names are deleted. *)
Definition timed_line (ev : event) (a : tlog) : tlog :=
    let '(t, now, line) := ev in
    let rotate := (t_next a <=? t)%Z in
    let name := if rotate then name_of_time t else t_current a in
    let before := if rotate && tr then [] else default [] (t_files a !! resolve name) in
    let files := <[resolve name := before ++ line]> (t_files a) in
    let next := if rotate then next_of now else t_next a in
    if rotate && (0 <? n)%nat then
      let kept := t_kept a ++ [name] in
      MkTlog (delete_names (take (length kept - n) kept) files) name (newest n kept) next
    else MkTlog files name (t_kept a) next.

Fixpoint previous_names (k : nat) (now : Z) (files : gmap path bytes) : list bytes :=
    match k with
    | 0 => []
    | S k => if decide (is_Some (files !! resolve (name_of_time now))) then name_of_time now :: previous_names k (now - period sched) files else []
    end.

Definition timed_start (now now_rotation now_names : Z) (files : gmap path bytes) : tlog :=
    let name := name_of_time now in
    let files := <[resolve name := if tr then [] else default [] (files !! resolve name)]> files in
    MkTlog files name (rev (previous_names n now_names files)) (next_of now_rotation).

  (** The names the rotations of a run open. *)
Fixpoint rotated (next : Z) (evs : list event) : list bytes :=
    match evs with
    | [] => []
    | (t, now, _) :: evs =>
        if (next <=? t)%Z then name_of_time t :: rotated (next_of now) evs else rotated next evs
    end.

Definition paths (names : list bytes) : list path := resolve <$> names.

  (** ** The sink refines it *)

  Hypothesis Hnext_of : forall now, (0 <= now)%Z -> next_rotation_tp_ localtime mktime sched now = next_of now.

Record timed_holds (s : timed_file_sink F) (w : world) (a : tlog) : Prop := {
    th_quiet : quiet w;
    th_base : t_base_filename_ s = base;
    th_truncate : t_truncate_ s = tr;
    th_max : t_max_files_ s = n;
    th_file : exists buf, t_file_helper_ s = MkHelper (Some (MkFILE (resolve (t_current a)) buf)) (t_current a);
    th_view : view (t_file_helper_ s) w = t_files a;
    th_names : 0 < n -> wf (filenames_q_ s) /\ max_items_ (filenames_q_ s) = S n /\ items (filenames_q_ s) = t_kept a;
    th_bound : length (t_kept a) <= n;
    th_next : rotation_tp_ s = t_next a;
    th_placed : forall date, placed (name_calc sched base date) w;
    th_calc : Forall (fun name => exists date, name = name_calc sched base date) (t_kept a) }.

Lemma delete_old_ok s w a0 name next files :
    0 < n -> timed_holds s w (MkTlog files name (t_kept a0) next) -> (exists date, name = name_calc sched base date) ->
    resolve name ∉ paths (t_kept a0) ->
    let kept := t_kept a0 ++ [name] in
    exists s' w', delete_old_ sched (s, w) = (Ok tt, (s', w')) /\ t_base s' = t_base s /\ same_place w w' /\
      timed_holds s' w' (MkTlog (delete_names (take (length kept - n) kept) files) name (newest n kept) next).
Proof.
    intros Hpos [Hq Hb Ht Hm (buf & Hh) Hv Hn Hlen Hnext Hp Hc] Hname Hfresh kept. cbn [t_kept t_current t_files t_next] in *.
    destruct (Hn Hpos) as (Hwf & Hmax & Hit). unfold delete_old_, filename. rewrite Hh. cbn [filename_].
    assert (length kept = S (length (t_kept a0))) as Hlk by (unfold kept; rewrite length_app; cbn; lia).
    rewrite (full_size _ Hwf), <- (items_length _ Hwf), Hit by lia. unfold capacity. rewrite Hmax. cbn [Nat.sub]. rewrite Nat.sub_0_r.
    assert (Forall (fun name => exists date, name = name_calc sched base date) kept) as Hck by (apply Forall_app; split; [done|]; by repeat constructor).
    destruct (length (t_kept a0) =? n)%nat eqn:Hfull; to_prop.
    - assert (size (filenames_q_ s) <> 0) as Hs by (rewrite <- (items_length _ Hwf), Hit; lia).
      destruct (pop_front_items _ Hwf Hs) as (q & -> & Hwq & Hiq & Hmq & _). rewrite (front_items _ Hwf Hs), Hit.
      destruct (t_kept a0) as [|old l] eqn:Hkept; [cbn in *; lia|]. cbn [head].
      assert (exists date, old = name_calc sched base date) as (date & Hold) by (by apply Forall_cons in Hc as [Hc _]).
      assert (placed old w) as Hpo by (rewrite Hold; apply Hp).
      destruct (remove_view old (MkHelper (Some (MkFILE (resolve name) buf)) name) _ w Hq Hpo eq_refl) as (w' & -> & Hw' & Hv').
      { cbn [f_path]. intros Heq. apply Hfresh. rewrite Heq. by apply list_elem_of_here. }
      eexists _, w'. split; [done|]. split_and!; [done|done|]. destruct (push_back_items name q Hwq ltac:(lia)) as (Hi & _ & Hmi).
      constructor; cbn_timed; try done.
      + by destruct Hw'.
      + by exists buf.
      + rewrite Hv', <- Hh, Hv. rewrite Hlk. replace (S (length (old :: l)) - n) with 1 by lia. done.
      + intros _. split; [by apply push_back_wf|]. split; [congruence|]. rewrite Hi, Hiq, Hit. unfold kept, newest, capacity. rewrite Hmq, Hmax.
        cbn [app tail length] in *. rewrite !length_app. cbn [length] in *. replace (S (length l + 1) - n) with 1 by lia.
        replace (length l + 1 - (S n - 1)) with 0 by lia. done.
      + unfold newest. rewrite length_drop. lia.
      + intros d. by eapply placed_same.
      + by apply Forall_drop.
    - eexists _, w. split; [done|]. split_and!; [done|by apply same_place_refl|]. destruct (push_back_items name (filenames_q_ s) Hwf ltac:(lia)) as (Hi & _ & Hmi).
      assert (length kept - n = 0) as H0 by lia.
      constructor; cbn_timed; try done.
      + by exists buf.
      + by rewrite H0.
      + intros _. split; [by apply push_back_wf|]. split; [congruence|]. rewrite Hi, Hit. unfold newest, capacity. rewrite Hmax.
        by replace (S n - 1) with n by lia.
      + unfold newest. rewrite length_drop. lia.
      + by apply Forall_drop.
Qed.

Lemma timed_sink_it_ok s w a msg now f line :
    timed_holds s w a -> f_format (formatter_ (t_base s)) msg = Some (f, line) ->
    (0 <= now)%Z -> ((t_next a <=? time msg)%Z = true -> 0 < n -> resolve (name_of_time (time msg)) ∉ paths (t_kept a)) ->
    exists s' w', timed_sink_it_ localtime mktime sched msg now (s, w) = (Ok tt, (s', w')) /\ formatter_ (t_base s') = f /\
      same_place w w' /\ timed_holds s' w' (timed_line (time msg, now, line) a).
Proof.
    intros [Hq Hb Ht Hm (buf & Hh) Hv Hn Hlen Hnext Hp Hc] Hf Hclock Hfresh. unfold timed_sink_it_, timed_line. rewrite Hnext, Hb, Ht, (Hnext_of now Hclock).
    destruct (t_next a <=? time msg)%Z eqn:Hrot; cbn [andb].
    - change (name_calc sched base (now_tm localtime (time msg))) with (name_of_time (time msg)). set (name := name_of_time (time msg)) in *.
      assert (placed name w) as Hpl by apply Hp. destruct (open_view name tr (t_file_helper_ s) w Hq Hpl) as (w1 & -> & Hw1 & Hvw & Hv1).
      rewrite <- Hvw in Hv1. cbn_timed. rewrite Hf. cbn_timed.
      set (h1 := MkHelper _ name) in *. destruct (write_view line h1 (MkFILE (resolve name) []) w1 ltac:(by destruct Hw1) eq_refl) as (h2 & -> & Hh2 & Hv2).
      cbn_timed. rewrite Hm. set (s2 := timed_helper h2 _).
      assert (view h2 w1 = <[resolve name := (if tr then [] else default [] (t_files a !! resolve name)) ++ line]> (t_files a)) as Hv3.
      { rewrite Hv2, Hv1, Hv. cbn [f_path]. rewrite lookup_insert_eq, insert_insert_eq. cbn [default from_option id]. done. }
      assert (timed_holds s2 w1 (MkTlog (view h2 w1) name (t_kept a) (next_of now))) as Hs2.
      { constructor; subst s2; cbn_timed; try done.
        - by destruct Hw1.
        - exists line. by rewrite Hh2.
        - intros d. by eapply placed_same. }
      destruct (0 <? n)%nat eqn:Hn0; to_prop.
      + destruct (delete_old_ok s2 w1 a name _ _ Hn0 Hs2 ltac:(by eexists) (Hfresh eq_refl Hn0)) as (s3 & w3 & -> & Hb3 & Hw3 & Hs3).
        exists s3, w3. split; [done|]. split_and!; [by rewrite Hb3|by eapply same_place_trans|]. by rewrite Hv3 in Hs3.
      + exists s2, w1. split; [done|]. split_and!; [done|done|]. by rewrite Hv3 in Hs2.
    - rewrite Hf. cbn_timed. rewrite Hh.
      destruct (write_view line (MkHelper (Some (MkFILE (resolve (t_current a)) buf)) (t_current a)) _ w Hq eq_refl) as (h2 & -> & Hh2 & Hv2).
      eexists _, w. split; [done|]. split_and!; [done|by apply same_place_refl|].
      constructor; cbn_timed; try done.
      + eexists. by rewrite Hh2.
      + by rewrite Hv2, <- Hh, Hv.
Qed.
Lemma previous_names_ok k now w :
    (forall date, placed (name_calc sched base date) w) -> existing_names localtime sched k base now w = previous_names k now (files_ w).
Proof.
    intros Hp. revert now. induction k as [|k IH]; intros now; [done|]. cbn [existing_names previous_names]. cbv zeta.
    change (name_calc sched base (now_tm localtime now)) with (name_of_time now). rewrite (placed_exists (name_of_time now) w) by apply Hp. unfold is_file.
    destruct (decide _) as [Hf|Hf]; [|by rewrite bool_decide_eq_false_2]. rewrite bool_decide_eq_true_2 by done. cbn [negb]. by rewrite IH.
Qed.

Lemma previous_names_props k now files :
    length (previous_names k now files) <= k /\
    Forall (fun name => is_Some (files !! resolve name) /\ exists date, name = name_calc sched base date) (previous_names k now files).
Proof.
    revert now. induction k as [|k IH]; intros now; [by split|]. cbn [previous_names]. destruct (decide _); [|split; [cbn; lia|done]].
    destruct (IH (now - period sched)%Z) as [H1 H2]. split; [cbn [length]; lia|]. constructor; [|done]. split; [done|by eexists].
Qed.

Lemma fill_queue (names : list bytes) (q : circular_q bytes) :
    wf q -> max_items_ q = S n -> length (items q) + length names <= n ->
    let q' := foldl (fun q name => push_back name q) q names in wf q' /\ max_items_ q' = S n /\ items q' = items q ++ names.
Proof.
    revert q. induction names as [|name names IH]; intros q Hw Hm Hl; cbn [foldl]; [by rewrite app_nil_r|]. cbn [length] in Hl.
    destruct (push_back_items name q Hw ltac:(lia)) as (Hi & _ & Hm').
    assert (items (push_back name q) = items q ++ [name]) as Hi2.
    { rewrite Hi. unfold newest, capacity. rewrite Hm, length_app. cbn [length]. by replace (length (items q) + 1 - (S n - 1)) with 0 by lia. }
    destruct (IH (push_back name q) (push_back_wf _ _ Hw) ltac:(congruence)) as (H1 & H2 & H3); [rewrite Hi2, length_app; cbn [length]; lia|].
    split_and!; [done|done|]. by rewrite H3, Hi2, <- app_assoc.
Qed.

Lemma mk_timed_ok f t0 t1 t2 w :
    quiet w -> (forall date, placed (name_calc sched base date) w) -> (0 <= t1)%Z ->
    exists s w', mk_timed_file_sink localtime mktime sched f base tr n t0 t1 t2 w = (Ok s, w') /\ formatter_ (t_base s) = f /\
      timed_holds s w' (timed_start t0 t1 t2 (files_ w)).
Proof.
    intros Hq Hp Hclock. unfold mk_timed_file_sink. rewrite (Hnext_of t1 Hclock). change (name_calc sched base (now_tm localtime t0)) with (name_of_time t0).
    destruct (open_view (name_of_time t0) tr new_helper w Hq (Hp _)) as (w1 & -> & Hw1 & Hvw & Hf1).
    change (view new_helper w) with (files_ w) in Hf1.
    assert (forall date, placed (name_calc sched base date) w1) as Hp1 by (intros d; by eapply placed_same).
    eexists _, w1. split; [done|]. split; [by destruct (0 <? n)%nat|]. unfold timed_start. rewrite <- Hf1, <- (previous_names_ok n t2 w1 Hp1).
    destruct (previous_names_props n t2 (files_ w1)) as [Hlen Hall]. rewrite <- (previous_names_ok n t2 w1 Hp1) in Hlen, Hall.
    set (l := existing_names localtime sched n base t2 w1) in *.
    assert (0 < n -> let q := foldl (fun q name => push_back name q) (mk_circular_q [] n) (rev l) in wf q /\ max_items_ q = S n /\ items q = rev l) as Hq0.
    { intros Hn. destruct (fill_queue (rev l) (mk_circular_q [] n)) as (H1 & H2 & H3); [apply wf_new|exact (Nat.add_1_r n)|rewrite length_rev; exact Hlen|by split_and!]. }
    unfold init_filenames_q_. cbn_timed. fold l.
    constructor; destruct (0 <? n)%nat eqn:Hn; to_prop; cbn_timed; try done; try (by destruct Hw1); try (by exists []); try lia.
    - rewrite length_rev. lia.
    - rewrite length_rev. lia.
    - apply List.Forall_rev. eapply Forall_impl; [exact Hall|]. by intros name [_ Hd].
    - apply List.Forall_rev. eapply Forall_impl; [exact Hall|]. by intros name [_ Hd].
Qed.

  (** ** A run *)

Fixpoint timed_log_all (msgs : list (log_msg * Z)) (st : timed_file_sink F * world) : outcome unit * (timed_file_sink F * world) :=
    match msgs with
    | [] => (Ok tt, st)
    | (m, now) :: msgs => match timed_sink_it_ localtime mktime sched m now st with (Ok _, st) => timed_log_all msgs st | r => r end
    end.

Definition events (msgs : list (log_msg * Z)) (lines : list bytes) : list event :=
    zip_with (fun '(m, now) line => (time m, now, line)) msgs lines.

Lemma delete_names_lookup (names : list bytes) (files : gmap path bytes) p : delete_names names files !! p = if decide (p ∈ paths names) then None else files !! p.
Proof.
    induction names as [|name names IH]; cbn [delete_names foldr]; [done|]. fold (delete_names names files). unfold paths in *. rewrite fmap_cons.
    destruct (decide (p = resolve name)) as [->|Hne]; [rewrite lookup_delete_eq, decide_True by apply list_elem_of_here; done|].
    rewrite lookup_delete_ne, IH by done. destruct (decide (p ∈ _)) as [Hin|Hin]; [by rewrite decide_True by (by apply list_elem_of_further)|].
    rewrite decide_False; [done|]. by rewrite not_elem_of_cons.
Qed.

Lemma newest_not_expired (l : list bytes) x : NoDup (paths l) -> x ∈ newest n l -> x ∈ l /\ resolve x ∉ paths (take (length l - n) l).
Proof.
    unfold newest, paths. intros Hnd Hx. rewrite <- (take_drop (length l - n) l) in Hnd. rewrite fmap_app in Hnd. apply NoDup_app in Hnd as (_ & Hd & _). split.
    - rewrite <- (take_drop (length l - n) l). apply elem_of_app. by right.
    - intros Hin. apply (Hd (resolve x) Hin). apply list_elem_of_fmap. by exists x.
Qed.

Lemma expired_old (l : list bytes) name x : 0 < n -> x ∈ take (length (l ++ [name]) - n) (l ++ [name]) -> x ∈ l.
Proof.
    intros Hn Hx. rewrite length_app in Hx. cbn [length] in Hx. rewrite take_app_le in Hx by lia.
    rewrite <- (take_drop (length l + 1 - n) l). apply elem_of_app. by left.
Qed.

  (** Names that are gone stay gone, the names that are kept have files, and the rest of the
      directory stays as it is. *)
Definition retained (gone : list bytes) (a : tlog) : Prop :=
    Forall (fun name => resolve name <> resolve (t_current a) /\ t_files a !! resolve name = None) gone /\
    Forall (fun name => is_Some (t_files a !! resolve name)) (t_kept a).

Lemma timed_line_retained gone ev a evs :
    0 < n -> length (t_kept a) <= n -> NoDup (paths (gone ++ t_kept a ++ rotated (t_next a) (ev :: evs))) -> retained gone a ->
    let a' := timed_line ev a in
    exists expired, t_kept a ++ rotated (t_next a) (ev :: evs) = expired ++ t_kept a' ++ rotated (t_next a') evs /\
      (newest n (t_kept a ++ rotated (t_next a) (ev :: evs)) = newest n (t_kept a' ++ rotated (t_next a') evs) /\
       take (length (t_kept a ++ rotated (t_next a) (ev :: evs)) - n) (t_kept a ++ rotated (t_next a) (ev :: evs)) =
         expired ++ take (length (t_kept a' ++ rotated (t_next a') evs) - n) (t_kept a' ++ rotated (t_next a') evs)) /\
      length (t_kept a') <= n /\ retained (gone ++ expired) a' /\
      (forall p, p ∉ resolve (t_current a) :: paths (t_kept a ++ rotated (t_next a) (ev :: evs)) ->
         t_files a' !! p = t_files a !! p /\ p <> resolve (t_current a')).
Proof.
    intros Hn Hlen Hnd [Hg Hk]. destruct ev as [[t now] line]. cbn [timed_line rotated] in *. destruct (t_next a <=? t)%Z; cbn [andb]; cbn_timed.
    - rewrite (proj2 (Nat.ltb_lt 0 n) Hn). cbn_timed. set (name := name_of_time t) in *. set (rest := rotated _ evs) in *.
      set (kept := t_kept a ++ [name]) in *. assert (t_kept a ++ name :: rest = kept ++ rest) as Heq by (unfold kept; by rewrite <- app_assoc).
      rewrite Heq in *. exists (take (length kept - n) kept). rewrite app_assoc. unfold newest at 1. rewrite take_drop. split; [done|].
      split; [apply newest_split|]. split; [unfold newest; rewrite length_drop; lia|].
      unfold paths in Hnd. rewrite !fmap_app in Hnd. apply NoDup_app in Hnd as (_ & Hgd & Hnd). apply NoDup_app in Hnd as (Hndk & _ & _).
      assert (resolve name ∈ resolve <$> kept) as Hnk by (unfold kept; rewrite fmap_app; apply elem_of_app; right; by apply list_elem_of_here).
      assert (forall x, x ∈ take (length kept - n) kept -> resolve x <> resolve name) as Hexn.
      { intros x Hx%expired_old Hr; [|done]. unfold kept in Hndk. rewrite fmap_app in Hndk. apply NoDup_app in Hndk as (_ & Hname & _).
        apply (Hname (resolve x)); [apply list_elem_of_fmap; by exists x|]. rewrite Hr. by apply list_elem_of_here. }
      split; [split|]; cbn_timed.
      + apply Forall_app. split; apply Forall_forall; intros x Hx.
        * rewrite Forall_forall in Hg. destruct (Hg x Hx) as [_ Hnone].
          assert (resolve x <> resolve name) as Hne.
          { intros Hr. apply (Hgd (resolve x)); [apply list_elem_of_fmap; by exists x|]. rewrite Hr. apply elem_of_app. by left. }
          split; [done|]. rewrite delete_names_lookup. destruct (decide _); [done|]. by rewrite lookup_insert_ne.
        * split; [by apply Hexn|]. rewrite delete_names_lookup, decide_True; [done|]. apply list_elem_of_fmap. by exists x.
      + apply Forall_forall. intros x Hx. destruct (newest_not_expired kept x Hndk Hx) as [Hxk Hxe]. rewrite delete_names_lookup, decide_False by done.
        destruct (decide (resolve x = resolve name)) as [->|Hne]; [by rewrite lookup_insert_eq|]. rewrite lookup_insert_ne by done.
        rewrite Forall_forall in Hk. apply Hk. unfold kept in Hxk. apply elem_of_app in Hxk as [|Hxk]; [done|]. apply list_elem_of_singleton in Hxk. congruence.
      + intros p Hp. rewrite not_elem_of_cons in Hp. destruct Hp as [Hc Hp]. unfold paths in Hp. rewrite fmap_app, not_elem_of_app in Hp. destruct Hp as [Hpk _].
        assert (p <> resolve name) as Hpn by (by intros ->).
        split; [|done]. rewrite delete_names_lookup, decide_False; [by rewrite lookup_insert_ne|].
        intros Hin. apply Hpk. rewrite <- (take_drop (length kept - n) kept), fmap_app. apply elem_of_app. by left.
    - exists []. cbn [app]. rewrite app_nil_r. split_and!; try done.
      + split; cbn_timed.
        * eapply Forall_impl; [exact Hg|]. intros x [Hne Hnone]. split; [done|]. by rewrite lookup_insert_ne.
        * eapply Forall_impl; [exact Hk|]. intros x Hx. destruct (decide (resolve x = resolve (t_current a))) as [->|Hne]; [by rewrite lookup_insert_eq|].
          by rewrite lookup_insert_ne.
      + intros p Hp. rewrite not_elem_of_cons in Hp. destruct Hp as [Hc _]. by rewrite lookup_insert_ne.
Qed.

Lemma run_retained gone a evs :
    0 < n -> length (t_kept a) <= n -> NoDup (paths (gone ++ t_kept a ++ rotated (t_next a) evs)) -> retained gone a ->
    let a' := foldl (fun a ev => timed_line ev a) a evs in
    let all := t_kept a ++ rotated (t_next a) evs in
    t_kept a' = newest n all /\ retained (gone ++ take (length all - n) all) a' /\
    (forall p, p ∉ resolve (t_current a) :: paths all -> t_files a' !! p = t_files a !! p).
Proof.
    intros Hn. revert gone a. induction evs as [|ev evs IH]; intros gone a Hlen Hnd Hr; cbn [foldl].
    - cbv zeta. cbn [rotated]. unfold newest. rewrite app_nil_r. replace (length (t_kept a) - n) with 0 by lia. by rewrite drop_0, take_0, app_nil_r.
    - destruct (timed_line_retained gone ev a evs Hn Hlen Hnd Hr) as (ex & Heq & [Hnew Htake] & Hlen' & Hr' & Ho). cbv zeta. rewrite Hnew, Htake.
      destruct (IH (gone ++ ex) (timed_line ev a) Hlen') as (H1 & H2 & H3); [by rewrite <- app_assoc, <- Heq|done|].
      split_and!; [done|by rewrite app_assoc|]. intros p Hp. destruct (Ho p Hp) as [<- Hne]. apply H3. rewrite not_elem_of_cons in Hp |- *. split; [done|].
      destruct Hp as [_ Hp]. rewrite Heq in Hp. unfold paths in Hp. rewrite fmap_app, not_elem_of_app in Hp. by destruct Hp.
Qed.

Lemma timed_log_all_ok msgs s w a lines :
    timed_holds s w a -> format_lines (formatter_ (t_base s)) (map fst msgs) = Some lines -> Forall (fun c => 0 <= snd c)%Z msgs ->
    (0 < n -> NoDup (paths (t_kept a ++ rotated (t_next a) (events msgs lines)))) ->
    exists s' w', timed_log_all msgs (s, w) = (Ok tt, (s', w')) /\ timed_holds s' w' (foldl (fun a ev => timed_line ev a) a (events msgs lines)).
Proof.
    revert s w a lines. induction msgs as [|[m now] msgs IH]; intros s w a lines Hs Hf Hcl Hnd; cbn [map format_lines fst] in Hf.
    - injection Hf as <-. by exists s, w.
    - destruct (f_format _ m) as [[f line]|] eqn:Hfm; [|done]. cbn [mbind option_bind] in Hf.
      destruct (format_lines f (map fst msgs)) as [ls|] eqn:Hls; [|done]. cbn [mbind option_bind] in Hf. injection Hf as <-.
      cbn [events zip_with timed_log_all foldl] in *. fold (events msgs ls) in *.
      apply Forall_cons in Hcl as [Hcl0 Hcl].
      destruct (timed_sink_it_ok s w a m now f line Hs Hfm Hcl0) as (s1 & w1 & -> & Hf1 & _ & Hs1).
      { intros Ht Hn Hin. specialize (Hnd Hn). cbn [rotated] in Hnd. rewrite Ht in Hnd. unfold paths in *. rewrite fmap_app in Hnd.
        apply NoDup_app in Hnd as (_ & Hd & _). apply (Hd _ Hin). by apply list_elem_of_here. }
      rewrite <- Hf1 in Hls. destruct (IH s1 w1 _ ls Hs1 Hls Hcl) as (s2 & w2 & Hr2 & Hs2); [|by exists s2, w2].
      intros Hn. specialize (Hnd Hn). cbn [rotated timed_line] in Hnd |- *. destruct (t_next a <=? time m)%Z; cbn [andb]; [|done].
      rewrite (proj2 (Nat.ltb_lt 0 n) Hn). cbn_timed. unfold newest. set (k := t_kept a ++ [_]) in *.
      assert (t_kept a ++ name_of_time (time m) :: rotated (next_of now) (events msgs ls) =
              take (length k - n) k ++ (drop (length k - n) k ++ rotated (next_of now) (events msgs ls))) as Heq
        by (rewrite app_assoc, take_drop; unfold k; by rewrite <- app_assoc).
      rewrite Heq in Hnd. unfold paths in *. rewrite fmap_app in Hnd. by apply NoDup_app in Hnd as (_ & _ & Hnd).
Qed.
End spec.

(** C26: The daily and the hourly sink, without faults, in a directory where the names can be
    opened, in a time zone at a constant distance from UTC, and with a clock after 1969.  The
    sink accepts every message, and after a flush the files are those of a specification in
    which a line goes to the end of the file named by the message that came when a rotation was
    due; the next one is due at the first time of day (first full hour) behind the time the clock
    then says.  With a limit of [n] files this needs names that do not come again; the names the
    sink keeps, those found in the directory at the beginning included, are the newest [n]:
    these have files, those before are deleted, and no other file changes. *)
Theorem timed_sink_correct {F} `{Formatter F} localtime mktime off sched phase base tr n f t0 t1 t2 w msgs lines :
  fixed_offset localtime mktime off -> planned off sched phase -> (0 <= t1)%Z -> Forall (fun c => 0 <= snd c)%Z msgs ->
  faults w = [] -> (forall date, placed (name_calc sched base date) w) -> format_lines f (map fst msgs) = Some lines ->
  let next := next_time (period sched) phase in
  let a0 := timed_start localtime sched base tr n next t0 t1 t2 (files_ w) in
  let evs := events msgs lines in
  let a := foldl (fun a ev => timed_line localtime sched base tr n next ev a) a0 evs in
  let all := t_kept a0 ++ rotated localtime sched base next (t_next a0) evs in
  (0 < n -> NoDup (paths all)) ->
  (exists s0 w0 s1 w1, mk_timed_file_sink localtime mktime sched f base tr n t0 t1 t2 w = (Ok s0, w0) /\
    timed_log_all localtime mktime sched msgs (s0, w0) = (Ok tt, (s1, w1)) /\ files_ (timed_flush_ (s1, w1)).2 = t_files a) /\
  (0 < n -> t_kept a = newest n all /\ Forall (fun name => is_Some (t_files a !! resolve name)) (newest n all) /\
    Forall (fun name => t_files a !! resolve name = None) (take (length all - n) all) /\
    (forall p, p ∉ resolve (t_current a0) :: paths all -> t_files a !! p = files_ w !! p)).
Proof.
  intros Hz Hpl Ht1 Hcl Hq Hp Hf next a0 evs a all Hnd.
  assert (forall now, (0 <= now)%Z -> next_rotation_tp_ localtime mktime sched now = next now) as Hnext by (intros now; by apply next_rotation_planned with off).
  destruct (mk_timed_ok localtime mktime sched base tr n next Hnext f t0 t1 t2 w Hq Hp Ht1) as (s0 & w0 & Hmk & Hf0 & Hs0). split.
  - rewrite <- Hf0 in Hf. destruct (timed_log_all_ok localtime mktime sched base tr n next Hnext msgs s0 w0 a0 lines Hs0 Hf Hcl Hnd) as (s1 & w1 & Hlog & Hs1).
    exists s0, w0, s1, w1. split_and!; [done|done|]. destruct Hs1 as [Hq1 _ _ _ _ Hv1 _ _ _ _ _]. unfold timed_flush_.
    pose proof (flush_view (t_file_helper_ s1) w1 Hq1) as Hfl. destruct (flush (t_file_helper_ s1, w1)) as [h w2]. cbn [snd] in *. by rewrite Hfl.
  - intros Hn. assert (retained [] a0) as Hr0.
    { split; [constructor|]. cbn [t_kept t_files a0 timed_start]. apply List.Forall_rev.
      set (files := <[_ := _]> (files_ w)). destruct (previous_names_props localtime sched base n t2 files) as [_ Hall].
      eapply Forall_impl; [exact Hall|]. by intros x [Hx _]. }
    assert (length (t_kept a0) <= n) as Hlen by (by destruct Hs0).
    destruct (run_retained localtime sched base tr n next [] a0 evs Hn Hlen (Hnd Hn) Hr0) as (Hk & [Hg Hs] & Ho). fold a all in Hk, Hg, Hs, Ho.
    cbn [app] in Hg. split_and!; [done|by rewrite <- Hk| |].
    + eapply Forall_impl; [exact Hg|]. by intros x [_ Hx].
    + intros p Hpa. rewrite Ho by done. rewrite not_elem_of_cons in Hpa. destruct Hpa as [Hc _]. cbn [t_files t_current a0 timed_start] in Hc |- *.
      by rewrite lookup_insert_ne.
Qed.

(** ** Examples: a calendar of one month, and lines in the file of their day *)

#[local] Instance timed_formatter : Formatter unit := {
  f_format _ msg := Some (tt, payload msg ++ [LF]); f_clone _ := tt; f_pattern _ := tt }.

Definition demo_local (t : Z) : tm :=
  MkTm (t `mod` 60) ((t / 60) `mod` 60) ((t / 3600) `mod` 24) (1 + t / 86400) 0 100 0 0 0 0.
Definition demo_mktime (date : tm) : Z := ((tm_mday date - 1) * 24 + tm_hour date) * 3600 + tm_min date * 60 + tm_sec date.

Lemma demo_offset : fixed_offset demo_local demo_mktime 0.
Proof.
  intros s h m _ _ _. unfold demo_mktime, at_time, demo_local. cbn [tm_mday tm_hour tm_min tm_sec]. rewrite !Z.add_0_r. split; [|reflexivity].
  set (d := (s / 86400)%Z). lia.
Qed.

Definition hm (day h m : Z) : Z := (((day - 1) * 24 + h) * 3600 + m * 60) * NS_PER_SEC.
Definition timed_msg (t : Z) (s : string) : log_msg := MkMsg [] info t 0 (MkLoc [] 0 []) (B s).
Definition log_dir : world := MkWorld {[ resolve (B "other") := B "x" ]} {[ resolve (B "log") ]} [].

Definition demo_run : list (log_msg * Z) :=
  [(timed_msg (hm 1 9 0) "a", hm 1 9 0); (timed_msg (hm 1 10 0) "b", hm 1 10 0); (timed_msg (hm 2 9 0) "c", hm 2 9 0); (timed_msg (hm 3 9 0) "d", hm 3 9 0)].

Lemma timed_sink_correct_witness :
  exists st w', timed_log_all demo_local demo_mktime (daily 0 0) demo_run st = (Ok tt, w') /\
    let files := files_ (timed_flush_ w').2 in
    files !! resolve (B "log/a_2000-01-01.txt") = None /\ files !! resolve (B "log/a_2000-01-02.txt") = Some (B "c" ++ [LF]) /\
    files !! resolve (B "log/a_2000-01-03.txt") = Some (B "d" ++ [LF]) /\ files !! resolve (B "other") = Some (B "x").
Proof.
  destruct (timed_sink_correct demo_local demo_mktime 0 (daily 0 0) ((0 * 3600 + 0 * 60 - 0) * NS_PER_SEC) (B "log/a.txt") false 2 tt (hm 1 8 0) (hm 1 8 0) (hm 1 8 0) log_dir demo_run
    [B "a" ++ [LF]; B "b" ++ [LF]; B "c" ++ [LF]; B "d" ++ [LF]]) as [(s0 & w0 & s1 & w1 & _ & Hlog & Hfl) _].
  - exact demo_offset.
  - apply daily_planned; lia.
  - vm_compute. discriminate.
  - repeat constructor; vm_compute; discriminate.
  - reflexivity.
  - intros date. apply stem_placed; [apply daily_stem|exists "t"%char; split; reflexivity|reflexivity|].
    intros p Hp. change (dirs log_dir) with ({[resolve (B "log")]} : gset path) in Hp. apply elem_of_singleton in Hp as ->. intros H. vm_compute in H. discriminate H.
  - reflexivity.
  - intros _. apply (bool_decide_eq_true_1 (NoDup _)). vm_compute. reflexivity.
  - exists (s0, w0), (s1, w1). split; [exact Hlog|]. cbv zeta. rewrite Hfl. split_and!; vm_compute; reflexivity.
Defined.

(** What a run leaves under a name. *)
Definition left_by (localtime : Z -> tm) (mktime : tm -> Z) (h m : Z) (tr : bool) (n : nat) (start : Z) (msgs : list (log_msg * Z)) (name : bytes)
    : option bytes :=
  match mk_daily_file_sink localtime mktime tt (B "log/a.txt") h m tr n start start start log_dir with
  | (Ok s, w) => files_ (timed_flush_ (timed_log_all localtime mktime (daily h m) msgs (s, w)).2).2 !! resolve name
  | _ => None
  end.

(** A rotation at two o'clock and one file to keep: the sink opened before it and the first
    rotation have the name of the same day, and the file that was just written is deleted; what
    comes until the next rotation is lost too. *)
Example rotation_deletes_its_file :
  left_by demo_local demo_mktime 2 0 false 1 (hm 1 1 0) [(timed_msg (hm 1 3 0) "lost", hm 1 3 0); (timed_msg (hm 1 4 0) "too", hm 1 4 0)]
    (B "log/a_2000-01-01.txt") = None.
Proof. vm_compute. reflexivity. Qed.

(** The same with truncation: the first rotation empties the file of the day. *)
Example rotation_empties_its_file :
  left_by demo_local demo_mktime 2 0 true 0 (hm 1 0 30) [(timed_msg (hm 1 1 0) "lost", hm 1 1 0); (timed_msg (hm 1 3 0) "kept", hm 1 3 0)]
    (B "log/a_2000-01-01.txt") = Some (B "kept" ++ [LF]).
Proof. vm_compute. reflexivity. Qed.

(** The next rotation is reckoned from the clock, not from the message: the first message of a
    day, logged before midnight and written after it, puts the next day into its own file. *)
Example late_message_shifts_a_day :
  left_by demo_local demo_mktime 0 0 false 0 (hm 1 8 0) [(timed_msg (hm 3 0 0 - 1) "late", hm 3 0 1); (timed_msg (hm 3 12 0) "next day", hm 3 12 0)]
    (B "log/a_2000-01-02.txt") = Some (B "late" ++ [LF] ++ B "next day" ++ [LF]).
Proof. vm_compute. reflexivity. Qed.

(** An hour later in the day of 25 hours that ends summer time ([tm_isdst] says which): the
    rotation of midnight falls on 23 o'clock, and the name is that of the same day again. *)
Definition autumn_local (t : Z) : tm :=
  let local := if (t <? 7200)%Z then t else (t - 3600)%Z in
  MkTm (local `mod` 60) ((local / 60) `mod` 60) ((local / 3600) `mod` 24) (1 + local / 86400) 0 100 0 0 (if (t <? 7200)%Z then 1 else 0) 0.
Definition autumn_mktime (date : tm) : Z := (demo_mktime date + if (tm_isdst date =? 0)%Z then 3600 else 0)%Z.

Example long_day_empties_its_file :
  left_by autumn_local autumn_mktime 0 0 true 0 (hm 1 0 30) [(timed_msg (hm 1 12 0) "lost", hm 1 12 0); (timed_msg (hm 2 0 30) "kept", hm 2 0 30)]
    (B "log/a_2000-01-01.txt") = Some (B "kept" ++ [LF]).
Proof. vm_compute. reflexivity. Qed.

(** A rotation time that is none is refused. *)
Lemma daily_time_refused {F} localtime mktime (f : F) base h m tr n t0 t1 t2 w :
  (h < 0 \/ 23 < h \/ m < 0 \/ 59 < m)%Z ->
  mk_daily_file_sink localtime mktime f base h m tr n t0 t1 t2 w = (Throw (B "daily_file_sink: Invalid rotation time in ctor"), w).
Proof. intros Ht. unfold mk_daily_file_sink. destruct (_ || _) eqn:Hb; [done|]. exfalso. rewrite !orb_false_iff in Hb. to_prop. lia. Qed.
