(* ===== verification/Logger.v ===== *)
(** * The logger: [spdlog/logger.h], [logger-inl.h], [details/backtracer.h], [details/log_msg_buffer.h]

    A logger filters by level, hands a message to its sinks, reports their exceptions, flushes,
    and keeps recent messages for a backtrace.  Sinks are shared between loggers: a logger holds
    references into a store.  Sinks are an interface, which the rotating file sink implements. *)
From S2P Require Import Prelude CLib Fmt PatternFormatter Files Sinks CircularQueue.

(** ** The sink interface *)

Class Sink (F K W : Type) := {
  k_level : K -> level_enum;
  k_log : log_msg -> K * W -> outcome unit * (K * W);
  k_flush : K * W -> outcome unit * (K * W);
  k_set_formatter : F -> K -> K }.

#[export] Instance rotating_Sink {F} `{Formatter F} : Sink F (rotating_file_sink F) world := {
  k_level s := level_ (rot_base s);
  k_log := sink_it_;
  k_flush st := (Ok tt, flush_ st);
  k_set_formatter f s := with_base (set_formatter_ f (rot_base s)) s }.

(** ** [log_msg_buffer]: a message with its own copy of the texts *)

Record log_msg_buffer := MkBuffer { b_msg : log_msg; buffer : bytes }.

(** The two views point into the buffer; their lengths are those of the message. *)
Definition update_string_views (m : log_msg) (buffer : bytes) : log_msg_buffer :=
  let n := length (logger_name m) in
  MkBuffer (MkMsg (take n buffer) (msg_level m) (time m) (thread_id m) (source m)
              (take (length (payload m)) (drop n buffer))) buffer.

Definition mk_log_msg_buffer (orig_msg : log_msg) : log_msg_buffer :=
  update_string_views orig_msg (logger_name orig_msg ++ payload orig_msg).

(** Copies take the views of the other message, moves its buffer. *)
Definition copy_log_msg_buffer (other : log_msg_buffer) : log_msg_buffer := mk_log_msg_buffer (b_msg other).
Definition move_log_msg_buffer (other : log_msg_buffer) : log_msg_buffer :=
  update_string_views (b_msg other) (buffer other).

(** The default message: [level::off], the epoch, no source. *)
Definition default_buffer : log_msg_buffer := MkBuffer (MkMsg [] off 0 0 (MkLoc [] 0 []) []) [].

(** ** [backtracer] *)

Record backtracer := MkTracer { enabled_ : bool; messages_ : circular_q log_msg_buffer }.

Definition new_tracer : backtracer := MkTracer false disabled_q.
Definition tracer_enable (size : nat) (t : backtracer) : backtracer := MkTracer true (mk_circular_q default_buffer size).
Definition tracer_disable (t : backtracer) : backtracer := MkTracer false (messages_ t).
Definition tracer_push_back (msg : log_msg) (t : backtracer) : backtracer :=
  MkTracer (enabled_ t) (push_back (mk_log_msg_buffer msg) (messages_ t)).

(** [foreach_pop] with a function on a state of its own; one round for every item. *)
Fixpoint foreach_pop_loop {S} (fuel : nat) (fn : log_msg -> S -> option S) (q : circular_q log_msg_buffer) (s : S)
    : option (circular_q log_msg_buffer * S) :=
  if empty q then Some (q, s)
  else
    match fuel with
    | 0 => None
    | S fuel =>
        front_msg ← front q;
        s ← fn (b_msg front_msg) s;
        q ← pop_front q;
        foreach_pop_loop fuel fn q s
    end.

Definition foreach_pop {S} (fn : log_msg -> S -> option S) (t : backtracer) (s : S) : option (backtracer * S) :=
  '(q, s) ← foreach_pop_loop (size (messages_ t)) fn (messages_ t) s; Some (MkTracer (enabled_ t) q, s).

(** ** [logger] *)

Record logger := MkLogger {
  name_ : bytes; sinks_ : list nat; level_ : level_enum; flush_level_ : level_enum;
  custom_err_handler_ : option nat; tracer_ : backtracer }.

Definition new_logger (name : bytes) (sinks : list nat) : logger := MkLogger name sinks info off None new_tracer.

Definition set_level (log_level : level_enum) (l : logger) : logger :=
  MkLogger (name_ l) (sinks_ l) log_level (flush_level_ l) (custom_err_handler_ l) (tracer_ l).
Definition flush_on (log_level : level_enum) (l : logger) : logger :=
  MkLogger (name_ l) (sinks_ l) (level_ l) log_level (custom_err_handler_ l) (tracer_ l).
Definition set_error_handler (h : nat) (l : logger) : logger :=
  MkLogger (name_ l) (sinks_ l) (level_ l) (flush_level_ l) (Some h) (tracer_ l).
Definition with_tracer (t : backtracer) (l : logger) : logger :=
  MkLogger (name_ l) (sinks_ l) (level_ l) (flush_level_ l) (custom_err_handler_ l) t.
Definition enable_backtrace (n_messages : nat) (l : logger) : logger := with_tracer (tracer_enable n_messages (tracer_ l)) l.
Definition disable_backtrace (l : logger) : logger := with_tracer (tracer_disable (tracer_ l)) l.

(** [clone]: the same sinks and configuration under another name. *)
Definition clone (logger_name : bytes) (l : logger) : logger :=
  MkLogger logger_name (sinks_ l) (level_ l) (flush_level_ l) (custom_err_handler_ l) (tracer_ l).

(** [swap]: both loggers afterwards. *)
Definition swap (a b : logger) : logger * logger := (b, a).

Definition level_geb (a b : level_enum) : bool := (level_num b <=? level_num a)%Z.

Definition should_log (msg_level : level_enum) (l : logger) : bool := level_geb msg_level (level_ l).
Definition should_flush_ (msg : log_msg) (l : logger) : bool :=
  level_geb (msg_level msg) (flush_level_ l) && negb (bool_decide (msg_level msg = off)).

(** What loggers share: the sinks, what those work on, the answers of the clock still to come,
    the state of the default error handler (static variables) and its output, and the calls of
    custom error handlers. *)
Record shared (K W : Type) := MkShared {
  store : gmap nat K; disk : W; clock : list Z; err_counter : Z; last_report_time : Z; stderr : list bytes;
  handled : list (nat * bytes) }.
Arguments MkShared {K W}.
Arguments store {K W}.
Arguments disk {K W}.
Arguments clock {K W}.
Arguments err_counter {K W}.
Arguments last_report_time {K W}.
Arguments stderr {K W}.
Arguments handled {K W}.

Section loggers.
  Context {F K W : Type} `{Formatter F} `{Sink F K W} (localtime : Z -> tm) (this_thread : Z).
  Abbreviation G := (shared K W).

  (** [log_clock::now()]. *)
Definition now (g : G) : Z * G :=
    match clock g with
    | [] => (0%Z, g)
    | t :: ts => (t, MkShared (store g) (disk g) ts (err_counter g) (last_report_time g) (stderr g) (handled g))
    end.

Definition err_text (count : Z) (now : Z) (name msg : bytes) : bytes :=
    B "[*** LOG ERROR #" ++ zpad 4 count ++ B " ***] [" ++ strftime_iso (localtime (seconds_of now)) ++ B "] [" ++
    name ++ B "] {" ++ msg ++ B "}" ++ [LF].

Definition err_handler_ (msg : bytes) (l : logger) (g : G) : G :=
    match custom_err_handler_ l with
    | Some h => MkShared (store g) (disk g) (clock g) (err_counter g) (last_report_time g) (stderr g) (handled g ++ [(h, msg)])
    | None =>
        let '(now, g) := now g in
        let err_counter := u64 (err_counter g + 1) in
        if (now - last_report_time g <? NS_PER_SEC)%Z then
          MkShared (store g) (disk g) (clock g) err_counter (last_report_time g) (stderr g) (handled g)
        else
          MkShared (store g) (disk g) (clock g) err_counter now
            (stderr g ++ [err_text err_counter now (c_str (name_ l)) (c_str msg)]) (handled g)
    end.

  (** A call of a sink inside try and catch; [None] is undefined behaviour. *)
Definition try_sink (call : K * W -> outcome unit * (K * W)) (id : nat) (l : logger) (g : G) : option G :=
    k ← store g !! id;
    let '(r, (k, w)) := call (k, disk g) in
    let g := MkShared (<[id := k]> (store g)) w (clock g) (err_counter g) (last_report_time g) (stderr g) (handled g) in
    match r with
    | Ok _ => Some g
    | Throw what => Some (err_handler_ what l g)
    | Undef => None
    end.

Fixpoint flush_sinks (ids : list nat) (l : logger) (g : G) : option G :=
    match ids with
    | [] => Some g
    | id :: ids => g ← try_sink k_flush id l g; flush_sinks ids l g
    end.

Definition flush_ (l : logger) (g : G) : option G := flush_sinks (sinks_ l) l g.

Fixpoint sink_loop (msg : log_msg) (ids : list nat) (l : logger) (g : G) : option G :=
    match ids with
    | [] => Some g
    | id :: ids =>
        k ← store g !! id;
        g ← (if level_geb (msg_level msg) (k_level k) then try_sink (k_log msg) id l g else Some g);
        sink_loop msg ids l g
    end.

Definition sink_it_ (msg : log_msg) (l : logger) (g : G) : option G :=
    g ← sink_loop msg (sinks_ l) l g;
    if should_flush_ msg l then flush_ l g else Some g.

Definition log_it_ (msg : log_msg) (log_enabled traceback_enabled : bool) (l : logger) (g : G) : option (logger * G) :=
    g ← (if log_enabled then sink_it_ msg l g else Some g);
    Some (if traceback_enabled then with_tracer (tracer_push_back msg (tracer_ l)) l else l, g).

  (** [log_msg]'s constructors ask the clock and the thread. *)
Definition mk_log_msg (loc : source_loc) (name : bytes) (lvl : level_enum) (msg : bytes) (g : G) : log_msg * G :=
    let '(time, g) := now g in (MkMsg name lvl time this_thread loc msg, g).

  (** [log(source_loc, level, string_view)]. *)
Definition log (loc : source_loc) (lvl : level_enum) (msg : bytes) (l : logger) (g : G) : option (logger * G) :=
    let log_enabled := should_log lvl l in
    let traceback_enabled := enabled_ (tracer_ l) in
    if negb log_enabled && negb traceback_enabled then Some (l, g)
    else
      let '(log_msg, g) := mk_log_msg loc (name_ l) lvl msg g in
      log_it_ log_msg log_enabled traceback_enabled l g.

  (** [log] with a given time. *)
Definition log_at (log_time : Z) (loc : source_loc) (lvl : level_enum) (msg : bytes) (l : logger) (g : G) : option (logger * G) :=
    let log_enabled := should_log lvl l in
    let traceback_enabled := enabled_ (tracer_ l) in
    if negb log_enabled && negb traceback_enabled then Some (l, g)
    else log_it_ (MkMsg (name_ l) lvl log_time this_thread loc msg) log_enabled traceback_enabled l g.

  (** [log_]: a format string and arguments; [formatted] is what the fmt library makes of them,
      whose exception is reported. *)
Definition log_ (loc : source_loc) (lvl : level_enum) (formatted : outcome bytes) (l : logger) (g : G) : option (logger * G) :=
    let log_enabled := should_log lvl l in
    let traceback_enabled := enabled_ (tracer_ l) in
    if negb log_enabled && negb traceback_enabled then Some (l, g)
    else
      match formatted with
      | Ok buf =>
          let '(log_msg, g) := mk_log_msg loc (name_ l) lvl buf g in
          log_it_ log_msg log_enabled traceback_enabled l g
      | Throw what => Some (l, err_handler_ what l g)
      | Undef => None
      end.

Definition start_text : bytes := B "****************** Backtrace Start ******************".
Definition end_text : bytes := B "****************** Backtrace End ********************".
Definition no_loc : source_loc := MkLoc [] 0 [].

Definition dump_backtrace_ (l : logger) (g : G) : option (logger * G) :=
    if enabled_ (tracer_ l) then
      let '(m, g) := mk_log_msg no_loc (name_ l) info start_text g in
      g ← sink_it_ m l g;
      '(t, g) ← foreach_pop (fun msg g => sink_it_ msg l g) (tracer_ l) g;
      let '(m, g) := mk_log_msg no_loc (name_ l) info end_text g in
      g ← sink_it_ m l g;
      Some (with_tracer t l, g)
    else Some (l, g).

  (** [set_formatter]: the last sink gets the formatter, those before it clones. *)
Fixpoint set_formatter_loop (ids : list nat) (f : F) (m : gmap nat K) : gmap nat K :=
    match ids with
    | [] => m
    | [id] => alter (k_set_formatter f) id m
    | id :: ids => set_formatter_loop ids f (alter (k_set_formatter (f_clone f)) id m)
    end.

Definition set_formatter (f : F) (l : logger) (g : G) : G :=
    MkShared (set_formatter_loop (sinks_ l) f (store g)) (disk g) (clock g) (err_counter g) (last_report_time g)
      (stderr g) (handled g).

Definition set_pattern (pattern : bytes) (l : logger) (g : G) : G := set_formatter (f_pattern pattern) l g.
End loggers.

(** ** Laws of sinks, and sinks that record the calls they get *)

(** Logging and flushing do not change the level of a sink. *)
Class SinkLaws (F K W : Type) `{Sink F K W} : Prop := {
  k_log_level msg k w : k_level (snd (k_log msg (k, w))).1 = k_level k;
  k_flush_level k w : k_level (snd (k_flush (k, w))).1 = k_level k }.

(** A call and the exception it ended with. *)
Inductive call := CLog (id : nat) (msg : log_msg) | CFlush (id : nat).
Record event := MkEvent { ev_call : call; ev_error : option bytes }.

Definition error_of (r : outcome unit) : option bytes := match r with Throw what => Some what | _ => None end.

#[local] Instance recorded_Sink {F K W} `{Sink F K W} : Sink F (nat * K) (list event * W) := {
  k_level k := k_level (snd k);
  k_log msg st :=
    let '((i, k), (evs, w)) := st in
    let '(r, (k, w)) := k_log msg (k, w) in (r, ((i, k), (evs ++ [MkEvent (CLog i msg) (error_of r)], w)));
  k_flush st :=
    let '((i, k), (evs, w)) := st in
    let '(r, (k, w)) := k_flush (k, w) in (r, ((i, k), (evs ++ [MkEvent (CFlush i) (error_of r)], w)));
  k_set_formatter f k := (fst k, k_set_formatter f (snd k)) }.

Section recorded.
  Context {F K W : Type} `{Sink F K W} `{!SinkLaws F K W} (localtime : Z -> tm) (this_thread : Z).
  Abbreviation G := (shared (nat * K) (list event * W)).

  (** The store with the sinks of a logger: each has its own number. *)
Definition tagged (g : G) (ids : list nat) : Prop := Forall (fun id => exists k, store g !! id = Some (id, k)) ids.

  (** The levels of the sinks. *)
Definition sink_level (g : G) (id : nat) : level_enum := default off ((fun k => k_level (snd k)) <$> store g !! id).

Definition events (g : G) : list event := fst (disk g).

  (** What a step adds: events, whose exceptions reach a custom handler, and nothing else that
      later steps depend on. *)
Definition adds (l : logger) (cs : list call) (g g' : G) : Prop :=
    exists evs, events g' = events g ++ evs /\ ev_call <$> evs = cs /\
      (forall h, custom_err_handler_ l = Some h -> handled g' = handled g ++ (pair h <$> omap ev_error evs)) /\
      (forall id, sink_level g' id = sink_level g id) /\ (forall ids, tagged g ids -> tagged g' ids).

Lemma adds_nil l g : adds l [] g g.
Proof. exists []. split_and!; auto; [by rewrite app_nil_r|intros h _; by rewrite app_nil_r]. Qed.

Lemma adds_app l cs cs' g g' g'' : adds l cs g g' -> adds l cs' g' g'' -> adds l (cs ++ cs') g g''.
Proof.
    intros (evs & He & Hc & Hh & Hl & Ht) (evs' & He' & Hc' & Hh' & Hl' & Ht'). exists (evs ++ evs'). split_and!.
    - by rewrite He', He, app_assoc.
    - by rewrite fmap_app, Hc, Hc'.
    - intros h Heq. by rewrite (Hh' h Heq), (Hh h Heq), omap_app, fmap_app, app_assoc.
    - intros id. by rewrite Hl'.
    - auto.
  Qed.

Lemma err_handler_fields msg l (g : G) :
    store (err_handler_ localtime msg l g) = store g /\ disk (err_handler_ localtime msg l g) = disk g /\
    (forall h, custom_err_handler_ l = Some h -> handled (err_handler_ localtime msg l g) = handled g ++ [(h, msg)]).
Proof.
    unfold err_handler_. destruct (custom_err_handler_ l) as [h'|]; [split_and!; try done; by intros h [= ->]|].
    unfold now. destruct (clock g); case_match; by split_and!.
  Qed.

  (** One call of a sink. *)
Lemma try_sink_adds (c : nat -> call) fn id l g g' :
    (forall k evs w, exists r k' w', fn ((id, k), (evs, w)) = (r, ((id, k'), (evs ++ [MkEvent (c id) (error_of r)], w'))) /\
       k_level k' = k_level k) ->
    tagged g [id] -> try_sink localtime fn id l g = Some g' -> adds l [c id] g g'.
Proof.
    intros Hfn Htag Ht. unfold try_sink in Ht. apply Forall_cons in Htag as [[k Hk] _]. rewrite Hk in Ht.
    cbn [mbind option_bind] in Ht. destruct (disk g) as [evs w] eqn:Hd.
    destruct (Hfn k evs w) as (r & k' & w' & Heq & Hlev). rewrite Heq in Ht.
    set (g1 := MkShared _ _ _ _ _ _ _) in Ht.
    assert (forall id', sink_level g1 id' = sink_level g id') as Hl1.
    { intros id'. unfold sink_level, g1. cbn [store]. destruct (decide (id' = id)) as [->|].
      - rewrite lookup_insert_eq, Hk. cbn. by rewrite Hlev.
      - by rewrite lookup_insert_ne. }
    assert (forall ids, tagged g ids -> tagged g1 ids) as Ht1.
    { intros ids Hids. eapply Forall_impl; [exact Hids|]. intros id' [k1 Hk1]. unfold g1. cbn [store].
      destruct (decide (id' = id)) as [->|]; [exists k'; apply lookup_insert_eq|]. exists k1. by rewrite lookup_insert_ne. }
    exists [MkEvent (c id) (error_of r)]. unfold events. rewrite Hd. cbn [fst].
    destruct r as [[]|what|]; [| |done].
    - injection Ht as <-. split_and!; auto. intros h _. cbn. by rewrite app_nil_r.
    - injection Ht as <-. destruct (err_handler_fields what l g1) as (Hs & Hdk & Hh). split_and!.
      + by rewrite Hdk.
      + done.
      + intros h Hc. by rewrite (Hh h Hc).
      + intros id'. unfold sink_level. rewrite Hs. apply Hl1.
      + intros ids Hids. unfold tagged. rewrite Hs. by apply Ht1.
  Qed.

Lemma try_log_adds msg id l g g' :
    tagged g [id] -> try_sink localtime (k_log msg) id l g = Some g' -> adds l [CLog id msg] g g'.
Proof.
    apply (try_sink_adds (fun i => CLog i msg)). intros k evs w. cbn. pose proof (k_log_level msg k w) as Hlev.
    destruct (k_log msg (k, w)) as [r [k' w']]. by exists r, k', w'.
  Qed.

Lemma try_flush_adds id l g g' :
    tagged g [id] -> try_sink localtime k_flush id l g = Some g' -> adds l [CFlush id] g g'.
Proof.
    apply (try_sink_adds CFlush). intros k evs w. cbn. pose proof (k_flush_level k w) as Hlev.
    destruct (k_flush (k, w)) as [r [k' w']]. by exists r, k', w'.
  Qed.

  (** The calls [sink_it_] makes for a message. *)
Definition log_calls (level : nat -> level_enum) (msg : log_msg) (ids : list nat) : list call :=
    (fun id => CLog id msg) <$> filter (fun id => level_geb (msg_level msg) (level id)) ids.

Definition sink_calls (level : nat -> level_enum) (l : logger) (msg : log_msg) : list call :=
    log_calls level msg (sinks_ l) ++ (if should_flush_ msg l then CFlush <$> sinks_ l else []).

Lemma sink_loop_adds msg ids l g g' :
    tagged g ids -> sink_loop localtime msg ids l g = Some g' -> adds l (log_calls (sink_level g) msg ids) g g'.
Proof.
    revert g. induction ids as [|id ids IH]; intros g Htag Hr; cbn [sink_loop] in Hr.
    - injection Hr as <-. apply adds_nil.
    - pose proof Htag as Htag'. apply Forall_cons in Htag as [[k Hk] Htag]. rewrite Hk in Hr. cbn [mbind option_bind] in Hr.
      assert (sink_level g id = k_level k) as Hlev by (unfold sink_level; by rewrite Hk).
      cbn [k_level recorded_Sink snd] in Hr. unfold log_calls. rewrite filter_cons, Hlev.
      destruct (level_geb (msg_level msg) (k_level k)) eqn:Hge; cbn [Is_true decide].
      + destruct (try_sink _ _ _ _ _) as [g1|] eqn:Hg1; [|done]. cbn [mbind option_bind] in Hr.
        assert (adds l [CLog id msg] g g1) as Ha by (apply (try_log_adds msg id l g g1); [by apply Forall_singleton; exists k|done]).
        rewrite decide_True by done. cbn [fmap list_fmap]. change (CLog id msg :: ?x) with ([CLog id msg] ++ x).
        eapply adds_app; [done|]. destruct Ha as (_ & _ & _ & _ & Hl & Ht).
        replace (filter (fun id0 => level_geb (msg_level msg) (sink_level g id0)) ids)
          with (filter (fun id0 => level_geb (msg_level msg) (sink_level g1 id0)) ids).
        { apply IH; auto. }
        apply list_filter_iff. intros i. by rewrite Hl.
      + cbn [mbind option_bind] in Hr. rewrite decide_False by (by intros []). by apply IH.
  Qed.

Lemma flush_sinks_adds ids l g g' :
    tagged g ids -> flush_sinks localtime ids l g = Some g' -> adds l (CFlush <$> ids) g g'.
Proof.
    revert g. induction ids as [|id ids IH]; intros g Htag Hr; cbn [flush_sinks] in Hr.
    - injection Hr as <-. apply adds_nil.
    - apply Forall_cons in Htag as [Hid Htag].
      destruct (try_sink _ _ _ _ _) as [g1|] eqn:Hg1; [|done]. cbn [mbind option_bind] in Hr.
      assert (adds l [CFlush id] g g1) as Ha by (apply (try_flush_adds id l g g1); [by apply Forall_singleton|done]).
      cbn [fmap list_fmap]. change (CFlush id :: ?x) with ([CFlush id] ++ x).
      eapply adds_app; [done|]. apply IH; [|done]. destruct Ha as (_ & _ & _ & _ & _ & Ht). auto.
  Qed.

Lemma sink_it_adds msg l g g' :
    tagged g (sinks_ l) -> sink_it_ localtime msg l g = Some g' -> adds l (sink_calls (sink_level g) l msg) g g'.
Proof.
    intros Htag Hr. unfold sink_it_ in Hr. destruct (sink_loop _ _ _ _ _) as [g1|] eqn:Hg1; [|done].
    cbn [mbind option_bind] in Hr. pose proof (sink_loop_adds msg (sinks_ l) l g g1 Htag Hg1) as Ha. unfold sink_calls.
    eapply adds_app; [done|]. destruct (should_flush_ msg l).
    - apply flush_sinks_adds; [|done]. destruct Ha as (_ & _ & _ & _ & _ & Ht). auto.
    - injection Hr as <-. apply adds_nil.
  Qed.

  (** The message of a call of [log]. *)
Definition message_of (loc : source_loc) (name : bytes) (lvl : level_enum) (text : bytes) (m : log_msg) : Prop :=
    logger_name m = name /\ msg_level m = lvl /\ source m = loc /\ payload m = text /\ thread_id m = this_thread.

Lemma mk_log_msg_adds l loc name lvl text (g : G) m g1 :
    mk_log_msg this_thread loc name lvl text g = (m, g1) -> message_of loc name lvl text m /\ adds l [] g g1.
Proof.
    unfold mk_log_msg, now. destruct (clock g); intros [= <- <-]; (split; [done|]); [apply adds_nil|].
    exists []. split_and!; auto; [by rewrite app_nil_r|intros h _; by rewrite app_nil_r].
  Qed.

Lemma mk_log_msg_buffer_msg m : b_msg (mk_log_msg_buffer m) = m.
Proof.
    destruct m as [n lv t i s p]. unfold mk_log_msg_buffer, update_string_views. cbn [b_msg logger_name payload msg_level time thread_id source].
    by rewrite take_app_length, drop_app_length, take_ge by done.
  Qed.

Lemma sink_calls_ext lev lev' l m : (forall id, lev id = lev' id) -> sink_calls lev l m = sink_calls lev' l m.
Proof. intros Hl. unfold sink_calls, log_calls. do 2 f_equal. apply list_filter_iff. intros i. by rewrite Hl. Qed.

  (** The calls of a list of messages. *)
Definition calls_of (lev : nat -> level_enum) (l : logger) (ms : list log_msg) : list call := concat (sink_calls lev l <$> ms).

Lemma calls_of_ext lev lev' l ms : (forall id, lev id = lev' id) -> calls_of lev l ms = calls_of lev' l ms.
Proof. intros Hl. unfold calls_of. f_equal. apply list_fmap_ext. intros _ m _. by apply sink_calls_ext. Qed.

Lemma log_adds loc lvl text l g l' g' :
    tagged g (sinks_ l) -> log localtime this_thread loc lvl text l g = Some (l', g') ->
    l' = l /\ g' = g /\ should_log lvl l = false /\ enabled_ (tracer_ l) = false \/
    exists m, message_of loc (name_ l) lvl text m /\
      adds l (if should_log lvl l then sink_calls (sink_level g) l m else []) g g' /\
      l' = (if enabled_ (tracer_ l) then with_tracer (tracer_push_back m (tracer_ l)) l else l).
Proof.
    intros Htag Hr. unfold log in Hr. destruct (negb (should_log lvl l) && negb (enabled_ (tracer_ l))) eqn:Hoff.
    { left. injection Hr as <- <-. by to_prop. }
    right. destruct (mk_log_msg _ _ _ _ _ _) as [m g1] eqn:Hm. destruct (mk_log_msg_adds l _ _ _ _ _ _ _ Hm) as [Hmsg Ha].
    exists m. split; [done|]. unfold log_it_ in Hr. change (if should_log lvl l then ?x else []) with ([] ++ if should_log lvl l then x else []).
    destruct Ha as (evs & He & Hc & Hh & Hl & Ht). assert (adds l [] g g1) as Ha by (by exists evs).
    destruct (should_log lvl l).
    - destruct (sink_it_ _ _ _ _) as [g2|] eqn:Hg2; [|done]. cbn [mbind option_bind] in Hr. injection Hr as <- <-.
      split; [|done]. eapply adds_app; [exact Ha|]. erewrite sink_calls_ext; [apply sink_it_adds; [by apply Ht|done]|done].
    - cbn [mbind option_bind] in Hr. injection Hr as <- <-. done.
  Qed.

Lemma foreach_pop_loop_adds fuel l q g q' g' :
    wf q -> tagged g (sinks_ l) ->
    foreach_pop_loop fuel (fun msg g => sink_it_ localtime msg l g) q g = Some (q', g') ->
    adds l (calls_of (sink_level g) l (b_msg <$> items q)) g g' /\ wf q' /\ items q' = [].
Proof.
    revert q g. induction fuel as [|fuel IH]; intros q g Hq Htag Hr; cbn [foreach_pop_loop] in Hr;
      rewrite (empty_size q Hq), <- (items_length q Hq) in Hr;
      (destruct (items q) as [|b bs] eqn:Hi; cbn [length Nat.eqb] in Hr;
         [injection Hr as <- <-; split_and!; [apply adds_nil|done|done]|]); [done|].
    assert (size q <> 0) as Hs by (rewrite <- (items_length q Hq), Hi; done).
    rewrite (front_items q Hq Hs), Hi in Hr. cbn [head mbind option_bind] in Hr.
    destruct (sink_it_ _ _ _ _) as [g1|] eqn:Hg1; [|done]. cbn [mbind option_bind] in Hr.
    destruct (pop_front_items q Hq Hs) as (q1 & Hp & Hq1 & Hi1 & _). rewrite Hp in Hr. cbn [mbind option_bind] in Hr.
    pose proof (sink_it_adds _ _ _ _ Htag Hg1) as Ha.
    assert (tagged g1 (sinks_ l) /\ forall id, sink_level g1 id = sink_level g id) as [Htag1 Hl1].
    { destruct Ha as (_ & _ & _ & _ & Hl & Ht). auto. }
    destruct (IH q1 g1 Hq1 Htag1 Hr) as (Ha' & Hw & He). split_and!; [|done|done].
    cbn [fmap list_fmap calls_of concat]. unfold calls_of. cbn [concat fmap list_fmap].
    eapply adds_app; [exact Ha|]. rewrite Hi1, Hi in Ha'. cbn [tail] in Ha'.
    erewrite calls_of_ext in Ha'; [exact Ha'|done].
  Qed.

  (** The same steps after others, with the levels of the start. *)
Lemma adds_tagged l cs g g' ids : adds l cs g g' -> tagged g ids -> tagged g' ids.
Proof. intros (_ & _ & _ & _ & _ & Ht). auto. Qed.

Lemma adds_level l cs g g' id : adds l cs g g' -> sink_level g' id = sink_level g id.
Proof. by intros (_ & _ & _ & _ & Hl & _). Qed.

Lemma sink_it_from l cs g0 msg g g' :
    tagged g0 (sinks_ l) -> adds l cs g0 g -> sink_it_ localtime msg l g = Some g' ->
    adds l (cs ++ sink_calls (sink_level g0) l msg) g0 g'.
Proof.
    intros Htag Ha Hr. eapply adds_app; [exact Ha|].
    rewrite <- (sink_calls_ext (sink_level g)) by (intros id; by apply (adds_level _ _ _ _ _ Ha)).
    apply sink_it_adds; [by eapply adds_tagged|done].
  Qed.

Lemma mk_log_msg_from l cs g0 loc name lvl text g m g' :
    adds l cs g0 g -> mk_log_msg this_thread loc name lvl text g = (m, g') ->
    message_of loc name lvl text m /\ adds l cs g0 g'.
Proof.
    intros Ha Hm. destruct (mk_log_msg_adds l _ _ _ _ _ _ _ Hm) as [Hmsg Ha']. split; [done|].
    rewrite <- (app_nil_r cs). by eapply adds_app.
  Qed.

Lemma foreach_pop_from l cs g0 fuel q g q' g' :
    wf q -> tagged g0 (sinks_ l) -> adds l cs g0 g ->
    foreach_pop_loop fuel (fun msg g => sink_it_ localtime msg l g) q g = Some (q', g') ->
    adds l (cs ++ calls_of (sink_level g0) l (b_msg <$> items q)) g0 g' /\ items q' = [].
Proof.
    intros Hq Htag Ha Hr. destruct (foreach_pop_loop_adds _ _ _ _ _ _ Hq (adds_tagged _ _ _ _ _ Ha Htag) Hr) as (Ha' & _ & He).
    split; [|done]. eapply adds_app; [exact Ha|].
    rewrite <- (calls_of_ext (sink_level g)) by (intros id; by apply (adds_level _ _ _ _ _ Ha)). done.
  Qed.

Lemma dump_backtrace_from l cs g0 g l' g' :
    enabled_ (tracer_ l) = true -> wf (messages_ (tracer_ l)) -> tagged g0 (sinks_ l) -> adds l cs g0 g ->
    dump_backtrace_ localtime this_thread l g = Some (l', g') ->
    exists m1 m2, message_of no_loc (name_ l) info start_text m1 /\ message_of no_loc (name_ l) info end_text m2 /\
      adds l (cs ++ calls_of (sink_level g0) l (m1 :: (b_msg <$> items (messages_ (tracer_ l))) ++ [m2])) g0 g' /\
      items (messages_ (tracer_ l')) = [] /\ enabled_ (tracer_ l') = true.
Proof.
    intros Hen Hwf Htag Ha Hr. unfold dump_backtrace_ in Hr. rewrite Hen in Hr.
    destruct (mk_log_msg _ _ _ _ start_text _) as [m1 g1] eqn:Hm1.
    destruct (mk_log_msg_from _ _ _ _ _ _ _ _ _ _ Ha Hm1) as [Hmsg1 Ha1].
    destruct (sink_it_ _ m1 _ _) as [g2|] eqn:Hg2; [|done]. cbn [mbind option_bind] in Hr.
    pose proof (sink_it_from _ _ _ _ _ _ Htag Ha1 Hg2) as Ha2.
    unfold foreach_pop in Hr. destruct (foreach_pop_loop _ _ _ _) as [[q g3]|] eqn:Hg3; [|done]. cbn [mbind option_bind] in Hr.
    destruct (foreach_pop_from _ _ _ _ _ _ _ _ Hwf Htag Ha2 Hg3) as [Ha3 Hempty].
    destruct (mk_log_msg _ _ _ _ end_text _) as [m2 g4] eqn:Hm2.
    destruct (mk_log_msg_from _ _ _ _ _ _ _ _ _ _ Ha3 Hm2) as [Hmsg2 Ha4].
    destruct (sink_it_ _ m2 _ _) as [g5|] eqn:Hg5; [|done]. cbn [mbind option_bind] in Hr. injection Hr as <- <-.
    pose proof (sink_it_from _ _ _ _ _ _ Htag Ha4 Hg5) as Ha5.
    exists m1, m2. split_and!; [done|done| |done|done].
    unfold calls_of in *. cbn [fmap list_fmap concat]. rewrite fmap_app, concat_app. cbn [fmap list_fmap concat].
    by rewrite app_nil_r, <- !app_assoc in *.
  Qed.

  (** A sequence of calls of [log]. *)
Definition request := (source_loc * level_enum * bytes)%type.

Fixpoint log_seq (reqs : list request) (l : logger) (g : G) : option (logger * G) :=
    match reqs with
    | [] => Some (l, g)
    | (loc, lvl, text) :: reqs => '(l, g) ← log localtime this_thread loc lvl text l g; log_seq reqs l g
    end.

Definition requested (l : logger) (r : request) (m : log_msg) : Prop := message_of r.1.1 (name_ l) r.1.2 r.2 m.

  (** Loggers that differ in what their backtrace holds make the same calls. *)
Lemma with_tracer_calls t l lev m : sink_calls lev (with_tracer t l) m = sink_calls lev l m.
Proof. done. Qed.

  (** With a backtrace of [n] messages, the messages of a sequence of calls are all kept for it,
      whatever their levels; those the logger's level lets through also go to the sinks. *)
Lemma log_seq_from reqs l cs g0 g l' g' :
    tagged g0 (sinks_ l) -> adds l cs g0 g -> enabled_ (tracer_ l) = true -> wf (messages_ (tracer_ l)) ->
    0 < max_items_ (messages_ (tracer_ l)) -> log_seq reqs l g = Some (l', g') ->
    exists ms q, Forall2 (requested l) reqs ms /\ l' = with_tracer (MkTracer true q) l /\ wf q /\
      max_items_ q = max_items_ (messages_ (tracer_ l)) /\
      b_msg <$> items q = newest (capacity q) ((b_msg <$> items (messages_ (tracer_ l))) ++ ms) /\
      adds l (cs ++ calls_of (sink_level g0) l (filter (fun m => should_log (msg_level m) l) ms)) g0 g'.
Proof.
    revert l cs g. induction reqs as [|[[loc lvl] text] reqs IH]; intros l cs g Htag Ha Hen Hwf Hm Hr; cbn [log_seq] in Hr.
    - injection Hr as <- <-. exists [], (messages_ (tracer_ l)). destruct l as [nm sk lv fl eh [en q]]. cbn in *. subst en.
      split_and!; try done; [|by rewrite app_nil_r].
      rewrite app_nil_r. unfold newest. rewrite length_fmap, items_length by done.
      pose proof (size_bound q Hwf) as [Hb _]. replace (size q - capacity q) with 0 by lia. done.
    - destruct (log _ _ _ _ _ _ _) as [[l1 g1]|] eqn:Hl1; [|done]. cbn [mbind option_bind] in Hr.
      destruct (log_adds _ _ _ _ _ _ _ (adds_tagged _ _ _ _ _ Ha Htag) Hl1) as [(_ & _ & _ & ?)|(m & Hmsg & Ha1 & ->)]; [congruence|].
      rewrite Hen in *. set (q := messages_ (tracer_ l)) in *.
      destruct (push_back_items (mk_log_msg_buffer m) q Hwf Hm) as (Hit & _ & Hmax).
      pose proof (adds_app _ _ _ _ _ _ Ha Ha1) as Ha2.
      edestruct (IH (with_tracer (tracer_push_back m (tracer_ l)) l) _ g1 Htag Ha2 Hen) as (ms & q' & Hreq & -> & Hw & Hmax' & Hitems & Ha3);
        [by apply push_back_wf|by rewrite <- Hmax in Hm|done|].
      exists (m :: ms), q'. cbn [with_tracer tracer_ tracer_push_back messages_ b_msg] in *. fold q in Hmax', Hitems.
      assert (capacity q' = capacity q) as Hcap by (unfold capacity; congruence).
      split_and!; [by constructor|done|done|congruence| |].
      + rewrite Hitems, Hit, Hcap. unfold newest. rewrite fmap_drop, fmap_app. cbn [fmap list_fmap]. rewrite mk_log_msg_buffer_msg.
        rewrite !length_app, length_drop, !length_app, !length_fmap. cbn [length].
        rewrite <- (drop_app_le _ ms) by (rewrite length_app, length_fmap; cbn [length]; lia).
        rewrite drop_drop, <- app_assoc. f_equal. lia.
      + rewrite filter_cons. destruct Hmsg as (_ & Hlev & _). rewrite Hlev in *. rewrite <- app_assoc in Ha3.
        rewrite (sink_calls_ext (sink_level g) (sink_level g0)) in Ha3 by (intros id; by apply (adds_level _ _ _ _ _ Ha)).
        destruct (should_log lvl l); [rewrite decide_True by done|rewrite decide_False by (by intros [])]; exact Ha3.
  Qed.

  (** Sinks without undefined behaviour: every operation of the logger returns. *)
Definition sinks_defined : Prop :=
    (forall msg (k : K) (w : W), (k_log msg (k, w)).1 <> Undef) /\ (forall (k : K) (w : W), (k_flush (k, w)).1 <> Undef).

Lemma try_sink_total (fn : (nat * K) * (list event * W) -> outcome unit * ((nat * K) * (list event * W))) id l g :
    (forall st, (fn st).1 <> Undef) -> tagged g [id] -> exists g', try_sink localtime fn id l g = Some g'.
Proof.
    intros Hfn Htag. apply Forall_cons in Htag as [[k Hk] _]. unfold try_sink. rewrite Hk. cbn [mbind option_bind].
    specialize (Hfn ((id, k), disk g)). destruct (fn _) as [[[]|what|] [k' w']]; [by eexists|by eexists|done].
  Qed.

Lemma recorded_defined msg st : sinks_defined ->
    (k_log (Sink := recorded_Sink) msg st).1 <> Undef /\ (k_flush (Sink := recorded_Sink) st).1 <> Undef.
Proof.
    intros [Hl Hf]. destruct st as [[i k] [evs w]]. cbn. specialize (Hl msg k w). specialize (Hf k w).
    destruct (k_log msg (k, w)) as [r [k1 w1]]. destruct (k_flush (k, w)) as [r2 [k2 w2]]. done.
  Qed.

Lemma sink_it_total msg l g :
    sinks_defined -> tagged g (sinks_ l) -> exists g', sink_it_ localtime msg l g = Some g'.
Proof.
    intros Hs Htag. unfold sink_it_.
    assert (forall ids g, tagged g ids -> exists g', sink_loop localtime msg ids l g = Some g') as Hloop.
    { clear g Htag. induction ids as [|id ids IH]; intros g Htag; cbn [sink_loop]; [by eexists|].
      pose proof Htag as [[k Hk] Htag']%Forall_cons. rewrite Hk. cbn [mbind option_bind]. case_match; [|by apply IH].
      assert (tagged g [id]) as Hid by (by apply Forall_singleton; exists k).
      destruct (try_sink_total (k_log msg) id l g) as [g1 Hg1]; [intros st; by apply recorded_defined|done|].
      rewrite Hg1. apply IH. eapply adds_tagged; [by eapply try_log_adds|done]. }
    destruct (Hloop (sinks_ l) g Htag) as [g1 Hg1]. rewrite Hg1. cbn [mbind option_bind]. case_match; [|by eexists].
    assert (tagged g1 (sinks_ l)) as Htag1 by (eapply adds_tagged; [by eapply sink_loop_adds|done]).
    clear - Hs Htag1 SinkLaws0. unfold flush_. revert g1 Htag1. generalize (sinks_ l) at 1 2.
    intros ids. induction ids as [|id ids IH]; intros g Htag; cbn [flush_sinks]; [by eexists|].
    pose proof Htag as [Hid Htag']%Forall_cons. assert (tagged g [id]) as Hid' by (by apply Forall_singleton).
    destruct (try_sink_total k_flush id l g) as [g1 Hg1]; [intros st; by apply (recorded_defined (MkMsg [] info 0 0 no_loc []))|done|].
    rewrite Hg1. apply IH. eapply adds_tagged; [by eapply try_flush_adds|done].
  Qed.

Lemma log_total loc lvl text l g :
    sinks_defined -> tagged g (sinks_ l) -> exists l' g', log localtime this_thread loc lvl text l g = Some (l', g').
Proof.
    intros Hs Htag. unfold log. case_match; [by eexists _, _|].
    destruct (mk_log_msg _ _ _ _ _ _) as [m g1] eqn:Hm. destruct (mk_log_msg_adds l _ _ _ _ _ _ _ Hm) as [_ Ha].
    unfold log_it_. destruct (should_log lvl l); [|by eexists _, _].
    destruct (sink_it_total m l g1 Hs) as [g2 ->]; [by eapply adds_tagged|]. by eexists _, _.
  Qed.
End recorded.

(** The rotating file sink keeps its level. *)
Lemma rotate_loop_base {F} i (s : rotating_file_sink F) w :
  rot_base (rotate_loop i (s, w)).2.1 = rot_base s.
Proof.
  revert w. induction i as [|k IH]; intros w; cbn [rotate_loop]; [done|]. case_match; [apply IH|].
  destruct (rename_file_ _ _ w) as [[] w1]; [apply IH|]. destruct (rename_file_ _ _ w1) as [[] w2]; [apply IH|].
  unfold reopen_. destruct (reopen true (file_helper_ s, w2)) as [[] [h w3]]; done.
Qed.

Lemma rotate_base {F} (s : rotating_file_sink F) w : rot_base (rotate_ (s, w)).2.1 = rot_base s.
Proof.
  unfold rotate_. destruct (close _) as [h w1].
  pose proof (rotate_loop_base (max_files_ s) (with_helper h s) w1) as Hb.
  destruct (rotate_loop _ _) as [[] [s2 w2]]; [|done|done]. cbn [snd fst] in Hb.
  unfold reopen_. destruct (reopen true (file_helper_ s2, w2)) as [r [h3 w3]]. done.
Qed.

#[export] Instance rotating_SinkLaws {F} `{Formatter F} : SinkLaws F (rotating_file_sink F) world.
Proof.
  split.
  - intros msg s w. cbn [k_log k_level rotating_Sink]. unfold Sinks.sink_it_.
    destruct (f_format _ msg) as [[f line]|]; [|done]. unfold write_.
    case_match.
    + set (s1 := with_size _ _). pose proof (rotate_base s1 w) as Hb.
      destruct (rotate_ (s1, w)) as [[] [s2 w2]]; cbn [snd fst] in Hb |- *; [|by rewrite Hb|by rewrite Hb].
      cbn [with_size file_helper_]. destruct (write line _) as [r [h w3]]. cbn. by rewrite Hb.
    + destruct (write line _) as [r [h w3]]. done.
  - intros s w. cbn. by destruct (fd_ (file_helper_ s)).
Qed.

(** C28: [log] with sinks that may throw: it always returns; a message below the level
    of the logger goes nowhere; another goes, once and in order, to every sink whose own level
    lets it through, an exception of one not keeping it from the next, and then every sink is
    flushed exactly when the message reaches the flush level; each exception is
    handed to the error handler; the levels of the sinks stay. *)
Theorem logger_log_correct {F K W} `{Sink F K W} `{!SinkLaws F K W} localtime this_thread loc lvl text l
    (g : shared (nat * K) (list event * W)) :
  tagged g (sinks_ l) -> sinks_defined (F := F) (K := K) (W := W) ->
  exists l' g', log localtime this_thread loc lvl text l g = Some (l', g') /\
    name_ l' = name_ l /\ sinks_ l' = sinks_ l /\
    (should_log lvl l = false -> events g' = events g /\ handled g' = handled g) /\
    (should_log lvl l = true -> exists m (evs : list event), message_of this_thread loc (name_ l) lvl text m /\
       events g' = events g ++ evs /\
       ev_call <$> evs =
         ((fun id => CLog id m) <$> filter (fun id => level_geb lvl (sink_level g id)) (sinks_ l)) ++
         (if level_geb lvl (flush_level_ l) && negb (bool_decide (lvl = off)) then CFlush <$> sinks_ l else []) /\
       (forall h, custom_err_handler_ l = Some h -> handled g' = handled g ++ (pair h <$> omap ev_error evs))).
Proof.
  intros Htag Hs. destruct (log_total localtime this_thread loc lvl text l g Hs Htag) as (l' & g' & Hr).
  exists l', g'. split; [done|].
  destruct (log_adds localtime this_thread _ _ _ _ _ _ _ Htag Hr) as [(-> & -> & Hoff & _)|(m & Hm & Ha & ->)].
  { split_and!; [done|done|done|congruence]. }
  split_and!; [by destruct (enabled_ (tracer_ l))|by destruct (enabled_ (tracer_ l))| |].
  - intros Hoff. rewrite Hoff in Ha. destruct Ha as (evs & He & Hc & Hh & _). apply fmap_nil_inv in Hc as ->.
    rewrite app_nil_r in He. split; [done|].
    destruct (custom_err_handler_ l) as [h|] eqn:Hcu; [by rewrite (Hh h eq_refl), app_nil_r|].
    unfold log in Hr. rewrite Hoff in Hr. cbn [negb andb] in Hr. destruct (negb _); [by injection Hr as _ <-|].
    unfold mk_log_msg, now, log_it_ in Hr. destruct (clock g); cbn in Hr; by injection Hr as _ <-.
  - intros Hon. rewrite Hon in Ha. destruct Ha as (evs & He & Hc & Hh & _). exists m, evs.
    split_and!; [done|done| |done]. rewrite Hc. unfold sink_calls, log_calls, should_flush_.
    by destruct Hm as (_ & -> & _).
Qed.

(** The backtrace: after [enable_backtrace n], a sequence of [log] calls and a dump, the
    sinks get the messages the level lets through, then the start line, the newest [n] of all
    the messages, oldest first and whatever their level, and the end line; the backtrace is
    empty afterwards and still on. *)
Theorem backtrace_correct {F K W} `{Sink F K W} `{!SinkLaws F K W} localtime this_thread n reqs l
    (g : shared (nat * K) (list event * W)) l1 g1 l2 g2 :
  tagged g (sinks_ l) ->
  log_seq localtime this_thread reqs (enable_backtrace n l) g = Some (l1, g1) ->
  dump_backtrace_ localtime this_thread l1 g1 = Some (l2, g2) ->
  exists ms m1 m2 (evs : list event), Forall2 (requested this_thread l) reqs ms /\
    message_of this_thread no_loc (name_ l) info start_text m1 /\ message_of this_thread no_loc (name_ l) info end_text m2 /\
    events g2 = events g ++ evs /\
    ev_call <$> evs =
      calls_of (sink_level g) l (filter (fun m => should_log (msg_level m) l) ms ++ m1 :: newest n ms ++ [m2]) /\
    items (messages_ (tracer_ l2)) = [] /\ enabled_ (tracer_ l2) = true.
Proof.
  intros Htag Hlog Hdump.
  destruct (log_seq_from localtime this_thread reqs (enable_backtrace n l) [] g g l1 g1)
    as (ms & q & Hreq & -> & Hq & Hmax & Hitems & Ha); [done|apply adds_nil|done|apply wf_new|cbn; lia|done|].
  change (messages_ (tracer_ (enable_backtrace n l))) with (mk_circular_q default_buffer n) in Hmax, Hitems.
  assert (capacity q = n) as Hcap by (unfold capacity; rewrite Hmax; cbn; lia).
  assert (items (mk_circular_q default_buffer n) = []) as Hnil.
  { apply nil_length_inv. rewrite items_length by apply wf_new. unfold size. cbn. lia. }
  rewrite Hnil, Hcap in Hitems. cbn [fmap list_fmap app] in Hitems.
  destruct (dump_backtrace_from localtime this_thread (with_tracer (MkTracer true q) (enable_backtrace n l)) _ g g1 l2 g2 eq_refl Hq Htag Ha Hdump)
    as (m1 & m2 & H1 & H2 & (evs & He & Hc & _) & Hempty & Hen).
  exists ms, m1, m2, evs. split_and!; try done.
  rewrite Hc. cbn [app with_tracer tracer_ messages_]. rewrite Hitems. unfold calls_of.
  rewrite fmap_app, concat_app. done.
Qed.

(** Two sinks that keep the texts they get; the first throws at every message. *)
Record keeper := MkKeeper { keeper_level : level_enum; keeper_throws : bool }.

#[local] Instance keeper_Sink : Sink unit keeper (list bytes) := {
  k_level := keeper_level;
  k_log m st := if keeper_throws (fst st) then (Throw (B "full"), st) else (Ok tt, (fst st, snd st ++ [payload m]));
  k_flush st := (Ok tt, st);
  k_set_formatter _ k := k }.

#[local] Instance keeper_SinkLaws : SinkLaws unit keeper (list bytes).
Proof. split; [intros m k w|done]. cbn. by destruct (keeper_throws k). Qed.

Definition demo_shared : shared (nat * keeper) (list event * list bytes) :=
  MkShared {[ 0 := (0, MkKeeper trace true); 1 := (1, MkKeeper warn false) ]} ([], []) [] 0 0 [] [].

Definition demo_logger : logger := set_error_handler 7 (new_logger (B "fc") [0; 1]).

Lemma demo_tagged : tagged demo_shared [0; 1].
Proof. repeat constructor; eexists; reflexivity. Qed.

Lemma logger_log_correct_witness :
  exists l' g', log (fun _ => demo_tm) 1 no_loc err (B "oops") demo_logger demo_shared = Some (l', g') /\
    handled g' = [(7, B "full")].
Proof.
  destruct (logger_log_correct (F := unit) (fun _ => demo_tm) 1 no_loc err (B "oops") demo_logger demo_shared)
    as (l' & g' & Hr & _ & _ & _ & _).
  - apply demo_tagged.
  - split; [|done]. intros m k w. cbn. by destruct (keeper_throws k).
  - exists l', g'. split; [exact Hr|]. injection Hr as _ <-. reflexivity.
Defined.

Lemma backtrace_correct_witness :
  exists l1 g1 l2 g2 (evs : list event),
    log_seq (fun _ => demo_tm) 1 [(no_loc, debug, B "a"); (no_loc, trace, B "b"); (no_loc, debug, B "c")]
      (enable_backtrace 2 demo_logger) demo_shared = Some (l1, g1) /\
    dump_backtrace_ (fun _ => demo_tm) 1 l1 g1 = Some (l2, g2) /\
    events g2 = evs /\ length evs = 4 /\ items (messages_ (tracer_ l2)) = [].
Proof.
  destruct (log_seq (fun _ => demo_tm) 1 [(no_loc, debug, B "a"); (no_loc, trace, B "b"); (no_loc, debug, B "c")]
      (enable_backtrace 2 demo_logger) demo_shared) as [[l1 g1]|] eqn:Hlog; [|vm_compute in Hlog; done].
  destruct (dump_backtrace_ (fun _ => demo_tm) 1 l1 g1) as [[l2 g2]|] eqn:Hdump;
    [|vm_compute in Hlog; injection Hlog as <- <-; vm_compute in Hdump; done].
  destruct (backtrace_correct (fun _ => demo_tm) 1 2 [(no_loc, debug, B "a"); (no_loc, trace, B "b"); (no_loc, debug, B "c")]
      demo_logger demo_shared l1 g1 l2 g2 demo_tagged Hlog Hdump)
    as (ms & m1 & m2 & evs & _ & _ & _ & He & _ & Hi & _).
  exists l1, g1, l2, g2, evs. split_and!; [done|done|exact He| |exact Hi].
  vm_compute in Hlog. injection Hlog as <- <-. vm_compute in Hdump. injection Hdump as <- <-.
  change evs with ([] ++ evs). change ([] : list event) with (events demo_shared) at 1. rewrite <- He. reflexivity.
Defined.
