(* ===== verification/MemorySinks.v ===== *)
(** * Sinks on other sinks and in memory: [ringbuffer_sink.h], [dist_sink.h], [dup_filter_sink.h], [ostream_sink.h], [null_sink.h]

    The ring keeps the newest messages, the distribution sink hands each message on, the filter of
    duplicates counts those it leaves out, the stream sink writes texts to a stream; the ring, the
    stream sink and the null sink are sinks of loggers by instances of [Sink].  Sinks of a
    distribution sink are references into the store that loggers share. *)
From S2P Require Import Prelude CLib Fmt PatternFormatter Files Sinks RotatingTheory CircularQueue Logger.

(** ** [ringbuffer_sink] *)

Section ring.
  Context {F : Type} `{Formatter F}.

Record ringbuffer_sink := MkRing { ring_base : base_sink F; q_ : circular_q log_msg_buffer }.

Definition mk_ringbuffer_sink (formatter : F) (n_items : nat) : ringbuffer_sink :=
    MkRing (new_base formatter) (mk_circular_q default_buffer n_items).

Definition ring_sink_it_ (msg : log_msg) (s : ringbuffer_sink) : ringbuffer_sink :=
    MkRing (ring_base s) (push_back (mk_log_msg_buffer msg) (q_ s)).

  (** The number of items asked for, and the loops over the newest of them. *)
Definition ring_n_items (lim items_available : nat) : nat := if (0 <? lim)%nat then Nat.min lim items_available else items_available.

Fixpoint last_raw_loop (i n : nat) (q : circular_q log_msg_buffer) : option (list log_msg_buffer) :=
    match n with
    | 0 => Some []
    | S n => m ← at_ i q; ret ← last_raw_loop (S i) n q; Some (copy_log_msg_buffer m :: ret)
    end.
Definition last_raw (lim : nat) (s : ringbuffer_sink) : option (list log_msg_buffer) :=
    let items_available := size (q_ s) in
    let n_items := ring_n_items lim items_available in
    last_raw_loop (items_available - n_items) n_items (q_ s).

Fixpoint last_formatted_loop (i n : nat) (q : circular_q log_msg_buffer) (f : F) : option (F * list bytes) :=
    match n with
    | 0 => Some (f, [])
    | S n =>
        m ← at_ i q;
        '(f, formatted) ← f_format f (b_msg m);
        '(f, ret) ← last_formatted_loop (S i) n q f;
        Some (f, formatted :: ret)
    end.
Definition last_formatted (lim : nat) (s : ringbuffer_sink) : option (ringbuffer_sink * list bytes) :=
    let items_available := size (q_ s) in
    let n_items := ring_n_items lim items_available in
    '(f, ret) ← last_formatted_loop (items_available - n_items) n_items (q_ s) (formatter_ (ring_base s));
    Some (MkRing (set_formatter_ f (ring_base s)) (q_ s), ret).

  (** Flushing does nothing. *)
#[export] Instance ring_Sink {W} : Sink F ringbuffer_sink W := {
    k_level s := Sinks.level_ (ring_base s);
    k_log msg st := (Ok tt, (ring_sink_it_ msg st.1, st.2));
    k_flush st := (Ok tt, st);
    k_set_formatter f s := MkRing (set_formatter_ f (ring_base s)) (q_ s) }.
End ring.

Arguments ringbuffer_sink : clear implicits.

(** ** [ostream_sink]: a stream is the text written to it and how much of it was flushed *)

Record ostream := MkStream { written : bytes; flushed : nat }.
Definition ostream_write (s : bytes) (o : ostream) : ostream := MkStream (written o ++ s) (flushed o).
Definition ostream_flush (o : ostream) : ostream := MkStream (written o) (length (written o)).

Section stream.
  Context {F : Type} `{Formatter F}.

Record ostream_sink := MkOstream { os_base : base_sink F; force_flush_ : bool }.
Definition mk_ostream_sink (formatter : F) (force_flush : bool) : ostream_sink := MkOstream (new_base formatter) force_flush.

Definition ostream_sink_it_ (msg : log_msg) (st : ostream_sink * ostream) : outcome unit * (ostream_sink * ostream) :=
    let '(s, o) := st in
    match f_format (formatter_ (os_base s)) msg with
    | None => (Undef, (s, o))
    | Some (f, formatted) =>
        let s := MkOstream (set_formatter_ f (os_base s)) (force_flush_ s) in
        let o := ostream_write formatted o in
        (Ok tt, (s, if force_flush_ s then ostream_flush o else o))
    end.

#[export] Instance ostream_Sink : Sink F ostream_sink ostream := {
    k_level s := Sinks.level_ (os_base s);
    k_log := ostream_sink_it_;
    k_flush st := (Ok tt, (st.1, ostream_flush st.2));
    k_set_formatter f s := MkOstream (set_formatter_ f (os_base s)) (force_flush_ s) }.

  (** ** [null_sink] *)

Record null_sink := MkNull { null_base : base_sink F }.
#[export] Instance null_sink_Sink {W} : Sink F null_sink W := {
    k_level s := Sinks.level_ (null_base s);
    k_log msg st := (Ok tt, st);
    k_flush st := (Ok tt, st);
    k_set_formatter f s := MkNull (set_formatter_ f (null_base s)) }.
End stream.

Arguments ostream_sink : clear implicits.

(** ** [dist_sink] and [dup_filter_sink] *)

Section dist.
  Context {F K W : Type} `{Formatter F} `{Sink F K W} (this_thread : Z).
  Abbreviation G := (shared K W).

Record dist_sink := MkDist { dist_base : base_sink F; dist_sinks_ : list nat }.

Definition mk_dist_sink (formatter : F) (sinks : list nat) : dist_sink := MkDist (new_base formatter) sinks.
Definition add_sink (sink : nat) (d : dist_sink) : dist_sink := MkDist (dist_base d) (dist_sinks_ d ++ [sink]).
Definition remove_sink (sink : nat) (d : dist_sink) : dist_sink := MkDist (dist_base d) (filter (fun s => s <> sink) (dist_sinks_ d)).
Definition set_sinks (sinks : list nat) (d : dist_sink) : dist_sink := MkDist (dist_base d) sinks.

  (** A call of a sink, whose exception is passed on; a null reference is undefined. *)
Definition call_sink (call : K * W -> outcome unit * (K * W)) (id : nat) (g : G) : outcome unit * G :=
    match store g !! id with
    | None => (Undef, g)
    | Some k =>
        let '(r, (k, w)) := call (k, disk g) in
        (r, MkShared (<[id := k]> (store g)) w (clock g) (err_counter g) (last_report_time g) (stderr g) (handled g))
    end.

Fixpoint dist_log_loop (msg : log_msg) (ids : list nat) (g : G) : outcome unit * G :=
    match ids with
    | [] => (Ok tt, g)
    | id :: ids =>
        match store g !! id with
        | None => (Undef, g)
        | Some k =>
            let '(r, g) := if level_geb (msg_level msg) (k_level k) then call_sink (k_log msg) id g else (Ok tt, g) in
            match r with Ok _ => dist_log_loop msg ids g | _ => (r, g) end
        end
    end.
Definition dist_sink_it_ (msg : log_msg) (d : dist_sink) (g : G) : outcome unit * G := dist_log_loop msg (dist_sinks_ d) g.

Fixpoint dist_flush_loop (ids : list nat) (g : G) : outcome unit * G :=
    match ids with
    | [] => (Ok tt, g)
    | id :: ids => match call_sink k_flush id g with (Ok _, g) => dist_flush_loop ids g | r => r end
    end.
Definition dist_flush_ (d : dist_sink) (g : G) : outcome unit * G := dist_flush_loop (dist_sinks_ d) g.

Definition dist_set_formatter_ (f : F) (d : dist_sink) (g : G) : dist_sink * G :=
    (MkDist (set_formatter_ f (dist_base d)) (dist_sinks_ d),
     MkShared (foldl (fun m id => alter (k_set_formatter (f_clone f)) id m) (store g) (dist_sinks_ d)) (disk g) (clock g) (err_counter g)
       (last_report_time g) (stderr g) (handled g)).
Definition dist_set_pattern_ (pattern : bytes) (d : dist_sink) (g : G) : dist_sink * G := dist_set_formatter_ (f_pattern pattern) d g.

  (** The durations are nanoseconds; [max_skip_duration_] is a number of microseconds. *)
Record dup_filter_sink := MkDup {
    dup_dist : dist_sink; max_skip_duration_ : Z; last_msg_time_ : Z; last_msg_payload_ : bytes; skip_counter_ : Z }.

Definition mk_dup_filter_sink (formatter : F) (max_skip_duration : Z) : dup_filter_sink :=
    MkDup (mk_dist_sink formatter []) max_skip_duration 0 [] 0.

Definition filter_ (msg : log_msg) (s : dup_filter_sink) : bool :=
    let filter_duration := (time msg - last_msg_time_ s)%Z in
    (max_skip_duration_ s * 1000 <? filter_duration)%Z || negb (payload msg =s last_msg_payload_ s).

Definition skipped_text (n : Z) : bytes := B "Skipped " ++ dec_nat n ++ B " duplicate messages..".

  (** The report of what was skipped, with the time of the clock. *)
Definition report_skipped (name : bytes) (n : Z) (d : dist_sink) (g : G) : outcome unit * G :=
    let '(skipped_msg, g) := mk_log_msg this_thread no_loc name info (skipped_text n) g in
    dist_sink_it_ skipped_msg d g.

Definition dup_sink_it_ (msg : log_msg) (s : dup_filter_sink) (g : G) : outcome unit * (dup_filter_sink * G) :=
    if negb (filter_ msg s) then
      (Ok tt, (MkDup (dup_dist s) (max_skip_duration_ s) (last_msg_time_ s) (last_msg_payload_ s) (u64 (skip_counter_ s + 1)), g))
    else
      let '(r, g) := if (0 <? skip_counter_ s)%Z then report_skipped (logger_name msg) (skip_counter_ s) (dup_dist s) g else (Ok tt, g) in
      match r with
      | Ok _ =>
          let '(r, g) := dist_sink_it_ msg (dup_dist s) g in
          match r with
          | Ok _ => (r, (MkDup (dup_dist s) (max_skip_duration_ s) (time msg) (payload msg) 0, g))
          | _ => (r, (s, g))
          end
      | _ => (r, (s, g))
      end.
End dist.

Arguments dist_sink : clear implicits.
Arguments dup_filter_sink : clear implicits.

(** ** The ring holds the newest messages *)

Section ring_theory.
  Context {F : Type} `{Formatter F}.

Lemma ring_log_all (ms : list log_msg) (s : ringbuffer_sink F) :
    wf (q_ s) -> 0 < max_items_ (q_ s) -> length (items (q_ s)) <= capacity (q_ s) ->
    let s' := foldl (fun s m => ring_sink_it_ m s) s ms in
    wf (q_ s') /\ b_msg <$> items (q_ s') = newest (capacity (q_ s)) ((b_msg <$> items (q_ s)) ++ ms) /\ ring_base s' = ring_base s.
Proof.
    revert s. induction ms as [|m ms IH]; intros s Hw Hm Hc; cbn [foldl].
    - split_and!; [done| |done]. unfold newest. rewrite app_nil_r, length_fmap. replace (_ - _) with 0 by lia. by rewrite drop_0.
    - destruct (push_back_items (mk_log_msg_buffer m) (q_ s) Hw Hm) as (Hi & _ & Hmax). set (s1 := ring_sink_it_ m s).
      assert (capacity (q_ s1) = capacity (q_ s)) as Hcap by (unfold capacity; cbn [s1 ring_sink_it_ q_]; by rewrite Hmax).
      destruct (IH s1) as (H1 & H2 & H3).
      + by apply push_back_wf.
      + cbn [s1 ring_sink_it_ q_]. lia.
      + rewrite Hcap. cbn [s1 ring_sink_it_ q_]. rewrite Hi. unfold newest. rewrite length_drop. lia.
      + split_and!; [done| |done]. rewrite H2, Hcap. cbn [s1 ring_sink_it_ q_]. rewrite Hi. unfold newest at 2.
        rewrite fmap_drop, fmap_app, !length_app, <- (length_fmap b_msg (items (q_ s))). cbn [fmap list_fmap length]. rewrite mk_log_msg_buffer_msg.
        set (l := b_msg <$> items (q_ s)). assert (l ++ m :: ms = (l ++ [m]) ++ ms) as -> by (by rewrite <- app_assoc).
        rewrite (proj1 (newest_split (capacity (q_ s)) (l ++ [m]) ms)). unfold newest at 3. by rewrite length_app.
Qed.

Lemma last_raw_loop_items q i n : wf q -> i + n <= length (items q) ->
    last_raw_loop i n q = Some (map copy_log_msg_buffer (take n (drop i (items q)))).
Proof.
    intros Hw. revert i. induction n as [|n IH]; intros i Hl; [done|]. cbn [last_raw_loop]. rewrite (at_items q i Hw).
    destruct (items q !! i) as [m|] eqn:Hi; [|apply lookup_ge_None in Hi; lia]. cbn [mbind option_bind].
    rewrite IH by lia. cbn [mbind option_bind]. by rewrite (drop_S _ m i Hi).
Qed.

Lemma last_formatted_loop_items q i n (f : F) : wf q -> i + n <= length (items q) ->
    snd <$> last_formatted_loop i n q f = format_lines f (map b_msg (take n (drop i (items q)))).
Proof.
    intros Hw. revert i f. induction n as [|n IH]; intros i f Hl; [done|]. cbn [last_formatted_loop]. rewrite (at_items q i Hw).
    destruct (items q !! i) as [m|] eqn:Hi; [|apply lookup_ge_None in Hi; lia]. cbn [mbind option_bind].
    rewrite (drop_S _ m i Hi). cbn [take map format_lines]. destruct (f_format f (b_msg m)) as [[f1 line]|]; [|done]. cbn [mbind option_bind].
    rewrite <- IH by lia. by destruct (last_formatted_loop (S i) n q f1) as [[f2 ls]|].
Qed.

Lemma ring_window (l : list log_msg_buffer) lim :
    let n := ring_n_items lim (length l) in
    length l - n + n = length l /\ take n (drop (length l - n) l) = newest n l /\ newest n l = newest (if (0 <? lim)%nat then lim else length l) l.
Proof.
    intros n. assert (n <= length l) as Hn by (unfold n, ring_n_items; case_match; lia). split_and!; [lia| |].
    - unfold newest. rewrite take_ge; [done|]. rewrite length_drop. lia.
    - unfold newest, n, ring_n_items. case_match; [|done]. f_equal. lia.
Qed.
End ring_theory.

(** The ring of [n] items holds the newest [n] messages it was given: [last_raw] returns the
    newest of them, all or as many as asked for, oldest first, and [last_formatted] what the
    formatter makes of them, one after the other. *)
Theorem ringbuffer_sink_correct {F} `{Formatter F} (f : F) n lim (ms : list log_msg) :
  let s := foldl (fun s m => ring_sink_it_ m s) (mk_ringbuffer_sink f n) ms in
  let wanted := newest (if (0 <? lim)%nat then Nat.min lim n else n) ms in
  (fmap (map b_msg) (last_raw lim s) = Some wanted) /\ (snd <$> last_formatted lim s = format_lines f wanted).
Proof.
  intros s wanted. destruct (ring_log_all ms (mk_ringbuffer_sink f n)) as (Hw & Hi & Hb);
    [apply wf_new|change (0 < n + 1); lia|apply Nat.le_0_l|].
  fold s in Hw, Hi, Hb. assert (capacity (q_ (mk_ringbuffer_sink f n)) = n) as Hc by (unfold capacity; change (n + 1 - 1 = n); lia).
  change (items (q_ (mk_ringbuffer_sink f n))) with (take 0 (replicate (n + 1) default_buffer ++ replicate (n + 1) default_buffer)) in Hi.
  rewrite Hc in Hi. cbn [take fmap list_fmap app] in Hi. destruct (ring_window (items (q_ s)) lim) as (H1 & H2 & H3).
  assert (map b_msg (newest (if (0 <? lim)%nat then lim else length (items (q_ s))) (items (q_ s))) = wanted) as Hwin.
  { unfold newest at 1. change (map b_msg) with (fmap (M := list) b_msg). rewrite fmap_drop, Hi, <- (length_fmap b_msg), Hi.
    unfold wanted. destruct (0 <? lim)%nat; [by rewrite <- newest_newest|]. by rewrite Nat.sub_diag. }
  unfold last_raw, last_formatted. rewrite <- (items_length _ Hw). split.
  - rewrite last_raw_loop_items by (done || lia). rewrite H2, H3. cbn [fmap option_fmap option_map]. f_equal. rewrite map_map, <- Hwin. apply map_ext.
    intros b. apply mk_log_msg_buffer_msg.
  - rewrite Hb. cbn [mk_ringbuffer_sink ring_base new_base formatter_]. rewrite <- Hwin, <- H3, <- H2.
    rewrite <- (last_formatted_loop_items (q_ s) _ _ f Hw) by lia. by destruct (last_formatted_loop _ _ _ _) as [[f' ret]|].
Qed.

(** ** The distribution sink is the loop of a logger that stops at an exception *)

Section dist_theory.
  Context {F K W : Type} `{Formatter F} `{Sink F K W} (localtime : Z -> tm) (this_thread : Z).
  Implicit Types (g : shared K W) (ids : list nat).

Lemma call_sink_ok (call : K * W -> outcome unit * (K * W)) id g g' (l : logger) : call_sink call id g = (Ok tt, g') -> try_sink localtime call id l g = Some g'.
Proof.
    unfold call_sink, try_sink. destruct (store g !! id) as [k|]; [|done]. cbn [mbind option_bind]. destruct (call (k, disk g)) as [r [k' w]].
    by intros [= -> <-].
Qed.

Lemma dist_log_ok msg ids g g' (l : logger) : dist_log_loop msg ids g = (Ok tt, g') -> sink_loop localtime msg ids l g = Some g'.
Proof.
    revert g. induction ids as [|id ids IH]; intros g; cbn [dist_log_loop sink_loop]; [by intros [= <-]|].
    destruct (store g !! id) as [k|] eqn:Hk; [|done]. cbn [mbind option_bind]. destruct (level_geb (msg_level msg) (k_level k)); [|by apply IH].
    destruct (call_sink (k_log msg) id g) as [r g1] eqn:Hc. destruct r as [[]| |]; [|done|done]. intros Hl. rewrite (call_sink_ok _ _ _ _ l Hc). by apply IH.
Qed.

Lemma dist_flush_ok ids g g' (l : logger) : dist_flush_loop ids g = (Ok tt, g') -> flush_sinks localtime ids l g = Some g'.
Proof.
    revert g. induction ids as [|id ids IH]; intros g; cbn [dist_flush_loop flush_sinks]; [by intros [= <-]|].
    destruct (call_sink k_flush id g) as [r g1] eqn:Hc. destruct r as [[]| |]; [|done|done]. intros Hl. rewrite (call_sink_ok _ _ _ _ l Hc). by apply IH.
Qed.

Lemma dist_log_throw msg ids g (e : bytes) g' : dist_log_loop msg ids g = (Throw e, g') ->
    exists before id after g1, ids = before ++ id :: after /\ dist_log_loop msg before g = (Ok tt, g1) /\ call_sink (k_log msg) id g1 = (Throw e, g').
Proof.
    revert g. induction ids as [|id ids IH]; intros g; cbn [dist_log_loop]; [done|]. destruct (store g !! id) as [k|] eqn:Hk; [|done].
    destruct (if level_geb (msg_level msg) (k_level k) then call_sink (k_log msg) id g else (Ok tt, g)) as [r g1] eqn:Hst. destruct r as [[]|e'|]; [| |done].
    - intros Hl. destruct (IH g1 Hl) as (before & id' & after & g2 & -> & Hb & Hc). exists (id :: before), id', after, g2. split; [done|]. split; [|done].
      cbn [dist_log_loop]. by rewrite Hk, Hst.
    - intros [= -> ->]. exists [], id, ids, g. split; [done|]. split; [done|]. by destruct (level_geb _ _).
Qed.
End dist_theory.

(** A distribution sink that ends well did to its sinks what a logger with the same sinks does,
    logging and flushing; where a logger reports the exception of a sink and goes on, it stops:
    the sinks before have the message, the one that threw was called, those behind were not. *)
Theorem dist_sink_correct {F K W} `{Formatter F} `{Sink F K W} localtime msg (d : dist_sink F) (l : logger) (g g' : shared K W) :
  sinks_ l = dist_sinks_ d ->
  (dist_sink_it_ msg d g = (Ok tt, g') -> sink_loop localtime msg (sinks_ l) l g = Some g') /\
  (dist_flush_ d g = (Ok tt, g') -> flush_ localtime l g = Some g') /\
  (forall e, dist_sink_it_ msg d g = (Throw e, g') ->
     exists before id after g1, dist_sinks_ d = before ++ id :: after /\ sink_loop localtime msg before l g = Some g1 /\
       call_sink (k_log msg) id g1 = (Throw e, g')).
Proof.
  intros Hd. unfold dist_sink_it_, dist_flush_, flush_. rewrite Hd. split_and!; [apply dist_log_ok|apply dist_flush_ok|].
  intros e He. destruct (dist_log_throw _ _ _ _ _ He) as (before & id & after & g1 & Heq & Hb & Hc). exists before, id, after, g1.
  split_and!; [done|by apply dist_log_ok|done].
Qed.

Section dup_theory.
  Context {F K W : Type} `{Formatter F} `{Sink F K W} (this_thread : Z).
  Implicit Types (s : dup_filter_sink F) (g : shared K W).

  (** What the filter hands on: messages, and before one the report of what was left out. *)
Inductive emission := Skipped (name : bytes) (n : Z) | Pass (m : log_msg).

Definition emit_one (d : dist_sink F) (e : emission) g : outcome unit * shared K W :=
    match e with Skipped name n => report_skipped this_thread name n d g | Pass m => dist_sink_it_ m d g end.
Fixpoint emit_all (d : dist_sink F) (es : list emission) g : outcome unit * shared K W :=
    match es with
    | [] => (Ok tt, g)
    | e :: es => match emit_one d e g with (Ok _, g) => emit_all d es g | r => r end
    end.

Fixpoint dup_log_all (ms : list log_msg) s g : outcome unit * (dup_filter_sink F * shared K W) :=
    match ms with
    | [] => (Ok tt, (s, g))
    | m :: ms => match dup_sink_it_ this_thread m s g with (Ok _, (s, g)) => dup_log_all ms s g | r => r end
    end.

  (** A message is a duplicate of another: the same text, at most so much later. *)
Definition duplicates (max : Z) (m p : log_msg) : Prop := payload m = payload p /\ (time m - time p <= max * 1000)%Z.

Fixpoint dedup (max : Z) (last : Z * bytes) (skipped : Z) (ms : list log_msg) : list emission * Z :=
    match ms with
    | [] => ([], skipped)
    | m :: ms =>
        if decide (payload m = last.2 /\ (time m - last.1 <= max * 1000)%Z) then dedup max last (skipped + 1) ms
        else
          let '(es, n) := dedup max (time m, payload m) 0 ms in
          ((if (0 <? skipped)%Z then [Skipped (logger_name m) skipped] else []) ++ Pass m :: es, n)
    end.

Lemma filter_spec m s : filter_ m s = negb (bool_decide (payload m = last_msg_payload_ s /\ (time m - last_msg_time_ s <= max_skip_duration_ s * 1000)%Z)).
Proof.
    unfold filter_. destruct (bool_decide (payload m = last_msg_payload_ s)) eqn:Hp; to_prop.
    - cbn [negb]. rewrite orb_false_r. destruct (_ <? _)%Z eqn:Ht; to_prop; [rewrite bool_decide_eq_false_2 by (intros [_ ?]; lia)|rewrite bool_decide_eq_true_2 by (split; [done|lia])]; done.
    - rewrite bool_decide_eq_false_2 by (by intros [? _]). cbn [negb]. apply orb_true_r.
Qed.

Lemma dup_log_ok ms s g :
    (0 <= skip_counter_ s)%Z -> (skip_counter_ s + Z.of_nat (length ms) < 2 ^ 64)%Z ->
    let '(es, n) := dedup (max_skip_duration_ s) (last_msg_time_ s, last_msg_payload_ s) (skip_counter_ s) ms in
    let '(r, (s', g')) := dup_log_all ms s g in
    (r, g') = emit_all (dup_dist s) es g /\ (r = Ok tt -> skip_counter_ s' = n).
Proof.
    revert s g. induction ms as [|m ms IH]; intros s g Hc0 Hn; cbn [dedup dup_log_all length] in *; [done|].
    unfold dup_sink_it_. rewrite filter_spec, negb_involutive. cbn [fst snd]. destruct (decide _) as [Hd|Hd].
    - rewrite bool_decide_eq_true_2 by done. rewrite u64_small by lia. set (s1 := MkDup _ _ _ _ _).
      specialize (IH s1 g). cbn [s1 skip_counter_ max_skip_duration_ last_msg_time_ last_msg_payload_ dup_dist] in IH. apply IH; lia.
    - rewrite bool_decide_eq_false_2 by done. destruct (dedup _ (time m, payload m) 0 ms) as [es n] eqn:Hes.
      assert (forall g1, let '(r, (s', g')) := (let '(r, g2) := dist_sink_it_ m (dup_dist s) g1 in
                 match r with Ok _ => (r, (MkDup (dup_dist s) (max_skip_duration_ s) (time m) (payload m) 0, g2)) | _ => (r, (s, g2)) end) in
               let '(r, (s', g')) := match r with Ok _ => dup_log_all ms s' g' | _ => (r, (s', g')) end in
               (r, g') = emit_all (dup_dist s) (Pass m :: es) g1 /\ (r = Ok tt -> skip_counter_ s' = n)) as Hpass.
      { intros g1. cbn [emit_all emit_one]. destruct (dist_sink_it_ m (dup_dist s) g1) as [[[]|e|] g2]; [|done|done].
        specialize (IH (MkDup (dup_dist s) (max_skip_duration_ s) (time m) (payload m) 0) g2).
        cbn [skip_counter_ max_skip_duration_ last_msg_time_ last_msg_payload_ dup_dist] in IH. rewrite Hes in IH. apply IH; lia. }
      destruct (0 <? skip_counter_ s)%Z; cbn [app].
      + cbn [emit_all]. change (emit_one (dup_dist s) (Skipped _ _) g) with (report_skipped this_thread (logger_name m) (skip_counter_ s) (dup_dist s) g).
        destruct (report_skipped _ _ _ _ g) as [[[]|e|] g1]; [|done|done]. specialize (Hpass g1).
        by destruct (dist_sink_it_ m (dup_dist s) g1) as [[[]|e|] g2].
      + specialize (Hpass g). by destruct (dist_sink_it_ m (dup_dist s) g) as [[[]|e|] g2].
Qed.

Definition reported (es : list emission) : Z := foldr (fun e n => match e with Skipped _ k => k + n | Pass _ => n end)%Z 0%Z es.
Definition passed (es : list emission) : list log_msg := omap (fun e => match e with Pass m => Some m | _ => None end) es.

Lemma passed_app es es' : passed (es ++ es') = passed es ++ passed es'.
Proof. unfold passed. induction es as [|[|m] es IH]; cbn; [done|done|]. by rewrite <- IH. Qed.

Lemma dedup_accounts max last k ms :
    (0 <= max)%Z -> (0 <= k)%Z ->
    let '(es, n) := dedup max last k ms in
    (reported es + n + Z.of_nat (length (passed es)) = k + Z.of_nat (length ms))%Z /\
    Forall (fun m => (payload m = last.2 /\ (time m - last.1 <= max * 1000)%Z) \/ exists p, p ∈ passed es /\ duplicates max m p) ms /\
    passed es `sublist_of` ms.
Proof.
    intros Hmax. revert last k. induction ms as [|m ms IH]; intros last k Hk; cbn [dedup]; [by split_and!|]. destruct (decide _) as [Hd|Hd].
    - specialize (IH last (k + 1)%Z ltac:(lia)). destruct (dedup max last (k + 1) ms) as [es n]. destruct IH as (H1 & H2 & H3). cbn [length].
      split_and!; [lia| |by apply sublist_cons]. constructor; [by left|done].
    - specialize (IH (time m, payload m) 0%Z ltac:(lia)). destruct (dedup max (time m, payload m) 0 ms) as [es n]. destruct IH as (H1 & H2 & H3).
      set (pre := if (0 <? k)%Z then [Skipped (logger_name m) k] else []). assert (passed (pre ++ Pass m :: es) = m :: passed es) as Hp by (rewrite passed_app; unfold pre; by destruct (0 <? k)%Z).
      rewrite Hp. assert (reported (pre ++ Pass m :: es) = k + reported es)%Z as Hr.
      { unfold pre. destruct (0 <? k)%Z eqn:Hk0; to_prop; cbn [app reported foldr]; [done|]. fold (reported es). lia. }
      rewrite Hr. cbn [length]. split_and!; [lia| |by apply sublist_skip]. constructor.
      + right. exists m. split; [by apply list_elem_of_here|]. split; [done|lia].
      + eapply Forall_impl; [exact H2|]. intros x [[Hx1 Hx2]|(p & Hp1 & Hp2)]; right; [exists m|exists p]; (split; [|done]); [by apply list_elem_of_here|by apply list_elem_of_further].
Qed.
End dup_theory.

(** The filter of duplicates does to its sinks what handing on the emissions of [dedup] does,
    exceptions included; its counter and the numbers it reported account for every message left
    out; each message has a twin among those it handed on, or in the last one before: the same
    text, at most the given duration earlier; and those keep their order. *)
Theorem dup_filter_correct {F K W} `{Formatter F} `{Sink F K W} this_thread ms (s : dup_filter_sink F) (g : shared K W) :
  (0 <= max_skip_duration_ s)%Z -> (0 <= skip_counter_ s)%Z -> (skip_counter_ s + Z.of_nat (length ms) < 2 ^ 64)%Z ->
  let '(es, n) := dedup (max_skip_duration_ s) (last_msg_time_ s, last_msg_payload_ s) (skip_counter_ s) ms in
  let '(r, (s', g')) := dup_log_all this_thread ms s g in
  (r, g') = emit_all this_thread (dup_dist s) es g /\
  (r = Ok tt -> (reported es + skip_counter_ s' + Z.of_nat (length (passed es)) = skip_counter_ s + Z.of_nat (length ms))%Z) /\
  Forall (fun m => (payload m = last_msg_payload_ s /\ (time m - last_msg_time_ s <= max_skip_duration_ s * 1000)%Z) \/
                   exists p, p ∈ passed es /\ duplicates (max_skip_duration_ s) m p) ms /\
  passed es `sublist_of` ms.
Proof.
  intros Hmax Hc0 Hn. pose proof (dup_log_ok this_thread ms s g Hc0 Hn) as Hl.
  pose proof (dedup_accounts (max_skip_duration_ s) (last_msg_time_ s, last_msg_payload_ s) (skip_counter_ s) ms Hmax Hc0) as Ha.
  destruct (dedup _ _ _ ms) as [es n]. destruct (dup_log_all this_thread ms s g) as [r [s' g']]. destruct Hl as [He Hc]. destruct Ha as (H1 & H2 & H3).
  split_and!; [done| |done|done]. intros Hr. by rewrite (Hc Hr).
Qed.

(** ** The stream sink writes the lines, one after the other *)

Fixpoint ostream_log_all {F} `{Formatter F} (ms : list log_msg) (st : ostream_sink F * ostream) : outcome unit * (ostream_sink F * ostream) :=
  match ms with
  | [] => (Ok tt, st)
  | m :: ms => match ostream_sink_it_ m st with (Ok _, st) => ostream_log_all ms st | r => r end
  end.

Lemma ostream_sink_correct {F} `{Formatter F} ms lines (s : ostream_sink F) o :
  format_lines (formatter_ (os_base s)) ms = Some lines ->
  exists s' o', ostream_log_all ms (s, o) = (Ok tt, (s', o')) /\ written o' = written o ++ concat lines /\
    (force_flush_ s = true -> flushed o = length (written o) -> flushed o' = length (written o')) /\
    (force_flush_ s = false -> flushed o' = flushed o).
Proof.
  revert s o lines. induction ms as [|m ms IH]; intros s o lines; cbn [format_lines ostream_log_all].
  - intros [= <-]. exists s, o. by rewrite app_nil_r.
  - unfold ostream_sink_it_. destruct (f_format _ m) as [[f line]|]; [|done]. cbn [mbind option_bind].
    destruct (format_lines f ms) as [ls|] eqn:Hls; [|done]. cbn [mbind option_bind]. intros [= <-]. cbn [force_flush_].
    set (s1 := MkOstream _ _). set (o1 := if force_flush_ s then _ else _).
    destruct (IH s1 o1 ls Hls) as (s2 & o2 & -> & Hw & Hf & Hn). exists s2, o2. split; [done|].
    assert (written o1 = written o ++ line) as Ho1 by (unfold o1; by destruct (force_flush_ s)).
    rewrite Hw, Ho1, <- app_assoc. split; [done|]. change (force_flush_ s1) with (force_flush_ s) in *. split.
    + intros Hff _. rewrite (Hf Hff), Hw, Ho1, <- app_assoc; [done|]. unfold o1. by rewrite Hff.
    + intros Hff. rewrite (Hn Hff). unfold o1. by rewrite Hff.
Qed.

(** ** Examples *)

#[local] Instance memory_formatter : Formatter unit := {
  f_format _ msg := Some (tt, payload msg ++ [LF]); f_clone _ := tt; f_pattern _ := tt }.

Definition demo_shared : shared (ostream_sink unit) ostream :=
  MkShared {[ 1 := mk_ostream_sink tt false ]} (MkStream [] 0) [] 0 0 [] [].
Definition hello (t : Z) (s : string) : log_msg := MkMsg (B "logger") info t 0 no_loc (B s).

(** The example of [dup_filter_sink.h]: of three equal messages the first is shown, and two are
    reported as skipped, where the comment says three. *)
Definition demo_hellos : list log_msg := [hello 10000000000 "Hello"; hello 10000000001 "Hello"; hello 10000000002 "Hello"; hello 10000000003 "Different Hello"].

Lemma dup_filter_correct_witness :
  let s := MkDup (mk_dist_sink tt [1]) 5000000 0 [] 0 in
  (dup_log_all 0 demo_hellos s demo_shared).1 = Ok tt /\
  written (disk (dup_log_all 0 demo_hellos s demo_shared).2.2) = B "Hello" ++ [LF] ++ B "Skipped 2 duplicate messages.." ++ [LF] ++ B "Different Hello" ++ [LF].
Proof.
  intros s. pose proof (dup_filter_correct 0 demo_hellos s demo_shared ltac:(cbn; lia) ltac:(cbn; lia) ltac:(cbn; lia)) as Hc.
  destruct (dedup _ _ _ demo_hellos) as [es n] eqn:Hes. destruct (dup_log_all 0 demo_hellos s demo_shared) as [r [s' g']].
  destruct Hc as [Hrun _]. vm_compute in Hes. injection Hes as <- <-. split.
  - refine (eq_trans (f_equal fst Hrun) _). vm_compute. reflexivity.
  - refine (eq_trans (f_equal (fun p => written (disk p.2)) Hrun) _). vm_compute. reflexivity.
Defined.

(** A ring of two items as the sink of a logger. *)
Example ring_of_a_logger :
  let g : shared (ringbuffer_sink unit) unit := MkShared {[ 1 := mk_ringbuffer_sink tt 2 ]} tt [10%Z; 20%Z; 30%Z] 0 0 [] [] in
  let l := new_logger (B "logger") [1] in
  exists g', foldr (fun s k (g : shared (ringbuffer_sink unit) unit) => '(_, g) ← log (F := unit) (fun _ => MkTm 0 0 0 0 0 0 0 0 0 0) 0 no_loc info (B s) l g; k g) Some ["a"; "b"; "c"] g = Some g' /\
    (s ← store g' !! 1; snd <$> last_formatted 0 s) = Some [B "b" ++ [LF]; B "c" ++ [LF]].
Proof. eexists. split; vm_compute; reflexivity. Qed.
