(* ===== verification/ConsoleSinks.v ===== *)
(** * Sinks on the console: [stdout_sinks-inl.h], [ansicolor_sink-inl.h], [os::is_color_terminal]

    A console is a stream as [MemorySinks] has them; what it refuses is not looked at by the code.
    The coloured sink asks its formatter for the range to colour: an interface, which
    [pattern_formatter] implements, with the law that the range lies in the text. *)
From S2P Require Import Prelude CLib Fmt PatternFormatter PatternTheory Files Sinks RotatingTheory Logger MemorySinks.

(** ** The terminal *)

Definition color_terms : list bytes :=
  map B ["ansi"; "color"; "console"; "cygwin"; "gnome"; "konsole"; "kterm"; "linux"; "msys"; "putty"; "rxvt"; "screen"; "vt100"; "xterm"; "alacritty"].

(** [strstr] finds a term. *)
Fixpoint contains (needle hay : bytes) : bool :=
  bool_decide (take (length needle) hay = needle) || match hay with [] => false | _ :: hay => contains needle hay end.

Definition is_color_terminal (getenv : bytes -> option bytes) : bool :=
  match getenv (B "COLORTERM") with
  | Some _ => true
  | None => match getenv (B "TERM") with None => false | Some env_term_p => existsb (fun term => contains term env_term_p) color_terms end
  end.

(** ** [stdout_sink_base] *)

Section stdout_sinks.
  Context {F : Type} `{Formatter F}.

Record stdout_sink := MkStdout { so_level : level_enum; so_formatter : F }.

Definition stdout_log (msg : log_msg) (st : stdout_sink * ostream) : outcome unit * (stdout_sink * ostream) :=
    let '(s, o) := st in
    match f_format (so_formatter s) msg with
    | None => (Undef, (s, o))
    | Some (f, formatted) => (Ok tt, (MkStdout (so_level s) f, ostream_flush (ostream_write formatted o)))
    end.
Definition stdout_set_pattern (pattern : bytes) (s : stdout_sink) : stdout_sink := MkStdout (so_level s) (f_pattern pattern).
Definition stdout_set_formatter (f : F) (s : stdout_sink) : stdout_sink := MkStdout (so_level s) f.

#[export] Instance stdout_Sink : Sink F stdout_sink ostream := {
    k_level := so_level; k_log := stdout_log; k_flush st := (Ok tt, (st.1, ostream_flush st.2)); k_set_formatter := stdout_set_formatter }.
End stdout_sinks.

(** ** Colours *)

(** A formatter that sets the colour range of its message, which was set to nothing before. *)
Class ColorFormatter (F : Type) := {
  c_format : F -> log_msg -> option (F * color_range * bytes);
  c_pattern : bytes -> F }.

Section pattern_colors.
  Context {Custom : Type} (custom_format : Custom -> padding_info -> log_msg -> tm -> bytes -> Custom * bytes).
  Context (localtime gmtime : Z -> tm) (pid now : Z).

#[local] Instance pattern_ColorFormatter : ColorFormatter (pattern_formatter Custom) := {
    c_format p msg := format custom_format localtime gmtime p msg (MkRange 0 0) [];
    c_pattern s := default (mk_default_formatter local [LF]) (mk_pattern_formatter pid now s local [LF] ∅) }.
End pattern_colors.

(** A code of the terminal: escape, bracket, parameters, [m]. *)
Definition ESC : ascii := chr 27.
Definition ansi (params : string) : bytes := ESC :: "["%char :: B params ++ B "m".
Definition reset : bytes := ansi "".
Definition bold : bytes := ansi "1".
Definition red : bytes := ansi "31".
Definition green : bytes := ansi "32".
Definition yellow : bytes := ansi "33".
Definition cyan : bytes := ansi "36".
Definition white : bytes := ansi "37".
Definition on_red : bytes := ansi "41".
Definition yellow_bold : bytes := yellow ++ bold.
Definition red_bold : bytes := red ++ bold.
Definition bold_on_red : bytes := bold ++ on_red.

Inductive color_mode := always | automatic | never.

Definition default_colors (l : level_enum) : bytes :=
  match l with
  | trace => white | debug => cyan | info => green | warn => yellow_bold | err => red_bold | critical => bold_on_red | off => reset
  end.

Section ansicolor.
  Context {F : Type} `{ColorFormatter F}.

Record ansicolor_sink := MkAnsi { a_level : level_enum; should_do_colors_ : bool; a_formatter : F; colors_ : level_enum -> bytes }.

  (** The answers of the system: whether the file is a terminal, and one with colours. *)
Definition mode_colors (mode : color_mode) (in_terminal color_terminal : bool) : bool :=
    match mode with always => true | automatic => in_terminal && color_terminal | never => false end.

Definition mk_ansicolor_sink (formatter : F) (mode : color_mode) (in_terminal color_terminal : bool) : ansicolor_sink :=
    MkAnsi trace (mode_colors mode in_terminal color_terminal) formatter default_colors.
Definition set_color (color_level : level_enum) (color : bytes) (s : ansicolor_sink) : ansicolor_sink :=
    MkAnsi (a_level s) (should_do_colors_ s) (a_formatter s) (fun l => if decide (l = color_level) then color else colors_ s l).
Definition set_color_mode (mode : color_mode) (in_terminal color_terminal : bool) (s : ansicolor_sink) : ansicolor_sink :=
    MkAnsi (a_level s) (mode_colors mode in_terminal color_terminal) (a_formatter s) (colors_ s).
Definition should_color (s : ansicolor_sink) : bool := should_do_colors_ s.
Definition ansi_set_formatter (f : F) (s : ansicolor_sink) : ansicolor_sink := MkAnsi (a_level s) (should_do_colors_ s) f (colors_ s).
Definition ansi_set_pattern (pattern : bytes) (s : ansicolor_sink) : ansicolor_sink := ansi_set_formatter (c_pattern pattern) s.

  (** Reading behind the buffer is undefined. *)
Definition print_range_ (formatted : bytes) (start end_ : Z) (o : ostream) : option ostream :=
    if ((0 <=? start) && (start <=? end_) && (end_ <=? Z.of_nat (length formatted)))%Z
    then Some (ostream_write (substr formatted (Z.to_nat start) (Some (Z.to_nat (end_ - start)))) o) else None.
Definition print_ccode_ (color_code : bytes) (o : ostream) : ostream := ostream_write color_code o.

Definition ansi_print (s : ansicolor_sink) (lvl : level_enum) (r : color_range) (formatted : bytes) (o : ostream) : option ostream :=
    if should_do_colors_ s && (color_range_start r <? color_range_end r)%Z then
      o ← print_range_ formatted 0 (color_range_start r) o;
      let o := print_ccode_ (colors_ s lvl) o in
      o ← print_range_ formatted (color_range_start r) (color_range_end r) o;
      let o := print_ccode_ reset o in
      print_range_ formatted (color_range_end r) (Z.of_nat (length formatted)) o
    else print_range_ formatted 0 (Z.of_nat (length formatted)) o.

Definition ansi_log (msg : log_msg) (st : ansicolor_sink * ostream) : outcome unit * (ansicolor_sink * ostream) :=
    let '(s, o) := st in
    match c_format (a_formatter s) msg with
    | None => (Undef, (s, o))
    | Some (f, r, formatted) =>
        let s := ansi_set_formatter f s in
        match ansi_print s (msg_level msg) r formatted o with
        | Some o => (Ok tt, (s, ostream_flush o))
        | None => (Undef, (s, o))
        end
    end.

#[export] Instance ansicolor_Sink : Sink F ansicolor_sink ostream := {
    k_level := a_level; k_log := ansi_log; k_flush st := (Ok tt, (st.1, ostream_flush st.2)); k_set_formatter := ansi_set_formatter }.
End ansicolor.

Arguments stdout_sink : clear implicits.
Arguments ansicolor_sink : clear implicits.

(** ** The range lies in the text *)

Definition range_in (r : color_range) (text : bytes) : Prop :=
  (0 <= color_range_start r <= Z.of_nat (length text))%Z /\ (0 <= color_range_end r <= Z.of_nat (length text))%Z.

Lemma range_in_app r text more : range_in r text -> range_in r (text ++ more).
Proof. unfold range_in. rewrite length_app. lia. Qed.

Lemma appends'_more f x d : appends' f -> (exists more, x = d ++ more) -> exists more, f x = d ++ more.
Proof. intros Hf [m ->]. destruct (Hf (d ++ m)) as [out ->]. eexists. by rewrite <- app_assoc. Qed.

Lemma full_format_range st msg t dest : let '(_, r, out) := full_format st msg t dest in range_in r out.
Proof.
  unfold full_format. destruct st as [ts cached]. set (d1 := if (0 <? _)%nat then _ else _). clearbody d1.
  set (d2 := push_back "["%char d1). set (d3 := append_string_view _ d2). set (d4 := push_back SP (push_back "]"%char d3)).
  assert (exists more, d3 = d2 ++ more) as [m3 H3] by (by eexists). assert (exists more, d4 = d3 ++ more) as [m4 H4] by (unfold d4, push_back; rewrite <- app_assoc; by eexists).
  assert (forall d, exists more, (if source_empty (source msg) then d else
      push_back SP (push_back "]"%char (append_int 32 (line (source msg)) (push_back ":"%char (append_string_view (basename (filename (source msg))) (push_back "["%char d)))))) = d ++ more) as Hsrc.
  { intros d. destruct (source_empty _); [exists []; by rewrite app_nil_r|].
    do 6 (apply appends'_more; [eauto using appends'_push, appends'_int, appends'_view|]). exists []. by rewrite app_nil_r. }
  cbv zeta. destruct (Hsrc d4) as [more ->]. unfold append_string_view. rewrite H4, H3. unfold range_in. cbn [color_range_start color_range_end]. rewrite !length_app. lia.
Qed.

Section pattern_range.
  Context {Custom : Type} (custom_format : Custom -> padding_info -> log_msg -> tm -> bytes -> Custom * bytes).
  Context (localtime gmtime : Z -> tm).

Lemma flag_range (f : flag_formatter Custom) msg t r dest f' r' out :
    flag_safe f -> flag_format custom_format f msg t r dest = Some (f', r', dest ++ out) -> range_in r dest -> range_in r' (dest ++ out).
Proof.
    intros Hf He Hr. assert (r' = r -> range_in r' (dest ++ out)) as Hsame by (intros ->; by apply range_in_app).
    destruct f as [g|sp p l o|sp u p l|p ts cached|ch|str| | |c p]; cbn [flag_format] in He.
    - destruct (g msg t dest); [|done]. injection He as _ <- _. by apply Hsame.
    - destruct (z_format _ _ _ _ _ _) as [[[? ?] ?]|]; [|done]. injection He as _ <- _. by apply Hsame.
    - destruct (elapsed_format _ _ _ _ _ _) as [[? ?]|]; [|done]. injection He as _ <- _. by apply Hsame.
    - pose proof (full_format_range (ts, cached) msg t dest) as Hfull. destruct (full_format _ _ _ _) as [[[ts' c'] r1] out1]. by injection He as _ <- <-.
    - injection He as _ <- _. by apply Hsame.
    - injection He as _ <- _. by apply Hsame.
    - injection He as _ <- _. unfold range_in in *. cbn [color_range_start color_range_end]. rewrite length_app. lia.
    - injection He as _ <- _. unfold range_in in *. cbn [color_range_start color_range_end]. rewrite length_app. lia.
    - done.
Qed.

Lemma format_all_range (fs : list (flag_formatter Custom)) msg t r dest :
    Forall flag_safe fs -> msg_ok msg = true -> tm_ok t = true -> range_in r dest ->
    exists fs' r' out, format_all custom_format fs msg t r dest = Some (fs', r', dest ++ out) /\ Forall flag_safe fs' /\ range_in r' (dest ++ out).
Proof.
    intros Hfs Hm Ht. revert r dest. induction Hfs as [|f fs Hf _ IH]; intros r dest Hr; cbn [format_all].
    - eexists _, _, []. by rewrite app_nil_r.
    - destruct (flag_safe_step custom_format f msg t r dest Hf Hm Ht) as (f' & r' & out & He & Hf'). pose proof (flag_range f msg t r dest f' r' out Hf He Hr) as Hr'.
      rewrite He. cbn [mbind option_bind]. destruct (IH r' (dest ++ out) Hr') as (fs' & r'' & out' & -> & Hfs' & Hr''). cbn [mbind option_bind].
      eexists _, _, _. rewrite <- app_assoc in *. split; [done|]. by split; [constructor|].
Qed.
End pattern_range.

(** ** What the terminal shows *)

(** A terminal that takes codes out of the text: from an escape to the next [m]. *)
Fixpoint strip (inside : bool) (s : bytes) : bytes :=
  match s with
  | [] => []
  | c :: s => if inside then strip (negb (c =c "m")) s else if c =c ESC then strip true s else c :: strip false s
  end.

(** Codes, one after the other. *)
Definition codes (s : bytes) : Prop := exists ps, s = concat (map ansi ps) /\ Forall (fun p => Forall (fun c => (c =c "m") = false) (B p)) ps.
Definition no_escape (s : bytes) : Prop := Forall (fun c => (c =c ESC) = false) s.

Lemma strip_text s rest : no_escape s -> strip false (s ++ rest) = s ++ strip false rest.
Proof. induction 1 as [|c s Hc _ IH]; [done|]. cbn [app strip]. by rewrite Hc, IH. Qed.

Lemma strip_codes s rest : codes s -> strip false (s ++ rest) = strip false rest.
Proof.
  intros (ps & -> & Hps). induction Hps as [|p ps Hp _ IH]; [done|]. cbn [map concat]. rewrite <- app_assoc. unfold ansi at 1.
  cbn [app strip]. rewrite Ascii.eqb_refl. change (negb ("["%char =c "m")) with true. rewrite <- app_assoc.
  induction Hp as [|c p' Hc _ IHp]; cbn [app strip]; [|by rewrite Hc]. exact IH.
Qed.

Lemma default_codes l : codes (default_colors l).
Proof.
  destruct l; [exists ["37"]|exists ["36"]|exists ["32"]|exists ["33"; "1"]|exists ["31"; "1"]|exists ["1"; "41"]|exists [""]]; (split; [reflexivity|]); by repeat constructor.
Qed.

Lemma reset_codes : codes reset.
Proof. exact (default_codes off). Qed.

Section console_theory.
  Context {F : Type} `{ColorFormatter F}.

  (** What one message writes: the text, with the code of its level and a reset around the range. *)
Definition colored (s : ansicolor_sink F) (lvl : level_enum) (r : color_range) (text : bytes) : bytes :=
    if should_do_colors_ s && (color_range_start r <? color_range_end r)%Z then
      take (Z.to_nat (color_range_start r)) text ++ colors_ s lvl ++
      take (Z.to_nat (color_range_end r) - Z.to_nat (color_range_start r)) (drop (Z.to_nat (color_range_start r)) text) ++ reset ++
      drop (Z.to_nat (color_range_end r)) text
    else text.

Lemma ansi_print_ok (s : ansicolor_sink F) lvl r text o :
    range_in r text -> ansi_print s lvl r text o = Some (ostream_write (colored s lvl r text) o).
Proof.
    intros [Hs He]. unfold ansi_print, colored, print_range_, print_ccode_, ostream_write, substr. destruct (should_do_colors_ s && _) eqn:Hc.
    - apply andb_true_iff in Hc as [_ Hlt]. to_prop.
      rewrite !(proj2 (Z.leb_le _ _)) by lia. cbn [andb mbind option_bind written flushed Z.to_nat]. rewrite drop_0, !Z.sub_0_r.
      rewrite (take_ge (drop (Z.to_nat (color_range_end r)) text)) by (rewrite length_drop; lia).
      replace (Z.to_nat (color_range_end r - color_range_start r)) with (Z.to_nat (color_range_end r) - Z.to_nat (color_range_start r)) by lia.
      by rewrite <- !app_assoc.
    - rewrite !(proj2 (Z.leb_le _ _)) by lia. cbn [andb Z.to_nat]. rewrite drop_0, Z.sub_0_r, Nat2Z.id. by rewrite take_ge.
Qed.

Lemma colored_strip (s : ansicolor_sink F) lvl r text rest :
    range_in r text -> codes (colors_ s lvl) -> no_escape text -> strip false (colored s lvl r text ++ rest) = text ++ strip false rest.
Proof.
    intros [Hs He] Hc Hn. unfold colored. destruct (should_do_colors_ s && _) eqn:Hco; [|by apply strip_text].
    apply andb_true_iff in Hco as [_ Hlt]. to_prop. set (a := Z.to_nat (color_range_start r)). set (b := Z.to_nat (color_range_end r)).
    assert (no_escape (take a text) /\ no_escape (take (b - a) (drop a text)) /\ no_escape (drop b text)) as (H1 & H2 & H3)
      by (unfold no_escape; split_and!; auto using Forall_take, Forall_drop).
    rewrite <- !app_assoc. rewrite strip_text, strip_codes, strip_text, strip_codes, strip_text by (done || apply reset_codes).
    assert (text = take a text ++ take (b - a) (drop a text) ++ drop b text) as Htext.
    { replace (drop b text) with (drop (b - a) (drop a text)) by (rewrite drop_drop; f_equal; lia). by rewrite take_drop, take_drop. }
    rewrite Htext at 4. by rewrite <- !app_assoc.
Qed.
End console_theory.

Lemma ansi_log_step {Custom} (custom_format : Custom -> padding_info -> log_msg -> tm -> bytes -> Custom * bytes) localtime gmtime pid now
    (s : ansicolor_sink (pattern_formatter Custom)) o msg :
  (forall t, tm_ok (localtime t) = true) -> (forall t, tm_ok (gmtime t) = true) -> cache_ok localtime gmtime (a_formatter s) ->
  Forall flag_safe (formatters_ (a_formatter s)) -> msg_ok msg = true -> seconds_of (time msg) <> 0%Z -> codes (colors_ s (msg_level msg)) ->
  exists p' r text out, format custom_format localtime gmtime (a_formatter s) msg (MkRange 0 0) [] = Some (p', r, text) /\
    @ansi_log _ (pattern_ColorFormatter custom_format localtime gmtime pid now) msg (s, o) =
      (Ok tt, (ansi_set_formatter p' s, ostream_flush (ostream_write out o))) /\
    (forall rest, no_escape text -> strip false (out ++ rest) = text ++ strip false rest) /\ (should_do_colors_ s = false -> out = text) /\
    cache_ok localtime gmtime p' /\ Forall flag_safe (formatters_ p').
Proof.
  intros Hl Hg Hc Hfs Hm Hs Hcol. set (p := a_formatter s) in *.
  assert (tm_ok (tm_of localtime gmtime (pattern_time_type_ p) msg) = true) as Ht by (unfold tm_of; destruct (pattern_time_type_ p); auto).
  destruct (format_all_range custom_format (formatters_ p) msg _ (MkRange 0 0) [] Hfs Hm Ht ltac:(unfold range_in; cbn; lia)) as (fs & r & out & Hf & Hfs' & Hr).
  cbn [app] in Hf, Hr. destruct (format_uncached custom_format localtime gmtime p msg _ _ _ _ _ Hc Hs Hf) as (p' & Hp & Hc' & Hp'fs & _ & _).
  apply (range_in_app r out (eol_ p)) in Hr. set (text := out ++ eol_ p) in *.
  exists p', r, text, (colored s (msg_level msg) r text). split; [|split; [|split; [|split; [|split]]]].
  - done.
  - unfold ansi_log. cbn [c_format pattern_ColorFormatter]. fold p. rewrite Hp. cbv zeta. rewrite (ansi_print_ok (ansi_set_formatter p' s) (msg_level msg) r text o Hr). done.
  - intros rest Hn. by apply colored_strip.
  - intros Hoff. unfold colored. by rewrite Hoff.
  - done.
  - by rewrite Hp'fs.
Qed.

Section console_runs.
  Context {Custom : Type} (custom_format : Custom -> padding_info -> log_msg -> tm -> bytes -> Custom * bytes).
  Context (localtime gmtime : Z -> tm) (pid now : Z).
  Context (Hlocal : forall t, tm_ok (localtime t) = true) (Hgm : forall t, tm_ok (gmtime t) = true).

#[local] Instance run_ColorFormatter : ColorFormatter (pattern_formatter Custom) := pattern_ColorFormatter custom_format localtime gmtime pid now.

Fixpoint ansi_log_all (msgs : list log_msg) (st : ansicolor_sink (pattern_formatter Custom) * ostream)
      : outcome unit * (ansicolor_sink (pattern_formatter Custom) * ostream) :=
    match msgs with
    | [] => (Ok tt, st)
    | m :: msgs => match ansi_log m st with (Ok _, st) => ansi_log_all msgs st | r => r end
    end.

Lemma ansi_log_all_ok msgs s o :
    cache_ok localtime gmtime (a_formatter s) -> Forall flag_safe (formatters_ (a_formatter s)) -> (forall l, codes (colors_ s l)) ->
    Forall (fun m => msg_ok m = true /\ NS_PER_SEC <= time m)%Z msgs ->
    exists texts out s', format_seq custom_format localtime gmtime (a_formatter s) (map (fun m => (m, [])) msgs) = Some texts /\
      ansi_log_all msgs (s, o) = (Ok tt, (s', MkStream (written o ++ out) (match msgs with [] => flushed o | _ => length (written o ++ out) end))) /\
      (Forall no_escape texts -> strip false out = concat texts) /\ (should_do_colors_ s = false -> out = concat texts).
Proof.
    intros Hc Hfs Hcol Hms. revert s o Hc Hfs Hcol. induction Hms as [|m msgs [Hm Ht] Hms IH]; intros s o Hc Hfs Hcol; cbn [map format_seq ansi_log_all].
    - exists [], [], s. rewrite app_nil_r. by destruct o.
    - assert (seconds_of (time m) <> 0%Z) as Hs.
      { unfold seconds_of, duration_cast. rewrite Z.quot_div_nonneg by (unfold NS_PER_SEC in *; lia). intros H0.
        pose proof (Z.div_le_lower_bound (time m) NS_PER_SEC 1 ltac:(done) ltac:(lia)). lia. }
      destruct (ansi_log_step custom_format localtime gmtime pid now s o m Hlocal Hgm Hc Hfs Hm Hs (Hcol _)) as (p' & r & text & out & -> & He & Hst & Hoff & Hc' & Hfs').
      unfold run_ColorFormatter at 1. rewrite He. cbn [mbind option_bind].
      destruct (IH (ansi_set_formatter p' s) (ostream_flush (ostream_write out o)) Hc' Hfs' Hcol) as (texts & out2 & s' & Hseq & Hrun & Hst2 & Hoff2).
      cbn [ansi_set_formatter a_formatter] in Hseq. rewrite Hseq. cbn [mbind option_bind]. exists (text :: texts), (out ++ out2), s'. split; [done|]. split; [|split].
      + rewrite Hrun. cbn [ostream_flush ostream_write written flushed]. rewrite <- !app_assoc. do 4 f_equal. destruct msgs; [|done].
        cbn [ansi_log_all] in Hrun. injection Hrun as _ Hw. apply (f_equal length) in Hw. cbn [ostream_flush ostream_write written] in Hw.
        rewrite !length_app in *. lia.
      + intros Hn. apply Forall_cons in Hn as [Hn Hns]. cbn [concat]. by rewrite Hst, Hst2.
      + intros Hno. cbn [concat]. by rewrite (Hoff Hno), (Hoff2 Hno).
Qed.
End console_runs.

(** The coloured console with any pattern without truncation and custom flags, and messages with
    fields of the C library's ranges after the first second: it never reads behind its buffer,
    writes what the formatter makes of each message with the codes of the level around the colour
    range and flushes it; a terminal that takes the codes out shows the texts as they are, and
    without colours they are written as they are. *)
Theorem ansicolor_sink_correct {Custom} (custom_format : Custom -> padding_info -> log_msg -> tm -> bytes -> Custom * bytes) localtime gmtime pid now
    pattern mode in_terminal color_terminal f msgs :
  (forall t, tm_ok (localtime t) = true) -> (forall t, tm_ok (gmtime t) = true) -> Forall no_bang pattern ->
  Forall (fun m => msg_ok m = true /\ NS_PER_SEC <= time m)%Z msgs ->
  let C := pattern_ColorFormatter custom_format localtime gmtime pid now in
  let s := ansi_set_pattern pattern (mk_ansicolor_sink f mode in_terminal color_terminal) in
  exists texts out s', format_seq custom_format localtime gmtime (a_formatter s) (map (fun m => (m, [])) msgs) = Some texts /\
    ansi_log_all custom_format localtime gmtime pid now msgs (s, MkStream [] 0) = (Ok tt, (s', MkStream out (length out))) /\
    (Forall no_escape texts -> strip false out = concat texts) /\
    (mode = never \/ mode = automatic /\ in_terminal && color_terminal = false -> out = concat texts).
Proof.
  intros Hl Hg Hb Hms C s. assert (cache_ok localtime gmtime (a_formatter s) /\ Forall flag_safe (formatters_ (a_formatter s))) as [Hc Hfs].
  { cbn [s ansi_set_pattern ansi_set_formatter a_formatter c_pattern C pattern_ColorFormatter]. unfold mk_pattern_formatter, compile_pattern_.
    destruct (compile_loop_safe (Custom := Custom) (S (length pattern)) pid now pattern None []) as (fs & -> & Hfs); [lia|done|done|].
    cbn [mbind option_bind default from_option id formatters_]. split; [by left|done]. }
  destruct (ansi_log_all_ok custom_format localtime gmtime pid now Hl Hg msgs s (MkStream [] 0) Hc Hfs default_codes Hms) as (texts & out & s' & Hseq & Hrun & Hst & Hoff).
  exists texts, out, s'. split; [done|]. split; [|split; [done|]].
  - cbn [written flushed app] in Hrun. rewrite Hrun. do 3 f_equal. destruct msgs; [|done]. cbn [ansi_log_all] in Hrun. by injection Hrun as _ <-.
  - intros Hmode. apply Hoff. cbn [s ansi_set_pattern ansi_set_formatter should_do_colors_ mk_ansicolor_sink]. unfold mode_colors.
    by destruct Hmode as [->|[-> Ht]].
Qed.

Definition console_msgs : list log_msg := [MkMsg (B "fc") err (5 * NS_PER_SEC) 1 no_loc (B "one"); MkMsg (B "fc") info (6 * NS_PER_SEC) 1 no_loc (B "two")].

Lemma ansicolor_sink_correct_witness :
  exists o, snd (snd (ansi_log_all (Custom := unit) (fun c _ _ _ d => (c, d)) (fun _ => demo_tm) (fun _ => demo_tm) 1 0 console_msgs
      (@ansi_set_pattern _ (pattern_ColorFormatter (fun c _ _ _ d => (c, d)) (fun _ => demo_tm) (fun _ => demo_tm) 1 0) (B "[%^%l%$] %v")
         (mk_ansicolor_sink (mk_default_formatter local [LF]) always false false), MkStream [] 0))) = o /\
    written o = B "[" ++ red_bold ++ B "error" ++ reset ++ B "] one" ++ [LF] ++ B "[" ++ green ++ B "info" ++ reset ++ B "] two" ++ [LF] /\
    strip false (written o) = B "[error] one" ++ [LF] ++ B "[info] two" ++ [LF].
Proof.
  destruct (ansicolor_sink_correct (Custom := unit) (fun c _ _ _ d => (c, d)) (fun _ => demo_tm) (fun _ => demo_tm) 1 0 (B "[%^%l%$] %v") always false false
    (mk_default_formatter local [LF]) console_msgs) as (texts & out & s' & Hseq & Hrun & Hst & _);
    [intros _; reflexivity|intros _; reflexivity|by repeat constructor|by repeat constructor|].
  eexists. split; [reflexivity|]. split; [vm_compute; reflexivity|].
  rewrite Hrun. cbn [snd written]. vm_compute in Hseq. injection Hseq as <-. rewrite Hst; [reflexivity|by repeat constructor].
Defined.
