(* ===== verification/Registry.v ===== *)
(** * The registry of loggers: [spdlog/details/registry-inl.h], [spdlog-inl.h], [synchronous_factory.h]

    The loggers by name, the global settings new loggers get, the default logger, and the
    functions of the namespace [spdlog] that go through it.  Loggers are shared objects: the
    registry holds references into a store of them. *)
From S2P Require Import Prelude CLib Fmt PatternFormatter Files Sinks CircularQueue Logger.

Section registry.
  Context {F K W : Type} `{Formatter F} `{Sink F K W} (localtime : Z -> tm) (this_thread : Z).

Record registry := MkRegistry {
    loggers_ : gmap bytes nat; log_levels_ : gmap bytes level_enum; formatter_ : F; global_log_level_ : level_enum;
    reg_flush_level_ : level_enum; err_handler_ : option nat; tp_ : option nat; periodic_flusher_ : option Z;
    default_logger_ : option nat; automatic_registration_ : bool; backtrace_n_messages_ : nat }.

  (** The process: the registry, the logger objects, and what loggers share. *)
Record spd := MkSpd { reg : registry; objs : gmap nat logger; sh : shared K W }.

Definition with_reg (r : registry) (st : spd) : spd := MkSpd r (objs st) (sh st).
Definition on_objs (fn : gmap nat logger -> gmap nat logger) (st : spd) : spd := MkSpd (reg st) (fn (objs st)) (sh st).

  (** The registry with one field changed. *)
Definition set_loggers (m : gmap bytes nat) (r : registry) : registry :=
    MkRegistry m (log_levels_ r) (formatter_ r) (global_log_level_ r) (reg_flush_level_ r) (err_handler_ r) (tp_ r)
      (periodic_flusher_ r) (default_logger_ r) (automatic_registration_ r) (backtrace_n_messages_ r).
Definition set_default (d : option nat) (r : registry) : registry :=
    MkRegistry (loggers_ r) (log_levels_ r) (formatter_ r) (global_log_level_ r) (reg_flush_level_ r) (err_handler_ r)
      (tp_ r) (periodic_flusher_ r) d (automatic_registration_ r) (backtrace_n_messages_ r).

  (** The registered loggers, in the order of the map. *)
Definition registered (st : spd) : list (bytes * nat) := map_to_list (loggers_ (reg st)).

  (** A change of every registered logger. *)
Definition for_loggers (fn : logger -> logger) (st : spd) : spd :=
    foldl (fun st '(_, id) => on_objs (alter fn id) st) st (registered st).

Definition name_of (st : spd) (id : nat) : option bytes := name_ <$> objs st !! id.

  (** ** Registration *)

Definition throw_if_exists_ (logger_name : bytes) (st : spd) : outcome unit :=
    match loggers_ (reg st) !! logger_name with
    | Some _ => Throw (B "logger with name '" ++ logger_name ++ B "' already exists")
    | None => Ok tt
    end.

Definition register_logger_ (id : nat) (st : spd) : outcome unit * spd :=
    match name_of st id with
    | None => (Undef, st)
    | Some logger_name =>
        match throw_if_exists_ logger_name st with
        | Ok _ => (Ok tt, with_reg (set_loggers (<[logger_name := id]> (loggers_ (reg st))) (reg st)) st)
        | r => (r, st)
        end
    end.

Definition register_logger : nat -> spd -> outcome unit * spd := register_logger_.

Definition initialize_logger (id : nat) (st : spd) : outcome unit * spd :=
    match objs st !! id with
    | None => (Undef, st)
    | Some l =>
        let g := set_formatter (f_clone (formatter_ (reg st))) l (sh st) in
        let l := match err_handler_ (reg st) with Some h => set_error_handler h l | None => l end in
        let new_level := default (global_log_level_ (reg st)) (log_levels_ (reg st) !! name_ l) in
        let l := Logger.set_level new_level l in
        let l := Logger.flush_on (reg_flush_level_ (reg st)) l in
        let l := if (0 <? backtrace_n_messages_ (reg st))%nat then Logger.enable_backtrace (backtrace_n_messages_ (reg st)) l else l in
        let st := MkSpd (reg st) (<[id := l]> (objs st)) g in
        if automatic_registration_ (reg st) then register_logger_ id st else (Ok tt, st)
    end.

Definition get (logger_name : bytes) (st : spd) : option nat := loggers_ (reg st) !! logger_name.
Definition default_logger (st : spd) : option nat := default_logger_ (reg st).

Definition set_default_logger (new_default_logger : option nat) (st : spd) : spd :=
    let m := loggers_ (reg st) in
    let m := match default_logger_ (reg st) ≫= name_of st with Some n => delete n m | None => m end in
    let m := match new_default_logger with
             | Some id => match name_of st id with Some n => <[n := id]> m | None => m end
             | None => m
             end in
    with_reg (set_default new_default_logger (set_loggers m (reg st))) st.

Definition drop (logger_name : bytes) (st : spd) : spd :=
    let r := set_loggers (delete logger_name (loggers_ (reg st))) (reg st) in
    let is_default := match default_logger_ (reg st) ≫= name_of st with Some n => n =s logger_name | None => false end in
    with_reg (if is_default then set_default None r else r) st.

Definition drop_all (st : spd) : spd := with_reg (set_default None (set_loggers ∅ (reg st))) st.

  (** ** Global settings *)

Definition reg_set_formatter (formatter : F) (st : spd) : spd :=
    let r := reg st in
    let r := MkRegistry (loggers_ r) (log_levels_ r) formatter (global_log_level_ r) (reg_flush_level_ r) (err_handler_ r)
               (tp_ r) (periodic_flusher_ r) (default_logger_ r) (automatic_registration_ r) (backtrace_n_messages_ r) in
    foldl (fun st '(_, id) =>
      match objs st !! id with
      | Some l => MkSpd (reg st) (objs st) (set_formatter (f_clone formatter) l (sh st))
      | None => st
      end) (with_reg r st) (registered st).

Definition set_backtrace_n (n : nat) (st : spd) : spd :=
    let r := reg st in
    with_reg (MkRegistry (loggers_ r) (log_levels_ r) (formatter_ r) (global_log_level_ r) (reg_flush_level_ r)
      (err_handler_ r) (tp_ r) (periodic_flusher_ r) (default_logger_ r) (automatic_registration_ r) n) st.

Definition reg_enable_backtrace (n_messages : nat) (st : spd) : spd :=
    for_loggers (Logger.enable_backtrace n_messages) (set_backtrace_n n_messages st).
Definition reg_disable_backtrace (st : spd) : spd := for_loggers Logger.disable_backtrace (set_backtrace_n 0 st).

Definition reg_set_level (log_level : level_enum) (st : spd) : spd :=
    let st := for_loggers (Logger.set_level log_level) st in
    let r := reg st in
    with_reg (MkRegistry (loggers_ r) (log_levels_ r) (formatter_ r) log_level (reg_flush_level_ r) (err_handler_ r)
      (tp_ r) (periodic_flusher_ r) (default_logger_ r) (automatic_registration_ r) (backtrace_n_messages_ r)) st.

Definition reg_flush_on (log_level : level_enum) (st : spd) : spd :=
    let st := for_loggers (Logger.flush_on log_level) st in
    let r := reg st in
    with_reg (MkRegistry (loggers_ r) (log_levels_ r) (formatter_ r) (global_log_level_ r) log_level (err_handler_ r)
      (tp_ r) (periodic_flusher_ r) (default_logger_ r) (automatic_registration_ r) (backtrace_n_messages_ r)) st.

  (** A periodic worker is active when its interval is positive. *)
Definition flush_every (interval : Z) (st : spd) : spd :=
    let r := reg st in
    with_reg (MkRegistry (loggers_ r) (log_levels_ r) (formatter_ r) (global_log_level_ r) (reg_flush_level_ r)
      (err_handler_ r) (tp_ r) (Some interval) (default_logger_ r) (automatic_registration_ r) (backtrace_n_messages_ r)) st.

Definition reg_set_error_handler (handler : nat) (st : spd) : spd :=
    let st := for_loggers (Logger.set_error_handler handler) st in
    let r := reg st in
    with_reg (MkRegistry (loggers_ r) (log_levels_ r) (formatter_ r) (global_log_level_ r) (reg_flush_level_ r)
      (Some handler) (tp_ r) (periodic_flusher_ r) (default_logger_ r) (automatic_registration_ r) (backtrace_n_messages_ r)) st.

Definition flush_all (st : spd) : option spd :=
    g ← foldl (fun g '(_, id) => g ← g; l ← objs st !! id; Logger.flush_ localtime l g) (Some (sh st)) (registered st);
    Some (MkSpd (reg st) (objs st) g).

Definition set_automatic_registration (automatic_registration : bool) (st : spd) : spd :=
    let r := reg st in
    with_reg (MkRegistry (loggers_ r) (log_levels_ r) (formatter_ r) (global_log_level_ r) (reg_flush_level_ r)
      (err_handler_ r) (tp_ r) (periodic_flusher_ r) (default_logger_ r) automatic_registration (backtrace_n_messages_ r)) st.

Definition set_tp (tp : option nat) (st : spd) : spd :=
    let r := reg st in
    with_reg (MkRegistry (loggers_ r) (log_levels_ r) (formatter_ r) (global_log_level_ r) (reg_flush_level_ r)
      (err_handler_ r) tp (periodic_flusher_ r) (default_logger_ r) (automatic_registration_ r) (backtrace_n_messages_ r)) st.

Definition shutdown (st : spd) : spd :=
    let r := reg st in
    let st := with_reg (MkRegistry (loggers_ r) (log_levels_ r) (formatter_ r) (global_log_level_ r) (reg_flush_level_ r)
      (err_handler_ r) (tp_ r) None (default_logger_ r) (automatic_registration_ r) (backtrace_n_messages_ r)) st in
    set_tp None (drop_all st).

Definition set_levels (levels : gmap bytes level_enum) (global_level : option level_enum) (st : spd) : spd :=
    let r := reg st in
    let st := with_reg (MkRegistry (loggers_ r) levels (formatter_ r) (default (global_log_level_ r) global_level)
      (reg_flush_level_ r) (err_handler_ r) (tp_ r) (periodic_flusher_ r) (default_logger_ r) (automatic_registration_ r)
      (backtrace_n_messages_ r)) st in
    foldl (fun st '(n, id) =>
      match levels !! n with
      | Some level => on_objs (alter (Logger.set_level level) id) st
      | None => match global_level with Some level => on_objs (alter (Logger.set_level level) id) st | None => st end
      end) st (registered st).

  (** ** Making loggers *)

  (** The registry's constructor, with its sink on the terminal under the number 0. *)
Definition new_registry (formatter : F) (color_sink : K) (w : W) (clock : list Z) : spd :=
    MkSpd (MkRegistry {[ [] := 0 ]} ∅ formatter info off None None None (Some 0) true 0)
      {[ 0 := new_logger [] [0] ]} (MkShared {[ 0 := color_sink ]} w clock 0 0 [] []).

  (** [synchronous_factory::create]: [make] is the constructor of the sink; the number of the new
      logger. *)
Definition create (logger_name : bytes) (make : W -> outcome K * W) (st : spd) : outcome nat * spd :=
    let g := sh st in
    match make (disk g) with
    | (Ok k, w) =>
        let sink_id := fresh (dom (store g)) in
        let g := MkShared (<[sink_id := k]> (store g)) w (clock g) (err_counter g) (last_report_time g) (stderr g) (handled g) in
        let id := fresh (dom (objs st)) in
        let st := MkSpd (reg st) (<[id := new_logger logger_name [sink_id]]> (objs st)) g in
        match initialize_logger id st with
        | (Ok _, st) => (Ok id, st)
        | (Throw e, st) => (Throw e, st)
        | (Undef, st) => (Undef, st)
        end
    | (Throw e, w) =>
        (Throw e, MkSpd (reg st) (objs st) (MkShared (store g) w (clock g) (err_counter g) (last_report_time g) (stderr g) (handled g)))
    | (Undef, _) => (Undef, st)
    end.

  (** ** The functions of the namespace *)

Definition spd_set_pattern (pattern : bytes) (st : spd) : spd := reg_set_formatter (f_pattern pattern) st.

  (** Calls through a logger object; [None] is a null or dangling pointer. *)
Definition on_logger (id : nat) (fn : logger -> shared K W -> option (logger * shared K W)) (st : spd) : option spd :=
    l ← objs st !! id;
    '(l, g) ← fn l (sh st);
    Some (MkSpd (reg st) (<[id := l]> (objs st)) g).

Definition spd_log (id : nat) (loc : source_loc) (lvl : level_enum) (msg : bytes) : spd -> option spd :=
    on_logger id (Logger.log localtime this_thread loc lvl msg).

Definition spd_dump_backtrace (st : spd) : option spd :=
    id ← default_logger st; on_logger id (Logger.dump_backtrace_ localtime this_thread) st.

Definition get_level (st : spd) : option level_enum := id ← default_logger st; Logger.level_ <$> objs st !! id.
Definition spd_should_log (lvl : level_enum) (st : spd) : option bool :=
    id ← default_logger st; Logger.should_log lvl <$> objs st !! id.
End registry.

Arguments registry : clear implicits.
Arguments spd : clear implicits.

(** ** The invariant: names and references agree *)

Section invariant.
  Context {F K W : Type} `{Formatter F} `{Sink F K W} (localtime : Z -> tm) (this_thread : Z).
  Implicit Types st : spd F K W.

  (** Every registered logger exists under its own name, and the default logger is registered. *)
Record reg_ok st : Prop := {
    ro_names : forall n id, loggers_ (reg st) !! n = Some id -> name_of st id = Some n;
    ro_default : forall id, default_logger_ (reg st) = Some id ->
      exists n, name_of st id = Some n /\ loggers_ (reg st) !! n = Some id }.

  (** Steps that keep the registrations and the names. *)
Definition same_names st st' : Prop :=
    loggers_ (reg st') = loggers_ (reg st) /\ default_logger_ (reg st') = default_logger_ (reg st) /\
    forall id, name_of st' id = name_of st id.

Lemma same_names_refl st : same_names st st.
Proof. done. Qed.

Lemma same_names_trans st1 st2 st3 : same_names st1 st2 -> same_names st2 st3 -> same_names st1 st3.
Proof. intros (H1 & H2 & H3) (H4 & H5 & H6). split_and!; [congruence|congruence|]. intros id. by rewrite H6. Qed.

Lemma same_names_ok st st' : same_names st st' -> reg_ok st -> reg_ok st'.
Proof.
    intros (Hm & Hd & Hn) [Ho1 Ho2]. split.
    - intros n id. rewrite Hm, Hn. apply Ho1.
    - intros id. rewrite Hd, Hm. setoid_rewrite Hn. apply Ho2.
  Qed.

Lemma same_names_fold {A} (fn : spd F K W -> A -> spd F K W) l st :
    (forall st a, same_names st (fn st a)) -> same_names st (foldl fn st l).
Proof.
    intros Hf. revert st. induction l as [|a l IH]; intros st; cbn [foldl]; [done|].
    eapply same_names_trans; [apply Hf|apply IH].
  Qed.

Lemma same_names_alter fn id st : (forall l, name_ (fn l) = name_ l) -> same_names st (on_objs (alter fn id) st).
Proof.
    intros Hf. split_and!; [done|done|]. intros i. unfold name_of, on_objs. cbn [objs].
    destruct (decide (i = id)) as [->|]; [|by rewrite lookup_alter_ne].
    rewrite lookup_alter_eq. destruct (objs st !! id); cbn; [by rewrite Hf|done].
  Qed.

Lemma same_names_insert id l l' g st :
    objs st !! id = Some l -> name_ l' = name_ l -> same_names st (MkSpd (reg st) (<[id := l']> (objs st)) g).
Proof.
    intros Hl Hn. split_and!; [done|done|]. intros i. unfold name_of. cbn [objs].
    destruct (decide (i = id)) as [->|]; [|by rewrite lookup_insert_ne]. rewrite lookup_insert_eq, Hl. cbn. by rewrite Hn.
  Qed.

  (** A new object does not disturb the registrations. *)
Lemma reg_ok_new id l g st :
    reg_ok st -> objs st !! id = None -> reg_ok (MkSpd (reg st) (<[id := l]> (objs st)) g).
Proof.
    intros [Ho1 Ho2] Hid.
    assert (forall i n, name_of st i = Some n -> name_of (MkSpd (reg st) (<[id := l]> (objs st)) g) i = Some n) as Hn.
    { intros i n. unfold name_of. cbn [objs]. destruct (decide (i = id)) as [->|]; [by rewrite Hid|by rewrite lookup_insert_ne]. }
    split; cbn [reg].
    - intros n i Hi. by apply Hn, Ho1.
    - intros i Hi. destruct (Ho2 i Hi) as (n & Hin & Hr). exists n. auto.
  Qed.

Lemma fresh_objs st : objs st !! fresh (dom (objs st)) = None.
Proof. apply not_elem_of_dom, is_fresh. Qed.

  (** Registering: refused exactly when the name is taken, and then nothing changes. *)
Lemma register_logger_spec id n st :
    name_of st id = Some n ->
    match loggers_ (reg st) !! n with
    | Some _ => register_logger_ id st = (Throw (B "logger with name '" ++ n ++ B "' already exists"), st)
    | None => register_logger_ id st = (Ok tt, with_reg (set_loggers (<[n := id]> (loggers_ (reg st))) (reg st)) st)
    end.
Proof. intros Hn. unfold register_logger_, throw_if_exists_. rewrite Hn. by destruct (loggers_ (reg st) !! n). Qed.

Lemma register_logger_ok id st r st' : reg_ok st -> register_logger_ id st = (r, st') -> reg_ok st'.
Proof.
    intros Hok Hr. unfold register_logger_ in Hr. destruct (name_of st id) as [n|] eqn:Hn; [|by injection Hr as <- <-].
    unfold throw_if_exists_ in Hr. destruct (loggers_ (reg st) !! n) eqn:Hl; injection Hr as <- <-; [done|].
    destruct Hok as [Ho1 Ho2]. split; cbn [with_reg reg set_loggers loggers_ default_logger_].
    - intros n' id' [[-> ->]|[Hne Hi]]%lookup_insert_Some; [done|]. by apply Ho1.
    - intros id' Hd. destruct (Ho2 id' Hd) as (n' & Hn' & Hl'). exists n'. split; [done|].
      rewrite lookup_insert_ne; [done|]. congruence.
  Qed.

Lemma initialize_logger_ok id st r st' : reg_ok st -> initialize_logger id st = (r, st') -> reg_ok st'.
Proof.
    intros Hok Hr. unfold initialize_logger in Hr. destruct (objs st !! id) as [l|] eqn:Hl; [|by injection Hr as <- <-].
    set (g := set_formatter _ _ _) in Hr.
    match type of Hr with context [MkSpd (reg st) (<[id := ?x]> (objs st)) g] => set (l' := x) in Hr end.
    assert (reg_ok (MkSpd (reg st) (<[id := l']> (objs st)) g)) as Hok'.
    { eapply same_names_ok; [|exact Hok]. eapply same_names_insert; [exact Hl|]. unfold l'. by repeat case_match. }
    cbn [reg] in Hr. destruct (automatic_registration_ (reg st)); [eapply register_logger_ok; [exact Hok'|exact Hr]|by injection Hr as <- <-].
  Qed.

Lemma drop_ok n st : reg_ok st -> reg_ok (drop n st).
Proof.
    intros [Ho1 Ho2]. unfold drop. set (is_default := match _ with Some _ => _ | None => false end).
    split.
    - intros n' id Hi. assert (delete n (loggers_ (reg st)) !! n' = Some id) as Hd by (destruct is_default; exact Hi).
      apply lookup_delete_Some in Hd as [_ Hd]. by apply Ho1.
    - intros id Hd. destruct is_default eqn:Hdef; [done|]. cbn [with_reg reg set_loggers loggers_ default_logger_] in *.
      destruct (Ho2 id Hd) as (n' & Hn' & Hl'). exists n'. split; [done|]. rewrite lookup_delete_ne; [done|].
      unfold is_default in Hdef. rewrite Hd in Hdef. cbn [mbind option_bind] in Hdef. rewrite Hn' in Hdef. to_prop. congruence.
  Qed.

Lemma set_default_logger_ok d st :
    reg_ok st -> (forall id, d = Some id -> is_Some (objs st !! id)) -> reg_ok (set_default_logger d st).
Proof.
    intros [Ho1 Ho2] Hd. unfold set_default_logger. set (m1 := match _ ≫= _ with Some _ => _ | None => _ end).
    assert (forall n id, m1 !! n = Some id -> name_of st id = Some n) as Hm1.
    { intros n id. unfold m1. case_match; [|apply Ho1]. intros [_ Hi]%lookup_delete_Some. by apply Ho1. }
    destruct d as [id|]; [|by split].
    destruct (Hd id eq_refl) as [l Hl]. assert (name_of st id = Some (name_ l)) as Hn by (unfold name_of; by rewrite Hl).
    rewrite Hn. split; cbn [with_reg reg set_loggers set_default loggers_ default_logger_].
    - intros n' id' [[<- <-]|[_ Hi]]%lookup_insert_Some; [done|by apply Hm1].
    - intros id' [= <-]. exists (name_ l). split; [done|apply lookup_insert_eq].
  Qed.

  (** ** Every sequence of operations *)

  (** The operations that only change settings. *)
Inductive setting : (spd F K W -> spd F K W) -> Prop :=
    | set_formatter_op f : setting (reg_set_formatter f)
    | set_pattern_op pattern : setting (spd_set_pattern pattern)
    | enable_backtrace_op n : setting (reg_enable_backtrace n)
    | disable_backtrace_op : setting reg_disable_backtrace
    | set_level_op lvl : setting (reg_set_level lvl)
    | flush_on_op lvl : setting (reg_flush_on lvl)
    | flush_every_op interval : setting (flush_every interval)
    | set_error_handler_op h : setting (reg_set_error_handler h)
    | set_automatic_registration_op b : setting (set_automatic_registration b)
    | set_tp_op tp : setting (set_tp tp)
    | set_levels_op levels global : setting (set_levels levels global).

  (** A logger made or cloned outside the registry, the registrations, the settings, and the
      calls of loggers; not [logger::swap], which exchanges the names of two loggers without
      telling the registry. *)
Inductive spd_step : spd F K W -> spd F K W -> Prop :=
    | new_step st id l : objs st !! id = None -> spd_step st (MkSpd (reg st) (<[id := l]> (objs st)) (sh st))
    | register_step st id r st' : register_logger id st = (r, st') -> spd_step st st'
    | initialize_step st id r st' : initialize_logger id st = (r, st') -> spd_step st st'
    | create_step st n make r st' : create n make st = (r, st') -> spd_step st st'
    | default_step st d : (forall id, d = Some id -> is_Some (objs st !! id)) -> spd_step st (set_default_logger d st)
    | drop_step st n : spd_step st (drop n st)
    | drop_all_step st : spd_step st (drop_all st)
    | shutdown_step st : spd_step st (shutdown st)
    | setting_step st fn : setting fn -> spd_step st (fn st)
    | log_step st id loc lvl msg st' : spd_log localtime this_thread id loc lvl msg st = Some st' -> spd_step st st'
    | dump_step st st' : spd_dump_backtrace localtime this_thread st = Some st' -> spd_step st st'
    | flush_step st st' : flush_all localtime st = Some st' -> spd_step st st'.

Lemma for_loggers_same fn st : (forall l, name_ (fn l) = name_ l) -> same_names st (for_loggers fn st).
Proof. intros Hf. apply same_names_fold. intros st' [n id]. by apply same_names_alter. Qed.

Lemma setting_same fn st : setting fn -> same_names st (fn st).
Proof.
    assert (forall f st, same_names st (reg_set_formatter f st)) as Hset.
    { intros f st'. unfold reg_set_formatter. set (st1 := with_reg _ st').
      apply (same_names_trans st' st1); [done|]. apply same_names_fold. intros st2 [n id].
      by destruct (objs st2 !! id). }
    intros [].
    - apply Hset.
    - apply Hset.
    - apply (same_names_trans st (set_backtrace_n n st)); [done|]. by apply for_loggers_same.
    - apply (same_names_trans st (set_backtrace_n 0 st)); [done|]. by apply for_loggers_same.
    - eapply same_names_trans; [apply (for_loggers_same (Logger.set_level lvl)); done|done].
    - eapply same_names_trans; [apply (for_loggers_same (Logger.flush_on lvl)); done|done].
    - done.
    - eapply same_names_trans; [apply (for_loggers_same (Logger.set_error_handler h)); done|done].
    - done.
    - done.
    - unfold set_levels. set (st1 := with_reg _ st). apply (same_names_trans st st1); [done|].
      apply same_names_fold. intros st2 [n id]. case_match; [by apply same_names_alter|].
      case_match; [by apply same_names_alter|done].
  Qed.

  (** The operations of a logger keep its name. *)
Lemma on_logger_same id fn st st' :
    (forall l g l' g', fn l g = Some (l', g') -> name_ l' = name_ l) -> on_logger id fn st = Some st' -> same_names st st'.
Proof.
    intros Hfn Hr. unfold on_logger in Hr. destruct (objs st !! id) as [l|] eqn:Hl; [|done]. cbn [mbind option_bind] in Hr.
    destruct (fn l (sh st)) as [[l' g']|] eqn:Hf; [|done]. injection Hr as <-. eapply same_names_insert; [exact Hl|by eapply Hfn].
  Qed.

Lemma log_name loc lvl msg l g l' g' :
    Logger.log localtime this_thread loc lvl msg l g = Some (l', g') -> name_ l' = name_ l.
Proof.
    unfold Logger.log. case_match; [by intros [= <- <-]|]. destruct (mk_log_msg _ _ _ _ _ _) as [m g1].
    unfold log_it_. destruct (should_log lvl l); [destruct (sink_it_ _ _ _ _); [|done]|];
      cbn [mbind option_bind]; destruct (enabled_ (tracer_ l)); by intros [= <- <-].
  Qed.

Lemma dump_name l g l' g' : Logger.dump_backtrace_ localtime this_thread l g = Some (l', g') -> name_ l' = name_ l.
Proof.
    unfold dump_backtrace_. destruct (enabled_ (tracer_ l)); [|by intros [= <- <-]].
    destruct (mk_log_msg _ _ _ _ _ _) as [m g1]. destruct (sink_it_ _ _ _ _) as [g2|]; [|done]. cbn [mbind option_bind].
    destruct (foreach_pop _ _ _) as [[t g3]|]; [|done]. cbn [mbind option_bind].
    destruct (mk_log_msg _ _ _ _ _ _) as [m2 g4]. destruct (sink_it_ _ _ _ _) as [g5|]; [|done]. by intros [= <- <-].
  Qed.

Lemma create_ok n make st r st' : reg_ok st -> create n make st = (r, st') -> reg_ok st'.
Proof.
    intros Hok Hr. unfold create in Hr. destruct (make (disk (sh st))) as [[k|e|] w]; [| |by injection Hr as <- <-].
    - set (g := MkShared _ _ _ _ _ _ _) in Hr. set (l := new_logger _ _) in Hr.
      destruct (initialize_logger _ _) as [r1 st1] eqn:Hi.
      apply initialize_logger_ok in Hi; [|apply reg_ok_new; [done|apply fresh_objs]].
      by destruct r1; injection Hr as <- <-.
    - injection Hr as <- <-. by eapply same_names_ok; [|exact Hok].
  Qed.

Lemma spd_step_ok st st' : spd_step st st' -> reg_ok st -> reg_ok st'.
Proof.
    intros [st0 id l Hid|st0 id r st1 Hr|st0 id r st1 Hr|st0 n make r st1 Hr|st0 d Hd|st0 n|st0|st0|st0 fn Hs
           |st0 id loc lvl msg st1 Hr|st0 st1 Hr|st0 st1 Hr] Hok.
    - by apply reg_ok_new.
    - by eapply register_logger_ok.
    - by eapply initialize_logger_ok.
    - by eapply create_ok.
    - by apply set_default_logger_ok.
    - by apply drop_ok.
    - by split.
    - by split.
    - by eapply same_names_ok; [apply setting_same|].
    - eapply same_names_ok; [|exact Hok]. eapply on_logger_same; [|exact Hr]. intros l g l' g'. apply log_name.
    - unfold spd_dump_backtrace in Hr. destruct (default_logger st0) as [id|]; [|done]. cbn [mbind option_bind] in Hr.
      eapply same_names_ok; [|exact Hok]. eapply on_logger_same; [|exact Hr]. intros l g l' g'. apply dump_name.
    - unfold flush_all in Hr. destruct (foldl _ _ _) as [g|]; [|done]. cbn [mbind option_bind] in Hr. injection Hr as <-.
      by eapply same_names_ok; [|exact Hok].
  Qed.

Lemma new_registry_ok f k w clock : reg_ok (new_registry f k w clock).
Proof.
    split; cbn.
    - intros n id [<- <-]%lookup_singleton_Some. reflexivity.
    - intros id [= <-]. exists []. split; [reflexivity|apply lookup_singleton_eq].
  Qed.

Lemma reachable_ok f k w clock st : rtc spd_step (new_registry f k w clock) st -> reg_ok st.
Proof.
    intros Hr. apply rtc_ind_r with (P := reg_ok) in Hr; [done|apply new_registry_ok|].
    intros st1 st2 _ Hs Hok. by eapply spd_step_ok.
  Qed.
End invariant.

(** C35: in every state the program can bring the registry into, a registered logger has the name
    it is registered under (so no logger is registered twice), the default logger is registered,
    and registering a logger throws exactly when its name is taken, leaving everything as it
    was; otherwise the logger is found under its name afterwards and nothing else changes. *)
Theorem registry_correct {F K W} `{Formatter F} `{Sink F K W} localtime this_thread f k w clock (st : spd F K W) :
  rtc (spd_step localtime this_thread) (new_registry f k w clock) st ->
  (forall n id, get n st = Some id -> name_of st id = Some n) /\
  (forall n n' id, get n st = Some id -> get n' st = Some id -> n = n') /\
  (forall id, default_logger st = Some id -> exists n, get n st = Some id) /\
  (forall id n, name_of st id = Some n ->
     match get n st with
     | Some _ => exists what, register_logger id st = (Throw what, st)
     | None => exists st', register_logger id st = (Ok tt, st') /\ get n st' = Some id /\
                 (forall n', n' <> n -> get n' st' = get n' st) /\ objs st' = objs st /\ sh st' = sh st
     end).
Proof.
  intros Hr. apply reachable_ok in Hr as [Ho1 Ho2]. unfold get. split_and!.
  - done.
  - intros n n' id Hn Hn'. apply Ho1 in Hn, Hn'. congruence.
  - intros id Hd. destruct (Ho2 id Hd) as (n & _ & Hn). by exists n.
  - intros id n Hn. pose proof (register_logger_spec id n st Hn) as Hs. unfold register_logger.
    destruct (loggers_ (reg st) !! n); [by eexists|]. eexists. split; [exact Hs|].
    cbn [with_reg reg set_loggers loggers_ objs sh]. split_and!; [apply lookup_insert_eq| |done|done].
    intros n' Hne. by apply lookup_insert_ne.
Qed.

(** A registry whose sinks drop everything: a second logger of the same name. *)
#[local] Instance null_Formatter : Formatter unit := { f_format _ _ := Some (tt, []); f_clone _ := tt; f_pattern _ := tt }.
#[local] Instance null_Sink : Sink unit unit unit := {
  k_level _ := trace; k_log _ st := (Ok tt, st); k_flush st := (Ok tt, st); k_set_formatter _ k := k }.

Definition demo_spd : spd unit unit unit :=
  let st := new_registry tt tt tt [] in
  let st := MkSpd (reg st) (<[2 := new_logger (B "fc") [0]]> (<[1 := new_logger (B "fc") [0]]> (objs st))) (sh st) in
  snd (register_logger 1 st).

Lemma demo_spd_reachable :
  rtc (spd_step (fun _ => demo_tm) 1) (new_registry tt tt tt []) demo_spd.
Proof.
  eapply rtc_l; [apply (new_step _ _ _ 1 (new_logger (B "fc") [0])); reflexivity|].
  eapply rtc_l; [apply (new_step _ _ _ 2 (new_logger (B "fc") [0])); reflexivity|].
  eapply rtc_l; [|apply rtc_refl]. apply (register_step _ _ _ 1 (Ok tt)). reflexivity.
Qed.

Lemma registry_correct_witness :
  get (B "fc") demo_spd = Some 1 /\ exists what, register_logger 2 demo_spd = (Throw what, demo_spd).
Proof.
  split; [reflexivity|].
  exact (proj2 (proj2 (proj2 (registry_correct (fun _ => demo_tm) 1 tt tt tt [] demo_spd demo_spd_reachable))) 2 (B "fc") eq_refl).
Defined.
