(* ===== verification/Levels.v ===== *)
(** * Levels from the environment and the command line: [spdlog/cfg/*.h]

    A text such as "info,net=debug" sets the levels of loggers by name and the global level. *)
From S2P Require Import Prelude CLib Fmt PatternFormatter Files Sinks CircularQueue Logger Registry.

(** ** [cfg/helpers-inl.h] *)

Definition to_lower_ (str : bytes) : bytes :=
  map (fun ch => if (code "A" <=? code ch)%Z && (code ch <=? code "Z")%Z then chr (code ch + (code "a" - code "A")) else ch) str.

Definition is_blank (c : ascii) : bool := existsb (Ascii.eqb c) [" "%char; LF; chr 13; chr 9].

(** [erase] from an index to the end, and up to an index; [npos + 1] is 0. *)
Definition trim_ (str : bytes) : bytes :=
  let str := take (match rfind_if (fun c => negb (is_blank c)) str with Some i => S i | None => 0 end) str in
  match find_if (fun c => negb (is_blank c)) str with Some i => skipn i str | None => [] end.

Definition extract_kv_ (sep : ascii) (str : bytes) : bytes * bytes :=
  match find_if (fun c => c =c sep) str with
  | None => (trim_ [], trim_ str)
  | Some n => (trim_ (substr str 0 (Some n)), trim_ (substr str (S n) None))
  end.

(** What [std::getline] reads of a stream of the characters, up to the delimiter at a time: behind
    a last delimiter there is nothing to read. *)
Definition stream_tokens (delim : ascii) (str : bytes) : list bytes :=
  let ts := split_on (fun c => c =c delim) str in
  match List.last ts [] with [] => removelast ts | _ => ts end.

Definition extract_key_vals_ (str : bytes) : gmap bytes bytes :=
  foldl (fun rv token =>
    match token with [] => rv | _ => let '(k, v) := extract_kv_ "=" token in <[k := v]> rv end) ∅ (stream_tokens "," str).

Section levels.
  Context {F K W : Type} `{Formatter F} `{Sink F K W}.

Definition level_step (acc : gmap bytes level_enum * option level_enum) (name_level : bytes * bytes) : gmap bytes level_enum * option level_enum :=
    let '(levels, global_level) := acc in
    let '(logger_name, level_name) := name_level in
    let level_name := to_lower_ level_name in
    let level := from_str level_name in
    if bool_decide (level = off) && negb (level_name =s B "off") then acc
    else match logger_name with [] => (levels, Some level) | _ => (<[logger_name := level]> levels, global_level) end.

Definition load_levels (input : bytes) (st : spd F K W) : spd F K W :=
    if (length input =? 0)%nat || (512 <? length input)%nat then st
    else
      let '(levels, global_level) := foldl level_step (∅, None) (map_to_list (extract_key_vals_ input)) in
      set_levels levels global_level st.

  (** [cfg/env.h], [cfg/argv.h]; a string found at index 0 is a prefix. *)
Definition load_env_levels (getenv : bytes -> option bytes) (st : spd F K W) : spd F K W :=
    let env_val := default [] (getenv (B "SPDLOG_LEVEL")) in
    match env_val with [] => st | _ => load_levels env_val st end.

Definition spdlog_level_prefix : bytes := B "SPDLOG_LEVEL=".
Fixpoint load_argv_loop (args : list bytes) (st : spd F K W) : spd F K W :=
    match args with
    | [] => st
    | arg :: args =>
        load_argv_loop args
          (if bool_decide (take (length spdlog_level_prefix) arg = spdlog_level_prefix)
           then load_levels (substr arg (length spdlog_level_prefix) None) st else st)
    end.
Definition load_argv_levels (argv : list bytes) (st : spd F K W) : spd F K W := load_argv_loop (skipn 1 argv) st.
End levels.

(** ** Texts that set levels *)

(** A setting: the name, unless it is for every logger, and the value, with blanks around both. *)
Record level_setting := MkSetting { s_name : option bytes; s_value : bytes; s_blanks : bytes * bytes * bytes * bytes }.

Definition show_setting (e : level_setting) : bytes :=
  let '(a, b, c, d) := s_blanks e in
  match s_name e with None => a ++ s_value e ++ b | Some n => (a ++ n ++ b) ++ B "=" ++ (c ++ s_value e ++ d) end.
Fixpoint show_settings (l : list level_setting) : bytes :=
  match l with [] => [] | [e] => show_setting e | e :: l => show_setting e ++ "," %char :: show_settings l end.

(** No blank at either end, and none of the separators. *)
Definition word (seps : list ascii) (w : bytes) : Prop :=
  (forall c, head w = Some c -> is_blank c = false) /\ (forall c, last w = Some c -> is_blank c = false) /\ Forall (fun c => c ∉ seps) w.
Definition blank_text (w : bytes) : Prop := Forall (fun c => is_blank c = true) w.
Definition setting_ok (e : level_setting) : Prop :=
  let '(a, b, c, d) := s_blanks e in
  blank_text a /\ blank_text b /\ blank_text c /\ blank_text d /\
  match s_name e with
  | None => word ["," %char; "=" %char] (s_value e) /\ s_value e <> []
  | Some n => word ["," %char; "=" %char] n /\ word [","%char] (s_value e)
  end.

(** The last value given for a name; [[]] is the name of no logger in particular. *)
Definition values_of (l : list level_setting) : gmap bytes bytes := foldl (fun m e => <[default [] (s_name e) := s_value e]> m) ∅ l.

(** The level a value names, in any case of its letters. *)
Definition level_of_text (v : bytes) : option level_enum :=
  let level := from_str (to_lower_ v) in if bool_decide (level = off) && negb (to_lower_ v =s B "off") then None else Some level.
Definition global_level_of (m : gmap bytes bytes) : option level_enum := m !! [] ≫= level_of_text.
Definition levels_of (m : gmap bytes bytes) : gmap bytes level_enum := omap level_of_text (delete [] m).

(** ** Reading them *)

Lemma trim_word seps a w b : blank_text a -> blank_text b -> word seps w -> trim_ (a ++ w ++ b) = w.
Proof.
  intros Ha Hb (Hh & Hl & _). assert (forall t, blank_text t -> Forall (fun c => negb (is_blank c) = false) t) as Hn.
  { intros t Ht. eapply Forall_impl; [exact Ht|]. by intros c ->. }
  unfold trim_. destruct w as [|c w'] using rev_ind.
  - cbn [app]. assert (rfind_if (fun c => negb (is_blank c)) (a ++ b) = None) as -> by (apply rfind_if_none, Forall_app; auto). done.
  - clear IHw'. assert (is_blank c = false) as Hc by (apply Hl; by rewrite last_snoc).
    rewrite <- app_assoc, app_assoc. cbn [app]. rewrite (rfind_if_app _ (a ++ w') c b); [|by apply Hn|by rewrite Hc].
    replace (take (S (length (a ++ w'))) ((a ++ w') ++ c :: b)) with (a ++ w' ++ [c]).
    2:{ change (c :: b) with ([c] ++ b). rewrite !app_assoc. symmetry. apply take_app_length'. rewrite !length_app. cbn. lia. }
    destruct (w' ++ [c]) as [|d w2] eqn:Hw; [by destruct w'|]. rewrite (find_if_app _ a d w2); [|by apply Hn|by rewrite Hh].
    by apply drop_app_length.
Qed.

Lemma is_blank_ordinary c : is_blank c = true -> c ∉ [","%char; "="%char].
Proof. intros Hc. rewrite !elem_of_cons, elem_of_nil. intros [-> |[-> |[]]]; discriminate Hc. Qed.

Lemma ordinary_eqb (seps : list ascii) c d : c ∉ seps -> d ∈ seps -> (c =c d) = false.
Proof. intros Hc Hd. apply Ascii.eqb_neq. by intros ->. Qed.

Lemma blanks_no_sep d w : d ∈ [","%char; "="%char] -> blank_text w -> Forall (fun c => (c =c d) = false) w.
Proof. intros Hd Hw. eapply Forall_impl; [exact Hw|]. intros c Hc. eapply ordinary_eqb; [by apply is_blank_ordinary|done]. Qed.

Lemma word_no_sep seps d w : d ∈ seps -> word seps w -> Forall (fun c => (c =c d) = false) w.
Proof. intros Hd (_ & _ & Hw). eapply Forall_impl; [exact Hw|]. intros c Hc. exact (ordinary_eqb seps c d Hc Hd). Qed.

Lemma extract_setting e : setting_ok e -> extract_kv_ "=" (show_setting e) = (default [] (s_name e), s_value e).
Proof.
  unfold setting_ok, show_setting, extract_kv_. destruct (s_blanks e) as [[[a b] c] d]. intros (Ha & Hb & Hc & Hd & Hv).
  assert ("="%char ∈ [","%char; "="%char]) as Heq by (apply list_elem_of_further, list_elem_of_here).
  destruct (s_name e) as [n|].
  - destruct Hv as [Hn Hv]. cbn [B String.list_ascii_of_string app]. rewrite (find_if_app _ (a ++ n ++ b) "="%char (c ++ s_value e ++ d)); [|rewrite !Forall_app; split_and!|done].
    + unfold substr. rewrite drop_0, take_app_length.
      replace (skipn (S (length (a ++ n ++ b))) ((a ++ n ++ b) ++ "="%char :: c ++ s_value e ++ d)) with (c ++ s_value e ++ d)
        by (change ("="%char :: c ++ s_value e ++ d) with (["="%char] ++ c ++ s_value e ++ d); rewrite (app_assoc (a ++ n ++ b)); symmetry;
            apply drop_app_length'; rewrite !length_app; cbn; lia).
      by rewrite (trim_word [","%char; "="%char] a n b), (trim_word [","%char] c (s_value e) d).
    + by apply blanks_no_sep.
    + by eapply word_no_sep.
    + by apply blanks_no_sep.
  - destruct Hv as [Hv _]. assert (find_if (fun c => c =c "="%char) (a ++ s_value e ++ b) = None) as ->.
    { apply find_if_none. rewrite !Forall_app. split_and!; [by apply blanks_no_sep|by eapply word_no_sep|by apply blanks_no_sep]. }
    by rewrite (trim_word [","%char; "="%char] a (s_value e) b).
Qed.

(** The pieces of the whole text. *)
Lemma show_setting_pieces e : setting_ok e -> Forall (fun c => (c =c ",") = false) (show_setting e) /\ show_setting e <> [].
Proof.
  unfold setting_ok, show_setting. destruct (s_blanks e) as [[[a b] c] d]. intros (Ha & Hb & Hc & Hd & Hv). assert (","%char ∈ [","%char; "="%char]) as Hs by apply list_elem_of_here.
  assert (forall w, blank_text w -> Forall (fun c => (c =c ","%char) = false) w) as Hbl by (intros w; by apply blanks_no_sep).
  destruct (s_name e) as [n|]; destruct Hv as [Hn Hv]; (split; [rewrite !Forall_app|]).
  - assert (","%char ∈ [","%char]) as Hs1 by apply list_elem_of_here. split_and!; auto; [exact (word_no_sep _ _ _ Hs Hn)|by repeat constructor|exact (word_no_sep _ _ _ Hs1 Hv)].
  - intros Hnil. apply app_nil in Hnil as [_ Hnil]. done.
  - split_and!; auto. exact (word_no_sep _ _ _ Hs Hn).
  - intros Hnil. apply app_nil in Hnil as [_ Hnil]. by apply app_nil in Hnil as [Hnil _].
Qed.

Lemma tokens_of_settings l : l <> [] -> Forall setting_ok l -> stream_tokens "," (show_settings l) = map show_setting l.
Proof.
  intros Hne Hl. assert (split_on (fun c => c =c ",") (show_settings l) = map show_setting l /\ List.last (map show_setting l) [] <> []) as [Heq Hlast].
  { induction Hl as [|e l He Hl IH]; [done|]. destruct (show_setting_pieces e He) as [Hp Hn]. destruct l as [|e2 l].
    - cbn [show_settings map]. rewrite split_on_free by done. done.
    - change (show_settings (e :: e2 :: l)) with (show_setting e ++ ","%char :: show_settings (e2 :: l)). destruct (IH ltac:(done)) as [IH1 IH2].
      rewrite split_on_app by done. rewrite IH1. split; [done|exact IH2]. }
  unfold stream_tokens. rewrite Heq. by destruct (List.last _ _).
Qed.

Lemma key_vals_of_settings l : l <> [] -> Forall setting_ok l -> extract_key_vals_ (show_settings l) = values_of l.
Proof.
  intros Hne Hl. unfold extract_key_vals_, values_of. rewrite tokens_of_settings by done. clear Hne. generalize (∅ : gmap bytes bytes).
  induction Hl as [|e l He Hl IH]; intros m; [done|]. cbn [map foldl]. rewrite <- IH. f_equal. destruct (show_setting_pieces e He) as [_ Hn].
  destruct (show_setting e) eqn:Hs; [done|]. rewrite <- Hs. by rewrite extract_setting.
Qed.

(** The order in which the map is gone through does not matter. *)
Lemma level_steps l : NoDup l.*1 ->
  foldl level_step (∅, None) l = (levels_of (list_to_map l), global_level_of (list_to_map l)).
Proof.
  induction l as [|[n v] l IH] using rev_ind; intros Hnd; [cbn; unfold levels_of; by rewrite delete_empty, omap_empty|].
  rewrite fmap_app in Hnd. apply NoDup_app in Hnd as (Hnd & Hn & _). rewrite foldl_app, IH by done. cbn [foldl level_step].
  assert (list_to_map (M := gmap bytes bytes) l !! n = None) as Hnone by (apply not_elem_of_list_to_map; intros Hin; apply (Hn n Hin); by apply list_elem_of_here).
  assert (list_to_map (M := gmap bytes bytes) (l ++ [(n, v)]) = <[n := v]> (list_to_map l)) as ->.
  { rewrite list_to_map_snoc; [done|]. by apply not_elem_of_list_to_map. }
  set (m := list_to_map l) in *. assert (level_of_text v = if bool_decide (from_str (to_lower_ v) = off) && negb (to_lower_ v =s B "off") then None else Some (from_str (to_lower_ v))) as Hv by done.
  destruct (_ && _); destruct n as [|c n]; unfold levels_of, global_level_of.
  - rewrite delete_insert_eq, lookup_insert_eq. cbn [mbind option_bind]. by rewrite Hv, Hnone.
  - rewrite delete_insert_ne, lookup_insert_ne by done. f_equal. rewrite omap_insert, Hv. symmetry. apply delete_id. rewrite lookup_omap, lookup_delete_ne, Hnone by done. done.
  - rewrite delete_insert_eq, lookup_insert_eq. cbn [mbind option_bind]. by rewrite Hv.
  - rewrite delete_insert_ne, lookup_insert_ne by done. by rewrite omap_insert, Hv.
Qed.

(** ** What they do to the registry *)

Section effect.
  Context {F K W : Type} `{Formatter F} `{Sink F K W}.
  Implicit Types st : spd F K W.

(** The new level of the logger registered as [n], if it gets one. *)
Definition new_level (levels : gmap bytes level_enum) (global : option level_enum) (n : bytes) : option level_enum :=
    match levels !! n with Some level => Some level | None => global end.
Definition relevel (level : option level_enum) (l : logger) : logger := match level with Some level => Logger.set_level level l | None => l end.

Lemma alter_fold (change : bytes -> logger -> logger) (l : list (bytes * nat)) (o : gmap nat logger) :
    NoDup l.*2 ->
    (forall n id, (n, id) ∈ l -> foldl (fun o '(n, id) => alter (change n) id o) o l !! id = change n <$> o !! id) /\
    (forall id, id ∉ l.*2 -> foldl (fun o '(n, id) => alter (change n) id o) o l !! id = o !! id).
Proof.
    revert o. induction l as [|[n0 id0] l IH]; intros o Hnd; [split; [by intros n id Hin; apply not_elem_of_nil in Hin|done]|].
    cbn [fmap list_fmap snd] in Hnd. apply NoDup_cons in Hnd as [Hn0 Hnd]. cbn [foldl]. destruct (IH (alter (change n0) id0 o) Hnd) as [IH1 IH2]. split.
    - intros n id Hin. apply elem_of_cons in Hin as [[= -> ->]|Hin]; [by rewrite IH2, lookup_alter_eq|]. rewrite (IH1 n id Hin), lookup_alter_ne; [done|].
      intros ->. apply Hn0. apply list_elem_of_fmap. by exists (n, id).
    - intros id Hid. cbn [fmap list_fmap snd] in Hid. apply not_elem_of_cons in Hid as [Hne Hid]. by rewrite IH2, lookup_alter_ne.
Qed.

Lemma set_levels_objs levels global st :
    objs (set_levels levels global st) = foldl (fun o '(n, id) => alter (relevel (new_level levels global n)) id o) (objs st) (registered st).
Proof.
    unfold set_levels. set (st1 := with_reg _ st). assert (registered st1 = registered st /\ objs st1 = objs st) as [-> <-] by done. clearbody st1.
    generalize (registered st) as l. intros l. revert st1. induction l as [|[n id] l IH]; intros st1; [done|]. cbn [foldl]. rewrite IH. f_equal.
    unfold new_level. destruct (levels !! n); [done|]. destruct global; [done|]. cbn [relevel]. symmetry. by apply alter_id.
Qed.

Lemma set_levels_reg levels global st :
    log_levels_ (reg (set_levels levels global st)) = levels /\
    global_log_level_ (reg (set_levels levels global st)) = default (global_log_level_ (reg st)) global /\
    loggers_ (reg (set_levels levels global st)) = loggers_ (reg st) /\ sh (set_levels levels global st) = sh st.
Proof.
    unfold set_levels. set (st1 := with_reg _ st). set (step := fun st '(n, id) => _).
    assert (forall l st1, reg (foldl step st1 l) = reg st1 /\ sh (foldl step st1 l) = sh st1) as Hfold.
    { induction l as [|[n id] l IH]; intros st2; [done|]. cbn [foldl]. destruct (IH (step st2 (n, id))) as [-> ->]. unfold step.
      destruct (levels !! n); [done|]. by destruct global. }
    destruct (Hfold (registered st1) st1) as [-> ->]. done.
Qed.

Lemma registered_ids st : reg_ok st -> NoDup (registered st).*2.
Proof.
    intros [Hn _]. unfold registered. pose proof (NoDup_fst_map_to_list (loggers_ (reg st))) as Hnd.
    assert (forall n id, (n, id) ∈ map_to_list (loggers_ (reg st)) -> name_of st id = Some n) as Hin by (intros n id Hi; by apply Hn, elem_of_map_to_list).
    induction (map_to_list (loggers_ (reg st))) as [|[n id] l IH]; [constructor|]. cbn [fmap list_fmap fst snd] in *. apply NoDup_cons in Hnd as [Hn0 Hnd].
    apply NoDup_cons. split; [|apply IH; [done|]; intros n' id' Hi; apply Hin; by apply list_elem_of_further].
    intros Hi. apply list_elem_of_fmap in Hi as ([n' id'] & Hid & Hi). cbn in Hid. subst id'. apply Hn0, list_elem_of_fmap. exists (n', id). split; [|done].
    pose proof (Hin n id (list_elem_of_here _ _)). pose proof (Hin n' id (list_elem_of_further _ _ _ Hi)). cbn. congruence.
Qed.

Lemma set_levels_loggers levels global st :
    reg_ok st ->
    (forall n id, get n st = Some id -> objs (set_levels levels global st) !! id = relevel (new_level levels global n) <$> objs st !! id) /\
    (forall id, (forall n, get n st <> Some id) -> objs (set_levels levels global st) !! id = objs st !! id).
Proof.
    intros Hok. rewrite set_levels_objs. destruct (alter_fold (fun n => relevel (new_level levels global n)) (registered st) (objs st) (registered_ids st Hok)) as [H1 H2]. split.
    - intros n id Hn. apply H1. by apply elem_of_map_to_list.
    - intros id Hn. apply H2. intros Hi. apply list_elem_of_fmap in Hi as ([n id'] & -> & Hi). apply elem_of_map_to_list in Hi. by apply (Hn n).
Qed.

Lemma load_levels_settings l st :
    l <> [] -> Forall setting_ok l -> length (show_settings l) <= 512 ->
    load_levels (show_settings l) st = set_levels (levels_of (values_of l)) (global_level_of (values_of l)) st.
Proof.
    intros Hne Hl Hlen. unfold load_levels. rewrite key_vals_of_settings by done. rewrite (proj2 (Nat.ltb_ge 512 _)), orb_false_r by done.
    assert (length (show_settings l) <> 0) as Hnz.
    { destruct Hl as [|e l He Hl]; [done|]. destruct (show_setting_pieces e He) as [_ Hn]. destruct (show_setting e) eqn:Hs; [done|].
      destruct l; cbn [show_settings]; rewrite Hs; cbn; lia. }
    rewrite (proj2 (Nat.eqb_neq _ _) Hnz), level_steps by apply NoDup_fst_map_to_list. by rewrite list_to_map_to_list.
Qed.
End effect.

(** A text of settings, up to 512 characters -- a level for a name or for every logger, blanks
    around both, in any case -- gives each registered logger the last level set for its name,
    else the last global one, else leaves it; what names no level is ignored, a later logger gets
    its level by the same rule, and nothing else changes.  The command line sets the levels of
    each argument with the prefix, in order. *)
Theorem load_levels_correct {F K W} `{Formatter F} `{Sink F K W} l (st : spd F K W) :
  reg_ok st -> l <> [] -> Forall setting_ok l -> length (show_settings l) <= 512 ->
  let m := values_of l in
  let st' := load_levels (show_settings l) st in
  (forall n id, get n st = Some id -> objs st' !! id = relevel (new_level (levels_of m) (global_level_of m) n) <$> objs st !! id) /\
  (forall id, (forall n, get n st <> Some id) -> objs st' !! id = objs st !! id) /\
  (forall n, n <> [] -> log_levels_ (reg st') !! n = m !! n ≫= level_of_text) /\
  global_log_level_ (reg st') = default (global_log_level_ (reg st)) (global_level_of m) /\
  loggers_ (reg st') = loggers_ (reg st) /\ sh st' = sh st /\
  (forall program, load_argv_levels [program; B "SPDLOG_LEVEL=" ++ show_settings l] st = st') /\
  load_env_levels (fun v => if v =s B "SPDLOG_LEVEL" then Some (show_settings l) else None) st = st'.
Proof.
  intros Hok Hne Hl Hlen m st'. subst st' m. rewrite load_levels_settings by done.
  destruct (set_levels_loggers (levels_of (values_of l)) (global_level_of (values_of l)) st Hok) as [H1 H2].
  destruct (set_levels_reg (levels_of (values_of l)) (global_level_of (values_of l)) st) as (H3 & H4 & H5 & H6).
  split_and!; try done.
  - intros n Hn. rewrite H3. unfold levels_of. by rewrite lookup_omap, lookup_delete_ne by done.
  - intros program. by rewrite <- load_levels_settings.
  - change (match show_settings l with [] => st | _ => load_levels (show_settings l) st end = set_levels (levels_of (values_of l)) (global_level_of (values_of l)) st).
    rewrite <- load_levels_settings by done. by destruct (show_settings l).
Qed.

Definition check_word (seps : list ascii) (w : bytes) : bool :=
  match head w with Some c => negb (is_blank c) | None => true end && match last w with Some c => negb (is_blank c) | None => true end &&
  forallb (fun c => bool_decide (c ∉ seps)) w.
Lemma word_checked seps w : check_word seps w = true -> word seps w.
Proof.
  unfold check_word. intros Hc. apply andb_true_iff in Hc as [[Hh Hl]%andb_true_iff Hw]. split_and!.
  - intros c Hc. rewrite Hc in Hh. by apply negb_true_iff.
  - intros c Hc. rewrite Hc in Hl. by apply negb_true_iff.
  - rewrite forallb_forall in Hw. apply Forall_forall. intros c Hc. apply list_elem_of_In, Hw in Hc. by apply bool_decide_eq_true in Hc.
Qed.

Definition demo_settings : list level_setting :=
  [MkSetting (Some (B "fc")) (B "Debug") (B " ", [], [], B " "); MkSetting None (B "WARN") ([], [], [], []); MkSetting (Some (B "x")) (B "loud") ([], B " ", [], [])].

#[local] Existing Instances null_Formatter null_Sink.

Lemma load_levels_correct_witness :
  show_settings demo_settings = B " fc=Debug ,WARN,x =loud" /\
  (let st := demo_spd in objs (load_levels (show_settings demo_settings) st) !! 1 = Logger.set_level debug <$> objs st !! 1).
Proof.
  split; [reflexivity|]. cbv zeta.
  apply (load_levels_correct demo_settings demo_spd (reachable_ok _ _ _ _ _ _ _ demo_spd_reachable) ltac:(discriminate)) with (n := B "fc"); [|cbn; lia|reflexivity].
  unfold demo_settings. repeat (apply Forall_cons; split); [..|constructor]; unfold setting_ok; cbn [s_blanks s_name s_value];
    repeat match goal with
    | |- _ /\ _ => split
    | |- word _ _ => apply word_checked; reflexivity
    | |- blank_text _ => by repeat constructor
    | |- _ <> _ => discriminate
    end.
Defined.

(** The examples of [cfg/env.h]: a star is the name of a logger, not every logger, and a level it
    does not know leaves the level as it is instead of setting info. *)
Example star_is_a_name :
  let st := load_levels (B "*=off,fc=debug") demo_spd in
  log_levels_ (reg st) !! B "*" = Some off /\ global_log_level_ (reg st) = global_log_level_ (reg demo_spd).
Proof. split; reflexivity. Qed.
Example unknown_level_ignored : load_levels (B "off,fc=loud") demo_spd = load_levels (B "off") demo_spd.
Proof. reflexivity. Qed.
