(* ===== verification/ProxyLog.v ===== *)
(** * The proxy's log, end to end

    The logger [fileCacheProxy::init] makes, from the global pattern down to the files: the
    registry, the rotating file sink and the pattern put together, and what the log files hold
    after any sequence of messages. *)
From S2P Require Import Prelude CLib Fmt PatternFormatter PatternTheory Files Sinks RotatingTheory CircularQueue Logger Registry.

Definition FC_LOGGER_NAME : bytes := B "fileCacheProxy".
Definition logFileSize : Z := 4.
Definition logFileBkupNum : nat := 4.

(** Two kinds of sinks in one program. *)
#[export] Instance sum_Sink {F A C W} `{Sink F A W} `{Sink F C W} : Sink F (A + C) W := {
  k_level k := match k with inl a => k_level a | inr c => k_level c end;
  k_log m st :=
    match st with
    | (inl a, w) => let '(r, (a, w)) := k_log m (a, w) in (r, (inl a, w))
    | (inr c, w) => let '(r, (c, w)) := k_log m (c, w) in (r, (inr c, w))
    end;
  k_flush st :=
    match st with
    | (inl a, w) => let '(r, (a, w)) := k_flush (a, w) in (r, (inl a, w))
    | (inr c, w) => let '(r, (c, w)) := k_flush (c, w) in (r, (inr c, w))
    end;
  k_set_formatter f k :=
    match k with inl a => inl (k_set_formatter f a) | inr c => inr (k_set_formatter f c) end }.

Section proxy_log.
  (** Custom flags, the calendar, the process and the thread, the clock when a pattern is
      compiled; and the sink of the default logger, which writes to the terminal. *)
  Context {Custom : Type} (custom_format : Custom -> padding_info -> log_msg -> tm -> bytes -> Custom * bytes).
  Context (localtime gmtime : Z -> tm) (pid pattern_now this_thread : Z).
  Abbreviation F := (pattern_formatter Custom).
  #[local] Existing Instance pattern_Formatter.
#[local] Instance fmt_inst : Formatter F := pattern_Formatter custom_format localtime gmtime pid pattern_now.
  Context {C : Type} `{Sink F C world}.
  Abbreviation K := (rotating_file_sink F + C)%type.
  Abbreviation ST := (spd F K world).

Definition default_formatter : F := mk_default_formatter local [LF].

  (** The constructor of the proxy's sink. *)
Definition make_sink (base : bytes) (max_size : Z) (max_files : nat) (w : world) : outcome K * world :=
    match mk_rotating_file_sink default_formatter base max_size max_files false w with
    | (Ok s, w) => (Ok (inl s), w)
    | (Throw e, w) => (Throw e, w)
    | (Undef, w) => (Undef, w)
    end.

  (** [rotating_logger_mt]. *)
Definition rotating_logger_mt (logger_name filename : bytes) (max_file_size : Z) (max_files : nat) : ST -> outcome nat * ST :=
    create logger_name (make_sink filename max_file_size max_files).

  (** The logger part of [fileCacheProxy::init]. *)
Definition init_logger (mFclogFile : bytes) (st : ST) : outcome nat * ST :=
    let st := spd_set_pattern proxy_pattern st in
    match rotating_logger_mt FC_LOGGER_NAME (c_str mFclogFile) (1024 * 1024 * logFileSize) logFileBkupNum st with
    | (Ok id, st) => (Ok id, on_objs (alter (Logger.flush_on info) id) st)
    | r => r
    end.

  (** A sequence of calls of that logger. *)
Fixpoint log_requests (id : nat) (reqs : list request) (st : ST) : option ST :=
    match reqs with
    | [] => Some st
    | (loc, lvl, text) :: reqs => st ← spd_log localtime this_thread id loc lvl text st; log_requests id reqs st
    end.

  (** ** The formatter *)

  (** The formatter of the proxy's pattern, in any state of its cache. *)
Definition proxy_formatter (p : F) : Prop :=
    formatters_ p = proxy_flags /\ eol_ p = [LF] /\ pattern_time_type_ p = local /\ cache_ok localtime gmtime p.

Definition local_line (m : log_msg) : bytes := proxy_line m (localtime (time m / NS_PER_SEC)%Z) ++ [LF].

Lemma proxy_formatter_line p m :
    (forall s, tm_ok (localtime s) = true) -> proxy_formatter p -> msg_ok m = true -> (NS_PER_SEC <= time m)%Z ->
    exists p', f_format p m = Some (p', local_line m) /\ proxy_formatter p'.
Proof.
    intros Hl (Hf & He & Hty & Hc) Hm Ht.
    assert (seconds_of (time m) <> 0%Z) as Hs.
    { rewrite seconds_div by done. assert (1 <= time m / NS_PER_SEC)%Z by (apply Z.div_le_lower_bound; [done|lia]). lia. }
    assert (tm_of localtime gmtime local m = localtime (time m / NS_PER_SEC)%Z) as Htm by (unfold tm_of; by rewrite seconds_div).
    pose proof (proxy_flags_text custom_format m (tm_of localtime gmtime local m) (MkRange 0 0) [] Hm
                  ltac:(rewrite Htm; apply Hl)) as Htext.
    rewrite <- Hf, <- Hty in Htext.
    destruct (format_uncached custom_format localtime gmtime p m _ _ _ _ _ Hc Hs Htext) as (p' & Hp & Hc' & Hf' & Hty' & He').
    exists p'. split; [|split_and!; congruence || done].
    unfold f_format, fmt_inst, pattern_Formatter. rewrite Hp. cbn [mbind option_bind app].
    unfold local_line. by rewrite He, Hty, Htm.
  Qed.

Lemma proxy_pattern_formatter : proxy_formatter (f_clone (f_pattern proxy_pattern)).
Proof. split_and!; [reflexivity|reflexivity|reflexivity|by left]. Qed.

  (** ** One message *)

  (** Opening a log file that is just created leaves it flushed; so does every message. *)
Record ready (base : bytes) (n : nat) (max_size : Z) (id sid : nat) (a : rlog) (st : ST) : Prop := {
    rd_logger : exists t, objs st !! id = Some (MkLogger FC_LOGGER_NAME [sid] info info None t) /\ enabled_ t = false;
    rd_sink : exists s, store (sh st) !! sid = Some (inl s) /\ proxy_formatter (Sinks.formatter_ (rot_base s)) /\
      Sinks.level_ (rot_base s) = trace /\ max_size_ s = max_size /\ sink_holds base n s (disk (sh st)) a;
    rd_flushed : files_ (disk (sh st)) !! R base 0 = Some (current a) }.

Definition enabled (lvl : level_enum) : bool := level_geb lvl info.

Definition request_msg (r : request) (t : Z) : log_msg := MkMsg FC_LOGGER_NAME r.1.2 t this_thread r.1.1 r.2.

Definition valid_msg (m : log_msg) : Prop :=
    msg_ok m = true /\ (NS_PER_SEC <= time m)%Z /\ small (Z.of_nat (length (local_line m))).

Lemma spd_log_disabled id sid base n max_size a loc lvl text st :
    ready base n max_size id sid a st -> enabled lvl = false ->
    exists st', spd_log localtime this_thread id loc lvl text st = Some st' /\ ready base n max_size id sid a st' /\
      clock (sh st') = clock (sh st) /\ disk (sh st') = disk (sh st).
Proof.
    intros [(t & Hl & Ht) Hs Hf] He. unfold spd_log, on_logger. rewrite Hl. cbn [mbind option_bind].
    unfold Logger.log, Logger.should_log. cbn [Logger.level_ tracer_]. unfold enabled in He. rewrite He, Ht.
    cbn [negb andb mbind option_bind]. eexists. split; [done|]. split_and!; [|done|done].
    split; [|exact Hs|exact Hf]. exists t. split; [|done]. cbn [objs]. apply lookup_insert_eq.
  Qed.

Lemma level_trace lvl : level_geb lvl trace = true.
Proof. by destruct lvl. Qed.

Lemma spd_log_enabled id sid base n max_size a loc lvl text st t ts :
    (forall s, tm_ok (localtime s) = true) -> name_ok base ->
    ready base n max_size id sid a st -> enabled lvl = true -> lvl <> off -> clock (sh st) = t :: ts ->
    let m := request_msg (loc, lvl, text) t in
    valid_msg m -> small max_size -> small (Z.of_nat (length (current a))) ->
    exists st', spd_log localtime this_thread id loc lvl text st = Some st' /\
      ready base n max_size id sid (log_line n max_size a (local_line m)) st' /\ clock (sh st') = ts /\
      (forall p, (forall i, i <= n -> p <> R base i) -> files_ (disk (sh st')) !! p = files_ (disk (sh st)) !! p).
Proof.
    intros Hloc Hb [(tr & Hl & Htr) (s & Hs & Hf & Hlev & Hmax & Hh) Hfl] He Hoff Hclk m (Hm & Ht & Hlen) Hsm Hc.
    destruct (proxy_formatter_line _ m Hloc Hf Hm Ht) as (p' & Hline & Hp').
    rewrite <- Hmax in Hsm.
    destruct (sink_it_ok base Hb n s _ a m p' (local_line m) Hh Hline Hsm Hc Hlen)
      as (s1 & w1 & Hr1 & Hh1 & Hf1 & Hm1 & He1).
    assert (Sinks.level_ (rot_base s1) = trace) as Hlev1.
    { pose proof (k_log_level (SinkLaws := rotating_SinkLaws) m s (disk (sh st))) as Hk. cbn [k_log k_level rotating_Sink] in Hk.
      rewrite Hr1 in Hk. cbn in Hk. congruence. }
    destruct (flush_ok base Hb n s1 w1 _ Hh1) as (s2 & w2 & Hr2 & H0 & _ & He2 & Hh2 & Hb2 & Hm2).
    unfold spd_log, on_logger. rewrite Hl. cbn [mbind option_bind].
    unfold Logger.log, Logger.should_log. cbn [Logger.level_ tracer_ name_]. unfold enabled in He. rewrite He.
    cbn [negb andb]. unfold mk_log_msg, now. rewrite Hclk. cbv zeta. fold m.
    change (MkMsg FC_LOGGER_NAME lvl t this_thread loc text) with m.
    unfold log_it_, Logger.sink_it_. cbn [sinks_ sink_loop store]. rewrite Hs. cbn [mbind option_bind k_level sum_Sink rotating_Sink].
    rewrite Hlev, level_trace. unfold try_sink at 1. cbn [store disk]. rewrite Hs. cbn [mbind option_bind k_log sum_Sink rotating_Sink].
    rewrite Hr1. cbn [mbind option_bind]. unfold should_flush_. cbn [flush_level_ msg_level m request_msg fst snd]. rewrite He.
    rewrite (bool_decide_eq_false_2 _ Hoff). cbn [negb andb]. unfold Logger.flush_. cbn [sinks_ flush_sinks].
    unfold try_sink. cbn [store disk]. rewrite lookup_insert_eq. cbn [mbind option_bind k_flush sum_Sink rotating_Sink].
    rewrite Hr2. rewrite Htr. cbn [mbind option_bind]. eexists. split; [done|].
    split_and!; [|done|].
    - split; cbn [objs sh store disk].
      + exists tr. split; [apply lookup_insert_eq|done].
      + exists s2. rewrite Hmax in *. split_and!; [by rewrite lookup_insert_eq|by rewrite Hb2, Hf1|by rewrite Hb2|congruence|].
        congruence || done.
      + by rewrite Hmax in *.
    - intros p Hp. cbn [sh disk]. by rewrite He2, He1.
  Qed.

  (** ** A sequence of messages *)

  (** The messages of requests, with the times the clock gives those that are let through. *)
Fixpoint messages (reqs : list request) (ts : list Z) : list log_msg :=
    match reqs with
    | [] => []
    | r :: reqs =>
        if enabled r.1.2 then
          match ts with t :: ts => request_msg r t :: messages reqs ts | [] => [] end
        else messages reqs ts
    end.

Definition count_enabled (reqs : list request) : nat := length (filter (fun r => enabled r.1.2) reqs).

Lemma log_requests_ok reqs id sid base n max_size a st ts :
    (forall s, tm_ok (localtime s) = true) -> name_ok base -> ready base n max_size id sid a st ->
    clock (sh st) = ts -> count_enabled reqs <= length ts -> Forall (fun r : request => r.1.2 <> off) reqs ->
    Forall valid_msg (messages reqs ts) -> small max_size -> small (Z.of_nat (length (current a))) ->
    exists st', log_requests id reqs st = Some st' /\
      ready base n max_size id sid (foldl (log_line n max_size) a (local_line <$> messages reqs ts)) st' /\
      (forall p, (forall i, i <= n -> p <> R base i) -> files_ (disk (sh st')) !! p = files_ (disk (sh st)) !! p).
Proof.
    intros Hloc Hb Hr Hclk Hcnt Hoff Hv Hm Hc. revert a st ts Hr Hclk Hcnt Hv Hc.
    induction Hoff as [|[[loc lvl] text] reqs Hne _ IH]; intros a st ts Hr Hclk Hcnt Hv Hc; [by exists st|].
    cbn [log_requests messages fst snd] in *. unfold count_enabled in Hcnt. rewrite filter_cons in Hcnt. cbn [fst snd] in Hcnt.
    destruct (enabled lvl) eqn:He.
    - rewrite decide_True in Hcnt by done. destruct ts as [|t ts]; [cbn in Hcnt; lia|].
      apply Forall_cons in Hv as [Hv Hvs].
      destruct (spd_log_enabled id sid base n max_size a loc lvl text st t ts Hloc Hb Hr He Hne Hclk Hv Hm Hc)
        as (st1 & Hst1 & Hr1 & Hclk1 & He1).
      rewrite Hst1. cbn [mbind option_bind fmap list_fmap foldl].
      destruct (IH _ st1 ts Hr1 Hclk1) as (st2 & Hst2 & Hr2 & He2); [exact (le_S_n _ _ Hcnt)|done|by apply log_line_small; [|apply Hv]|].
      exists st2. split_and!; [done|done|]. intros p Hp. by rewrite He2, He1.
    - rewrite decide_False in Hcnt by (by intros []).
      destruct (spd_log_disabled id sid base n max_size a loc lvl text st Hr He) as (st1 & Hst1 & Hr1 & Hclk1 & Hd1).
      rewrite Hst1. cbn [mbind option_bind]. rewrite <- Hd1. apply IH; congruence || done.
  Qed.

  (** ** Making the logger *)

Definition start_spd (color : C) (w : world) (ts : list Z) : ST := new_registry default_formatter (inr color) w ts.

Lemma set_pattern_start color w ts :
    exists color', spd_set_pattern proxy_pattern (start_spd color w ts) =
      MkSpd (MkRegistry {[ [] := 0 ]} ∅ (f_pattern proxy_pattern) info off None None None (Some 0) true 0)
        {[ 0 := new_logger [] [0] ]} (MkShared {[ 0 := inr color' ]} w ts 0 0 [] []).
Proof.
    eexists. unfold spd_set_pattern, reg_set_formatter, start_spd, new_registry, registered. cbn [reg with_reg loggers_].
    rewrite map_to_list_singleton. cbn [foldl with_reg objs]. rewrite lookup_singleton_eq.
    unfold set_formatter. cbn [sinks_ new_logger set_formatter_loop sh store disk clock err_counter last_report_time stderr handled reg objs].
    reflexivity.
  Qed.

Lemma init_logger_ok file base color w ts ar :
    base = c_str file -> name_ok base -> quiet w -> place_ok base logFileBkupNum w ->
    small (Z.of_nat (length (contents (R base 0) w))) ->
    (forall i, i < logFileBkupNum -> files_ w !! R base (S i) = ar !! i) -> length ar <= logFileBkupNum ->
    exists id sid st, init_logger file (start_spd color w ts) = (Ok id, st) /\
      ready base logFileBkupNum (1024 * 1024 * logFileSize) id sid (MkLog ar (contents (R base 0) w)) st /\
      clock (sh st) = ts /\
      (forall p, (forall i, i <= logFileBkupNum -> p <> R base i) -> files_ (disk (sh st)) !! p = files_ w !! p).
Proof.
    intros -> Hb Hq Hp Hc Har Hlen. set (base := c_str file) in *.
    destruct (mk_sink_ok base Hb logFileBkupNum default_formatter (1024 * 1024 * logFileSize) w ar Hq Hp Hc Har Hlen)
      as (s & w' & Hmk & Hh & Hf & Hm & He).
    pose proof (sh_current _ _ _ _ _ Hh) as (dsk & buf & Hhelp & Hd & Hcur).
    unfold init_logger. destruct (set_pattern_start color w ts) as [color' ->].
    unfold rotating_logger_mt, create. cbn [sh disk]. unfold make_sink. fold base. rewrite Hmk.
    cbn [store clock err_counter last_report_time stderr handled reg objs].
    set (sid := fresh (dom {[ 0 := inr color' ]})). set (id := fresh (dom {[ 0 := new_logger [] [0] ]})).
    unfold initialize_logger. cbn [objs]. rewrite lookup_insert_eq. cbn [reg err_handler_ log_levels_ global_log_level_ reg_flush_level_
      backtrace_n_messages_ automatic_registration_ sh objs].
    cbn [Nat.ltb Nat.leb]. unfold register_logger_, name_of. cbn [objs]. rewrite lookup_insert_eq. cbn [fmap option_fmap option_map].
    unfold throw_if_exists_. cbn [reg loggers_]. cbn [Logger.flush_on Logger.set_level name_ new_logger].
    rewrite lookup_singleton_ne by done. eexists _, sid, _. split; [done|]. split_and!; [split| |].
    - exists new_tracer. split; [|done]. cbn [on_objs with_reg objs]. rewrite lookup_alter_eq, lookup_insert_eq. reflexivity.
    - cbn [on_objs with_reg sh set_formatter sinks_ new_logger set_formatter_loop store disk].
      exists (with_base (set_formatter_ (f_clone (f_pattern proxy_pattern)) (rot_base s)) s). rewrite lookup_alter_eq, lookup_insert_eq.
      cbn [fmap option_fmap option_map k_set_formatter sum_Sink rotating_Sink Registry.formatter_].
      split_and!; [done|apply proxy_pattern_formatter| |done|].
      + unfold mk_rotating_file_sink in Hmk. cbn [with_base set_formatter_ Sinks.level_ rot_base].
        repeat case_match; try done. all: cbn [andb] in *; try done. all: by injection Hmk as <- <-.
      + by destruct Hh.
    - cbn [on_objs with_reg sh set_formatter disk]. rewrite Hd.
      destruct (mk_sink_cases default_formatter base (1024 * 1024 * logFileSize) logFileBkupNum w) as [(s' & w2 & Hmk' & Hfd & _)|(e & w2 & Hmk')];
        rewrite Hmk in Hmk'; [|done]. injection Hmk' as <- <-. rewrite Hhelp in Hfd. cbn [fd_] in Hfd.
      assert (buf = []) as -> by congruence. by rewrite app_nil_r in Hcur; rewrite <- Hcur.
    - done.
    - exact He.
  Qed.
End proxy_log.

(** C3: the proxy's logger from end to end: on a disk whose log directory exists, [init]'s calls of
    spdlog make a logger, and after any sequence of messages the log files hold
    what was there and the lines of exactly the messages of level info or higher, each with
    its own local time, milliseconds, thread, level and text, through the rotation of 4 MiB files:
    after every message it is on the disk, nothing but the oldest text is ever lost, and
    no file but the five of the log changes. *)
Theorem proxy_log_correct {Custom C} (custom_format : Custom -> padding_info -> log_msg -> tm -> bytes -> Custom * bytes)
    localtime gmtime pid pattern_now this_thread `{Sink (pattern_formatter Custom) C world} file (color : C) w ts ar reqs :
  let base := c_str file in
  let size := (1024 * 1024 * logFileSize)%Z in
  let msgs := messages this_thread reqs ts in
  let lines := local_line localtime <$> msgs in
  (forall s, tm_ok (localtime s) = true) ->
  name_ok base -> faults w = [] -> place_ok base logFileBkupNum w ->
  small (Z.of_nat (length (contents (R base 0) w))) ->
  (forall i, i < logFileBkupNum -> files_ w !! R base (S i) = ar !! i) -> length ar <= logFileBkupNum ->
  count_enabled reqs <= length ts -> Forall (fun r : request => r.1.2 <> off) reqs -> Forall (valid_msg localtime) msgs ->
  let a0 := MkLog ar (contents (R base 0) w) in
  let a := foldl (log_line logFileBkupNum size) a0 lines in
  exists id st1 st2,
    init_logger custom_format localtime gmtime pid pattern_now file (start_spd color w ts) = (Ok id, st1) /\
    log_requests custom_format localtime gmtime pid pattern_now this_thread id reqs st1 = Some st2 /\
    files_ (disk (sh st2)) !! R base 0 = Some (current a) /\
    (forall i, i < logFileBkupNum -> files_ (disk (sh st2)) !! R base (S i) = archive a !! i) /\
    (exists lost, lost ++ kept a = kept a0 ++ concat lines) /\
    (forall p, (forall i, i <= logFileBkupNum -> p <> R base i) -> files_ (disk (sh st2)) !! p = files_ w !! p).
Proof.
  intros base size msgs lines Hloc Hb Hq Hp Hc Har Hlen Hcnt Hoff Hv a0 a.
  destruct (init_logger_ok custom_format localtime gmtime pid pattern_now file base color w ts ar)
    as (id & sid & st1 & Hi & Hr & Hclk & He1); try done.
  destruct (log_requests_ok custom_format localtime gmtime pid pattern_now this_thread reqs id sid base logFileBkupNum size a0 st1 ts)
    as (st2 & Hst2 & Hr2 & He2); try done.
  exists id, st1, st2. split_and!; [done|done| | | |].
  - by destruct Hr2.
  - destruct Hr2 as [_ (s & _ & _ & _ & _ & Hh) _]. by destruct Hh.
  - apply kept_lines.
  - intros p Hpi. by rewrite He2, He1.
Qed.

#[local] Instance terminal_Sink : Sink (pattern_formatter unit) unit world := {
  k_level _ := trace; k_log _ st := (Ok tt, st); k_flush st := (Ok tt, st); k_set_formatter _ k := k }.

Definition wd_world : world := MkWorld {[ resolve (B "/wd/records/process.log") := [] ]} {[ resolve (B "/wd"); resolve (B "/wd/log") ]} [].

Definition wd_file : bytes := B "/wd//log/fileCacheProxy.log".

Definition demo_requests : list request :=
  [(MkLoc (B "src/fileCacheProxy.cpp") 87 (B "init"), info, B "LOGGER INITIALIZED."); (no_loc, debug, B "hidden");
   (no_loc, err, B "bind")].

Lemma wd_place : place_ok wd_file logFileBkupNum wd_world.
Proof.
  split; [reflexivity|]. intros i Hi. unfold logFileBkupNum in Hi.
  do 5 (destruct i as [|i]; [apply (bool_decide_eq_false_1 (_ ∈ dirs wd_world)); reflexivity|]). lia.
Qed.

Lemma proxy_log_correct_witness :
  exists id st1 st2,
    init_logger (fun (c : unit) _ _ _ d => (c, d)) (fun _ => demo_tm) (fun _ => demo_tm) 1 0 wd_file
      (start_spd tt wd_world [5042000000%Z; 6000000000%Z]) = (Ok id, st1) /\
    log_requests (fun (c : unit) _ _ _ d => (c, d)) (fun _ => demo_tm) (fun _ => demo_tm) 1 0 140 id demo_requests st1 = Some st2 /\
    files_ (disk (sh st2)) !! resolve (B "/wd/log/fileCacheProxy.log") =
      Some (B "[2024-09-04 00:08:07.042][140][info] LOGGER INITIALIZED." ++ [LF] ++
            B "[2024-09-04 00:08:07.000][140][error] bind" ++ [LF]).
Proof.
  destruct (proxy_log_correct (fun (c : unit) _ _ _ d => (c, d)) (fun _ => demo_tm) (fun _ => demo_tm) 1 0 140 wd_file tt
      wd_world [5042000000%Z; 6000000000%Z] [] demo_requests) as (id & st1 & st2 & Hi & Hr & H0 & _).
  - intros _. reflexivity.
  - exists "g"%char. split; reflexivity.
  - reflexivity.
  - apply wd_place.
  - done.
  - intros i Hi. unfold logFileBkupNum in Hi. do 4 (destruct i as [|i]; [reflexivity|]). lia.
  - simpl. lia.
  - apply Nat.leb_le. reflexivity.
  - repeat constructor; done.
  - repeat constructor; done.
  - exists id, st1, st2. split; [exact Hi|]. split; [exact Hr|].
    replace (resolve (B "/wd/log/fileCacheProxy.log")) with (R (c_str wd_file) 0) by (vm_compute; reflexivity).
    rewrite H0. vm_compute. reflexivity.
Defined.
