(* ===== verification/JsonLexer.v ===== *)
(** * Reading JSON: the lexer of [include/json.hpp]

    [detail::lexer] on a byte sequence: the input with one character of push-back, positions,
    the token text kept for messages, the scanners for strings, numbers, literals, comments and
    white space.  [tables] of characters are the cases of the source's switches.  The loops run
    on fuel, which [JsonParser] bounds by the length of the input. *)
From S2P Require Import Prelude CLib Json.
From Stdlib Require Import SpecFloat.

(** ** [strtoull], [strtoll] and [strtod] on the texts the scanner builds *)

(** An optional minus sign and digits: the value, and whether [errno] becomes [ERANGE]. *)
Definition signed_value (s : bytes) : Z :=
  match s with
  | c :: s' => if c =c "-"%char then (- dec_value 0 (take_while isdigit s'))%Z else dec_value 0 (take_while isdigit s)
  | [] => 0%Z
  end.

Definition strtoull (s : bytes) : Z * bool :=
  let v := signed_value s in (Z.min v (2 ^ 64 - 1), (2 ^ 64 <=? v)%Z).
Definition strtoll (s : bytes) : Z * bool :=
  let v := signed_value s in (clamp_long v, (v <? LONG_MIN)%Z || (LONG_MAX <? v)%Z).

(** Decimal floating point texts, correctly rounded to binary64. *)
Definition binary64_of (neg : bool) (m e10 : Z) : spec_float :=
  match m with
  | Zpos p =>
      if (0 <=? e10)%Z then
        match (m * 10 ^ e10)%Z with Zpos q => binary_round 53 1024 neg q 0 | _ => S754_zero neg end
      else
        let '(q, e, loc) := SFdiv_core_binary 53 1024 m 0 (10 ^ (- e10)) 0 in binary_round_aux 53 1024 neg q e loc
  | _ => S754_zero neg
  end.

Definition strtod (s : bytes) : spec_float :=
  let '(neg, s) := match s with c :: s' => if c =c "-"%char then (true, s') else (false, s) | [] => (false, []) end in
  let int := take_while isdigit s in
  let s := drop_while isdigit s in
  let '(frac, s) :=
    match s with
    | c :: s' => if c =c "."%char then (take_while isdigit s', drop_while isdigit s') else ([], s)
    | [] => ([], [])
    end in
  let e :=
    match s with
    | c :: s' =>
        if (c =c "e"%char) || (c =c "E"%char) then
          match s' with
          | d :: s'' => if d =c "+"%char then signed_value s'' else signed_value s'
          | [] => 0%Z
          end
        else 0%Z
    | [] => 0%Z
    end in
  binary64_of neg (dec_value 0 (int ++ frac)) (e - Z.of_nat (length frac)).

Definition isfinite (x : spec_float) : bool :=
  match x with S754_zero _ | S754_finite _ _ _ => true | _ => false end.

(** ** [lexer_base] and the state of the lexer *)

Inductive token_type :=
  | uninitialized | literal_true | literal_false | literal_null | value_string | value_unsigned
  | value_integer | value_float | begin_array | begin_object | end_array | end_object | name_separator
  | value_separator | parse_error | end_of_input | literal_or_value.

#[export] Instance token_type_eq_dec : EqDecision token_type.
Proof. solve_decision. Defined.

Definition token_type_name (t : token_type) : bytes :=
  match t with
  | uninitialized => B "<uninitialized>"
  | literal_true => B "true literal"
  | literal_false => B "false literal"
  | literal_null => B "null literal"
  | value_string => B "string literal"
  | value_unsigned | value_integer | value_float => B "number literal"
  | begin_array => B "'['"
  | begin_object => B "'{'"
  | end_array => B "']'"
  | end_object => B "'}'"
  | name_separator => B "':'"
  | value_separator => B "','"
  | parse_error => B "<parse error>"
  | end_of_input => B "end of input"
  | literal_or_value => B "'[', '{', or a literal"
  end.

(** Positions count characters of a text in memory, so the [size_t] counters do not wrap. *)
Record position_t := MkPos { chars_read_total : nat; chars_read_current_line : nat; lines_read : nat }.

(** [ia] is what the input adapter has not delivered; [get_number_*] read the three numbers. *)
Record lexer := MkLexer {
  ia : bytes; current : Z; next_unget : bool; position : position_t; token_string : bytes;
  token_buffer : bytes; error_message : bytes;
  num_integer : Z; num_unsigned : Z; num_float : spec_float }.

Definition EOF : Z := -1.

Definition mk_lexer (input : bytes) : lexer :=
  MkLexer input EOF false (MkPos 0 0 0) [] [] [] 0 0 (S754_zero false).

Definition with_error (msg : bytes) (l : lexer) : lexer :=
  MkLexer (ia l) (current l) (next_unget l) (position l) (token_string l) (token_buffer l) msg
    (num_integer l) (num_unsigned l) (num_float l).
Definition with_buffer (buf : bytes) (l : lexer) : lexer :=
  MkLexer (ia l) (current l) (next_unget l) (position l) (token_string l) buf (error_message l)
    (num_integer l) (num_unsigned l) (num_float l).
Definition with_numbers (i u : Z) (f : spec_float) (l : lexer) : lexer :=
  MkLexer (ia l) (current l) (next_unget l) (position l) (token_string l) (token_buffer l) (error_message l) i u f.

(** [to_char_type]: the conversion of an [int] to [char]. *)
Definition to_char (c : Z) : ascii := chr (c `mod` 256).

(** [iterator_input_adapter::get_character]: the character and what is left. *)
Definition get_character (input : bytes) : Z * bytes :=
  match input with [] => (EOF, []) | c :: r => (code c, r) end.

Definition reset (l : lexer) : lexer :=
  MkLexer (ia l) (current l) (next_unget l) (position l) [to_char (current l)] [] (error_message l)
    (num_integer l) (num_unsigned l) (num_float l).

(** The character read is [current] afterwards. *)
Definition get (l : lexer) : lexer :=
  let p := position l in
  let p := MkPos (S (chars_read_total p)) (S (chars_read_current_line p)) (lines_read p) in
  let '(c, r) := if next_unget l then (current l, ia l) else get_character (ia l) in
  let ts := if (c =? EOF)%Z then token_string l else token_string l ++ [to_char c] in
  let p := if (c =? 10)%Z then MkPos (chars_read_total p) 0 (S (lines_read p)) else p in
  MkLexer r c false p ts (token_buffer l) (error_message l) (num_integer l) (num_unsigned l) (num_float l).

Definition unget (l : lexer) : lexer :=
  let p := position l in
  let p :=
    match chars_read_current_line p with
    | 0 => MkPos (pred (chars_read_total p)) 0 (pred (lines_read p))
    | S n => MkPos (pred (chars_read_total p)) n (lines_read p)
    end in
  let ts := if (current l =? EOF)%Z then token_string l else take (pred (length (token_string l))) (token_string l) in
  MkLexer (ia l) (current l) true p ts (token_buffer l) (error_message l) (num_integer l) (num_unsigned l) (num_float l).

Definition add (c : Z) (l : lexer) : lexer := with_buffer (token_buffer l ++ [to_char c]) l.

(** What a scanner returns on an error. *)
Definition fail (msg : bytes) (l : lexer) : token_type * lexer := (parse_error, with_error msg l).

(** ** Strings *)

Definition hex_digit (c : Z) : option Z :=
  (if (48 <=? c) && (c <=? 57) then Some (c - 0x30)
   else if (65 <=? c) && (c <=? 70) then Some (c - 0x37)
   else if (97 <=? c) && (c <=? 102) then Some (c - 0x57)
   else None)%Z.

(** The loop over the shift counts of [get_codepoint]. *)
Fixpoint get_codepoint_loop (factors : list Z) (codepoint : Z) (l : lexer) : Z * lexer :=
  match factors with
  | [] => (codepoint, l)
  | factor :: factors =>
      let l := get l in
      match hex_digit (current l) with
      | Some d => get_codepoint_loop factors (codepoint + Z.shiftl d factor) l
      | None => ((-1)%Z, l)
      end
  end.

Definition get_codepoint : lexer -> Z * lexer := get_codepoint_loop [12; 8; 4; 0]%Z 0.

Fixpoint bytes_in_ranges (ranges : list (Z * Z)) (l : lexer) : bool * lexer :=
  match ranges with
  | [] => (true, l)
  | (lo, hi) :: ranges =>
      let l := get l in
      if (lo <=? current l)%Z && (current l <=? hi)%Z then bytes_in_ranges ranges (add (current l) l)
      else (false, with_error (B "invalid string: ill-formed UTF-8 byte") l)
  end.

Definition next_byte_in_range (ranges : list (Z * Z)) (l : lexer) : bool * lexer :=
  bytes_in_ranges ranges (add (current l) l).

(** The bytes a code point is translated into. *)
Definition utf8_bytes (cp : Z) : list Z :=
  (if cp <? 0x80 then [cp]
   else if cp <=? 0x7FF then
     [Z.lor 0xC0 (Z.shiftr cp 6); Z.lor 0x80 (Z.land cp 0x3F)]
   else if cp <=? 0xFFFF then
     [Z.lor 0xE0 (Z.shiftr cp 12); Z.lor 0x80 (Z.land (Z.shiftr cp 6) 0x3F); Z.lor 0x80 (Z.land cp 0x3F)]
   else
     [Z.lor 0xF0 (Z.shiftr cp 18); Z.lor 0x80 (Z.land (Z.shiftr cp 12) 0x3F);
      Z.lor 0x80 (Z.land (Z.shiftr cp 6) 0x3F); Z.lor 0x80 (Z.land cp 0x3F)])%Z.

Definition add_codepoint (cp : Z) (l : lexer) : lexer := foldl (fun l c => add c l) l (utf8_bytes cp).

Definition bad_hex : bytes := B "invalid string: '\u' must be followed by 4 hex digits".
Definition bad_high : bytes := B "invalid string: surrogate U+D800..U+DBFF must be followed by U+DC00..U+DFFF".
Definition bad_low : bytes := B "invalid string: surrogate U+DC00..U+DFFF must follow U+D800..U+DBFF".

(** The case ['u'] of an escape: whether the scan goes on. *)
Definition scan_unicode (l : lexer) : bool * lexer :=
  let '(codepoint1, l) := get_codepoint l in
  if (codepoint1 =? -1)%Z then (false, with_error bad_hex l)
  else if (0xD800 <=? codepoint1)%Z && (codepoint1 <=? 0xDBFF)%Z then
    let l := get l in
    if negb (current l =? 92)%Z then (false, with_error bad_high l)
    else
      let l := get l in
      if negb (current l =? 117)%Z then (false, with_error bad_high l)
      else
        let '(codepoint2, l) := get_codepoint l in
        if (codepoint2 =? -1)%Z then (false, with_error bad_hex l)
        else if (0xDC00 <=? codepoint2)%Z && (codepoint2 <=? 0xDFFF)%Z then
          (true, add_codepoint (u32 (Z.shiftl codepoint1 10 + codepoint2 - 0x35FDC00)) l)
        else (false, with_error bad_high l)
  else if (0xDC00 <=? codepoint1)%Z && (codepoint1 <=? 0xDFFF)%Z then (false, with_error bad_low l)
  else (true, add_codepoint codepoint1 l).

(** The escapes of one character. *)
Definition escape_table : list (ascii * Z) :=
  [(DQUOTE, 34); ("\"%char, 92); ("/"%char, 47); ("b"%char, 8); ("f"%char, 12); ("n"%char, 10);
   ("r"%char, 13); ("t"%char, 9)]%Z.

Definition lookup_escape (c : Z) : option Z :=
  snd <$> find (fun e => (code (fst e) =? c)%Z) escape_table.

(** What follows a backslash. *)
Definition scan_escape (l : lexer) : bool * lexer :=
  let l := get l in
  match lookup_escape (current l) with
  | Some c => (true, add c l)
  | None =>
      if (current l =? 117)%Z then scan_unicode l
      else (false, with_error (B "invalid string: forbidden character after backslash") l)
  end.

(** The control characters, with how their messages name them and their escapes. *)
Definition control_names : list bytes :=
  [B "0000 (NUL) must be escaped to \u0000"; B "0001 (SOH) must be escaped to \u0001"; B "0002 (STX) must be escaped to \u0002";
   B "0003 (ETX) must be escaped to \u0003"; B "0004 (EOT) must be escaped to \u0004"; B "0005 (ENQ) must be escaped to \u0005";
   B "0006 (ACK) must be escaped to \u0006"; B "0007 (BEL) must be escaped to \u0007"; B "0008 (BS) must be escaped to \u0008 or \b";
   B "0009 (HT) must be escaped to \u0009 or \t"; B "000A (LF) must be escaped to \u000A or \n"; B "000B (VT) must be escaped to \u000B";
   B "000C (FF) must be escaped to \u000C or \f"; B "000D (CR) must be escaped to \u000D or \r"; B "000E (SO) must be escaped to \u000E";
   B "000F (SI) must be escaped to \u000F"; B "0010 (DLE) must be escaped to \u0010"; B "0011 (DC1) must be escaped to \u0011";
   B "0012 (DC2) must be escaped to \u0012"; B "0013 (DC3) must be escaped to \u0013"; B "0014 (DC4) must be escaped to \u0014";
   B "0015 (NAK) must be escaped to \u0015"; B "0016 (SYN) must be escaped to \u0016"; B "0017 (ETB) must be escaped to \u0017";
   B "0018 (CAN) must be escaped to \u0018"; B "0019 (EM) must be escaped to \u0019"; B "001A (SUB) must be escaped to \u001A";
   B "001B (ESC) must be escaped to \u001B"; B "001C (FS) must be escaped to \u001C"; B "001D (GS) must be escaped to \u001D";
   B "001E (RS) must be escaped to \u001E"; B "001F (US) must be escaped to \u001F"].

Definition control_message (c : Z) : bytes := B "invalid string: control character U+" ++ nth (Z.to_nat c) control_names [].

(** The bytes that follow a first byte from 128 on; [None] is the default case. *)
Definition lead_ranges (c : Z) : option (list (Z * Z)) :=
  (if (0xC2 <=? c) && (c <=? 0xDF) then Some [(0x80, 0xBF)]
   else if c =? 0xE0 then Some [(0xA0, 0xBF); (0x80, 0xBF)]
   else if (0xE1 <=? c) && (c <=? 0xEC) || (c =? 0xEE) || (c =? 0xEF) then Some [(0x80, 0xBF); (0x80, 0xBF)]
   else if c =? 0xED then Some [(0x80, 0x9F); (0x80, 0xBF)]
   else if c =? 0xF0 then Some [(0x90, 0xBF); (0x80, 0xBF); (0x80, 0xBF)]
   else if (0xF1 <=? c) && (c <=? 0xF3) then Some [(0x80, 0xBF); (0x80, 0xBF); (0x80, 0xBF)]
   else if c =? 0xF4 then Some [(0x80, 0x8F); (0x80, 0xBF); (0x80, 0xBF)]
   else None)%Z.

(** The loop of [scan_string]. *)
Fixpoint scan_string_loop (fuel : nat) (l : lexer) : option (token_type * lexer) :=
  match fuel with
  | 0 => None
  | S fuel =>
      let l := get l in
      let c := current l in
      if (c =? EOF)%Z then Some (fail (B "invalid string: missing closing quote") l)
      else if (c =? 34)%Z then Some (value_string, l)
      else if (c =? 92)%Z then
        let '(ok, l) := scan_escape l in
        if ok then scan_string_loop fuel l else Some (parse_error, l)
      else if (c <=? 0x1F)%Z then Some (fail (control_message c) l)
      else if (c <=? 0x7F)%Z then scan_string_loop fuel (add c l)
      else
        match lead_ranges c with
        | Some ranges =>
            let '(ok, l) := next_byte_in_range ranges l in
            if ok then scan_string_loop fuel l else Some (parse_error, l)
        | None => Some (fail (B "invalid string: ill-formed UTF-8 byte") l)
        end
  end.

Definition scan_string (fuel : nat) (l : lexer) : option (token_type * lexer) := scan_string_loop fuel (reset l).

(** ** Comments *)

Fixpoint line_comment (fuel : nat) (l : lexer) : option (bool * lexer) :=
  match fuel with
  | 0 => None
  | S fuel =>
      let l := get l in
      if existsb (Z.eqb (current l)) [10; 13; EOF; 0]%Z then Some (true, l) else line_comment fuel l
  end.

Fixpoint block_comment (fuel : nat) (l : lexer) : option (bool * lexer) :=
  match fuel with
  | 0 => None
  | S fuel =>
      let l := get l in
      if (current l =? EOF)%Z || (current l =? 0)%Z then
        Some (false, with_error (B "invalid comment; missing closing '*/'") l)
      else if (current l =? 42)%Z then
        let l := get l in
        if (current l =? 47)%Z then Some (true, l) else block_comment fuel (unget l)
      else block_comment fuel l
  end.

Definition scan_comment (fuel : nat) (l : lexer) : option (bool * lexer) :=
  let l := get l in
  if (current l =? 47)%Z then line_comment fuel l
  else if (current l =? 42)%Z then block_comment fuel l
  else Some (false, with_error (B "invalid comment; expecting '/' or '*' after '/'") l).

(** ** Numbers: the labels of [scan_number] and where they go on a character *)

Inductive number_label := Lminus | Lzero | Lany1 | Ldecimal1 | Ldecimal2 | Lexponent | Lsign | Lany2 | Ldone.

Definition is_digit (c : Z) : bool := (48 <=? c)%Z && (c <=? 57)%Z.
Definition is_exp (c : Z) : bool := (c =? 101)%Z || (c =? 69)%Z.

(** [inl] is the message of an error. *)
Definition number_goto (label : number_label) (c : Z) : bytes + number_label :=
  match label with
  | Lminus =>
      if (c =? 48)%Z then inr Lzero else if is_digit c then inr Lany1 else inl (B "invalid number; expected digit after '-'")
  | Lzero => if (c =? 46)%Z then inr Ldecimal1 else if is_exp c then inr Lexponent else inr Ldone
  | Lany1 =>
      if is_digit c then inr Lany1 else if (c =? 46)%Z then inr Ldecimal1 else if is_exp c then inr Lexponent else inr Ldone
  | Ldecimal1 => if is_digit c then inr Ldecimal2 else inl (B "invalid number; expected digit after '.'")
  | Ldecimal2 => if is_digit c then inr Ldecimal2 else if is_exp c then inr Lexponent else inr Ldone
  | Lexponent =>
      if (c =? 43)%Z || (c =? 45)%Z then inr Lsign else if is_digit c then inr Lany2
      else inl (B "invalid number; expected '+', '-', or digit after exponent")
  | Lsign => if is_digit c then inr Lany2 else inl (B "invalid number; expected digit after exponent sign")
  | Lany2 => if is_digit c then inr Lany2 else inr Ldone
  | Ldone => inr Ldone
  end.

(** The assignments to [number_type] at the labels. *)
Definition number_type_at (label : number_label) (t : token_type) : token_type :=
  match label with Lminus => value_integer | Ldecimal1 | Lexponent => value_float | _ => t end.

Fixpoint scan_number_loop (fuel : nat) (label : number_label) (number_type : token_type) (l : lexer)
    : option (option token_type * lexer) :=
  match fuel with
  | 0 => None
  | S fuel =>
      let number_type := number_type_at label number_type in
      let l := get l in
      match number_goto label (current l) with
      | inl msg => Some (None, with_error msg l)
      | inr Ldone => Some (Some number_type, l)
      | inr label => scan_number_loop fuel label number_type (add (current l) l)
      end
  end.

(** From the label [scan_number_done] on. *)
Definition scan_number_done (number_type : token_type) (l : lexer) : token_type * lexer :=
  let l := unget l in
  let to_float := (value_float, with_numbers (num_integer l) (num_unsigned l) (strtod (token_buffer l)) l) in
  match number_type with
  | value_unsigned =>
      let '(x, erange) := strtoull (token_buffer l) in
      if negb erange then (value_unsigned, with_numbers (num_integer l) x (num_float l) l) else to_float
  | value_integer =>
      let '(x, erange) := strtoll (token_buffer l) in
      if negb erange then (value_integer, with_numbers x (num_unsigned l) (num_float l) l) else to_float
  | _ => to_float
  end.

(** [current] is a minus sign or a digit. *)
Definition scan_number (fuel : nat) (l : lexer) : option (token_type * lexer) :=
  let l := reset l in
  let label := if (current l =? 45)%Z then Lminus else if (current l =? 48)%Z then Lzero else Lany1 in
  '(t, l) ← scan_number_loop fuel label value_unsigned (add (current l) l);
  match t with
  | Some t => Some (scan_number_done t l)
  | None => Some (parse_error, l)
  end.

(** ** Literals, white space, the scanner *)

Fixpoint scan_literal_loop (text : bytes) (return_type : token_type) (l : lexer) : token_type * lexer :=
  match text with
  | [] => (return_type, l)
  | c :: text =>
      let l := get l in
      if negb (to_char (current l) =c c) then fail (B "invalid literal") l else scan_literal_loop text return_type l
  end.

(** The first character of the literal is [current]. *)
Definition scan_literal (text : bytes) (return_type : token_type) (l : lexer) : token_type * lexer :=
  scan_literal_loop (drop 1 text) return_type l.

Definition skip_bom (l : lexer) : bool * lexer :=
  let l := get l in
  if (current l =? 0xEF)%Z then
    let l := get l in
    if (current l =? 0xBB)%Z then let l := get l in ((current l =? 0xBF)%Z, l) else (false, l)
  else (true, unget l).

Fixpoint skip_whitespace (fuel : nat) (l : lexer) : option lexer :=
  match fuel with
  | 0 => None
  | S fuel =>
      let l := get l in
      if existsb (Z.eqb (current l)) [32; 9; 10; 13]%Z then skip_whitespace fuel l else Some l
  end.

(** The loop that ignores comments; [inl] is the parse error of an unfinished comment. *)
Fixpoint skip_comments (fuel : nat) (l : lexer) : option (lexer + lexer) :=
  match fuel with
  | 0 => None
  | S fuel' =>
      if (current l =? 47)%Z then
        '(ok, l) ← scan_comment fuel l;
        if negb (ok : bool) then Some (inl l) else l ← skip_whitespace fuel l; skip_comments fuel' l
      else Some (inr l)
  end.

(** The switch of [scan]. *)
Definition scan_token (fuel : nat) (l : lexer) : option (token_type * lexer) :=
  let c := current l in
  (if c =? 91 then Some (begin_array, l)
   else if c =? 93 then Some (end_array, l)
   else if c =? 123 then Some (begin_object, l)
   else if c =? 125 then Some (end_object, l)
   else if c =? 58 then Some (name_separator, l)
   else if c =? 44 then Some (value_separator, l)
   else if c =? 116 then Some (scan_literal (B "true") literal_true l)
   else if c =? 102 then Some (scan_literal (B "false") literal_false l)
   else if c =? 110 then Some (scan_literal (B "null") literal_null l)
   else if c =? 34 then scan_string fuel l
   else if (c =? 45) || is_digit c then scan_number fuel l
   else if (c =? 0) || (c =? EOF) then Some (end_of_input, l)
   else Some (fail (B "invalid literal") l))%Z.

Definition scan (ignore_comments : bool) (fuel : nat) (l : lexer) : option (token_type * lexer) :=
  let '(ok, l) := if (chars_read_total (position l) =? 0)%nat then skip_bom l else (true, l) in
  if negb ok then Some (fail (B "invalid BOM; must be 0xEF 0xBB 0xBF if given") l)
  else
    l ← skip_whitespace fuel l;
    r ← (if ignore_comments then skip_comments fuel l else Some (inr l));
    match r with
    | inl l => Some (parse_error, l)
    | inr l => scan_token fuel l
    end.

(** [get_token_string]: the token with its control characters spelled out. *)
Definition hex_upper (d : Z) : ascii := if (d <? 10)%Z then chr (d + 48) else chr (d + 55).

Definition get_token_string (l : lexer) : bytes :=
  concat ((fun c => if (code c <=? 0x1F)%Z then B "<U+00" ++ [hex_upper (code c / 16); hex_upper (code c `mod` 16)] ++ B ">" else [c])
    <$> token_string l).

(** ** The text that is still to be read, and how the scanners consume it *)

(** The characters the next calls of [get] deliver. *)
Definition rest (l : lexer) : bytes :=
  if next_unget l then (if (current l =? EOF)%Z then ia l else to_char (current l) :: ia l) else ia l.

Definition total (l : lexer) : nat := chars_read_total (position l).

(** The current character is one, or the end of the input, which stays reached. *)
Definition at_end (l : lexer) : Prop := current l = EOF /\ ia l = [].
Definition at_char (l : lexer) : Prop := (0 <= current l < 256)%Z.
Definition lexer_ok (l : lexer) : Prop := next_unget l = true -> at_end l \/ at_char l.
Definition just_read (l : lexer) : Prop := next_unget l = false /\ (at_end l \/ at_char l).

Lemma to_char_code c : to_char (code c) = c.
Proof. unfold to_char. rewrite Z.mod_small by apply code_range. apply chr_code. Qed.

Lemma just_read_ok l : just_read l -> lexer_ok l.
Proof. intros [Hu _] H. congruence. Qed.

Lemma code_not_eof c : (code c =? EOF)%Z = false.
Proof. pose proof (code_range c). unfold EOF. apply Z.eqb_neq. lia. Qed.

(** What a step leaves alone. *)
Definition same_tokens (l l' : lexer) : Prop :=
  token_buffer l' = token_buffer l /\ num_integer l' = num_integer l /\ num_unsigned l' = num_unsigned l /\
  num_float l' = num_float l.

(** What [get] takes from the pushed-back character or from the input. *)
Lemma get_taken l :
  lexer_ok l ->
  (if next_unget l then (current l, ia l) else get_character (ia l)) =
    match rest l with [] => (EOF, []) | c :: r => (code c, r) end.
Proof.
  unfold lexer_ok, rest. intros Hok. destruct (next_unget l); [|by destruct (ia l)].
  destruct (current l =? EOF)%Z eqn:He; to_prop.
  - destruct (Hok eq_refl) as [[-> ->]|Hc]; [done|]. unfold at_char, EOF in *. lia.
  - destruct (Hok eq_refl) as [[? _]|Hc]; [done|]. unfold to_char. rewrite Z.mod_small by done. by rewrite code_chr.
Qed.

Lemma get_char c r l :
  lexer_ok l -> rest l = c :: r ->
  current (get l) = code c /\ rest (get l) = r /\ just_read (get l) /\ same_tokens l (get l) /\ total (get l) = S (total l).
Proof.
  intros Hok Hr. pose proof (get_taken l Hok) as Ht. rewrite Hr in Ht. unfold get. rewrite Ht.
  pose proof (code_range c). unfold rest, just_read, same_tokens, at_char, total.
  destruct (code c =? 10)%Z; cbn; split_and!; auto.
Qed.

Lemma get_end l :
  lexer_ok l -> rest l = [] ->
  current (get l) = EOF /\ rest (get l) = [] /\ just_read (get l) /\ same_tokens l (get l) /\ total (get l) = S (total l).
Proof.
  intros Hok Hr. pose proof (get_taken l Hok) as Ht. rewrite Hr in Ht. unfold get. rewrite Ht.
  unfold rest, just_read, same_tokens, at_end, total. cbn. split_and!; auto.
Qed.

(** The character just read is put back. *)
Lemma unget_spec l :
  just_read l -> 0 < total l ->
  rest (unget l) = (if (current l =? EOF)%Z then [] else to_char (current l) :: rest l) /\
  lexer_ok (unget l) /\ same_tokens l (unget l) /\ S (total (unget l)) = total l.
Proof.
  intros [Hu Hc] Ht. unfold unget, rest, lexer_ok, same_tokens, total in *. cbn. rewrite Hu. split_and!; auto.
  - destruct (current l =? EOF)%Z eqn:He; to_prop; [|done]. destruct Hc as [[_ ->]|Hc]; [done|]. unfold at_char, EOF in *. lia.
  - destruct (chars_read_current_line (position l)); cbn; lia.
Qed.

(** ** Every scanner stays in the input and reads on *)

(** [l'] is a state of the lexer after reading from [l]. *)
Definition advances (l l' : lexer) : Prop :=
  lexer_ok l' /\ length (rest l') <= length (rest l) /\ total l <= total l'.

Lemma advances_trans l l' l'' : advances l l' -> advances l' l'' -> advances l l''.
Proof. unfold advances. intuition lia. Qed.

Lemma get_spec l :
  lexer_ok l ->
  just_read (get l) /\ advances l (get l) /\ same_tokens l (get l) /\ total (get l) = S (total l) /\
  ((current (get l) = EOF /\ rest l = [] /\ rest (get l) = []) \/
   (exists c, current (get l) = code c /\ rest l = c :: rest (get l))).
Proof.
  intros Hok. unfold advances. destruct (rest l) as [|c r] eqn:Hr.
  - destruct (get_end l Hok Hr) as (? & Hr' & ? & ? & ?). rewrite Hr'. split_and!; auto using just_read_ok; lia.
  - destruct (get_char c r l Hok Hr) as (? & Hr' & ? & ? & ?). rewrite Hr'. cbn [length].
    split_and!; eauto using just_read_ok; lia.
Qed.

Lemma advances_refl l : lexer_ok l -> advances l l.
Proof. unfold advances. auto. Qed.

Lemma get_advances l : lexer_ok l -> advances l (get l).
Proof. intros Hok. by destruct (get_spec l Hok) as (_ & ? & _). Qed.

Lemma advances_ok l l' : advances l l' -> lexer_ok l'.
Proof. by intros [? _]. Qed.

#[local] Hint Resolve advances_refl advances_trans get_advances advances_ok just_read_ok : lex.

(** Reading a character that is not the end of the input makes the input shorter. *)
Lemma get_shorter l l' :
  lexer_ok l -> advances (get l) l' -> current (get l) <> EOF -> advances l l' /\ length (rest l') < length (rest l).
Proof.
  intros Hok Ha Hc. destruct (get_spec l Hok) as (_ & Hadv & _ & _ & [(? & _)|(c & _ & Hr)]); [done|].
  split; [eauto with lex|]. rewrite Hr. destruct Ha as (_ & ? & _). simpl. lia.
Qed.

Lemma get_codepoint_advances fs cp l : lexer_ok l -> advances l (snd (get_codepoint_loop fs cp l)).
Proof.
  revert cp l. induction fs as [|f fs IH]; intros cp l Hok; cbn [get_codepoint_loop]; [by apply advances_refl|].
  pose proof (get_advances l Hok). destruct (hex_digit _); cbn [snd]; eauto with lex.
Qed.

Lemma bytes_in_ranges_advances rs l : lexer_ok l -> advances l (snd (bytes_in_ranges rs l)).
Proof.
  revert l. induction rs as [|[lo hi] rs IH]; intros l Hok; cbn [bytes_in_ranges]; [by apply advances_refl|].
  pose proof (get_advances l Hok) as Ha. case_match; cbn [snd]; [|done].
  apply (advances_trans _ _ _ Ha), (IH (add _ _)). eauto with lex.
Qed.

Lemma add_codepoint_state cp l :
  exists buf, add_codepoint cp l = with_buffer buf l /\ buf = token_buffer l ++ (to_char <$> utf8_bytes cp).
Proof.
  unfold add_codepoint. generalize (utf8_bytes cp) as cs. intros cs. revert l.
  induction cs as [|c cs IH]; intros l; [eexists; split; [|done]; destruct l; cbn; by rewrite app_nil_r|].
  cbn [foldl]. destruct (IH (add c l)) as (buf & -> & ->). eexists. split; [reflexivity|].
  cbn. by rewrite <- app_assoc.
Qed.

Lemma add_codepoint_advances cp l l' : advances l l' -> advances l (add_codepoint cp l').
Proof. destruct (add_codepoint_state cp l') as (buf & -> & _). done. Qed.

Lemma scan_unicode_advances l : lexer_ok l -> advances l (snd (scan_unicode l)).
Proof.
  intros Hok. unfold scan_unicode, get_codepoint.
  pose proof (get_codepoint_advances [12; 8; 4; 0]%Z 0 l Hok) as H1.
  destruct (get_codepoint_loop _ _ l) as [cp1 l1]. cbn [snd] in H1.
  assert (advances l (get l1)) as H2 by eauto with lex. assert (advances l (get (get l1))) as H3 by eauto with lex.
  pose proof (get_codepoint_advances [12; 8; 4; 0]%Z 0 (get (get l1)) (advances_ok _ _ H3)) as H4.
  destruct (get_codepoint_loop _ _ (get (get l1))) as [cp2 l2]. cbn [snd] in H4.
  repeat case_test; cbn [snd]; (exact H1 || exact H2 || exact H3 || idtac);
    try apply add_codepoint_advances; first [exact H1|exact (advances_trans _ _ _ H3 H4)].
Qed.

Lemma scan_escape_advances l : lexer_ok l -> advances l (snd (scan_escape l)).
Proof.
  intros Hok. unfold scan_escape. pose proof (get_advances l Hok) as Ha.
  destruct (lookup_escape _); cbn [snd]; [exact Ha|]. case_test; [|exact Ha].
  eapply advances_trans; [exact Ha|]. apply scan_unicode_advances. eauto with lex.
Qed.

(** A total scanner: with fuel for the rest of the input it ends, having read on. *)
Definition scans {A} (l : lexer) (r : option (A * lexer)) : Prop := exists a l', r = Some (a, l') /\ advances l l'.

Lemma scans_more {A} l l' (r : option (A * lexer)) : advances l l' -> scans l' r -> scans l r.
Proof. intros Ha (a & l2 & -> & H2). exists a, l2. eauto with lex. Qed.

Lemma scan_string_loop_scans fuel l : lexer_ok l -> length (rest l) < fuel -> scans l (scan_string_loop fuel l).
Proof.
  revert l. induction fuel as [|fuel IH]; intros l Hok Hf; [lia|]. cbn [scan_string_loop].
  pose proof (get_advances l Hok) as Ha. destruct (current (get l) =? EOF)%Z eqn:He; [by do 2 eexists|]. to_prop.
  assert (forall l', advances (get l) l' -> scans l (scan_string_loop fuel l')) as Hgo.
  { intros l' Hl'. destruct (get_shorter l l' Hok Hl' He) as [? ?]. apply (scans_more l l'); [done|].
    apply IH; [eauto with lex|lia]. }
  assert (lexer_ok (get l)) as Hok1 by eauto with lex.
  case_test; [by do 2 eexists|]. case_test.
  { pose proof (scan_escape_advances _ Hok1) as Hs. destruct (scan_escape (get l)) as [[] l2]; [by apply Hgo|].
    do 2 eexists. split; [done|]. eauto with lex. }
  case_test; [by do 2 eexists|]. case_test; [by apply Hgo, (advances_refl (get l))|].
  destruct (lead_ranges _) as [rs|]; [|by do 2 eexists].
  pose proof (bytes_in_ranges_advances rs (add (current (get l)) (get l)) Hok1) as Hs. unfold next_byte_in_range.
  destruct (bytes_in_ranges _ _) as [[] l2]; [by apply Hgo|]. do 2 eexists. split; [done|].
  eapply advances_trans; [exact Ha|exact Hs].
Qed.

Lemma line_comment_scans fuel l : lexer_ok l -> length (rest l) < fuel -> scans l (line_comment fuel l).
Proof.
  revert l. induction fuel as [|fuel IH]; intros l Hok Hf; [lia|]. cbn [line_comment].
  pose proof (get_advances l Hok) as Ha. destruct (existsb _ _) eqn:He; [by do 2 eexists|].
  assert (current (get l) <> EOF) as Hc by (intros Heq; rewrite Heq in He; done).
  destruct (get_shorter l (get l) Hok) as [? ?]; [eauto with lex|done|].
  eapply scans_more; [done|]. apply IH; [eauto with lex|lia].
Qed.

Lemma block_comment_scans fuel l : lexer_ok l -> length (rest l) < fuel -> scans l (block_comment fuel l).
Proof.
  revert l. induction fuel as [|fuel IH]; intros l Hok Hf; [lia|]. cbn [block_comment].
  pose proof (get_advances l Hok) as Ha. assert (lexer_ok (get l)) as Hok1 by eauto with lex.
  destruct (_ || _) eqn:He; [by do 2 eexists|]. to_prop.
  assert (forall l', advances (get l) l' -> scans l (block_comment fuel l')) as Hgo.
  { intros l' Hl'. destruct (get_shorter l l' Hok Hl') as [? ?]; [done|]. apply (scans_more l l'); [done|].
    apply IH; [eauto with lex|lia]. }
  case_test; [|by apply Hgo, advances_refl].
  destruct (get_spec (get l) Hok1) as (Hj & Ha2 & _ & Ht & Hcase).
  case_test; [do 2 eexists; split; [done|]; eauto with lex|]. apply Hgo.
  destruct (unget_spec (get (get l)) Hj) as (Hr & Hok2 & _ & Htot); [lia|].
  unfold advances. rewrite Hr. split_and!; [done| |lia].
  destruct Hcase as [(-> & -> & _)|(c & -> & ->)]; [done|]. by rewrite code_not_eof, to_char_code.
Qed.

(** A comment that ends takes a character more than the slash. *)
Lemma scan_comment_scans fuel l :
  lexer_ok l -> length (rest l) < fuel ->
  exists ok l', scan_comment fuel l = Some (ok, l') /\ advances l l' /\ (ok = true -> length (rest l') < length (rest l)).
Proof.
  intros Hok Hf. unfold scan_comment. pose proof (get_advances l Hok) as Ha. pose proof Ha as (Hok1 & Hl & _).
  assert (forall r, current (get l) <> EOF -> scans (get l) r ->
    exists ok l', r = Some (ok, l') /\ advances l l' /\ (ok = true -> length (rest l') < length (rest l))) as Hgo.
  { intros r Hc (ok & l' & -> & Hl'). destruct (get_shorter l l' Hok Hl' Hc) as [? ?]. by exists ok, l'. }
  case_test; [|case_test]; to_prop.
  - apply Hgo; [unfold EOF; lia|]. apply line_comment_scans; [done|lia].
  - apply Hgo; [unfold EOF; lia|]. apply block_comment_scans; [done|lia].
  - by do 2 eexists.
Qed.

Lemma skip_whitespace_total fuel l :
  lexer_ok l -> length (rest l) < fuel ->
  exists l', skip_whitespace fuel l = Some l' /\ advances l l' /\ just_read l' /\ S (total l) <= total l' /\
    (current l' = EOF \/ length (rest l') < length (rest l)).
Proof.
  revert l. induction fuel as [|fuel IH]; intros l Hok Hf; [lia|]. cbn [skip_whitespace].
  destruct (get_spec l Hok) as (Hj & Ha & _ & Ht & Hcase). destruct (existsb _ _) eqn:He.
  - assert (current (get l) <> EOF) as Hc by (intros Heq; rewrite Heq in He; done).
    destruct (get_shorter l (get l) Hok) as [? ?]; [eauto with lex|done|].
    destruct (IH (get l)) as (l' & -> & H2 & Hj2 & Ht2 & Hc2); [eauto with lex|lia|].
    exists l'. split_and!; [done|eauto with lex|done|lia|]. destruct Hc2; [by left|right; lia].
  - exists (get l). split_and!; auto; [lia|]. destruct Hcase as [(? & _)|(c & _ & ->)]; [by left|right; simpl; lia].
Qed.

Lemma skip_comments_total fuel l :
  just_read l -> 0 < total l -> length (rest l) < fuel ->
  exists r, skip_comments fuel l = Some r /\
    match r with
    | inl l' => advances l l'
    | inr l' => advances l l' /\ just_read l' /\ (current l' = current l /\ l' = l \/ current l' = EOF \/ length (rest l') < length (rest l))
    end.
Proof.
  revert l. induction fuel as [|fuel IH]; intros l Hj Ht Hf; [lia|]. cbn [skip_comments].
  assert (lexer_ok l) as Hok by eauto with lex. case_test.
  - destruct (scan_comment_scans (S fuel) l Hok Hf) as (ok & l1 & -> & Ha & Hs). cbn [mbind option_bind].
    destruct ok; cbn [negb]; [|by eexists]. specialize (Hs eq_refl). pose proof Ha as (Hok1 & _ & Ht1).
    destruct (skip_whitespace_total (S fuel) l1 Hok1) as (l2 & -> & Ha2 & Hj2 & Ht2 & Hc2); [lia|]. cbn [mbind option_bind].
    pose proof Ha2 as (_ & Hl2 & _). destruct (IH l2 Hj2) as (r & -> & Hr); [lia|lia|].
    eexists. split; [done|]. destruct r as [l'|l']; [eauto with lex|]. destruct Hr as (Ha3 & Hj3 & Hc3).
    split_and!; [eauto with lex|done|]. pose proof Ha3 as (_ & Hl3 & _). right; right; lia.
  - eexists. split; [done|]. split_and!; auto with lex.
Qed.

Lemma scan_number_loop_total fuel label t l :
  lexer_ok l -> length (rest l) < fuel ->
  exists t' l', scan_number_loop fuel label t l = Some (t', l') /\ just_read l' /\ advances l l' /\ advances l (unget l').
Proof.
  revert label t l. induction fuel as [|fuel IH]; intros label t l Hok Hf; [lia|]. cbn [scan_number_loop].
  destruct (get_spec l Hok) as (Hj & Ha & _ & Ht & Hcase).
  assert (advances l (unget (get l))) as Hu.
  { destruct (unget_spec (get l) Hj) as (Hr & Hok2 & _ & Htot); [lia|]. unfold advances. rewrite Hr. split_and!; [done| |lia].
    destruct Hcase as [(-> & -> & _)|(c & -> & ->)]; [done|]. by rewrite code_not_eof, to_char_code. }
  destruct (number_goto label (current (get l))) as [msg|label'] eqn:Hg; [by exists None, (with_error msg (get l))|].
  assert (current (get l) <> EOF -> exists t' l',
    scan_number_loop fuel label' (number_type_at label t) (add (current (get l)) (get l)) = Some (t', l') /\
    just_read l' /\ advances l l' /\ advances l (unget l')) as Hgo.
  { intros Hc. destruct (get_shorter l (get l) Hok) as [? ?]; [eauto with lex|done|].
    destruct (IH label' (number_type_at label t) (add (current (get l)) (get l))) as (t' & l' & Hs & Hj' & Ha1 & Ha2);
      [change (lexer_ok (get l)); eauto with lex|change (length (rest (get l)) < fuel); lia|].
    exists t', l'. split_and!; [done|done|apply (advances_trans _ (get l)); done..]. }
  destruct label'; try (by do 2 eexists); apply Hgo; intros Heq; rewrite Heq in Hg; by destruct label.
Qed.

Lemma scan_number_scans fuel l : just_read l -> length (rest l) < fuel -> scans l (scan_number fuel l).
Proof.
  intros Hj Hf. unfold scan_number. set (l0 := add _ _).
  destruct (scan_number_loop_total fuel (if (current (reset l) =? 45)%Z then Lminus else if (current (reset l) =? 48)%Z then Lzero else Lany1)
    value_unsigned l0) as (t & l1 & -> & Hj1 & Ha1 & Ha2); [exact (just_read_ok l Hj)|exact Hf|].
  cbn [mbind option_bind]. destruct t as [t|]; [|by do 2 eexists]. do 2 eexists. split; [apply f_equal, surjective_pairing|].
  unfold scan_number_done. destruct t; try exact Ha2.
  - destruct (strtoull _) as [x []]; exact Ha2.
  - destruct (strtoll _) as [x []]; exact Ha2.
Qed.

Lemma scan_literal_advances text t l : lexer_ok l -> advances l (snd (scan_literal_loop text t l)).
Proof.
  revert l. induction text as [|c text IH]; intros l Hok; cbn [scan_literal_loop]; [by apply advances_refl|].
  pose proof (get_advances l Hok). case_test; cbn [snd fail]; [done|]. eauto with lex.
Qed.

Lemma scan_token_scans fuel l : just_read l -> length (rest l) < fuel -> scans l (scan_token fuel l).
Proof.
  intros Hj Hf. assert (lexer_ok l) as Hok by eauto with lex. unfold scan_token.
  assert (forall text t, scans l (Some (scan_literal text t l))) as Hlit.
  { intros text t. do 2 eexists. split; [apply f_equal, surjective_pairing|]. by apply scan_literal_advances. }
  repeat (case_test; [try (by do 2 eexists); try (by apply Hlit)|]); [| |by do 2 eexists].
  - unfold scan_string. exact (scan_string_loop_scans fuel (reset l) Hok Hf).
  - by apply scan_number_scans.
Qed.

Lemma skip_bom_advances l : lexer_ok l -> advances l (snd (skip_bom l)).
Proof.
  intros Hok. unfold skip_bom. pose proof (get_advances l Hok) as Ha. destruct (get_spec l Hok) as (Hj & _ & _ & Ht & Hcase).
  assert (advances l (get (get l))) by eauto with lex. assert (advances l (get (get (get l)))) by eauto with lex.
  repeat case_test; try done. cbn [snd].
  destruct (unget_spec (get l) Hj) as (Hr & Hok2 & _ & Htot); [lia|]. unfold advances. rewrite Hr. split_and!; [done| |lia].
  destruct Hcase as [(-> & -> & _)|(c & -> & ->)]; [done|]. by rewrite code_not_eof, to_char_code.
Qed.

(** ** What tokens are: strings are UTF-8, integers have 64 bits *)

Lemma lead_ranges_utf8 c : (128 <= c < 256)%Z -> lead_ranges c = utf8_lead c.
Proof.
  intros Hc. assert (forallb (fun n => bool_decide (lead_ranges (Z.of_nat n) = utf8_lead (Z.of_nat n))) (seq 128 128) = true) as Ht by (vm_compute; reflexivity).
  rewrite forallb_Forall, Forall_forall in Ht. specialize (Ht (Z.to_nat c)). rewrite Z2Nat.id in Ht by lia.
  apply (bool_decide_eq_true_1 _), Ht, elem_of_seq. lia.
Qed.

(** Continuation bytes are not ASCII. *)
Definition high_ranges (rs : list (Z * Z)) : Prop := Forall (fun r => (128 <= fst r)%Z) rs.

Lemma utf8_lead_high c rs : utf8_lead c = Some rs -> high_ranges rs.
Proof. unfold utf8_lead, cont. intros Hl. repeat case_test; simplify_eq; repeat constructor; done. Qed.

(** A character below 128 of the text. *)
Lemma utf8_wf_low c s : (0 <= code c < 128)%Z -> utf8_wf [] (c :: s) = utf8_wf [] s.
Proof. intros Hc. cbn. unfold utf8_lead. by rewrite (proj2 (Z.leb_le _ _)) by lia. Qed.

Lemma utf8_wf_app p s t : utf8_wf p s = true -> utf8_wf [] t = true -> utf8_wf p (s ++ t) = true.
Proof.
  revert p. induction s as [|c s IH]; intros p Hs Ht; [by destruct p|]. cbn [app utf8_wf] in *.
  destruct (utf8_next p (code c)); [by apply IH|done].
Qed.

(** Bytes behind a lead byte complete it. *)
Lemma utf8_wf_step p c s rs : utf8_next p (code c) = Some rs -> utf8_wf p (c :: s) = utf8_wf rs s.
Proof. intros Hn. cbn [utf8_wf]. by rewrite Hn. Qed.

Lemma code_to_char c : (0 <= c < 256)%Z -> code (to_char c) = c.
Proof. intros Hc. unfold to_char. rewrite Z.mod_small by done. by apply code_chr. Qed.

(** [or] with disjoint bits adds. *)
Lemma lor_table base n x :
  forallb (fun i => (Z.lor base (Z.of_nat i) =? base + Z.of_nat i)%Z) (seq 0 n) = true -> (0 <= x < Z.of_nat n)%Z -> Z.lor base x = (base + x)%Z.
Proof.
  intros Ht Hx. rewrite forallb_Forall, Forall_forall in Ht. specialize (Ht (Z.to_nat x)). rewrite Z2Nat.id in Ht by lia.
  apply Z.eqb_eq, Ht, elem_of_seq. lia.
Qed.

Lemma cont_byte x : Z.lor 0x80 (Z.land x 0x3F) = (0x80 + x mod 64)%Z.
Proof.
  change 0x3F%Z with (Z.ones 6). rewrite Z.land_ones by lia. change (2 ^ 6)%Z with 64%Z.
  apply (lor_table 0x80 64); [vm_compute; reflexivity|]. apply Z.mod_pos_bound. lia.
Qed.

Lemma utf8_bytes_div cp :
  utf8_bytes cp =
    (if cp <? 0x80 then [cp]
     else if cp <=? 0x7FF then [Z.lor 0xC0 (cp / 64); 0x80 + cp mod 64]
     else if cp <=? 0xFFFF then [Z.lor 0xE0 (cp / 4096); 0x80 + (cp / 64) mod 64; 0x80 + cp mod 64]
     else [Z.lor 0xF0 (cp / 262144); 0x80 + (cp / 4096) mod 64; 0x80 + (cp / 64) mod 64; 0x80 + cp mod 64])%Z.
Proof. unfold utf8_bytes. rewrite !cont_byte, !Z.shiftr_div_pow2 by lia. reflexivity. Qed.

(** Code points that are not surrogates. *)
Definition scalar_value (cp : Z) : Prop := (0 <= cp < 0xD800 \/ 0xE000 <= cp <= 0x10FFFF)%Z.

Lemma utf8_seq b0 bs rs :
  (0 <= b0 < 256)%Z -> utf8_lead b0 = Some rs -> Forall2 (fun b r => (fst r <= b <= snd r)%Z /\ (0 <= b < 256)%Z) bs rs ->
  utf8_wf [] (to_char <$> b0 :: bs) = true.
Proof.
  intros Hb Hl Hf. rewrite fmap_cons. erewrite utf8_wf_step; [|cbn; by rewrite code_to_char]. clear Hl.
  induction Hf as [|b [lo hi] bs rs [Hr Hb'] _ IH]; [done|]. rewrite fmap_cons. erewrite utf8_wf_step; [exact IH|].
  cbn in Hr |- *. rewrite code_to_char by done. by rewrite (proj2 (Z.leb_le _ _)), (proj2 (Z.leb_le b _)) by lia.
Qed.

(** The lead bytes of the longer sequences, and what follows them. *)
Lemma utf8_lead_2 x : (2 <= x < 32)%Z -> utf8_lead (0xC0 + x) = Some [cont].
Proof.
  intros Hx. unfold utf8_lead. rewrite (proj2 (Z.leb_gt _ 0x7F)), (proj2 (Z.ltb_ge _ 0xC2)), (proj2 (Z.leb_le _ 0xDF)) by lia. done.
Qed.

Lemma utf8_lead_3 x :
  (0 <= x < 16)%Z -> utf8_lead (0xE0 + x) = Some [(if x =? 0 then 0xA0 else 0x80, if x =? 13 then 0x9F else 0xBF); cont]%Z.
Proof.
  intros Hx. assert (exists n, (n < 16)%nat /\ x = Z.of_nat n) as (n & Hn & ->) by (exists (Z.to_nat x); lia).
  do 16 (destruct n as [|n]; [reflexivity|]). lia.
Qed.

Lemma utf8_lead_4 x :
  (0 <= x < 5)%Z -> utf8_lead (0xF0 + x) = Some [(if x =? 0 then 0x90 else 0x80, if x =? 4 then 0x8F else 0xBF); cont; cont]%Z.
Proof.
  intros Hx. assert (exists n, (n < 5)%nat /\ x = Z.of_nat n) as (n & Hn & ->) by (exists (Z.to_nat x); lia).
  do 5 (destruct n as [|n]; [reflexivity|]). lia.
Qed.

Lemma utf8_bytes_wf cp : scalar_value cp -> utf8_wf [] (to_char <$> utf8_bytes cp) = true.
Proof.
  unfold scalar_value. intros Hcp. rewrite utf8_bytes_div.
  pose proof (Z.mod_pos_bound cp 64 ltac:(lia)). pose proof (Z.mod_pos_bound (cp / 64) 64 ltac:(lia)).
  pose proof (Z.mod_pos_bound (cp / 4096) 64 ltac:(lia)).
  assert (cp / 4096 = cp / 64 / 64)%Z as H12 by (rewrite Z.div_div by lia; done).
  assert (cp / 262144 = cp / 4096 / 64)%Z as H18 by (rewrite Z.div_div by lia; done).
  pose proof (Z.div_mod cp 64 ltac:(lia)). pose proof (Z.div_mod (cp / 64) 64 ltac:(lia)). pose proof (Z.div_mod (cp / 4096) 64 ltac:(lia)).
  repeat case_test; to_prop.
  - apply (utf8_seq cp [] []); [lia|unfold utf8_lead; by rewrite (proj2 (Z.leb_le _ _)) by lia|constructor].
  - rewrite (lor_table 0xC0 32) by (reflexivity || lia).
    eapply utf8_seq; [|apply utf8_lead_2; lia|repeat constructor; cbn; lia]. lia.
  - rewrite (lor_table 0xE0 16) by (reflexivity || lia).
    eapply utf8_seq; [|apply utf8_lead_3; lia|]; [lia|]. repeat constructor; cbn [fst snd cont]; repeat case_test; to_prop; lia.
  - rewrite (lor_table 0xF0 8) by (reflexivity || lia).
    eapply utf8_seq; [|apply utf8_lead_4; lia|]; [lia|]. repeat constructor; cbn [fst snd cont]; repeat case_test; to_prop; lia.
Qed.

(** A code point of four hexadecimal digits. *)
Lemma get_codepoint_range l : let '(cp, _) := get_codepoint l in cp = (-1)%Z \/ (0 <= cp <= 0xFFFF)%Z.
Proof.
  unfold get_codepoint. cbn [get_codepoint_loop]. assert (forall c v, hex_digit c = Some v -> (0 <= v < 16)%Z) as Hd.
  { unfold hex_digit. intros c v Hv. repeat case_test; to_prop; simplify_eq; lia. }
  repeat (match goal with |- context [match hex_digit ?c with _ => _ end] => destruct (hex_digit c) eqn:? end; [|left; reflexivity]). right.
  repeat match goal with Hx : hex_digit _ = Some _ |- _ => apply Hd in Hx end. rewrite !Z.shiftl_mul_pow2 by lia. lia.
Qed.

(** The buffer of a string, while it is scanned and after. *)
Definition buffer_ok (l : lexer) : Prop := utf8_wf [] (token_buffer l) = true.

Lemma add_codepoint_ok cp l : buffer_ok l -> scalar_value cp -> buffer_ok (add_codepoint cp l).
Proof.
  intros Hl Hcp. destruct (add_codepoint_state cp l) as (buf & -> & ->). apply utf8_wf_app; [done|by apply utf8_bytes_wf].
Qed.

Lemma get_buffer l : token_buffer (get l) = token_buffer l.
Proof. unfold get. destruct (if next_unget l then _ else _). reflexivity. Qed.

Lemma get_codepoint_buffer fs cp l : token_buffer (snd (get_codepoint_loop fs cp l)) = token_buffer l.
Proof.
  revert cp l. induction fs as [|f fs IH]; intros cp l; cbn [get_codepoint_loop]; [done|].
  destruct (hex_digit _); cbn [snd]; rewrite ?IH; apply get_buffer.
Qed.

Lemma bytes_in_ranges_wf rs l l' :
  high_ranges rs -> Forall (fun r => (snd r < 256)%Z) rs ->
  bytes_in_ranges rs l = (true, l') ->
  exists bs, token_buffer l' = token_buffer l ++ bs /\ forall s, utf8_wf rs (bs ++ s) = utf8_wf [] s.
Proof.
  intros Hh Hs. revert l. induction rs as [|[lo hi] rs IH]; intros l Hb; cbn [bytes_in_ranges] in Hb.
  { injection Hb as <-. exists []. by rewrite app_nil_r. }
  apply Forall_cons in Hh as [Hlo Hh], Hs as [Hhi Hs]. cbn [fst snd] in Hlo, Hhi.
  destruct ((lo <=? current (get l)) && (current (get l) <=? hi))%Z eqn:Hr; [|done].
  destruct (IH Hh Hs _ Hb) as (bs & Hbuf & Hwf). exists (to_char (current (get l)) :: bs). split.
  - rewrite Hbuf. cbn. by rewrite get_buffer, <- app_assoc.
  - intros s. cbn [app]. erewrite utf8_wf_step; [apply Hwf|]. cbn. rewrite code_to_char by (to_prop; lia). by rewrite Hr.
Qed.

Lemma lead_ranges_bounds c rs : lead_ranges c = Some rs -> (128 <= c < 256)%Z /\ Forall (fun r => (snd r < 256)%Z) rs.
Proof. unfold lead_ranges. intros Hl. repeat case_test; to_prop; simplify_eq; (split; [intuition lia|repeat constructor; done]). Qed.

Lemma scan_unicode_ok l l' : buffer_ok l -> scan_unicode l = (true, l') -> buffer_ok l'.
Proof.
  intros Hl. unfold scan_unicode. pose proof (get_codepoint_range l) as Hr1. pose proof (get_codepoint_buffer [12; 8; 4; 0]%Z 0 l) as Hb1.
  fold (get_codepoint l) in Hb1. destruct (get_codepoint l) as [cp1 l1]. cbn [snd] in Hb1.
  assert (buffer_ok l1) as Hl1 by (unfold buffer_ok; by rewrite Hb1).
  destruct (cp1 =? -1)%Z eqn:?; [done|]. to_prop. destruct Hr1 as [?|Hr1]; [done|].
  destruct ((0xD800 <=? cp1) && (cp1 <=? 0xDBFF))%Z eqn:Hhigh.
  - destruct (negb _); [done|]. destruct (negb _); [done|].
    pose proof (get_codepoint_range (get (get l1))) as Hr2. pose proof (get_codepoint_buffer [12; 8; 4; 0]%Z 0 (get (get l1))) as Hb2.
    fold (get_codepoint (get (get l1))) in Hb2. destruct (get_codepoint (get (get l1))) as [cp2 l2]. cbn [snd] in Hb2.
    destruct (cp2 =? -1)%Z; [done|]. destruct ((0xDC00 <=? cp2) && (cp2 <=? 0xDFFF))%Z eqn:Hlow; [|done]. intros [= <-].
    apply add_codepoint_ok; [unfold buffer_ok; by rewrite Hb2, !get_buffer|]. to_prop. right.
    unfold u32, wrapu. rewrite Z.shiftl_mul_pow2 by lia. rewrite Z.mod_small by lia. lia.
  - destruct ((0xDC00 <=? cp1) && (cp1 <=? 0xDFFF))%Z eqn:Hlow; [done|]. intros [= <-]. apply add_codepoint_ok; [done|].
    unfold scalar_value. to_prop. lia.
Qed.

Lemma add_low_ok c l : (0 <= c < 128)%Z -> buffer_ok l -> buffer_ok (add c l).
Proof.
  intros Hc Hl. apply utf8_wf_app; [done|]. rewrite utf8_wf_low; [done|]. by rewrite code_to_char by lia.
Qed.

Lemma scan_escape_ok l l' : buffer_ok l -> scan_escape l = (true, l') -> buffer_ok l'.
Proof.
  intros Hl. unfold scan_escape. assert (buffer_ok (get l)) as Hg by (unfold buffer_ok; by rewrite get_buffer).
  destruct (lookup_escape _) as [c|] eqn:He.
  - intros [= <-]. apply add_low_ok; [|done]. unfold lookup_escape in He. apply fmap_Some in He as ([a z] & Hf & ->). cbn in Hf |- *.
    repeat case_test; simplify_eq; lia.
  - case_test; [by apply scan_unicode_ok|done].
Qed.

Lemma scan_string_loop_ok fuel l l' :
  buffer_ok l -> lexer_ok l -> scan_string_loop fuel l = Some (value_string, l') -> buffer_ok l'.
Proof.
  revert l. induction fuel as [|fuel IH]; intros l Hl Hok; [done|]. cbn [scan_string_loop].
  assert (buffer_ok (get l)) as Hg by (unfold buffer_ok; by rewrite get_buffer). assert (lexer_ok (get l)) as Hok1 by eauto with lex.
  destruct (get_spec l Hok) as ([_ Hcur] & _).
  case_test; [by unfold fail|]. case_test; [by intros [= <-]|]. case_test.
  { pose proof (scan_escape_advances (get l) Hok1) as Ha. destruct (scan_escape (get l)) as [[] l1] eqn:He; [|done].
    intros Hs. apply (IH l1); [by eapply scan_escape_ok|eauto with lex|done]. }
  case_test; [by unfold fail|]. case_test.
  { to_prop. intros Hs. apply (IH (add (current (get l)) (get l))); [|done|done]. apply add_low_ok; [|done].
    destruct Hcur as [[? _]|Hcur]; [done|]. unfold at_char in Hcur. lia. }
  destruct (lead_ranges _) as [rs|] eqn:Hlead; [|by unfold fail]. pose proof (lead_ranges_bounds _ _ Hlead) as [Hrange Hsnd].
  rewrite lead_ranges_utf8 in Hlead by done.
  pose proof (bytes_in_ranges_advances rs (add (current (get l)) (get l)) Hok1) as Ha. unfold next_byte_in_range.
  destruct (bytes_in_ranges _ _) as [[] l1] eqn:Hb; [|done]. intros Hs. apply (IH l1); [|eauto with lex|done].
  destruct (bytes_in_ranges_wf rs _ l1 (utf8_lead_high _ _ Hlead) Hsnd Hb) as (bs & Hbuf & Hwf).
  unfold buffer_ok. rewrite Hbuf. cbn [token_buffer add with_buffer]. rewrite <- app_assoc. apply utf8_wf_app; [done|]. cbn [app].
  erewrite utf8_wf_step; [|cbn; rewrite code_to_char by lia; exact Hlead]. specialize (Hwf []). rewrite app_nil_r in Hwf. by rewrite Hwf.
Qed.

(** The promise of the lexer about the token it returns. *)
Definition token_ok (t : token_type) (l : lexer) : Prop :=
  match t with
  | value_string => buffer_ok l
  | value_unsigned => (0 <= num_unsigned l < 2 ^ 64)%Z
  | value_integer => (- 2 ^ 63 <= num_integer l < 2 ^ 63)%Z
  | _ => True
  end.

Lemma scan_literal_ok text t l t' l' :
  (forall l, token_ok t l) -> scan_literal_loop text t l = (t', l') -> token_ok t' l'.
Proof.
  intros Ht. revert l. induction text as [|c text IH]; intros l; cbn [scan_literal_loop]; [by intros [= <- _]|].
  case_test; [by intros [= <- _]|apply IH].
Qed.

Lemma scan_number_loop_type fuel label t l t' l' :
  scan_number_loop fuel label t l = Some (Some t', l') ->
  (exists bs, token_buffer l' = token_buffer l ++ bs) /\ (t' = value_unsigned -> label <> Lminus /\ t = value_unsigned).
Proof.
  revert label t l. induction fuel as [|fuel IH]; intros label t l; [done|]. cbn [scan_number_loop].
  destruct (number_goto label (current (get l))) as [msg|label'] eqn:Hg; [done|].
  assert (number_type_at label t = value_unsigned -> label <> Lminus /\ t = value_unsigned) as Hty by (by destruct label).
  assert (scan_number_loop fuel label' (number_type_at label t) (add (current (get l)) (get l)) = Some (Some t', l') ->
    (exists bs, token_buffer l' = token_buffer l ++ bs) /\ (t' = value_unsigned -> label <> Lminus /\ t = value_unsigned)) as Hgo.
  { intros Hs. apply IH in Hs as [[bs Hb] Ht]. split; [|intros Hu; by apply Hty, Ht].
    exists (to_char (current (get l)) :: bs). rewrite Hb. cbn. by rewrite get_buffer, <- app_assoc. }
  destruct label'; try exact Hgo. intros [= <- <-]. split; [exists []; by rewrite get_buffer, app_nil_r|exact Hty].
Qed.

Lemma scan_number_ok fuel l t l' :
  is_digit (current l) = true \/ current l = 45%Z -> scan_number fuel l = Some (t, l') -> token_ok t l'.
Proof.
  intros Hc. unfold scan_number. change (current (reset l)) with (current l). set (l0 := add (current l) (reset l)).
  destruct (scan_number_loop _ _ _ _) as [[[t0|] l1]|] eqn:Hl; [|by intros [= <- _]|done].
  cbn [mbind option_bind]. intros [= Hd]. apply scan_number_loop_type in Hl as [[bs Hb] Ht].
  unfold scan_number_done in Hd. change (token_buffer (unget l1)) with (token_buffer l1) in Hd. rewrite Hb in Hd.
  destruct t0; try (injection Hd as <- <-; done).
  - destruct (strtoull _) as [x e] eqn:Hx. destruct e; cbn [negb] in Hd; injection Hd as <- <-; [done|]. cbn [token_ok num_unsigned with_numbers].
    destruct (Ht eq_refl) as [Hlab _]. destruct Hc as [Hc|Hc]; [|by rewrite Hc in Hlab].
    unfold strtoull in Hx. assert (0 <= signed_value (token_buffer l0 ++ bs))%Z as Hv; [|revert Hv Hx; generalize (signed_value (token_buffer l0 ++ bs));
      intros v Hv Hx; injection Hx as <- He; to_prop; lia].
    cbn [token_buffer l0 add with_buffer reset app signed_value].
    assert ((to_char (current l) =c "-"%char) = false) as ->.
    { apply Ascii.eqb_neq. intros Heq. apply (f_equal code) in Heq. unfold is_digit in Hc. to_prop. rewrite code_to_char in Heq by lia.
      change (code "-"%char) with 45%Z in Heq. lia. }
    apply dec_value_nonneg; [done|]. apply take_while_all.
  - destruct (strtoll _) as [x e] eqn:Hx. destruct e; cbn [negb] in Hd; injection Hd as <- <-; [done|]. cbn.
    unfold strtoll in Hx. injection Hx as <- _. unfold clamp_long, LONG_MIN, LONG_MAX. lia.
Qed.

Lemma scan_string_token fuel l t l' : scan_string_loop fuel l = Some (t, l') -> t = value_string \/ t = parse_error.
Proof.
  revert l. induction fuel as [|fuel IH]; intros l; [done|]. cbn [scan_string_loop]. unfold fail.
  repeat (case_test; [by intros [= <- _]; auto|]). 
  case_test; [destruct (scan_escape _) as [[] ?]; [apply IH|by intros [= <- _]; auto]|].
  case_test; [by intros [= <- _]; auto|]. case_test; [apply IH|].
  destruct (lead_ranges _); [|by intros [= <- _]; auto]. destruct (next_byte_in_range _ _) as [[] ?]; [apply IH|by intros [= <- _]; auto].
Qed.

Lemma scan_token_ok fuel l t l' : lexer_ok l -> scan_token fuel l = Some (t, l') -> token_ok t l'.
Proof.
  intros Hok. unfold scan_token.
  repeat (case_test; [first [by intros [= <- _]|intros [= Hl]; by eapply scan_literal_ok; [|exact Hl]|idtac]|]); [| |by intros [= <- _]].
  - intros Hs. unfold scan_string in Hs. destruct (decide (t = value_string)) as [->|Hne].
    + by apply (scan_string_loop_ok fuel (reset l) l').
    + apply scan_string_token in Hs. by destruct Hs as [-> | ->].
  - to_prop. intros Hs. eapply scan_number_ok; [|exact Hs]. destruct Heqb9; [right|left]; by to_prop.
Qed.

(** The scanner always ends, with a token as promised; one that is not an error or the end takes a
    character. *)
Lemma scan_total ignore_comments fuel l :
  lexer_ok l -> length (rest l) < fuel ->
  exists t l', scan ignore_comments fuel l = Some (t, l') /\ advances l l' /\ token_ok t l' /\
    (t = parse_error \/ t = end_of_input \/ length (rest l') < length (rest l)).
Proof.
  intros Hok Hf. unfold scan. set (start := if (_ =? 0)%nat then _ else _).
  assert (advances l (snd start)) as Ha.
  { unfold start. case_test; [|by apply advances_refl]. by apply skip_bom_advances. }
  destruct start as [ok l0]. cbn [snd] in Ha. destruct ok; cbn [negb]; [|do 2 eexists; split; [done|]; split_and!; [exact Ha|done|by left]].
  pose proof Ha as (Hok0 & Hl0 & _).
  destruct (skip_whitespace_total fuel l0 Hok0) as (l1 & -> & Ha1 & Hj1 & Ht1 & Hc1); [lia|]. cbn [mbind option_bind].
  pose proof Ha1 as (_ & Hl1 & _).
  assert (exists r, (if ignore_comments then skip_comments fuel l1 else Some (inr l1)) = Some r /\
    match r with
    | inl l' => advances l l'
    | inr l' => advances l l' /\ just_read l' /\ (current l' = EOF \/ length (rest l') < length (rest l))
    end) as (r & -> & Hr).
  { destruct ignore_comments.
    - destruct (skip_comments_total fuel l1 Hj1) as (r & -> & Hr); [lia|lia|]. eexists. split; [done|].
      destruct r; [eauto with lex|]. destruct Hr as (Hr & ? & Hc). pose proof Hr as (_ & ? & _).
      split_and!; [eauto with lex|done|]. destruct Hc as [[_ ->]|[?|?]]; [destruct Hc1; [by left|right; lia]|by left|right; lia].
    - eexists. split; [done|]. split_and!; [eauto with lex|done|]. destruct Hc1; [by left|right; lia]. }
  cbn [mbind option_bind]. destruct r as [l'|l2]; [exists parse_error, l'; cbn; auto|]. destruct Hr as (Ha2 & Hj2 & Hc2).
  pose proof Ha2 as (_ & Hl2 & _). destruct (scan_token_scans fuel l2 Hj2) as (t & l' & Heq & Ha'); [lia|].
  exists t, l'. split_and!; [done|eauto with lex|by eapply scan_token_ok; [|exact Heq]; eauto with lex|]. destruct Hc2 as [Hc2|?]; [|destruct Ha' as (_ & ? & _); right; right; lia].
  unfold scan_token in Heq. rewrite Hc2 in Heq. injection Heq as <- _. auto.
Qed.

