(* ===== verification/JsonParser.v ===== *)
(** * Reading JSON: the parser of [include/json.hpp]

    [detail::parser] over the lexer: the loop of [sax_parse_internal] with its stack of arrays
    and objects, generic in the SAX handler it calls; the handler that builds a value
    ([json_sax_dom_parser]), with its pointers into the value as paths; the one that only
    accepts; [basic_json::parse] and [accept].  [None] is undefined behaviour (a null pointer,
    an empty stack) or missing fuel; [parse_total] shows that neither happens. *)
From S2P Require Import Prelude CLib Json JsonLexer.
From Stdlib Require Import SpecFloat.

(** ** Exceptions *)

Record exn := MkExn { exn_id : Z; exn_what : bytes }.

Definition exception_name (ename : bytes) (id : Z) : bytes := B "[json.exception." ++ ename ++ B "." ++ dec id ++ B "] ".

Definition position_string (p : position_t) : bytes :=
  B " at line " ++ dec (Z.of_nat (lines_read p) + 1) ++ B ", column " ++ dec (Z.of_nat (chars_read_current_line p)).

Definition parse_error_create (id : Z) (p : position_t) (what_arg : bytes) : exn :=
  MkExn id (exception_name (B "parse_error") id ++ B "parse error" ++ position_string p ++ B ": " ++ what_arg).

Definition out_of_range_create (id : Z) (what_arg : bytes) : exn :=
  MkExn id (exception_name (B "out_of_range") id ++ what_arg).

(** ** The SAX interface *)

(** [byte_container_with_subtype]: the bytes, and the subtype if it has one. *)
Record byte_container := MkBinary { bin_data : bytes; m_subtype : option Z }.

#[export] Instance byte_container_eq_dec : EqDecision byte_container.
Proof. solve_decision. Defined.

(** How a call ends: with a [bool], or with an exception. *)
Inductive sax_end := Ret (b : bool) | Raise (e : exn).

(** The events; [None] is undefined behaviour of the handler. *)
Class SAX (S : Type) := {
  sax_null : S -> option (bool * S);
  sax_boolean : bool -> S -> option (bool * S);
  sax_number_integer : Z -> S -> option (bool * S);
  sax_number_unsigned : Z -> S -> option (bool * S);
  sax_number_float : spec_float -> bytes -> S -> option (bool * S);
  sax_string : bytes -> S -> option (bool * S);
  sax_binary : byte_container -> S -> option (bool * S);
  sax_start_object : S -> option (bool * S);
  sax_key : bytes -> S -> option (bool * S);
  sax_end_object : S -> option (bool * S);
  sax_start_array : S -> option (bool * S);
  sax_end_array : S -> option (bool * S);
  sax_parse_error : nat -> bytes -> exn -> S -> sax_end * S }.

(** ** The parser *)

Record parser := MkParser { last_token : token_type; m_lexer : lexer }.

Definition exception_message (p : parser) (expected : token_type) (context : bytes) : bytes :=
  B "syntax error " ++ (if context =s [] then [] else B "while parsing " ++ context ++ B " ") ++ B "- " ++
  (if decide (last_token p = parse_error) then
     error_message (m_lexer p) ++ B "; last read: '" ++ get_token_string (m_lexer p) ++ B "'"
   else B "unexpected " ++ token_type_name (last_token p)) ++
  (if decide (expected = uninitialized) then [] else B "; expected " ++ token_type_name expected).

(** What an iteration of the loop does next: the next iteration ([skip] is
    [skip_to_state_evaluation]), the evaluation of the state, or a return. *)
Inductive phase (H : Type) :=
  | Continue (skip : bool) (states : list bool) (p : parser) (s : H)
  | Evaluate (p : parser) (s : H)
  | Finish (r : sax_end) (p : parser) (s : H).
Arguments Continue {H}.
Arguments Evaluate {H}.
Arguments Finish {H}.

Section parser.
  Context {H : Type} `{SAX H} (ignore_comments : bool) (lex_fuel : nat).

Definition get_token (p : parser) : option parser :=
    '(t, l) ← scan ignore_comments lex_fuel (m_lexer p); Some (MkParser t l).

Definition raise (e : exn) (p : parser) (s : H) : option (phase H) :=
    let '(r, s) := sax_parse_error (chars_read_total (position (m_lexer p))) (get_token_string (m_lexer p)) e s in
    Some (Finish r p s).

Definition unexpected (expected : token_type) (context : bytes) (p : parser) (s : H) : option (phase H) :=
    raise (parse_error_create 101 (position (m_lexer p)) (exception_message p expected context)) p s.

  (** Calls a handler; [false] ends the parse. *)
Definition event (call : option (bool * H)) (p : parser) (k : H -> option (phase H)) : option (phase H) :=
    '(ok, s) ← call; if ok : bool then k s else Some (Finish (Ret false) p s).

Definition scalar (call : option (bool * H)) (p : parser) : option (phase H) :=
    event call p (fun s => Some (Evaluate p s)).

  (** A key whose string is the last token, the colon behind it, and the first token of the value. *)
Definition parse_key (states : list bool) (p : parser) (s : H) : option (phase H) :=
    if negb (bool_decide (last_token p = value_string)) then unexpected value_string (B "object key") p s
    else
      event (sax_key (token_buffer (m_lexer p)) s) p (fun s =>
        p ← get_token p;
        if negb (bool_decide (last_token p = name_separator)) then unexpected name_separator (B "object separator") p s
        else p ← get_token p; Some (Continue false states p s)).

  (** The switch on the last token. *)
Definition parse_token (states : list bool) (p : parser) (s : H) : option (phase H) :=
    let l := m_lexer p in
    match last_token p with
    | begin_object =>
        event (sax_start_object s) p (fun s =>
          p ← get_token p;
          if bool_decide (last_token p = end_object) then scalar (sax_end_object s) p
          else parse_key (false :: states) p s)
    | begin_array =>
        event (sax_start_array s) p (fun s =>
          p ← get_token p;
          if bool_decide (last_token p = end_array) then scalar (sax_end_array s) p
          else Some (Continue false (true :: states) p s))
    | value_float =>
        if negb (isfinite (num_float l)) then
          raise (out_of_range_create 406 (B "number overflow parsing '" ++ get_token_string l ++ B "'")) p s
        else scalar (sax_number_float (num_float l) (token_buffer l) s) p
    | literal_false => scalar (sax_boolean false s) p
    | literal_null => scalar (sax_null s) p
    | literal_true => scalar (sax_boolean true s) p
    | value_integer => scalar (sax_number_integer (num_integer l) s) p
    | value_string => scalar (sax_string (token_buffer l) s) p
    | value_unsigned => scalar (sax_number_unsigned (num_unsigned l) s) p
    | parse_error => unexpected uninitialized (B "value") p s
    | _ => unexpected literal_or_value (B "value") p s
    end.

  (** After a value: the stack says what it is part of. *)
Definition evaluate (states : list bool) (p : parser) (s : H) : option (phase H) :=
    match states with
    | [] => Some (Finish (Ret true) p s)
    | true :: states' =>
        p ← get_token p;
        if bool_decide (last_token p = value_separator) then p ← get_token p; Some (Continue false states p s)
        else if bool_decide (last_token p = end_array) then
          event (sax_end_array s) p (fun s => Some (Continue true states' p s))
        else unexpected end_array (B "array") p s
    | false :: states' =>
        p ← get_token p;
        if bool_decide (last_token p = value_separator) then p ← get_token p; parse_key states p s
        else if bool_decide (last_token p = end_object) then
          event (sax_end_object s) p (fun s => Some (Continue true states' p s))
        else unexpected end_object (B "object") p s
    end.

  (** One iteration: its first part, skipped on demand, then the evaluation. *)
Definition iteration (skip : bool) (states : list bool) (p : parser) (s : H) : option (phase H) :=
    ph ← (if skip then Some (Evaluate p s) else parse_token states p s);
    match ph with Evaluate p s => evaluate states p s | _ => Some ph end.

Fixpoint sax_loop (fuel : nat) (skip : bool) (states : list bool) (p : parser) (s : H)
    : option (sax_end * parser * H) :=
    match fuel with
    | 0 => None
    | S fuel =>
        ph ← iteration skip states p s;
        match ph with
        | Continue skip states p s => sax_loop fuel skip states p s
        | Finish r p s => Some (r, p, s)
        | Evaluate _ _ => None
        end
    end.

Definition sax_parse_internal (fuel : nat) (p : parser) (s : H) : option (sax_end * parser * H) :=
    sax_loop fuel false [] p s.

  (** In strict mode the input must end after the value. *)
Definition expect_end (p : parser) (s : H) : option (sax_end * H) :=
    p ← get_token p;
    if bool_decide (last_token p = end_of_input) then Some (Ret true, s)
    else
      Some (sax_parse_error (chars_read_total (position (m_lexer p))) (get_token_string (m_lexer p))
        (parse_error_create 101 (position (m_lexer p)) (exception_message p end_of_input (B "value"))) s).

  (** [parser::sax_parse]. *)
Definition sax_parse (fuel : nat) (strict : bool) (p : parser) (s : H) : option (sax_end * H) :=
    '(r, p, s) ← sax_parse_internal fuel p s;
    match r with
    | Ret true => if strict then expect_end p s else Some (r, s)
    | _ => Some (r, s)
    end.
End parser.

(** ** Values as the parser builds them *)

Inductive value :=
  | VNull
  | VBool (b : bool)
  | VInteger (z : Z)
  | VUnsigned (z : Z)
  | VFloat (x : spec_float)
  | VString (s : bytes)
  | VBinary (b : byte_container)
  | VArray (l : list value)
  | VObject (l : list (bytes * value)).     (* a std::map: keys in increasing order *)

(** [object[key]] with an assignment through the reference. *)
Fixpoint object_at (k : bytes) (f : value -> value) (l : list (bytes * value)) : list (bytes * value) :=
  match l with
  | [] => [(k, f VNull)]
  | (k', v') :: l' =>
      if bytes_lt k k' then (k, f VNull) :: l
      else if k =s k' then (k', f v') :: l'
      else (k', v') :: object_at k f l'
  end.

Fixpoint object_find (k : bytes) (l : list (bytes * value)) : option value :=
  match l with
  | [] => None
  | (k', v') :: l' => if bytes_lt k k' then None else if k =s k' then Some v' else object_find k l'
  end.

(** A pointer to a part of a value: the indices and keys that lead to it. *)
Abbreviation path := (list (nat + bytes)).

Fixpoint value_at (p : path) (v : value) : option value :=
  match p, v with
  | [], _ => Some v
  | inl i :: p, VArray l => v ← l !! i; value_at p v
  | inr k :: p, VObject l => v ← object_find k l; value_at p v
  | _, _ => None
  end.

(** A change of what the pointer points to. *)
Fixpoint assign (p : path) (f : value -> value) (v : value) : value :=
  match p, v with
  | [], _ => f v
  | inl i :: p, VArray l => VArray (alter (assign p f) i l)
  | inr k :: p, VObject l => VObject (object_at k (assign p f) l)
  | _, _ => v
  end.

(** ** [json_sax_dom_parser] *)

(** [ref_stack] with its back first; a null [object_element] is [None]. *)
Record dom_parser := MkDom {
  root : value; ref_stack : list path; object_element : option path; errored : bool; allow_exceptions : bool }.

Definition mk_dom (r : value) (allow_exceptions : bool) : dom_parser := MkDom r [] None false allow_exceptions.

Definition with_root (r : value) (d : dom_parser) : dom_parser :=
  MkDom r (ref_stack d) (object_element d) (errored d) (allow_exceptions d).

(** The new state and the pointer to the value. *)
Definition handle_value (v : value) (d : dom_parser) : option (path * dom_parser) :=
  match ref_stack d with
  | [] => Some ([], with_root v d)
  | back :: _ =>
      match value_at back (root d) with
      | Some (VArray l) =>
          Some (back ++ [inl (length l)],
                with_root (assign back (fun a => match a with VArray l => VArray (l ++ [v]) | _ => a end) (root d)) d)
      | Some (VObject _) => e ← object_element d; Some (e, with_root (assign e (fun _ => v) (root d)) d)
      | _ => None
      end
  end.

Definition dom_value (v : value) (d : dom_parser) : option (bool * dom_parser) :=
  '(_, d) ← handle_value v d; Some (true, d).

Definition dom_start (v : value) (d : dom_parser) : option (bool * dom_parser) :=
  '(p, d) ← handle_value v d;
  Some (true, MkDom (root d) (p :: ref_stack d) (object_element d) (errored d) (allow_exceptions d)).

Definition dom_key (k : bytes) (d : dom_parser) : option (bool * dom_parser) :=
  match ref_stack d with
  | [] => None
  | back :: _ =>
      match value_at back (root d) with
      | Some (VObject _) =>
          let r := assign back (fun o => match o with VObject l => VObject (object_at k id l) | _ => o end) (root d) in
          Some (true, MkDom r (ref_stack d) (Some (back ++ [inr k])) (errored d) (allow_exceptions d))
      | _ => None
      end
  end.

Definition dom_end (d : dom_parser) : option (bool * dom_parser) :=
  match ref_stack d with
  | [] => None
  | _ :: st => Some (true, MkDom (root d) st (object_element d) (errored d) (allow_exceptions d))
  end.

Definition dom_parse_error (ex : exn) (d : dom_parser) : sax_end * dom_parser :=
  let d := MkDom (root d) (ref_stack d) (object_element d) true (allow_exceptions d) in
  (if allow_exceptions d then Raise ex else Ret false, d).

#[export] Instance dom_SAX : SAX dom_parser := {
  sax_null := dom_value VNull;
  sax_boolean b := dom_value (VBool b);
  sax_number_integer z := dom_value (VInteger z);
  sax_number_unsigned z := dom_value (VUnsigned z);
  sax_number_float x _ := dom_value (VFloat x);
  sax_string s := dom_value (VString s);
  sax_binary b := dom_value (VBinary b);
  sax_start_object := dom_start (VObject []);
  sax_key := dom_key;
  sax_end_object := dom_end;
  sax_start_array := dom_start (VArray []);
  sax_end_array := dom_end;
  sax_parse_error _ _ ex := dom_parse_error ex }.

(** ** [json_sax_acceptor] *)

#[export] Instance acceptor_SAX : SAX unit := {
  sax_null s := Some (true, s);
  sax_boolean _ s := Some (true, s);
  sax_number_integer _ s := Some (true, s);
  sax_number_unsigned _ s := Some (true, s);
  sax_number_float _ _ s := Some (true, s);
  sax_string _ s := Some (true, s);
  sax_binary _ s := Some (true, s);
  sax_start_object s := Some (true, s);
  sax_key _ s := Some (true, s);
  sax_end_object s := Some (true, s);
  sax_start_array s := Some (true, s);
  sax_end_array s := Some (true, s);
  sax_parse_error _ _ _ s := (Ret false, s) }.

(** ** [basic_json::parse] and [basic_json::accept] *)

(** Enough fuel for an input: an iteration of either loop reads a character or ends. *)
Definition input_fuel (input : bytes) : nat := length input + 2.

Inductive parse_result := Parsed (v : value) | Discarded | Thrown (e : exn).

(** The constructor of [parser] reads the first token. *)
Definition mk_parser (ignore_comments : bool) (input : bytes) : option parser :=
  get_token ignore_comments (input_fuel input) (MkParser uninitialized (mk_lexer input)).

Definition parser_parse (ignore_comments : bool) (fuel : nat) (strict allow_exceptions : bool) (p : parser) : option parse_result :=
  '(r, p, d) ← sax_parse_internal ignore_comments fuel fuel p (mk_dom VNull allow_exceptions);
  match r with
  | Raise e => Some (Thrown e)
  | Ret _ =>
      '(r, d) ← (if strict then expect_end ignore_comments fuel p d else Some (Ret true, d));
      match r with
      | Raise e => Some (Thrown e)
      | Ret _ => Some (if errored d then Discarded else Parsed (root d))
      end
  end.

Definition parse (allow_exceptions ignore_comments : bool) (input : bytes) : option parse_result :=
  p ← mk_parser ignore_comments input;
  parser_parse ignore_comments (input_fuel input) true allow_exceptions p.

Definition accept (ignore_comments : bool) (input : bytes) : option bool :=
  p ← mk_parser ignore_comments input;
  '(r, _) ← sax_parse ignore_comments (input_fuel input) (input_fuel input) true p tt;
  match r with Ret b => Some b | Raise _ => None end.

(** ** Paths *)

Lemma bytes_lt_irrefl s : bytes_lt s s = false.
Proof. induction s as [|c s IH]; [done|]. cbn. by rewrite Z.ltb_irrefl, Z.eqb_refl, IH. Qed.

Lemma object_find_at k f l : object_find k (object_at k f l) = Some (f (default VNull (object_find k l))).
Proof.
  induction l as [|[k' v'] l IH]; cbn [object_find object_at]; [by rewrite bytes_lt_irrefl, bool_decide_true|].
  destruct (bytes_lt k k') eqn:Hlt; cbn [object_find]; [by rewrite bytes_lt_irrefl, bool_decide_true|].
  case_test; cbn [object_find]; rewrite Hlt; [|by rewrite Heqb].
  by rewrite Heqb.
Qed.

Lemma object_at_at k f g l : object_at k f (object_at k g l) = object_at k (fun x => f (g x)) l.
Proof.
  induction l as [|[k' v'] l IH]; cbn [object_at]; [by rewrite bytes_lt_irrefl, bool_decide_true|].
  destruct (bytes_lt k k') eqn:Hlt; cbn [object_at]; [by rewrite bytes_lt_irrefl, bool_decide_true|].
  case_test; cbn [object_at]; rewrite Hlt, Heqb; [done|by rewrite IH].
Qed.

Lemma object_at_ext k f g l : f (default VNull (object_find k l)) = g (default VNull (object_find k l)) -> object_at k f l = object_at k g l.
Proof.
  induction l as [|[k' v'] l IH]; cbn [object_at object_find]; [by cbn; intros ->|].
  destruct (bytes_lt k k'); [by cbn; intros ->|]. case_test; [by cbn; intros ->|]. intros Hx. by rewrite IH.
Qed.

Lemma value_at_app p x v : value_at (p ++ x) v = value_at p v ≫= value_at x.
Proof.
  revert v. induction p as [|[i|k] p IH]; intros v; [done| |]; destruct v; try done; cbn [app value_at].
  - destruct (l !! i); [apply IH|done].
  - destruct (object_find k l); [apply IH|done].
Qed.

(** A part above the change sees it further down. *)
Lemma value_at_assign p x f v w : value_at p v = Some w -> value_at p (assign (p ++ x) f v) = Some (assign x f w).
Proof.
  revert v. induction p as [|[i|k] p IH]; intros v Hv; [injection Hv as ->; by destruct x| |]; destruct v; try done; cbn in *.
  - destruct (l !! i) as [v|] eqn:Hl; [|done]. rewrite list_lookup_alter_eq, Hl. by apply IH.
  - destruct (object_find k l) as [v|] eqn:Hl; [|done]. rewrite object_find_at, Hl. by apply IH.
Qed.

Lemma assign_app p x f v : is_Some (value_at p v) -> assign (p ++ x) f v = assign p (assign x f) v.
Proof.
  revert v. induction p as [|[i|k] p IH]; intros v [w Hw]; [done| |]; destruct v; try done; cbn in *.
  - destruct (l !! i) as [v|] eqn:Hl; [|done]. f_equal. apply list_alter_ext; [|done].
    intros y Hy. rewrite Hl in Hy. injection Hy as <-. apply IH. eauto.
  - destruct (object_find k l) as [v|] eqn:Hl; [|done]. f_equal. apply object_at_ext. rewrite Hl. apply IH. eauto.
Qed.

Lemma assign_ext p f g v : (forall w, value_at p v = Some w -> f w = g w) -> is_Some (value_at p v) -> assign p f v = assign p g v.
Proof.
  revert v. induction p as [|[i|k] p IH]; intros v Hv [w Hw]; [by apply Hv| |]; destruct v; try done; cbn in *.
  - destruct (l !! i) as [v|] eqn:Hl; [|done]. f_equal. apply list_alter_ext; [|done].
    intros y Hy. rewrite Hl in Hy. injection Hy as <-. apply IH; eauto.
  - destruct (object_find k l) as [v|] eqn:Hl; [|done]. f_equal. apply object_at_ext. rewrite Hl. apply IH; eauto.
Qed.

Lemma assign_assign p f g v : is_Some (value_at p v) -> assign p f (assign p g v) = assign p (fun x => f (g x)) v.
Proof.
  revert v. induction p as [|[i|k] p IH]; intros v [w Hw]; [done| |]; destruct v; try done; cbn in *.
  - destruct (l !! i) as [v|] eqn:Hl; [|done]. rewrite list_alter_alter_eq. f_equal. apply list_alter_ext; [|done].
    intros y Hy. rewrite Hl in Hy. injection Hy as <-. apply IH. eauto.
  - destruct (object_find k l) as [v|] eqn:Hl; [|done]. rewrite object_at_at. f_equal. apply object_at_ext. rewrite Hl. apply IH. eauto.
Qed.

Lemma object_at_find k f l v : object_find k l = Some v -> f v = v -> object_at k f l = l.
Proof.
  intros Hl Hf. induction l as [|[k' v'] l IH]; [done|]. cbn in *. destruct (bytes_lt k k'); [done|].
  case_test; [injection Hl as ->; by rewrite Hf|by rewrite IH].
Qed.

Lemma assign_same p v w : value_at p v = Some w -> assign p (fun _ => w) v = v.
Proof.
  revert v. induction p as [|[i|k] p IH]; intros v Hv; [by injection Hv| |]; destruct v; try done; cbn in *; f_equal.
  - destruct (l !! i) as [x|] eqn:Hl; [|done]. apply list_eq. intros j. rewrite list_lookup_alter. case_decide; [|done].
    subst j. rewrite Hl. cbn. by rewrite IH.
  - destruct (object_find k l) as [x|] eqn:Hl; [|done]. apply (object_at_find _ _ _ _ Hl). by apply IH.
Qed.

(** Keys in increasing order, as in a [std::map]. *)
Fixpoint increasing (ks : list bytes) : bool :=
  match ks with [] => true | k :: ks => forallb (bytes_lt k) ks && increasing ks end.

(** A well-formed value: 64-bit integers, finite numbers, UTF-8 strings, ordered objects. *)
Fixpoint value_ok (v : value) : bool :=
  match v with
  | VNull | VBool _ => true
  | VInteger z => (- 2 ^ 63 <=? z)%Z && (z <? 2 ^ 63)%Z
  | VUnsigned z => (0 <=? z)%Z && (z <? 2 ^ 64)%Z
  | VFloat x => isfinite x
  | VString s => utf8_wf [] s
  | VBinary b => match m_subtype b with Some t => (0 <=? t)%Z && (t <? 2 ^ 64)%Z | None => true end
  | VArray l => forallb value_ok l
  | VObject l => increasing (map fst l) && forallb (fun kv => utf8_wf [] (fst kv) && value_ok (snd kv)) l
  end.

Lemma bytes_lt_asym s t : bytes_lt s t = true -> bytes_lt t s = false /\ t <> s.
Proof.
  intros Hlt. split; [|intros ->; by rewrite bytes_lt_irrefl in Hlt]. revert t Hlt.
  induction s as [|c s IH]; intros [|d t]; cbn; try done. destruct (code c <? code d)%Z eqn:Hcd; intros Hlt; to_prop.
  - rewrite (proj2 (Z.ltb_ge _ _)), (proj2 (Z.eqb_neq _ _)) by lia. done.
  - rewrite (proj2 (Z.ltb_ge (code d) _)) by lia. destruct (code d =? code c)%Z; [|done]. cbn. by apply IH.
Qed.

Lemma bytes_lt_trans s t u : bytes_lt s t = true -> bytes_lt t u = true -> bytes_lt s u = true.
Proof.
  revert s u. induction t as [|d t IH]; intros [|c s] [|e u]; cbn; try done. intros H1 H2.
  destruct (code c <? code d)%Z eqn:Hcd, (code d <? code e)%Z eqn:Hde; to_prop.
  1-3: by rewrite (proj2 (Z.ltb_lt _ _)) by lia.
  rewrite (proj2 (Z.ltb_ge _ _)), (proj2 (Z.eqb_eq (code c) (code e))) by lia. by apply (IH s u).
Qed.

Lemma bytes_lt_total s t : bytes_lt s t = false -> s <> t -> bytes_lt t s = true.
Proof.
  revert t. induction s as [|c s IH]; intros [|d t]; cbn; try done. intros Hlt Hne.
  destruct (code c <? code d)%Z eqn:Hcd; [done|]. destruct (code c =? code d)%Z eqn:He; to_prop.
  - apply code_inj in He as ->. rewrite Z.ltb_irrefl, Z.eqb_refl. destruct Hlt as [?|Hlt]; [done|]. apply IH; [done|congruence].
  - by rewrite (proj2 (Z.ltb_lt _ _)) by lia.
Qed.

Lemma value_ok_object l :
  value_ok (VObject l) = true <->
  increasing (map fst l) = true /\ Forall (fun kv => utf8_wf [] (fst kv) = true /\ value_ok (snd kv) = true) l.
Proof.
  cbn. rewrite andb_true_iff, forallb_Forall. split; intros [Hi Hf]; (split; [done|]); eapply Forall_impl; try exact Hf;
    intros kv; rewrite andb_true_iff; done.
Qed.

Lemma object_at_keys k f l k' : bytes_lt k' k = true -> forallb (bytes_lt k') (map fst l) = true -> forallb (bytes_lt k') (map fst (object_at k f l)) = true.
Proof.
  intros Hk. induction l as [|[k1 v1] l IH]; cbn; [by rewrite Hk|]. intros Hl. to_prop.
  repeat case_test; cbn; to_prop; subst; rewrite ?Hk, ?H, ?IH; done.
Qed.

(** [object[key] = value] keeps an object well formed. *)
Lemma object_at_ok k f l :
  value_ok (VObject l) = true -> utf8_wf [] k = true -> value_ok (f (default VNull (object_find k l))) = true ->
  value_ok (VObject (object_at k f l)) = true.
Proof.
  rewrite !value_ok_object. intros [Hi Hl] Hk. induction Hl as [|[k' v'] l [Hk' Hv'] Hl IH]; cbn [object_at object_find].
  { intros Hf. split; [done|]. by repeat constructor. }
  cbn [map increasing fst] in Hi. apply andb_true_iff in Hi as [Hlt Hi]. destruct (bytes_lt k k') eqn:Hkk.
  - intros Hf. split; [|by repeat constructor]. cbn [map increasing fst forallb]. rewrite Hkk, Hlt, Hi. cbn. rewrite andb_true_r.
    rewrite forallb_Forall in *. eapply Forall_impl; [exact Hlt|]. intros x Hx. by eapply bytes_lt_trans.
  - case_test.
    + intros Hf. to_prop. subst k'. split; [cbn [map increasing fst]; by rewrite Hlt, Hi|]. by constructor.
    + intros Hf. destruct (IH Hi Hf) as [Hi' Hl']. split; [|by constructor]. cbn [map increasing fst]. rewrite Hi', andb_true_r.
      to_prop. apply object_at_keys; [|done]. apply bytes_lt_total; [done|congruence].
Qed.

Lemma object_find_ok k l v : value_ok (VObject l) = true -> object_find k l = Some v -> utf8_wf [] k = true /\ value_ok v = true.
Proof.
  rewrite value_ok_object. intros [_ Hl]. induction Hl as [|[k' v'] l [Hk Hv] _ IH]; [done|]. cbn. repeat case_test; [done|..].
  - intros [= <-]. to_prop. by subst.
  - exact IH.
Qed.

(** A change of a part, to something well formed, keeps the whole so. *)
Lemma assign_ok p f v w :
  value_ok v = true -> value_at p v = Some w -> (value_ok w = true -> value_ok (f w) = true) -> value_ok (assign p f v) = true.
Proof.
  revert v. induction p as [|[i|k] p IH]; intros v Hv Hw Hf; [injection Hw as ->; by apply Hf| |]; destruct v; try done; cbn in Hw.
  - destruct (l !! i) as [x|] eqn:Hl; [|done]. cbn in Hv |- *. rewrite forallb_Forall, Forall_lookup in *. intros j y.
    rewrite list_lookup_alter. case_decide; [|apply Hv]. subst j. rewrite Hl. cbn. intros [= <-]. apply IH; [by apply (Hv i)|done..].
  - destruct (object_find k l) as [x|] eqn:Hl; [|done]. destruct (object_find_ok _ _ _ Hv Hl) as [Hk Hx].
    apply object_at_ok; [done|done|]. rewrite Hl. by apply IH.
Qed.

(** ** The handler never follows a bad pointer *)

Definition container (array : bool) (v : option value) : Prop :=
  match v with Some (VArray _) => array = true | Some (VObject _) => array = false | _ => False end.

(** Below every pointer of the stack are the pointers it goes through. *)
Definition under (p : path) (st : list path) : Prop :=
  match st with [] => p = [] | q :: _ => exists e x, p = q ++ e :: x end.

(** The parser's stack and the handler's agree: [true] is an array. *)
Fixpoint stack_ok (r : value) (states : list bool) (st : list path) : Prop :=
  match states, st with
  | [], [] => True
  | b :: states, p :: st => container b (value_at p r) /\ under p st /\ stack_ok r states st
  | _, _ => False
  end.

Lemma stack_ok_assign r states back st x f :
  stack_ok r states (back :: st) -> (x = [] -> forall b w, container b (Some w) -> container b (Some (f w))) ->
  stack_ok (assign (back ++ x) f r) states (back :: st).
Proof.
  revert states back x. induction st as [|q st IH]; intros [|b states] back x; try done; intros (Hc & Hu & Hs) Hf.
  all: assert (container b (value_at back (assign (back ++ x) f r))) as Hc'.
  1, 3: destruct (value_at back r) as [w|] eqn:Hw; [|done]; rewrite (value_at_assign _ _ _ _ _ Hw);
    destruct x as [|e x]; [by apply Hf|destruct e, w; done].
  - cbn. destruct states; done.
  - split_and!; [done|done|]. destruct Hu as (e & y & ->). rewrite <- app_assoc. apply IH; [done|done].
Qed.

Lemma stack_ok_same r states back st f :
  stack_ok r states (back :: st) -> (forall b w, container b (Some w) -> container b (Some (f w))) ->
  stack_ok (assign back f r) states (back :: st).
Proof. intros Hs Hf. rewrite <- (app_nil_r back) at 1. by apply stack_ok_assign. Qed.

(** What the handler may be asked for: [expects] a value when one can be stored. *)
Definition dom_ok (states : list bool) (expects : bool) (d : dom_parser) : Prop :=
  stack_ok (root d) states (ref_stack d) /\
  (expects = true -> match states, ref_stack d with
                     | false :: _, back :: _ =>
                         exists k, object_element d = Some (back ++ [inr k]) /\ is_Some (value_at (back ++ [inr k]) (root d))
                     | _, _ => True
                     end).

(** The place of the next value: where [handle_value] puts it. *)
Definition slot (d : dom_parser) (q : path) (r : value) : Prop :=
  (forall v, handle_value v d = Some (q, with_root (assign q (fun _ => v) r) d)) /\ is_Some (value_at q r).

Lemma dom_slot states d :
  dom_ok states true d -> exists q r, slot d q r /\ stack_ok r states (ref_stack d) /\ under q (ref_stack d).
Proof.
  intros [Hs He]. specialize (He eq_refl). unfold slot, handle_value. destruct (ref_stack d) as [|back st] eqn:Hst.
  { exists [], VNull. destruct states; [|done]. split; [split; [done|by eexists]|done]. }
  destruct states as [|b states]; [done|]. pose proof Hs as (Hc & Hu & Hs').
  destruct (value_at back (root d)) as [w|] eqn:Hw; [|done]. destruct w as [| | | | | | |l|l]; try done; cbn in Hc; subst b.
  - set (grow := fun a => match a with VArray l => VArray (l ++ [VNull]) | _ => a end).
    exists (back ++ [inl (length l)]), (assign back grow (root d)).
    assert (value_at back (assign back grow (root d)) = Some (VArray (l ++ [VNull]))) as Hg.
    { rewrite <- (app_nil_r back) at 2. rewrite (value_at_assign _ _ _ _ _ Hw). done. }
    split; [split|split; [|by do 2 eexists]].
    + intros v. rewrite (assign_app back) by (rewrite Hg; eauto). rewrite assign_assign by eauto. do 3 f_equal.
      apply assign_ext; [|eauto]. intros w Hw'. rewrite Hw in Hw'. injection Hw' as <-. cbn. f_equal.
      rewrite alter_app_r_alt by lia. by rewrite Nat.sub_diag.
    + rewrite value_at_app, Hg. cbn. rewrite lookup_app_r, Nat.sub_diag by lia. by eexists.
    + apply stack_ok_same; [done|]. intros b w. by destruct w.
  - destruct He as (k & -> & Hk). exists (back ++ [inr k]), (root d). split; [split; [done|done]|split; [done|by do 2 eexists]].
Qed.

Lemma stack_ok_handled r states st q v : stack_ok r states st -> under q st -> stack_ok (assign q (fun _ => v) r) states st.
Proof.
  destruct st as [|back st]; [by destruct states|]. intros Hs (e & x & ->). by apply stack_ok_assign.
Qed.

Lemma dom_value_ok states v d : dom_ok states true d -> exists d', dom_value v d = Some (true, d') /\ dom_ok states false d'.
Proof.
  intros Hd. destruct (dom_slot states d Hd) as (q & r & [Hh _] & Hs & Hu). unfold dom_value. rewrite Hh.
  eexists. split; [done|]. split; [by apply stack_ok_handled|done].
Qed.

Lemma value_at_assigned q f r w : value_at q r = Some w -> value_at q (assign q f r) = Some (f w).
Proof. intros Hw. rewrite <- (app_nil_r q) at 2. by rewrite (value_at_assign _ _ _ _ _ Hw). Qed.

Lemma dom_start_ok states b v d :
  dom_ok states true d -> container b (Some v) ->
  exists d', dom_start v d = Some (true, d') /\ dom_ok (b :: states) false d'.
Proof.
  intros Hd Hb. destruct (dom_slot states d Hd) as (q & r & [Hh [w Hw]] & Hs & Hu). unfold dom_start. rewrite Hh.
  eexists. split; [done|]. split; [|done]. cbn. split_and!; [|done|by apply stack_ok_handled].
  by rewrite (value_at_assigned _ _ _ _ Hw).
Qed.

Lemma dom_array_next states d : dom_ok (true :: states) false d -> dom_ok (true :: states) true d.
Proof. intros [Hs _]. by split. Qed.

Lemma dom_key_ok states k d :
  dom_ok (false :: states) false d -> exists d', dom_key k d = Some (true, d') /\ dom_ok (false :: states) true d'.
Proof.
  intros [Hs _]. unfold dom_key. destruct (ref_stack d) as [|back st] eqn:Hst; [done|]. pose proof Hs as (Hc & _).
  destruct (value_at back (root d)) as [[]|] eqn:Hw; try done. eexists. split; [done|]. split.
  - cbn [root ref_stack]. apply stack_ok_same; [done|]. intros b w. by destruct w.
  - cbn. intros _. exists k. split; [done|]. rewrite value_at_app, (value_at_assigned _ _ _ _ Hw). cbn. rewrite object_find_at. by eexists.
Qed.

Lemma dom_end_ok b states d : dom_ok (b :: states) false d -> exists d', dom_end d = Some (true, d') /\ dom_ok states false d'.
Proof.
  intros [Hs _]. unfold dom_end. destruct (ref_stack d) as [|back st]; [done|]. eexists. split; [done|].
  split; [|done]. by destruct Hs as (_ & _ & ?).
Qed.

(** ** The parser ends on every input *)

(** A call of a handler that is defined and keeps [P]. *)
Definition call_ok {H} (P : H -> Prop) (r : option (bool * H)) : Prop := exists b s, r = Some (b, s) /\ P s.

(** What a handler promises: an invariant on the stack of the parser and on whether a value can
    come next, which its events keep. *)
Class SAXSafe (H : Type) `{SAX H} (inv : list bool -> bool -> H -> Prop) : Prop := {
  safe_null st s : inv st true s -> call_ok (inv st false) (sax_null s);
  safe_boolean st b s : inv st true s -> call_ok (inv st false) (sax_boolean b s);
  safe_integer st z s : (- 2 ^ 63 <= z < 2 ^ 63)%Z -> inv st true s -> call_ok (inv st false) (sax_number_integer z s);
  safe_unsigned st z s : (0 <= z < 2 ^ 64)%Z -> inv st true s -> call_ok (inv st false) (sax_number_unsigned z s);
  safe_float st x t s : isfinite x = true -> inv st true s -> call_ok (inv st false) (sax_number_float x t s);
  safe_string st t s : utf8_wf [] t = true -> inv st true s -> call_ok (inv st false) (sax_string t s);
  safe_start_object st s : inv st true s -> call_ok (inv (false :: st) false) (sax_start_object s);
  safe_key st k s : utf8_wf [] k = true -> inv (false :: st) false s -> call_ok (inv (false :: st) true) (sax_key k s);
  safe_end_object st s : inv (false :: st) false s -> call_ok (inv st false) (sax_end_object s);
  safe_start_array st s : inv st true s -> call_ok (inv (true :: st) false) (sax_start_array s);
  safe_next st s : inv (true :: st) false s -> inv (true :: st) true s;
  safe_end_array st s : inv (true :: st) false s -> call_ok (inv st false) (sax_end_array s) }.

Lemma call_ok_true {H} (P : H -> Prop) r : (exists s, r = Some (true, s) /\ P s) -> call_ok P r.
Proof. intros (s & ? & ?). by exists true, s. Qed.

(** The value built so far is well formed, too. *)
Definition dom_inv (states : list bool) (expects : bool) (d : dom_parser) : Prop :=
  dom_ok states expects d /\ value_ok (root d) = true.

Lemma handle_value_ok states v d q d' :
  dom_inv states true d -> value_ok v = true -> handle_value v d = Some (q, d') -> value_ok (root d') = true.
Proof.
  intros [[Hs He] Hr] Hv. specialize (He eq_refl). unfold handle_value. destruct (ref_stack d) as [|back st]; [by intros [= <- <-]|].
  destruct states as [|b states]; [done|]. destruct Hs as (Hc & _). destruct (value_at back (root d)) as [w|] eqn:Hw; [|done].
  destruct w as [| | | | | | |l|l]; try done; cbn in Hc; subst b.
  - intros [= <- <-]. cbn. eapply assign_ok; [done|exact Hw|]. cbn. rewrite forallb_app. intros ->. cbn. by rewrite Hv.
  - destruct He as (k & -> & [w Hk]). intros [= <- <-]. cbn. by eapply assign_ok.
Qed.

Lemma dom_value_inv states v d :
  value_ok v = true -> dom_inv states true d -> call_ok (dom_inv states false) (dom_value v d).
Proof.
  intros Hv Hd. destruct (dom_value_ok states v d (proj1 Hd)) as (d' & Heq & Hd'). exists true, d'. split; [done|split; [done|]].
  unfold dom_value in Heq. destruct (handle_value v d) as [[q d1]|] eqn:Hh; [|done]. injection Heq as <-. by eapply handle_value_ok.
Qed.

Lemma dom_start_inv states b v d :
  value_ok v = true -> container b (Some v) -> dom_inv states true d -> call_ok (dom_inv (b :: states) false) (dom_start v d).
Proof.
  intros Hv Hb Hd. destruct (dom_start_ok states b v d (proj1 Hd) Hb) as (d' & Heq & Hd'). exists true, d'. split; [done|split; [done|]].
  unfold dom_start in Heq. destruct (handle_value v d) as [[q d1]|] eqn:Hh; [|done]. injection Heq as <-. by eapply (handle_value_ok _ _ d _ d1).
Qed.

Lemma dom_key_inv states k d :
  utf8_wf [] k = true -> dom_inv (false :: states) false d -> call_ok (dom_inv (false :: states) true) (dom_key k d).
Proof.
  intros Hk [Hd Hr]. destruct (dom_key_ok states k d Hd) as (d' & Heq & Hd'). exists true, d'. split; [done|split; [done|]].
  unfold dom_key in Heq. destruct (ref_stack d) as [|back st]; [done|]. destruct (value_at back (root d)) as [[]|] eqn:Hw; try done.
  injection Heq as <-. eapply assign_ok; [done|exact Hw|]. intros Hl. apply object_at_ok; [done..|].
  destruct (object_find k l) as [v|] eqn:Hv; [|done]. by apply (object_find_ok k l).
Qed.

Lemma dom_end_inv b states d : dom_inv (b :: states) false d -> call_ok (dom_inv states false) (dom_end d).
Proof.
  intros [Hd Hr]. destruct (dom_end_ok b states d Hd) as (d' & Heq & Hd'). exists true, d'. split; [done|split; [done|]].
  unfold dom_end in Heq. destruct (ref_stack d); [done|]. by injection Heq as <-.
Qed.

Lemma dom_next_inv states d : dom_inv (true :: states) false d -> dom_inv (true :: states) true d.
Proof. intros [Hd Hr]. split; [by apply dom_array_next|done]. Qed.

#[export] Instance dom_safe : SAXSafe dom_parser dom_inv.
Proof.
  split; intros; cbn;
    first [by apply dom_start_inv|by apply dom_key_inv|by eapply dom_end_inv
          |by apply dom_next_inv|apply dom_value_inv; [cbn|done]]; try done;
    by rewrite (proj2 (Z.leb_le _ _)), (proj2 (Z.ltb_lt _ _)) by lia.
Qed.

#[export] Instance acceptor_safe : SAXSafe unit (fun _ _ _ => True).
Proof. split; intros; try (apply call_ok_true; eexists); done. Qed.

Section total.
  Context {H : Type} `{SAX H} {inv : list bool -> bool -> H -> Prop} `{!SAXSafe H inv} (ic : bool) (lf : nat).
  (** How parses may end, and with which state of the handler. *)
  Context (ended : sax_end -> H -> Prop) (ended_true : forall s, inv [] false s -> ended (Ret true) s)
    (ended_false : forall st b s, inv st b s -> ended (Ret false) s)
    (ended_error : forall n t e s, ended (fst (sax_parse_error n t e s)) (snd (sax_parse_error n t e s))).

Definition left_over (p : parser) : nat := length (rest (m_lexer p)).
Definition parser_ok (p : parser) : Prop := lexer_ok (m_lexer p) /\ left_over p < lf /\ token_ok (last_token p) (m_lexer p).

  (** The tokens on which the next iteration returns. *)
Definition stopped (t : token_type) : bool := match t with parse_error | end_of_input => true | _ => false end.

  (** A bound on the iterations to come. *)
Definition iterations (skip : bool) (p : parser) : nat :=
    if negb skip && stopped (last_token p) then 0 else S (left_over p).

Lemma get_token_total p :
    parser_ok p -> exists p', get_token ic lf p = Some p' /\ parser_ok p' /\ left_over p' <= left_over p /\
      (stopped (last_token p') = true \/ left_over p' < left_over p).
Proof.
    intros (Hok & Hf & _). destruct (scan_total ic lf (m_lexer p) Hok Hf) as (t & l' & Heq & (Hok' & Hl & _) & Hto & Ht).
    unfold get_token. rewrite Heq. eexists. split; [done|]. unfold parser_ok, left_over in *. cbn.
    split_and!; [done|lia|done|lia|]. destruct Ht as [->|[->|?]]; auto.
  Qed.

  (** A result of a part of an iteration, with less than [n] iterations to come; only the first
      part can leave the evaluation of [states] to do. *)
Definition phase_ok (n : nat) (states : option (list bool)) (ph : phase H) : Prop :=
    match ph with
    | Continue skip st p s => parser_ok p /\ inv st (negb skip) s /\ iterations skip p < n
    | Evaluate p s => match states with Some st => parser_ok p /\ inv st false s /\ left_over p < n | None => False end
    | Finish r p s => ended r s /\ parser_ok p
    end.

Definition proceeds (n : nat) (states : option (list bool)) (r : option (phase H)) : Prop := exists ph, r = Some ph /\ phase_ok n states ph.

Lemma raise_proceeds n states e p s : parser_ok p -> proceeds n states (raise e p s).
Proof.
    intros Hp. unfold raise. pose proof (ended_error (chars_read_total (position (m_lexer p))) (get_token_string (m_lexer p)) e s) as He.
    destruct (sax_parse_error _ _ _ _). by eexists.
  Qed.

Lemma event_proceeds n states st e call p k :
    parser_ok p -> call_ok (inv st e) call -> (forall s, inv st e s -> proceeds n states (k s)) -> proceeds n states (event call p k).
Proof. intros Hp (b & s & -> & Hs) Hk. cbn. destruct b; [by apply Hk|]. eexists. split; [done|]. split; [by eapply ended_false|done]. Qed.

Lemma scalar_proceeds n states call p :
    parser_ok p -> left_over p < n -> call_ok (inv states false) call -> proceeds n (Some states) (scalar call p).
Proof. intros Hp Hn Hc. eapply event_proceeds; [done|exact Hc|]. intros s Hs. by eexists. Qed.

  (** Reading a token first. *)
Lemma token_proceeds n states p (k : parser -> option (phase H)) :
    parser_ok p ->
    (forall p', parser_ok p' -> left_over p' <= left_over p ->
       (stopped (last_token p') = true \/ left_over p' < left_over p) -> proceeds n states (k p')) ->
    proceeds n states (p ← get_token ic lf p; k p).
Proof. intros Hp Hk. destruct (get_token_total p Hp) as (p' & -> & ? & ? & ?). by apply Hk. Qed.

Lemma iterations_token n p p' :
    (stopped (last_token p') = true \/ left_over p' < left_over p) -> 0 < n -> left_over p < n -> iterations false p' < n.
Proof. intros Ht Hn Hp. unfold iterations. cbn [negb andb]. destruct (stopped _); [done|]. destruct Ht; [done|lia]. Qed.

Lemma parse_key_proceeds n states st p s :
    parser_ok p -> inv (false :: st) false s -> left_over p < n -> proceeds n states (parse_key ic lf (false :: st) p s).
Proof.
    intros Hp Hi Hn. unfold parse_key. case_test; [by apply raise_proceeds|].
    pose proof Hp as (_ & _ & Ht). to_prop. rewrite Heqb in Ht.
    eapply event_proceeds; [done|by apply safe_key|]. intros s1 Hs1. apply token_proceeds; [done|]. intros p1 Hp1 Hl1 _.
    case_test; [by apply raise_proceeds|]. apply token_proceeds; [done|]. intros p2 Hp2 Hl2 Ht2.
    eexists. split; [done|]. cbn. split_and!; [done|done|]. eapply iterations_token; [done|lia|lia].
  Qed.

Lemma parse_token_proceeds states p s :
    parser_ok p -> inv states true s -> proceeds (iterations false p) (Some states) (parse_token ic lf states p s).
Proof.
    intros Hp Hi. unfold parse_token, unexpected, iterations. cbn [negb andb]. pose proof Hp as (_ & _ & Hto).
    destruct (last_token p) eqn:Ht; cbn [stopped]; try (by apply raise_proceeds);
      try (apply scalar_proceeds; [done|lia|]);
      eauto using safe_null, safe_boolean, safe_integer, safe_unsigned, safe_string.
    - case_test; [by apply raise_proceeds|]. to_prop. apply scalar_proceeds; [done|lia|]. by apply safe_float.
    - eapply event_proceeds; [done|by apply safe_start_array|]. intros s1 Hs1. apply token_proceeds; [done|].
      intros p1 Hp1 Hl1 Ht1. case_test.
      + to_prop. destruct Ht1 as [Ht1|Ht1]; [by rewrite Heqb in Ht1|]. apply scalar_proceeds; [done|lia|]. by apply safe_end_array.
      + eexists. split; [done|]. cbn. split_and!; [done|by apply safe_next|]. eapply iterations_token; [done|lia|lia].
    - eapply event_proceeds; [done|by apply safe_start_object|]. intros s1 Hs1. apply token_proceeds; [done|].
      intros p1 Hp1 Hl1 Ht1. case_test; [|apply parse_key_proceeds; [done..|lia]].
      to_prop. destruct Ht1 as [Ht1|Ht1]; [by rewrite Heqb in Ht1|]. apply scalar_proceeds; [done|lia|]. by apply safe_end_object.
  Qed.

Lemma evaluate_proceeds n states p s :
    parser_ok p -> inv states false s -> left_over p < n -> proceeds n None (evaluate ic lf states p s).
Proof.
    intros Hp Hi Hn. unfold evaluate, unexpected. destruct states as [|[] st]; [eexists; split; [done|split; auto]| |]; (apply token_proceeds; [done|]);
      intros p1 Hp1 Hl1 Ht1; case_test.
    - apply token_proceeds; [done|]. intros p2 Hp2 Hl2 Ht2. eexists. split; [done|].
      cbn. split_and!; [done|by apply safe_next|]. eapply iterations_token; [done|lia|lia].
    - case_test; [|by apply raise_proceeds]. to_prop. destruct Ht1 as [Ht1|Ht1]; [by rewrite Heqb0 in Ht1|].
      eapply event_proceeds; [done|by apply safe_end_array|]. intros s1 Hs1. eexists. split; [done|]. cbn. split_and!; [done|done|].
      unfold iterations. cbn. lia.
    - apply token_proceeds; [done|]. intros p2 Hp2 Hl2 Ht2. apply parse_key_proceeds; [done|done|lia].
    - case_test; [|by apply raise_proceeds]. to_prop. destruct Ht1 as [Ht1|Ht1]; [by rewrite Heqb0 in Ht1|].
      eapply event_proceeds; [done|by apply safe_end_object|]. intros s1 Hs1. eexists. split; [done|]. cbn. split_and!; [done|done|].
      unfold iterations. cbn. lia.
  Qed.

Lemma iteration_proceeds skip states p s :
    parser_ok p -> inv states (negb skip) s -> proceeds (iterations skip p) None (iteration ic lf skip states p s).
Proof.
    intros Hp Hi. unfold iteration.
    assert (proceeds (iterations skip p) (Some states) (if skip then Some (Evaluate p s) else parse_token ic lf states p s)) as (ph & -> & Hph).
    { destruct skip; [|by apply parse_token_proceeds]. eexists. split; [done|]. cbn. split_and!; [done|done|]. unfold iterations. cbn. lia. }
    cbn [mbind option_bind]. destruct ph as [skip' st p' s'|p' s'|r p' s']; [by eexists|..|by eexists].
    destruct Hph as (Hp' & Hs' & Hl). by apply evaluate_proceeds.
  Qed.

Lemma sax_loop_total fuel skip states p s :
    parser_ok p -> inv states (negb skip) s -> iterations skip p < fuel ->
    exists r p' s', sax_loop ic lf fuel skip states p s = Some (r, p', s') /\ ended r s' /\ parser_ok p'.
Proof.
    revert skip states p s. induction fuel as [|fuel IH]; intros skip states p s Hp Hi Hf; [lia|]. cbn [sax_loop].
    destruct (iteration_proceeds skip states p s Hp Hi) as (ph & -> & Hph). cbn [mbind option_bind].
    destruct ph as [skip' st p' s'|p' s'|r p' s']; [|done|by do 3 eexists].
    destruct Hph as (? & ? & ?). apply IH; [done|done|lia].
  Qed.

Lemma expect_end_total p s :
    parser_ok p -> ended (Ret true) s -> exists r s', expect_end ic lf p s = Some (r, s') /\ ended r s'.
Proof.
    intros Hp Hs. unfold expect_end. destruct (get_token_total p Hp) as (p' & -> & _). cbn [mbind option_bind].
    case_test; [by do 2 eexists|]. do 2 eexists. split; [apply f_equal, surjective_pairing|]. apply ended_error.
  Qed.
End total.

Lemma mk_parser_total ic input :
  exists p, mk_parser ic input = Some p /\ parser_ok (input_fuel input) p /\ iterations false p < input_fuel input.
Proof.
  unfold mk_parser. destruct (get_token_total ic (input_fuel input) (MkParser uninitialized (mk_lexer input))) as (p & -> & Hp & Hl & _).
  { split; [done|]. unfold left_over, input_fuel. cbn. lia. }
  exists p. split_and!; [done|done|]. unfold iterations, left_over, input_fuel in *. cbn in Hl. case_test; lia.
Qed.

(** How [parse] ends: a handler without an error holds a well-formed value. *)
Definition dom_ended (r : sax_end) (d : dom_parser) : Prop :=
  match r with Ret _ => errored d = true \/ value_ok (root d) = true | Raise _ => True end.

Definition acceptor_ended (r : sax_end) (_ : unit) : Prop := exists b, r = Ret b.

Lemma dom_ended_error n t e d : dom_ended (fst (sax_parse_error n t e d)) (snd (sax_parse_error n t e d)).
Proof. cbn. unfold dom_parse_error. cbn. destruct (allow_exceptions d); cbn; auto. Qed.

Lemma parse_cases allow_exceptions ignore_comments input :
  exists r, parse allow_exceptions ignore_comments input = Some r /\ forall v, r = Parsed v -> value_ok v = true.
Proof.
  unfold parse. destruct (mk_parser_total ignore_comments input) as (p & -> & Hp & Hf). cbn [mbind option_bind].
  set (n := input_fuel input) in *. unfold parser_parse, sax_parse_internal.
  assert (forall s, dom_inv [] false s -> dom_ended (Ret true) s) as Ht by (intros s [_ Hs]; by right).
  assert (forall st b s, dom_inv st b s -> dom_ended (Ret false) s) as Hff by (intros st b s [_ Hs]; by right).
  destruct (sax_loop_total ignore_comments n dom_ended Ht Hff dom_ended_error n false [] p (mk_dom VNull allow_exceptions))
    as (r & p' & d & -> & He & Hp'); [done|by split|done|]. cbn [mbind option_bind]. destruct r; [|by eexists].
  destruct (expect_end_total ignore_comments n dom_ended dom_ended_error p' d Hp' He) as (r2 & d2 & -> & He2).
  cbn [mbind option_bind]. destruct r2; [|by eexists]. eexists. split; [done|]. intros v. destruct (errored d2) eqn:Hd2; [done|].
  intros [= <-]. by destruct He2 as [He2|]; [rewrite Hd2 in He2|].
Qed.

Lemma accept_total ignore_comments input : is_Some (accept ignore_comments input).
Proof.
  unfold accept. destruct (mk_parser_total ignore_comments input) as (p & -> & Hp & Hf). cbn [mbind option_bind].
  set (n := input_fuel input) in *. unfold sax_parse, sax_parse_internal.
  assert (forall st, acceptor_ended (Ret true) st) as Ht by (intros; by eexists).
  assert (forall n t e s, acceptor_ended (fst (sax_parse_error n t e s)) (snd (sax_parse_error n t e s))) as He by (intros; by eexists).
  destruct (sax_loop_total (inv := fun _ _ _ => True) ignore_comments n acceptor_ended ltac:(auto) ltac:(by eexists) He n false [] p tt)
    as (r & p' & d & -> & [b ->] & Hp'); [done|done|done|]. cbn [mbind option_bind]. destruct b; [|by eexists].
  destruct (expect_end_total ignore_comments n acceptor_ended He p' d Hp' (Ht d)) as (r2 & d2 & -> & [b ->]).
  by eexists.
Qed.

(** C21: every byte sequence is parsed to an end: within the fuel that the length of the input
    gives, and without following a null or dangling pointer, [parse] returns a value, the
    discarded value or throws, and [accept] answers. *)
Theorem parse_total allow_exceptions ignore_comments input :
  is_Some (parse allow_exceptions ignore_comments input) /\ is_Some (accept ignore_comments input).
Proof.
  split; [|apply accept_total]. destruct (parse_cases allow_exceptions ignore_comments input) as (r & -> & _). by eexists.
Qed.

(** C33: what [parse] returns is a value of the right type, whatever the input: its integers fit
    into 64 bits with the sign their kind has, its numbers are finite (an overflow is an
    exception), its strings and keys are well-formed UTF-8 whatever was escaped, and every object
    has its keys in increasing order, each once, also when the text repeats or mixes them. *)
Theorem parse_wf allow_exceptions ignore_comments input v :
  parse allow_exceptions ignore_comments input = Some (Parsed v) -> value_ok v = true.
Proof.
  destruct (parse_cases allow_exceptions ignore_comments input) as (r & -> & Hr). intros [= ->]. by apply Hr.
Qed.

(** Apostrophes stand for the quotation marks. *)
Definition demo_text : bytes :=
  map (fun c => if c =c "'"%char then DQUOTE else c) (B " {'b': [1, 'caf\u00e9'], 'a\t': -2, 'b': [0, null]} ").

Lemma parse_wf_witness :
  let v := VObject [(B "a" ++ [chr 9], VInteger (-2)); (B "b", VArray [VUnsigned 0; VNull])] in
  parse true false demo_text = Some (Parsed v) /\ value_ok v = true.
Proof. split; [|apply (parse_wf true false demo_text)]; vm_compute; reflexivity. Defined.
