(* ===== verification/JsonCallback.v ===== *)
(** * Parsing with a callback: [json_sax_dom_callback_parser] of [include/json.hpp]

    A callback is asked about every part of the text and may leave it out.  The value under
    construction is a tree with discarded parts; the callback is any function with a state of its
    own, which may change what it is shown.  Whatever the callback answers no pointer goes wrong;
    with a callback that keeps everything the result is that of the plain parser. *)
From S2P Require Import Prelude CLib Json JsonLexer JsonParser.

(** ** Values with discarded parts *)

Inductive tree := TDiscarded | TScalar (v : value) | TArray (l : list tree) | TObject (l : list (bytes * tree)).

Definition is_structured (t : tree) : bool := match t with TArray _ | TObject _ => true | _ => false end.
Definition is_discarded (t : tree) : bool := match t with TDiscarded => true | _ => false end.

Fixpoint tree_of (v : value) : tree :=
  match v with
  | VArray l => TArray (map tree_of l)
  | VObject l => TObject (map (fun kv => (fst kv, tree_of (snd kv))) l)
  | _ => TScalar v
  end.

(** [object[key]] with an assignment: a new member is null first. *)
Fixpoint member_at (k : bytes) (f : tree -> tree) (l : list (bytes * tree)) : list (bytes * tree) :=
  match l with
  | [] => [(k, f (TScalar VNull))]
  | (k', t') :: l' =>
      if bytes_lt k k' then (k, f (TScalar VNull)) :: l
      else if k =s k' then (k', f t') :: l'
      else (k', t') :: member_at k f l'
  end.
Fixpoint member_find (k : bytes) (l : list (bytes * tree)) : option tree :=
  match l with
  | [] => None
  | (k', t') :: l' => if bytes_lt k k' then None else if k =s k' then Some t' else member_find k l'
  end.

Fixpoint tree_at (p : path) (t : tree) : option tree :=
  match p, t with
  | [], _ => Some t
  | inl i :: p, TArray l => t ← l !! i; tree_at p t
  | inr k :: p, TObject l => t ← member_find k l; tree_at p t
  | _, _ => None
  end.
Fixpoint tree_assign (p : path) (f : tree -> tree) (t : tree) : tree :=
  match p, t with
  | [], _ => f t
  | inl i :: p, TArray l => TArray (alter (tree_assign p f) i l)
  | inr k :: p, TObject l => TObject (member_at k (tree_assign p f) l)
  | _, _ => t
  end.

(** ** The handler *)

Inductive parse_event_t := ev_object_start | ev_object_end | ev_array_start | ev_array_end | ev_key | ev_value.

Section callback.
  (** [parser_callback_t]: depth, event and the value by reference. *)
  Context {C : Type} (callback : C -> nat -> parse_event_t -> tree -> bool * tree * C).

  (** [ref_stack] and the stacks of flags with their backs first; a null pointer is [None]. *)
Record cb_parser := MkCb {
    cb_root : tree; cb_refs : list (option path); keep_stack : list bool; key_keep_stack : list bool;
    cb_element : option path; cb_errored : bool; cb_allow_exceptions : bool; discarded : tree; cb_state : C }.

Definition mk_cb (r : tree) (c : C) (allow_exceptions : bool) : cb_parser := MkCb r [] [true] [] None false allow_exceptions TDiscarded c.

Definition set_root (r : tree) (s : cb_parser) : cb_parser :=
    MkCb r (cb_refs s) (keep_stack s) (key_keep_stack s) (cb_element s) (cb_errored s) (cb_allow_exceptions s) (discarded s) (cb_state s).
Definition set_refs (refs : list (option path)) (s : cb_parser) : cb_parser :=
    MkCb (cb_root s) refs (keep_stack s) (key_keep_stack s) (cb_element s) (cb_errored s) (cb_allow_exceptions s) (discarded s) (cb_state s).
Definition set_keeps (keeps : list bool) (s : cb_parser) : cb_parser :=
    MkCb (cb_root s) (cb_refs s) keeps (key_keep_stack s) (cb_element s) (cb_errored s) (cb_allow_exceptions s) (discarded s) (cb_state s).
Definition set_keys (keys : list bool) (s : cb_parser) : cb_parser :=
    MkCb (cb_root s) (cb_refs s) (keep_stack s) keys (cb_element s) (cb_errored s) (cb_allow_exceptions s) (discarded s) (cb_state s).
Definition set_element (e : option path) (s : cb_parser) : cb_parser :=
    MkCb (cb_root s) (cb_refs s) (keep_stack s) (key_keep_stack s) e (cb_errored s) (cb_allow_exceptions s) (discarded s) (cb_state s).
Definition set_state (d : tree) (c : C) (s : cb_parser) : cb_parser :=
    MkCb (cb_root s) (cb_refs s) (keep_stack s) (key_keep_stack s) (cb_element s) (cb_errored s) (cb_allow_exceptions s) d c.

  (** A call of the callback with a value of its own. *)
Definition call (depth : nat) (ev : parse_event_t) (t : tree) (s : cb_parser) : bool * tree * cb_parser :=
    let '(keep, t, c) := callback (cb_state s) depth ev t in (keep, t, set_state (discarded s) c s).

Definition cb_handle_value (v : tree) (skip_callback : bool) (s : cb_parser) : option (option path * cb_parser) :=
    match keep_stack s with
    | [] => None
    | false :: _ => Some (None, s)
    | true :: _ =>
        let '(keep, value, s) := if skip_callback then (true, v, s) else call (length (cb_refs s)) ev_value v s in
        if negb keep then Some (None, s)
        else
          match cb_refs s with
          | [] => Some (Some [], set_root value s)
          | None :: _ => Some (None, s)
          | Some back :: _ =>
              match tree_at back (cb_root s) with
              | Some (TArray l) =>
                  Some (Some (back ++ [inl (length l)]),
                        set_root (tree_assign back (fun a => match a with TArray l => TArray (l ++ [value]) | _ => a end) (cb_root s)) s)
              | Some (TObject _) =>
                  match key_keep_stack s with
                  | [] => None
                  | store_element :: keys =>
                      let s := set_keys keys s in
                      if negb store_element then Some (None, s)
                      else e ← cb_element s; Some (Some e, set_root (tree_assign e (fun _ => value) (cb_root s)) s)
                  end
              | _ => None
              end
          end
    end.

Definition cb_value (v : value) (s : cb_parser) : option (bool * cb_parser) :=
    '(_, s) ← cb_handle_value (tree_of v) false s; Some (true, s).

  (** The member [discarded] is what the callback is shown at a start. *)
Definition cb_start (ev : parse_event_t) (v : tree) (s : cb_parser) : option (bool * cb_parser) :=
    let '(keep, d, c) := callback (cb_state s) (length (cb_refs s)) ev (discarded s) in
    let s := set_keeps (keep :: keep_stack s) (set_state d c s) in
    '(ref, s) ← cb_handle_value v true s;
    Some (true, set_refs (ref :: cb_refs s) s).

Definition cb_key (k : bytes) (s : cb_parser) : option (bool * cb_parser) :=
    let '(keep, _, s) := call (length (cb_refs s)) ev_key (TScalar (VString k)) s in
    let s := set_keys (keep :: key_keep_stack s) s in
    match cb_refs s with
    | [] => None
    | None :: _ => Some (true, s)
    | Some back :: _ =>
        if keep then
          match tree_at back (cb_root s) with
          | Some (TObject _) =>
              let d := discarded s in
              Some (true, set_element (Some (back ++ [inr k]))
                (set_root (tree_assign back (fun o => match o with TObject l => TObject (member_at k (fun _ => d) l) | _ => o end) (cb_root s)) s))
          | _ => None
          end
        else Some (true, s)
    end.

  (** Asking about the container that ends, which is discarded or what the callback made of it. *)
Definition ask_end (ev : parse_event_t) (s : cb_parser) : option (bool * cb_parser) :=
    match cb_refs s with
    | [] => None
    | None :: _ => Some (true, s)
    | Some back :: st =>
        t ← tree_at back (cb_root s);
        let '(keep, t, s) := call (length st) ev t s in
        let t := if keep then t else discarded s in
        Some (keep, set_root (tree_assign back (fun _ => t) (cb_root s)) s)
    end.

Definition pop_refs (s : cb_parser) : option cb_parser :=
    match cb_refs s, keep_stack s with _ :: refs, _ :: keeps => Some (set_keeps keeps (set_refs refs s)) | _, _ => None end.

  (** The first discarded child is erased. *)
Fixpoint erase_first {A} (p : A -> bool) (l : list A) : list A :=
    match l with [] => [] | x :: l => if p x then l else x :: erase_first p l end.
Definition erase_discarded (t : tree) : tree :=
    match t with
    | TArray l => TArray (erase_first is_discarded l)
    | TObject l => TObject (erase_first (fun kv => is_discarded (snd kv)) l)
    | _ => t
    end.

Definition cb_end_object (s : cb_parser) : option (bool * cb_parser) :=
    '(_, s) ← ask_end ev_object_end s;
    s ← pop_refs s;
    match cb_refs s with
    | Some back :: _ => _ ← tree_at back (cb_root s); Some (true, set_root (tree_assign back erase_discarded (cb_root s)) s)
    | _ => Some (true, s)
    end.

Definition pop_back_array (t : tree) : tree := match t with TArray l => TArray (removelast l) | _ => t end.

Definition cb_end_array (s : cb_parser) : option (bool * cb_parser) :=
    '(keep, s) ← ask_end ev_array_end s;
    s ← pop_refs s;
    if keep : bool then Some (true, s)
    else
      match cb_refs s with
      | [] => Some (true, s)
      | None :: _ => None
      | Some back :: _ => _ ← tree_at back (cb_root s); Some (true, set_root (tree_assign back pop_back_array (cb_root s)) s)
      end.

Definition cb_parse_error (ex : exn) (s : cb_parser) : sax_end * cb_parser :=
    (if cb_allow_exceptions s then Raise ex else Ret false,
     MkCb (cb_root s) (cb_refs s) (keep_stack s) (key_keep_stack s) (cb_element s) true (cb_allow_exceptions s) (discarded s) (cb_state s)).

#[export] Instance cb_SAX : SAX cb_parser := {
    sax_null := cb_value VNull;
    sax_boolean b := cb_value (VBool b);
    sax_number_integer z := cb_value (VInteger z);
    sax_number_unsigned z := cb_value (VUnsigned z);
    sax_number_float x _ := cb_value (VFloat x);
    sax_string t := cb_value (VString t);
    sax_binary b := cb_value (VBinary b);
    sax_start_object := cb_start ev_object_start (TObject []);
    sax_key := cb_key;
    sax_end_object := cb_end_object;
    sax_start_array := cb_start ev_array_start (TArray []);
    sax_end_array := cb_end_array;
    sax_parse_error _ _ ex := cb_parse_error ex }.

  (** [parser::parse] with a callback, and [basic_json::parse]. *)
Inductive cb_result := CbParsed (t : tree) | CbDiscarded | CbThrown (e : exn).

Definition parser_parse_callback (ignore_comments : bool) (fuel : nat) (strict allow_exceptions : bool) (c : C) (p : parser) : option cb_result :=
    '(r, p, s) ← sax_parse_internal ignore_comments fuel fuel p (mk_cb (TScalar VNull) c allow_exceptions);
    match r with
    | Raise e => Some (CbThrown e)
    | Ret _ =>
        '(r, s) ← (if strict then expect_end ignore_comments fuel p s else Some (Ret true, s));
        match r with
        | Raise e => Some (CbThrown e)
        | Ret _ => Some (if cb_errored s then CbDiscarded else CbParsed (if is_discarded (cb_root s) then TScalar VNull else cb_root s))
        end
    end.

Definition parse_callback (allow_exceptions ignore_comments : bool) (c : C) (input : bytes) : option cb_result :=
    p ← mk_parser ignore_comments input;
    parser_parse_callback ignore_comments (input_fuel input) true allow_exceptions c p.
End callback.

Arguments cb_parser : clear implicits.

(** ** Paths in trees *)

Lemma member_find_at k f l : member_find k (member_at k f l) = Some (f (default (TScalar VNull) (member_find k l))).
Proof.
  induction l as [|[k' t'] l IH]; cbn [member_find member_at]; [by rewrite bytes_lt_irrefl, bool_decide_true|].
  destruct (bytes_lt k k') eqn:Hlt; cbn [member_find]; [by rewrite bytes_lt_irrefl, bool_decide_true|].
  case_test; cbn [member_find]; rewrite Hlt; [|by rewrite Heqb]. by rewrite Heqb.
Qed.

Lemma tree_at_app p x t : tree_at (p ++ x) t = tree_at p t ≫= tree_at x.
Proof.
  revert t. induction p as [|[i|k] p IH]; intros t; [done| |]; destruct t; try done; cbn [app tree_at].
  - destruct (l !! i); [apply IH|done].
  - destruct (member_find k l); [apply IH|done].
Qed.

Lemma tree_at_assign p x f t w : tree_at p t = Some w -> tree_at p (tree_assign (p ++ x) f t) = Some (tree_assign x f w).
Proof.
  revert t. induction p as [|[i|k] p IH]; intros t Ht; [injection Ht as ->; by destruct x| |]; destruct t; try done; cbn in *.
  - destruct (l !! i) as [t|] eqn:Hl; [|done]. rewrite list_lookup_alter_eq, Hl. by apply IH.
  - destruct (member_find k l) as [t|] eqn:Hl; [|done]. rewrite member_find_at, Hl. by apply IH.
Qed.

Lemma tree_at_here p f t w : tree_at p t = Some w -> tree_at p (tree_assign p f t) = Some (f w).
Proof. intros Ht. pose proof (tree_at_assign p [] f t w Ht) as Ha. by rewrite app_nil_r in Ha. Qed.

(** ** Whatever the callback answers no pointer goes wrong *)

Definition holds_container (array : bool) (t : option tree) : Prop :=
  match t with Some (TArray _) => array = true | Some (TObject _) => array = false | _ => False end.

(** A pointer that is not null lies below the one under it, which is not null either. *)
Definition below (p : path) (st : list (option path)) : Prop :=
  match st with [] => p = [] | Some q :: _ => exists e x, p = q ++ e :: x | None :: _ => False end.

Fixpoint refs_ok (r : tree) (states : list bool) (st : list (option path)) : Prop :=
  match states, st with
  | [], [] => True
  | _ :: states, None :: st => refs_ok r states st
  | b :: states, Some p :: st => holds_container b (tree_at p r) /\ below p st /\ refs_ok r states st
  | _, _ => False
  end.

Lemma refs_ok_length r states st : refs_ok r states st -> length st = length states.
Proof. revert states. induction st as [|[p|] st IH]; intros [|b states]; try done; cbn; [intros (_ & _ & Hs)|intros Hs]; by rewrite (IH states). Qed.

Lemma refs_ok_assign r states back st x f :
  refs_ok r states (Some back :: st) -> (x = [] -> forall b w, holds_container b (Some w) -> holds_container b (Some (f w))) ->
  refs_ok (tree_assign (back ++ x) f r) states (Some back :: st).
Proof.
  revert states back x. induction st as [|[q|] st IH]; intros [|b states] back x; try done; intros (Hc & Hu & Hs) Hf; [| |done].
  all: assert (holds_container b (tree_at back (tree_assign (back ++ x) f r))) as Hc'.
  1, 3: destruct (tree_at back r) as [w|] eqn:Hw; [|done]; rewrite (tree_at_assign _ _ _ _ _ Hw);
    destruct x as [|e x]; [by apply Hf|destruct e, w; done].
  - cbn. destruct states; done.
  - split_and!; [done|done|]. destruct Hu as (e & y & ->). rewrite <- app_assoc. apply IH; [done|done].
Qed.

Lemma refs_ok_same r states back st f :
  refs_ok r states (Some back :: st) -> (forall b w, holds_container b (Some w) -> holds_container b (Some (f w))) ->
  refs_ok (tree_assign back f r) states (Some back :: st).
Proof. intros Hs Hf. rewrite <- (app_nil_r back) at 1. by apply refs_ok_assign. Qed.

Lemma refs_ok_below r states st q f : refs_ok r states st -> below q st -> refs_ok (tree_assign q f r) states st.
Proof.
  destruct st as [|[back|] st]; [by destruct states| |done]. intros Hs (e & x & ->). by apply refs_ok_assign.
Qed.

Section safe.
  Context {C : Type} (callback : C -> nat -> parse_event_t -> tree -> bool * tree * C).
  Implicit Types s : cb_parser C.

  (** What a value will be stored under: the flag of its key, and the element when it is kept. *)
Definition key_ready s : Prop :=
    exists keep keys, key_keep_stack s = keep :: keys /\
      (keep = true -> match cb_refs s with
                      | Some back :: _ => exists k, cb_element s = Some (back ++ [inr k]) /\ is_Some (tree_at (back ++ [inr k]) (cb_root s))
                      | _ => True
                      end).

Definition cb_inv (states : list bool) (expects : bool) s : Prop :=
    refs_ok (cb_root s) states (cb_refs s) /\ length (keep_stack s) = S (length states) /\
    (expects = true -> match states with false :: _ => key_ready s | _ => True end).

Lemma handle_value_safe states v skip s :
    refs_ok (cb_root s) states (cb_refs s) -> keep_stack s <> [] -> match states with false :: _ => key_ready s | _ => True end ->
    exists ref s', cb_handle_value callback v skip s = Some (ref, s') /\ refs_ok (cb_root s') states (cb_refs s) /\
      cb_refs s' = cb_refs s /\ keep_stack s' = keep_stack s /\
      (forall q, ref = Some q -> below q (cb_refs s) /\ (skip = true -> tree_at q (cb_root s') = Some v)).
Proof.
    intros Hr Hk He. unfold cb_handle_value. destruct (keep_stack s) as [|[] keeps] eqn:Hks; [done| |by eexists _, _].
    set (asked := if skip then _ else _). assert (exists keep value d c, asked = (keep, value, set_state d c s) /\ (skip = true -> value = v)) as (keep & value & d & c & -> & Hv).
    { unfold asked. destruct skip; [exists true, v, (discarded s), (cb_state s); by destruct s|]. unfold call.
      destruct (callback _ _ _ _) as [[k t] c]. by exists k, t, (discarded s), c. }
    destruct keep; cbn [negb]; [|by eexists _, _]. cbn [set_state cb_refs cb_root key_keep_stack].
    destruct (cb_refs s) as [|[back|] st] eqn:Hst; [..|by eexists _, _].
    - eexists _, _. split; [done|]. cbn [set_root cb_root cb_refs keep_stack set_state]. split_and!; try done.
      + by destruct states.
      + intros q [= <-]. split; [done|]. intros Hsk. by rewrite (Hv Hsk).
    - destruct states as [|b states]; [done|]. pose proof Hr as (Hc & Hb & Hs'). destruct (tree_at back (cb_root s)) as [w|] eqn:Hw; [|done].
      destruct w as [| |l|l]; try done; cbn in Hc; subst b.
      + eexists _, _. split; [done|]. cbn [set_root cb_root cb_refs keep_stack set_state]. split_and!; try done.
        * apply refs_ok_same; [done|]. intros b w. by destruct w.
        * intros q [= <-]. split; [by do 2 eexists|]. intros Hsk. rewrite (Hv Hsk), tree_at_app, (tree_at_here _ _ _ _ Hw). cbn.
          rewrite lookup_app_r, Nat.sub_diag by lia. done.
      + destruct He as (keep & keys & Hkk & He). rewrite Hkk. destruct keep; cbn [negb]; [|by eexists _, _].
        specialize (He eq_refl). rewrite Hst in He. destruct He as (k & Hel & [w Hw']). cbn [set_keys cb_element set_state]. rewrite Hel. cbn [mbind option_bind].
        eexists _, _. split; [done|]. cbn [set_root cb_root cb_refs keep_stack set_state set_keys]. split_and!; try done.
        * apply refs_ok_below; [done|]. by do 2 eexists.
        * intros q [= <-]. split; [by do 2 eexists|]. intros Hsk. by rewrite (Hv Hsk), (tree_at_here _ _ _ _ Hw').
Qed.

Lemma cb_value_safe states v s : cb_inv states true s -> call_ok (cb_inv states false) (cb_value callback v s).
Proof.
    intros (Hr & Hk & He). destruct (handle_value_safe states (tree_of v) false s Hr ltac:(by destruct (keep_stack s)) (He eq_refl)) as (ref & s' & Heq & Hr' & Hrefs & Hks & _).
    unfold cb_value. rewrite Heq. exists true, s'. split; [done|]. unfold cb_inv. by rewrite Hrefs, Hks.
Qed.

Lemma cb_start_safe states b ev v s :
    cb_inv states true s -> holds_container b (Some v) -> call_ok (cb_inv (b :: states) false) (cb_start callback ev v s).
Proof.
    intros (Hr & Hk & He) Hb. unfold cb_start. destruct (callback _ _ _ _) as [[keep d] c]. set (s1 := set_keeps _ _).
    destruct (handle_value_safe states v true s1 Hr ltac:(done) (He eq_refl)) as (ref & s' & -> & Hr' & Hrefs & Hks & Href).
    cbn [mbind option_bind]. eexists true, _. split; [done|]. unfold cb_inv. cbn [set_refs cb_root cb_refs keep_stack]. rewrite Hrefs, Hks.
    cbn [s1 set_keeps set_state cb_refs keep_stack] in *. split_and!; [|cbn; lia|done]. destruct ref as [q|]; [|done].
    destruct (Href q eq_refl) as [Hq Hv]. cbn. split_and!; [by rewrite (Hv eq_refl)|done|done].
Qed.

Lemma cb_key_safe states k s : cb_inv (false :: states) false s -> call_ok (cb_inv (false :: states) true) (cb_key callback k s).
Proof.
    intros (Hr & Hk & _). unfold cb_key, call. destruct (callback _ _ _ _) as [[keep t] c]. cbn [set_keys set_state cb_refs cb_root discarded].
    destruct (cb_refs s) as [|[back|] st] eqn:Hst; [done| |].
    - destruct keep.
      + pose proof Hr as (Hc & _). destruct (tree_at back (cb_root s)) as [[]|] eqn:Hw; try done. eexists true, _. split; [done|].
        unfold cb_inv, key_ready. cbn [set_element set_root set_keys set_state cb_root cb_refs keep_stack key_keep_stack cb_element]. rewrite Hst. split_and!; [|done|].
        * apply refs_ok_same; [done|]. intros b w. by destruct w.
        * intros _. eexists true, _. split; [done|]. intros _. exists k. split; [done|]. rewrite tree_at_app, (tree_at_here _ _ _ _ Hw). cbn. rewrite member_find_at. by eexists.
      + eexists true, _. split; [done|]. unfold cb_inv, key_ready. cbn [set_keys set_state cb_root cb_refs keep_stack key_keep_stack]. rewrite Hst.
        split_and!; [done|done|]. intros _. by eexists false, _.
    - eexists true, _. split; [done|]. unfold cb_inv, key_ready. cbn [set_keys set_state cb_root cb_refs keep_stack key_keep_stack]. rewrite Hst.
      split_and!; [done|done|]. intros _. by eexists _, _.
Qed.

(** The end of a container: the callback is asked, and the pointer popped. *)
Lemma ask_end_safe states b ev s : cb_inv (b :: states) false s ->
    exists keep s1 s2, ask_end callback ev s = Some (keep, s1) /\ pop_refs s1 = Some s2 /\ cb_inv states false s2 /\
      (keep = false -> match cb_refs s2 with None :: _ => False | _ => True end).
Proof.
    intros (Hr & Hk & _). unfold ask_end, pop_refs, call. destruct (keep_stack s) as [|k keeps] eqn:Hks; [done|].
    destruct (cb_refs s) as [|[back|] st] eqn:Hst; [done| |].
    - pose proof Hr as (Hc & Hb & Hs). destruct (tree_at back (cb_root s)) as [w|] eqn:Hw; [|done]. cbn [mbind option_bind].
      destruct (callback _ _ _ _) as [[keep t] c]. eexists keep, _, _. split; [done|]. cbn [set_root set_state cb_refs keep_stack]. rewrite Hst, Hks.
      split; [done|]. unfold cb_inv. cbn [set_keeps set_refs set_root set_state cb_root cb_refs keep_stack discarded].
      split; [split_and!; [by apply refs_ok_below|cbn in Hk; lia|done]|]. intros _. by destruct st as [|[q|] st].
    - eexists true, s, _. rewrite Hst, Hks. split; [done|]. split; [done|]. split; [|done].
      unfold cb_inv. cbn [set_keeps set_refs cb_root cb_refs keep_stack]. split_and!; [exact Hr|cbn in Hk; lia|done].
Qed.

(** A change of the container the ended one was in. *)
Lemma change_top_safe states s f back st :
    cb_inv states false s -> cb_refs s = Some back :: st -> (forall b w, holds_container b (Some w) -> holds_container b (Some (f w))) ->
    call_ok (cb_inv states false) (_ ← tree_at back (cb_root s); Some (true, set_root (tree_assign back f (cb_root s)) s)).
Proof.
    intros (Hr & Hk & _) Hst Hf. rewrite Hst in Hr. destruct states as [|b states]; [done|]. pose proof Hr as (Hc & _).
    destruct (tree_at back (cb_root s)) as [w|]; [|done]. cbn [mbind option_bind]. eexists true, _. split; [done|]. unfold cb_inv.
    cbn [set_root cb_root cb_refs keep_stack]. rewrite Hst. split_and!; [by apply refs_ok_same|done|done].
Qed.

Lemma cb_end_object_safe states s : cb_inv (false :: states) false s -> call_ok (cb_inv states false) (cb_end_object callback s).
Proof.
    intros Hi. destruct (ask_end_safe states false ev_object_end s Hi) as (keep & s1 & s2 & He & Hp & Hs2 & _). unfold cb_end_object. rewrite He.
    cbn [mbind option_bind]. rewrite Hp. cbn [mbind option_bind]. destruct (cb_refs s2) as [|[back|] st] eqn:Hst; [by eexists true, s2| |by eexists true, s2].
    apply (change_top_safe states s2 erase_discarded back st Hs2 Hst). intros b w. by destruct w.
Qed.

Lemma cb_end_array_safe states s : cb_inv (true :: states) false s -> call_ok (cb_inv states false) (cb_end_array callback s).
Proof.
    intros Hi. destruct (ask_end_safe states true ev_array_end s Hi) as (keep & s1 & s2 & He & Hp & Hs2 & Hn). unfold cb_end_array. rewrite He.
    cbn [mbind option_bind]. rewrite Hp. cbn [mbind option_bind]. destruct keep; [by eexists true, s2|]. specialize (Hn eq_refl).
    destruct (cb_refs s2) as [|[back|] st] eqn:Hst; [by eexists true, s2| |done].
    apply (change_top_safe states s2 pop_back_array back st Hs2 Hst). intros b w. by destruct w.
Qed.

#[local] Instance run_cb_SAX : SAX (cb_parser C) := cb_SAX callback.

#[export] Instance cb_safe : SAXSafe (cb_parser C) cb_inv.
Proof.
  split; intros; cbn;
    first [by apply cb_value_safe|by apply cb_start_safe|by apply cb_key_safe|by apply cb_end_object_safe|by apply cb_end_array_safe|idtac].
  destruct H as (Hr & Hk & _). by split_and!.
Qed.
End safe.

(** Whatever a callback answers, changes and remembers, parsing with it ends on every byte
    sequence: with a value, the discarded value or an exception, within the fuel of the plain
    parser, without following a null or dangling pointer or popping an empty stack. *)
Theorem parse_callback_total {C} (callback : C -> nat -> parse_event_t -> tree -> bool * tree * C) allow_exceptions ignore_comments c input :
  is_Some (parse_callback callback allow_exceptions ignore_comments c input).
Proof.
  unfold parse_callback. destruct (mk_parser_total ignore_comments input) as (p & -> & Hp & Hf). cbn [mbind option_bind].
  set (n := input_fuel input) in *. unfold parser_parse_callback, sax_parse_internal.
  destruct (@sax_loop_total (cb_parser C) (cb_SAX callback) cb_inv (cb_safe callback) ignore_comments n (fun _ _ => True) ltac:(done) ltac:(done) ltac:(done) n false [] p (mk_cb (TScalar VNull) c allow_exceptions))
    as (r & p' & s & -> & _ & Hp'); [done|by split_and!|done|]. cbn [mbind option_bind]. destruct r; [|by eexists].
  destruct (@expect_end_total (cb_parser C) (cb_SAX callback) ignore_comments n (fun _ _ => True) ltac:(done) p' s Hp' I) as (r2 & s2 & -> & _).
  cbn [mbind option_bind]. by destruct r2; eexists.
Qed.

(** ** Two handlers that do the same *)

(** Calls that both continue, with related states. *)
Definition both_continue {A D} (P : A -> D -> Prop) (r1 : option (bool * A)) (r2 : option (bool * D)) : Prop :=
  exists a d, r1 = Some (true, a) /\ r2 = Some (true, d) /\ P a d.

(** A relation of the states, given the stack of the parser and whether a value is to come, that
    the events of the parser keep; states of which it holds can both be told of an error ([F]), and
    the run leaves related ends ([E]). *)
Class Simulation {A D : Type} (HA : SAX A) (HD : SAX D) (R : list bool -> bool -> A -> D -> Prop) (F E : A -> D -> Prop) : Prop := {
  sim_null st a d : R st true a d -> both_continue (R st false) (sax_null a) (sax_null d);
  sim_boolean st b a d : R st true a d -> both_continue (R st false) (sax_boolean b a) (sax_boolean b d);
  sim_integer st z a d : R st true a d -> both_continue (R st false) (sax_number_integer z a) (sax_number_integer z d);
  sim_unsigned st z a d : R st true a d -> both_continue (R st false) (sax_number_unsigned z a) (sax_number_unsigned z d);
  sim_float st x t a d : R st true a d -> both_continue (R st false) (sax_number_float x t a) (sax_number_float x t d);
  sim_string st t a d : R st true a d -> both_continue (R st false) (sax_string t a) (sax_string t d);
  sim_start_object st a d : R st true a d -> both_continue (R (false :: st) false) (sax_start_object a) (sax_start_object d);
  sim_key st k a d : R (false :: st) false a d -> both_continue (R (false :: st) true) (sax_key k a) (sax_key k d);
  sim_end_object st a d : R (false :: st) false a d -> both_continue (R st false) (sax_end_object a) (sax_end_object d);
  sim_start_array st a d : R st true a d -> both_continue (R (true :: st) false) (sax_start_array a) (sax_start_array d);
  sim_next st a d : R (true :: st) false a d -> R (true :: st) true a d;
  sim_end_array st a d : R (true :: st) false a d -> both_continue (R st false) (sax_end_array a) (sax_end_array d);
  sim_tells st e a d : R st e a d -> F a d;
  sim_ends a d : R [] false a d -> E a d;
  sim_ended a d : E a d -> F a d;
  sim_error n t x a d : F a d ->
    fst (sax_parse_error n t x a) = fst (sax_parse_error n t x d) /\ E (snd (sax_parse_error n t x a)) (snd (sax_parse_error n t x d)) }.

Section simulation.
  Context {A D : Type} {HA : SAX A} {HD : SAX D} {R : list bool -> bool -> A -> D -> Prop} {F E : A -> D -> Prop} `{!Simulation HA HD R F E}.
  Context (ic : bool) (lf : nat).

Definition related (states : option (list bool)) (ph1 : option (phase A)) (ph2 : option (phase D)) : Prop :=
    match ph1, ph2 with
    | None, None => True
    | Some (Continue skip1 st1 p1 a), Some (Continue skip2 st2 p2 d) => skip1 = skip2 /\ st1 = st2 /\ p1 = p2 /\ R st1 (negb skip1) a d
    | Some (Evaluate p1 a), Some (Evaluate p2 d) => p1 = p2 /\ match states with Some st => R st false a d | None => False end
    | Some (Finish r1 p1 a), Some (Finish r2 p2 d) => r1 = r2 /\ p1 = p2 /\ E a d
    | _, _ => False
    end.

Lemma raise_related states e p a d : F a d -> related states (raise e p a) (raise e p d).
Proof.
    intros HE. unfold raise. destruct (sim_error (chars_read_total (position (m_lexer p))) (get_token_string (m_lexer p)) e a d HE) as [H1 H2].
    destruct (sax_parse_error _ _ e a) as [r1 a'], (sax_parse_error _ _ e d) as [r2 d']. by cbn in *.
Qed.

Lemma event_related states P c1 c2 p k1 k2 :
    both_continue P c1 c2 -> (forall a d, P a d -> related states (k1 a) (k2 d)) -> related states (event c1 p k1) (event c2 p k2).
Proof. intros (a & d & -> & -> & HP) Hk. by apply Hk. Qed.

Lemma scalar_related st c1 c2 p : both_continue (R st false) c1 c2 -> related (Some st) (scalar c1 p) (scalar c2 p).
Proof. intros Hc. unfold scalar. eapply event_related; [exact Hc|]. by intros a d Ha. Qed.

Lemma token_related states p (k1 : parser -> option (phase A)) (k2 : parser -> option (phase D)) :
    (forall p, related states (k1 p) (k2 p)) -> related states (p ← get_token ic lf p; k1 p) (p ← get_token ic lf p; k2 p).
Proof. intros Hk. destruct (get_token ic lf p); [apply Hk|done]. Qed.

Lemma parse_key_related states st p a d : R (false :: st) false a d -> related states (parse_key ic lf (false :: st) p a) (parse_key ic lf (false :: st) p d).
Proof.
    intros Ha. unfold parse_key, unexpected. case_match; [eapply raise_related, sim_tells, Ha|]. eapply event_related; [by apply sim_key|].
    intros a1 d1 H1. apply token_related. intros p1. case_match; [eapply raise_related, sim_tells, H1|]. by apply token_related.
Qed.

Lemma parse_token_related states p a d : R states true a d -> related (Some states) (parse_token ic lf states p a) (parse_token ic lf states p d).
Proof.
    intros Ha. pose proof (sim_tells _ _ _ _ Ha) as HE. unfold parse_token, unexpected.
    destruct (last_token p); try (by apply raise_related); try (by apply scalar_related; eauto using sim_null, sim_boolean, sim_integer, sim_unsigned, sim_string).
    - case_match; [by apply raise_related|]. apply scalar_related. by apply sim_float.
    - eapply event_related; [by apply sim_start_array|]. intros a1 d1 H1. apply token_related. intros p1. case_match.
      + apply scalar_related. by apply sim_end_array.
      + cbn; split_and!; try done; by apply sim_next.
    - eapply event_related; [by apply sim_start_object|]. intros a1 d1 H1. apply token_related. intros p1. case_match.
      + apply scalar_related. by apply sim_end_object.
      + by apply parse_key_related.
Qed.

Lemma evaluate_related states p a d : R states false a d -> related None (evaluate ic lf states p a) (evaluate ic lf states p d).
Proof.
    intros Ha. pose proof (sim_tells _ _ _ _ Ha) as HE. unfold evaluate, unexpected. destruct states as [|[] st]; [cbn; split_and!; try done; by apply sim_ends| |]; apply token_related; intros p1; case_match.
    - apply token_related. intros p2. cbn; split_and!; try done; by apply sim_next.
    - case_match; [|by apply raise_related]. eapply event_related; [by apply sim_end_array|]. done.
    - apply token_related. intros p2. by apply parse_key_related.
    - case_match; [|by apply raise_related]. eapply event_related; [by apply sim_end_object|]. done.
Qed.

Lemma iteration_related skip states p a d :
    R states (negb skip) a d -> related None (iteration ic lf skip states p a) (iteration ic lf skip states p d).
Proof.
    intros Ha. unfold iteration. assert (related (Some states) (if skip then Some (Evaluate p a) else parse_token ic lf states p a)
      (if skip then Some (Evaluate p d) else parse_token ic lf states p d)) as Hr by (destruct skip; [done|by apply parse_token_related]).
    destruct (if skip then Some (Evaluate p a) else _) as [[]|], (if skip then Some (Evaluate p d) else _) as [[]|]; try done.
    cbn [mbind option_bind]. destruct Hr as [-> Hr]. by apply evaluate_related.
Qed.

Lemma sax_loop_related fuel skip states p a d :
    R states (negb skip) a d ->
    match sax_loop ic lf fuel skip states p a, sax_loop ic lf fuel skip states p d with
    | None, None => True
    | Some (r1, p1, a'), Some (r2, p2, d') => r1 = r2 /\ p1 = p2 /\ E a' d'
    | _, _ => False
    end.
Proof.
    revert skip states p a d. induction fuel as [|fuel IH]; intros skip states p a d Ha; [done|]. cbn [sax_loop]. pose proof (iteration_related skip states p a d Ha) as Hr.
    destruct (iteration ic lf skip states p a) as [[]|], (iteration ic lf skip states p d) as [[]|]; try done. cbn [mbind option_bind].
    destruct Hr as (-> & -> & -> & Hr). by apply IH.
Qed.

Lemma expect_end_related p a d : E a d ->
    match expect_end ic lf p a, expect_end ic lf p d with
    | None, None => True
    | Some (r1, a'), Some (r2, d') => r1 = r2 /\ E a' d'
    | _, _ => False
    end.
Proof.
    intros HE. unfold expect_end. destruct (get_token ic lf p) as [p1|]; [|done]. cbn [mbind option_bind]. destruct (bool_decide _); [by split|].
    destruct (sim_error (chars_read_total (position (m_lexer p1))) (get_token_string (m_lexer p1))
      (parse_error_create 101 (position (m_lexer p1)) (exception_message p1 end_of_input (B "value"))) a d (sim_ended a d HE)) as [H1 H2].
    destruct (sax_parse_error _ _ _ a), (sax_parse_error _ _ _ d). by cbn in *.
Qed.
End simulation.

(** ** Trees of values *)

Lemma member_at_ext k f g l : (forall t, f t = g t) -> member_at k f l = member_at k g l.
Proof.
  intros Hf. induction l as [|[k' t'] l IH]; cbn [member_at]; [by rewrite Hf|]. destruct (bytes_lt k k'); [by rewrite Hf|].
  case_test; [by rewrite Hf|by rewrite IH].
Qed.

Lemma member_at_at k f g l : member_at k f (member_at k g l) = member_at k (fun x => f (g x)) l.
Proof.
  induction l as [|[k' t'] l IH]; cbn [member_at]; [by rewrite bytes_lt_irrefl, bool_decide_true|].
  destruct (bytes_lt k k') eqn:Hlt; cbn [member_at]; [by rewrite bytes_lt_irrefl, bool_decide_true|].
  case_test; cbn [member_at]; rewrite Hlt, Heqb; [done|by rewrite IH].
Qed.

Lemma tree_assign_ext p f g t : (forall w, f w = g w) -> tree_assign p f t = tree_assign p g t.
Proof.
  intros Hf. revert t. induction p as [|[i|k] p IH]; intros t; [apply Hf| |]; destruct t; try done; cbn [tree_assign]; f_equal.
  - apply list_alter_ext; [|done]. intros x _. apply IH.
  - apply member_at_ext. exact IH.
Qed.

Lemma tree_assign_app p x f t : tree_assign (p ++ x) f t = tree_assign p (tree_assign x f) t.
Proof.
  revert t. induction p as [|[i|k] p IH]; intros t; [done| |]; destruct t; try done; cbn [app tree_assign]; f_equal.
  - apply list_alter_ext; [|done]. intros y _. apply IH.
  - apply member_at_ext. exact IH.
Qed.

Lemma tree_assign_assign p f g t : tree_assign p f (tree_assign p g t) = tree_assign p (fun x => f (g x)) t.
Proof.
  revert t. induction p as [|[i|k] p IH]; intros t; [done| |]; destruct t; try done; cbn [tree_assign]; f_equal.
  - rewrite list_alter_alter_eq. apply list_alter_ext; [|done]. intros y _. apply IH.
  - rewrite member_at_at. apply member_at_ext. exact IH.
Qed.

Definition members_of (l : list (bytes * value)) : list (bytes * tree) := map (fun kv => (fst kv, tree_of (snd kv))) l.

Lemma member_find_of k l : member_find k (members_of l) = tree_of <$> object_find k l.
Proof. induction l as [|[k' v'] l IH]; [done|]. cbn. destruct (bytes_lt k k'); [done|]. case_test; [done|exact IH]. Qed.

Lemma member_at_of k f g l :
  g (tree_of (default VNull (object_find k l))) = tree_of (f (default VNull (object_find k l))) -> member_at k g (members_of l) = members_of (object_at k f l).
Proof.
  induction l as [|[k' v'] l IH]; cbn [object_find members_of map member_at object_at fst snd]; [by cbn; intros ->|].
  destruct (bytes_lt k k'); [by cbn; intros ->|]. case_test; [by cbn; intros ->|]. intros Hg. cbn [map fst snd]. f_equal. by apply IH.
Qed.

Lemma tree_at_of p r : tree_at p (tree_of r) = tree_of <$> value_at p r.
Proof.
  revert r. induction p as [|[i|k] p IH]; intros r; [done| |]; destruct r; try done; cbn [tree_of tree_at value_at].
  - change (map tree_of l) with (tree_of <$> l). rewrite list_lookup_fmap. by destruct (l !! i); cbn.
  - rewrite member_find_of. by destruct (object_find k l); cbn.
Qed.

Lemma tree_assign_of p f g r w : value_at p r = Some w -> g (tree_of w) = tree_of (f w) -> tree_assign p g (tree_of r) = tree_of (assign p f r).
Proof.
  revert r. induction p as [|[i|k] p IH]; intros r Hr Hg; [by injection Hr as ->| |]; destruct r; try done; cbn [value_at] in Hr; cbn [tree_of tree_assign assign]; f_equal.
  - destruct (l !! i) as [v|] eqn:Hl; [|done]. change (map tree_of) with (fmap (M := list) tree_of). apply list_eq. intros j.
    rewrite list_lookup_alter, !list_lookup_fmap, list_lookup_alter. case_decide; [|done]. subst j. rewrite Hl. cbn. f_equal. by apply IH.
  - destruct (object_find k l) as [v|] eqn:Hl; [|done]. apply member_at_of. rewrite Hl. by apply IH.
Qed.

Lemma tree_assign_same p g r w : value_at p r = Some w -> g (tree_of w) = tree_of w -> tree_assign p g (tree_of r) = tree_of r.
Proof. intros Hw Hg. rewrite (tree_assign_of p (fun _ => w) g r w Hw Hg). by rewrite assign_same. Qed.

Lemma tree_of_kept v : is_discarded (tree_of v) = false.
Proof. by destruct v. Qed.

Lemma erase_discarded_of v : erase_discarded (tree_of v) = tree_of v.
Proof.
  destruct v; try done; cbn [tree_of erase_discarded]; f_equal.
  - induction l as [|v l IH]; [done|]. cbn [map erase_first]. by rewrite tree_of_kept, IH.
  - induction l as [|[k v] l IH]; [done|]. cbn [map erase_first fst snd]. by rewrite tree_of_kept, IH.
Qed.

(** ** A callback that keeps everything *)

Section keep_all.
  Context {C : Type}.
  Implicit Types s : cb_parser C.

Definition keep_all (c : C) (depth : nat) (ev : parse_event_t) (t : tree) : bool * tree * C := (true, t, c).

  (** The place of a member that waits for its value is discarded. *)
Definition same_root (states : list bool) (expects : bool) (d : dom_parser) s : Prop :=
    match expects, states with
    | true, false :: _ =>
        exists e keys, object_element d = Some e /\ cb_element s = Some e /\ key_keep_stack s = true :: keys /\
          cb_root s = tree_assign e (fun _ => TDiscarded) (tree_of (root d))
    | _, _ => cb_root s = tree_of (root d)
    end.

Definition same_settings (d : dom_parser) s : Prop := errored d = cb_errored s /\ allow_exceptions d = cb_allow_exceptions s.
Definition same_value (d : dom_parser) s : Prop :=
    same_settings d s /\ (errored d = false -> cb_root s = tree_of (root d)).

Record keeps_up (states : list bool) (expects : bool) (d : dom_parser) s : Prop := {
    ku_ok : dom_ok states expects d;
    ku_refs : cb_refs s = Some <$> ref_stack d;
    ku_keeps : exists keeps, keep_stack s = true :: keeps /\ length keeps = length states /\ Forall (fun k => k = true) keeps;
    ku_discarded : discarded s = TDiscarded;
    ku_errored : errored d = cb_errored s;
    ku_allow : allow_exceptions d = cb_allow_exceptions s;
    ku_root : same_root states expects d s }.

Lemma handle_value_same states v skip d s keeps :
    dom_ok states true d -> cb_refs s = Some <$> ref_stack d -> keep_stack s = true :: keeps -> same_root states true d s ->
    exists q r keys, handle_value v d = Some (q, with_root r d) /\
      cb_handle_value keep_all (tree_of v) skip s = Some (Some q, set_root (tree_of r) (set_keys keys s)).
Proof.
    intros Hd Hrefs Hks Hroot. destruct Hd as [Hst He]. specialize (He eq_refl). unfold handle_value, cb_handle_value. rewrite Hks, Hrefs.
    assert ((if skip then (true, tree_of v, s) else call keep_all (length (Some <$> ref_stack d)) ev_value (tree_of v) s) = (true, tree_of v, s)) as -> by (destruct skip; by destruct s).
    cbn [negb]. destruct (ref_stack d) as [|back st] eqn:Hs.
    - exists [], v, (key_keep_stack s). rewrite Hrefs. split; [done|]. by destruct s.
    - destruct states as [|b states]; [done|]. destruct Hst as (Hc & _). rewrite Hrefs. cbn [fmap list_fmap].
      destruct (value_at back (root d)) as [w|] eqn:Hw; [|done]. destruct w as [| | | | | | |l|l]; try done; cbn in Hc; subst b; cbn [same_root] in Hroot.
      + rewrite Hroot, tree_at_of, Hw. cbn [fmap option_fmap option_map tree_of]. rewrite length_map.
        eexists _, _, (key_keep_stack s). split; [done|]. do 2 f_equal. f_equal; [|by destruct s]. eapply tree_assign_of; [exact Hw|]. cbn. f_equal. by rewrite map_app.
      + destruct Hroot as (e & keys & Hel & Hcel & Hkk & Hroot). destruct He as (k & Hel' & [x Hx]). rewrite Hel in Hel'. injection Hel' as ->.
        rewrite Hroot. rewrite (tree_at_assign back [inr k] _ _ (TObject (members_of l))) by (by rewrite tree_at_of, Hw). cbn [tree_assign].
        rewrite Hkk. cbn [negb]. cbn [set_keys cb_element]. rewrite Hcel, Hel. cbn [mbind option_bind].
        eexists _, _, keys. split; [done|]. do 2 f_equal. f_equal. cbn [set_keys cb_root]. rewrite Hroot, tree_assign_assign. by eapply tree_assign_of.
Qed.

Lemma value_same states v d s :
    keeps_up states true d s -> both_continue (keeps_up states false) (dom_value v d) (cb_value keep_all v s).
Proof.
    intros [Hok Hrefs (keeps & Hks & Hl & Hall) Hd He Ha Hroot]. destruct (dom_value_ok _ v _ Hok) as (d' & Hv & Hok').
    destruct (handle_value_same states v false d s keeps Hok Hrefs Hks Hroot) as (q & r & keys & H1 & H2).
    unfold dom_value in Hv |- *. unfold cb_value. rewrite H1 in Hv |- *. rewrite H2. injection Hv as <-. do 2 eexists. split; [done|]. split; [done|].
    split; cbn; try done. by eexists.
Qed.

Lemma start_same states b ev v d s :
    container b (Some v) -> keeps_up states true d s -> both_continue (keeps_up (b :: states) false) (dom_start v d) (cb_start keep_all ev (tree_of v) s).
Proof.
    intros Hb [Hok Hrefs (keeps & Hks & Hl & Hall) Hd He Ha Hroot]. destruct (dom_start_ok _ b v _ Hok Hb) as (d' & Hv & Hok').
    destruct (handle_value_same states v true d (set_keeps (true :: keep_stack s) (set_state (discarded s) (cb_state s) s)) (keep_stack s) Hok Hrefs eq_refl Hroot)
      as (q & r & keys & H1 & H2).
    unfold dom_start in Hv |- *. unfold cb_start. cbn [keep_all]. rewrite H1 in Hv |- *. rewrite H2. injection Hv as <-. do 2 eexists. split; [done|]. split; [done|].
    split; cbn; try done.
    { by rewrite Hrefs. }
    exists (keep_stack s). rewrite Hks. split_and!; [done|cbn; by rewrite Hl|by constructor].
Qed.

Lemma key_same states k d s :
    keeps_up (false :: states) false d s -> both_continue (keeps_up (false :: states) true) (dom_key k d) (cb_key keep_all k s).
Proof.
    intros [Hok Hrefs Hks Hd He Ha Hroot]. destruct (dom_key_ok _ k _ Hok) as (d' & Hk & Hok'). cbn [same_root] in Hroot.
    unfold dom_key in Hk |- *. unfold cb_key, call. cbn [keep_all set_keys set_state cb_refs cb_root discarded]. rewrite Hrefs, Hroot.
    destruct (ref_stack d) as [|back st] eqn:Hst; [done|]. cbn [fmap list_fmap]. rewrite tree_at_of.
    destruct (value_at back (root d)) as [w|] eqn:Hw; [|done]. destruct w; try done. cbn [fmap option_fmap option_map tree_of].
    injection Hk as <-. do 2 eexists. split; [done|]. split; [done|].
    split; cbn [set_element set_root cb_refs keep_stack discarded cb_errored cb_allow_exceptions errored allow_exceptions ref_stack set_keys set_state]; try done.
    exists (back ++ [inr k]), (key_keep_stack s). cbn. split_and!; try done. rewrite Hd, tree_assign_app.
    erewrite <- tree_assign_of with (g := tree_assign [inr k] id); [|exact Hw|].
    - rewrite tree_assign_assign. apply tree_assign_ext. intros x. destruct x; try done. cbn. by rewrite member_at_at.
    - cbn. f_equal. by apply member_at_of.
Qed.

Lemma ask_end_same b states ev d s :
    keeps_up (b :: states) false d s ->
    exists d' s1 s2, dom_end d = Some (true, d') /\ ask_end keep_all ev s = Some (true, s1) /\ pop_refs s1 = Some s2 /\ keeps_up states false d' s2.
Proof.
    intros [Hok Hrefs (keeps & Hks & Hl & Hall) Hd He Ha Hroot]. destruct (dom_end_ok _ _ _ Hok) as (d' & Hend & Hok').
    unfold dom_end in Hend |- *. unfold ask_end, pop_refs, call. cbn [same_root] in Hroot. rewrite Hrefs, Hroot. destruct Hok as [Hst _].
    destruct (ref_stack d) as [|back st] eqn:Hs; [done|]. destruct Hst as (Hc & _). cbn [fmap list_fmap]. rewrite tree_at_of.
    destruct (value_at back (root d)) as [w|] eqn:Hw; [|done]. cbn [fmap option_fmap option_map mbind option_bind keep_all].
    injection Hend as <-. do 3 eexists. split; [done|]. split; [done|]. cbn [set_root set_state cb_refs keep_stack]. rewrite Hrefs, Hks. split; [done|].
    split; cbn; try done.
    - destruct keeps as [|k keeps]; [done|]. exists keeps. apply Forall_cons_1 in Hall as [-> Hall]. split_and!; [done|cbn in Hl; lia|done].
    - rewrite Hroot. by apply (tree_assign_same _ _ _ _ Hw).
Qed.

Lemma end_object_same states d s :
    keeps_up (false :: states) false d s -> both_continue (keeps_up states false) (dom_end d) (cb_end_object keep_all s).
Proof.
    intros Hk. destruct (ask_end_same _ _ ev_object_end _ _ Hk) as (d' & s1 & s2 & He & Ha & Hp & Hk'). unfold cb_end_object.
    rewrite He, Ha. cbn [mbind option_bind]. rewrite Hp. cbn [mbind option_bind]. pose proof Hk' as [[Hok _] Hrefs _ _ _ _ Hroot].
    cbn [same_root] in Hroot. rewrite Hrefs. destruct (ref_stack d') as [|back st] eqn:Hs; [by exists d', s2|]. cbn [fmap list_fmap].
    destruct states as [|b states]; [done|]. destruct Hok as (Hc & _). rewrite Hroot, tree_at_of.
    destruct (value_at back (root d')) as [w|] eqn:Hw; [|done]. cbn [fmap option_fmap option_map mbind option_bind].
    rewrite (tree_assign_same _ _ _ _ Hw (erase_discarded_of w)), <- Hroot. do 2 eexists. split; [done|]. split; [done|]. by destruct s2.
Qed.

Lemma end_array_same states d s :
    keeps_up (true :: states) false d s -> both_continue (keeps_up states false) (dom_end d) (cb_end_array keep_all s).
Proof.
    intros Hk. destruct (ask_end_same _ _ ev_array_end _ _ Hk) as (d' & s1 & s2 & He & Ha & Hp & Hk'). unfold cb_end_array.
    rewrite He, Ha. cbn [mbind option_bind]. rewrite Hp. by exists d', s2.
Qed.

#[export] Instance keep_all_simulation : Simulation dom_SAX (cb_SAX keep_all) keeps_up same_settings same_value.
Proof.
  split; intros; cbn -[cb_value cb_start cb_key cb_end_object cb_end_array];
    first [by apply value_same|by apply (start_same _ false _ (VObject []))|by apply (start_same _ true _ (VArray []))
          |by apply key_same|by apply end_object_same|by apply end_array_same|idtac].
  - destruct H as [Hok ? ? ? ? ? ?]. split; try done. by apply dom_array_next.
  - destruct H. by split.
  - destruct H. by split; [split|].
  - by destruct H.
  - destruct H as [He Ha]. rewrite Ha. by split; [|split].
Qed.
End keep_all.

(** What the parser with a callback returns for a result of the plain parser. *)
Definition result_of (r : parse_result) : cb_result :=
  match r with Parsed v => CbParsed (tree_of v) | Discarded => CbDiscarded | Thrown e => CbThrown e end.

Lemma finish_same {C} d (s : cb_parser C) :
  same_value d s ->
  (if cb_errored s then CbDiscarded else CbParsed (if is_discarded (cb_root s) then TScalar VNull else cb_root s)) =
  result_of (if errored d then Discarded else Parsed (root d)).
Proof. intros [[He _] Hr]. rewrite <- He. destruct (errored d); [done|]. by rewrite (Hr eq_refl), tree_of_kept. Qed.

(** C34: A callback that keeps everything, whatever it remembers, changes nothing: the parser with it
    returns on every byte sequence the value, the discarded value or the very exception of the
    parser without. *)
Theorem parse_callback_keep_all {C} allow_exceptions ignore_comments (c : C) input :
  parse_callback keep_all allow_exceptions ignore_comments c input = result_of <$> parse allow_exceptions ignore_comments input.
Proof.
  unfold parse_callback, parse. destruct (mk_parser ignore_comments input) as [p|]; [|done]. cbn [mbind option_bind].
  set (n := input_fuel input). unfold parser_parse_callback, parser_parse, sax_parse_internal.
  pose proof (sax_loop_related (HA := dom_SAX) (HD := cb_SAX keep_all) ignore_comments n n false [] p (mk_dom VNull allow_exceptions)
    (mk_cb (TScalar VNull) c allow_exceptions)) as Hr.
  destruct (sax_loop ignore_comments n n false [] p (mk_dom _ _)) as [[[r1 p1] d1]|],
    (sax_loop ignore_comments n n false [] p (mk_cb _ _ _)) as [[[r2 p2] s2]|]; cbn [mbind option_bind]; try (by destruct Hr; split; eauto).
  destruct Hr as (-> & -> & HE); [by split; eauto|]. destruct r2; [|done].
  pose proof (expect_end_related (HA := dom_SAX) (HD := cb_SAX keep_all) ignore_comments n p2 d1 s2 HE) as Hr.
  destruct (expect_end ignore_comments n p2 d1) as [[r1 d2]|], (expect_end ignore_comments n p2 s2) as [[r2 s3]|]; try done.
  destruct Hr as [-> HE']. cbn [mbind option_bind]. destruct r2; [|done]. cbn. f_equal. by apply finish_same.
Qed.

(** ** Callbacks that leave parts out *)

Definition without_value (n : Z) (c : unit) (depth : nat) (ev : parse_event_t) (t : tree) : bool * tree * unit :=
  (match ev, t with ev_value, TScalar (VUnsigned z) => negb (z =? n)%Z | _, _ => true end, t, c).
Definition without_key (k : bytes) (c : unit) (depth : nat) (ev : parse_event_t) (t : tree) : bool * tree * unit :=
  (match ev, t with ev_key, TScalar (VString k') => negb (k =s k') | _, _ => true end, t, c).
Definition without_empty_arrays (c : unit) (depth : nat) (ev : parse_event_t) (t : tree) : bool * tree * unit :=
  (match ev, t with ev_array_end, TArray [] => false | _, _ => true end, t, c).

(** [{...}] with two members. *)
Definition two_members (k1 v1 k2 v2 : bytes) : bytes :=
  B "{" ++ DQUOTE :: k1 ++ DQUOTE :: B ":" ++ v1 ++ B "," ++ DQUOTE :: k2 ++ DQUOTE :: B ":" ++ v2 ++ B "}".

(** A rejected key leaves no member, a rejected element no element. *)
Example rejected_key :
  parse_callback (without_key (B "a")) true false tt (two_members (B "a") (B "1") (B "b") (B "2")) =
  Some (CbParsed (TObject [(B "b", TScalar (VUnsigned 2))])).
Proof. vm_compute. reflexivity. Qed.

Example rejected_element :
  parse_callback (without_value 1) true false tt (B "[1,2,1,3]") = Some (CbParsed (TArray [TScalar (VUnsigned 2); TScalar (VUnsigned 3)])).
Proof. vm_compute. reflexivity. Qed.

(** Only the end of a nested object removes a discarded member, one, of the object around it: a
    rejected value is gone when an object follows it and stays, discarded, when none does; so does
    a rejected array. *)
Example rejected_value_before_object :
  parse_callback (without_value 1) true false tt (two_members (B "a") (B "1") (B "b") (B "{}")) = Some (CbParsed (TObject [(B "b", TObject [])])).
Proof. vm_compute. reflexivity. Qed.

Example rejected_value_stays :
  parse_callback (without_value 1) true false tt (two_members (B "a") (B "1") (B "b") (B "2")) =
  Some (CbParsed (TObject [(B "a", TDiscarded); (B "b", TScalar (VUnsigned 2))])).
Proof. vm_compute. reflexivity. Qed.

Example rejected_array_stays :
  parse_callback without_empty_arrays true false tt (two_members (B "a") (B "[]") (B "b") (B "[]")) =
  Some (CbParsed (TObject [(B "a", TDiscarded); (B "b", TDiscarded)])).
Proof. vm_compute. reflexivity. Qed.
