(* ===== verification/JsonText.v ===== *)
(** * JSON texts: the grammar of RFC 8259, and how the lexer of [include/json.hpp] reads it

    Documents as the grammar has them, with every freedom it gives: white space, escapes,
    surrogate pairs, the forms of numbers, the order and repetition of keys.  [show_doc] is the
    text of a document and [doc_value] the value it means; neither is code of the library.  The
    lemmas say which token the lexer reads at each part of a text. *)
From S2P Require Import Prelude CLib Json JsonLexer JsonParser.
From Stdlib Require Import SpecFloat.

(** ** White space *)

Definition blank (c : ascii) : bool := existsb (Z.eqb (code c)) [32; 9; 10; 13]%Z.
Abbreviation blanks w := (Forall (fun c => blank c = true) w).

(** ** Numbers *)

(** The exponent is its letter, its sign and its digits. *)
Record number_text := MkNumber { nt_minus : bool; nt_int : bytes; nt_frac : option bytes; nt_exp : option (ascii * bytes * bytes) }.

Definition show_frac (f : option bytes) : bytes := match f with Some ds => "."%char :: ds | None => [] end.
Definition show_exp (e : option (ascii * bytes * bytes)) : bytes := match e with Some (c, sign, ds) => c :: sign ++ ds | None => [] end.
Definition show_number (n : number_text) : bytes :=
  (if nt_minus n then B "-" else []) ++ nt_int n ++ show_frac (nt_frac n) ++ show_exp (nt_exp n).

Definition digits (ds : bytes) : Prop := ds <> [] /\ Forall (fun c => isdigit c = true) ds.

(** No leading zeros; what follows the point or the exponent is not empty. *)
Definition number_ok (n : number_text) : Prop :=
  digits (nt_int n) /\ (forall ds, nt_int n = "0"%char :: ds -> ds = []) /\
  (forall ds, nt_frac n = Some ds -> digits ds) /\
  (forall c sign ds, nt_exp n = Some (c, sign, ds) -> c ∈ ["e"%char; "E"%char] /\ sign ∈ [[]; B "+"; B "-"] /\ digits ds).

(** The number a text stands for: an integer when it is one that fits, the nearest [double] otherwise. *)
Definition is_integer (n : number_text) : bool :=
  match nt_frac n, nt_exp n with None, None => true | _, _ => false end.
Definition float_value (n : number_text) : option value :=
  let x := strtod (show_number n) in if isfinite x then Some (VFloat x) else None.
Definition number_value (n : number_text) : option value :=
  let z := dec_value 0 (nt_int n) in
  if is_integer n then
    if nt_minus n then if (- 2 ^ 63 <=? - z)%Z then Some (VInteger (- z)) else float_value n
    else if (z <? 2 ^ 64)%Z then Some (VUnsigned z) else float_value n
  else float_value n.

(** ** Strings *)

(** A character as itself (one byte, or a UTF-8 sequence), a short escape, a code unit, a surrogate pair. *)
Inductive text_char :=
  | TPlain (c : ascii)
  | TBytes (s : bytes)
  | TEscape (e : ascii)
  | TUnicode (a b c d : ascii)
  | TPair (a b c d e f g h : ascii).

(** Digits in either case. *)
Definition hex_value (c : ascii) : option Z :=
  '(i, _) ← list_find (eq c) (B "0123456789abcdefABCDEF"); Some (Z.of_nat (if i <? 16 then i else i - 6)).
Definition hex4 (a b c d : ascii) : option Z :=
  a ← hex_value a; b ← hex_value b; c ← hex_value c; d ← hex_value d;
  Some (a * 4096 + b * 256 + c * 16 + d)%Z.

Definition show_char (t : text_char) : bytes :=
  match t with
  | TPlain c => [c]
  | TBytes s => s
  | TEscape e => ["\"%char; e]
  | TUnicode a b c d => B "\u" ++ [a; b; c; d]
  | TPair a b c d e f g h => B "\u" ++ [a; b; c; d] ++ B "\u" ++ [e; f; g; h]
  end.
Definition show_chars (l : list text_char) : bytes := concat (map show_char l).

(** The bytes that continue a sequence. *)
Fixpoint in_ranges (rs : list (Z * Z)) (s : bytes) : bool :=
  match rs, s with
  | [], [] => true
  | (lo, hi) :: rs, c :: s => (lo <=? code c)%Z && (code c <=? hi)%Z && in_ranges rs s
  | _, _ => false
  end.

(** The encoding of a code point (RFC 3629). *)
Definition utf8_of (cp : Z) : bytes :=
  map chr (if cp <? 0x80 then [cp]
           else if cp <? 0x800 then [0xC0 + cp / 64; 0x80 + cp mod 64]
           else if cp <? 0x10000 then [0xE0 + cp / 4096; 0x80 + (cp / 64) mod 64; 0x80 + cp mod 64]
           else [0xF0 + cp / 262144; 0x80 + (cp / 4096) mod 64; 0x80 + (cp / 64) mod 64; 0x80 + cp mod 64])%Z.

(** The character behind a backslash. *)
Definition short_escape (e : ascii) : option ascii :=
  if existsb (Ascii.eqb e) [DQUOTE; "\"%char; "/"%char] then Some e
  else if e =c "b"%char then Some (chr 8)
  else if e =c "f"%char then Some (chr 12)
  else if e =c "n"%char then Some (chr 10)
  else if e =c "r"%char then Some (chr 13)
  else if e =c "t"%char then Some (chr 9)
  else None.

Definition char_value (t : text_char) : option bytes :=
  match t with
  | TPlain c => if (32 <=? code c)%Z && (code c <? 128)%Z && negb (c =c DQUOTE) && negb (c =c "\"%char) then Some [c] else None
  | TBytes s =>
      match s with
      | c :: s' => if (128 <=? code c)%Z then rs ← utf8_lead (code c); if in_ranges rs s' then Some s else None else None
      | [] => None
      end
  | TEscape e => c ← short_escape e; Some [c]
  | TUnicode a b c d =>
      cp ← hex4 a b c d;
      if (0xD800 <=? cp)%Z && (cp <=? 0xDFFF)%Z then None else Some (utf8_of cp)
  | TPair a b c d e f g h =>
      hi ← hex4 a b c d; lo ← hex4 e f g h;
      if (0xD800 <=? hi)%Z && (hi <=? 0xDBFF)%Z && (0xDC00 <=? lo)%Z && (lo <=? 0xDFFF)%Z
      then Some (utf8_of (0x10000 + (hi - 0xD800) * 0x400 + (lo - 0xDC00))%Z) else None
  end.

Fixpoint chars_value (l : list text_char) : option bytes :=
  match l with [] => Some [] | t :: l => s ← char_value t; r ← chars_value l; Some (s ++ r) end.

(** ** Documents *)

(** White space, the value, white space. *)
Record element (A : Type) := MkElement { e_before : bytes; e_doc : A; e_after : bytes }.
Arguments MkElement {A}. Arguments e_before {A}. Arguments e_doc {A}. Arguments e_after {A}.
(** White space, the key, white space before the colon, the element. *)
Record member (A : Type) := MkMember { m_before : bytes; m_key : list text_char; m_after : bytes; m_element : element A }.
Arguments MkMember {A}. Arguments m_before {A}. Arguments m_key {A}. Arguments m_after {A}. Arguments m_element {A}.

(** An empty array or object may hold white space. *)
Inductive doc :=
  | DNull
  | DBool (b : bool)
  | DNumber (n : number_text)
  | DString (l : list text_char)
  | DArray (w : bytes) (l : list (element doc))
  | DObject (w : bytes) (l : list (member doc)).

Fixpoint commas (l : list bytes) : bytes :=
  match l with [] => [] | [t] => t | t :: l => t ++ ","%char :: commas l end.

Fixpoint show_doc (d : doc) : bytes :=
  match d with
  | DNull => B "null"
  | DBool b => if b then B "true" else B "false"
  | DNumber n => show_number n
  | DString l => DQUOTE :: show_chars l ++ [DQUOTE]
  | DArray w l => B "[" ++ match l with [] => w | _ => commas (map (fun e => e_before e ++ show_doc (e_doc e) ++ e_after e) l) end ++ B "]"
  | DObject w l =>
      B "{" ++ match l with
               | [] => w
               | _ => commas (map (fun m => m_before m ++ (DQUOTE :: show_chars (m_key m) ++ [DQUOTE]) ++ m_after m ++ ":"%char ::
                                            e_before (m_element m) ++ show_doc (e_doc (m_element m)) ++ e_after (m_element m)) l)
               end ++ B "}"
  end.

(** A later member replaces an earlier one with its key. *)
Definition add_member (o : list (bytes * value)) (kv : bytes * value) : list (bytes * value) := object_at kv.1 (fun _ => kv.2) o.

Fixpoint doc_value (d : doc) : option value :=
  match d with
  | DNull => Some VNull
  | DBool b => Some (VBool b)
  | DNumber n => number_value n
  | DString l => VString <$> chars_value l
  | DArray _ l => VArray <$> mapM (fun e => doc_value (e_doc e)) l
  | DObject _ l =>
      kvs ← mapM (fun m => k ← chars_value (m_key m); v ← doc_value (e_doc (m_element m)); Some (k, v)) l;
      Some (VObject (foldl add_member [] kvs))
  end.

(** White space is blank, numbers are well-formed. *)
Inductive doc_ok : doc -> Prop :=
  | ok_null : doc_ok DNull
  | ok_bool b : doc_ok (DBool b)
  | ok_number n : number_ok n -> doc_ok (DNumber n)
  | ok_string l : doc_ok (DString l)
  | ok_array w l : blanks w -> Forall (fun e => blanks (e_before e) /\ blanks (e_after e) /\ doc_ok (e_doc e)) l -> doc_ok (DArray w l)
  | ok_object w l :
      blanks w ->
      Forall (fun m => blanks (m_before m) /\ blanks (m_after m) /\ blanks (e_before (m_element m)) /\ blanks (e_after (m_element m)) /\
                       doc_ok (e_doc (m_element m))) l -> doc_ok (DObject w l).

Lemma doc_nested_ind (P : doc -> Prop) :
  P DNull -> (forall b, P (DBool b)) -> (forall n, P (DNumber n)) -> (forall l, P (DString l)) ->
  (forall w l, Forall (fun e => P (e_doc e)) l -> P (DArray w l)) -> (forall w l, Forall (fun m => P (e_doc (m_element m))) l -> P (DObject w l)) -> forall d, P d.
Proof.
  intros HN HB HI HS HA HO. fix IH 1. intros [|b|n|l|w l|w l]; [done|done|done|done|apply HA|apply HO];
    induction l as [|x l IHl]; constructor; try done; apply IH.
Qed.

Example demo_doc_text :
  show_doc (DArray [] [MkElement (B " ") (DNumber (MkNumber true (B "1") (Some (B "50")) (Some ("e"%char, B "+", B "3")))) []; MkElement [] (DString [TUnicode "0"%char "0"%char "e"%char "9"%char]) (B " ")])
  = B "[ -1.50e+3," ++ DQUOTE :: B "\u00e9" ++ DQUOTE :: B " ]".
Proof. reflexivity. Qed.
