(* ===== verification/JsonReading.v ===== *)
(** * How the lexer reads the parts of a JSON text

    From the text of a token, white space before it or not, to the token and what the lexer
    keeps of it: the bytes of a string through its escapes, the number of a numeric text. *)
From S2P Require Import Prelude CLib Json JsonLexer JsonParser JsonText.
From Stdlib Require Import SpecFloat.

(** Membership in a table that is written out. *)
Ltac in_table := solve [repeat first [apply list_elem_of_here|apply list_elem_of_further]].

(** ** The first character of a token *)

(** Not white space, not the start of a comment or of a byte order mark. *)
Definition solid (c : ascii) : bool := negb (existsb (Z.eqb (code c)) [32; 9; 10; 13; 47; 239]%Z).

Lemma solid_spec c : solid c = true -> blank c = false /\ code c <> 47%Z /\ code c <> 239%Z.
Proof. unfold solid, blank. cbn. intros Hc. rewrite !orb_false_r in *. to_prop. split; [|done]. repeat (apply orb_false_iff; split); by apply Z.eqb_neq. Qed.

Lemma blank_no_bom c : blank c = true -> code c <> 239%Z.
Proof. unfold blank. intros Hc Heq. by rewrite Heq in Hc. Qed.

Lemma skip_blanks fuel l ws c r :
  lexer_ok l -> rest l = ws ++ c :: r -> blanks ws -> blank c = false -> length ws < fuel ->
  exists l', skip_whitespace fuel l = Some l' /\ current l' = code c /\ rest l' = r /\ just_read l' /\ 0 < total l'.
Proof.
  intros Hok Hr Hws Hc. revert fuel l Hok Hr. induction Hws as [|d ws Hd _ IH]; intros [|fuel] l Hok Hr Hf; simpl in Hf; try lia; cbn [skip_whitespace];
    cbn [app] in Hr; destruct (get_char _ _ l Hok Hr) as (Hcur & Hr1 & Hj1 & _ & Ht1); rewrite Hcur.
  - unfold blank in Hc. rewrite Hc. exists (get l). split_and!; auto. lia.
  - unfold blank in Hd. rewrite Hd. apply IH; auto using just_read_ok; lia.
Qed.

Lemma skip_blanks_end fuel l ws :
  lexer_ok l -> rest l = ws -> blanks ws -> length ws < fuel -> exists l', skip_whitespace fuel l = Some l' /\ current l' = EOF.
Proof.
  intros Hok Hr Hws. revert fuel l Hok Hr. induction Hws as [|c ws Hc _ IH]; intros [|fuel] l Hok Hr Hf; simpl in Hf; try lia; cbn [skip_whitespace].
  - destruct (get_end l Hok Hr) as (Hcur & _). rewrite Hcur. by exists (get l).
  - destruct (get_char _ _ l Hok Hr) as (Hcur & Hr1 & Hj1 & _). rewrite Hcur. unfold blank in Hc. rewrite Hc.
    apply IH; auto using just_read_ok; lia.
Qed.

(** The look for a byte order mark changes nothing at a text that does not start with its first byte. *)
Lemma no_bom l t :
  lexer_ok l -> rest l = t -> match t with [] => True | c :: _ => code c <> 239%Z end ->
  exists l0, (if (chars_read_total (position l) =? 0)%nat then skip_bom l else (true, l)) = (true, l0) /\ lexer_ok l0 /\ rest l0 = t.
Proof.
  intros Hok Hr Ht. case_test; [|by exists l]. unfold skip_bom. destruct (get_spec l Hok) as (Hj & _ & _ & Htot & Hcase).
  destruct (unget_spec (get l) Hj) as (Hr2 & Hok2 & _ & _); [lia|]. destruct Hcase as [(Hcur & Hnil & Hr1)|(c & Hcur & Hcons)]; rewrite Hcur in Hr2 |- *.
  - eexists. split; [reflexivity|]. split; [done|]. rewrite Hr2. cbn. congruence.
  - rewrite Hcons in Hr. subst t. rewrite (proj2 (Z.eqb_neq _ _) Ht). eexists. split; [reflexivity|]. split; [done|].
    rewrite Hr2, code_not_eof, to_char_code. done.
Qed.

(** Before a token. *)
Lemma scan_start ic lf l ws c r :
  lexer_ok l -> rest l = ws ++ c :: r -> blanks ws -> solid c = true -> length ws < lf ->
  exists l1, scan ic lf l = scan_token lf l1 /\ current l1 = code c /\ rest l1 = r /\ just_read l1 /\ 0 < total l1.
Proof.
  intros Hok Hr Hws Hc Hlf. apply solid_spec in Hc as (Hb & Hslash & Hbom).
  destruct (no_bom l _ Hok Hr) as (l0 & Heq & Hok0 & Hr0).
  { destruct Hws as [|d ws Hd _]; cbn [app]; [done|by apply blank_no_bom]. }
  destruct (skip_blanks lf l0 ws c r Hok0 Hr0 Hws Hb Hlf) as (l1 & Hskip & Hcur & ? & ? & ?).
  exists l1. unfold scan. rewrite Heq. cbn [negb]. rewrite Hskip. cbn [mbind option_bind]. split_and!; [|done..].
  destruct ic; cbn [mbind option_bind]; [|done]. destruct lf as [|lf]; [lia|]. unfold skip_comments. rewrite Hcur.
  destruct (code c =? 47)%Z eqn:He; [to_prop; done|done].
Qed.

(** The end of the input, after white space. *)
Lemma scan_end ic lf l ws :
  lexer_ok l -> rest l = ws -> blanks ws -> length ws < lf -> exists l', scan ic lf l = Some (end_of_input, l').
Proof.
  intros Hok Hr Hws Hlf. destruct (no_bom l ws Hok Hr) as (l0 & Heq & Hok0 & Hr0).
  { destruct Hws as [|d ws Hd _]; [done|by apply blank_no_bom]. }
  destruct (skip_blanks_end lf l0 ws Hok0 Hr0 Hws Hlf) as (l1 & Hskip & Hcur).
  unfold scan. rewrite Heq. cbn [negb]. rewrite Hskip. cbn [mbind option_bind].
  assert (exists l', scan_token lf l1 = Some (end_of_input, l')) as Hend by (unfold scan_token; rewrite Hcur; by eexists).
  destruct lf as [|lf]; [lia|]. destruct ic; [|exact Hend]. cbn [skip_comments]. rewrite Hcur. exact Hend.
Qed.

(** ** Strings *)

Lemma hex_digit_range c v : hex_digit c = Some v -> (0 <= v < 16)%Z.
Proof. unfold hex_digit. intros Hv. repeat case_test; to_prop; simplify_eq; lia. Qed.

Lemma hex_value_digit a : hex_value a = hex_digit (code a).
Proof. by destruct a as [[] [] [] [] [] [] [] []]. Qed.

Lemma hex4_range a b c d cp : hex4 a b c d = Some cp -> (0 <= cp < 65536)%Z.
Proof.
  unfold hex4. rewrite !hex_value_digit. destruct (hex_digit (code a)) as [va|] eqn:Ha, (hex_digit (code b)) as [vb|] eqn:Hb, (hex_digit (code c)) as [vc|] eqn:Hc, (hex_digit (code d)) as [vd|] eqn:Hd; try done.
  intros [= <-]. apply hex_digit_range in Ha, Hb, Hc, Hd. lia.
Qed.

(** What a step inside a string leaves: [s] was added. *)
Definition string_step (l l' : lexer) (s r : bytes) : Prop :=
  rest l' = r /\ lexer_ok l' /\ token_buffer l' = token_buffer l ++ s /\ total l <= total l'.

(** Four hexadecimal digits. *)
Lemma get_codepoint_reads a b c d cp l r :
  hex4 a b c d = Some cp -> lexer_ok l -> rest l = a :: b :: c :: d :: r -> exists l', get_codepoint l = (cp, l') /\ string_step l l' [] r.
Proof.
  unfold hex4. rewrite !hex_value_digit. intros Hcp Hok Hr.
  destruct (hex_digit (code a)) as [va|] eqn:Ha, (hex_digit (code b)) as [vb|] eqn:Hb, (hex_digit (code c)) as [vc|] eqn:Hc, (hex_digit (code d)) as [vd|] eqn:Hd; try done.
  injection Hcp as Hcp. unfold get_codepoint, get_codepoint_loop, string_step.
  destruct (get_char _ _ _ Hok Hr) as (-> & Hr1 & Hj1 & (Hb1 & _) & Ht1). rewrite Ha.
  destruct (get_char _ _ _ (just_read_ok _ Hj1) Hr1) as (-> & Hr2 & Hj2 & (Hb2 & _) & Ht2). rewrite Hb.
  destruct (get_char _ _ _ (just_read_ok _ Hj2) Hr2) as (-> & Hr3 & Hj3 & (Hb3 & _) & Ht3). rewrite Hc.
  destruct (get_char _ _ _ (just_read_ok _ Hj3) Hr3) as (-> & Hr4 & Hj4 & (Hb4 & _) & Ht4). rewrite Hd.
  exists (get (get (get (get l)))). rewrite !Z.shiftl_mul_pow2 by lia. split; [f_equal; lia|].
  split_and!; auto using just_read_ok; [rewrite app_nil_r; congruence|lia].
Qed.

Lemma utf8_of_bytes cp : (0 <= cp < 0x110000)%Z -> to_char <$> utf8_bytes cp = utf8_of cp.
Proof.
  intros Hcp. rewrite utf8_bytes_div. unfold utf8_of.
  assert (forall x, (0 <= x < 256)%Z -> to_char x = chr x) as Hchr by (intros x Hx; unfold to_char; by rewrite Z.mod_small).
  assert (forall x, (0 <= x mod 64 < 64)%Z) as Hm by (intros x; apply Z.mod_pos_bound; lia).
  pose proof (Hm cp). pose proof (Hm (cp / 64)%Z). pose proof (Hm (cp / 4096)%Z).
  destruct (cp <? 0x80)%Z eqn:?; to_prop; [cbn; by rewrite Hchr by lia|].
  destruct (cp <=? 0x7FF)%Z eqn:?; to_prop.
  { assert (0 <= cp / 64 < 32)%Z by (split; [apply Z.div_pos; lia|apply Z.div_lt_upper_bound; lia]).
    rewrite (proj2 (Z.ltb_lt cp 0x800)), (lor_table 0xC0 32) by (reflexivity || lia). cbn [fmap list_fmap map]. by rewrite !Hchr by lia. }
  rewrite (proj2 (Z.ltb_ge cp 0x800)) by lia. destruct (cp <=? 0xFFFF)%Z eqn:?; to_prop.
  { assert (0 <= cp / 4096 < 16)%Z by (split; [apply Z.div_pos; lia|apply Z.div_lt_upper_bound; lia]).
    rewrite (proj2 (Z.ltb_lt cp 0x10000)), (lor_table 0xE0 16) by (reflexivity || lia). cbn [fmap list_fmap map]. by rewrite !Hchr by lia. }
  assert (0 <= cp / 262144 < 8)%Z by (split; [apply Z.div_pos; lia|apply Z.div_lt_upper_bound; lia]).
  rewrite (proj2 (Z.ltb_ge cp 0x10000)), (lor_table 0xF0 8) by (reflexivity || lia). cbn [fmap list_fmap map]. by rewrite !Hchr by lia.
Qed.

Lemma short_escape_lookup e : short_escape e = chr <$> lookup_escape (code e).
Proof. by destruct e as [[] [] [] [] [] [] [] []]. Qed.

Lemma add_codepoint_step cp l l' s r : string_step l l' [] r -> (0 <= cp < 0x110000)%Z -> utf8_of cp = s -> string_step l (add_codepoint cp l') s r.
Proof.
  intros (Hr & Hok & Hb & Ht) Hcp <-. rewrite <- utf8_of_bytes by done. destruct (add_codepoint_state cp l') as (buf & -> & ->). unfold string_step. rewrite app_nil_r in Hb.
  split_and!; [done|done|by cbn; rewrite Hb|done].
Qed.

Lemma get_step c r l : lexer_ok l -> rest l = c :: r -> current (get l) = code c /\ string_step l (get l) [] r.
Proof.
  intros Hok Hr. destruct (get_char _ _ _ Hok Hr) as (Hcur & Hr1 & Hj1 & (Hb1 & _) & Ht1). split; [done|].
  split_and!; auto using just_read_ok; [by rewrite app_nil_r|lia].
Qed.

Lemma string_step_trans l l1 l2 s1 s2 r1 r2 : string_step l l1 s1 r1 -> string_step l1 l2 s2 r2 -> string_step l l2 (s1 ++ s2) r2.
Proof. intros (_ & _ & Hb1 & Ht1) (Hr & Hok & Hb2 & Ht2). split_and!; [done|done|by rewrite Hb2, Hb1, app_assoc|lia]. Qed.

Lemma add_step z l l' r c : string_step l l' [] r -> to_char z = c -> string_step l (add z l') [c] r.
Proof. intros (Hr & Hok & Hb & Ht) <-. rewrite app_nil_r in Hb. split_and!; [done|done|by cbn; rewrite Hb|done]. Qed.

Lemma scan_unicode_reads t s l r :
  match t with TUnicode _ _ _ _ | TPair _ _ _ _ _ _ _ _ => True | _ => False end -> char_value t = Some s ->
  lexer_ok l -> rest l = drop 2 (show_char t) ++ r -> exists l', scan_unicode l = (true, l') /\ string_step l l' s r.
Proof.
  intros Ht Hv Hok Hr. destruct t as [| | |a b c d|a b c d e f g h]; try done; cbn [show_char B String.list_ascii_of_string app drop] in Hr; cbn [char_value] in Hv; unfold scan_unicode.
  - destruct (hex4 a b c d) as [cp|] eqn:Hx; [|done]. cbn [mbind option_bind] in Hv. destruct (_ && _) eqn:Hsur; [done|]. injection Hv as Hv.
    destruct (get_codepoint_reads _ _ _ _ _ _ _ Hx Hok Hr) as (l1 & -> & Hs). pose proof (hex4_range _ _ _ _ _ Hx).
    rewrite (proj2 (Z.eqb_neq cp (-1))) by lia. apply andb_false_iff in Hsur.
    rewrite (proj2 (andb_false_iff (0xD800 <=? cp)%Z _)) by (rewrite !Z.leb_gt in *; lia).
    rewrite (proj2 (andb_false_iff (0xDC00 <=? cp)%Z _)) by (rewrite !Z.leb_gt in *; lia).
    eexists. split; [done|]. apply add_codepoint_step; [done|lia|done].
  - destruct (hex4 a b c d) as [hi|] eqn:Hx; [|done]. cbn [mbind option_bind] in Hv. destruct (hex4 e f g h) as [lo|] eqn:Hy; [|done]. cbn [mbind option_bind] in Hv.
    destruct (_ && _) eqn:Hsur; [|done]. injection Hv as Hv. to_prop.
    destruct (get_codepoint_reads _ _ _ _ _ _ _ Hx Hok Hr) as (l1 & -> & Hs1). rewrite (proj2 (Z.eqb_neq hi (-1))), !(proj2 (Z.leb_le _ _)) by lia. cbn [andb].
    destruct (get_step _ _ l1 (proj1 (proj2 Hs1)) (proj1 Hs1)) as [-> Hs2]. change (code "\"%char =? 92)%Z with true. cbn [negb].
    destruct (get_step _ _ (get l1) (proj1 (proj2 Hs2)) (proj1 Hs2)) as [-> Hs3]. change (code "u"%char =? 117)%Z with true. cbn [negb].
    destruct (get_codepoint_reads _ _ _ _ _ _ _ Hy (proj1 (proj2 Hs3)) (proj1 Hs3)) as (l2 & -> & Hs4). rewrite (proj2 (Z.eqb_neq lo (-1))), !(proj2 (Z.leb_le _ _)) by lia. cbn [andb].
    eexists. split; [done|]. apply add_codepoint_step.
    + exact (string_step_trans _ _ _ _ _ _ _ Hs1 (string_step_trans _ _ _ _ _ _ _ Hs2 (string_step_trans _ _ _ _ _ _ _ Hs3 Hs4))).
    + unfold u32, wrapu. rewrite Z.shiftl_mul_pow2 by lia. rewrite Z.mod_small by lia. lia.
    + rewrite <- Hv. f_equal. unfold u32, wrapu. rewrite Z.shiftl_mul_pow2 by lia. rewrite Z.mod_small by lia. lia.
Qed.

Lemma bytes_in_ranges_reads rs s l r :
  in_ranges rs s = true -> lexer_ok l -> rest l = s ++ r -> exists l', bytes_in_ranges rs l = (true, l') /\ string_step l l' s r.
Proof.
  revert s l. induction rs as [|[lo hi] rs IH]; intros [|c s] l Hs Hok Hr; try done; cbn [bytes_in_ranges].
  - exists l. split; [done|]. split_and!; [done|done|by rewrite app_nil_r|done].
  - cbn [in_ranges] in Hs. apply andb_true_iff in Hs as [Hc Hs]. destruct (get_step _ _ l Hok Hr) as [-> Hs1]. rewrite Hc.
    pose proof (add_step (code c) _ _ _ c Hs1 (to_char_code c)) as Hs2.
    destruct (IH s _ Hs (proj1 (proj2 Hs2)) (proj1 Hs2)) as (l' & -> & Hs'). exists l'. split; [done|]. exact (string_step_trans _ _ _ _ _ _ _ Hs2 Hs').
Qed.

(** A round of the loop reads a character. *)
Lemma scan_char_reads fuel t s l r :
  char_value t = Some s -> lexer_ok l -> rest l = show_char t ++ r ->
  exists l', scan_string_loop (S fuel) l = scan_string_loop fuel l' /\ string_step l l' s r.
Proof.
  intros Hv Hok Hr. cbn [scan_string_loop].
  assert (forall u, rest l = "\"%char :: u -> forall l', scan_escape (get l) = (true, l') -> string_step (get l) l' s r ->
    exists l', scan_string_loop (S fuel) l = scan_string_loop fuel l' /\ string_step l l' s r) as Hesc.
  { intros u Hu l' Hl Hs. destruct (get_step _ _ l Hok Hu) as [Hcur Hs1]. exists l'. cbn [scan_string_loop]. rewrite Hcur. change (code "\"%char =? EOF)%Z with false. cbn [Z.eqb].
    change (code "\"%char =? 34)%Z with false. change (code "\"%char =? 92)%Z with true. cbv iota. rewrite Hl. split; [done|]. exact (string_step_trans _ _ _ _ _ _ _ Hs1 Hs). }
  destruct t as [c|s'|e|a b c d|a b c d e f g h]; cbn [char_value] in Hv.
  - destruct (_ && _) eqn:Hc; [|done]. injection Hv as <-. to_prop. cbn [show_char app] in Hr. destruct (get_step _ _ l Hok Hr) as [Hcur Hs1]. rewrite Hcur, code_not_eof.
    assert (code c <> 34%Z) by (intros Heq; apply (code_inj c DQUOTE) in Heq; done).
    assert (code c <> 92%Z) by (intros Heq; apply (code_inj c "\"%char) in Heq; done).
    rewrite (proj2 (Z.eqb_neq (code c) 34)), (proj2 (Z.eqb_neq (code c) 92)), (proj2 (Z.leb_gt (code c) 0x1F)), (proj2 (Z.leb_le (code c) 0x7F)) by lia.
    eexists. split; [done|]. apply add_step; [done|apply to_char_code].
  - destruct s' as [|c s']; [done|]. destruct (128 <=? code c)%Z eqn:Hc; [|done]. to_prop. destruct (utf8_lead (code c)) as [rs|] eqn:Hlead; [|done].
    cbn [mbind option_bind] in Hv. destruct (in_ranges rs s') eqn:Hrs; [|done]. injection Hv as <-. cbn [show_char app] in Hr.
    destruct (get_step _ _ l Hok Hr) as [Hcur Hs1]. rewrite Hcur, code_not_eof.
    rewrite (proj2 (Z.eqb_neq (code c) 34)), (proj2 (Z.eqb_neq (code c) 92)), (proj2 (Z.leb_gt (code c) 0x1F)), (proj2 (Z.leb_gt (code c) 0x7F)) by lia. pose proof (code_range c). rewrite lead_ranges_utf8, Hlead by lia. unfold next_byte_in_range. rewrite Hcur.
    pose proof (add_step (code c) _ _ _ c Hs1 (to_char_code c)) as Hs2.
    destruct (bytes_in_ranges_reads rs s' _ r Hrs (proj1 (proj2 Hs2)) (proj1 Hs2)) as (l' & -> & Hs3). exists l'. split; [done|].
    exact (string_step_trans _ _ _ _ _ _ _ Hs2 Hs3).
  - rewrite short_escape_lookup in Hv. destruct (lookup_escape (code e)) as [z|] eqn:Hz; [|done]. injection Hv as <-. cbn [show_char app] in Hr.
    destruct (get_step _ _ l Hok Hr) as [_ Hs1]. destruct (get_step _ _ (get l) (proj1 (proj2 Hs1)) (proj1 Hs1)) as [Hcur Hs2].
    eapply Hesc; [exact Hr|unfold scan_escape; by rewrite Hcur, Hz|]. apply add_step; [done|]. unfold to_char. f_equal. apply Z.mod_small.
    unfold lookup_escape in Hz. apply fmap_Some in Hz as ([k v] & Hf & ->). apply find_some in Hf as [Hin _]. cbn in Hin. repeat (destruct Hin as [[= _ <-]|Hin]; [cbn; lia|]). done.
  - destruct (get_step _ _ l Hok Hr) as [_ Hs1]. destruct (get_step _ _ (get l) (proj1 (proj2 Hs1)) (proj1 Hs1)) as [Hcur Hs2].
    destruct (scan_unicode_reads (TUnicode a b c d) s (get (get l)) r I Hv (proj1 (proj2 Hs2)) (proj1 Hs2)) as (l' & Hl & Hs3).
    eapply Hesc; [exact Hr|unfold scan_escape; rewrite Hcur; exact Hl|]. exact (string_step_trans _ _ _ _ _ _ _ Hs2 Hs3).
  - destruct (get_step _ _ l Hok Hr) as [_ Hs1]. destruct (get_step _ _ (get l) (proj1 (proj2 Hs1)) (proj1 Hs1)) as [Hcur Hs2].
    destruct (scan_unicode_reads (TPair a b c d e f g h) s (get (get l)) r I Hv (proj1 (proj2 Hs2)) (proj1 Hs2)) as (l' & Hl & Hs3).
    eapply Hesc; [exact Hr|unfold scan_escape; rewrite Hcur; exact Hl|]. exact (string_step_trans _ _ _ _ _ _ _ Hs2 Hs3).
Qed.

Lemma show_char_length t s : char_value t = Some s -> 0 < length (show_char t).
Proof. destruct t as [|[]| | |]; cbn; (done || lia). Qed.

Lemma scan_chars_reads fuel l cs s r :
  chars_value cs = Some s -> lexer_ok l -> rest l = show_chars cs ++ DQUOTE :: r -> length (show_chars cs) < fuel ->
  exists l', scan_string_loop fuel l = Some (value_string, l') /\ string_step l l' s r.
Proof.
  revert fuel l s. induction cs as [|t cs IH]; intros fuel l s Hv Hok Hr Hf; (destruct fuel as [|fuel]; [lia|]).
  - injection Hv as <-. destruct (get_step _ _ l Hok Hr) as [Hcur Hs]. exists (get l). cbn [scan_string_loop]. by rewrite Hcur.
  - cbn [chars_value] in Hv. destruct (char_value t) as [s1|] eqn:Ht; [|done]. cbn [mbind option_bind] in Hv. destruct (chars_value cs) as [s2|] eqn:Hcs; [|done]. injection Hv as <-.
    pose proof (show_char_length t s1 Ht). unfold show_chars in Hr, Hf. cbn [map concat] in Hr, Hf. rewrite <- app_assoc in Hr. rewrite length_app in Hf.
    destruct (scan_char_reads fuel t s1 l _ Ht Hok Hr) as (l1 & -> & Hs1).
    destruct (IH fuel l1 s2 eq_refl (proj1 (proj2 Hs1)) (proj1 Hs1)) as (l' & -> & Hs2); [unfold show_chars; lia|].
    exists l'. split; [done|]. exact (string_step_trans _ _ _ _ _ _ _ Hs1 Hs2).
Qed.

(** ** Numbers *)

(** The text behind a number does not go on with it. *)
Definition stops (r : bytes) : Prop :=
  match r with [] => True | c :: _ => isdigit c = false /\ c <> "."%char /\ c <> "e"%char /\ c <> "E"%char end.

Lemma stops_blank ws : blanks ws -> stops ws.
Proof.
  intros Hws. destruct Hws as [|c ws Hc _]; [done|]. destruct c as [[] [] [] [] [] [] [] []]; first [discriminate Hc|by split_and!].
Qed.

Lemma stops_app ws r : blanks ws -> stops r -> stops (ws ++ r).
Proof. intros Hws Hr. destruct Hws as [|c ws Hc Hws]; [done|]. exact (stops_blank (c :: ws) (Forall_cons_2 _ _ _ Hc Hws)). Qed.

Lemma is_digit_code c : is_digit (code c) = isdigit c.
Proof. reflexivity. Qed.

(** The labels at which a number may end. *)
Definition final (label : number_label) : bool :=
  match label with Lzero | Lany1 | Ldecimal2 | Lany2 => true | _ => false end.

Lemma number_goto_stops label c : final label = true -> stops [c] -> number_goto label (code c) = inr Ldone.
Proof.
  intros Hl (Hd & Hdot & He & HE). assert (forall d, c <> d -> (code c =? code d)%Z = false) as Hne.
  { intros d Hd'. apply Z.eqb_neq. intros Heq. by apply Hd', code_inj. }
  specialize (Hne "."%char Hdot) as H1. specialize (Hne "e"%char He) as H2. specialize (Hne "E"%char HE) as H3.
  unfold number_goto, is_exp. change (code "."%char) with 46%Z in H1. change (code "e"%char) with 101%Z in H2. change (code "E"%char) with 69%Z in H3.
  rewrite is_digit_code, Hd, H1, H2, H3. by destruct label.
Qed.

(** The labels along a text, and the type of number at its end. *)
Fixpoint walk (label : number_label) (t : token_type) (s : bytes) : option (number_label * token_type) :=
  let t := number_type_at label t in
  match s with
  | [] => Some (label, t)
  | c :: s => match number_goto label (code c) with inr Ldone | inl _ => None | inr label => walk label t s end
  end.

Lemma walk_app label t s r label' t' : walk label t s = Some (label', t') -> walk label t (s ++ r) = walk label' t' r.
Proof.
  revert label t. induction s as [|c s IH]; intros label t; cbn [walk app].
  - intros [= -> <-]. by destruct label', r.
  - destruct (number_goto label (code c)) as [|[]]; try done; apply IH.
Qed.

(** What reading a number leaves. *)
Definition number_read (l l' : lexer) (ds r : bytes) : Prop :=
  token_buffer (unget l') = token_buffer l ++ ds /\ rest (unget l') = r /\ lexer_ok (unget l') /\ 0 < total (unget l').

Lemma number_stop fuel label t l r :
  0 < fuel -> final label = true -> lexer_ok l -> 0 < total l -> rest l = r -> stops r ->
  exists l', scan_number_loop fuel label t l = Some (Some (number_type_at label t), l') /\ number_read l l' [] r.
Proof.
  intros Hf Hlab Hok Ht Hr Hs. destruct fuel as [|fuel]; [lia|]. cbn [scan_number_loop].
  assert (exists c1, current (get l) = c1 /\ number_goto label c1 = inr Ldone /\ just_read (get l) /\ same_tokens l (get l) /\ total (get l) = S (total l) /\
    (if (c1 =? EOF)%Z then [] else to_char c1 :: rest (get l)) = r) as (c1 & Hc1 & Hg & Hj & (Hb & _) & Htot & Hrest).
  { destruct r as [|c r].
    - destruct (get_end l Hok Hr) as (Hcur & Hr1 & ?). exists EOF. split_and!; [done|by destruct label|tauto..|done].
    - destruct (get_char _ _ _ Hok Hr) as (Hcur & Hr1 & ?). exists (code c).
      split_and!; [done|by apply number_goto_stops|tauto..|]. by rewrite code_not_eof, to_char_code, Hr1. }
  rewrite Hc1, Hg. eexists. split; [reflexivity|]. destruct (unget_spec (get l) Hj) as (Hr' & Hok' & (Hb' & _) & Htot'); [lia|].
  unfold number_read. rewrite Hr', Hc1, Hrest, Hb', Hb, app_nil_r. split_and!; auto. lia.
Qed.

Lemma scan_number_loop_walk fuel label t l s r label' t' :
  walk label t s = Some (label', t') -> final label' = true -> lexer_ok l -> 0 < total l -> rest l = s ++ r -> stops r -> length s < fuel ->
  exists l', scan_number_loop fuel label t l = Some (Some t', l') /\ number_read l l' s r.
Proof.
  revert fuel label t l. induction s as [|c s IH]; intros fuel label t l Hw Hlab Hok Ht Hr Hs Hf.
  { injection Hw as -> <-. by apply number_stop. }
  destruct fuel as [|fuel]; [simpl in Hf; lia|]. cbn [scan_number_loop]. cbn [app] in Hr. cbn [walk] in Hw.
  destruct (get_char _ _ _ Hok Hr) as (Hcur & Hr1 & Hj1 & (Hb1 & _) & Ht1). rewrite Hcur.
  assert (exists label1, number_goto label (code c) = inr label1 /\ label1 <> Ldone /\ walk label1 (number_type_at label t) s = Some (label', t')) as (label1 & -> & Hne & Hw1)
    by (destruct (number_goto label (code c)) as [|[]]; try done; eexists; (split; [done|]); done).
  destruct (IH fuel label1 (number_type_at label t) (add (code c) (get l))) as (l' & Hl & Hb & Hread); auto using just_read_ok;
    [change (0 < total (get l)); lia|simpl in Hf; lia|].
  exists l'. split; [by destruct label1|]. split; [|done]. rewrite Hb. cbn. by rewrite Hb1, to_char_code, <- app_assoc.
Qed.

Lemma walk_cons label t c s :
  walk label t (c :: s) = match number_goto label (code c) with inr Ldone | inl _ => None | inr label' => walk label' (number_type_at label t) s end.
Proof. reflexivity. Qed.

(** Where a digit leads. *)
Lemma goto_digit c :
  isdigit c = true -> number_goto Ldecimal1 (code c) = inr Ldecimal2 /\ number_goto Lexponent (code c) = inr Lany2 /\ number_goto Lsign (code c) = inr Lany2 /\
    number_goto Lany1 (code c) = inr Lany1 /\ number_goto Ldecimal2 (code c) = inr Ldecimal2 /\ number_goto Lany2 (code c) = inr Lany2.
Proof.
  intros Hc. unfold number_goto. rewrite is_digit_code, Hc. split_and!; try done.
  assert ((code c =? 43)%Z || (code c =? 45)%Z = false) as -> by (unfold isdigit in Hc; to_prop; apply orb_false_iff; rewrite !Z.eqb_neq; lia). done.
Qed.

Lemma walk_digits label t ds : label = Lany1 \/ label = Ldecimal2 \/ label = Lany2 -> Forall (fun c => isdigit c = true) ds -> walk label t ds = Some (label, t).
Proof.
  intros Hl Hds. induction Hds as [|c ds Hc Hds IH]; [by destruct Hl as [-> |[-> | ->]]|]. rewrite walk_cons.
  destruct (goto_digit c Hc) as (_ & _ & _ & H1 & H2 & H3). destruct Hl as [-> |[-> | ->]]; rewrite ?H1, ?H2, ?H3; apply IH.
Qed.

Lemma digits_cons ds : digits ds -> exists c r, ds = c :: r /\ isdigit c = true /\ Forall (fun c => isdigit c = true) r.
Proof. intros [Hne Hd]. destruct Hd; [done|]. eauto. Qed.

(** Behind the digits of the integer. *)
Lemma walk_tail label t n :
  number_ok n -> label = Lzero \/ label = Lany1 ->
  exists label', walk label t (show_frac (nt_frac n) ++ show_exp (nt_exp n)) = Some (label', if is_integer n then t else value_float) /\ final label' = true.
Proof.
  intros (_ & _ & Hf & He) Hl. unfold is_integer.
  assert (exists label', walk label t (show_frac (nt_frac n)) = Some (label', match nt_frac n with Some _ => value_float | None => t end) /\
    (label' = Lzero \/ label' = Lany1 \/ label' = Ldecimal2)) as (label1 & Hw1 & Hl1).
  { destruct (nt_frac n) as [ds|]; cbn [show_frac]; [|exists label; split; [by destruct Hl as [-> | ->]|tauto]].
    destruct (digits_cons ds (Hf ds eq_refl)) as (c & r & -> & Hc & Hr). exists Ldecimal2. split; [|auto].
    destruct (goto_digit c Hc) as (Hg & _).
    assert (walk Ldecimal1 (number_type_at label t) (c :: r) = Some (Ldecimal2, value_float)) as Hw by (rewrite walk_cons, Hg; apply walk_digits; auto).
    by destruct Hl as [-> | ->]; rewrite walk_cons. }
  rewrite (walk_app _ _ _ _ _ _ Hw1). destruct (nt_exp n) as [[[ch sign] ds]|]; cbn [show_exp].
  2:{ exists label1. split; [|by destruct Hl1 as [-> |[-> | ->]]]. destruct (nt_frac n); by destruct Hl1 as [-> |[-> | ->]]. }
  exists Lany2. split; [|done]. destruct (He _ _ _ eq_refl) as (Hch & Hsign & Hds). destruct (digits_cons ds Hds) as (c & r & -> & Hc & Hr).
  assert (is_exp (code ch) = true /\ (code ch =? 46)%Z = false /\ is_digit (code ch) = false) as (H1 & H2 & H3)
    by (rewrite !elem_of_cons, elem_of_nil in Hch; destruct Hch as [-> |[-> | []]]; done).
  assert (walk Lexponent (number_type_at label1 match nt_frac n with Some _ => value_float | None => t end) (sign ++ c :: r) = Some (Lany2, value_float)) as Hexp.
  { destruct (goto_digit c Hc) as (_ & Hge & Hgs & _). rewrite !elem_of_cons, elem_of_nil in Hsign. destruct Hsign as [-> |[-> |[-> | []]]]; cbn [app B String.list_ascii_of_string]; rewrite walk_cons.
    - rewrite Hge. apply walk_digits; auto.
    - change (number_goto Lexponent (code "+"%char)) with (@inr bytes _ Lsign). cbv iota. rewrite walk_cons, Hgs. apply walk_digits; auto.
    - change (number_goto Lexponent (code "-"%char)) with (@inr bytes _ Lsign). cbv iota. rewrite walk_cons, Hgs. apply walk_digits; auto. }
  rewrite walk_cons. assert (number_goto label1 (code ch) = inr Lexponent) as ->; [|destruct (nt_frac n); exact Hexp].
  destruct Hl1 as [-> |[-> | ->]]; unfold number_goto; by rewrite ?H2, ?H3, H1.
Qed.

(** The first label, by the first character. *)
Definition first_label (c : Z) : number_label := if (c =? 45)%Z then Lminus else if (c =? 48)%Z then Lzero else Lany1.
Definition number_type (n : number_text) : token_type :=
  if is_integer n then if nt_minus n then value_integer else value_unsigned else value_float.

Lemma digit_not_minus c : isdigit c = true -> (code c =? 45)%Z = false.
Proof. unfold isdigit. intros Hc. to_prop. apply Z.eqb_neq. lia. Qed.

Lemma walk_number n :
  number_ok n -> exists c s label, show_number n = c :: s /\ (c = "-"%char \/ isdigit c = true) /\
    walk (first_label (code c)) value_unsigned s = Some (label, number_type n) /\ final label = true.
Proof.
  intros Hok. pose proof Hok as (Hint & Hzero & _). destruct (digits_cons _ Hint) as (c & ds & Hi & Hc & Hds).
  assert (forall t, exists label, walk (if (code c =? 48)%Z then Lzero else Lany1) t (ds ++ show_frac (nt_frac n) ++ show_exp (nt_exp n)) =
    Some (label, if is_integer n then t else value_float) /\ final label = true) as Hbody.
  { intros t. destruct (code c =? 48)%Z eqn:H0.
    - to_prop. assert (c = "0"%char) as -> by (by apply code_inj). rewrite (Hzero ds Hi). cbn [app]. apply walk_tail; auto.
    - rewrite (walk_app Lany1 t ds _ Lany1 t) by (apply walk_digits; auto). apply walk_tail; auto. }
  unfold show_number, number_type. rewrite Hi. destruct (nt_minus n); cbn [app B String.list_ascii_of_string].
  - destruct (Hbody value_integer) as (label & Hw & Hfin). do 3 eexists. split; [reflexivity|]. split; [by left|]. split; [|exact Hfin].
    change (first_label (code "-"%char)) with Lminus. rewrite walk_cons. unfold number_goto. rewrite is_digit_code, Hc. destruct (code c =? 48)%Z; exact Hw.
  - destruct (Hbody value_unsigned) as (label & Hw & Hfin). do 3 eexists. split; [reflexivity|]. split; [by right|]. split; [|exact Hfin].
    unfold first_label. rewrite digit_not_minus by done. exact Hw.
Qed.

(** The first character of a number. *)
Lemma number_first c : c = "-"%char \/ isdigit c = true -> solid c = true /\ forall lf l, current l = code c -> scan_token lf l = scan_number lf l.
Proof.
  intros [->|Hdig]; [split; [reflexivity|]; intros lf l Hl; unfold scan_token; by rewrite Hl|].
  unfold isdigit in Hdig. to_prop. split.
  - unfold solid. apply negb_true_iff. cbn. repeat (apply orb_false_iff; split); try done; apply Z.eqb_neq; lia.
  - intros lf l Hl. unfold scan_token. rewrite Hl. rewrite !(proj2 (Z.eqb_neq (code c) _)) by lia. unfold is_digit.
    rewrite (proj2 (Z.leb_le 48 _)), (proj2 (Z.leb_le _ 57)) by lia. done.
Qed.

(** The number of an integer text, as [strtoll] and [strtoull] read it. *)
Lemma signed_value_integer n :
  number_ok n -> is_integer n = true -> signed_value (show_number n) = if nt_minus n then (- dec_value 0 (nt_int n))%Z else dec_value 0 (nt_int n).
Proof.
  intros (Hint & _) Hi. unfold show_number, is_integer in *. destruct (nt_frac n), (nt_exp n); try done. cbn [show_frac show_exp app]. rewrite app_nil_r.
  destruct Hint as [Hne Hd]. destruct (nt_minus n); cbn [app B String.list_ascii_of_string signed_value].
  - by rewrite Ascii.eqb_refl, take_while_id by done.
  - destruct (nt_int n) as [|c ds] eqn:Heq; [done|]. rewrite <- Heq in Hd |- *. rewrite Heq at 1. unfold signed_value. rewrite Heq in Hd |- *.
    assert ((c =c "-"%char) = false) as -> by (apply Ascii.eqb_neq; intros ->; by apply Forall_cons in Hd as [? _]).
    by rewrite take_while_id by done.
Qed.

Lemma dec_value_digits ds : digits ds -> (0 <= dec_value 0 ds)%Z.
Proof. intros [_ Hd]. by apply dec_value_nonneg. Qed.

(** The token of a number, and where the lexer keeps the number. *)
Definition number_token (v : value) : token_type :=
  match v with VInteger _ => value_integer | VUnsigned _ => value_unsigned | _ => value_float end.
Definition number_kept (v : value) (l : lexer) : Prop :=
  match v with VInteger z => num_integer l = z | VUnsigned z => num_unsigned l = z | VFloat x => num_float l = x /\ isfinite x = true | _ => False end.

Lemma scan_number_done_reads n v l :
  number_ok n -> number_value n = Some v -> token_buffer (unget l) = show_number n ->
  exists l', scan_number_done (number_type n) l = (number_token v, l') /\ number_kept v l' /\
    rest l' = rest (unget l) /\ (lexer_ok (unget l) -> lexer_ok l') /\ total l' = total (unget l).
Proof.
  intros Hok Hv Hb. pose proof (dec_value_digits _ (proj1 Hok)) as Hz. pose proof (signed_value_integer n Hok) as Hsv.
  assert (float_value n = Some v -> exists l', (value_float, with_numbers (num_integer (unget l)) (num_unsigned (unget l)) (strtod (token_buffer (unget l))) (unget l)) = (number_token v, l') /\ number_kept v l' /\
      rest l' = rest (unget l) /\ (lexer_ok (unget l) -> lexer_ok l') /\ total l' = total (unget l)) as Hfloat.
  { intros Hf. unfold float_value in Hf. rewrite Hb. destruct (isfinite (strtod (show_number n))) eqn:Hfin; [|done]. injection Hf as <-.
    eexists. split; [reflexivity|]. split_and!; done. }
  unfold scan_number_done, number_type, number_value in *. destruct (is_integer n) eqn:Hi; [|by apply Hfloat]. specialize (Hsv eq_refl).
  destruct (nt_minus n) eqn:Hm.
  - rewrite Hb. unfold strtoll, clamp_long. rewrite Hsv. unfold LONG_MIN, LONG_MAX. rewrite (proj2 (Z.ltb_ge (2 ^ 63 - 1) _)), orb_false_r by lia.
    rewrite <- Hb. destruct (- 2 ^ 63 <=? - dec_value 0 (nt_int n))%Z eqn:Hr; to_prop.
    + injection Hv as <-. rewrite (proj2 (Z.ltb_ge _ (- 2 ^ 63))) by lia. eexists. split; [reflexivity|]. split_and!; try done. cbn. lia.
    + rewrite (proj2 (Z.ltb_lt _ (- 2 ^ 63))) by lia. by apply Hfloat.
  - rewrite Hb. unfold strtoull. rewrite Hsv. rewrite <- Hb. destruct (dec_value 0 (nt_int n) <? 2 ^ 64)%Z eqn:Hr; to_prop.
    + injection Hv as <-. rewrite (proj2 (Z.leb_gt (2 ^ 64) _)) by lia. eexists. split; [reflexivity|]. split_and!; try done. cbn. lia.
    + rewrite (proj2 (Z.leb_le (2 ^ 64) _)) by lia. by apply Hfloat.
Qed.

Lemma scan_number_reads lf l n v c s r :
  number_ok n -> number_value n = Some v -> show_number n = c :: s -> just_read l -> 0 < total l -> current l = code c -> rest l = s ++ r -> stops r ->
  length s < lf -> exists l', scan_number lf l = Some (number_token v, l') /\ number_kept v l' /\ rest l' = r /\ lexer_ok l' /\ 0 < total l'.
Proof.
  intros Hok Hv Hshow Hj Ht Hcur Hr Hs Hf. destruct (walk_number n Hok) as (c' & s' & label & Hshow' & _ & Hw & Hfin). rewrite Hshow in Hshow'. injection Hshow' as <- <-.
  unfold scan_number. change (current (reset l)) with (current l). rewrite Hcur.
  set (l0 := add (code c) (reset l)). assert (lexer_ok l0 /\ rest l0 = s ++ r /\ token_buffer l0 = [c] /\ total l0 = total l) as (Hok0 & Hr0 & Hb0 & Ht0).
  { split_and!; [exact (just_read_ok l Hj)|exact Hr|cbn; by rewrite to_char_code|done]. }
  destruct (scan_number_loop_walk lf (first_label (code c)) value_unsigned l0 s r label (number_type n) Hw Hfin Hok0 ltac:(lia) Hr0 Hs Hf) as (l1 & Hl & Hb & Hr1 & Hok1 & Ht1).
  unfold first_label in Hl. rewrite Hl. cbn [mbind option_bind].
  destruct (scan_number_done_reads n v l1 Hok Hv) as (l' & -> & Hk & Hr' & Hok' & Ht'); [by rewrite Hb, Hb0, Hshow|].
  exists l'. split_and!; auto; [congruence|lia].
Qed.

(** ** Tokens *)

Lemma scan_literal_reads text t l r :
  lexer_ok l -> rest l = text ++ r ->
  exists l', scan_literal_loop text t l = (t, l') /\ rest l' = r /\ lexer_ok l' /\ total l <= total l'.
Proof.
  revert l. induction text as [|c text IH]; intros l Hok Hr; cbn [scan_literal_loop]; [by exists l|]. cbn [app] in Hr.
  destruct (get_char _ _ _ Hok Hr) as (Hcur & Hr1 & Hj1 & _ & Ht1). rewrite Hcur, to_char_code, Ascii.eqb_refl. cbn [negb].
  destruct (IH (get l)) as (l' & -> & ? & ? & ?); auto using just_read_ok. exists l'. split_and!; auto. lia.
Qed.

Section reading.
  Context (ic : bool) (lf : nat).

  (** The parser before the text [t]. *)
Definition at_text (p : parser) (t : bytes) : Prop :=
    lexer_ok (m_lexer p) /\ rest (m_lexer p) = t /\ S (length t) < lf.

  (** The next token, and the text behind it. *)
Definition next_token (p : parser) (t : token_type) (P : lexer -> Prop) (r : bytes) : Prop :=
    exists p', get_token ic lf p = Some p' /\ last_token p' = t /\ P (m_lexer p') /\ at_text p' r.

Lemma next_token_scan p ws c r t P r' :
    at_text p (ws ++ c :: r) -> blanks ws -> solid c = true -> length r' <= length r ->
    (forall l1, current l1 = code c -> rest l1 = r -> just_read l1 -> 0 < total l1 ->
       exists l', scan_token lf l1 = Some (t, l') /\ P l' /\ rest l' = r' /\ lexer_ok l') ->
    next_token p t P r'.
Proof.
    intros (Hok & Hr & Hf) Hws Hc Hl Hs. rewrite length_app in Hf. cbn [length] in Hf.
    destruct (scan_start ic lf (m_lexer p) ws c r) as (l1 & Hscan & H1 & H2 & H3 & H4); [done..|lia|].
    destruct (Hs l1 H1 H2 H3 H4) as (l' & Heq & HP & Hr' & Hok'). exists (MkParser t l'). unfold get_token. rewrite Hscan, Heq.
    split_and!; [done|done|done|]. split_and!; [done|done|lia].
  Qed.

Definition punctuation : list (ascii * token_type) :=
    [("["%char, begin_array); ("]"%char, end_array); ("{"%char, begin_object); ("}"%char, end_object);
     (":"%char, name_separator); (","%char, value_separator)].

Lemma token_punctuation p ws c t r : at_text p (ws ++ c :: r) -> blanks ws -> (c, t) ∈ punctuation -> next_token p t (fun _ => True) r.
Proof.
    intros Hp Hws Hin. assert (solid c = true /\ forall l, current l = code c -> scan_token lf l = Some (t, l)) as [Hc Hs].
    { unfold punctuation in Hin. rewrite !elem_of_cons, elem_of_nil in Hin.
      destruct Hin as [[= -> ->]|[[= -> ->]|[[= -> ->]|[[= -> ->]|[[= -> ->]|[[= -> ->]|[]]]]]]];
        (split; [reflexivity|]); intros l Hl; unfold scan_token; by rewrite Hl. }
    eapply next_token_scan; [done..|]. intros l1 Hcur Hr Hj Ht. exists l1. split_and!; auto using just_read_ok.
  Qed.

Definition literals : list (bytes * token_type) := [(B "true", literal_true); (B "false", literal_false); (B "null", literal_null)].

Lemma token_literal p ws text t r : at_text p (ws ++ text ++ r) -> blanks ws -> (text, t) ∈ literals -> next_token p t (fun _ => True) r.
Proof.
    intros Hp Hws Hin. assert (exists c text', text = c :: text' /\ solid c = true /\
      forall l, current l = code c -> scan_token lf l = Some (scan_literal_loop text' t l)) as (c & text' & -> & Hc & Hs).
    { unfold literals in Hin. rewrite !elem_of_cons, elem_of_nil in Hin. destruct Hin as [[= -> ->]|[[= -> ->]|[[= -> ->]|[]]]];
        (do 2 eexists; split; [reflexivity|]; split; [reflexivity|]); intros l Hl; unfold scan_token; by rewrite Hl. }
    eapply next_token_scan; [exact Hp|done|done|rewrite length_app; lia|]. intros l1 Hcur Hr Hj Ht.
    destruct (scan_literal_reads text' t l1 r) as (l' & Heq & ? & ? & ?); auto using just_read_ok.
    exists l'. split_and!; auto. by rewrite Hs, Heq.
  Qed.

Lemma token_chars p ws cs s r :
    at_text p (ws ++ (DQUOTE :: show_chars cs ++ [DQUOTE]) ++ r) -> blanks ws -> chars_value cs = Some s -> next_token p value_string (fun l => token_buffer l = s) r.
Proof.
    intros Hp Hws Hv. cbn [app] in Hp. rewrite <- app_assoc in Hp. cbn [app] in Hp.
    eapply next_token_scan; [exact Hp|done|done|rewrite length_app; simpl; lia|]. intros l1 Hcur Hr Hj Ht.
    destruct (scan_chars_reads lf (reset l1) cs s r Hv) as (l' & Hl & Hr' & Hok' & Hb & _); [exact (just_read_ok l1 Hj)|exact Hr| |].
    { destruct Hp as (_ & _ & Hf). rewrite length_app in Hf. cbn [length] in Hf. rewrite length_app in Hf. lia. }
    exists l'. split_and!; auto. unfold scan_token. rewrite Hcur. exact Hl.
  Qed.

Lemma token_number p ws n v r :
    at_text p (ws ++ show_number n ++ r) -> blanks ws -> number_ok n -> number_value n = Some v -> stops r -> next_token p (number_token v) (number_kept v) r.
Proof.
    intros Hp Hws Hok Hv Hs. destruct (walk_number n Hok) as (c & s & _ & Hshow & Hc & _). rewrite Hshow in Hp. cbn [app] in Hp.
    destruct (number_first c Hc) as [Hsolid Hscan].
    eapply next_token_scan; [exact Hp|done|done|rewrite length_app; lia|]. intros l1 Hcur Hr Hj Ht. rewrite (Hscan lf l1 Hcur).
    destruct (scan_number_reads lf l1 n v c s r) as (l' & Hl & ? & ? & ? & ?); auto; [|by exists l'].
    destruct Hp as (_ & _ & Hf). rewrite length_app in Hf. cbn [length] in Hf. rewrite length_app in Hf. lia.
  Qed.
End reading.

(** ** Integers as [dec] prints them *)

Definition integer_text (z : Z) : number_text := MkNumber (z <? 0)%Z (dec_nat (Z.abs z)) None None.

Lemma show_integer z : show_number (integer_text z) = dec z.
Proof.
  unfold show_number, dec. cbn [integer_text nt_minus nt_int nt_frac nt_exp show_frac show_exp app]. rewrite app_nil_r.
  destruct (z <? 0)%Z eqn:?; to_prop; cbn [app B String.list_ascii_of_string]; do 2 f_equal; lia.
Qed.

Lemma dec_nat_number n : (0 <= n)%Z -> digits (dec_nat n) /\ forall ds, dec_nat n = "0"%char :: ds -> ds = [].
Proof.
  intros Hn. split; [split; [apply dec_nat_nonnil|by apply dec_nat_digits]|]. intros ds Hd.
  destruct (Z.eq_dec n 0) as [->|Hpos]; [by injection Hd as <-|]. destruct (dec_nat_head n) as (d & ds' & Hd' & Hr); [lia|].
  rewrite Hd in Hd'. injection Hd' as H0 _. apply (f_equal code) in H0. unfold digit_chr in H0. rewrite code_chr in H0 by lia. change (code "0"%char) with 48%Z in H0. lia.
Qed.

Lemma integer_text_ok z : number_ok (integer_text z).
Proof. destruct (dec_nat_number (Z.abs z)) as [H1 H2]; [lia|]. split_and!; done. Qed.

(** The value of an integer. *)
Definition integer_value (z : Z) : value := if (z <? 0)%Z then VInteger z else VUnsigned z.

Lemma integer_text_value z : (- 2 ^ 63 <= z < 2 ^ 64)%Z -> number_value (integer_text z) = Some (integer_value z).
Proof.
  intros Hz. unfold number_value, integer_value. cbn [is_integer nt_frac nt_exp nt_int nt_minus integer_text]. rewrite dec_nat_value by lia.
  destruct (z <? 0)%Z eqn:Hneg; to_prop; [rewrite (proj2 (Z.leb_le _ _)) by lia|rewrite (proj2 (Z.ltb_lt _ _)) by lia]; do 2 f_equal; lia.
Qed.

Lemma scan_number_dec lf l c ds z r :
  (- 2 ^ 63 <= z < 2 ^ 64)%Z -> dec z = c :: ds -> just_read l -> 0 < total l -> current l = code c -> rest l = ds ++ r -> stops r ->
  length ds < lf ->
  exists l', scan_number lf l = Some (number_token (integer_value z), l') /\ number_kept (integer_value z) l' /\ rest l' = r /\ lexer_ok l' /\ 0 < total l'.
Proof.
  intros Hz Hd. apply (scan_number_reads lf l (integer_text z)); [apply integer_text_ok|by apply integer_text_value|by rewrite show_integer].
Qed.

Lemma dec_first z c ds : dec z = c :: ds -> solid c = true /\ forall lf l, current l = code c -> scan_token lf l = scan_number lf l.
Proof.
  intros Hd. destruct (walk_number (integer_text z) (integer_text_ok z)) as (c' & s & _ & Hs & Hc & _). rewrite show_integer, Hd in Hs. injection Hs as <- <-.
  by apply number_first.
Qed.

(** ** [strtod] on a numeric text *)

Definition frac_digits (n : number_text) : bytes := match nt_frac n with Some ds => ds | None => [] end.
Definition exponent (n : number_text) : Z :=
  match nt_exp n with
  | Some (_, sign, ds) => if bool_decide (sign = B "-") then (- dec_value 0 ds)%Z else dec_value 0 ds
  | None => 0%Z
  end.

(** Digits and what follows them. *)
Lemma span_digits ds r :
  Forall (fun c => isdigit c = true) ds -> match r with [] => True | c :: _ => isdigit c = false end -> take_while isdigit (ds ++ r) = ds /\ drop_while isdigit (ds ++ r) = r.
Proof.
  intros Hd Hr. destruct r as [|c r]; [rewrite app_nil_r; split; [by apply take_while_id|by apply drop_while_nil]|].
  split; [by apply take_while_app_stop|by apply drop_while_app_stop].
Qed.

Lemma signed_digits ds : digits ds -> signed_value ds = dec_value 0 ds.
Proof.
  intros Hd. destruct (digits_cons ds Hd) as (c & r & -> & Hc & _). unfold signed_value.
  assert ((c =c "-"%char) = false) as -> by (apply Ascii.eqb_neq; by intros ->). by rewrite take_while_id by apply Hd.
Qed.

Lemma exponent_text n :
  number_ok n ->
  match show_exp (nt_exp n) with
  | c :: s' => if (c =c "e"%char) || (c =c "E"%char) then match s' with d :: s'' => if d =c "+"%char then signed_value s'' else signed_value s' | [] => 0%Z end else 0%Z
  | [] => 0%Z
  end = exponent n.
Proof.
  intros (_ & _ & _ & He). unfold exponent. destruct (nt_exp n) as [[[c sign] ds]|]; [|done]. destruct (He _ _ _ eq_refl) as (Hc & Hs & Hds). cbn [show_exp].
  assert ((c =c "e"%char) || (c =c "E"%char) = true) as -> by (rewrite !elem_of_cons, elem_of_nil in Hc; destruct Hc as [-> |[-> | []]]; done).
  rewrite !elem_of_cons, elem_of_nil in Hs. destruct Hs as [-> |[-> |[-> | []]]]; cbn [app B String.list_ascii_of_string].
  - destruct (digits_cons ds Hds) as (d & r & -> & Hd & _). assert ((d =c "+"%char) = false) as -> by (apply Ascii.eqb_neq; by intros ->).
    rewrite bool_decide_false by done. by apply signed_digits.
  - rewrite Ascii.eqb_refl, bool_decide_false by done. by apply signed_digits.
  - change ("-"%char =c "+"%char) with false. cbv iota. rewrite bool_decide_true by done. cbn [signed_value]. rewrite Ascii.eqb_refl. by rewrite take_while_id by apply Hds.
Qed.

Lemma show_exp_head n : number_ok n -> match show_exp (nt_exp n) with [] => True | c :: _ => isdigit c = false /\ (c =c "."%char) = false end.
Proof.
  intros (_ & _ & _ & He). destruct (nt_exp n) as [[[c sign] ds]|]; [|done]. destruct (He _ _ _ eq_refl) as (Hc & _). cbn [show_exp].
  rewrite !elem_of_cons, elem_of_nil in Hc. by destruct Hc as [-> |[-> | []]].
Qed.

Lemma strtod_show n :
  number_ok n -> strtod (show_number n) = binary64_of (nt_minus n) (dec_value 0 (nt_int n ++ frac_digits n)) (exponent n - Z.of_nat (length (frac_digits n))).
Proof.
  intros Hok. pose proof Hok as (Hint & _ & Hf & _). pose proof (show_exp_head n Hok) as Hhead.
  set (tail := show_frac (nt_frac n) ++ show_exp (nt_exp n)).
  assert (match show_number n with c :: s' => if c =c "-"%char then (true, s') else (false, show_number n) | [] => (false, []) end = (nt_minus n, nt_int n ++ tail)) as Hsign.
  { unfold show_number. fold tail. destruct (nt_minus n); cbn [app B String.list_ascii_of_string]; [done|].
    destruct (digits_cons _ Hint) as (c & r & -> & Hc & _). cbn [app]. assert ((c =c "-"%char) = false) as -> by (apply Ascii.eqb_neq; by intros ->). done. }
  unfold strtod. rewrite Hsign. destruct (span_digits (nt_int n) tail (proj2 Hint)) as [-> ->].
  { unfold tail. destruct (nt_frac n); cbn [show_frac app]; [done|]. destruct (show_exp (nt_exp n)); [done|apply Hhead]. }
  unfold tail, frac_digits. pose proof (exponent_text n Hok) as Hexp. destruct (nt_frac n) as [ds|]; cbn [show_frac app].
  - rewrite Ascii.eqb_refl. destruct (span_digits ds (show_exp (nt_exp n)) (proj2 (Hf ds eq_refl))) as [-> ->]; [destruct (show_exp (nt_exp n)); [done|apply Hhead]|]. by rewrite Hexp.
  - destruct (show_exp (nt_exp n)) as [|c s] eqn:Hs; [by rewrite <- Hexp|]. destruct Hhead as [_ ->]. by rewrite Hexp.
Qed.
