(* ===== verification/JsonComplete.v ===== *)
(** * The parser reads every JSON text

    From the text of a document to the value it means, through the loop of the parser and the
    pointers of the handler that builds the value: arrays, objects with their keys in any order,
    nested at will.  The property at the end is completeness: every text of the grammar of
    RFC 8259 whose numbers are finite is parsed, to what it means. *)
From S2P Require Import Prelude CLib Json JsonLexer JsonParser JsonText JsonReading.
From Stdlib Require Import SpecFloat.

(** ** Objects *)

(** A key above all others is added at the end. *)
Lemma object_at_last k f l : Forall (fun kv => bytes_lt (fst kv) k = true) l -> object_at k f l = l ++ [(k, f VNull)].
Proof.
  induction 1 as [|[k' v'] l Hk _ IH]; [done|]. cbn in Hk. apply bytes_lt_asym in Hk as [Hlt Hne]. cbn.
  by rewrite Hlt, bool_decide_false, IH.
Qed.

Lemma object_at_same k f l v : Forall (fun kv => bytes_lt (fst kv) k = true) l -> object_at k f (l ++ [(k, v)]) = l ++ [(k, f v)].
Proof.
  intros Hl. pose proof (object_at_at k f (fun _ => v) l) as Ha. rewrite !(object_at_last k _ l Hl) in Ha. exact Ha.
Qed.

Section values.
  Context (ic : bool) (lf : nat).
  Abbreviation loop := (sax_loop (H := dom_parser) ic lf).

Lemma loop_continue f skip st p d skip' st' p' d' :
    iteration ic lf skip st p d = Some (Continue skip' st' p' d') -> loop (S f) skip st p d = loop f skip' st' p' d'.
Proof. intros Hi. cbn [sax_loop]. by rewrite Hi. Qed.

Lemma loop_evaluate f st p d p' d' : parse_token ic lf st p d = Some (Evaluate p' d') -> loop (S f) false st p d = loop (S f) true st p' d'.
Proof. intros Hi. cbn [sax_loop]. unfold iteration. by rewrite Hi. Qed.

  (** [d'] is [d] with the value in the next place. *)
Definition handled (v : value) (d d' : dom_parser) : Prop :=
    exists q d1, handle_value v d = Some (q, d1) /\ root d' = root d1 /\ ref_stack d' = ref_stack d /\
      errored d' = errored d /\ allow_exceptions d' = allow_exceptions d.

  (** A part of the parse: rounds of the loop from one state to another. *)
Definition rounds (skip : bool) st p d skip' st' p' d' : Prop := exists n, forall fuel, loop (n + S fuel) skip st p d = loop (S fuel) skip' st' p' d'.

Lemma rounds_same st p d p' d' : parse_token ic lf st p d = Some (Evaluate p' d') -> rounds false st p d true st p' d'.
Proof. intros Hp. exists 0. intros fuel. by apply loop_evaluate. Qed.

Lemma rounds_step skip st p d skip1 st1 p1 d1 skip' st' p' d' :
    iteration ic lf skip st p d = Some (Continue skip1 st1 p1 d1) -> rounds skip1 st1 p1 d1 skip' st' p' d' -> rounds skip st p d skip' st' p' d'.
Proof. intros Hi [n Hn]. exists (S n). intros fuel. cbn [Nat.add]. by rewrite (loop_continue _ _ _ _ _ _ _ _ _ Hi). Qed.

Lemma rounds_one skip st p d skip' st' p' d' : iteration ic lf skip st p d = Some (Continue skip' st' p' d') -> rounds skip st p d skip' st' p' d'.
Proof. intros Hi. eapply rounds_step; [exact Hi|]. by exists 0. Qed.

Lemma rounds_trans skip st p d skip1 st1 p1 d1 skip' st' p' d' :
    rounds skip st p d skip1 st1 p1 d1 -> rounds skip1 st1 p1 d1 skip' st' p' d' -> rounds skip st p d skip' st' p' d'.
Proof.
    intros [n Hn] [m Hm]. exists (n + m). intros fuel. rewrite <- Nat.add_assoc.
    replace (m + S fuel) with (S (m + fuel)) by lia. rewrite Hn. replace (S (m + fuel)) with (m + S fuel) by lia. apply Hm.
  Qed.

  (** The parser before a value and more: it reads the first token, and parses the value. *)
Definition parses_to (p0 : parser) (v : value) (r : bytes) : Prop :=
    exists p, get_token ic lf p0 = Some p /\ last_token p <> end_array /\
      forall st d, dom_ok st true d -> exists p' d', rounds false st p d true st p' d' /\ at_text lf p' r /\ handled v d d'.

Definition parsed (d : doc) : Prop :=
    forall ws r p0 v, blanks ws -> doc_ok d -> doc_value d = Some v -> at_text lf p0 (ws ++ show_doc d ++ r) -> stops r -> parses_to p0 v r.

Lemma handled_ok st v d d' : dom_ok st true d -> handled v d d' -> dom_ok st false d'.
Proof.
    intros Hd (q & d1 & Hh & Hr & Hs & _). destruct (dom_slot st d Hd) as (q' & r & [Hslot _] & Hok & Hu).
    rewrite Hslot in Hh. injection Hh as <- <-. split; [|done]. rewrite Hr, Hs. cbn. by apply stack_ok_handled.
  Qed.

Lemma parsed_scalar p0 v t (P : lexer -> Prop) r :
    next_token ic lf p0 t P r -> t <> end_array ->
    (forall st p d, last_token p = t -> P (m_lexer p) -> parse_token ic lf st p d = scalar (dom_value v d) p) ->
    parses_to p0 v r.
Proof.
    intros (p & Hg & Ht & HP & Hat) Hne Hp. exists p. split_and!; [done|congruence|]. intros st d Hd.
    destruct (dom_slot st d Hd) as (q & r' & [Hslot _] & _). specialize (Hp st p d Ht HP).
    unfold dom_value in Hp. rewrite Hslot in Hp. exists p, (with_root (assign q (fun _ => v) r') d).
    split_and!; [by apply rounds_same|done|]. exists q, (with_root (assign q (fun _ => v) r') d). by split_and!.
  Qed.

  (** ** Arrays and objects *)

  (** The handler stands in a container, whose pointer is the back of the stack. *)
Definition inside (d : dom_parser) (q : path) (st : list path) (v : value) : Prop :=
    ref_stack d = q :: st /\ value_at q (root d) = Some v.

  (** [d'] has [v] for that container and has left it. *)
Definition closed (d d' : dom_parser) (q : path) (st : list path) (v : value) : Prop :=
    root d' = assign q (fun _ => v) (root d) /\ ref_stack d' = st /\ errored d' = errored d /\ allow_exceptions d' = allow_exceptions d.

  (** [d'] has [v] for it and is still in it. *)
Definition grown (d d' : dom_parser) (q : path) (v : value) : Prop :=
    root d' = assign q (fun _ => v) (root d) /\ ref_stack d' = ref_stack d /\ errored d' = errored d /\ allow_exceptions d' = allow_exceptions d.

Lemma grown_inside d d' q st v w : inside d q st v -> grown d d' q w -> inside d' q st w.
Proof. intros [Hst Hv] (Hr & Hs & _). split; [congruence|]. by rewrite Hr, (value_at_assigned _ _ _ _ Hv). Qed.

Lemma grown_closed d d1 d' q st v w x : inside d q st v -> grown d d1 q w -> closed d1 d' q st x -> closed d d' q st x.
Proof.
    intros [_ Hv] (Hr1 & Hs1 & ? & ?) (Hr & Hs & ? & ?). split_and!; [|congruence..].
    rewrite Hr, Hr1, assign_assign by eauto. done.
  Qed.

Lemma handled_element d d' q st pre v : inside d q st (VArray pre) -> handled v d d' -> grown d d' q (VArray (pre ++ [v])).
Proof.
    intros [Hst Hv] (q' & d1 & Hh & Hr & Hs & ? & ?). unfold handle_value in Hh. rewrite Hst, Hv in Hh. injection Hh as <- <-.
    split_and!; [|done..]. rewrite Hr. cbn. apply assign_ext; [|eauto]. intros w Hw. rewrite Hv in Hw. by injection Hw as <-.
  Qed.

Lemma dom_end_closed d q st v : inside d q st v -> exists d', dom_end d = Some (true, d') /\ closed d d' q st v.
Proof.
    intros [Hst Hv]. unfold dom_end. rewrite Hst. eexists. split; [done|]. split_and!; try done. cbn. by rewrite assign_same.
  Qed.

Lemma commas_cons t l c r :
    exists rest, commas (t :: l) ++ c :: r = t ++ rest /\ (l = [] /\ rest = c :: r \/ l <> [] /\ rest = ","%char :: commas l ++ c :: r).
Proof. destruct l as [|u l]; cbn [commas]; eexists; (split; [rewrite <- ?app_assoc; reflexivity|]); [by left|by right]. Qed.

Definition show_element (e : element doc) : bytes := e_before e ++ show_doc (e_doc e) ++ e_after e.

Lemma parse_elements l : l <> [] -> Forall (fun e => parsed (e_doc e)) l -> forall vs r p0,
    Forall (fun e => blanks (e_before e) /\ blanks (e_after e) /\ doc_ok (e_doc e)) l -> mapM (fun e => doc_value (e_doc e)) l = Some vs ->
    at_text lf p0 (commas (map show_element l) ++ "]"%char :: r) ->
    exists p, get_token ic lf p0 = Some p /\ last_token p <> end_array /\
      forall st d q rs pre, dom_ok (true :: st) false d -> inside d q rs (VArray pre) ->
        exists p' d', rounds false (true :: st) p d true st p' d' /\ at_text lf p' r /\ closed d d' q rs (VArray (pre ++ vs)).
Proof.
    intros Hne Hl. induction Hl as [|e l He Hl IH]; [done|]. intros vs r p0 Hok Hv Hat. apply Forall_cons in Hok as [(Hb & Ha & Hoke) Hokl].
    cbn [mapM mbind option_bind] in Hv. apply bind_Some in Hv as (v & Hve & Hv). apply bind_Some in Hv as (vl & Hvl & [= <-]).
    cbn [map] in Hat. destruct (commas_cons (show_element e) (map show_element l) "]"%char r) as (rest & Heq & Hcase). rewrite Heq in Hat. clear Heq.
    unfold show_element in Hat. rewrite <- !app_assoc in Hat.
    assert (stops rest) as Hstops by (destruct Hcase as [[_ ->]|[_ ->]]; done).
    destruct (He (e_before e) _ p0 v Hb Hoke Hve Hat (stops_app _ _ Ha Hstops)) as (p & Hg & Hlast & Hrun).
    exists p. split_and!; [done|done|]. intros st d q rs pre Hdok Hin.
    destruct (Hrun (true :: st) d (dom_array_next st d Hdok)) as (p1 & d1 & Hr1 & Hat1 & Hh1).
    pose proof (handled_ok _ _ _ _ (dom_array_next st d Hdok) Hh1) as Hdok1.
    pose proof (handled_element _ _ _ _ _ _ Hin Hh1) as Hgr. pose proof (grown_inside _ _ _ _ _ _ Hin Hgr) as Hin1.
    destruct Hcase as [[Hnil ->]|[Hnel ->]].
    - apply map_eq_nil in Hnil as ->. injection Hvl as <-.
      destruct (token_punctuation ic lf p1 _ "]"%char end_array r Hat1 Ha ltac:(in_table)) as (p2 & Hg2 & Ht2 & _ & Hat2).
      destruct (dom_end_closed d1 q rs _ Hin1) as (d2 & Hd2 & Hcl). exists p2, d2.
      split_and!; [|done|by eapply grown_closed]. eapply rounds_trans; [exact Hr1|]. apply rounds_one.
      unfold iteration. cbn [mbind option_bind evaluate]. rewrite Hg2. cbn [mbind option_bind]. rewrite Ht2. cbn. by rewrite Hd2.
    - destruct (token_punctuation ic lf p1 _ ","%char value_separator _ Hat1 Ha ltac:(in_table)) as (p2 & Hg2 & Ht2 & _ & Hat2).
      destruct (IH ltac:(by intros ->) vl r p2 Hokl Hvl Hat2) as (p3 & Hg3 & _ & Hrun3).
      destruct (Hrun3 st d1 q rs (pre ++ [v]) Hdok1 Hin1) as (p4 & d4 & Hr4 & Hat4 & Hcl4).
      exists p4, d4. split_and!; [|done|].
      + eapply rounds_trans; [exact Hr1|]. eapply rounds_step; [|exact Hr4].
        unfold iteration. cbn [mbind option_bind evaluate]. rewrite Hg2. cbn [mbind option_bind]. rewrite Ht2.
        cbn. by rewrite Hg3.
      + rewrite <- app_assoc in Hcl4. by eapply grown_closed.
  Qed.

  (** A key: its element is there, as it was or null, and is the next place. *)
Lemma key_next d q rs pre k :
    inside d q rs (VObject pre) ->
    exists d1, dom_key k d = Some (true, d1) /\ grown d d1 q (VObject (object_at k id pre)) /\ object_element d1 = Some (q ++ [inr k]).
Proof.
    intros [Hst Hv]. unfold dom_key. rewrite Hst, Hv. eexists. split; [done|]. split; [|done]. split_and!; [|done..]. cbn.
    apply assign_ext; [|eauto]. intros w Hw. rewrite Hv in Hw. by injection Hw as <-.
  Qed.

Lemma member_next d d' q rs pre k v :
    inside d q rs (VObject (object_at k id pre)) -> object_element d = Some (q ++ [inr k]) -> handled v d d' -> grown d d' q (VObject (add_member pre (k, v))).
Proof.
    intros [Hst Hv] He (q' & d1 & Hh & Hr & Hs & ? & ?). unfold handle_value in Hh. rewrite Hst, Hv, He in Hh. injection Hh as <- <-.
    split_and!; [|done..]. rewrite Hr. cbn. rewrite assign_app by eauto. apply assign_ext; [|eauto].
    intros w Hw. rewrite Hv in Hw. injection Hw as <-. cbn. by rewrite object_at_at.
  Qed.

  (** The same for a key above those of the object. *)
Lemma key_step d q rs pre k :
    inside d q rs (VObject pre) -> Forall (fun kv => bytes_lt (fst kv) k = true) pre ->
    exists d1, dom_key k d = Some (true, d1) /\ grown d d1 q (VObject (pre ++ [(k, VNull)])) /\ object_element d1 = Some (q ++ [inr k]).
Proof.
    intros [Hst Hv] Hk. unfold dom_key. rewrite Hst, Hv. eexists. split; [done|]. split; [|done]. split_and!; [|done..]. cbn.
    apply assign_ext; [|eauto]. intros w Hw. rewrite Hv in Hw. injection Hw as <-. by rewrite object_at_last.
  Qed.

Lemma handled_member d d' q rs pre k v :
    inside d q rs (VObject (pre ++ [(k, VNull)])) -> Forall (fun kv => bytes_lt (fst kv) k = true) pre ->
    object_element d = Some (q ++ [inr k]) -> handled v d d' -> grown d d' q (VObject (pre ++ [(k, v)])).
Proof.
    intros [Hst Hv] Hk He (q' & d1 & Hh & Hr & Hs & ? & ?). unfold handle_value in Hh. rewrite Hst, Hv, He in Hh. injection Hh as <- <-.
    split_and!; [|done..]. rewrite Hr. cbn. rewrite assign_app by eauto. apply assign_ext; [|eauto].
    intros w Hw. rewrite Hv in Hw. injection Hw as <-. cbn. by rewrite object_at_same.
  Qed.

Definition show_member (m : member doc) : bytes :=
    m_before m ++ (DQUOTE :: show_chars (m_key m) ++ [DQUOTE]) ++ m_after m ++ ":"%char :: show_element (m_element m).
Definition member_value (m : member doc) : option (bytes * value) :=
    k ← chars_value (m_key m); v ← doc_value (e_doc (m_element m)); Some (k, v).

Lemma parse_members l : l <> [] -> Forall (fun m => parsed (e_doc (m_element m))) l -> forall kvs r p0,
    Forall (fun m => blanks (m_before m) /\ blanks (m_after m) /\ blanks (e_before (m_element m)) /\ blanks (e_after (m_element m)) /\
                     doc_ok (e_doc (m_element m))) l ->
    mapM member_value l = Some kvs -> at_text lf p0 (commas (map show_member l) ++ "}"%char :: r) ->
    exists p, get_token ic lf p0 = Some p /\ last_token p = value_string /\
      forall st d q rs pre, dom_ok (false :: st) false d -> inside d q rs (VObject pre) ->
        exists p1 d1 p' d', parse_key ic lf (false :: st) p d = Some (Continue false (false :: st) p1 d1) /\
          rounds false (false :: st) p1 d1 true st p' d' /\ at_text lf p' r /\
          closed d d' q rs (VObject (foldl add_member pre kvs)).
Proof.
    intros Hne Hl. induction Hl as [|m l Hm Hl IH]; [done|]. intros kvs r p0 Hok Hv Hat. apply Forall_cons in Hok as [(Hb & Ha & Hb' & Ha' & Hokm) Hokl].
    cbn [mapM mbind option_bind] in Hv. apply bind_Some in Hv as (kv & Hkv & Hv). apply bind_Some in Hv as (kvl & Hvl & [= <-]).
    unfold member_value in Hkv. apply bind_Some in Hkv as (k & Hk & Hkv). apply bind_Some in Hkv as (v & Hvm & [= <-]).
    cbn [map] in Hat. destruct (commas_cons (show_member m) (map show_member l) "}"%char r) as (rest & Heq & Hcase). rewrite Heq in Hat. clear Heq.
    assert (stops rest) as Hstops by (destruct Hcase as [[_ ->]|[_ ->]]; done).
    assert (show_member m ++ rest = m_before m ++ (DQUOTE :: show_chars (m_key m) ++ [DQUOTE]) ++ m_after m ++ ":"%char ::
      e_before (m_element m) ++ show_doc (e_doc (m_element m)) ++ e_after (m_element m) ++ rest) as Htext
      by (unfold show_member, show_element; rewrite <- !app_assoc; cbn [app]; rewrite <- !app_assoc; done).
    rewrite Htext in Hat. clear Htext.
    destruct (token_chars ic lf p0 _ _ k _ Hat Hb Hk) as (p & Hg & Ht & Hbuf & Hat0).
    destruct (token_punctuation ic lf p _ ":"%char name_separator _ Hat0 Ha ltac:(in_table)) as (pc & Hgc & Htc & _ & Hatc).
    destruct (Hm (e_before (m_element m)) _ pc v Hb' Hokm Hvm Hatc (stops_app _ _ Ha' Hstops)) as (p1 & Hg1 & _ & Hrun).
    exists p. split_and!; [done|done|]. intros st d q rs pre Hdok Hin.
    destruct (dom_key_ok st k d Hdok) as (d1 & Hkey & Hdok1).
    destruct (key_next d q rs pre k Hin) as (d1' & Hkey' & Hgr1 & Hel). rewrite Hkey in Hkey'. injection Hkey' as <-.
    pose proof (grown_inside _ _ _ _ _ _ Hin Hgr1) as Hin1.
    destruct (Hrun (false :: st) d1 Hdok1) as (p2 & d2 & Hr2 & Hat2 & Hh2). pose proof (handled_ok _ _ _ _ Hdok1 Hh2) as Hdok2.
    pose proof (member_next _ _ _ _ _ _ _ Hin1 Hel Hh2) as Hgr2. pose proof (grown_inside _ _ _ _ _ _ Hin1 Hgr2) as Hin2.
    assert (parse_key ic lf (false :: st) p d = Some (Continue false (false :: st) p1 d1)) as Hpk.
    { unfold parse_key. rewrite Ht, Hbuf. cbn [sax_key dom_SAX event]. rewrite Hkey. cbn [event mbind option_bind negb bool_decide decide_rel token_type_eq_dec].
      rewrite bool_decide_true by done. cbn [negb]. rewrite Hgc. cbn [mbind option_bind]. rewrite Htc, bool_decide_true by done. cbn [negb]. by rewrite Hg1. }
    exists p1, d1. destruct Hcase as [[Hnil ->]|[Hnel ->]].
    - apply map_eq_nil in Hnil as ->. injection Hvl as <-.
      destruct (token_punctuation ic lf p2 _ "}"%char end_object r Hat2 Ha' ltac:(in_table)) as (p3 & Hg3 & Ht3 & _ & Hat3).
      destruct (dom_end_closed d2 q rs _ Hin2) as (d3 & Hd3 & Hcl). exists p3, d3.
      split_and!; [done| |done|]; [|eapply grown_closed; [exact Hin|exact Hgr1|]; by eapply grown_closed].
      eapply rounds_trans; [exact Hr2|]. apply rounds_one.
      unfold iteration. cbn [mbind option_bind evaluate]. rewrite Hg3. cbn [mbind option_bind]. rewrite Ht3. cbn. by rewrite Hd3.
    - destruct (token_punctuation ic lf p2 _ ","%char value_separator _ Hat2 Ha' ltac:(in_table)) as (p3 & Hg3 & Ht3 & _ & Hat3).
      destruct (IH ltac:(by intros ->) kvl r p3 Hokl Hvl Hat3) as (p4 & Hg4 & Ht4 & Hrun4).
      destruct (Hrun4 st d2 q rs (add_member pre (k, v)) Hdok2 Hin2) as (p5 & d5 & p6 & d6 & Hk5 & Hr6 & Hat6 & Hcl6).
      exists p6, d6. split_and!; [done| |done|].
      + eapply rounds_trans; [exact Hr2|]. eapply rounds_step; [|exact Hr6].
        unfold iteration. cbn [mbind option_bind evaluate]. rewrite Hg3. cbn [mbind option_bind]. rewrite Ht3.
        rewrite bool_decide_true by done. rewrite Hg4. cbn [mbind option_bind]. by rewrite Hk5.
      + eapply grown_closed; [exact Hin|exact Hgr1|]. by eapply grown_closed.
  Qed.

  (** An array or an object: it is put in its place empty, filled, and left. *)
Lemma start_step st v b d :
    dom_ok st true d -> container b (Some v) ->
    exists q d1, dom_start v d = Some (true, d1) /\ dom_ok (b :: st) false d1 /\ inside d1 q (ref_stack d) v /\
      forall w d', closed d1 d' q (ref_stack d) w -> handled w d d'.
Proof.
    intros Hd Hb. destruct (dom_start_ok st b v d Hd Hb) as (d1 & Hs & Hok). destruct (dom_slot st d Hd) as (q & r & [Hslot [x Hx]] & _).
    exists q, d1. unfold dom_start in Hs. rewrite Hslot in Hs. cbn [mbind option_bind] in Hs. injection Hs as <-.
    split_and!; [unfold dom_start; by rewrite Hslot|done| |].
    - split; [done|]. cbn. by rewrite (value_at_assigned _ _ _ _ Hx).
    - intros w d' (Hr & Hst & ? & ?). exists q, (with_root (assign q (fun _ => w) r) d). rewrite Hslot. split_and!; try done.
      rewrite Hr. cbn. by rewrite assign_assign by eauto.
  Qed.

Lemma parsed_array w l : Forall (fun e => parsed (e_doc e)) l -> parsed (DArray w l).
Proof.
    intros Hl ws r p0 v Hws Hok Hv Hat Hs. inv Hok. cbn [doc_value] in Hv. apply fmap_Some in Hv as (vs & Hvs & ->).
    cbn [show_doc] in Hat. rewrite <- !app_assoc in Hat. cbn [app B String.list_ascii_of_string] in Hat.
    destruct (token_punctuation ic lf p0 ws "["%char begin_array _ Hat Hws ltac:(in_table)) as (p & Hg & Ht & _ & Hat1).
    exists p. split_and!; [done|congruence|]. intros st d Hdok.
    destruct (start_step st (VArray []) true d Hdok eq_refl) as (q & d1 & Hst & Hdok1 & Hin & Hh).
    destruct l as [|e l].
    - injection Hvs as <-. destruct (token_punctuation ic lf p w "]"%char end_array r Hat1 ltac:(done) ltac:(in_table)) as (p1 & Hg1 & Ht1 & _ & Hat2).
      destruct (dom_end_closed d1 q _ _ Hin) as (d2 & Hd2 & Hcl). exists p1, d2. split_and!; [|done|by apply Hh].
      apply rounds_same. unfold parse_token. rewrite Ht. cbn [sax_start_array dom_SAX]. rewrite Hst. cbn [event mbind option_bind].
      rewrite Hg1. cbn [mbind option_bind]. rewrite Ht1. cbn. by rewrite Hd2.
    - destruct (parse_elements (e :: l) ltac:(done) Hl vs r p ltac:(done) Hvs Hat1) as (p1 & Hg1 & Hne1 & Hrun).
      destruct (Hrun st d1 q _ [] Hdok1 Hin) as (p2 & d2 & Hr2 & Hat2 & Hcl). exists p2, d2. split_and!; [|done|by apply Hh].
      eapply rounds_step; [|exact Hr2]. unfold iteration, parse_token. rewrite Ht. cbn [sax_start_array dom_SAX]. rewrite Hst.
      cbn [event mbind option_bind]. rewrite Hg1. cbn [mbind option_bind]. by rewrite bool_decide_false.
  Qed.

Lemma parsed_object w l : Forall (fun m => parsed (e_doc (m_element m))) l -> parsed (DObject w l).
Proof.
    intros Hl ws r p0 v Hws Hok Hv Hat Hs. inv Hok. cbn [doc_value] in Hv. apply bind_Some in Hv as (kvs & Hkvs & [= <-]).
    cbn [show_doc] in Hat. rewrite <- !app_assoc in Hat. cbn [app B String.list_ascii_of_string] in Hat.
    destruct (token_punctuation ic lf p0 ws "{"%char begin_object _ Hat Hws ltac:(in_table)) as (p & Hg & Ht & _ & Hat1).
    exists p. split_and!; [done|congruence|]. intros st d Hdok.
    destruct (start_step st (VObject []) false d Hdok eq_refl) as (q & d1 & Hst & Hdok1 & Hin & Hh).
    destruct l as [|m l].
    - injection Hkvs as <-. destruct (token_punctuation ic lf p w "}"%char end_object r Hat1 ltac:(done) ltac:(in_table)) as (p1 & Hg1 & Ht1 & _ & Hat2).
      destruct (dom_end_closed d1 q _ _ Hin) as (d2 & Hd2 & Hcl). exists p1, d2. split_and!; [|done|by apply Hh].
      apply rounds_same. unfold parse_token. rewrite Ht. cbn [sax_start_object dom_SAX]. rewrite Hst. cbn [event mbind option_bind].
      rewrite Hg1. cbn [mbind option_bind]. rewrite Ht1. cbn. by rewrite Hd2.
    - destruct (parse_members (m :: l) ltac:(done) Hl kvs r p ltac:(done) Hkvs Hat1) as (p1 & Hg1 & Ht1 & Hrun).
      destruct (Hrun st d1 q _ [] Hdok1 Hin) as (p2 & d2 & p3 & d3 & Hk & Hr3 & Hat3 & Hcl).
      exists p3, d3. split_and!; [|done|by apply Hh].
      eapply rounds_step; [|exact Hr3]. unfold iteration, parse_token. rewrite Ht. cbn [sax_start_object dom_SAX]. rewrite Hst.
      cbn [event mbind option_bind]. rewrite Hg1. cbn [mbind option_bind]. rewrite Ht1, bool_decide_false by done. by rewrite Hk.
  Qed.

Lemma parsed_number n : parsed (DNumber n).
Proof.
    intros ws r p0 v Hws Hok Hv Hat Hs. inv Hok. cbn [doc_value show_doc] in *.
    apply (parsed_scalar p0 v (number_token v) (number_kept v)); [by eapply token_number|by destruct v|].
    intros st p d Ht Hk. unfold parse_token, number_kept in *. destruct v; try done; rewrite Ht; cbn [number_token]; [by rewrite Hk..|].
    destruct Hk as [-> ->]. done.
  Qed.

Lemma parsed_all d : parsed d.
Proof.
    induction d as [|b|n|l|w l Hl|w l Hl] using doc_nested_ind; [..|by apply parsed_array|by apply parsed_object];
      [intros ws r p0 v Hws Hok [= <-] Hat Hs|intros ws r p0 v Hws Hok [= <-] Hat Hs|by apply parsed_number|intros ws r p0 v Hws Hok Hv Hat Hs].
    - apply (parsed_scalar p0 VNull literal_null (fun _ => True)); [apply (token_literal _ _ _ _ _ _ _ Hat Hws); in_table|done|].
      intros st p d Ht _. unfold parse_token. by rewrite Ht.
    - apply (parsed_scalar p0 (VBool b) (if b then literal_true else literal_false) (fun _ => True)); [|by destruct b|].
      + destruct b; apply (token_literal _ _ _ _ _ _ _ Hat Hws); in_table.
      + intros st p d Ht _. unfold parse_token. by rewrite Ht; destruct b.
    - cbn [doc_value] in Hv. apply fmap_Some in Hv as (s & Hv & ->).
      eapply parsed_scalar; [by eapply token_chars|done|]. intros st p d Ht Hb. unfold parse_token. by rewrite Ht, Hb.
  Qed.
End values.

(** More fuel changes nothing. *)
Lemma sax_loop_more {H} `{SAX H} ic lf f k skip st p s x :
  sax_loop ic lf f skip st p s = Some x -> sax_loop ic lf (f + k) skip st p s = Some x.
Proof.
  revert skip st p s. induction f as [|f IH]; intros skip st p s; [done|]. cbn [Nat.add sax_loop].
  destruct (iteration _ _ _ _ _ _) as [[]|]; [apply IH|done..].
Qed.

Lemma parse_doc allow_exceptions ic d v w1 w2 :
  doc_ok d -> doc_value d = Some v -> blanks w1 -> blanks w2 -> parse allow_exceptions ic (w1 ++ show_doc d ++ w2) = Some (Parsed v).
Proof.
  intros Hok Hv Hw1 Hw2. set (t := w1 ++ show_doc d ++ w2). pose proof (mk_parser_total ic t) as (p0 & Hp0 & Hpok & Hit). unfold parse. rewrite Hp0. cbn [mbind option_bind].
  assert (S (length t) < input_fuel t) as Hn by (unfold input_fuel; lia).
  set (n := input_fuel t) in *. set (d0 := mk_dom VNull allow_exceptions).
  destruct (parsed_all ic n d w1 w2 (MkParser uninitialized (mk_lexer t)) v Hw1 Hok Hv) as (p & Hg & _ & Hrun); [done|by apply stops_blank|].
  unfold mk_parser in Hp0. fold n in Hp0. rewrite Hg in Hp0. injection Hp0 as ->.
  destruct (Hrun [] d0 ltac:(by split)) as (p' & d' & [m Hm] & (Hlok & Hrest & Hlf) & (q & d1 & Hh & Hr & Hs & He & _)).
  specialize (Hm 0). cbn [sax_loop iteration mbind option_bind evaluate] in Hm. injection Hh as <- <-.
  destruct (sax_loop_total ic n (fun _ (_ : dom_parser) => True) ltac:(done) ltac:(done) ltac:(done) n false [] p0 d0) as (r2 & p2 & d2 & Hl2 & _ & _);
    [done|by split|done|].
  assert ((r2, p2, d2) = (Ret true, p', d')) as [= -> -> ->].
  { apply (sax_loop_more _ _ _ (m + 1)) in Hl2. apply (sax_loop_more _ _ _ n) in Hm. rewrite Nat.add_comm in Hl2. congruence. }
  unfold parser_parse, sax_parse_internal. fold d0. rewrite Hl2. cbn [mbind option_bind].
  destruct (scan_end ic n (m_lexer p') w2) as (l' & Hend); [done..|lia|].
  unfold expect_end, get_token. rewrite Hend. cbn [mbind option_bind last_token]. rewrite bool_decide_true by done.
  cbn [mbind option_bind]. by rewrite He, Hr.
Qed.

(** C12: the parser is complete: every text of the grammar of RFC 8259 -- white space anywhere
    between the tokens, strings through short escapes, code units, surrogate pairs and raw UTF-8,
    numbers with fractions and exponents, members in any order and repeated -- parses, with or
    without comments and exceptions, to the value it means, unless a number overflows. *)
Theorem parse_complete allow_exceptions ignore_comments d v before after :
  doc_ok d -> doc_value d = Some v -> blanks before -> blanks after ->
  parse allow_exceptions ignore_comments (before ++ show_doc d ++ after) = Some (Parsed v).
Proof. apply parse_doc. Qed.

Definition demo_doc : doc :=
  DObject [] [MkMember (B " ") [TPlain "k"%char] [] (MkElement (B " ") (DArray (B " ") []) []);
    MkMember [] [TUnicode "0"%char "0"%char "6"%char "b"%char] (B " ") (MkElement [] (DNumber (MkNumber true (B "0") (Some (B "5")) (Some ("E"%char, B "-", B "01")))) [LF]);
    MkMember [] [TEscape "n"%char] [] (MkElement [] (DString [TPair "d"%char "8"%char "3"%char "d"%char "D"%char "E"%char "0"%char "0"%char]) [])].

Lemma demo_doc_ok : doc_ok demo_doc.
Proof.
  apply ok_object; [constructor|]. apply Forall_cons. split; [|apply Forall_cons; split; [|apply Forall_cons; split; [|done]]]; cbn; split_and!; try by repeat constructor.
  apply ok_number. assert (forall ds, ds <> [] -> forallb isdigit ds = true -> digits ds) as Hd by (intros ds Hne Hds; split; [done|by apply forallb_Forall]).
  split_and!; cbn; [by apply Hd|by intros ds [= <-]|intros ds [= <-]; by apply Hd|intros c sign ds [= <- <- <-]]. split_and!; [in_table|in_table|by apply Hd].
Qed.

Lemma parse_complete_witness :
  exists x, parse true false ([LF] ++ show_doc demo_doc ++ B " ") =
    Some (Parsed (VObject [([LF], VString [chr 240; chr 159; chr 152; chr 128]); (B "k", VFloat x)])).
Proof.
  eexists. apply (parse_complete true false demo_doc); [apply demo_doc_ok|vm_compute; reflexivity|by repeat constructor|by repeat constructor].
Defined.
