(* ===== verification/InputAdapters.v ===== *)
(** * Wide characters as input: the input adapters of [include/json.hpp]

    [wide_string_input_adapter] turns a sequence of UTF-32 or UTF-16 units into the characters
    the lexer asks for, one at a time through a buffer of four.  On well-formed input it gives the
    UTF-8 form of the code points and then the end of the input; examples show what it makes of
    the rest. *)
From S2P Require Import Prelude CLib Json JsonLexer JsonParser JsonText JsonReading JsonComplete.

(** ** The adapters *)

(** [iterator_input_adapter] over units: what is left. *)
Definition get_unit (input : list Z) : Z * list Z := match input with [] => (EOF, []) | c :: r => (c, r) end.

Inductive wide := utf16 | utf32.

Record wide_adapter := MkWide { base_adapter : list Z; utf8_buffer : list Z; utf8_bytes_index : nat; utf8_bytes_filled : nat }.

Definition mk_wide (base : list Z) : wide_adapter := MkWide base [0; 0; 0; 0]%Z 0 0.

(** The first elements of the array are set. *)
Definition filled_with (bytes : list Z) (input : list Z) (a : wide_adapter) : wide_adapter :=
  MkWide input (bytes ++ drop (length bytes) (utf8_buffer a)) 0 (length bytes).

(** [static_cast<int>]. *)
Definition to_int (n : Z) : Z := s32 n.

Definition fill_buffer_32 (a : wide_adapter) : wide_adapter :=
  match base_adapter a with
  | [] => filled_with [EOF] [] a
  | wc :: input =>
      filled_with
        (if wc <? 0x80 then [to_int wc]
         else if wc <=? 0x7FF then
           [Z.lor 0xC0 (Z.land (Z.shiftr wc 6) 0x1F); Z.lor 0x80 (Z.land wc 0x3F)]
         else if wc <=? 0xFFFF then
           [Z.lor 0xE0 (Z.land (Z.shiftr wc 12) 0x0F); Z.lor 0x80 (Z.land (Z.shiftr wc 6) 0x3F); Z.lor 0x80 (Z.land wc 0x3F)]
         else if wc <=? 0x10FFFF then
           [Z.lor 0xF0 (Z.land (Z.shiftr wc 18) 0x07); Z.lor 0x80 (Z.land (Z.shiftr wc 12) 0x3F);
            Z.lor 0x80 (Z.land (Z.shiftr wc 6) 0x3F); Z.lor 0x80 (Z.land wc 0x3F)]
         else [to_int wc])%Z input a
  end.

Definition fill_buffer_16 (a : wide_adapter) : wide_adapter :=
  match base_adapter a with
  | [] => filled_with [EOF] [] a
  | wc :: input =>
      if (wc <? 0x80)%Z then filled_with [to_int wc] input a
      else if (wc <=? 0x7FF)%Z then filled_with [Z.lor 0xC0 (Z.shiftr wc 6); Z.lor 0x80 (Z.land wc 0x3F)]%Z input a
      else if (wc <? 0xD800)%Z || (0xE000 <=? wc)%Z then
        filled_with [Z.lor 0xE0 (Z.shiftr wc 12); Z.lor 0x80 (Z.land (Z.shiftr wc 6) 0x3F); Z.lor 0x80 (Z.land wc 0x3F)]%Z input a
      else
        match input with
        | wc2 :: input =>
            let charcode := u32 (0x10000 + Z.lor (Z.shiftl (Z.land wc 0x3FF) 10) (Z.land wc2 0x3FF)) in
            filled_with [Z.lor 0xF0 (Z.shiftr charcode 18); Z.lor 0x80 (Z.land (Z.shiftr charcode 12) 0x3F);
              Z.lor 0x80 (Z.land (Z.shiftr charcode 6) 0x3F); Z.lor 0x80 (Z.land charcode 0x3F)]%Z input a
        | [] => filled_with [to_int wc] [] a
        end
  end.

Definition fill_buffer (w : wide) : wide_adapter -> wide_adapter := match w with utf16 => fill_buffer_16 | utf32 => fill_buffer_32 end.

(** Reading behind the filled part fails an assertion. *)
Definition get_wide (w : wide) (a : wide_adapter) : option (Z * wide_adapter) :=
  let a := if (utf8_bytes_index a =? utf8_bytes_filled a)%nat then fill_buffer w a else a in
  if (utf8_bytes_index a <? utf8_bytes_filled a)%nat then
    c ← utf8_buffer a !! utf8_bytes_index a;
    Some (c, MkWide (base_adapter a) (utf8_buffer a) (S (utf8_bytes_index a)) (utf8_bytes_filled a))
  else None.

(** The first [n] characters. *)
Fixpoint characters (w : wide) (n : nat) (a : wide_adapter) : option (list Z) :=
  match n with
  | 0 => Some []
  | S n => '(c, a) ← get_wide w a; cs ← characters w n a; Some (c :: cs)
  end.

(** ** Encodings *)

Definition encode (w : wide) (cp : Z) : list Z :=
  match w with
  | utf32 => [cp]
  | utf16 => if (cp <? 0x10000)%Z then [cp] else [0xD800 + (cp - 0x10000) / 0x400; 0xDC00 + (cp - 0x10000) mod 0x400]%Z
  end.

Definition utf8_text (cps : list Z) : bytes := concat (map utf8_of cps).

(** What of the buffer is still to be read. *)
Definition pending (a : wide_adapter) : list Z := drop (utf8_bytes_index a) (take (utf8_bytes_filled a) (utf8_buffer a)).

Definition adapter_ok (a : wide_adapter) : Prop := length (utf8_buffer a) = 4 /\ utf8_bytes_index a <= utf8_bytes_filled a <= 4.

Lemma filled_ok bytes input a : adapter_ok a -> length bytes <= 4 ->
  adapter_ok (filled_with bytes input a) /\ pending (filled_with bytes input a) = bytes /\ base_adapter (filled_with bytes input a) = input.
Proof.
  intros [Hl _] Hb. unfold adapter_ok, pending, filled_with. cbn [utf8_buffer utf8_bytes_index utf8_bytes_filled base_adapter].
  split; [|split; [|done]].
  - split; [rewrite length_app, length_drop; lia|lia].
  - by rewrite drop_0, take_app_length.
Qed.

Lemma get_pending w a c p : adapter_ok a -> pending a = c :: p ->
  exists a', get_wide w a = Some (c, a') /\ adapter_ok a' /\ pending a' = p /\ base_adapter a' = base_adapter a.
Proof.
  intros [Hl Hi] Hp. unfold pending in Hp. unfold get_wide.
  assert (utf8_bytes_index a < utf8_bytes_filled a) as Hlt.
  { apply (f_equal length) in Hp. rewrite length_drop, length_take in Hp. cbn [length] in Hp. lia. }
  rewrite (proj2 (Nat.eqb_neq _ _)), (proj2 (Nat.ltb_lt _ _) Hlt) by lia.
  assert (utf8_buffer a !! utf8_bytes_index a = Some c) as Hc.
  { pose proof (f_equal (fun l => l !! 0) Hp) as H0. cbn beta in H0. rewrite lookup_drop, Nat.add_0_r, lookup_take_lt in H0 by done. exact H0. }
  rewrite Hc. cbn [mbind option_bind]. eexists. split; [done|]. split; [split; [done|cbn; lia]|]. split; [|done].
  unfold pending. cbn [utf8_bytes_index utf8_bytes_filled utf8_buffer]. rewrite (drop_S _ c) in Hp by (by rewrite lookup_take_lt). by injection Hp.
Qed.

Lemma get_filled w a c p : adapter_ok a -> pending a = [] -> adapter_ok (fill_buffer w a) -> pending (fill_buffer w a) = c :: p ->
  exists a', get_wide w a = Some (c, a') /\ adapter_ok a' /\ pending a' = p /\ base_adapter a' = base_adapter (fill_buffer w a).
Proof.
  intros [Hl Hi] Hp Hf Hfp. assert (utf8_bytes_index a = utf8_bytes_filled a) as Heq.
  { apply (f_equal length) in Hp. unfold pending in Hp. rewrite length_drop, length_take in Hp. cbn [length] in Hp. lia. }
  destruct (get_pending w (fill_buffer w a) c p Hf Hfp) as (a' & Hg & H2). exists a'. split; [|exact H2]. rewrite <- Hg.
  assert (utf8_bytes_index (fill_buffer w a) <> utf8_bytes_filled (fill_buffer w a)) as Hne.
  { intros He. unfold pending in Hfp. rewrite He, drop_ge in Hfp by (rewrite length_take; lia). done. }
  unfold get_wide. rewrite Heq, Nat.eqb_refl. by rewrite (proj2 (Nat.eqb_neq _ _) Hne).
Qed.

(** ** One code point *)

Lemma land_bound x n : (0 <= n)%Z -> (0 <= x < 2 ^ n)%Z -> Z.land x (Z.ones n) = x.
Proof. intros Hn Hx. rewrite Z.land_ones by done. by apply Z.mod_small. Qed.

Lemma utf8_codes cp : (0 <= cp < 0x110000)%Z -> utf8_bytes cp = code <$> utf8_of cp.
Proof.
  intros Hcp. rewrite utf8_bytes_div. unfold utf8_of.
  assert (forall x, (0 <= x mod 64 < 64)%Z) as Hm by (intros x; apply Z.mod_pos_bound; lia).
  pose proof (Hm cp). pose proof (Hm (cp / 64)%Z). pose proof (Hm (cp / 4096)%Z).
  destruct (cp <? 0x80)%Z eqn:?; to_prop; [cbn; by rewrite code_chr by lia|].
  destruct (cp <=? 0x7FF)%Z eqn:?; to_prop.
  { assert (0 <= cp / 64 < 32)%Z by (split; [apply Z.div_pos; lia|apply Z.div_lt_upper_bound; lia]).
    rewrite (proj2 (Z.ltb_lt cp 0x800)), (lor_table 0xC0 32) by (reflexivity || lia). cbn [fmap list_fmap map]. by rewrite !code_chr by lia. }
  rewrite (proj2 (Z.ltb_ge cp 0x800)) by lia. destruct (cp <=? 0xFFFF)%Z eqn:?; to_prop.
  { assert (0 <= cp / 4096 < 16)%Z by (split; [apply Z.div_pos; lia|apply Z.div_lt_upper_bound; lia]).
    rewrite (proj2 (Z.ltb_lt cp 0x10000)), (lor_table 0xE0 16) by (reflexivity || lia). cbn [fmap list_fmap map]. by rewrite !code_chr by lia. }
  assert (0 <= cp / 262144 < 8)%Z by (split; [apply Z.div_pos; lia|apply Z.div_lt_upper_bound; lia]).
  rewrite (proj2 (Z.ltb_ge cp 0x10000)), (lor_table 0xF0 8) by (reflexivity || lia). cbn [fmap list_fmap map]. by rewrite !code_chr by lia.
Qed.

Lemma utf8_of_length cp : 1 <= length (utf8_of cp) <= 4.
Proof. unfold utf8_of. repeat case_match; cbn; lia. Qed.

(** The masks of the UTF-32 helper cut nothing off. *)
Lemma mask_shift wc k n : (0 <= k)%Z -> (0 <= n)%Z -> (0 <= wc < 2 ^ (k + n))%Z -> Z.land (Z.shiftr wc k) (Z.ones n) = Z.shiftr wc k.
Proof.
  intros Hk Hn Hw. apply land_bound; [done|]. rewrite Z.shiftr_div_pow2 by done. rewrite Z.pow_add_r in Hw by done.
  split; [apply Z.div_pos; lia|]. apply Z.div_lt_upper_bound; lia.
Qed.

Lemma to_int_small n : (0 <= n < 0x80)%Z -> to_int n = n.
Proof. intros Hn. unfold to_int, s32, wraps. rewrite Z.mod_small by lia. lia. Qed.

Lemma fill_one w a cp r : adapter_ok a -> scalar_value cp -> base_adapter a = encode w cp ++ r ->
  adapter_ok (fill_buffer w a) /\ pending (fill_buffer w a) = code <$> utf8_of cp /\ base_adapter (fill_buffer w a) = r.
Proof.
  intros Ha Hs Hb. assert (0 <= cp < 0x110000)%Z as Hcp by (unfold scalar_value in Hs; lia). pose proof (utf8_of_length cp) as Hlen.
  assert (forall b, b = utf8_bytes cp -> adapter_ok (filled_with b r a) /\ pending (filled_with b r a) = code <$> utf8_of cp /\ base_adapter (filled_with b r a) = r) as Hfill.
  { intros b ->. rewrite (utf8_codes cp Hcp). apply filled_ok; [done|]. rewrite length_fmap. lia. }
  destruct w; cbn [encode fill_buffer] in *.
  - unfold fill_buffer_16. destruct (cp <? 0x10000)%Z eqn:Hbmp; to_prop; cbn [app] in Hb; rewrite Hb.
    + destruct (cp <? 0x80)%Z eqn:H1; to_prop; [|destruct (cp <=? 0x7FF)%Z eqn:H2; to_prop].
      * apply Hfill. unfold utf8_bytes. by rewrite (proj2 (Z.ltb_lt cp 0x80)), to_int_small by lia.
      * apply Hfill. unfold utf8_bytes. by rewrite (proj2 (Z.ltb_ge cp 0x80)), (proj2 (Z.leb_le cp 0x7FF)) by lia.
      * assert ((cp <? 0xD800)%Z || (0xE000 <=? cp)%Z = true) as ->.
        { apply orb_true_iff. unfold scalar_value in Hs. destruct Hs; [left|right]; [apply Z.ltb_lt|apply Z.leb_le]; lia. }
        apply Hfill. unfold utf8_bytes. by rewrite (proj2 (Z.ltb_ge cp 0x80)), (proj2 (Z.leb_gt cp 0x7FF)), (proj2 (Z.leb_le cp 0xFFFF)) by lia.
    + set (hi := (0xD800 + (cp - 0x10000) / 0x400)%Z). set (lo := (0xDC00 + (cp - 0x10000) mod 0x400)%Z).
      assert (0 <= (cp - 0x10000) / 0x400 < 0x400)%Z as Hh by (split; [apply Z.div_pos; lia|apply Z.div_lt_upper_bound; lia]).
      assert (0 <= (cp - 0x10000) mod 0x400 < 0x400)%Z as Hl by (apply Z.mod_pos_bound; lia).
      assert (Z.land hi 0x3FF = (cp - 0x10000) / 0x400 /\ Z.land lo 0x3FF = (cp - 0x10000) mod 0x400)%Z as [Eh El].
      { change 0x3FF%Z with (Z.ones 10). rewrite !Z.land_ones by lia. subst hi lo. change (2 ^ 10)%Z with 0x400%Z.
        replace (0xD800 + (cp - 0x10000) / 0x400)%Z with ((cp - 0x10000) / 0x400 + 54 * 0x400)%Z by lia.
        replace (0xDC00 + (cp - 0x10000) mod 0x400)%Z with ((cp - 0x10000) mod 0x400 + 55 * 0x400)%Z by lia.
        rewrite !Z.mod_add by lia. split; apply Z.mod_small; lia. }
      rewrite Eh, El. assert (u32 (0x10000 + Z.lor (Z.shiftl ((cp - 0x10000) / 0x400) 10) ((cp - 0x10000) mod 0x400)) = cp)%Z as ->.
      { assert (Z.lor (Z.shiftl ((cp - 0x10000) / 0x400) 10) ((cp - 0x10000) mod 0x400) = cp - 0x10000)%Z as ->.
        { change 0x400%Z with (2 ^ 10)%Z. rewrite <- Z.land_ones, <- Z.shiftr_div_pow2 by lia. apply Z.bits_inj'. intros i Hi.
          rewrite Z.lor_spec, Z.land_spec, Z.shiftl_spec by done. destruct (decide (i < 10)%Z) as [Hlt|Hge].
          - rewrite (Z.testbit_neg_r _ (i - 10)), Z.ones_spec_low by lia. by rewrite andb_true_r.
          - rewrite Z.shiftr_spec, Z.ones_spec_high by lia. rewrite andb_false_r, orb_false_r. f_equal. lia. }
        replace (0x10000 + (cp - 0x10000))%Z with cp by lia. unfold u32. apply Z.mod_small. lia. }
      rewrite (proj2 (Z.ltb_ge hi 0x80)), (proj2 (Z.leb_gt hi 0x7FF)), (proj2 (Z.ltb_ge hi 0xD800)), (proj2 (Z.leb_gt 0xE000 hi)) by lia. cbn [orb].
      apply Hfill. unfold utf8_bytes. by rewrite (proj2 (Z.ltb_ge cp 0x80)), (proj2 (Z.leb_gt cp 0x7FF)), (proj2 (Z.leb_gt cp 0xFFFF)) by lia.
  - unfold fill_buffer_32. cbn [app] in Hb. rewrite Hb. apply Hfill. unfold utf8_bytes. rewrite (proj2 (Z.leb_le cp 0x10FFFF)) by lia.
    destruct (cp <? 0x80)%Z eqn:H1; to_prop; [by rewrite to_int_small by lia|].
    destruct (cp <=? 0x7FF)%Z eqn:H2; to_prop; [change 0x1F%Z with (Z.ones 5); by rewrite mask_shift by lia|].
    destruct (cp <=? 0xFFFF)%Z eqn:H3; to_prop; [change 0x0F%Z with (Z.ones 4); by rewrite mask_shift by lia|].
    change 0x07%Z with (Z.ones 3). by rewrite mask_shift by lia.
Qed.

(** ** The whole input *)

(** What reading [n] characters of a text gives: the text, and the end of the input for ever. *)
Definition reads (n : nat) (l : list Z) : list Z := take n (l ++ replicate n EOF).

Lemma reads_cons n c l : reads (S n) (c :: l) = c :: reads n l.
Proof. unfold reads. cbn [app take]. f_equal. rewrite !take_app, !take_replicate. f_equal. f_equal. lia. Qed.

Lemma characters_pending w n a cs l :
  (forall n a', adapter_ok a' -> pending a' = [] -> base_adapter a' = base_adapter a -> characters w n a' = Some (reads n l)) ->
  adapter_ok a -> pending a = cs -> characters w n a = Some (reads n (cs ++ l)).
Proof.
  intros Hl. revert n a Hl. induction cs as [|c cs IH]; intros n a Hl Ha Hp; [by apply Hl|]. destruct n as [|n]; [done|]. cbn [characters].
  destruct (get_pending w a c cs Ha Hp) as (a' & -> & Ha' & Hp' & Hb'). cbn [mbind option_bind app]. rewrite reads_cons.
  rewrite (IH n a'); [done| |done|done]. intros k a2 H1 H2 H3. apply Hl; [done|done|congruence].
Qed.

Lemma characters_end w n a : adapter_ok a -> pending a = [] -> base_adapter a = [] -> characters w n a = Some (reads n []).
Proof.
  assert (forall n, reads n [] = replicate n EOF) as Hr by (intros m; unfold reads; cbn [app]; by rewrite take_ge by (by rewrite length_replicate)).
  rewrite Hr. revert a. induction n as [|n IH]; intros a Ha Hp Hb; [done|]. cbn [characters replicate].
  assert (fill_buffer w a = filled_with [EOF] [] a) as Hf by (destruct w; unfold fill_buffer, fill_buffer_16, fill_buffer_32; by rewrite Hb).
  destruct (filled_ok [EOF] [] a Ha ltac:(cbn; lia)) as (H1 & H2 & H3). rewrite <- Hf in H1, H2, H3.
  destruct (get_filled w a EOF [] Ha Hp H1 H2) as (a' & -> & Ha' & Hp' & Hb'). cbn [mbind option_bind]. rewrite IH; [done|done|done|congruence].
Qed.

Lemma characters_text w cps n a :
  Forall scalar_value cps -> adapter_ok a -> pending a = [] -> base_adapter a = concat (map (encode w) cps) ->
  characters w n a = Some (reads n (code <$> utf8_text cps)).
Proof.
  intros Hcps. revert n a. induction Hcps as [|cp cps Hcp Hcps IH]; intros n a Ha Hp Hb; cbn [map concat] in Hb; [by apply characters_end|].
  destruct n as [|n]; [done|]. destruct (fill_one w a cp _ Ha Hcp Hb) as (H1 & H2 & H3). pose proof (utf8_of_length cp) as Hl.
  unfold utf8_text. cbn [map concat]. destruct (utf8_of cp) as [|b bs] eqn:Hu; [cbn in Hl; lia|]. cbn [fmap list_fmap map] in H2.
  destruct (get_filled w a (code b) _ Ha Hp H1 H2) as (a' & Hg & Ha' & Hp' & Hb'). cbn [characters]. rewrite Hg. cbn [mbind option_bind app].
  rewrite fmap_cons, reads_cons, fmap_app. rewrite (characters_pending w n a' (code <$> bs) (code <$> utf8_text cps)); [done| |done|done].
  intros k a2 Ha2 Hp2 Hb2. apply IH; [done|done|congruence].
Qed.

(** Parsing wide input: the lexer's characters, as long as they are bytes, up to the end. *)
Definition input_bytes (cs : list Z) : option bytes :=
  let text := take (default (length cs) (list_find (fun c => c = EOF) cs ≫= fun p => Some p.1)) cs in
  if forallb (fun c => (0 <=? c)%Z && (c <? 256)%Z) text then Some (map chr text) else None.

Definition parse_wide (w : wide) (allow_exceptions ignore_comments : bool) (input : list Z) : option parse_result :=
  cs ← characters w (S (4 * length input)) (mk_wide input); text ← input_bytes cs; parse allow_exceptions ignore_comments text.

Lemma input_bytes_reads n (text : bytes) : length text < n -> input_bytes (reads n (code <$> text)) = Some text.
Proof.
  intros Hn. unfold input_bytes, reads. assert (exists m, take n ((code <$> text) ++ replicate n EOF) = (code <$> text) ++ EOF :: replicate m EOF) as [m ->].
  { exists (n - length text - 1). rewrite take_app, length_fmap, take_ge by (rewrite length_fmap; lia). f_equal. rewrite take_replicate.
    replace (Nat.min (n - length text) n) with (S (n - length text - 1)) by lia. done. }
  assert (list_find (fun c => c = EOF) ((code <$> text) ++ EOF :: replicate m EOF) = Some (length text, EOF)) as ->.
  { apply list_find_Some. rewrite lookup_app_r, length_fmap, Nat.sub_diag by (by rewrite length_fmap). split_and!; [done|done|].
    intros j y Hy Hj He. rewrite lookup_app_l in Hy by (by rewrite length_fmap). rewrite list_lookup_fmap in Hy.
    destruct (text !! j) as [c|]; [|done]. injection Hy as <-. pose proof (code_not_eof c) as Hc. to_prop. congruence. }
  cbn [mbind option_bind fst default from_option id]. rewrite (take_app_length' (code <$> text)) by (by rewrite length_fmap).
  assert (forallb (fun c => (0 <=? c)%Z && (c <? 256)%Z) (code <$> text) = true) as ->.
  { apply forallb_forall. intros c Hc. apply list_elem_of_In, list_elem_of_fmap in Hc as (b & -> & _). pose proof (code_range b).
    apply andb_true_iff. split; [apply Z.leb_le|apply Z.ltb_lt]; lia. }
  f_equal. change (map chr (code <$> text)) with (chr <$> (code <$> text)). rewrite <- list_fmap_compose. rewrite <- (list_fmap_id text) at 2. apply list_fmap_ext.
  intros i c _. apply chr_code.
Qed.

Lemma utf8_text_length w cps : length (utf8_text cps) <= 4 * length (concat (map (encode w) cps)).
Proof.
  induction cps as [|cp cps IH]; [cbn; lia|]. unfold utf8_text in *. cbn [map concat]. rewrite !length_app. pose proof (utf8_of_length cp).
  assert (1 <= length (encode w cp)) by (destruct w; cbn; repeat case_match; cbn; lia). lia.
Qed.

(** Wide input that encodes code points in UTF-16 or UTF-32 is read as their UTF-8 form: the
    adapter gives its bytes one by one and then the end of the input for ever, without a failed
    assertion; so parsing it is parsing the UTF-8 text. *)
Theorem wide_input_correct w cps n allow_exceptions ignore_comments :
  Forall scalar_value cps ->
  let input := concat (map (encode w) cps) in
  characters w n (mk_wide input) = Some (reads n (code <$> utf8_text cps)) /\
  parse_wide w allow_exceptions ignore_comments input = parse allow_exceptions ignore_comments (utf8_text cps).
Proof.
  intros Hcps input. assert (forall n, characters w n (mk_wide input) = Some (reads n (code <$> utf8_text cps))) as Hch.
  { intros m. apply characters_text; [done|split; cbn; lia|done|done]. }
  split; [apply Hch|]. unfold parse_wide. rewrite Hch. cbn [mbind option_bind]. rewrite input_bytes_reads; [done|].
  pose proof (utf8_text_length w cps). unfold input. lia.
Qed.

Lemma wide_input_correct_witness :
  parse_wide utf16 true false [0x22; 0xE9; 0xD83D; 0xDE00; 0x22]%Z = Some (Parsed (VString (utf8_text [0xE9; 0x1F600]%Z))).
Proof.
  refine (eq_trans (proj2 (wide_input_correct utf16 [0x22; 0xE9; 0x1F600; 0x22]%Z 0 true false _)) _); [|vm_compute; reflexivity].
  repeat constructor; unfold scalar_value; lia.
Defined.

(** A surrogate without its second half is read together with whatever unit comes next: the text
    is no UTF-16, and it parses to a string with another character. *)
Example lone_surrogate_swallows : parse_wide utf16 true false [0x22; 0xD800; 0x41; 0x22]%Z = Some (Parsed (VString (utf8_of 0x10041))).
Proof. vm_compute. reflexivity. Qed.

(** The unit 0xFFFFFFFF is no code point; as an [int] it is the end of the input, and what
    follows is not looked at. *)
Example unit_is_end_of_input : parse_wide utf32 true false [0x31; 0xFFFFFFFF; 0x78]%Z = Some (Parsed (VUnsigned 1)).
Proof. vm_compute. reflexivity. Qed.
