(* ===== verification/JsonValue.v ===== *)
(** * JSON values: comparison and access, [basic_json] of [include/json.hpp]

    The types, the exceptions of access, [operator==] with its conversions between the three
    kinds of numbers, and the accesses by index and by key: checked ([at]), creating
    ([operator[]]), removing, searching.  A reference into a value that the caller changes is a
    function applied to what it refers to.  Allocation does not fail. *)
From S2P Require Import Prelude CLib Json JsonLexer JsonParser.
From Stdlib Require Import SpecFloat.

(** ** Results: a value, an exception of the library, or a failed assertion *)

Inductive result (A : Type) := Done (a : A) | Fail (e : exn) | Stuck.
Arguments Done {A} a.
Arguments Fail {A} e.
Arguments Stuck {A}.

Definition rbind {A C} (o : result A) (f : A -> result C) : result C :=
  match o with Done a => f a | Fail e => Fail e | Stuck => Stuck end.
Notation "'let!' x ':=' o 'in' k" := (rbind o (fun x => k)) (at level 200, x pattern, o at level 100, k at level 200) : fdfs_scope.

(** ** Exceptions *)

Definition exn_create (ename : bytes) (id : Z) (what_arg : bytes) : exn := MkExn id (exception_name ename id ++ what_arg).
Definition type_error (id : Z) (what_arg : bytes) : exn := exn_create (B "type_error") id what_arg.
Definition out_of_range (id : Z) (what_arg : bytes) : exn := exn_create (B "out_of_range") id what_arg.
Definition other_error (id : Z) (what_arg : bytes) : exn := exn_create (B "other_error") id what_arg.

(** [parse_error::create] with a byte position instead of lines and columns. *)
Definition parse_error_at (id byte : Z) (what_arg : bytes) : exn :=
  MkExn id (exception_name (B "parse_error") id ++ B "parse error" ++
            (if negb (byte =? 0)%Z then B " at byte " ++ dec byte else []) ++ B ": " ++ what_arg).

(** The classes of the exceptions, by their numbers. *)
Definition is_parse_error (e : exn) : bool := (100 <=? exn_id e)%Z && (exn_id e <? 200)%Z.
Definition is_type_error (e : exn) : bool := (300 <=? exn_id e)%Z && (exn_id e <? 400)%Z.
Definition is_out_of_range (e : exn) : bool := (400 <=? exn_id e)%Z && (exn_id e <? 500)%Z.

(** ** Types *)

Inductive value_t :=
  | null | object | array | string | boolean | number_integer | number_unsigned | number_float | binary.

#[export] Instance value_t_eq_dec : EqDecision value_t.
Proof. solve_decision. Defined.

Definition type (v : value) : value_t :=
  match v with
  | VNull => null | VBool _ => boolean | VInteger _ => number_integer | VUnsigned _ => number_unsigned
  | VFloat _ => number_float | VString _ => string | VBinary _ => binary | VArray _ => array | VObject _ => object
  end.

Definition type_name (v : value) : bytes :=
  match type v with
  | null => B "null" | object => B "object" | array => B "array" | string => B "string" | boolean => B "boolean"
  | binary => B "binary" | number_integer | number_unsigned | number_float => B "number"
  end.

Definition is_null (v : value) : bool := bool_decide (type v = null).
Definition is_object (v : value) : bool := bool_decide (type v = object).
Definition is_array (v : value) : bool := bool_decide (type v = array).
Definition is_string (v : value) : bool := bool_decide (type v = string).
Definition is_primitive (v : value) : bool := negb (is_object v || is_array v).

(** ** [operator==] *)

(** The conversions of integers: [static_cast<double>], and of an unsigned one to signed. *)
Definition to_double (z : Z) : spec_float := binary_normalize 53 1024 z 0 false.
Definition to_signed (z : Z) : Z := wraps 64 z.

(** [std::equal] after the comparison of the sizes. *)
Section equal.
  Context {A : Type} (eq : A -> A -> bool).
Fixpoint list_equal (l k : list A) : bool :=
    match l, k with
    | [], [] => true
    | x :: l, y :: k => eq x y && list_equal l k
    | _, _ => false
    end.
Fixpoint pairs_equal (l k : list (bytes * A)) : bool :=
    match l, k with
    | [], [] => true
    | (a, x) :: l, (b, y) :: k => (a =s b) && eq x y && pairs_equal l k
    | _, _ => false
    end.
End equal.

Fixpoint value_eqb (lhs rhs : value) : bool :=
  match lhs, rhs with
  | VArray l, VArray k => list_equal value_eqb l k
  | VObject l, VObject k => pairs_equal value_eqb l k
  | VNull, VNull => true
  | VString s, VString t => s =s t
  | VBool b, VBool c => Bool.eqb b c
  | VInteger x, VInteger y => (x =? y)%Z
  | VUnsigned x, VUnsigned y => (x =? y)%Z
  | VFloat x, VFloat y => SFeqb x y
  | VBinary b, VBinary c => bool_decide (b = c)
  | VInteger x, VFloat y => SFeqb (to_double x) y
  | VFloat x, VInteger y => SFeqb x (to_double y)
  | VUnsigned x, VFloat y => SFeqb (to_double x) y
  | VFloat x, VUnsigned y => SFeqb x (to_double y)
  | VUnsigned x, VInteger y => (to_signed x =? y)%Z
  | VInteger x, VUnsigned y => (x =? to_signed y)%Z
  | _, _ => false
  end.

(** ** Access *)

(** [vector::resize] with nulls. *)
Definition resize (n : nat) (l : list value) : list value := l ++ replicate (n - length l) VNull.

(** [at]: the element, or the exception. *)
Definition at_index (idx : Z) (v : value) : result value :=
  match v with
  | VArray l =>
      match l !! Z.to_nat idx with
      | Some w => Done w
      | None => Fail (out_of_range 401 (B "array index " ++ dec idx ++ B " is out of range"))
      end
  | _ => Fail (type_error 304 (B "cannot use at() with " ++ type_name v))
  end.
Definition at_key (key : bytes) (v : value) : result value :=
  match v with
  | VObject l =>
      match object_find key l with
      | Some w => Done w
      | None => Fail (out_of_range 403 (B "key '" ++ key ++ B "' not found"))
      end
  | _ => Fail (type_error 304 (B "cannot use at() with " ++ type_name v))
  end.

(** Changing an element in place. *)
Definition set_index (idx : Z) (w v : value) : value :=
  match v with VArray l => VArray (<[Z.to_nat idx := w]> l) | _ => v end.
Definition set_key (key : bytes) (w v : value) : value :=
  match v with VObject l => VObject (object_at key (fun _ => w) l) | _ => v end.

(** [operator[]]: the value as it is afterwards, and the element. *)
Definition sub_index (idx : Z) (v : value) : result (value * value) :=
  let v := match v with VNull => VArray [] | _ => v end in
  match v with
  | VArray l =>
      let l := resize (Z.to_nat (idx + 1)) l in
      Done (VArray l, nth (Z.to_nat idx) l VNull)
  | _ => Fail (type_error 305 (B "cannot use operator[] with a numeric argument with " ++ type_name v))
  end.
Definition sub_key (key : bytes) (v : value) : result (value * value) :=
  let v := match v with VNull => VObject [] | _ => v end in
  match v with
  | VObject l => Done (VObject (object_at key id l), default VNull (object_find key l))
  | _ => Fail (type_error 305 (B "cannot use operator[] with a string argument with " ++ type_name v))
  end.

(** The const [operator[]]: an index behind the end is undefined, an absent key an assertion. *)
Definition const_index (idx : Z) (v : value) : result value :=
  match v with
  | VArray l => match l !! Z.to_nat idx with Some w => Done w | None => Stuck end
  | _ => Fail (type_error 305 (B "cannot use operator[] with a numeric argument with " ++ type_name v))
  end.
Definition const_key (key : bytes) (v : value) : result value :=
  match v with
  | VObject l => match object_find key l with Some w => Done w | None => Stuck end
  | _ => Fail (type_error 305 (B "cannot use operator[] with a string argument with " ++ type_name v))
  end.

Definition contains_key (key : bytes) (v : value) : bool :=
  match v with VObject l => negb (bool_decide (object_find key l = None)) | _ => false end.

Definition size (v : value) : Z :=
  match v with
  | VNull => 0 | VArray l => Z.of_nat (length l) | VObject l => Z.of_nat (length l) | _ => 1
  end.

(** [map::erase] and [vector::erase], [vector::insert]. *)
Definition object_erase (key : bytes) (l : list (bytes * value)) : list (bytes * value) :=
  filter (fun kv => kv.1 <> key) l.
Definition list_erase (idx : nat) (l : list value) : list value := take idx l ++ drop (S idx) l.
Definition list_insert (idx : nat) (w : value) (l : list value) : list value := take idx l ++ w :: drop idx l.

Definition erase_key (key : bytes) (v : value) : result value :=
  match v with
  | VObject l => Done (VObject (object_erase key l))
  | _ => Fail (type_error 307 (B "cannot use erase() with " ++ type_name v))
  end.
Definition erase_index (idx : Z) (v : value) : result value :=
  match v with
  | VArray l =>
      if (size v <=? idx)%Z then Fail (out_of_range 401 (B "array index " ++ dec idx ++ B " is out of range"))
      else Done (VArray (list_erase (Z.to_nat idx) l))
  | _ => Fail (type_error 307 (B "cannot use erase() with " ++ type_name v))
  end.

Definition push_back (w v : value) : result value :=
  match v with
  | VNull => Done (VArray [w])
  | VArray l => Done (VArray (l ++ [w]))
  | _ => Fail (type_error 308 (B "cannot use push_back() with " ++ type_name v))
  end.

(** [insert(begin() + idx, val)]; the position must be in the array. *)
Definition insert_at (idx : Z) (w v : value) : result value :=
  match v with
  | VArray l => if (size v <? idx)%Z then Stuck else Done (VArray (list_insert (Z.to_nat idx) w l))
  | _ => Fail (type_error 309 (B "cannot use insert() with " ++ type_name v))
  end.

(** The constructor from an initializer list: an object when all are pairs with a string. *)
Definition pair_of (v : value) : option (bytes * value) :=
  match v with VArray [VString k; w] => Some (k, w) | _ => None end.
Definition from_init (init : list value) : value :=
  if forallb (fun v => bool_decide (is_Some (pair_of v))) init then
    VObject (foldl (fun l v => match pair_of v with
                               | Some (k, w) => if bool_decide (object_find k l = None) then object_at k (fun _ => w) l else l
                               | None => l
                               end) [] init)
  else VArray init.

(** ** Objects as maps *)

Lemma increasing_cons k ks : increasing (k :: ks) = true <-> Forall (fun k' => bytes_lt k k' = true) ks /\ increasing ks = true.
Proof. cbn. by rewrite andb_true_iff, forallb_Forall. Qed.

Lemma object_find_lt k l : Forall (fun k' => bytes_lt k k' = true) (map fst l) -> object_find k l = None.
Proof. destruct l as [|[k' v'] l]; [done|]. cbn. intros Hl%Forall_cons_1. by destruct Hl as [-> _]. Qed.

Lemma object_find_elem k v l : increasing (map fst l) = true -> (k, v) ∈ l <-> object_find k l = Some v.
Proof.
  induction l as [|[k' v'] l IH]; cbn [map fst]; intros Hi; [split; [by intros ?%not_elem_of_nil|done]|].
  apply increasing_cons in Hi as [Hlt Hi]. rewrite elem_of_cons, (IH Hi). cbn [object_find]. destruct (bytes_lt k k') eqn:Hkk; [|case_test].
  - split; [|done]. intros [[= -> ->]|Hf]; [by rewrite bytes_lt_irrefl in Hkk|]. exfalso.
    rewrite object_find_lt in Hf; [done|]. eapply Forall_impl; [exact Hlt|]. intros x. by apply bytes_lt_trans.
  - to_prop. subst k'. split; [|intros [= ->]; by left]. intros [[= ->]|Hf]; [done|]. by rewrite object_find_lt in Hf.
  - to_prop. split; [intros [[= -> ->]|Hf]; done|by right].
Qed.

Lemma object_find_at_ne k f l k' : k <> k' -> object_find k' (object_at k f l) = object_find k' l.
Proof.
  intros Hne. induction l as [|[k1 v1] l IH]; cbn [object_at object_find].
  - case_test; [done|]. case_test; [|done]. to_prop. congruence.
  - destruct (bytes_lt k k1) eqn:H1; cbn [object_find].
    + destruct (bytes_lt k' k) eqn:H2.
      * by rewrite (bytes_lt_trans k' k k1).
      * case_test; [to_prop; congruence|]. done.
    + case_test; cbn [object_find].
      * to_prop. subst k1. rewrite (bool_decide_false (k' = k)) by congruence. done.
      * destruct (bytes_lt k' k1); [done|]. by rewrite IH.
Qed.

Lemma object_at_increasing k f l : increasing (map fst l) = true -> increasing (map fst (object_at k f l)) = true.
Proof.
  induction l as [|[k1 v1] l IH]; [done|]. cbn [map fst]. intros [Hlt Hi]%increasing_cons. cbn [object_at].
  destruct (bytes_lt k k1) eqn:H1; [|case_test].
  - cbn [map fst]. apply increasing_cons. split; [|by apply increasing_cons]. constructor; [done|].
    eapply Forall_impl; [exact Hlt|]. intros x. by apply bytes_lt_trans.
  - to_prop. subst. cbn [map fst]. by apply increasing_cons.
  - to_prop. cbn [map fst]. apply increasing_cons. split; [|by apply IH]. rewrite <- forallb_Forall in *.
    apply object_at_keys; [by apply bytes_lt_total|done].
Qed.

Lemma object_erase_increasing k l : increasing (map fst l) = true -> increasing (map fst (object_erase k l)) = true.
Proof.
  unfold object_erase. induction l as [|[k1 v1] l IH]; [done|]. cbn [map fst]. intros [Hlt Hi]%increasing_cons.
  rewrite filter_cons. case_decide; [|by apply IH]. cbn [map fst]. apply increasing_cons. split; [|by apply IH].
  rewrite Forall_fmap in *. rewrite Forall_forall in *. intros x [_ Hx]%list_elem_of_filter. by apply Hlt.
Qed.

Lemma object_find_erase k l k' :
  increasing (map fst l) = true -> object_find k' (object_erase k l) = if decide (k = k') then None else object_find k' l.
Proof.
  intros Hi. apply option_eq. intros v. rewrite <- (object_find_elem k') by by apply object_erase_increasing.
  unfold object_erase. rewrite list_elem_of_filter, (object_find_elem k' v l Hi). cbn. case_decide; naive_solver.
Qed.

(** Two maps with related elements under every key are related as lists. *)
Lemma object_rel (R : value -> value -> Prop) l k :
  increasing (map fst l) = true -> increasing (map fst k) = true ->
  (forall key, option_Forall2 R (object_find key l) (object_find key k)) ->
  Forall2 (fun x y => x.1 = y.1 /\ R x.2 y.2) l k.
Proof.
  revert k. induction l as [|[k1 v1] l IH]; intros [|[k2 v2] k]; cbn [map fst]; intros Hl Hk Hf; [constructor|..].
  - specialize (Hf k2). cbn in Hf. rewrite bytes_lt_irrefl, bool_decide_true in Hf by done. inv Hf.
  - specialize (Hf k1). cbn in Hf. rewrite bytes_lt_irrefl, bool_decide_true in Hf by done. inv Hf.
  - apply increasing_cons in Hl as [Hl1 Hl2], Hk as [Hk1 Hk2].
    assert (k1 = k2) as <-.
    { destruct (decide (k1 = k2)) as [|Hne]; [done|]. exfalso. destruct (bytes_lt k1 k2) eqn:Hlt.
      - specialize (Hf k1). cbn in Hf. rewrite bytes_lt_irrefl, bool_decide_true, Hlt in Hf by done. inv Hf.
      - specialize (Hf k2). cbn in Hf. rewrite bytes_lt_irrefl, (bool_decide_true (k2 = k2)) in Hf by done.
        rewrite (bytes_lt_total k1 k2) in Hf by done. inv Hf. }
    constructor.
    + split; [done|]. specialize (Hf k1). cbn in Hf. rewrite !bytes_lt_irrefl, !bool_decide_true in Hf by done. by inv Hf.
    + apply IH; [done..|]. intros key. specialize (Hf key). cbn in Hf.
      destruct (bytes_lt key k1) eqn:Hlt.
      { rewrite !object_find_lt; [constructor|..]; (eapply Forall_impl; [eassumption|]); intros x; by apply bytes_lt_trans. }
      case_bool_decide; [|done]. subst. rewrite !object_find_lt by done. constructor.
Qed.

(** ** Induction on values *)

Section value_induction.
  Context (P : value -> Prop) (Hp : forall v, is_primitive v = true -> P v)
    (Ha : forall l, Forall P l -> P (VArray l)) (Ho : forall l, Forall (fun kv : bytes * value => P kv.2) l -> P (VObject l)).
Fixpoint value_induction (v : value) : P v :=
    match v with
    | VArray l => Ha l ((fix go l : Forall P l := match l with [] => Forall_nil_2 P | v :: l => Forall_cons_2 P v l (value_induction v) (go l) end) l)
    | VObject l =>
        Ho l ((fix go l : Forall (fun kv => P kv.2) l :=
                 match l with [] => Forall_nil_2 _ | kv :: l => Forall_cons_2 (fun kv => P kv.2) kv l (value_induction kv.2) (go l) end) l)
    | v => Hp v eq_refl
    end.
End value_induction.
