(* ===== verification/BinaryFloat.v ===== *)
(** * Floating point numbers as bytes: what the binary formats of [include/json.hpp] rely on

    The conversions between [float] and [double], and the bits that [memcpy] sees, for the
    numbers of the standard library's [SpecFloat].  A NaN has no payload there: it stands for
    the quiet NaN that arithmetic produces. *)
From S2P Require Import Prelude CLib.
From Stdlib Require Import SpecFloat.

(** ** Conversions *)

Section convert.
  Context (prec emax : Z).

(** [static_cast] to the format, to nearest, ties to even. *)
Definition convert (x : spec_float) : spec_float :=
  match x with S754_finite s m e => binary_round prec emax s m e | _ => x end.
End convert.

Definition to_float : spec_float -> spec_float := convert 24 128.
Definition from_float : spec_float -> spec_float := convert 53 1024.

(** [numeric_limits<float>::max()] as a [double]; the lowest is its opposite. *)
Definition float_max : spec_float := S754_finite false (2 ^ 53 - 2 ^ 29) 75.
Definition float_lowest : spec_float := SFopp float_max.

(** ** Bits *)

Section bits.
  Context (prec emax w : Z).

Definition sign_bit (s : bool) : Z := if s then 2 ^ (w - 1) else 0.
Definition top_exponent : Z := (2 ^ (w - prec) - 1) * 2 ^ (prec - 1).

Definition float_bits (x : spec_float) : Z :=
  match x with
  | S754_zero s => sign_bit s
  | S754_infinity s => sign_bit s + top_exponent
  | S754_nan => top_exponent + 2 ^ (prec - 2)
  | S754_finite s m e =>
      if (Zpos m <? 2 ^ (prec - 1))%Z then sign_bit s + Zpos m
      else sign_bit s + (e - emin prec emax + 1) * 2 ^ (prec - 1) + (Zpos m - 2 ^ (prec - 1))
  end.

Definition float_of_bits (bits : Z) : spec_float :=
  let s := (2 ^ (w - 1) <=? bits)%Z in
  let exponent := ((bits / 2 ^ (prec - 1)) mod 2 ^ (w - prec))%Z in
  let mantissa := (bits mod 2 ^ (prec - 1))%Z in
  if (exponent =? 0)%Z then
    match mantissa with Zpos m => S754_finite s m (emin prec emax) | _ => S754_zero s end
  else if (exponent =? 2 ^ (w - prec) - 1)%Z then
    if (mantissa =? 0)%Z then S754_infinity s else S754_nan
  else
    match (mantissa + 2 ^ (prec - 1))%Z with
    | Zpos m => S754_finite s m (exponent + emin prec emax - 1)
    | _ => S754_nan
    end.
End bits.

(** [float] and [double]. *)
Definition bits32 : spec_float -> Z := float_bits 24 128 32.
Definition of_bits32 : Z -> spec_float := float_of_bits 24 128 32.
Definition bits64 : spec_float -> Z := float_bits 53 1024 64.
Definition of_bits64 : Z -> spec_float := float_of_bits 53 1024 64.

(** Half precision, as the reader decodes it: [ldexp] is exact here. *)
Definition half_value (half : Z) : spec_float :=
  let exp := Z.land (Z.shiftr half 10) 0x1F in
  let mant := Z.land half 0x3FF in
  let val :=
    if (exp =? 0)%Z then binary_normalize 53 1024 mant (-24) false
    else if (exp =? 31)%Z then if (mant =? 0)%Z then S754_infinity false else S754_nan
    else binary_normalize 53 1024 (mant + 1024) (exp - 25) false in
  if negb (Z.land half 0x8000 =? 0)%Z then SFopp val else val.

Example demo_bits : bits64 (S754_finite true 6755399441055744 (-52)) = 0xBFF8000000000000%Z /\ of_bits32 0x3FC00000 = S754_finite false 12582912 (-23).
Proof. split; reflexivity. Qed.
Example demo_half : half_value 0x3C00 = S754_finite false (2 ^ 52) (-52) /\ half_value 0xFC00 = S754_infinity true.
Proof. split; reflexivity. Qed.
Example demo_max : from_float (S754_finite false (2 ^ 24 - 1) 104) = float_max.
Proof. reflexivity. Qed.
