(* ===== verification/FloatTheory.v ===== *)
(** * Floating point numbers as bytes: theorems

    Rounding gives valid numbers; a valid number is read back from its bits; a [double] that
    passes the test of [write_compact_float] is read back from its four bytes. *)
From S2P Require Import Prelude CLib BinaryFloat.
From Stdlib Require Import SpecFloat.
#[local] Open Scope Z_scope.

(** ** Rounding gives valid numbers *)

Lemma digits_log2 p : Zpos (digits2_pos p) = Z.log2 (Zpos p) + 1.
Proof.
  induction p as [p IH|p IH|]; [| |done]; cbn [digits2_pos]; rewrite Pos2Z.inj_succ, IH.
  - by rewrite (Pos2Z.inj_xI p), Z.log2_succ_double by lia.
  - rewrite (Pos2Z.inj_xO p), Z.log2_double by lia. lia.
Qed.

Lemma Zdigits_log2 z : 0 < z -> Zdigits2 z = Z.log2 z + 1.
Proof. destruct z as [|p|p]; [lia|intros _; apply digits_log2|lia]. Qed.

Lemma shr_1_half r : 0 <= shr_m r -> shr_m (shr_1 r) = shr_m r / 2.
Proof.
  destruct r as [m r s]. cbn. destruct m as [|[p|p|]|p]; intros Hm; cbn; try lia; try done.
  - rewrite (Pos2Z.inj_xI p). by replace (2 * Zpos p + 1) with (1 + Zpos p * 2) by lia; rewrite Z.div_add by lia.
  - rewrite (Pos2Z.inj_xO p), Z.mul_comm. by rewrite Z.div_mul.
Qed.

Lemma shr_iter p r : 0 <= shr_m r -> shr_m (iter_pos shr_1 p r) = shr_m r / 2 ^ Zpos p.
Proof.
  revert r. induction p as [p IH|p IH|]; intros r Hr; cbn [iter_pos]; [| |by rewrite Z.pow_1_r, shr_1_half];
    assert (0 < 2 ^ Zpos p) as Hp by (apply Z.pow_pos_nonneg; lia);
    assert (forall x, 0 <= shr_m x -> 0 <= shr_m (iter_pos shr_1 p x)) as Hpos by (intros x Hx; rewrite IH by done; by apply Z.div_pos).
  - assert (0 <= shr_m (shr_1 r)) by (rewrite shr_1_half by done; by apply Z.div_pos).
    rewrite !IH by auto. rewrite shr_1_half by done. rewrite !Z.div_div by lia. f_equal.
    rewrite (Pos2Z.inj_xI p), Z.pow_add_r, Z.pow_1_r by lia. replace (2 * Zpos p) with (Zpos p + Zpos p) by lia. rewrite Z.pow_add_r by lia. ring.
  - rewrite !IH by auto. rewrite Z.div_div by lia. f_equal. rewrite (Pos2Z.inj_xO p). replace (2 * Zpos p) with (Zpos p + Zpos p) by lia. by rewrite Z.pow_add_r.
Qed.

Section valid.
  Context (prec emax : Z) (Hprec : 1 < prec) (Hemax : prec < emax).

Abbreviation fexp := (fexp prec emax).

(** After a shift to the canonical exponent. *)
Lemma shr_fexp_spec m e l m' e' :
  0 < m -> shr_fexp prec emax m e l = (m', e') ->
  e' = Z.max e (fexp (Zdigits2 m + e)) /\ shr_m m' = m / 2 ^ (e' - e).
Proof.
  intros Hm. unfold shr_fexp, shr. assert (shr_m (shr_record_of_loc m l) = m) as Hl by (by destruct l as [|[]]).
  destruct (fexp (Zdigits2 m + e) - e) as [|p|p] eqn:Hs; intros [= <- <-].
  - split; [lia|]. by rewrite Hl, Z.sub_diag, Z.div_1_r.
  - split; [lia|]. rewrite shr_iter, Hl by lia. f_equal. f_equal. lia.
  - split; [lia|]. by rewrite Hl, Z.sub_diag, Z.div_1_r.
Qed.

(** A mantissa and an exponent are canonical. *)
Definition canonical (m e : Z) : Prop := fexp (Zdigits2 m + e) = e.

Lemma log2_div m k : 0 <= k <= Z.log2 m -> 0 < m -> Z.log2 (m / 2 ^ k) = Z.log2 m - k /\ 0 < m / 2 ^ k.
Proof.
  intros Hk Hm. assert (0 < 2 ^ k) by (apply Z.pow_pos_nonneg; lia). rewrite <- Z.shiftr_div_pow2 by lia. split.
  - rewrite Z.log2_shiftr by lia. lia.
  - rewrite Z.shiftr_div_pow2 by lia. apply Z.div_str_pos. split; [lia|]. etransitivity; [apply Z.pow_le_mono_r; [lia|apply Hk]|]. by apply Z.log2_spec.
Qed.

(** Rounding up by one keeps the mantissa canonical, or carries into the next exponent. *)
Lemma round_nearest_even_cases m l : round_nearest_even m l = m \/ round_nearest_even m l = m + 1.
Proof. destruct l as [|[]]; cbn; auto. destruct (Z.even m); auto. Qed.

Lemma log2_succ_cases m : 0 < m -> Z.log2 (m + 1) = Z.log2 m \/ m + 1 = 2 ^ (Z.log2 m + 1).
Proof.
  intros Hm. destruct (Z.log2_spec m Hm) as [Hlo Hhi]. unfold Z.succ in Hhi. destruct (decide (m + 1 = 2 ^ (Z.log2 m + 1))) as [|Hne]; [by right|].
  left. apply Z.log2_unique; [by apply Z.log2_nonneg|]. unfold Z.succ. lia.
Qed.

(** Rounding the mantissa [m] at the canonical exponent [e]. *)
Lemma renormalize_canonical m e l m1 e1 :
  0 <= m -> (0 < m -> canonical m e) -> (m = 0 -> e = emin prec emax) ->
  shr_fexp prec emax (round_nearest_even m l) e loc_Exact = (m1, e1) -> shr_m m1 = 0 \/ (0 < shr_m m1 /\ canonical (shr_m m1) e1).
Proof.
  intros Hm Hc Hz Hs. set (m2 := round_nearest_even m l) in *.
  assert (m2 = m \/ m2 = m + 1) as Hm2 by apply round_nearest_even_cases.
  destruct (decide (m2 = 0)) as [H0|H0].
  { left. rewrite H0 in Hs. unfold shr_fexp, shr in Hs. destruct (_ - e) as [|p|p]; injection Hs as <- _; [done| |done].
    by rewrite shr_iter, Z.div_0_l by (done || (apply Z.pow_nonzero; lia)). }
  right. apply shr_fexp_spec in Hs as [He1 Hm1]; [|lia]. unfold canonical in *. rewrite Zdigits_log2 in He1 by lia.
  assert (fexp (Z.log2 m2 + 1 + e) = e -> 0 < shr_m m1 /\ fexp (Zdigits2 (shr_m m1) + e1) = e1) as Hsame.
  { intros Hf. rewrite Hf, Z.max_id in He1. subst e1. rewrite Hm1, Z.sub_diag, Z.div_1_r. split; [lia|]. by rewrite Zdigits_log2 by lia. }
  destruct (decide (m = 0)) as [Hm0|Hm0].
  { apply Hsame. destruct Hm2 as [Hm2|Hm2]; [lia|]. rewrite Hm2, Hm0, (Hz Hm0). unfold SpecFloat.fexp. change (Z.log2 (0 + 1)) with 0. lia. }
  rewrite Zdigits_log2 in Hc by lia. specialize (Hc ltac:(lia)). destruct Hm2 as [Hm2|Hm2]; [apply Hsame; by rewrite Hm2|].
  destruct (log2_succ_cases m ltac:(lia)) as [Hl|Hl]; rewrite <- Hm2 in Hl; [apply Hsame; by rewrite Hl|].
  pose proof (Z.log2_nonneg m). assert (Z.log2 m2 = Z.log2 m + 1) as Hl2 by (rewrite Hl; apply Z.log2_pow2; lia).
  rewrite Hl2 in *. destruct (decide (fexp (Z.log2 m + 1 + 1 + e) = e)) as [Hf|Hf]; [by apply Hsame|].
  assert (fexp (Z.log2 m + 1 + 1 + e) = e + 1) as Hf1 by (unfold SpecFloat.fexp in *; lia).
  assert (e1 = e + 1) as -> by lia. replace (e + 1 - e) with 1 in Hm1 by lia.
  assert (shr_m m1 = 2 ^ Z.log2 m) as Heq by (rewrite Hm1, Hl, Z.pow_add_r, Z.div_mul by lia; done).
  assert (0 < 2 ^ Z.log2 m) by (apply Z.pow_pos_nonneg; lia). split; [lia|].
  rewrite Zdigits_log2, Heq, Z.log2_pow2 by lia. replace (Z.log2 m + 1 + (e + 1)) with (Z.log2 m + 1 + 1 + e) by lia. done.
Qed.

Lemma binary_round_aux_valid s m e l : 0 < m -> e <= fexp (Zdigits2 m + e) -> valid_binary prec emax (binary_round_aux prec emax s m e l) = true.
Proof.
  intros Hm He. unfold binary_round_aux. destruct (shr_fexp prec emax m e l) as [m1 e1] eqn:H1. apply shr_fexp_spec in H1 as [He1 Hm1]; [|done].
  rewrite Z.max_r in He1 by done. rewrite Zdigits_log2 in * by done. assert (0 < 2 ^ (e1 - e)) by (apply Z.pow_pos_nonneg; lia).
  destruct (shr_fexp prec emax (round_nearest_even (shr_m m1) (loc_of_shr_record m1)) e1 loc_Exact) as [m2 e2] eqn:H2.
  apply renormalize_canonical in H2.
  - destruct H2 as [->|[Hp Hc]]; [done|]. destruct (shr_m m2) as [|p|p] eqn:Hp2; [done| |lia]. destruct (e2 <=? emax - prec) eqn:Hb; [|done].
    cbn [valid_binary bounded]. unfold bounded, canonical_mantissa. rewrite Hb, andb_true_r. apply Z.eqb_eq. exact Hc.
  - rewrite Hm1. apply Z.div_pos; lia.
  - rewrite Hm1. intros Hpos. unfold canonical. rewrite Zdigits_log2 by done.
    destruct (decide (e1 - e <= Z.log2 m)) as [Hk|Hk]; [|rewrite Z.div_small in Hpos; [lia|split; [lia|]; apply Z.log2_lt_pow2; lia]].
    destruct (log2_div m (e1 - e)) as [-> _]; [lia|lia|]. rewrite He1 at 3. f_equal. lia.
  - rewrite Hm1. intros H0. apply Z.div_small_iff in H0; [|lia]. destruct H0 as [H0|H0]; [|lia].
    assert (Z.log2 m < e1 - e) by (apply Z.log2_lt_pow2; lia). unfold SpecFloat.fexp in *. lia.
Qed.

Lemma iter_xO p d : Zpos (Pos.iter xO p d) = Zpos p * 2 ^ Zpos d.
Proof. induction d as [|d IH] using Pos.peano_ind; [cbn; lia|]. rewrite Pos.iter_succ, Pos2Z.inj_succ, Z.pow_succ_r, (Pos2Z.inj_xO (Pos.iter _ _ _)), IH by lia. ring. Qed.

Lemma binary_round_valid s m e : valid_binary prec emax (binary_round prec emax s m e) = true.
Proof.
  unfold binary_round, shl_align. set (x := fexp _). destruct (x - e) as [|d|d] eqn:Hx.
  1-2: apply binary_round_aux_valid; [lia|]; cbn [Zdigits2]; fold x; lia.
  apply binary_round_aux_valid; [lia|]. rewrite Zdigits_log2, iter_xO, Z.log2_mul_pow2 by lia.
  unfold x at 2. rewrite digits_log2. apply Z.eq_le_incl. unfold x. rewrite digits_log2. f_equal. subst x. rewrite digits_log2 in Hx. lia.
Qed.

Lemma convert_valid x : valid_binary prec emax (convert prec emax x) = true.
Proof. destruct x; cbn [convert]; try done. apply binary_round_valid. Qed.
End valid.

(** ** Bits *)

Section bits.
  Context (prec emax w : Z) (Hprec : 1 < prec) (Hemax : prec < emax) (Hprecw : prec < w) (Hw : 2 ^ (w - prec) = 2 * emax).

Lemma width_split : 2 ^ (w - 1) = 2 ^ (w - prec) * 2 ^ (prec - 1).
Proof. rewrite <- Z.pow_add_r by lia. f_equal. lia. Qed.

(** The fields of a number and how they are read. *)
Definition fields (s : bool) (exponent mantissa : Z) : Z := sign_bit w s + exponent * 2 ^ (prec - 1) + mantissa.

Lemma fields_read s ex m :
  0 <= ex < 2 ^ (w - prec) -> 0 <= m < 2 ^ (prec - 1) ->
  (2 ^ (w - 1) <=? fields s ex m) = s /\ (fields s ex m / 2 ^ (prec - 1)) mod 2 ^ (w - prec) = ex /\ fields s ex m mod 2 ^ (prec - 1) = m /\
  0 <= fields s ex m < 2 ^ w.
Proof.
  intros Hex Hm. pose proof width_split as Hs. assert (2 ^ w = 2 * 2 ^ (w - 1)) as -> by (rewrite <- Z.pow_succ_r by lia; f_equal; lia).
  unfold fields, sign_bit. rewrite Hs. set (P := 2 ^ (prec - 1)) in *. set (E := 2 ^ (w - prec)) in *.
  assert (0 <= ex * P + m < E * P) as Hb by nia.
  assert (exists c, 0 <= c <= 1 /\ (if s then E * P else 0) = c * E * P /\ (s = true <-> c = 1)) as (c & Hc & -> & Hsc)
    by (destruct s; [exists 1|exists 0]; (split; [lia|]; split; [ring|]; done || lia)).
  replace (c * E * P + ex * P + m) with (m + (ex + c * E) * P) by ring.
  rewrite Z.div_add, Z.mod_add, (Z.div_small m), (Z.mod_small m), Z.add_0_l, Z.mod_add, Z.mod_small by lia. split_and!; try done; try nia.
  destruct s; [apply Z.leb_le|apply Z.leb_gt]; destruct Hsc as [H1 H2]; [specialize (H1 eq_refl); nia|].
  assert (c = 0) as -> by (destruct (decide (c = 1)) as [Hc1|]; [by specialize (H2 Hc1)|lia]). nia.
Qed.

(** The fields of a valid number. *)
Lemma float_bits_fields x :
  valid_binary prec emax x = true -> exists s ex m, float_bits prec emax w x = fields s ex m /\
    0 <= ex < 2 ^ (w - prec) /\ 0 <= m < 2 ^ (prec - 1) /\ float_of_bits prec emax w (fields s ex m) = x.
Proof.
  intros Hv. assert (1 <= 2 ^ (prec - 2)) as Hp2 by (apply (Z.pow_le_mono_r 2 0); lia).
  assert (2 ^ (prec - 1) = 2 * 2 ^ (prec - 2)) as Hp1 by (rewrite <- Z.pow_succ_r by lia; f_equal; lia).
  assert (forall s ex m, 0 <= ex < 2 ^ (w - prec) -> 0 <= m < 2 ^ (prec - 1) -> float_of_bits prec emax w (fields s ex m) = x ->
    float_bits prec emax w x = fields s ex m -> exists s ex m, float_bits prec emax w x = fields s ex m /\
    0 <= ex < 2 ^ (w - prec) /\ 0 <= m < 2 ^ (prec - 1) /\ float_of_bits prec emax w (fields s ex m) = x) as Hgo by (intros; eauto 10).
  assert (forall s ex m, 0 <= ex < 2 ^ (w - prec) -> 0 <= m < 2 ^ (prec - 1) -> float_of_bits prec emax w (fields s ex m) =
    if ex =? 0 then match m with Zpos m => S754_finite s m (emin prec emax) | _ => S754_zero s end
    else if ex =? 2 ^ (w - prec) - 1 then if m =? 0 then S754_infinity s else S754_nan
    else match m + 2 ^ (prec - 1) with Zpos m => S754_finite s m (ex + emin prec emax - 1) | _ => S754_nan end) as Hread.
  { intros s ex m Hex Hm. unfold float_of_bits. by destruct (fields_read s ex m Hex Hm) as (-> & -> & -> & _). }
  destruct x as [s|s| |s m e].
  - apply (Hgo s 0 0); [lia..|by rewrite Hread by lia|]. unfold float_bits, fields. lia.
  - apply (Hgo s (2 ^ (w - prec) - 1) 0); [lia..| |unfold float_bits, fields, top_exponent; lia].
    rewrite Hread by lia. by rewrite (proj2 (Z.eqb_neq _ _)), Z.eqb_refl by lia.
  - apply (Hgo false (2 ^ (w - prec) - 1) (2 ^ (prec - 2))); [lia..| |unfold float_bits, fields, top_exponent, sign_bit; lia].
    rewrite Hread by lia. by rewrite (proj2 (Z.eqb_neq _ 0)), Z.eqb_refl, (proj2 (Z.eqb_neq (2 ^ (prec - 2)) 0)) by lia.
  - cbn [valid_binary] in Hv. unfold bounded, canonical_mantissa in Hv. to_prop. rewrite digits_log2 in *.
    pose proof (Z.log2_spec (Zpos m) ltac:(lia)) as [Hlo Hhi]. unfold Z.succ in Hhi.
    destruct (decide (Zpos m < 2 ^ (prec - 1))) as [Hsub|Hsub].
    + assert (e = emin prec emax) as ->.
      { assert (Z.log2 (Zpos m) < prec - 1) by (apply Z.log2_lt_pow2; lia). unfold SpecFloat.fexp in *. lia. }
      apply (Hgo s 0 (Zpos m)); [lia..|by rewrite Hread by lia|unfold fields; unfold float_bits; rewrite (proj2 (Z.ltb_lt _ _)) by lia; lia].
    + assert (Z.log2 (Zpos m) + 1 <= prec /\ emin prec emax <= e) as [Hl He] by (unfold SpecFloat.fexp in *; lia).
      assert (2 ^ (Z.log2 (Zpos m) + 1) <= 2 * 2 ^ (prec - 1)) as Hmax.
      { rewrite <- Z.pow_succ_r by lia. apply Z.pow_le_mono_r; lia. }
      assert (e - emin prec emax + 1 <= 2 * emax - 2) as Hex by (unfold SpecFloat.emin in *; lia).
      apply (Hgo s (e - emin prec emax + 1) (Zpos m - 2 ^ (prec - 1))); [lia..| |unfold float_bits, fields; rewrite (proj2 (Z.ltb_ge _ _)) by lia; lia].
      rewrite Hread by lia. rewrite !(proj2 (Z.eqb_neq _ _)) by lia. replace (Zpos m - 2 ^ (prec - 1) + 2 ^ (prec - 1)) with (Zpos m) by lia.
      f_equal. lia.
Qed.

Lemma float_bits_read x :
  valid_binary prec emax x = true -> float_of_bits prec emax w (float_bits prec emax w x) = x /\ 0 <= float_bits prec emax w x < 2 ^ w.
Proof.
  intros Hv. destruct (float_bits_fields x Hv) as (s & ex & m & -> & Hex & Hm & Hx). split; [done|]. by apply fields_read.
Qed.
End bits.

Lemma bits32_read x : valid_binary 24 128 x = true -> of_bits32 (bits32 x) = x /\ 0 <= bits32 x < 2 ^ 32.
Proof. by apply float_bits_read. Qed.
Lemma bits64_read x : valid_binary 53 1024 x = true -> of_bits64 (bits64 x) = x /\ 0 <= bits64 x < 2 ^ 64.
Proof. by apply float_bits_read. Qed.

(** Numbers that compare equal are equal, but for the sign of zero and NaNs. *)
Lemma SFeqb_eq x y : SFeqb x y = true -> x = y \/ (exists s t, x = S754_zero s /\ y = S754_zero t).
Proof.
  unfold SFeqb, SFcompare. destruct x as [s|s| |s m e], y as [t|t| |t n f]; try (by destruct s); try (by destruct t); try done; eauto.
  - by destruct s, t; eauto.
  - destruct s, t; try done; (destruct (Z.compare_spec e f) as [->| |]; [|done..]);
      (destruct (Pos.compare_cont Eq m n) eqn:Hc; try done); apply Pos.compare_eq in Hc as ->; eauto.
Qed.

(** The test of [write_compact_float]: the number comes back from its four bytes. *)
Lemma compact_read x :
  SFeqb (from_float (to_float x)) x = true -> valid_binary 24 128 (to_float x) = true /\ from_float (of_bits32 (bits32 (to_float x))) = x.
Proof.
  intros Heq. assert (valid_binary 24 128 (to_float x) = true) as Hv by (by apply convert_valid). split; [done|].
  rewrite (proj1 (bits32_read _ Hv)). destruct (SFeqb_eq _ _ Heq) as [->|(s & t & H1 & ->)]; done.
Qed.
