(* ===== verification/Grisu.v ===== *)
(** * Printing floating point numbers: [detail::to_chars] of [include/json.hpp]

    The Grisu2 algorithm for [double]: [diyfp], the boundaries of a number, the cached powers of
    ten, the generation of the digits and the formatting.  A failed assertion, an undefined
    shift and a loop that runs out of its fuel are [None]; a [char] buffer with its length is the
    list of the characters written so far. *)
From S2P Require Import Prelude CLib BinaryFloat.
From Stdlib Require Import SpecFloat.
#[local] Open Scope Z_scope.

(** [JSON_ASSERT]. *)
Definition JSON_ASSERT {A} (b : bool) (k : option A) : option A := if b then k else None.
Notation "'assert!' b 'in' k" := (JSON_ASSERT b k) (at level 200, b at level 100, k at level 200) : fdfs_scope.

(** ** [diyfp]: the number f * 2^e with a 64-bit f *)

Record diyfp := MkFp { fp_f : Z; fp_e : Z }.

Definition sub (x y : diyfp) : option diyfp :=
  assert! fp_e x =? fp_e y in
  assert! fp_f y <=? fp_f x in
  Some (MkFp (u64 (fp_f x - fp_f y)) (fp_e x)).

Definition mul (x y : diyfp) : diyfp :=
  let u_lo := Z.land (fp_f x) 0xFFFFFFFF in
  let u_hi := Z.shiftr (fp_f x) 32 in
  let v_lo := Z.land (fp_f y) 0xFFFFFFFF in
  let v_hi := Z.shiftr (fp_f y) 32 in
  let p0 := u64 (u_lo * v_lo) in
  let p1 := u64 (u_lo * v_hi) in
  let p2 := u64 (u_hi * v_lo) in
  let p3 := u64 (u_hi * v_hi) in
  let p0_hi := Z.shiftr p0 32 in
  let p1_lo := Z.land p1 0xFFFFFFFF in
  let p1_hi := Z.shiftr p1 32 in
  let p2_lo := Z.land p2 0xFFFFFFFF in
  let p2_hi := Z.shiftr p2 32 in
  let Q := u64 (p0_hi + p1_lo + p2_lo) in
  let Q := u64 (Q + Z.shiftl 1 (64 - 32 - 1)) in
  let h := u64 (p3 + p2_hi + p1_hi + Z.shiftr Q 32) in
  MkFp h (fp_e x + fp_e y + 64).

Fixpoint normalize_loop (fuel : nat) (x : diyfp) : option diyfp :=
  match fuel with
  | O => None
  | S fuel =>
      if Z.shiftr (fp_f x) 63 =? 0 then normalize_loop fuel (MkFp (u64 (Z.shiftl (fp_f x) 1)) (fp_e x - 1))
      else Some x
  end.

(** A number that is not zero has its first bit at the top after at most 63 shifts. *)
Definition normalize (x : diyfp) : option diyfp := assert! negb (fp_f x =? 0) in normalize_loop 64 x.

Definition normalize_to (x : diyfp) (target_exponent : Z) : option diyfp :=
  let delta := fp_e x - target_exponent in
  assert! 0 <=? delta in
  assert! delta <? 64 in (* the shift is defined *)
  assert! Z.shiftr (u64 (Z.shiftl (fp_f x) delta)) delta =? fp_f x in
  Some (MkFp (u64 (Z.shiftl (fp_f x) delta)) target_exponent).

(** ** The boundaries of a [double] *)

Record boundaries := MkBounds { b_w : diyfp; b_minus : diyfp; b_plus : diyfp }.

Definition kPrecision : Z := 53.
Definition kBias : Z := 1024 - 1 + (kPrecision - 1).
Definition kMinExp : Z := 1 - kBias.
Definition kHiddenBit : Z := Z.shiftl 1 (kPrecision - 1).

Definition positive_finite (value : spec_float) : bool :=
  match value with S754_finite false _ _ => true | _ => false end.

Definition compute_boundaries (value : spec_float) : option boundaries :=
  assert! positive_finite value in
  let bits := bits64 value in
  let E := Z.shiftr bits (kPrecision - 1) in
  let F := Z.land bits (kHiddenBit - 1) in
  let is_denormal := E =? 0 in
  let v := if is_denormal then MkFp F kMinExp else MkFp (F + kHiddenBit) (E - kBias) in
  let lower_boundary_is_closer := (F =? 0) && (1 <? E) in
  let m_plus := MkFp (u64 (2 * fp_f v + 1)) (fp_e v - 1) in
  let m_minus := if lower_boundary_is_closer then MkFp (u64 (4 * fp_f v - 1)) (fp_e v - 2)
                 else MkFp (u64 (2 * fp_f v - 1)) (fp_e v - 1) in
  w_plus ← normalize m_plus;
  w_minus ← normalize_to m_minus (fp_e w_plus);
  w ← normalize v;
  Some (MkBounds w w_minus w_plus).

(** ** The cached powers of ten: [c_f * 2^c_e] is near to [10^c_k] *)

Record cached_power := MkPower { c_f : Z; c_e : Z; c_k : Z }.

Definition kAlpha : Z := -60.
Definition kGamma : Z := -32.
Definition kCachedPowersMinDecExp : Z := -300.
Definition kCachedPowersDecStep : Z := 8.

Definition kCachedPowers : list (Z * Z * Z) :=
  [(0xAB70FE17C79AC6CA, (-1060), (-300)); (0xFF77B1FCBEBCDC4F, (-1034), (-292)); (0xBE5691EF416BD60C, (-1007), (-284)); (0x8DD01FAD907FFC3C, (-980), (-276));
   (0xD3515C2831559A83, (-954), (-268)); (0x9D71AC8FADA6C9B5, (-927), (-260)); (0xEA9C227723EE8BCB, (-901), (-252)); (0xAECC49914078536D, (-874), (-244));
   (0x823C12795DB6CE57, (-847), (-236)); (0xC21094364DFB5637, (-821), (-228)); (0x9096EA6F3848984F, (-794), (-220)); (0xD77485CB25823AC7, (-768), (-212));
   (0xA086CFCD97BF97F4, (-741), (-204)); (0xEF340A98172AACE5, (-715), (-196)); (0xB23867FB2A35B28E, (-688), (-188)); (0x84C8D4DFD2C63F3B, (-661), (-180));
   (0xC5DD44271AD3CDBA, (-635), (-172)); (0x936B9FCEBB25C996, (-608), (-164)); (0xDBAC6C247D62A584, (-582), (-156)); (0xA3AB66580D5FDAF6, (-555), (-148));
   (0xF3E2F893DEC3F126, (-529), (-140)); (0xB5B5ADA8AAFF80B8, (-502), (-132)); (0x87625F056C7C4A8B, (-475), (-124)); (0xC9BCFF6034C13053, (-449), (-116));
   (0x964E858C91BA2655, (-422), (-108)); (0xDFF9772470297EBD, (-396), (-100)); (0xA6DFBD9FB8E5B88F, (-369), (-92)); (0xF8A95FCF88747D94, (-343), (-84));
   (0xB94470938FA89BCF, (-316), (-76)); (0x8A08F0F8BF0F156B, (-289), (-68)); (0xCDB02555653131B6, (-263), (-60)); (0x993FE2C6D07B7FAC, (-236), (-52));
   (0xE45C10C42A2B3B06, (-210), (-44)); (0xAA242499697392D3, (-183), (-36)); (0xFD87B5F28300CA0E, (-157), (-28)); (0xBCE5086492111AEB, (-130), (-20));
   (0x8CBCCC096F5088CC, (-103), (-12)); (0xD1B71758E219652C, (-77), (-4)); (0x9C40000000000000, (-50), 4); (0xE8D4A51000000000, (-24), 12);
   (0xAD78EBC5AC620000, 3, 20); (0x813F3978F8940984, 30, 28); (0xC097CE7BC90715B3, 56, 36); (0x8F7E32CE7BEA5C70, 83, 44);
   (0xD5D238A4ABE98068, 109, 52); (0x9F4F2726179A2245, 136, 60); (0xED63A231D4C4FB27, 162, 68); (0xB0DE65388CC8ADA8, 189, 76);
   (0x83C7088E1AAB65DB, 216, 84); (0xC45D1DF942711D9A, 242, 92); (0x924D692CA61BE758, 269, 100); (0xDA01EE641A708DEA, 295, 108);
   (0xA26DA3999AEF774A, 322, 116); (0xF209787BB47D6B85, 348, 124); (0xB454E4A179DD1877, 375, 132); (0x865B86925B9BC5C2, 402, 140);
   (0xC83553C5C8965D3D, 428, 148); (0x952AB45CFA97A0B3, 455, 156); (0xDE469FBD99A05FE3, 481, 164); (0xA59BC234DB398C25, 508, 172);
   (0xF6C69A72A3989F5C, 534, 180); (0xB7DCBF5354E9BECE, 561, 188); (0x88FCF317F22241E2, 588, 196); (0xCC20CE9BD35C78A5, 614, 204);
   (0x98165AF37B2153DF, 641, 212); (0xE2A0B5DC971F303A, 667, 220); (0xA8D9D1535CE3B396, 694, 228); (0xFB9B7CD9A4A7443C, 720, 236);
   (0xBB764C4CA7A44410, 747, 244); (0x8BAB8EEFB6409C1A, 774, 252); (0xD01FEF10A657842C, 800, 260); (0x9B10A4E5E9913129, 827, 268);
   (0xE7109BFBA19C0C9D, 853, 276); (0xAC2820D9623BF429, 880, 284); (0x80444B5E7AA7CF85, 907, 292); (0xBF21E44003ACDD2D, 933, 300);
   (0x8E679C2F5E44FF8F, 960, 308); (0xD433179D9C8CB841, 986, 316); (0x9E19DB92B4E31BA9, 1013, 324)].

(** Integer division in C truncates. *)
Definition get_cached_power_for_binary_exponent (e : Z) : option cached_power :=
  assert! -1500 <=? e in
  assert! e <=? 1500 in
  let f := kAlpha - e - 1 in
  let k := Z.quot (f * 78913) (Z.shiftl 1 18) + (if 0 <? f then 1 else 0) in
  let index := Z.quot (- kCachedPowersMinDecExp + k + (kCachedPowersDecStep - 1)) kCachedPowersDecStep in
  assert! 0 <=? index in
  '(cf, ce, ck) ← kCachedPowers !! Z.to_nat index;
  assert! kAlpha <=? ce + e + 64 in
  assert! ce + e + 64 <=? kGamma in
  Some (MkPower cf ce ck).

(** ** The digits *)

(** The number of digits and the power of ten. *)
Definition find_largest_pow10 (n : Z) : Z * Z :=
  if 1000000000 <=? n then (10, 1000000000)
  else if 100000000 <=? n then (9, 100000000)
  else if 10000000 <=? n then (8, 10000000)
  else if 1000000 <=? n then (7, 1000000)
  else if 100000 <=? n then (6, 100000)
  else if 10000 <=? n then (5, 10000)
  else if 1000 <=? n then (4, 1000)
  else if 100 <=? n then (3, 100)
  else if 10 <=? n then (2, 10)
  else (1, 1).

(** [buf[len - 1]] and its decrement. *)
Definition last_char (buf : bytes) : ascii := List.last buf NUL.
Definition decrement_last (buf : bytes) : bytes := removelast buf ++ [chr (code (last_char buf) - 1)].

Fixpoint round_loop (fuel : nat) (buf : bytes) (dist delta rest ten_k : Z) : option bytes :=
  match fuel with
  | O => None
  | S fuel =>
      if (rest <? dist) && (ten_k <=? u64 (delta - rest)) &&
         ((u64 (rest + ten_k) <? dist) || (u64 (u64 (rest + ten_k) - dist) <? u64 (dist - rest))) then
        assert! negb (last_char buf =c "0"%char) in
        round_loop fuel (decrement_last buf) dist delta (u64 (rest + ten_k)) ten_k
      else Some buf
  end.

(** A digit can be decremented nine times. *)
Definition grisu2_round (buf : bytes) (dist delta rest ten_k : Z) : option bytes :=
  assert! (1 <=? length buf)%nat in
  assert! dist <=? delta in
  assert! rest <=? delta in
  assert! 0 <? ten_k in
  round_loop 10 buf dist delta rest ten_k.

(** The first loop of [grisu2_digit_gen]: [inl] when it returns, [inr] when it ends. *)
Fixpoint integral_digits (n : nat) (buffer : bytes) (decimal_exponent p1 pow10 p2 delta dist shift : Z) : option (bytes * Z + bytes) :=
  match n with
  | O => Some (inr buffer)
  | S n =>
      let d := p1 / pow10 in
      let r := p1 `mod` pow10 in
      assert! d <=? 9 in
      let buffer := buffer ++ [chr (48 + d)] in
      let p1 := r in
      let rest := u64 (u64 (Z.shiftl p1 shift) + p2) in
      if rest <=? delta then
        let ten_n := u64 (Z.shiftl pow10 shift) in
        buffer ← grisu2_round buffer dist delta rest ten_n;
        Some (inl (buffer, decimal_exponent + Z.of_nat n))
      else integral_digits n buffer decimal_exponent p1 (pow10 / 10) p2 delta dist shift
  end.

(** The second loop: the digits behind the point, the digits, their number, and the scaled rest, delta and dist. *)
Fixpoint fraction_digits (fuel : nat) (buffer : bytes) (m p2 delta dist shift : Z) : option (bytes * Z * (Z * Z * Z)) :=
  match fuel with
  | O => None
  | S fuel =>
      assert! p2 <=? (2 ^ 64 - 1) / 10 in
      let p2 := u64 (p2 * 10) in
      let d := Z.shiftr p2 shift in
      let r := Z.land p2 (Z.shiftl 1 shift - 1) in
      assert! d <=? 9 in
      let buffer := buffer ++ [chr (48 + d)] in
      let p2 := r in
      let m := m + 1 in
      let delta := u64 (delta * 10) in
      let dist := u64 (dist * 10) in
      if p2 <=? delta then Some (buffer, m, (p2, delta, dist)) else fraction_digits fuel buffer m p2 delta dist shift
  end.

(** Seventeen digits are enough for a [double], so is this fuel. *)
Definition fraction_fuel : nat := 20.

Definition grisu2_digit_gen (decimal_exponent : Z) (M_minus w M_plus : diyfp) : option (bytes * Z) :=
  assert! kAlpha <=? fp_e M_plus in
  assert! fp_e M_plus <=? kGamma in
  delta ← fp_f <$> sub M_plus M_minus;
  dist ← fp_f <$> sub M_plus w;
  let shift := - fp_e M_plus in
  let p1 := u32 (Z.shiftr (fp_f M_plus) shift) in
  let p2 := Z.land (fp_f M_plus) (Z.shiftl 1 shift - 1) in
  assert! 0 <? p1 in
  let '(k, pow10) := find_largest_pow10 p1 in
  r ← integral_digits (Z.to_nat k) [] decimal_exponent p1 pow10 p2 delta dist shift;
  match r with
  | inl r => Some r
  | inr buffer =>
      assert! delta <? p2 in
      '(buffer, m, (p2, delta, dist)) ← fraction_digits fraction_fuel buffer 0 p2 delta dist shift;
      let ten_m := Z.shiftl 1 shift in
      buffer ← grisu2_round buffer dist delta p2 ten_m;
      Some (buffer, decimal_exponent - m)
  end.

Definition grisu2_scaled (m_minus v m_plus : diyfp) : option (bytes * Z) :=
  assert! fp_e m_plus =? fp_e m_minus in
  assert! fp_e m_plus =? fp_e v in
  cached ← get_cached_power_for_binary_exponent (fp_e m_plus);
  let c_minus_k := MkFp (c_f cached) (c_e cached) in
  let w := mul v c_minus_k in
  let w_minus := mul m_minus c_minus_k in
  let w_plus := mul m_plus c_minus_k in
  let M_minus := MkFp (u64 (fp_f w_minus + 1)) (fp_e w_minus) in
  let M_plus := MkFp (u64 (fp_f w_plus - 1)) (fp_e w_plus) in
  grisu2_digit_gen (- c_k cached) M_minus w M_plus.

Definition grisu2 (value : spec_float) : option (bytes * Z) :=
  assert! positive_finite value in
  w ← compute_boundaries value;
  grisu2_scaled (b_minus w) (b_w w) (b_plus w).

(** ** Formatting *)

Definition append_exponent (e : Z) : option bytes :=
  assert! -1000 <? e in
  assert! e <? 1000 in
  let '(sign, k) := if e <? 0 then ("-"%char, - e) else ("+"%char, e) in
  Some (sign ::
    if k <? 10 then ["0"%char; chr (48 + k)]
    else if k <? 100 then [chr (48 + k / 10); chr (48 + k `mod` 10)]
    else [chr (48 + k / 100); chr (48 + k `mod` 100 / 10); chr (48 + (k `mod` 100) `mod` 10)]).

Definition format_buffer (buf : bytes) (decimal_exponent min_exp max_exp : Z) : option bytes :=
  assert! min_exp <? 0 in
  assert! 0 <? max_exp in
  let k := Z.of_nat (length buf) in
  let n := k + decimal_exponent in
  if (k <=? n) && (n <=? max_exp) then
    (* digits[000] *)
    Some (buf ++ replicate (Z.to_nat (n - k)) "0"%char ++ B ".0")
  else if (0 <? n) && (n <=? max_exp) then
    (* dig.its *)
    assert! n <? k in
    Some (take (Z.to_nat n) buf ++ B "." ++ drop (Z.to_nat n) buf)
  else if (min_exp <? n) && (n <=? 0) then
    (* 0.[000]digits *)
    Some (B "0." ++ replicate (Z.to_nat (- n)) "0"%char ++ buf)
  else
    (* dE+123 or d.igitsE+123 *)
    e ← append_exponent (n - 1);
    Some ((if k =? 1 then buf else take 1 buf ++ B "." ++ drop 1 buf) ++ B "e" ++ e).

(** [numeric_limits<double>::max_digits10] and [digits10]. *)
Definition max_digits10 : nat := 17.
Definition digits10 : Z := 15.

Definition to_chars (value : spec_float) : option bytes :=
  match value with
  | S754_zero s => Some ((if s then B "-" else []) ++ B "0.0")
  | S754_finite s m e =>
      '(buf, decimal_exponent) ← grisu2 (S754_finite false m e);
      assert! (length buf <=? max_digits10)%nat in
      t ← format_buffer buf decimal_exponent (-4) digits10;
      Some ((if s then B "-" else []) ++ t)
  | _ => None
  end.

(** ** Examples *)

Example demo_tenth : to_chars (of_bits64 0x3FB999999999999A) = Some (B "0.1") /\ to_chars (of_bits64 0xC059000000000000) = Some (B "-100.0").
Proof. split; vm_compute; reflexivity. Qed.
Example demo_least : to_chars (of_bits64 1) = Some (B "5e-324") /\ to_chars (of_bits64 0x7FEFFFFFFFFFFFFF) = Some (B "1.7976931348623157e+308").
Proof. split; vm_compute; reflexivity. Qed.
Example demo_formats : to_chars (of_bits64 0x405EDD2F1A9FBE77) = Some (B "123.456") /\ to_chars (of_bits64 0x3EE4F8B588E368F1) = Some (B "1e-05").
Proof. split; vm_compute; reflexivity. Qed.
