(* ===== verification/FloatRound.v ===== *)
(** * Reading decimal numbers: what rounds to a [double]

    The conversion of [strtod] ([JsonLexer.binary64_of]) gives the [double] whose interval of
    neighbours holds the decimal number.  A positive real is the fraction A / b of units
    2^-1074, so that every comparison is one of integers. *)
From S2P Require Import Prelude CLib JsonLexer FloatTheory.
From Stdlib Require Import SpecFloat.
#[local] Open Scope Z_scope.

Lemma pow_pos a n : 0 < a -> 0 <= n -> 0 < a ^ n.
Proof. intros. by apply Z.pow_pos_nonneg. Qed.

(** ** A real number between two neighbours at an exponent *)

Section real.
  Context (A b : Z) (Hb : 0 < b).

(** The unit 2^e. *)
Definition unit_at (e : Z) : Z := b * 2 ^ (e + 1074).

Definition inbetween (m e : Z) (l : location) : Prop :=
  match l with
  | loc_Exact => A = m * unit_at e
  | loc_Inexact Lt => m * unit_at e < A /\ 2 * A < (2 * m + 1) * unit_at e
  | loc_Inexact Eq => 2 * A = (2 * m + 1) * unit_at e
  | loc_Inexact Gt => (2 * m + 1) * unit_at e < 2 * A /\ A < (m + 1) * unit_at e
  end.

Lemma unit_pos e : -1074 <= e -> 0 < unit_at e.
Proof. intros He. unfold unit_at. apply Z.mul_pos_pos; [done|]. apply pow_pos; lia. Qed.

Lemma unit_add e k : -1074 <= e -> 0 <= k -> unit_at (e + k) = 2 ^ k * unit_at e.
Proof. intros He Hk. unfold unit_at. replace (e + k + 1074) with (k + (e + 1074)) by lia. rewrite Z.pow_add_r by lia. ring. Qed.

Lemma unit_succ e : -1074 <= e -> unit_at (e + 1) = 2 * unit_at e.
Proof. intros He. by rewrite unit_add by lia. Qed.

(** A real lies in the interval of its mantissa. *)
Lemma inbetween_range m e l : -1074 <= e -> inbetween m e l -> m * unit_at e <= A < (m + 1) * unit_at e.
Proof. intros He Hi. pose proof (unit_pos e He). destruct l as [|[]]; cbn in Hi; nia. Qed.

(** One shift to the right. *)
Lemma inbetween_shr_1 r e :
  -1074 <= e -> 0 <= shr_m r -> inbetween (shr_m r) e (loc_of_shr_record r) ->
  inbetween (shr_m (shr_1 r)) (e + 1) (loc_of_shr_record (shr_1 r)).
Proof.
  intros He. destruct r as [m rr rs]. cbn [shr_m]. intros Hm Hi. pose proof (unit_pos e He) as Hu.
  assert (exists m' c, m = 2 * m' + Z.b2z c /\ shr_1 {| shr_m := m; shr_r := rr; shr_s := rs |} = {| shr_m := m'; shr_r := c; shr_s := rr || rs |})
    as (m' & c & -> & ->).
  { destruct m as [|[p|p|]|p]; [exists 0, false|exists (Zpos p), true|exists (Zpos p), false|exists 0, true|lia]; split; (done || cbn; lia). }
  assert (unit_at (e + 1) = 2 * unit_at e) as Hs by by apply unit_succ. cbn [shr_m] in *. unfold inbetween in *. rewrite Hs. clear Hs.
  revert Hi. generalize (unit_at e) as u, Hu. intros u Hu'. destruct rr, rs, c; cbn [loc_of_shr_record orb Z.b2z]; nia.
Qed.

Lemma inbetween_shr_iter p r e :
  -1074 <= e -> 0 <= shr_m r -> inbetween (shr_m r) e (loc_of_shr_record r) ->
  inbetween (shr_m (iter_pos shr_1 p r)) (e + Zpos p) (loc_of_shr_record (iter_pos shr_1 p r)).
Proof.
  revert r e. induction p as [p IH|p IH|]; intros r e He Hm Hi; cbn [iter_pos]; [| |by apply inbetween_shr_1].
  - replace (e + Zpos p~1) with (e + 1 + Zpos p + Zpos p) by lia.
    assert (0 <= shr_m (shr_1 r)) by (rewrite shr_1_half by done; by apply Z.div_pos).
    apply IH; [lia| |]; [by rewrite shr_iter by done; apply Z.div_pos; [|apply pow_pos]|].
    apply IH; [lia|done|]. by apply inbetween_shr_1.
  - replace (e + Zpos p~0) with (e + Zpos p + Zpos p) by lia.
    apply IH; [lia| |by apply IH]. rewrite shr_iter by done. apply Z.div_pos; [done|by apply pow_pos].
Qed.

Lemma loc_record m l : loc_of_shr_record (shr_record_of_loc m l) = l /\ shr_m (shr_record_of_loc m l) = m.
Proof. by destruct l as [|[]]. Qed.

(** The shift to the canonical exponent: 53 digits, fewer at the least exponent only. *)
Lemma shr_fexp_inbetween m e l m' e' :
  0 <= m -> -1074 <= e -> e <= fexp 53 1024 (Zdigits2 m + e) -> inbetween m e l -> shr_fexp 53 1024 m e l = (m', e') ->
  inbetween (shr_m m') e' (loc_of_shr_record m') /\ -1074 <= e' /\ 0 <= shr_m m' < 2 ^ 53 /\ (-1074 < e' -> 2 ^ 52 <= shr_m m').
Proof.
  intros Hm He Hf Hi Hs. assert (inbetween (shr_m m') e' (loc_of_shr_record m')) as Hi'.
  { revert Hs. unfold shr_fexp, shr. pose proof (loc_record m l) as [Hl Hr]. destruct (_ - e) as [|p|p] eqn:Hp; intros [= <- <-];
      [by rewrite Hl, Hr|apply inbetween_shr_iter; by rewrite ?Hl, ?Hr|by rewrite Hl, Hr]. }
  split; [done|]. unfold fexp in Hf. change (emin 53 1024) with (-1074) in Hf. destruct (decide (m = 0)) as [->|Hm0].
  { unfold Zdigits2 in Hf. assert (e = -1074) as -> by lia. revert Hs. unfold shr_fexp, shr. pose proof (loc_record 0 l) as [_ Hr]. cbn. intros [= <- <-]. rewrite Hr. lia. }
  apply shr_fexp_spec in Hs as [-> ->]; [|lia]. unfold fexp. change (emin 53 1024) with (-1074). rewrite Zdigits_log2 in * by lia.
  pose proof (Z.log2_spec m ltac:(lia)) as [Hlo Hhi]. unfold Z.succ in Hhi. set (k := Z.log2 m) in *. pose proof (Z.log2_nonneg m). fold k in H.
  set (e' := Z.max e _). assert (0 <= e' - e) by lia. pose proof (pow_pos 2 (e' - e) ltac:(lia) ltac:(lia)). split_and!; [lia|by apply Z.div_pos| |].
  - apply Z.div_lt_upper_bound; [done|]. rewrite <- Z.pow_add_r by lia. eapply Z.lt_le_trans; [exact Hhi|]. apply Z.pow_le_mono_r; lia.
  - intros Hgt. apply Z.div_le_lower_bound; [done|]. rewrite <- Z.pow_add_r by lia. etransitivity; [|exact Hlo]. apply Z.pow_le_mono_r; lia.
Qed.

(** ** The interval of a number *)

(** Strictly between the middles towards the neighbours; the lower one of a power of two is nearer. *)
Definition near (f e : Z) : Prop :=
  2 * A < (2 * f + 1) * unit_at e /\
  (if (f =? 2 ^ 52) && (-1074 <? e) then (4 * f - 1) * unit_at e < 4 * A else (2 * f - 1) * unit_at e < 2 * A).

Lemma near_weak f e : -1074 <= e -> near f e -> (2 * f - 1) * unit_at e < 2 * A < (2 * f + 1) * unit_at e.
Proof. intros He [Hu Hl]. pose proof (unit_pos e He). destruct (_ && _); nia. Qed.

(** Where a real in the interval is found at its canonical exponent. *)
Lemma near_cases f e m e' l :
  0 < f < 2 ^ 53 -> -1074 <= e -> (-1074 < e -> 2 ^ 52 <= f) -> near f e ->
  inbetween m e' l -> -1074 <= e' -> 0 <= m < 2 ^ 53 -> (-1074 < e' -> 2 ^ 52 <= m) ->
  e' = e /\ round_nearest_even m l = f \/ e' = e - 1 /\ f = 2 ^ 52 /\ round_nearest_even m l = 2 ^ 53.
Proof.
  intros Hf He Hfc Hn Hi He' Hm Hmc. pose proof (inbetween_range m e' l He' Hi) as Hr. pose proof (near_weak f e He Hn) as Hw.
  pose proof (unit_pos e He) as Hu. pose proof (unit_pos e' He') as Hu'.
  destruct (Z.lt_trichotomy e' e) as [Hlt|[->|Hgt]].
  - right. specialize (Hfc ltac:(lia)). assert (unit_at e = 2 ^ (e - e') * unit_at e') as Hue by (rewrite <- unit_add by lia; f_equal; lia).
    assert (f = 2 ^ 52) as ->.
    { destruct (decide (f = 2 ^ 52)) as [|Hne]; [done|]. assert (2 ^ 1 <= 2 ^ (e - e')) by (apply Z.pow_le_mono_r; lia). nia. }
    destruct Hn as [_ Hn]. rewrite Z.eqb_refl, (proj2 (Z.ltb_lt _ _)) in Hn by lia. cbn [andb] in Hn.
    assert (e' = e - 1) as ->.
    { destruct (decide (e' = e - 1)) as [|Hne]; [done|]. assert (2 ^ 2 <= 2 ^ (e - e')) by (apply Z.pow_le_mono_r; lia). nia. }
    replace (e - (e - 1)) with 1 in Hue by lia. assert (m = 2 ^ 53 - 1) as -> by nia. split_and!; [done..|].
    destruct l as [|[]]; cbn in Hi; try nia. done.
  - left. split; [done|]. assert (m = f \/ m = f - 1) as [->| ->] by nia; destruct l as [|[]]; cbn in Hi |- *; (nia || done || lia).
  - exfalso. specialize (Hmc ltac:(lia)). assert (unit_at e' = 2 ^ (e' - e) * unit_at e) as Hue by (rewrite <- unit_add by lia; f_equal; lia).
    assert (2 ^ 1 <= 2 ^ (e' - e)) by (apply Z.pow_le_mono_r; lia). nia.
Qed.

Lemma shr_fexp_exact f e :
  0 < f -> fexp 53 1024 (Zdigits2 f + e) = e -> shr_fexp 53 1024 f e loc_Exact = ({| shr_m := f; shr_r := false; shr_s := false |}, e).
Proof. intros Hf He. unfold shr_fexp, shr. by rewrite He, Z.sub_diag. Qed.

(** Rounding to nearest finds the number. *)
Lemma round_aux_near s f e m ex l :
  valid_binary 53 1024 (S754_finite s f e) = true -> near (Zpos f) e ->
  0 <= m -> -1074 <= ex -> ex <= fexp 53 1024 (Zdigits2 m + ex) -> inbetween m ex l ->
  binary_round_aux 53 1024 s m ex l = S754_finite s f e.
Proof.
  cbn [valid_binary]. unfold bounded, canonical_mantissa. intros [Hc%Z.eqb_eq Hmax]%andb_true_iff Hn Hm Hex Hfx Hi.
  assert (-1074 <= e /\ Zpos f < 2 ^ 53 /\ (-1074 < e -> 2 ^ 52 <= Zpos f)) as (He & Hf & Hfc).
  { pose proof Hc as Hc'. rewrite digits_log2 in Hc'. unfold fexp in Hc'. change (emin 53 1024) with (-1074) in Hc'.
    pose proof (Z.log2_spec (Zpos f) ltac:(lia)) as [Hlo Hhi]. unfold Z.succ in Hhi. split_and!; [lia| |intros Hgt].
    - eapply Z.lt_le_trans; [exact Hhi|]. apply Z.pow_le_mono_r; lia.
    - etransitivity; [|exact Hlo]. apply Z.pow_le_mono_r; lia. }
  unfold binary_round_aux. destruct (shr_fexp 53 1024 m ex l) as [m1 e1] eqn:H1.
  apply shr_fexp_inbetween in H1 as (Hi1 & He1 & Hm1 & Hmc1); [|done..].
  destruct (near_cases (Zpos f) e _ e1 _ ltac:(lia) He Hfc Hn Hi1 He1 Hm1 Hmc1) as [[-> ->]|(-> & Hf2 & ->)].
  - rewrite shr_fexp_exact by done. cbn [shr_m]. by rewrite Hmax.
  - destruct (decide (e = -1074)) as [->|Hne]; [lia|]. unfold shr_fexp.
    assert (fexp 53 1024 (Zdigits2 (2 ^ 53) + (e - 1)) - (e - 1) = 1) as ->.
    { change (Zdigits2 (2 ^ 53)) with 54. unfold fexp. change (emin 53 1024) with (-1074). lia. }
    cbn [shr iter_pos]. change (shr_m (shr_1 (shr_record_of_loc (2 ^ 53) loc_Exact))) with (2 ^ 52). rewrite <- Hf2.
    replace (e - 1 + 1) with e by lia. by rewrite Hmax.
Qed.
End real.

(** ** [binary64_of] *)

(** The decimal number m * 10^e10 as such a fraction. *)
Definition numerator (m e10 : Z) : Z := m * 10 ^ Z.max e10 0 * 2 ^ 1074.
Definition denominator (e10 : Z) : Z := 10 ^ Z.max (- e10) 0.

Lemma denominator_pos e10 : 0 < denominator e10.
Proof. apply pow_pos; lia. Qed.

Lemma binary_round_near s f e q :
  valid_binary 53 1024 (S754_finite s f e) = true -> near (Zpos q * 2 ^ 1074) 1 (Zpos f) e ->
  binary_round 53 1024 s q 0 = S754_finite s f e.
Proof.
  intros Hv Hn. unfold binary_round, shl_align. set (x := fexp 53 1024 _).
  assert (x = Z.max (Z.log2 (Zpos q) - 52) (-1074)) as Hx.
  { unfold x, fexp. rewrite digits_log2. change (emin 53 1024) with (-1074). f_equal. lia. }
  destruct (x - 0) as [|d|d] eqn:Hd.
  1-2: apply (round_aux_near (Zpos q * 2 ^ 1074) 1); [lia|done|done|lia|lia|cbn [Zdigits2]; fold x; lia|]; cbn; unfold unit_at; rewrite Z.mul_1_l; done.
  apply (round_aux_near (Zpos q * 2 ^ 1074) 1); [lia|done|done|lia|lia| |].
  - rewrite Zdigits_log2, iter_xO, Z.log2_mul_pow2 by lia. unfold fexp. change (emin 53 1024) with (-1074). lia.
  - cbn. rewrite iter_xO. unfold unit_at. rewrite Z.mul_1_l, <- Z.mul_assoc, <- Z.pow_add_r by lia. do 2 f_equal. lia.
Qed.

(** The quotient of the division and its remainder. *)
Lemma div_core_inbetween m d q e l :
  0 < m -> 0 < d -> Z.even d = true -> SFdiv_core_binary 53 1024 m 0 d 0 = (q, e, l) ->
  0 <= q /\ -1074 <= e /\ e <= fexp 53 1024 (Zdigits2 q + e) /\ inbetween (m * 2 ^ 1074) d q e l.
Proof.
  intros Hm Hd Heven. unfold SFdiv_core_binary. rewrite !Zdigits_log2 by done. set (x := fexp 53 1024 _). set (e' := Z.min x (0 - 0)).
  assert (x = Z.max (Z.log2 m - Z.log2 d - 53) (-1074)) as Hx.
  { unfold x, fexp. change (emin 53 1024) with (-1074). f_equal. lia. }
  assert (e' = Z.min x 0) as He' by done. assert (-1074 <= e' <= 0) as He by lia. set (m' := match _ with 0 => m | _ => _ end).
  assert (m' = m * 2 ^ (- e')) as Hm'.
  { unfold m'. destruct (0 - 0 - e') as [|p|p] eqn:Hp; [replace (- e') with 0 by lia; rewrite Z.pow_0_r; lia| |lia].
    rewrite Z.shiftl_mul_pow2 by lia. do 2 f_equal. lia. }
  pose proof (Z.div_eucl_eq m' d ltac:(lia)) as Hdiv. pose proof (Z.mod_pos_bound m' d Hd) as Hmod. unfold Z.modulo in Hmod.
  destruct (Z.div_eucl m' d) as [q' r] eqn:Hq. intros [= -> <- <-]. assert (0 <= q) as Hq0.
  { assert (0 < m'); [|nia]. rewrite Hm'. apply Z.mul_pos_pos; [done|]. apply pow_pos; lia. }
  split; [done|]. split; [lia|]. split.
  - assert (q = 0 \/ Z.log2 m - Z.log2 d - 1 - e' <= Z.log2 q) as Hlog.
    { destruct (decide (q = 0)) as [|Hne]; [by left|]. right.
      destruct (decide (Z.log2 m - Z.log2 d - 1 - e' <= 0)) as [|Hpos]; [pose proof (Z.log2_nonneg q); lia|].
      apply Z.log2_le_pow2; [lia|]. assert (2 ^ (Z.log2 m - Z.log2 d - 1 - e') <= m' / d) as Hle.
      { apply Z.div_le_lower_bound; [done|]. pose proof (Z.log2_spec m Hm) as [Hlo _]. pose proof (Z.log2_spec d Hd) as [_ Hhi]. unfold Z.succ in Hhi.
        pose proof (Z.log2_nonneg d). rewrite Hm'.
        transitivity (2 ^ (Z.log2 d + 1) * 2 ^ (Z.log2 m - Z.log2 d - 1 - e')); [pose proof (pow_pos 2 (Z.log2 m - Z.log2 d - 1 - e')); nia|].
        rewrite <- Z.pow_add_r by lia. replace (Z.log2 d + 1 + (Z.log2 m - Z.log2 d - 1 - e')) with (Z.log2 m + - e') by lia.
        rewrite Z.pow_add_r by (lia || apply Z.log2_nonneg). pose proof (pow_pos 2 (- e') ltac:(lia) ltac:(lia)). by apply Z.mul_le_mono_nonneg_r; [lia|]. }
      unfold Z.div in Hle. by rewrite Hq in Hle. }
    unfold fexp. change (emin 53 1024) with (-1074). destruct Hlog as [->|Hlog]; [cbn [Zdigits2]|].
    + destruct (decide (e' = -1074)) as [|Hne]; [lia|]. exfalso. assert (m' < d) as Hlt by nia.
      assert (Z.log2 m - e' <= Z.log2 d) as Hle.
      { replace (Z.log2 m - e') with (- e' + Z.log2 m) by lia. rewrite <- Z.log2_mul_pow2, <- Hm' by lia. apply Z.log2_le_mono. lia. }
      assert (e' = x) as Hex by lia. lia.
    + destruct (decide (q = 0)) as [->|Hne]; [cbn in Hlog; cbn [Zdigits2]; lia|]. rewrite Zdigits_log2 by lia. lia.
  - assert (m * 2 ^ 1074 = (d * q + r) * 2 ^ (e' + 1074)) as HA.
    { rewrite <- Hdiv, Hm', <- Z.mul_assoc, <- Z.pow_add_r by lia. do 2 f_equal. lia. }
    pose proof (pow_pos 2 (e' + 1074) ltac:(lia) ltac:(lia)) as Hp. unfold new_location, new_location_even. rewrite Heven. unfold inbetween, unit_at. rewrite HA.
    destruct (r =? 0) eqn:Hr; to_prop; [subst r; ring|]. destruct (Z.compare_spec (2 * r) d) as [H2|H2|H2]; [subst d; ring|nia|nia].
Qed.

(** A decimal number in the interval of a [double] is read as that [double]. *)
Lemma binary64_near s f e m e10 :
  valid_binary 53 1024 (S754_finite s f e) = true -> 0 < m -> near (numerator m e10) (denominator e10) (Zpos f) e ->
  binary64_of s m e10 = S754_finite s f e.
Proof.
  intros Hv Hm. unfold numerator, denominator, binary64_of. destruct m as [|p|p]; [lia| |lia]. destruct (0 <=? e10) eqn:He; to_prop.
  - rewrite Z.max_l, Z.max_r, Z.pow_0_r by lia. intros Hn. pose proof (pow_pos 10 e10 ltac:(lia) He).
    destruct (Zpos p * 10 ^ e10) as [|q|q] eqn:Hq; [lia| |lia]. by apply binary_round_near.
  - rewrite Z.max_r, Z.max_l, Z.pow_0_r, Z.mul_1_r by lia. intros Hn. pose proof (pow_pos 10 (- e10) ltac:(lia) ltac:(lia)) as Hd.
    destruct (SFdiv_core_binary 53 1024 (Zpos p) 0 (10 ^ - e10) 0) as [[q ex] l] eqn:Hq.
    apply div_core_inbetween in Hq as (Hq0 & Hex & Hfx & Hi); [|done|done|].
    + by apply (round_aux_near (Zpos p * 2 ^ 1074) _ Hd s f e q ex l).
    + rewrite Z.even_pow by lia. done.
Qed.
