(* ===== verification/GrisuTheory.v ===== *)
(** * Printing floating point numbers: the text is short, safe and reads back

    The product of two [diyfp] is rounded, the boundaries of a [double] are the middles towards
    its neighbours, a cached power is half a unit from a power of ten, so that M- and M+ lie
    strictly between the scaled boundaries; the generated digits stay between M- and M+ and are
    at most seventeen; no assertion fails and nothing wraps around.  The property at the end is
    that [strtod] reads the text of every finite [double] back as that [double]. *)
From S2P Require Import Prelude CLib JsonLexer JsonParser JsonText JsonReading BinaryFloat FloatTheory Grisu FloatRound.
From Stdlib Require Import SpecFloat.
#[local] Open Scope Z_scope.

Lemma land_low z k : 0 <= k -> Z.land z (Z.shiftl 1 k - 1) = z mod 2 ^ k.
Proof. intros Hk. rewrite Z.shiftl_mul_pow2, Z.mul_1_l by done. rewrite <- Z.land_ones by done. f_equal. rewrite Z.ones_equiv. lia. Qed.

(** ** [diyfp] *)

Lemma mul_spec x y :
  0 <= fp_f x < 2 ^ 64 -> 0 <= fp_f y < 2 ^ 64 ->
  fp_f (mul x y) = (fp_f x * fp_f y + 2 ^ 63) / 2 ^ 64 /\ 0 <= fp_f (mul x y) < 2 ^ 64 /\ fp_e (mul x y) = fp_e x + fp_e y + 64.
Proof.
  destruct x as [u eu], y as [v ev]. cbn [fp_f fp_e]. intros Hu Hv. unfold mul. cbn [fp_f fp_e].
  change 0xFFFFFFFF with (Z.shiftl 1 32 - 1). rewrite !land_low, !Z.shiftr_div_pow2 by lia. change (Z.shiftl 1 (64 - 32 - 1)) with (2 ^ 31).
  pose proof (Z.mod_pos_bound u (2 ^ 32) ltac:(lia)). pose proof (Z.mod_pos_bound v (2 ^ 32) ltac:(lia)).
  assert (0 <= u / 2 ^ 32 < 2 ^ 32) by (split; [apply Z.div_pos; lia|apply Z.div_lt_upper_bound; lia]).
  assert (0 <= v / 2 ^ 32 < 2 ^ 32) by (split; [apply Z.div_pos; lia|apply Z.div_lt_upper_bound; lia]).
  pose proof (Z.div_mod u (2 ^ 32) ltac:(lia)) as Eu. pose proof (Z.div_mod v (2 ^ 32) ltac:(lia)) as Ev.
  set (u0 := u mod 2 ^ 32) in *. set (u1 := u / 2 ^ 32) in *. set (v0 := v mod 2 ^ 32) in *. set (v1 := v / 2 ^ 32) in *. clearbody u0 u1 v0 v1.
  assert (forall a c, 0 <= a < 2 ^ 32 -> 0 <= c < 2 ^ 32 -> 0 <= a * c <= (2 ^ 32 - 1) * (2 ^ 32 - 1)) as Hp by (intros; nia).
  pose proof (Hp u0 v0). pose proof (Hp u0 v1). pose proof (Hp u1 v0). pose proof (Hp u1 v1).
  rewrite !(u64_small (_ * _)) by lia. assert (u * v = u0 * v0 + 2 ^ 32 * (u0 * v1 + u1 * v0) + 2 ^ 64 * (u1 * v1)) as -> by (rewrite Eu, Ev; ring).
  clear Eu Ev Hp. generalize dependent (u0 * v0). generalize dependent (u0 * v1). generalize dependent (u1 * v0). generalize dependent (u1 * v1).
  intros p3 G3 p2 G2 p1 G1 p0 G0. specialize (G0 ltac:(lia) ltac:(lia)). specialize (G1 ltac:(lia) ltac:(lia)). specialize (G2 ltac:(lia) ltac:(lia)). specialize (G3 ltac:(lia) ltac:(lia)).
  pose proof (Z.div_mod p0 (2 ^ 32) ltac:(lia)). pose proof (Z.mod_pos_bound p0 (2 ^ 32) ltac:(lia)).
  pose proof (Z.div_mod p1 (2 ^ 32) ltac:(lia)). pose proof (Z.mod_pos_bound p1 (2 ^ 32) ltac:(lia)).
  pose proof (Z.div_mod p2 (2 ^ 32) ltac:(lia)). pose proof (Z.mod_pos_bound p2 (2 ^ 32) ltac:(lia)).
  rewrite (u64_small (p0 / 2 ^ 32 + _ + _)) by lia. rewrite (u64_small (_ + 2 ^ 31)) by lia.
  set (Q := p0 / 2 ^ 32 + p1 mod 2 ^ 32 + p2 mod 2 ^ 32 + 2 ^ 31). assert (0 <= Q < 2 ^ 35) by lia.
  pose proof (Z.div_mod Q (2 ^ 32) ltac:(lia)). pose proof (Z.mod_pos_bound Q (2 ^ 32) ltac:(lia)).
  set (h := p3 + p2 / 2 ^ 32 + p1 / 2 ^ 32 + Q / 2 ^ 32).
  assert (h = (p0 + 2 ^ 32 * (p1 + p2) + 2 ^ 64 * p3 + 2 ^ 63) / 2 ^ 64) as Hh.
  { apply (Z.div_unique_pos _ _ _ (p0 mod 2 ^ 32 + 2 ^ 32 * (Q mod 2 ^ 32))); lia. }
  rewrite u64_small; [split; [done|]; split; [|done]|]; lia.
Qed.

Lemma normalize_loop_spec fuel f e :
  0 < f < 2 ^ 64 -> 63 - Z.log2 f < Z.of_nat fuel ->
  normalize_loop fuel (MkFp f e) = Some (MkFp (f * 2 ^ (63 - Z.log2 f)) (e - (63 - Z.log2 f))).
Proof.
  revert f e. induction fuel as [|fuel IH]; intros f e Hf Hfuel.
  { assert (Z.log2 f < 64) by (apply Z.log2_lt_pow2; lia). lia. }
  cbn [normalize_loop fp_f fp_e]. rewrite Z.shiftr_div_pow2 by lia. assert (Z.log2 f < 64) by (apply Z.log2_lt_pow2; lia). destruct (f / 2 ^ 63 =? 0) eqn:Hz; to_prop.
  - apply Z.div_small_iff in Hz; [|lia]. assert (0 <= f < 2 ^ 63) by lia. assert (Z.log2 f < 63) by (apply Z.log2_lt_pow2; lia).
    rewrite Z.shiftl_mul_pow2, Z.pow_1_r, u64_small by lia. assert (Z.log2 (f * 2) = Z.log2 f + 1) as Hl by (rewrite Z.mul_comm, Z.log2_double; lia).
    rewrite IH by lia. rewrite Hl. do 2 f_equal; [|lia]. replace (63 - Z.log2 f) with (1 + (63 - (Z.log2 f + 1))) by lia. rewrite Z.pow_add_r by lia. ring.
  - assert (63 <= Z.log2 f) as Hl; [|replace (63 - Z.log2 f) with 0 by lia; do 2 f_equal; lia].
    apply Z.log2_le_pow2; [lia|]. destruct (Z.le_gt_cases (2 ^ 63) f) as [|Hlt]; [done|]. rewrite Z.div_small in Hz; lia.
Qed.

Lemma normalize_spec f e : 0 < f < 2 ^ 64 -> normalize (MkFp f e) = Some (MkFp (f * 2 ^ (63 - Z.log2 f)) (e - (63 - Z.log2 f))).
Proof.
  intros Hf. unfold normalize. cbn [fp_f]. rewrite (proj2 (Z.eqb_neq f 0)) by lia. apply normalize_loop_spec; [done|]. pose proof (Z.log2_nonneg f). lia.
Qed.

Lemma normalize_to_spec f e k :
  0 <= f -> 0 <= k < 64 -> f * 2 ^ k < 2 ^ 64 -> normalize_to (MkFp f e) (e - k) = Some (MkFp (f * 2 ^ k) (e - k)).
Proof.
  intros Hf Hk Hb. unfold normalize_to. cbn [fp_f fp_e]. replace (e - (e - k)) with k by lia. rewrite (proj2 (Z.leb_le 0 k)), (proj2 (Z.ltb_lt k 64)) by lia.
  pose proof (pow_pos 2 k ltac:(lia) ltac:(lia)). rewrite Z.shiftl_mul_pow2, u64_small, Z.shiftr_div_pow2, Z.div_mul by nia. cbn. by rewrite Z.eqb_refl.
Qed.

(** ** The boundaries *)

(** The mantissa and the exponent of a valid number. *)
Lemma valid_range s f e :
  valid_binary 53 1024 (S754_finite s f e) = true ->
  Zpos f < 2 ^ 53 /\ -1074 <= e <= 971 /\ (-1074 < e -> 2 ^ 52 <= Zpos f) /\ 0 <= Z.log2 (Zpos f) <= 52 /\ (-1074 < e -> Z.log2 (Zpos f) = 52).
Proof.
  cbn [valid_binary]. unfold bounded, canonical_mantissa. rewrite digits_log2. unfold fexp. change (emin 53 1024) with (-1074). intros Hv. to_prop.
  pose proof (Z.log2_spec (Zpos f) ltac:(lia)) as [Hlo Hhi]. unfold Z.succ in Hhi. pose proof (Z.log2_nonneg (Zpos f)). split_and!; try lia.
  - eapply Z.lt_le_trans; [exact Hhi|]. apply Z.pow_le_mono_r; lia.
  - intros Hgt. etransitivity; [|exact Hlo]. apply Z.pow_le_mono_r; lia.
Qed.

(** The shift that normalizes m+, and the exponent of the three numbers. *)
Definition shift_of (f : Z) : Z := 62 - Z.log2 f.

(** Twice the mantissa of m- at the exponent of m+. *)
Definition closer (f e : Z) : bool := (f =? 2 ^ 52) && (-1074 <? e).

Lemma bits_positive f e :
  valid_binary 53 1024 (S754_finite false f e) = true ->
  let bits := bits64 (S754_finite false f e) in
  let E := Z.shiftr bits (kPrecision - 1) in
  let F := Z.land bits (kHiddenBit - 1) in
  (if E =? 0 then MkFp F kMinExp else MkFp (F + kHiddenBit) (E - kBias)) = MkFp (Zpos f) e /\ (F =? 0) && (1 <? E) = closer (Zpos f) e.
Proof.
  intros Hv. apply valid_range in Hv as (Hf & He & Hn & _). cbv zeta. unfold bits64, float_bits, sign_bit, closer. change (kPrecision - 1) with 52. change kHiddenBit with (Z.shiftl 1 52).
  rewrite land_low, Z.shiftr_div_pow2 by lia. change (Z.shiftl 1 52) with (2 ^ 52). change (53 - 1) with 52. change (emin 53 1024) with (-1074). change kBias with 1075. change kMinExp with (-1074).
  destruct (Zpos f <? 2 ^ 52) eqn:Hlt; to_prop.
  - rewrite Z.div_small, Z.mod_small by lia. assert (e = -1074) as -> by lia. cbn. split; [done|]. by rewrite !andb_false_r.
  - set (m := Zpos f - 2 ^ 52). replace (0 + (e - -1074 + 1) * 2 ^ 52 + m) with (m + (e + 1075) * 2 ^ 52) by lia.
    rewrite Z.div_add, Z.mod_add, Z.div_small, Z.mod_small by lia. rewrite Z.add_0_l, (proj2 (Z.eqb_neq _ _)) by lia. split; [f_equal; lia|].
    f_equal; [|destruct (1 <? e + 1075) eqn:?, (-1074 <? e) eqn:?; to_prop; lia]. destruct (m =? 0) eqn:?, (Zpos f =? 2 ^ 52) eqn:?; to_prop; lia.
Qed.

Lemma compute_boundaries_spec f e :
  valid_binary 53 1024 (S754_finite false f e) = true ->
  let t := shift_of (Zpos f) in
  compute_boundaries (S754_finite false f e) =
    Some (MkBounds (MkFp (2 * Zpos f * 2 ^ t) (e - 1 - t))
      (MkFp (if closer (Zpos f) e then (4 * Zpos f - 1) * 2 ^ (t - 1) else (2 * Zpos f - 1) * 2 ^ t) (e - 1 - t)) (MkFp ((2 * Zpos f + 1) * 2 ^ t) (e - 1 - t))) /\
  10 <= t <= 62 /\ 2 ^ 63 <= (2 * Zpos f + 1) * 2 ^ t < 2 ^ 64.
Proof.
  intros Hv t. pose proof (valid_range _ _ _ Hv) as (Hf & He & Hn & Hl & Hnl). set (l := Z.log2 (Zpos f)) in *.
  assert (10 <= t <= 62) as Ht by (unfold t, shift_of; fold l; lia).
  pose proof (Z.log2_spec (Zpos f) ltac:(lia)) as [Hlo Hhi]. fold l in Hlo, Hhi. unfold Z.succ in Hhi.
  assert (2 ^ l * 2 ^ t = 2 ^ 62) as Hlt by (rewrite <- Z.pow_add_r by lia; f_equal; unfold t, shift_of; fold l; lia).
  assert (2 ^ (l + 1) = 2 * 2 ^ l) as Hl1 by (rewrite Z.pow_add_r by lia; ring).
  pose proof (pow_pos 2 t ltac:(lia) ltac:(lia)) as Hpt.
  assert (2 ^ 63 <= (2 * Zpos f + 1) * 2 ^ t < 2 ^ 64) as Hw.
  { assert (2 ^ l * 2 ^ t <= Zpos f * 2 ^ t) by nia. assert ((2 * Zpos f + 1) * 2 ^ t < 2 * (2 * 2 ^ l) * 2 ^ t) by nia. lia. }
  split; [|done]. unfold compute_boundaries. cbn [positive_finite JSON_ASSERT]. pose proof (bits_positive f e Hv) as [Hvf Hcl]. cbv zeta in Hvf, Hcl. rewrite Hvf, Hcl. cbn [fp_f fp_e].
  rewrite (u64_small (2 * _ + 1)), (u64_small (2 * _ - 1)), (u64_small (4 * _ - 1)) by lia.
  assert (Z.log2 (2 * Zpos f + 1) = l + 1) as Hlp by (rewrite Z.log2_succ_double; fold l; lia).
  rewrite (normalize_spec (2 * _ + 1)) by lia. rewrite Hlp. replace (63 - (l + 1)) with t by (unfold t, shift_of; fold l; lia). cbn [mbind option_bind fp_e].
  rewrite (normalize_spec (Zpos f)) by lia. fold l. replace (63 - l) with (1 + t) by (unfold t, shift_of; fold l; lia).
  rewrite Z.pow_add_r, Z.pow_1_r by lia. destruct (closer (Zpos f) e) eqn:Hcloser.
  - unfold closer in Hcloser. apply andb_true_iff in Hcloser as [Hc1%Z.eqb_eq Hc2%Z.ltb_lt]. assert (l = 52) by lia. assert (t = 10) as Ht10 by (unfold t, shift_of; fold l; lia).
    rewrite Ht10 in *. replace (e - 1 - 10) with (e - 2 - 9) by lia. rewrite normalize_to_spec by lia. cbn [mbind option_bind]. do 2 f_equal. f_equal; lia.
  - rewrite normalize_to_spec by nia. cbn [mbind option_bind]. do 2 f_equal. f_equal; lia.
Qed.

(** ** The cached powers *)

(** 10^k / 2^e is the fraction [power_num] / [power_den]. *)
Definition power_num (e k : Z) : Z := 10 ^ Z.max k 0 * 2 ^ Z.max (- e) 0.
Definition power_den (e k : Z) : Z := 10 ^ Z.max (- k) 0 * 2 ^ Z.max e 0.

Lemma power_den_pos e k : 0 < power_den e k.
Proof. apply Z.mul_pos_pos; apply pow_pos; lia. Qed.
Lemma power_num_pos e k : 0 < power_num e k.
Proof. apply Z.mul_pos_pos; apply pow_pos; lia. Qed.

(** Half a unit at most from the power of ten. *)
Definition power_ok (p : Z * Z * Z) : bool :=
  let '(f, e, k) := p in
  (2 ^ 63 <=? f) && (f <? 2 ^ 64) && (2 * Z.abs (f * power_den e k - power_num e k) <=? power_den e k) && (-348 <=? k) && (k <=? 324).

Lemma powers_ok : forallb power_ok kCachedPowers = true.
Proof. vm_compute. reflexivity. Qed.

(** Every exponent of a scaled boundary finds its power. *)
Definition power_found (e : Z) : bool :=
  match get_cached_power_for_binary_exponent e with
  | Some c => (kAlpha <=? c_e c + e + 64) && (c_e c + e + 64 <=? kGamma) && existsb (fun p => bool_decide (p = (c_f c, c_e c, c_k c))) kCachedPowers
  | None => false
  end.

Lemma powers_found : forallb (fun i => power_found (Z.of_nat i - 1137)) (seq 0 2098) = true.
Proof. vm_compute. reflexivity. Qed.

Lemma get_cached_power_spec e :
  -1137 <= e <= 960 -> exists c, get_cached_power_for_binary_exponent e = Some c /\
    -60 <= c_e c + e + 64 <= -32 /\ 2 ^ 63 <= c_f c < 2 ^ 64 /\ -348 <= c_k c <= 324 /\
    2 * Z.abs (c_f c * power_den (c_e c) (c_k c) - power_num (c_e c) (c_k c)) <= power_den (c_e c) (c_k c).
Proof.
  intros He. pose proof powers_found as Hf. rewrite forallb_Forall, Forall_forall in Hf. specialize (Hf (Z.to_nat (e + 1137))).
  rewrite Z2Nat.id in Hf by lia. replace (e + 1137 - 1137) with e in Hf by lia. specialize (Hf ltac:(apply elem_of_seq; lia)).
  unfold power_found in Hf. destruct (get_cached_power_for_binary_exponent e) as [c|]; [|done]. exists c. split; [done|].
  apply andb_true_iff in Hf as [[Ha%Z.leb_le Hg%Z.leb_le]%andb_true_iff Hin]. unfold kAlpha, kGamma in *.
  apply existsb_exists in Hin as (p & Hin & Hp). to_prop. subst p.
  pose proof powers_ok as Hok. rewrite forallb_forall in Hok. specialize (Hok _ Hin). unfold power_ok in Hok. to_prop. lia.
Qed.

(** A scaled number is less than a unit from its real value. *)
Lemma scaled_error x fc e k h :
  0 <= x < 2 ^ 64 -> 0 <= fc < 2 ^ 64 -> 2 * Z.abs (fc * power_den e k - power_num e k) <= power_den e k ->
  h = (x * fc + 2 ^ 63) / 2 ^ 64 ->
  (h - 1) * (power_den e k * 2 ^ 64) < x * power_num e k < (h + 1) * (power_den e k * 2 ^ 64).
Proof.
  intros Hx Hfc Hc ->. pose proof (power_den_pos e k) as Hd. set (U := power_den e k) in *. set (P := power_num e k) in *. clearbody U P.
  pose proof (Z.div_mod (x * fc + 2 ^ 63) (2 ^ 64) ltac:(lia)) as Hdiv. pose proof (Z.mod_pos_bound (x * fc + 2 ^ 63) (2 ^ 64) ltac:(lia)) as Hmod.
  set (h := (x * fc + 2 ^ 63) / 2 ^ 64) in *. set (r := (x * fc + 2 ^ 63) mod 2 ^ 64) in *. clearbody h r.
  assert (h * 2 ^ 64 = x * fc + 2 ^ 63 - r) as Hh by lia.
  assert (2 * Z.abs (x * (fc * U - P)) <= x * U) as Herr by (rewrite Z.abs_mul, (Z.abs_eq x) by lia; nia).
  assert (x * U <= (2 ^ 64 - 1) * U) by nia. assert (0 <= r * U < 2 ^ 64 * U) by nia.
  replace ((h - 1) * (U * 2 ^ 64)) with ((x * fc + 2 ^ 63 - r) * U - 2 ^ 64 * U) by (rewrite <- Hh; ring).
  replace ((h + 1) * (U * 2 ^ 64)) with ((x * fc + 2 ^ 63 - r) * U + 2 ^ 64 * U) by (rewrite <- Hh; ring).
  replace (x * P) with (x * fc * U - x * (fc * U - P)) by ring.
  set (err := x * (fc * U - P)) in *. clearbody err. nia.
Qed.

(** ** The digits *)

(** The digits generated so far: no leading zero. *)
Definition digits_of (v : Z) : bytes := if v =? 0 then [] else dec_nat v.

Lemma digit_chr_48 d : chr (48 + d) = digit_chr d.
Proof. unfold digit_chr. f_equal. lia. Qed.

Lemma digits_of_snoc v d : 0 <= v -> 0 <= d <= 9 -> 0 < 10 * v + d -> digits_of v ++ [digit_chr d] = dec_nat (10 * v + d).
Proof.
  intros Hv Hd Hp. unfold digits_of. destruct (v =? 0) eqn:Hz; to_prop.
  - subst v. rewrite dec_nat_small by lia. done.
  - rewrite (dec_nat_step (10 * v + d)) by lia. do 2 f_equal; [|f_equal]; rewrite Z.mul_comm.
    + symmetry. by rewrite Z.div_add_l, Z.div_small, Z.add_0_r by lia.
    + by rewrite Z.add_comm, Z.mod_add, Z.mod_small by lia.
Qed.

(** Between M- and M+ after the rounding: [x] was generated, [D] is left. *)
Lemma rounded_between M delta x D unit rest :
  M = x * unit + rest -> 0 <= rest -> 0 < unit -> D <= x -> rest + (x - D) * unit <= delta -> M - delta <= D * unit <= M.
Proof. intros -> Hr Hu HD Hd. assert ((x - D) * unit = x * unit - D * unit) as Heq by ring. assert (D * unit <= x * unit) by (by apply Z.mul_le_mono_nonneg_r; [lia|]). lia. Qed.

(** The last digit goes down while the rest stays in the interval; it does not reach zero. *)
Lemma round_loop_spec fuel pre d dist delta rest ten_k :
  0 <= d <= 9 -> d < Z.of_nat fuel -> 0 <= dist <= delta -> 0 <= rest <= delta -> delta < 2 ^ 64 -> 0 < ten_k -> delta < rest + d * ten_k ->
  exists j, round_loop fuel (pre ++ [digit_chr d]) dist delta rest ten_k = Some (pre ++ [digit_chr (d - j)]) /\ 0 <= j < d /\ rest + j * ten_k <= delta.
Proof.
  revert d rest. induction fuel as [|fuel IH]; intros d rest Hd Hfuel Hdist Hrest Hdelta Hten Hlow; [lia|]. cbn [round_loop].
  assert (0 < d) as Hd0 by nia.
  assert (Some (pre ++ [digit_chr d]) = Some (pre ++ [digit_chr (d - 0)])) as Hstop by (do 4 f_equal; lia).
  destruct (_ && _) eqn:Hgo; [|exists 0; split; [done|]; lia].
  apply andb_true_iff in Hgo as [[Hlt%Z.ltb_lt Hle%Z.leb_le]%andb_true_iff _]. rewrite u64_small in Hle by lia.
  assert (2 <= d) by (destruct (decide (d = 1)) as [->|]; lia).
  unfold last_char, decrement_last. rewrite last_last. rewrite removelast_last. unfold last_char. rewrite last_last.
  assert (code (digit_chr d) = d + 48) as Hc by (unfold digit_chr; rewrite code_chr; lia).
  assert (negb (digit_chr d =c "0"%char) = true) as Hn0.
  { apply negb_true_iff, Ascii.eqb_neq. intros Heq. apply (f_equal code) in Heq. rewrite Hc in Heq. change (code "0"%char) with 48 in Heq. lia. }
  rewrite Hn0, Hc. cbn [JSON_ASSERT]. replace (chr (d + 48 - 1)) with (digit_chr (d - 1)) by (unfold digit_chr; f_equal; lia).
  rewrite u64_small by lia. destruct (IH (d - 1) (rest + ten_k)) as (j & Hj & Hj1 & Hj2); [lia..|nia|].
  exists (j + 1). rewrite Hj. split; [do 4 f_equal; lia|]. split; [lia|nia].
Qed.

Lemma grisu2_round_spec v d dist delta rest ten_k :
  0 <= v -> 0 <= d <= 9 -> 0 <= dist <= delta -> 0 <= rest <= delta -> delta < 2 ^ 64 -> 0 < ten_k -> delta < rest + d * ten_k ->
  exists D, grisu2_round (digits_of v ++ [chr (48 + d)]) dist delta rest ten_k = Some (dec_nat D) /\
    length (dec_nat D) = S (length (digits_of v)) /\ 0 < D <= 10 * v + d /\ rest + (10 * v + d - D) * ten_k <= delta.
Proof.
  intros Hv Hd Hdist Hrest Hdelta Hten Hlow. unfold grisu2_round. rewrite digit_chr_48.
  destruct (round_loop_spec 10 (digits_of v) d dist delta rest ten_k) as (j & Hj & Hj1 & Hj2); [lia..|].
  exists (10 * v + (d - j)). rewrite <- digits_of_snoc by lia. split; [|rewrite length_app; cbn [length]; split; [lia|split; [lia|nia]]].
  rewrite length_app. cbn [length]. rewrite (proj2 (Nat.leb_le 1 _)), !(proj2 (Z.leb_le _ _)), (proj2 (Z.ltb_lt _ _)) by lia. exact Hj.
Qed.

Section digit_gen.
  Context (M delta dist p2 s : Z) (K : nat).
  Context (Hs : 32 <= s <= 60) (HM : M < 2 ^ 64) (Hdist : 0 <= dist <= delta) (Hdelta : delta < 2 ^ 64) (Hp2 : 0 <= p2 < 2 ^ s).
  Context (HK : 10 ^ (Z.of_nat K - 1) * 2 ^ s <= M).

(** The first loop: digits between M- and M+ with a place before the point, or all of them. *)
Lemma integral_digits_spec n v e10 p1 pow10 :
  ((0 < n)%nat -> pow10 = 10 ^ (Z.of_nat n - 1)) -> M = (v * 10 ^ Z.of_nat n + p1) * 2 ^ s + p2 -> 0 <= v -> 0 <= p1 < 10 ^ Z.of_nat n ->
  (v = 0 -> (0 < n)%nat /\ 10 ^ (Z.of_nat n - 1) <= p1) -> delta < p1 * 2 ^ s + p2 -> (length (digits_of v) + n)%nat = K ->
  (exists D n', integral_digits n (digits_of v) e10 p1 pow10 p2 delta dist s = Some (inl (dec_nat D, e10 + n')) /\
     0 <= n' < Z.of_nat K /\ (length (dec_nat D) <= K)%nat /\ 0 < D /\ M - delta <= D * 10 ^ n' * 2 ^ s <= M) \/
  (exists v', integral_digits n (digits_of v) e10 p1 pow10 p2 delta dist s = Some (inr (digits_of v')) /\
     0 < v' /\ length (digits_of v') = K /\ M = v' * 2 ^ s + p2 /\ delta < p2).
Proof.
  revert v p1 pow10. induction n as [|n IH]; intros v p1 pow10 Hpow HMv Hv Hp1 Hv0 Hrest Hlen.
  { right. exists v. assert (v <> 0) by (intros Hz; destruct (Hv0 Hz); lia). change (10 ^ Z.of_nat 0) with 1 in *. split_and!; [done|lia|lia|nia|nia]. }
  rewrite Hpow by lia. replace (Z.of_nat (S n) - 1) with (Z.of_nat n) in * by lia.
  pose proof (pow_pos 10 (Z.of_nat n) ltac:(lia) ltac:(lia)) as Hten. pose proof (pow_pos 2 s ltac:(lia) ltac:(lia)) as Hone.
  assert (10 ^ Z.of_nat (S n) = 10 * 10 ^ Z.of_nat n) as Hsucc by (rewrite Nat2Z.inj_succ, Z.pow_succ_r by lia; done). rewrite Hsucc in *.
  cbn [integral_digits]. pose proof (Z.div_mod p1 (10 ^ Z.of_nat n) ltac:(lia)) as Hdiv. pose proof (Z.mod_pos_bound p1 (10 ^ Z.of_nat n) Hten) as Hr.
  assert (0 <= p1 / 10 ^ Z.of_nat n < 10) as Hd by (split; [apply Z.div_pos; lia|apply Z.div_lt_upper_bound; lia]).
  set (d := p1 / 10 ^ Z.of_nat n) in *. set (r := p1 mod 10 ^ Z.of_nat n) in *.
  assert (v = 0 -> 0 < d) as Hd0 by (intros Hz; destruct (Hv0 Hz) as [_ Hle]; apply Z.div_str_pos; lia).
  clearbody d r. rewrite (proj2 (Z.leb_le d 9)) by lia. cbn [JSON_ASSERT].
  assert (0 <= r * 2 ^ s + p2 <= M) by nia. assert (0 <= r * 2 ^ s) by nia.
  rewrite Z.shiftl_mul_pow2, (u64_small (r * 2 ^ s)), (u64_small (_ + p2)) by lia.
  assert (10 ^ Z.of_nat n * 2 ^ s < 2 ^ 64) as Hten64.
  { eapply Z.le_lt_trans; [|exact HM]. etransitivity; [|exact HK]. apply Z.mul_le_mono_nonneg_r; [lia|]. apply Z.pow_le_mono_r; lia. }
  destruct (r * 2 ^ s + p2 <=? delta) eqn:Hstop; to_prop.
  - left. rewrite Z.shiftl_mul_pow2, u64_small by (lia || nia).
    destruct (grisu2_round_spec v d dist delta (r * 2 ^ s + p2) (10 ^ Z.of_nat n * 2 ^ s)) as (D & -> & HDl & HD & HDr); [lia..|nia|nia|].
    exists D, (Z.of_nat n). cbn [mbind option_bind]. split_and!; try done; try lia;
      rewrite <- Z.mul_assoc; apply (rounded_between M delta (10 * v + d) D _ (r * 2 ^ s + p2)); (lia || nia).
  - assert (Hchr : digits_of v ++ [chr (48 + d)] = digits_of (10 * v + d)).
    { rewrite digit_chr_48, digits_of_snoc by (lia || (destruct (decide (v = 0)); [specialize (Hd0 ltac:(done))|]; lia)).
      unfold digits_of. by rewrite (proj2 (Z.eqb_neq _ 0)) by (destruct (decide (v = 0)); [specialize (Hd0 ltac:(done))|]; lia). }
    rewrite Hchr. apply IH.
    + intros Hn. symmetry. apply Z.div_unique_exact; [done|]. rewrite <- Z.pow_succ_r by lia. f_equal. lia.
    + nia.
    + lia.
    + done.
    + destruct (decide (v = 0)); [specialize (Hd0 ltac:(done))|]; lia.
    + done.
    + rewrite <- Hchr, length_app. cbn [length]. lia.
Qed.

Context (Hnarrow : M <= 10 ^ 16 * delta).

(** The number of digits stays below seventeen while the rest is above delta. *)
Lemma digits_bound m v p :
  0 <= m -> M * 10 ^ m = v * 2 ^ s + p -> 0 <= p < 2 ^ s -> delta * 10 ^ m < p -> (0 < K)%nat -> Z.of_nat K + m <= 16.
Proof.
  intros Hm HMm Hp Hlt HK0. pose proof (pow_pos 2 s ltac:(lia) ltac:(lia)) as Hone. pose proof (pow_pos 10 m ltac:(lia) Hm) as Hten.
  assert (10 ^ (Z.of_nat K - 1 + m) < 10 ^ 16) as Hpow; [|apply Z.pow_lt_mono_r_iff in Hpow; lia].
  rewrite Z.pow_add_r by lia. apply (Z.mul_lt_mono_pos_r (2 ^ s)); [done|].
  assert (10 ^ (Z.of_nat K - 1) * 2 ^ s * 10 ^ m <= M * 10 ^ m) by nia. assert (M * 10 ^ m <= 10 ^ 16 * delta * 10 ^ m) by nia.
  set (a := 10 ^ (Z.of_nat K - 1)) in *. set (c := 10 ^ m) in *. set (o := 2 ^ s) in *. clearbody a c o. nia.
Qed.

(** The second loop ends within its fuel; the product with ten does not wrap around. *)
Lemma fraction_digits_spec fuel m v p deltam distm :
  0 <= m -> M * 10 ^ m = v * 2 ^ s + p -> 0 <= p < 2 ^ s -> deltam = delta * 10 ^ m -> distm = dist * 10 ^ m -> deltam < p -> 0 < v ->
  (0 < K)%nat -> Z.of_nat (length (digits_of v)) = Z.of_nat K + m -> 17 <= Z.of_nat fuel + Z.of_nat K + m ->
  exists v' d r m', fraction_digits fuel (digits_of v) m p deltam distm s = Some (digits_of v' ++ [chr (48 + d)], m', (r, delta * 10 ^ m', dist * 10 ^ m')) /\
    M * 10 ^ m' = (10 * v' + d) * 2 ^ s + r /\ 0 < v' /\ 0 <= d <= 9 /\ 0 <= r <= delta * 10 ^ m' /\ delta * 10 ^ m' < r + d * 2 ^ s /\
    delta * 10 ^ m' < 2 ^ 64 /\ 0 < m' /\ Z.of_nat (length (digits_of v')) + 1 = Z.of_nat K + m' /\ Z.of_nat K + m' <= 17.
Proof.
  revert m v p deltam distm. induction fuel as [|fuel IH]; intros m v p deltam distm Hm HMm Hp -> -> Hlt Hv HK0 Hlen Hfuel.
  { pose proof (digits_bound m v p Hm HMm Hp Hlt HK0). lia. }
  pose proof (digits_bound m v p Hm HMm Hp Hlt HK0) as Hbound. pose proof (pow_pos 2 s ltac:(lia) ltac:(lia)) as Hone. pose proof (pow_pos 10 m ltac:(lia) Hm) as Hten.
  assert (2 ^ s <= 2 ^ 60) as Hs60 by (apply Z.pow_le_mono_r; lia).
  cbn [fraction_digits]. rewrite (proj2 (Z.leb_le p _)) by (change ((2 ^ 64 - 1) / 10) with 1844674407370955161; lia). cbn [JSON_ASSERT].
  rewrite (u64_small (p * 10)) by lia. rewrite Z.shiftr_div_pow2, land_low by lia.
  pose proof (Z.div_mod (p * 10) (2 ^ s) ltac:(lia)) as Hdiv. pose proof (Z.mod_pos_bound (p * 10) (2 ^ s) Hone) as Hr.
  assert (0 <= p * 10 / 2 ^ s < 10) as Hd by (split; [apply Z.div_pos; lia|apply Z.div_lt_upper_bound; lia]).
  set (d := p * 10 / 2 ^ s) in *. set (r := p * 10 mod 2 ^ s) in *. clearbody d r. rewrite (proj2 (Z.leb_le d 9)) by lia. cbn [JSON_ASSERT].
  assert (0 <= dist * 10 ^ m <= delta * 10 ^ m) by nia. rewrite !u64_small by lia.
  assert (10 ^ (m + 1) = 10 * 10 ^ m) as Hm1 by (rewrite Z.pow_add_r by lia; ring).
  assert (delta * 10 ^ m * 10 = delta * 10 ^ (m + 1)) as -> by (rewrite Hm1; ring). assert (dist * 10 ^ m * 10 = dist * 10 ^ (m + 1)) as -> by (rewrite Hm1; ring).
  assert (M * 10 ^ (m + 1) = (10 * v + d) * 2 ^ s + r) as HMm1 by (rewrite Hm1; nia).
  destruct (r <=? delta * 10 ^ (m + 1)) eqn:Hstop; to_prop.
  - exists v, d, r, (m + 1). split; [done|]. rewrite Hm1 in *. split_and!; try done; try lia; nia.
  - assert (Hchr : digits_of v ++ [chr (48 + d)] = digits_of (10 * v + d)).
    { rewrite digit_chr_48, digits_of_snoc by lia. unfold digits_of. by rewrite (proj2 (Z.eqb_neq _ 0)) by lia. }
    rewrite Hchr. apply IH; try done; try lia.
    rewrite <- Hchr, length_app. cbn [length]. lia.
Qed.
End digit_gen.

Lemma find_largest_pow10_spec n :
  0 < n < 2 ^ 32 -> exists K, find_largest_pow10 n = (Z.of_nat K, 10 ^ (Z.of_nat K - 1)) /\ (0 < K <= 10)%nat /\ 10 ^ (Z.of_nat K - 1) <= n < 10 ^ Z.of_nat K.
Proof.
  intros Hn. unfold find_largest_pow10. assert (n < 10 ^ 10) by lia.
  assert (forall K p, p = 10 ^ (Z.of_nat K - 1) -> (0 < K <= 10)%nat -> p <= n -> n < 10 ^ Z.of_nat K ->
    exists K', (Z.of_nat K, p) = (Z.of_nat K', 10 ^ (Z.of_nat K' - 1)) /\ (0 < K' <= 10)%nat /\ 10 ^ (Z.of_nat K' - 1) <= n < 10 ^ Z.of_nat K') as Hgo
    by (intros K p -> ? ? ?; by exists K).
  destruct (1000000000 <=? n) eqn:?; to_prop; [by apply (Hgo 10%nat); [|lia|..]|]. destruct (100000000 <=? n) eqn:?; to_prop; [by apply (Hgo 9%nat); [|lia|..]|].
  destruct (10000000 <=? n) eqn:?; to_prop; [by apply (Hgo 8%nat); [|lia|..]|]. destruct (1000000 <=? n) eqn:?; to_prop; [by apply (Hgo 7%nat); [|lia|..]|].
  destruct (100000 <=? n) eqn:?; to_prop; [by apply (Hgo 6%nat); [|lia|..]|]. destruct (10000 <=? n) eqn:?; to_prop; [by apply (Hgo 5%nat); [|lia|..]|].
  destruct (1000 <=? n) eqn:?; to_prop; [by apply (Hgo 4%nat); [|lia|..]|]. destruct (100 <=? n) eqn:?; to_prop; [by apply (Hgo 3%nat); [|lia|..]|].
  destruct (10 <=? n) eqn:?; to_prop; [by apply (Hgo 2%nat); [|lia|..]|]. apply (Hgo 1%nat); [done|lia|change (1 <= n); lia|done].
Qed.

(** What the generation of the digits promises. *)
Lemma digit_gen_spec e10 mf wf pf e :
  kAlpha <= e <= kGamma -> 0 < mf <= wf -> wf <= pf < 2 ^ 64 -> 2 ^ (- e) <= pf -> pf <= 10 ^ 16 * (pf - mf) ->
  exists D n, grisu2_digit_gen e10 (MkFp mf e) (MkFp wf e) (MkFp pf e) = Some (dec_nat D, e10 + n) /\
    (length (dec_nat D) <= 17)%nat /\ 0 < D /\ -17 <= n <= 10 /\
    mf * 10 ^ Z.max (- n) 0 <= D * 10 ^ Z.max n 0 * 2 ^ (- e) <= pf * 10 ^ Z.max (- n) 0.
Proof.
  unfold kAlpha, kGamma. intros He Hm Hp H1 Hnarrow. unfold grisu2_digit_gen, sub, kAlpha, kGamma. cbn [fp_f fp_e]. set (s := - e) in *.
  rewrite !(proj2 (Z.leb_le _ _)), !Z.eqb_refl by lia. cbn [JSON_ASSERT fmap option_fmap option_map mbind option_bind fp_f].
  rewrite !u64_small by lia. rewrite Z.shiftr_div_pow2, land_low by lia. set (delta := pf - mf). set (dist := pf - wf).
  pose proof (pow_pos 2 s ltac:(lia) ltac:(lia)) as Hone. pose proof (Z.div_mod pf (2 ^ s) ltac:(lia)) as Hdiv. pose proof (Z.mod_pos_bound pf (2 ^ s) Hone) as Hp2.
  assert (0 < pf / 2 ^ s < 2 ^ 32) as Hp1.
  { split; [apply Z.div_str_pos; lia|]. apply Z.div_lt_upper_bound; [done|]. rewrite <- Z.pow_add_r by lia. eapply Z.lt_le_trans; [apply Hp|]. apply Z.pow_le_mono_r; lia. }
  set (p1 := pf / 2 ^ s) in *. set (p2 := pf mod 2 ^ s) in *. clearbody p1 p2. assert (u32 p1 = p1) as -> by (unfold u32, wrapu; apply Z.mod_small; lia).
  rewrite (proj2 (Z.ltb_lt 0 p1)) by lia. cbn [JSON_ASSERT]. destruct (find_largest_pow10_spec p1) as (K & -> & HK & HKp); [lia|]. rewrite Nat2Z.id.
  assert (10 ^ (Z.of_nat K - 1) * 2 ^ s <= pf) as HKM by nia.
  destruct (integral_digits_spec pf delta dist p2 s K ltac:(lia) ltac:(lia) ltac:(lia) ltac:(lia) Hp2 HKM K 0 e10 p1 (10 ^ (Z.of_nat K - 1)))
    as [(D & n & Heq & Hn & Hl & HD & Hb)|(v & Heq & Hv & Hl & HMv & Hlt)]; [done|nia|lia|lia|intros _; lia|unfold delta; nia|done|..].
  - change (digits_of 0) with (@nil ascii) in Heq. rewrite Heq. cbn [mbind option_bind]. exists D, n. rewrite Z.max_r, Z.max_l by lia. change (10 ^ 0) with 1. split_and!; try done; lia.
  - change (digits_of 0) with (@nil ascii) in Heq. rewrite Heq. cbn [mbind option_bind]. rewrite (proj2 (Z.ltb_lt delta p2)) by lia. cbn [JSON_ASSERT].
    destruct (fraction_digits_spec pf delta dist s K ltac:(lia) ltac:(lia) HKM Hnarrow fraction_fuel 0 v p2 delta dist)
      as (v' & d & r & m & -> & HMm & Hv' & Hd & Hr & Hlow & Hd64 & Hm0 & Hl' & HKm); [unfold fraction_fuel; lia..|]. cbn [mbind option_bind].
    rewrite Z.shiftl_mul_pow2, Z.mul_1_l by lia. pose proof (pow_pos 10 m ltac:(lia) ltac:(lia)) as Hten.
    destruct (grisu2_round_spec v' d (dist * 10 ^ m) (delta * 10 ^ m) r (2 ^ s)) as (D & -> & HDl & HD & HDr); [lia|lia|nia|lia..|].
    exists D, (- m). cbn [mbind option_bind]. replace (- - m) with m by lia. rewrite Z.max_l, Z.max_r by lia. change (10 ^ 0) with 1. rewrite Z.mul_1_r.
    assert (pf * 10 ^ m - delta * 10 ^ m <= D * 2 ^ s <= pf * 10 ^ m) as Hb by (apply (rounded_between _ _ (10 * v' + d) D _ r); lia).
    unfold delta in Hb. split_and!; try done; try lia; nia.
Qed.

(** ** From the scaled interval back to the number *)

(** Powers of ten and two on both sides matter by their differences. *)
Lemma scale_lt a c i i' j j' I I' J J' :
  0 <= i -> 0 <= i' -> 0 <= j -> 0 <= j' -> 0 <= I -> 0 <= I' -> 0 <= J -> 0 <= J' -> i - i' = I - I' -> j - j' = J - J' ->
  a * (10 ^ i * 2 ^ j) < c * (10 ^ i' * 2 ^ j') -> a * (10 ^ I * 2 ^ J) < c * (10 ^ I' * 2 ^ J').
Proof.
  intros Hi Hi' Hj Hj' HI HI' HJ HJ' H10 H2 Hlt.
  assert (forall x y, 0 <= x -> 0 <= y -> 0 < 10 ^ x * 2 ^ y) as Hpos by (intros; apply Z.mul_pos_pos; apply pow_pos; lia).
  apply (Z.mul_lt_mono_pos_r (10 ^ i' * 2 ^ j')); [by apply Hpos|].
  assert (a * (10 ^ I * 2 ^ J) * (10 ^ i' * 2 ^ j') = a * (10 ^ i * 2 ^ j) * (10 ^ I' * 2 ^ J')) as ->.
  { assert (10 ^ I * 10 ^ i' = 10 ^ i * 10 ^ I') as E10 by (rewrite <- !Z.pow_add_r by lia; f_equal; lia).
    assert (2 ^ J * 2 ^ j' = 2 ^ j * 2 ^ J') as E2 by (rewrite <- !Z.pow_add_r by lia; f_equal; lia).
    transitivity (a * (10 ^ I * 10 ^ i') * (2 ^ J * 2 ^ j')); [ring|]. rewrite E10, E2. ring. }
  replace (c * (10 ^ I' * 2 ^ J') * (10 ^ i' * 2 ^ j')) with (c * (10 ^ i' * 2 ^ j') * (10 ^ I' * 2 ^ J')) by ring.
  apply Z.mul_lt_mono_pos_r; [by apply Hpos|done].
Qed.

Lemma twice_numerator D j e10 : 0 <= j -> 2 * numerator (D * 10 ^ j) e10 = D * (10 ^ (j + Z.max e10 0) * 2 ^ 1075).
Proof.
  intros Hj. unfold numerator. rewrite Z.pow_add_r by lia. change 1075 with (Z.succ 1074). rewrite (Z.pow_succ_r 2 1074) by done.
  generalize (2 ^ 1074), (10 ^ Z.max e10 0), (10 ^ j). intros. ring.
Qed.

(** A decimal number below or above a scaled boundary [x], in the terms of [near]. *)
Section unscale.
  Context (D n e k s t ee : Z).
  Context (Hs : s = - (ee - t + e + 64)) (Hs0 : 0 <= s) (Ht : 0 <= t) (Hee : -1075 <= ee).

Lemma unscale_below x h m j e10 :
  0 <= j -> j + e10 = n - k -> m = D * 10 ^ j -> (h + 1) * (power_den e k * 2 ^ 64) < x * 2 ^ t * power_num e k + 2 * (power_den e k * 2 ^ 64) ->
  D * 10 ^ Z.max n 0 * 2 ^ s <= (h - 1) * 10 ^ Z.max (- n) 0 ->
  2 * numerator m e10 < x * (denominator e10 * 2 ^ (ee + 1075)).
Proof.
  intros Hj Hje -> Hh HD. unfold power_num, power_den, denominator in *.
  pose proof (pow_pos 10 (Z.max (- n) 0) ltac:(lia) ltac:(lia)) as Hn. pose proof (power_den_pos e k) as Hden. unfold power_den in Hden.
  assert (D * (10 ^ (Z.max n 0 + Z.max (- k) 0) * 2 ^ (s + Z.max e 0 + 64)) < x * (10 ^ (Z.max k 0 + Z.max (- n) 0) * 2 ^ (t + Z.max (- e) 0))) as Hlt.
  { rewrite !Z.pow_add_r by lia. set (U := 10 ^ Z.max (- k) 0 * 2 ^ Z.max e 0) in *. set (P := 10 ^ Z.max k 0 * 2 ^ Z.max (- e) 0) in *. set (N := 10 ^ Z.max (- n) 0) in *.
    replace (D * (10 ^ Z.max n 0 * 10 ^ Z.max (- k) 0 * (2 ^ s * 2 ^ Z.max e 0 * 2 ^ 64))) with (D * 10 ^ Z.max n 0 * 2 ^ s * (U * 2 ^ 64)) by (unfold U; ring).
    replace (x * (10 ^ Z.max k 0 * N * (2 ^ t * 2 ^ Z.max (- e) 0))) with (x * 2 ^ t * P * N) by (unfold P; ring).
    eapply Z.le_lt_trans; [apply Z.mul_le_mono_nonneg_r; [lia|exact HD]|].
    replace ((h - 1) * N * (U * 2 ^ 64)) with ((h - 1) * (U * 2 ^ 64) * N) by ring. apply Z.mul_lt_mono_pos_r; [done|]. lia. }
  rewrite twice_numerator by done.
  eapply scale_lt; [..|exact Hlt]; clear Hlt Hn Hden Hh HD; lia.
Qed.

Lemma unscale_above x h m j e10 :
  0 <= j -> j + e10 = n - k -> m = D * 10 ^ j -> x * 2 ^ t * power_num e k < (h + 1) * (power_den e k * 2 ^ 64) ->
  (h + 1) * 10 ^ Z.max (- n) 0 <= D * 10 ^ Z.max n 0 * 2 ^ s ->
  x * (denominator e10 * 2 ^ (ee + 1075)) < 2 * numerator m e10.
Proof.
  intros Hj Hje -> Hh HD. unfold power_num, power_den, denominator in *.
  pose proof (pow_pos 10 (Z.max (- n) 0) ltac:(lia) ltac:(lia)) as Hn. pose proof (power_den_pos e k) as Hden. unfold power_den in Hden.
  assert (x * (10 ^ (Z.max k 0 + Z.max (- n) 0) * 2 ^ (t + Z.max (- e) 0)) < D * (10 ^ (Z.max n 0 + Z.max (- k) 0) * 2 ^ (s + Z.max e 0 + 64))) as Hlt.
  { rewrite !Z.pow_add_r by lia. set (U := 10 ^ Z.max (- k) 0 * 2 ^ Z.max e 0) in *. set (P := 10 ^ Z.max k 0 * 2 ^ Z.max (- e) 0) in *. set (N := 10 ^ Z.max (- n) 0) in *.
    replace (D * (10 ^ Z.max n 0 * 10 ^ Z.max (- k) 0 * (2 ^ s * 2 ^ Z.max e 0 * 2 ^ 64))) with (D * 10 ^ Z.max n 0 * 2 ^ s * (U * 2 ^ 64)) by (unfold U; ring).
    replace (x * (10 ^ Z.max k 0 * N * (2 ^ t * 2 ^ Z.max (- e) 0))) with (x * 2 ^ t * P * N) by (unfold P; ring).
    eapply Z.lt_le_trans; [|apply Z.mul_le_mono_nonneg_r; [lia|exact HD]].
    replace ((h + 1) * N * (U * 2 ^ 64)) with ((h + 1) * (U * 2 ^ 64) * N) by ring. apply Z.mul_lt_mono_pos_r; [done|]. lia. }
  rewrite twice_numerator by done.
  eapply scale_lt; [..|exact Hlt]; clear Hlt Hn Hden Hh HD; lia.
Qed.
End unscale.

(** ** The digits of a number *)

(** The scaled boundaries are far enough from the scaled number, and near enough for seventeen digits. *)
Lemma scaled_order xm v xp c hm hw hp :
  2 ^ 63 <= c < 2 ^ 64 -> 0 <= xm -> xm + 2 ^ 9 <= v -> v + 2 ^ 10 <= xp -> 2 ^ 63 <= xp ->
  xm + 2 ^ 11 <= xp < 2 ^ 64 \/ xm + 1536 <= xp <= 2 ^ 63 + 2 ^ 10 ->
  hm = (xm * c + 2 ^ 63) / 2 ^ 64 -> hw = (v * c + 2 ^ 63) / 2 ^ 64 -> hp = (xp * c + 2 ^ 63) / 2 ^ 64 ->
  0 <= hm /\ hm + 1 <= hw /\ hw <= hp - 1 /\ 2 ^ 60 <= hp - 1 /\ hp - 1 <= 10 ^ 16 * (hp - 1 - (hm + 1)).
Proof.
  intros Hc Hm Hmv Hvp Hp Hor -> -> ->.
  assert (forall x, x * c - 2 ^ 63 < (x * c + 2 ^ 63) / 2 ^ 64 * 2 ^ 64 <= x * c + 2 ^ 63) as Hh.
  { intros x. pose proof (Z.div_mod (x * c + 2 ^ 63) (2 ^ 64) ltac:(lia)). pose proof (Z.mod_pos_bound (x * c + 2 ^ 63) (2 ^ 64) ltac:(lia)). lia. }
  pose proof (Hh xm) as H1. pose proof (Hh v) as H2. pose proof (Hh xp) as H3. assert (0 <= (xm * c + 2 ^ 63) / 2 ^ 64) by (apply Z.div_pos; nia).
  set (hm := (xm * c + 2 ^ 63) / 2 ^ 64) in *. set (hw := (v * c + 2 ^ 63) / 2 ^ 64) in *. set (hp := (xp * c + 2 ^ 63) / 2 ^ 64) in *. clearbody hm hw hp. clear Hh.
  assert ((xm + 2 ^ 9) * c <= v * c) by nia. assert ((v + 2 ^ 10) * c <= xp * c) by nia. assert (2 ^ 63 * c <= xp * c) by nia.
  split; [done|]. split; [lia|]. split; [lia|]. split; [lia|]. destruct Hor as [Hor|Hor].
  - assert ((xm + 2 ^ 11) * c <= xp * c) by nia. assert (xp * c <= 2 ^ 64 * c) by nia. lia.
  - assert ((xm + 1536) * c <= xp * c) by nia. assert (xp * c <= (2 ^ 63 + 2 ^ 10) * c) by nia. lia.
Qed.

Lemma grisu2_spec f e :
  valid_binary 53 1024 (S754_finite false f e) = true ->
  exists D dexp, grisu2 (S754_finite false f e) = Some (dec_nat D, dexp) /\ (length (dec_nat D) <= 17)%nat /\ 0 < D /\ -400 <= dexp <= 400 /\
    forall j e10, 0 <= j -> j + e10 = dexp -> near (numerator (D * 10 ^ j) e10) (denominator e10) (Zpos f) e.
Proof.
  intros Hv. pose proof (compute_boundaries_spec f e Hv) as (Hcb & Ht & Hw). pose proof (valid_range _ _ _ Hv) as (Hf & He & Hn & Hl & Hnl).
  set (t := shift_of (Zpos f)) in *. assert (t = 62 - Z.log2 (Zpos f)) as Htl by done.
  unfold grisu2, grisu2_scaled. rewrite Hcb. cbn [positive_finite JSON_ASSERT mbind option_bind b_w b_minus b_plus fp_e fp_f]. rewrite !Z.eqb_refl. cbn [JSON_ASSERT].
  destruct (get_cached_power_spec (e - 1 - t)) as (c & -> & Hce & Hcf & Hck & Hacc).
  { split; [lia|]. destruct (decide (e = -1074)); [lia|]. specialize (Hnl ltac:(lia)). lia. }
  cbn [mbind option_bind]. set (xm := if closer (Zpos f) e then (4 * Zpos f - 1) * 2 ^ (t - 1) else (2 * Zpos f - 1) * 2 ^ t). set (v := 2 * Zpos f * 2 ^ t) in *. set (xp := (2 * Zpos f + 1) * 2 ^ t) in *.
  assert (2 ^ t = 2 * 2 ^ (t - 1)) as Ht1 by (rewrite <- Z.pow_succ_r by lia; f_equal; lia).
  assert (2 ^ 9 <= 2 ^ (t - 1)) as Ht9 by (apply Z.pow_le_mono_r; lia).
  assert (0 <= xm /\ xm + 2 ^ 9 <= v /\ v + 2 ^ 10 <= xp /\ (xm + 2 ^ 11 <= xp < 2 ^ 64 \/ xm + 1536 <= xp <= 2 ^ 63 + 2 ^ 10)) as (Hxm & Hxv & Hvx & Hor).
  { assert (1 * 2 ^ t <= Zpos f * 2 ^ t) by (apply Z.mul_le_mono_nonneg_r; lia).
    unfold xm, v, xp in *. destruct (closer (Zpos f) e) eqn:Hcl; [|split_and!; try (left; split); lia].
    unfold closer in Hcl. apply andb_true_iff in Hcl as [->%Z.eqb_eq Hgt%Z.ltb_lt]. specialize (Hnl Hgt). rewrite Htl in *. rewrite Hnl. split_and!; try right; lia. }
  destruct (mul_spec (MkFp v (e - 1 - t)) (MkFp (c_f c) (c_e c))) as (Hwf & Hwb & Hwe); [cbn [fp_f]; lia..|].
  destruct (mul_spec (MkFp xm (e - 1 - t)) (MkFp (c_f c) (c_e c))) as (Hmf & Hmb & Hme); [cbn [fp_f]; lia..|].
  destruct (mul_spec (MkFp xp (e - 1 - t)) (MkFp (c_f c) (c_e c))) as (Hpf & Hpb & Hpe); [cbn [fp_f]; lia..|]. cbn [fp_f fp_e] in *.
  destruct (mul (MkFp v _) _) as [wf we] eqn:E1. destruct (mul (MkFp xm _) _) as [mf me] eqn:E2. destruct (mul (MkFp xp _) _) as [pf pe] eqn:E3. cbn [fp_f fp_e] in *. subst we me pe.
  destruct (scaled_order xm v xp (c_f c) mf wf pf) as (H0 & H1 & H2 & H3 & H4); [lia..|done|done|done|]. rewrite (u64_small (mf + 1)), (u64_small (pf - 1)) by lia.
  set (s := e - 1 - t + c_e c + 64) in *.
  destruct (digit_gen_spec (- c_k c) (mf + 1) wf (pf - 1) s) as (D & n & -> & Hlen & HD & Hnr & Hlo & Hhi); [unfold kAlpha, kGamma; lia|lia|lia| |lia|].
  { etransitivity; [|exact H3]. apply Z.pow_le_mono_r; lia. }
  exists D, (- c_k c + n). split_and!; try done; try lia. intros j e10 Hj Hje.
  pose proof (scaled_error xp (c_f c) (c_e c) (c_k c) pf ltac:(lia) ltac:(lia) Hacc Hpf) as [Hpe _].
  pose proof (scaled_error xm (c_f c) (c_e c) (c_k c) mf ltac:(lia) ltac:(lia) Hacc Hmf) as [_ Hme]. unfold near, unit_at. split.
  - replace (e + 1074) with (e - 1 + 1075) by lia.
    apply (unscale_below D n (c_e c) (c_k c) (- s) t (e - 1) ltac:(lia) ltac:(lia) ltac:(lia) ltac:(lia) _ pf _ j); [done|lia|done| |done]. unfold xp in Hpe. lia.
  - unfold xm in Hme. change ((Zpos f =? 2 ^ 52) && (-1074 <? e)) with (closer (Zpos f) e). destruct (closer (Zpos f) e) eqn:Hcl.
    + apply andb_true_iff in Hcl as [_ Hgt%Z.ltb_lt].
      pose proof (unscale_above D n (c_e c) (c_k c) (- s) (t - 1) (e - 2) ltac:(lia) ltac:(lia) ltac:(lia) ltac:(lia) _ mf _ j e10 Hj ltac:(lia) eq_refl Hme Hlo) as Hab.
      replace (e + 1074) with (Z.succ (e - 2 + 1075)) by lia. rewrite Z.pow_succ_r by lia. lia.
    + replace (e + 1074) with (e - 1 + 1075) by lia.
      apply (unscale_above D n (c_e c) (c_k c) (- s) t (e - 1) ltac:(lia) ltac:(lia) ltac:(lia) ltac:(lia) _ mf _ j); [done|lia|done|done|done].
Qed.

(** ** The text *)

(** The text of the number as a numeric text of the grammar: it has a fraction or an exponent. *)
Definition exponent_digits (k : Z) : bytes :=
  if k <? 10 then ["0"%char; chr (48 + k)]
  else if k <? 100 then [chr (48 + k / 10); chr (48 + k `mod` 10)]
  else [chr (48 + k / 100); chr (48 + k `mod` 100 / 10); chr (48 + (k `mod` 100) `mod` 10)].

Lemma exponent_digits_spec k : 0 <= k < 1000 -> digits (exponent_digits k) /\ dec_value 0 (exponent_digits k) = k /\ (length (exponent_digits k) <= 3)%nat.
Proof.
  intros Hk. pose proof (Z.div_mod k 10 ltac:(lia)). pose proof (Z.div_mod k 100 ltac:(lia)). pose proof (Z.div_mod (k mod 100) 10 ltac:(lia)).
  pose proof (Z.mod_pos_bound k 10 ltac:(lia)). pose proof (Z.mod_pos_bound k 100 ltac:(lia)). pose proof (Z.mod_pos_bound (k mod 100) 10 ltac:(lia)).
  assert (forall ds, ds <> [] -> Forall (fun d => 0 <= d < 10) ds -> digits (map digit_chr ds)) as Hdig.
  { intros ds Hne Hds. split; [by destruct ds|]. rewrite Forall_map. eapply Forall_impl; [exact Hds|]. intros d Hd. by apply isdigit_digit_chr. }
  unfold exponent_digits. rewrite !digit_chr_48. repeat case_test; to_prop.
  - split; [|split; [|cbn; lia]]. { change "0"%char with (digit_chr 0). apply (Hdig [0; k]); [done|]. repeat constructor; lia. }
    cbn [dec_value]. change (digit_val "0"%char) with 0. rewrite digit_val_chr by lia. lia.
  - split; [|split; [|cbn; lia]]. { apply (Hdig [k / 10; k mod 10]); [done|]. repeat constructor; lia. }
    cbn [dec_value]. rewrite !digit_val_chr by lia. lia.
  - split; [|split; [|cbn; lia]]. { apply (Hdig [k / 100; k mod 100 / 10; (k mod 100) mod 10]); [done|]. repeat constructor; lia. }
    cbn [dec_value]. rewrite !digit_val_chr by lia. lia.
Qed.

Lemma append_exponent_spec e :
  -1000 < e < 1000 -> append_exponent e = Some ((if e <? 0 then "-"%char else "+"%char) :: exponent_digits (Z.abs e)).
Proof.
  intros He. unfold append_exponent. rewrite !(proj2 (Z.ltb_lt _ _)) by lia. cbn [JSON_ASSERT]. destruct (e <? 0) eqn:Hn; to_prop; do 2 f_equal; unfold exponent_digits.
  - by rewrite Z.abs_neq by lia.
  - by rewrite Z.abs_eq by lia.
Qed.

Lemma dec_value_zeros k a : dec_value a (replicate k "0"%char) = a * 10 ^ Z.of_nat k.
Proof.
  revert a. induction k as [|k IH]; intros a; [cbn; lia|]. cbn [replicate dec_value]. rewrite IH. change (digit_val "0"%char) with 0. rewrite Nat2Z.inj_succ, Z.pow_succ_r by lia. ring.
Qed.

(** What [format_buffer] writes: D * 10^dexp, in at most 24 characters. *)
Lemma format_buffer_spec D dexp s :
  0 < D -> (length (dec_nat D) <= 17)%nat -> -400 <= dexp <= 400 ->
  exists n j, format_buffer (dec_nat D) dexp (-4) digits10 = Some (show_number n) /\ number_ok n /\ is_integer n = false /\ nt_minus n = false /\
    (length (show_number n) <= 23)%nat /\ 0 <= j /\ dec_value 0 (nt_int n ++ frac_digits n) = D * 10 ^ j /\ j + (exponent n - Z.of_nat (length (frac_digits n))) = dexp /\
    (s = true -> number_ok (MkNumber true (nt_int n) (nt_frac n) (nt_exp n))).
Proof.
  intros HD Hlen Hexp. pose proof (dec_nat_nonnil D) as Hne. pose proof (dec_nat_digits D ltac:(lia)) as Hds. pose proof (dec_nat_value D ltac:(lia)) as Hv.
  destruct (dec_nat_head D HD) as (d & ds & Hhead & Hd). set (buf := dec_nat D) in *. clearbody buf.
  assert (0 < length buf)%nat as Hpos by (destruct buf; [done|cbn; lia]).
  assert (forall n, number_ok n -> s = true -> number_ok (MkNumber true (nt_int n) (nt_frac n) (nt_exp n))) as Hminus by (intros n Hn _; exact Hn).
  assert (digit_chr d <> "0"%char) as Hd0.
  { intros Heq. apply (f_equal code) in Heq. unfold digit_chr in Heq. rewrite code_chr in Heq by lia. change (code "0"%char) with 48 in Heq. lia. }
  assert (forall p q, buf = p ++ q -> forall r, p = "0"%char :: r -> r = []) as Hlead.
  { intros p q Hpq r ->. rewrite Hhead in Hpq. injection Hpq as Hpq _. done. }
  unfold format_buffer. change (-4 <? 0) with true. change (0 <? digits10) with true. cbn [JSON_ASSERT]. unfold digits10.
  set (k := Z.of_nat (length buf)). set (n := k + dexp).
  assert (forall l, Forall (fun c => isdigit c = true) l -> l <> [] -> digits l) as Hdig by (intros; by split).
  assert (forall i, Forall (fun c => isdigit c = true) (replicate i "0"%char)) as Hzeros by (intros i; by apply Forall_replicate).
  destruct ((k <=? n) && (n <=? 15)) eqn:H1; [|destruct ((0 <? n) && (n <=? 15)) eqn:H2; [|destruct ((-4 <? n) && (n <=? 0)) eqn:H3]].
  - to_prop. set (z := Z.to_nat (n - k)). exists (MkNumber false (buf ++ replicate z "0"%char) (Some (B "0")) None), (Z.of_nat z + 1).
    assert (number_ok (MkNumber false (buf ++ replicate z "0"%char) (Some (B "0")) None)) as Hok.
    { split_and!; cbn; [apply Hdig; [by apply Forall_app|by intros [? _]%app_eq_nil]| |intros ? [= <-]; by apply Hdig; [repeat constructor|]|done].
      intros r Hr. exfalso. rewrite Hhead in Hr. by injection Hr. }
    split_and!; [|done|done|done| |lia| | |by apply (Hminus _ Hok)].
    + unfold show_number. cbn [nt_minus nt_int nt_frac nt_exp show_frac show_exp app]. by rewrite <- !app_assoc.
    + unfold show_number. cbn [nt_minus nt_int nt_frac nt_exp show_frac show_exp app]. rewrite !length_app, length_replicate. cbn. lia.
    + cbn [nt_int frac_digits nt_frac]. rewrite !dec_value_app, Hv, dec_value_zeros. cbn [dec_value B String.list_ascii_of_string]. change (digit_val "0"%char) with 0. rewrite Z.pow_add_r, Z.pow_1_r by lia. ring.
    + cbn. lia.
  - to_prop. assert (n < k) as Hnk by (destruct H1; lia). rewrite (proj2 (Z.ltb_lt n k)) by lia. cbn [JSON_ASSERT]. set (i := Z.to_nat n).
    exists (MkNumber false (take i buf) (Some (drop i buf)) None), 0.
    assert (buf = take i buf ++ drop i buf) as Hsplit by by rewrite take_drop.
    assert (Forall (fun c => isdigit c = true) (take i buf) /\ Forall (fun c => isdigit c = true) (drop i buf)) as [Ht Hr] by (rewrite <- Forall_app; by rewrite <- Hsplit).
    assert (length (take i buf) = i /\ length (drop i buf) = (length buf - i)%nat) as [Hlt Hld] by (rewrite length_take, length_drop; lia).
    assert (number_ok (MkNumber false (take i buf) (Some (drop i buf)) None)) as Hok.
    { split_and!; cbn; [|exact (Hlead _ _ Hsplit)|intros ? [= <-]|done].
      - apply Hdig; [done|]. intros Hn. rewrite Hn in Hlt. cbn in Hlt. lia.
      - apply Hdig; [done|]. intros Hn. rewrite Hn in Hld. cbn in Hld. lia. }
    split_and!; [|done|done|done| |lia| | |by apply (Hminus _ Hok)].
    + unfold show_number. cbn [nt_minus nt_int nt_frac nt_exp show_frac show_exp app]. by rewrite app_nil_r.
    + unfold show_number. cbn [nt_minus nt_int nt_frac nt_exp show_frac show_exp app]. rewrite app_nil_r, length_app. cbn [length]. lia.
    + cbn [nt_int frac_digits nt_frac]. rewrite <- Hsplit, Hv. lia.
    + cbn [frac_digits nt_frac exponent nt_exp]. lia.
  - to_prop. set (z := Z.to_nat (- n)). exists (MkNumber false (B "0") (Some (replicate z "0"%char ++ buf)) None), 0.
    assert (number_ok (MkNumber false (B "0") (Some (replicate z "0"%char ++ buf)) None)) as Hok.
    { split_and!; cbn; [by apply Hdig; [repeat constructor|]|by intros ? [= <-]|intros ? [= <-]; apply Hdig; [by apply Forall_app|by intros [_ ?]%app_eq_nil]|done]. }
    split_and!; [|done|done|done| |lia| | |by apply (Hminus _ Hok)].
    + unfold show_number. cbn [nt_minus nt_int nt_frac nt_exp show_frac show_exp app]. by rewrite app_nil_r.
    + unfold show_number. cbn. rewrite app_nil_r, length_app, length_replicate. destruct H1, H2; lia.
    + cbn [nt_int frac_digits nt_frac]. rewrite !dec_value_app. change (dec_value 0 (B "0")) with 0. rewrite dec_value_zeros, Z.mul_0_l, Hv. lia.
    + cbn [frac_digits nt_frac exponent nt_exp]. rewrite length_app, length_replicate. lia.
  - rewrite append_exponent_spec by lia. cbn [mbind option_bind].
    destruct (exponent_digits_spec (Z.abs (n - 1)) ltac:(lia)) as (He & Hev & Hel).
    set (sign := if n - 1 <? 0 then "-"%char else "+"%char).
    assert ([sign] ∈ [[]; B "+"; B "-"]) as Hsign by (unfold sign; destruct (n - 1 <? 0); in_table).
    set (nt := MkNumber false (take 1 buf) (if k =? 1 then None else Some (drop 1 buf)) (Some ("e"%char, [sign], exponent_digits (Z.abs (n - 1))))).
    assert (take 1 buf = [digit_chr d] /\ drop 1 buf = ds) as [Ht Hr] by (rewrite Hhead; done).
    assert ((k =? 1) = true -> ds = []) as Hone.
    { intros H1'. to_prop. unfold k in H1'. rewrite Hhead in H1'. cbn [length] in H1'. by destruct ds; [|cbn in H1'; lia]. }
    assert ((k =? 1) = false -> ds <> []) as Hmore.
    { intros H1'. to_prop. unfold k in H1'. rewrite Hhead in H1'. intros ->. by cbn in H1'. }
    assert (Forall (fun c => isdigit c = true) (digit_chr d :: ds)) as Hall by (by rewrite <- Hhead).
    assert (number_ok nt) as Hok.
    { unfold nt. split_and!; cbn [nt_int nt_frac nt_exp]; rewrite ?Ht, ?Hr.
      - apply Forall_cons in Hall as [? _]. by apply Hdig; [constructor|].
      - by intros r [= ? <-].
      - destruct (k =? 1) eqn:Hk1; [done|]. intros ? [= <-]. apply Forall_cons in Hall as [_ ?]. apply Hdig; auto.
      - intros ? ? ? [= <- <- <-]. split_and!; [in_table|done|apply He..]. }
    assert (frac_digits nt = ds) as Hfd by (unfold nt, frac_digits; cbn [nt_frac]; destruct (k =? 1) eqn:Hk1; [symmetry; auto|done]).
    assert (exponent nt = n - 1) as Hexpn.
    { unfold nt, exponent. cbn [nt_exp]. rewrite Hev. unfold sign. destruct (n - 1 <? 0) eqn:Hneg; to_prop; [rewrite bool_decide_true by done|rewrite bool_decide_false by done]; lia. }
    assert (length buf = S (length ds)) as Hl by (by rewrite Hhead).
    exists nt, 0. split_and!; [|done|by unfold nt, is_integer; cbn; destruct (k =? 1)|done| |lia| | |by apply (Hminus _ Hok)].
    + unfold show_number, nt. cbn [nt_minus nt_int nt_frac nt_exp show_exp app]. f_equal. destruct (k =? 1) eqn:Hk1; cbn [show_frac app].
      * rewrite Ht, Hhead, (Hone eq_refl). done.
      * rewrite <- app_assoc. done.
    + unfold show_number, nt. cbn [nt_minus nt_int nt_frac nt_exp show_exp app]. rewrite Ht, !length_app. cbn [length app]. destruct (k =? 1); cbn [show_frac length]; rewrite ?Hr; lia.
    + rewrite Hfd. cbn [nt nt_int]. rewrite Ht. cbn [app]. rewrite <- Hhead, Hv. lia.
    + rewrite Hexpn, Hfd. unfold n, k. rewrite Hl. lia.
Qed.

(** A finite number is printed as a numeric text with a fraction or an exponent, which reads back. *)
Lemma to_chars_spec x :
  valid_binary 53 1024 x = true -> isfinite x = true ->
  exists n, to_chars x = Some (show_number n) /\ number_ok n /\ is_integer n = false /\ (length (show_number n) <= 24)%nat /\ strtod (show_number n) = x.
Proof.
  intros Hv Hfin. destruct x as [s|s| |s f e]; try done.
  - exists (MkNumber s (B "0") (Some (B "0")) None). split; [by destruct s|]. split; [|destruct s; (split_and!; [done|cbn; lia|reflexivity])].
    assert (digits (B "0")) by (split; [done|by repeat constructor]). split_and!; cbn; [done|by intros ? [= <-]|by intros ? [= <-]|done].
  - assert (valid_binary 53 1024 (S754_finite false f e) = true) as Hv' by exact Hv.
    destruct (grisu2_spec f e Hv') as (D & dexp & Hg & Hlen & HD & Hde & Hnear).
    destruct (format_buffer_spec D dexp s HD Hlen Hde) as (n & j & Hfmt & Hok & Hint & Hminus & Hl & Hj & Hval & Hje & Hneg).
    unfold to_chars. rewrite Hg. cbn [mbind option_bind]. rewrite (proj2 (Nat.leb_le _ _)) by done. cbn [JSON_ASSERT]. rewrite Hfmt. cbn [mbind option_bind].
    set (n' := MkNumber s (nt_int n) (nt_frac n) (nt_exp n)). exists n'.
    assert (show_number n' = (if s then B "-" else []) ++ show_number n) as Hshow by (unfold show_number; rewrite Hminus; done).
    assert (number_ok n') as Hok' by (unfold n'; destruct s; [by apply Hneg|destruct n as [[] ? ? ?]; done]).
    split_and!; [by rewrite Hshow|done|done|rewrite Hshow, length_app; destruct s; cbn; lia|].
    rewrite strtod_show by done. cbn [n' nt_minus nt_int]. change (frac_digits n') with (frac_digits n). change (exponent n') with (exponent n). rewrite Hval.
    apply binary64_near; [exact Hv|apply Z.mul_pos_pos; [done|by apply pow_pos]|]. by apply Hnear.
Qed.

(** C13: printing a floating point number is safe, short and exact: for every finite [double]
    the Grisu2 algorithm runs without a failed assertion, an overflow or a loop that goes on,
    generates at most seventeen digits, and writes at most 24 characters into its buffer of 64;
    they form a JSON number with a fraction or an exponent, and [strtod] reads them as the same
    number, bit for bit: subnormal numbers, powers of two with their nearer neighbour and the
    sign of zero included. *)
Theorem to_chars_correct x :
  valid_binary 53 1024 x = true -> isfinite x = true ->
  exists t, to_chars x = Some t /\ (length t <= 24)%nat /\ strtod t = x /\
    exists n, t = show_number n /\ number_ok n /\ number_value n = Some (VFloat x).
Proof.
  intros Hv Hf. destruct (to_chars_spec x Hv Hf) as (n & Hc & Hok & Hi & Hl & Hs). exists (show_number n). split_and!; [done..|].
  exists n. split_and!; [done..|]. unfold number_value. rewrite Hi. unfold float_value. by rewrite Hs, Hf.
Qed.

Lemma to_chars_correct_witness :
  exists t, to_chars (of_bits64 0x8010000000000000) = Some t /\ strtod t = of_bits64 0x8010000000000000.
Proof.
  destruct (to_chars_correct (of_bits64 0x8010000000000000)) as (t & Ht & _ & Hs & _); [reflexivity|reflexivity|]. exists t. exact (conj Ht Hs).
Defined.
