(* ===== verification/Serializer.v ===== *)
(** * Printing values: [detail::serializer] and [basic_json::dump] of [include/json.hpp]

    The whole serializer: every type of value, compact and indented, with or without escaping
    what is not ASCII, and the three ways to treat invalid UTF-8.  What it writes goes into
    [o]; [string_buffer] is the part in use; a write behind its end, a read behind
    [indent_string] and a failed assertion are [Stuck], an exception is [Fail].  ([Json] has the
    compact strict printing of the values the proxy builds; [SerializerTheory] proves it equal.) *)
From S2P Require Import Prelude CLib Json JsonLexer JsonParser JsonValue Grisu.
From Stdlib Require Import SpecFloat.

Module error_handler.
Inductive t := strict | replace | ignore.
End error_handler.
Abbreviation error_handler_t := error_handler.t.

#[export] Instance error_handler_eq_dec : EqDecision error_handler_t.
Proof. solve_decision. Defined.

Module serializer.

(** ** The parameters and the state *)

(** [o] is what was written so far. *)
Record state := MkState { o : bytes; indent_string : bytes }.

Definition write (s : bytes) (st : state) : result state := Done (MkState (o st ++ s) (indent_string st)).

(** [write_characters(indent_string.c_str(), n)]: the characters and the NUL behind them can be read. *)
Definition write_indent (n : Z) (st : state) : result state :=
  let s := indent_string st ++ [NUL] in
  if (n <=? Z.of_nat (length s))%Z then write (take (Z.to_nat n) s) st else Stuck.

(** One step after another. *)
Definition seq_of (a b : state -> result state) (st : state) : result state := let! st := a st in b st.
Infix ";;;" := seq_of (at level 60, right associativity).

(** ** Strings *)

Definition hex_bytes (byte : Z) : bytes := [hex_upper (byte / 16); hex_upper (byte mod 16)].

(** [e_buf] has [bytes] characters, [bytes_after_last_accept] of them are accepted. *)
Record escape := MkEscape {
  e_out : bytes; e_buf : bytes; bytes_after_last_accept : nat; undumped_chars : nat; e_state : Z; codepoint : Z }.

(** Characters put into [string_buffer]; [snprintf] adds a NUL. *)
Definition put (s : bytes) (nul : nat) (buf : bytes) : result bytes :=
  if (length buf + length s + nul <=? string_buffer_size)%nat then Done (buf ++ s) else Stuck.

(** The case of a complete code point, whose last byte is [c]. *)
Definition put_codepoint (ensure_ascii : bool) (cp : Z) (c : ascii) (buf : bytes) : result bytes :=
  let escaped := (cp <=? 0x1F)%Z || (ensure_ascii && (0x7F <=? cp)%Z) in
  let short := existsb (Z.eqb cp) [0x08; 0x09; 0x0A; 0x0C; 0x0D; 0x22; 0x5C]%Z in
  put (escape_cp ensure_ascii cp c) (if escaped && negb short then 1 else 0) buf.

(** The buffer is written out when fewer than 13 characters are left. *)
Definition flush (out buf : bytes) : bytes * bytes :=
  if (string_buffer_size - length buf <? 13)%nat then (out ++ buf, []) else (out, buf).

Definition replacement (ensure_ascii : bool) : bytes := if ensure_ascii then B "\ufffd" else [chr 0xEF; chr 0xBF; chr 0xBD].

Definition invalid_byte (i : nat) (c : ascii) : exn :=
  type_error 316 (B "invalid UTF-8 byte at index " ++ dec (Z.of_nat i) ++ B ": 0x" ++ hex_bytes (code c)).
Definition incomplete_string (c : ascii) : exn :=
  type_error 316 (B "incomplete UTF-8 string; last byte: 0x" ++ hex_bytes (code c)).

Section options.
  Context (error_handler : error_handler_t) (ensure_ascii : bool).

(** The byte [c] at index [i]; whether it is to be read again ([--i]). *)
Definition escape_byte (i : nat) (c : ascii) (e : escape) : result (bool * escape) :=
    let '(state, cp) := decode (e_state e) (codepoint e) (code c) in
    if (state =? UTF8_ACCEPT)%Z then
      let! buf := put_codepoint ensure_ascii cp c (e_buf e) in
      let '(out, buf) := flush (e_out e) buf in
      Done (false, MkEscape out buf (length buf) 0 state cp)
    else if (state =? UTF8_REJECT)%Z then
      match error_handler with
      | error_handler.strict => Fail (invalid_byte i c)
      | _ =>
          let again := (0 <? undumped_chars e)%nat in
          let buf := take (bytes_after_last_accept e) (e_buf e) in
          if decide (error_handler = error_handler.replace) then
            let! buf := put (replacement ensure_ascii) 0 buf in
            let '(out, buf) := flush (e_out e) buf in
            Done (again, MkEscape out buf (length buf) 0 UTF8_ACCEPT cp)
          else Done (again, MkEscape (e_out e) buf (bytes_after_last_accept e) 0 UTF8_ACCEPT cp)
      end
    else
      let! buf := (if negb ensure_ascii then put [c] 0 (e_buf e) else Done (e_buf e)) in
      Done (false, MkEscape (e_out e) buf (bytes_after_last_accept e) (S (undumped_chars e)) state cp).

(** A byte is read at most twice. *)
Fixpoint escape_loop (fuel : nat) (i : nat) (s : bytes) (e : escape) : result escape :=
    match fuel with
    | O => Stuck
    | S fuel =>
        match s with
        | [] => Done e
        | c :: s' =>
            let! (again, e) := escape_byte i c e in
            if again : bool then escape_loop fuel i s e else escape_loop fuel (S i) s' e
        end
    end.

Definition escape_end (s : bytes) (e : escape) : result bytes :=
    if (e_state e =? UTF8_ACCEPT)%Z then Done (e_out e ++ e_buf e)
    else
      match error_handler with
      | error_handler.strict => Fail (incomplete_string (List.last s NUL))
      | error_handler.ignore => Done (e_out e ++ take (bytes_after_last_accept e) (e_buf e))
      | error_handler.replace => Done (e_out e ++ take (bytes_after_last_accept e) (e_buf e) ++ replacement ensure_ascii)
      end.

(** What is written for the string. *)
Definition escaped_text (s : bytes) : result bytes :=
    let! e := escape_loop (2 * length s + 1) 0 s (MkEscape [] [] 0 0 UTF8_ACCEPT 0) in escape_end s e.

Definition dump_escaped (s : bytes) (st : state) : result state := let! t := escaped_text s in write t st.

(** ** Numbers *)

Definition dump_integer (z : Z) (st : state) : result state :=
    match Json.dump_integer z with Some t => write t st | None => Stuck end.

Definition dump_float (x : spec_float) (st : state) : result state :=
    if negb (isfinite x) then write (B "null") st
    else match to_chars x with Some t => write t st | None => Stuck end.

(** ** Values *)

Context (pretty_print : bool) (indent_step : Z).

(** The new level, with a longer [indent_string] when it is too short. *)
Definition new_indent (current_indent : Z) : Z := u32 (current_indent + indent_step).
Definition grow (n : Z) (st : state) : result state :=
    if (Z.of_nat (length (indent_string st)) <? n)%Z
    then Done (MkState (o st) (indent_string st ++ replicate (length (indent_string st)) " "%char)) else Done st.

Section loops.
  Context (n : Z) (dump : value -> state -> result state).

(** [n - 1] elements each followed by a comma, then the last one. *)
Fixpoint dump_elements (l : list value) : state -> result state :=
    match l with
    | [] => Done
    | [v] => if pretty_print then write_indent n;;; dump v else dump v
    | v :: l =>
        if pretty_print then write_indent n;;; dump v;;; write (B "," ++ [LF]);;; dump_elements l
        else dump v;;; write (B ",");;; dump_elements l
    end.

Definition dump_key (k : bytes) : state -> result state :=
    if pretty_print then write_indent n;;; write [DQUOTE];;; dump_escaped k;;; write (DQUOTE :: B ": ")
    else write [DQUOTE];;; dump_escaped k;;; write (DQUOTE :: B ":").

Fixpoint dump_members (l : list (bytes * value)) : state -> result state :=
    match l with
    | [] => Done
    | [(k, v)] => dump_key k;;; dump v
    | (k, v) :: l => dump_key k;;; dump v;;; write (if pretty_print then B "," ++ [LF] else B ",");;; dump_members l
    end.
End loops.

Fixpoint dump_bytes (l : bytes) : state -> result state :=
    match l with
    | [] => Done
    | [c] => dump_integer (code c)
    | c :: l => dump_integer (code c);;; write (if pretty_print then B ", " else B ",");;; dump_bytes l
    end.

Definition dump_subtype (b : byte_container) : state -> result state :=
    match m_subtype b with Some z => dump_integer z | None => write (B "null") end.

Definition quoted (s : bytes) : bytes := DQUOTE :: s ++ [DQUOTE].

Definition dump_binary (b : byte_container) (current_indent : Z) : state -> result state :=
    if pretty_print then
      let n := new_indent current_indent in
      write (B "{" ++ [LF]);;; grow n;;; write_indent n;;; write (quoted (B "bytes") ++ B ": [");;; dump_bytes (bin_data b);;;
      write (B "]," ++ [LF]);;; write_indent n;;; write (quoted (B "subtype") ++ B ": ");;; dump_subtype b;;;
      write [LF];;; write_indent current_indent;;; write (B "}")
    else
      write (B "{" ++ quoted (B "bytes") ++ B ":[");;; dump_bytes (bin_data b);;;
      write (B "]," ++ quoted (B "subtype") ++ B ":");;; dump_subtype b;;; write (B "}").

Fixpoint dump (v : value) (current_indent : Z) : state -> result state :=
    match v with
    | VObject l =>
        match l with
        | [] => write (B "{}")
        | _ =>
            if pretty_print then
              let n := new_indent current_indent in
              write (B "{" ++ [LF]);;; grow n;;; dump_members n (fun v => dump v n) l;;;
              write [LF];;; write_indent current_indent;;; write (B "}")
            else write (B "{");;; dump_members 0 (fun v => dump v current_indent) l;;; write (B "}")
        end
    | VArray l =>
        match l with
        | [] => write (B "[]")
        | _ =>
            if pretty_print then
              let n := new_indent current_indent in
              write (B "[" ++ [LF]);;; grow n;;; dump_elements n (fun v => dump v n) l;;;
              write [LF];;; write_indent current_indent;;; write (B "]")
            else write (B "[");;; dump_elements 0 (fun v => dump v current_indent) l;;; write (B "]")
        end
    | VString s => write [DQUOTE];;; dump_escaped s;;; write [DQUOTE]
    | VBinary b => dump_binary b current_indent
    | VBool b => write (if b then B "true" else B "false")
    | VInteger z | VUnsigned z => dump_integer z
    | VFloat x => dump_float x
    | VNull => write (B "null")
    end.
End options.
End serializer.

(** ** [basic_json::dump] *)

Definition basic_dump (v : value) (indent : Z) (indent_char : ascii) (ensure_ascii : bool) (error_handler : error_handler_t) : result bytes :=
  let st := serializer.MkState [] (replicate 512 indent_char) in
  let! st := (if (0 <=? indent)%Z then serializer.dump error_handler ensure_ascii true (u32 indent) v 0 st
              else serializer.dump error_handler ensure_ascii false 0 v 0 st) in
  Done (serializer.o st).

(** ** Examples *)

Definition demo_value : value :=
  VObject [(B "a", VArray [VFloat (S754_finite false 6755399441055744 (-52)); VNull; VArray []]); (B "b", VBinary (MkBinary [chr 1; chr 255] None))].

Example demo_compact : basic_dump demo_value (-1) " "%char false error_handler.strict =
  Done (B "{" ++ serializer.quoted (B "a") ++ B ":[1.5,null,[]]," ++ serializer.quoted (B "b") ++ B ":{" ++ serializer.quoted (B "bytes") ++ B ":[1,255],"
        ++ serializer.quoted (B "subtype") ++ B ":null}}").
Proof. vm_compute. reflexivity. Qed.
Example demo_pretty : basic_dump (VArray [VUnsigned 1; VArray [VBool true]]) 2 " "%char false error_handler.strict =
  Done (B "[" ++ [LF] ++ B "  1," ++ [LF] ++ B "  [" ++ [LF] ++ B "    true" ++ [LF] ++ B "  ]" ++ [LF] ++ B "]").
Proof. vm_compute. reflexivity. Qed.
Example demo_replaced : basic_dump (VString [chr 0xC3; "x"%char; chr 0xF0; chr 0x9F]) (-1) " "%char true error_handler.replace =
  Done (serializer.quoted (B "\ufffdx\ufffd")).
Proof. vm_compute. reflexivity. Qed.
Example demo_ignored : basic_dump (VString [chr 0xC3; chr 0xA9; chr 0xFF; "x"%char]) (-1) " "%char false error_handler.ignore =
  Done (serializer.quoted [chr 0xC3; chr 0xA9; "x"%char]).
Proof. vm_compute. reflexivity. Qed.
