(* ===== verification/EscapeTheory.v ===== *)
(** * Printing strings: [serializer::dump_escaped]

    The decoder against the table of RFC 3629, with the code point it builds; the buffer, which
    never overflows; and what is written: characters of the grammar ([JsonText]) that mean the
    string, its invalid parts replaced or left out as [error_handler] says ([repair]), or the
    exception.  The compact strict printing of [Json] is the same function. *)
From S2P Require Import Prelude CLib Json JsonLexer JsonParser JsonText JsonReading JsonValue Grisu Serializer.
From Stdlib Require Import SpecFloat.

(** ** UTF-8 sequences and their code points *)

(** The bits of a first byte, and the code point of the bytes read so far. *)
Definition lead_value (b : Z) : Z :=
  (if b <? 0x80 then b else if b <? 0xE0 then b mod 32 else if b <? 0xF0 then b mod 16 else b mod 8)%Z.
Definition seq_cp (s : bytes) : Z :=
  match s with [] => 0%Z | c :: r => foldl (fun a d => (a * 64 + code d mod 64)%Z) (lead_value (code c)) r end.

(** A well-formed sequence is the encoding of its code point, which is no surrogate. *)
Lemma seq_cp_encoded c s rs :
  (128 <= code c)%Z -> utf8_lead (code c) = Some rs -> in_ranges rs s = true ->
  utf8_of (seq_cp (c :: s)) = c :: s /\ (128 <= seq_cp (c :: s) <= 0x10FFFF)%Z /\ scalar_value (seq_cp (c :: s)).
Proof.
  intros Hc Hl Hs. unfold utf8_of.
  assert (forall d lo hi, (lo <=? code d)%Z && (code d <=? hi)%Z = true -> (128 <= lo)%Z -> (hi <= 191)%Z -> (code d = 128 + code d mod 64)%Z /\ (lo <= code d <= hi)%Z) as Hcont.
  { intros d lo hi Hd Hlo Hhi. to_prop. split; [|lia]. assert (code d mod 64 = code d - 128)%Z as ->; [|lia]. symmetry. apply (Z.mod_unique_pos _ _ 2); lia. }
  assert (forall x b, (0 <= b < 64)%Z -> ((x * 64 + b) / 64 = x /\ (x * 64 + b) mod 64 = b)%Z) as Hdm.
  { intros x b Hb. split; [symmetry; by apply (Z.div_unique_pos _ _ _ b); lia|symmetry; by apply (Z.mod_unique_pos _ _ x); lia]. }
  pose proof (code_range c) as Hcr. unfold utf8_lead, cont in Hl. unfold seq_cp, lead_value, scalar_value. rewrite (proj2 (Z.ltb_ge (code c) 0x80)) by lia.
  destruct (code c <=? 0x7F)%Z eqn:?; to_prop; [lia|]. destruct (code c <? 0xC2)%Z eqn:?; to_prop; [done|].
  destruct (code c <=? 0xDF)%Z eqn:?; to_prop.
  { injection Hl as <-. destruct s as [|d1 [|]]; try done; cbn [in_ranges] in Hs; [|by rewrite andb_false_r in Hs]. rewrite andb_true_r in Hs.
    destruct (Hcont _ _ _ Hs ltac:(lia) ltac:(lia)) as [E1 R1]. pose proof (Z.mod_pos_bound (code d1) 64 ltac:(lia)).
    rewrite (proj2 (Z.ltb_lt (code c) 0xE0)) by lia. cbn [foldl]. assert (code c = 0xC0 + code c mod 32)%Z as Ec by (assert (code c mod 32 = code c - 0xC0)%Z as ->; [symmetry; apply (Z.mod_unique_pos _ _ 6); lia|lia]).
    set (x := (code c mod 32)%Z) in *. set (y := (code d1 mod 64)%Z) in *. destruct (Hdm x y) as [D1 M1]; [lia|].
    rewrite (proj2 (Z.ltb_ge _ 0x80)), (proj2 (Z.ltb_lt _ 0x800)), D1, M1 by lia.
    split; [|lia]. cbn [map]. rewrite <- Ec, <- E1, !chr_code. done. }
  destruct (code c <? 0xF0)%Z eqn:H3; to_prop.
  - assert (exists lo hi, rs = [(lo, hi); cont] /\ (128 <= lo)%Z /\ (hi <= 191)%Z /\ (code c = 0xE0 -> lo = 0xA0)%Z /\ (code c = 0xED -> hi = 0x9F)%Z) as (lo & hi & -> & Hlo & Hhi & HE0 & HED).
    { unfold cont. repeat case_test; to_prop; simplify_eq; try lia; do 2 eexists; (split; [reflexivity|]); lia. }
    unfold cont in Hs. destruct s as [|d1 [|d2 [|]]]; cbn [in_ranges] in Hs; rewrite ?andb_false_r in Hs; try done. rewrite andb_true_r in Hs. apply andb_true_iff in Hs as [Hs1 Hs2].
    destruct (Hcont _ _ _ Hs1 Hlo Hhi) as [E1 R1]. destruct (Hcont _ _ _ Hs2 ltac:(lia) ltac:(lia)) as [E2 R2].
    pose proof (Z.mod_pos_bound (code d1) 64 ltac:(lia)). pose proof (Z.mod_pos_bound (code d2) 64 ltac:(lia)).
    rewrite (proj2 (Z.ltb_ge (code c) 0xE0)) by lia. cbn [foldl]. assert (code c = 0xE0 + code c mod 16)%Z as Ec by (assert (code c mod 16 = code c - 0xE0)%Z as ->; [symmetry; apply (Z.mod_unique_pos _ _ 14); lia|lia]).
    set (x := (code c mod 16)%Z) in *. set (y := (code d1 mod 64)%Z) in *. set (z := (code d2 mod 64)%Z) in *.
    destruct (Hdm (x * 64 + y)%Z z) as [D1 M1]; [lia|]. destruct (Hdm x y) as [D2 M2]; [lia|].
    assert (((x * 64 + y) * 64 + z) / 4096 = x)%Z as D3 by (change 4096%Z with (64 * 64)%Z; rewrite <- Z.div_div, D1, D2 by lia; done).
    rewrite (proj2 (Z.ltb_ge _ 0x80)), (proj2 (Z.ltb_ge _ 0x800)), (proj2 (Z.ltb_lt _ 0x10000)), D3, D1, M1, M2 by lia.
    split; [|lia]. cbn [map]. rewrite <- Ec, <- E1, <- E2, !chr_code. done.
  - assert (exists lo hi, rs = [(lo, hi); cont; cont] /\ (128 <= lo)%Z /\ (hi <= 191)%Z /\ (code c = 0xF0 -> lo = 0x90)%Z /\ (code c = 0xF4 -> hi = 0x8F)%Z /\ (code c <= 0xF4)%Z) as (lo & hi & -> & Hlo & Hhi & HF0 & HF4 & Hmax).
    { unfold cont. repeat case_test; to_prop; simplify_eq; try lia; do 2 eexists; (split; [reflexivity|]); lia. }
    unfold cont in Hs. destruct s as [|d1 [|d2 [|d3 [|]]]]; cbn [in_ranges] in Hs; rewrite ?andb_false_r in Hs; try done. rewrite andb_true_r in Hs.
    apply andb_true_iff in Hs as [Hs1 [Hs2 Hs3]%andb_true_iff].
    destruct (Hcont _ _ _ Hs1 Hlo Hhi) as [E1 R1]. destruct (Hcont _ _ _ Hs2 ltac:(lia) ltac:(lia)) as [E2 R2]. destruct (Hcont _ _ _ Hs3 ltac:(lia) ltac:(lia)) as [E3 R3].
    pose proof (Z.mod_pos_bound (code d1) 64 ltac:(lia)). pose proof (Z.mod_pos_bound (code d2) 64 ltac:(lia)). pose proof (Z.mod_pos_bound (code d3) 64 ltac:(lia)).
    rewrite (proj2 (Z.ltb_ge (code c) 0xE0)) by lia. cbn [foldl]. assert (code c = 0xF0 + code c mod 8)%Z as Ec by (assert (code c mod 8 = code c - 0xF0)%Z as ->; [symmetry; apply (Z.mod_unique_pos _ _ 30); lia|lia]).
    set (w := (code c mod 8)%Z) in *. set (x := (code d1 mod 64)%Z) in *. set (y := (code d2 mod 64)%Z) in *. set (z := (code d3 mod 64)%Z) in *.
    destruct (Hdm ((w * 64 + x) * 64 + y)%Z z) as [D1 M1]; [lia|]. destruct (Hdm (w * 64 + x)%Z y) as [D2 M2]; [lia|]. destruct (Hdm w x) as [D3 M3]; [lia|].
    set (cp := (((w * 64 + x) * 64 + y) * 64 + z)%Z) in *.
    assert (cp / 4096 = w * 64 + x)%Z as D4 by (change 4096%Z with (64 * 64)%Z; rewrite <- Z.div_div, D1, D2 by lia; done).
    assert (cp / 262144 = w)%Z as D5 by (change 262144%Z with (4096 * 64)%Z; rewrite <- Z.div_div, D4, D3 by lia; done).
    rewrite (proj2 (Z.ltb_ge _ 0x80)), (proj2 (Z.ltb_ge _ 0x800)), (proj2 (Z.ltb_ge _ 0x10000)), D5, D4, D1, M1, M2, M3 by (unfold cp; lia).
    split; [|unfold cp; lia]. cbn [map]. rewrite <- Ec, <- E1, <- E2, <- E3, !chr_code. done.
Qed.

(** ** Reading a string *)

(** [acc] was read of a sequence, [pending] is to come. *)
Definition partial (acc : bytes) (pending : list (Z * Z)) : Prop :=
  match acc with
  | [] => pending = []
  | c :: s => (128 <= code c)%Z /\ pending <> [] /\ high_ranges pending /\ length s + length pending <= 3 /\
      exists rs, utf8_lead (code c) = Some rs /\ forall t, in_ranges rs (s ++ t) = in_ranges pending t
  end.

(** The characters that are complete with the byte [c]. *)
Definition complete (acc : bytes) (c : ascii) : Prop :=
  acc = [] /\ (code c < 128)%Z \/
  exists c0 s rs, acc ++ [c] = c0 :: s /\ (128 <= code c0)%Z /\ (128 <= code c)%Z /\ utf8_lead (code c0) = Some rs /\ in_ranges rs s = true.

Lemma utf8_lead_length c rs : utf8_lead c = Some rs -> length rs <= 3 /\ ((128 <= c)%Z -> rs <> []).
Proof. unfold utf8_lead. intros Hl. repeat case_test; to_prop; simplify_eq; cbn; (split; [lia|]); intros; (done || lia). Qed.

Lemma partial_length acc pending : partial acc pending -> length acc <= 3.
Proof. destruct acc as [|c s]; cbn; [lia|]. intros (_ & Hne & _ & Hl & _). destruct pending; [done|]. cbn in Hl. lia. Qed.

Lemma partial_nil acc : partial acc [] -> acc = [].
Proof. destruct acc as [|c s]; [done|]. by intros (_ & ? & _). Qed.

Lemma partial_pending pending : partial [] pending -> pending = [].
Proof. done. Qed.

Lemma partial_next acc pending c p' :
  partial acc pending -> utf8_next pending (code c) = Some p' -> match p' with [] => complete acc c | _ => partial (acc ++ [c]) p' end.
Proof.
  intros Hp Hn. destruct acc as [|c0 s]; cbn [partial] in Hp.
  - subst pending. cbn [utf8_next] in Hn. pose proof (utf8_lead_length _ _ Hn) as [Hlen Hne]. destruct (Z.lt_ge_cases (code c) 128) as [Hlt|Hge].
    + assert (p' = []) as -> by (unfold utf8_lead in Hn; rewrite (proj2 (Z.leb_le _ _)) in Hn by lia; congruence). by left.
    + destruct p' as [|r p']; [by destruct (Hne Hge)|]. cbn [app partial]. split_and!; [done|done|by eapply utf8_lead_high|cbn in *; lia|]. by exists (r :: p').
  - destruct Hp as (Hc & Hne & Hh & Hl & rs & Hlead & Hrs). destruct pending as [|[lo hi] pending]; [done|].
    apply Forall_cons in Hh as [Hlo Hh]. cbn [utf8_next fst] in *. destruct ((lo <=? code c)%Z && (code c <=? hi)%Z) eqn:Hr; [|done]. injection Hn as ->.
    assert (forall t, in_ranges rs ((s ++ [c]) ++ t) = in_ranges p' t) as Hrs'.
    { intros t. rewrite <- app_assoc, Hrs. cbn. by rewrite Hr. }
    destruct p' as [|r p'].
    + right. exists c0, (s ++ [c]), rs. to_prop. split_and!; try done; [lia|]. by rewrite <- (app_nil_r (s ++ [c])), Hrs'.
    + cbn [app partial]. split_and!; [done|done|done|rewrite length_app; cbn in *; lia|]. by exists rs.
Qed.

Lemma pending_accept state pending : (0 <= state <= 8)%Z -> state_pending state = Some pending -> state = UTF8_ACCEPT <-> pending = [].
Proof.
  intros Hs Hp. unfold UTF8_ACCEPT. assert (exists n, n < 9 /\ state = Z.of_nat n) as (n & Hn & ->) by (exists (Z.to_nat state); lia).
  unfold state_pending in Hp. rewrite Nat2Z.id in Hp. do 9 (destruct n as [|n]; [simpl in Hp; simplify_eq; split; intros; (done || lia)|]). lia.
Qed.

(** The code point [decode] has after a byte. *)
Lemma decode_first byte rs : (0 <= byte < 256)%Z -> utf8_lead byte = Some rs -> Z.land (Z.shiftr 255 (nth (Z.to_nat byte) utf8d 0%Z)) byte = lead_value byte.
Proof.
  intros Hb Hl. assert (forallb (fun n => let b := Z.of_nat n in
    match utf8_lead b with Some _ => (Z.land (Z.shiftr 255 (nth (Z.to_nat b) utf8d 0)) b =? lead_value b)%Z | None => true end) (seq 0 256) = true) as Ht by (vm_compute; reflexivity).
  rewrite forallb_Forall, Forall_forall in Ht. specialize (Ht (Z.to_nat byte)). cbv zeta in Ht. rewrite Z2Nat.id, Hl in Ht by lia.
  apply Z.eqb_eq, Ht, elem_of_seq. lia.
Qed.

Lemma seq_cp_snoc acc c : acc <> [] -> seq_cp (acc ++ [c]) = (seq_cp acc * 64 + code c mod 64)%Z.
Proof. destruct acc as [|c0 s]; [done|]. intros _. cbn. by rewrite foldl_app. Qed.

(** One call of [decode] inside a sequence. *)
Lemma decode_seq state cp acc c pending p' :
  ser_ok state cp -> state_pending state = Some pending -> partial acc pending -> (acc <> [] -> cp = seq_cp acc) -> utf8_next pending (code c) = Some p' ->
  exists state', decode state cp (code c) = (state', seq_cp (acc ++ [c])) /\ ser_ok state' (seq_cp (acc ++ [c])) /\ state_pending state' = Some p'.
Proof.
  intros Hok Hp Ha Hcp Hn. pose proof (decode_spec state cp c pending Hok Hp) as Hd. pose proof (code_range c) as Hc.
  destruct (decode state cp (code c)) as [state' cp'] eqn:Heq. rewrite Hn in Hd. destruct Hd as (Hok' & Hp' & _).
  assert (cp' = seq_cp (acc ++ [c])) as <-; [|by exists state'].
  destruct Hok as (Hs & Hs1 & Hr). pose proof (pending_accept state pending Hs Hp) as Hacc. unfold decode in Heq. apply (f_equal snd) in Heq. cbn [snd] in Heq.
  destruct acc as [|c0 s].
  - cbn in Ha. subst pending. rewrite (proj2 Hacc eq_refl) in Heq. cbn [Z.eqb UTF8_ACCEPT] in Heq. rewrite <- Heq. cbn [app seq_cp foldl]. by apply (decode_first _ p').
  - rewrite seq_cp_snoc, <- Hcp by done. assert (state <> UTF8_ACCEPT) as Hna by (intros Hst; apply Hacc in Hst as ->; by destruct Ha as (_ & ? & _)).
    rewrite (proj2 (Z.eqb_neq _ _) Hna) in Heq. destruct Hr as [Hr|Hr]; [done|].
    assert (0 <= cp < 2 ^ 26)%Z as Hcr; [|by rewrite append_cont in Heq by lia].
    assert (exists n, n < 9 /\ state = Z.of_nat n) as (n & Hlt & ->) by (exists (Z.to_nat state); lia).
    unfold state_cp_range in Hr. rewrite Nat2Z.id in Hr. unfold UTF8_ACCEPT in Hna. do 9 (destruct n as [|n]; [simpl in Hr, Hna; lia|]). lia.
Qed.

(** ** The text of a character *)

Lemma hex4_u_escape cp : (0 <= cp < 65536)%Z -> exists a b c d, u_escape cp = B "\u" ++ [a; b; c; d] /\ hex4 a b c d = Some cp /\ Forall (fun c => (code c < 128)%Z) [a; b; c; d].
Proof.
  intros Hcp. unfold u_escape, u16, wrapu. rewrite Z.mod_small by done.
  assert (forall d, (0 <= d < 16)%Z -> hex_value (hex_chr d) = Some d /\ (code (hex_chr d) < 128)%Z) as Hhex.
  { intros d Hd. assert (forallb (fun n => bool_decide (hex_value (hex_chr (Z.of_nat n)) = Some (Z.of_nat n)) && (code (hex_chr (Z.of_nat n)) <? 128)%Z) (seq 0 16) = true) as Ht by (vm_compute; reflexivity).
    rewrite forallb_Forall, Forall_forall in Ht. specialize (Ht (Z.to_nat d)). rewrite Z2Nat.id in Ht by lia.
    assert (Z.to_nat d ∈ seq 0 16) as Hin by (apply elem_of_seq; lia). apply Ht, andb_true_iff in Hin as [H1 H2]. apply bool_decide_eq_true_1 in H1. to_prop. done. }
  destruct (Hhex (cp / 4096)%Z) as [H1 L1]; [split; [apply Z.div_pos; lia|apply Z.div_lt_upper_bound; lia]|].
  destruct (Hhex ((cp / 256) mod 16)%Z) as [H2 L2]; [apply Z.mod_pos_bound; lia|]. destruct (Hhex ((cp / 16) mod 16)%Z) as [H3 L3]; [apply Z.mod_pos_bound; lia|].
  destruct (Hhex (cp mod 16)%Z) as [H4 L4]; [apply Z.mod_pos_bound; lia|].
  do 4 eexists. split; [reflexivity|]. split; [|by repeat constructor]. unfold hex4. rewrite H1, H2, H3, H4. cbn [mbind option_bind]. f_equal.
  pose proof (Z.div_mod cp 16 ltac:(lia)). pose proof (Z.div_mod (cp / 16) 16 ltac:(lia)) as E2. pose proof (Z.div_mod (cp / 256) 16 ltac:(lia)) as E3.
  rewrite !Z.div_div in E2, E3 by lia. change (16 * 16)%Z with 256%Z in E2. change (256 * 16)%Z with 4096%Z in E3. lia.
Qed.

(** The character for a byte below 128, by its escape. *)
Definition low_char (ea : bool) (c : ascii) : text_char :=
  match escape_cp ea (code c) c with [_; e] => TEscape e | [_; _; a; b; x; d] => TUnicode a b x d | _ => TPlain c end.

Lemma low_char_table ea c :
  (code c < 128)%Z ->
  bool_decide (show_char (low_char ea c) = escape_cp ea (code c) c) && bool_decide (char_value (low_char ea c) = Some [c]) &&
  forallb (fun d => (code d <? 128)%Z) (show_char (low_char ea c)) && (length (escape_cp ea (code c) c) <=? 6) = true.
Proof. destruct ea, c as [[] [] [] [] [] [] [] []]; intros Hc; first [exfalso; vm_compute in Hc; discriminate|reflexivity]. Qed.

(** A code point from 128 on. *)
Lemma escape_cp_ascii cp c :
  (128 <= cp)%Z -> escape_cp true cp c = if (cp <=? 0xFFFF)%Z then u_escape cp else u_escape (0xD7C0 + Z.shiftr cp 10) ++ u_escape (0xDC00 + Z.land cp 0x3FF).
Proof. intros Hcp. unfold escape_cp. rewrite !(proj2 (Z.eqb_neq cp _)), (proj2 (Z.leb_gt cp 0x1F)), (proj2 (Z.leb_le 0x7F cp)) by lia. done. Qed.

Lemma complete_high acc c :
  complete acc c -> ~ (acc = [] /\ (code c < 128)%Z) ->
  let cp := seq_cp (acc ++ [c]) in
  utf8_of cp = acc ++ [c] /\ (128 <= cp <= 0x10FFFF)%Z /\ scalar_value cp /\ char_value (TBytes (acc ++ [c])) = Some (acc ++ [c]).
Proof.
  intros [?|(c0 & s & rs & -> & Hc0 & _ & Hl & Hr)] Hn; [done|]. cbv zeta. destruct (seq_cp_encoded c0 s rs Hc0 Hl Hr) as (? & ? & ?).
  split_and!; try done; [lia..|]. cbn [char_value]. rewrite (proj2 (Z.leb_le _ _)) by lia. rewrite Hl. cbn [mbind option_bind]. by rewrite Hr.
Qed.

Definition all_ascii (t : bytes) : Prop := Forall (fun c => (code c < 128)%Z) t.

Lemma char_written (ea : bool) acc c :
  complete acc c ->
  exists t, show_char t = (if ea then [] else acc) ++ escape_cp ea (seq_cp (acc ++ [c])) c /\ char_value t = Some (acc ++ [c]) /\ (ea = true -> all_ascii (show_char t)).
Proof.
  intros Hc. destruct (decide (acc = [] /\ (code c < 128)%Z)) as [[-> Hlow]|Hn].
  - cbn [app seq_cp foldl]. unfold lead_value. rewrite (proj2 (Z.ltb_lt _ _)) by done. exists (low_char ea c).
    pose proof (low_char_table ea c Hlow) as Ht. rewrite !andb_true_iff, !bool_decide_eq_true in Ht. destruct Ht as [[[-> Hv] Ha] _].
    split_and!; [by destruct ea|done|]. intros _. rewrite forallb_forall in Ha. apply Forall_forall. intros d Hd. apply list_elem_of_In, Ha in Hd. by to_prop.
  - destruct (complete_high acc c Hc Hn) as (Hu & Hcp & Hs & Hv). set (cp := seq_cp (acc ++ [c])) in *.
    destruct ea; [|exists (TBytes (acc ++ [c])); by rewrite escape_cp_high by lia]. rewrite escape_cp_ascii by lia. destruct (cp <=? 0xFFFF)%Z eqn:Hbig; to_prop.
    + destruct (hex4_u_escape cp) as (a & b & d & e & -> & Hx & Hl); [lia|]. exists (TUnicode a b d e). split_and!; [done| |].
      * cbn [char_value]. rewrite Hx. cbn [mbind option_bind]. rewrite Hu. by destruct ((0xD800 <=? cp)%Z && (cp <=? 0xDFFF)%Z) eqn:?; [to_prop; unfold scalar_value in *; lia|].
      * intros _. cbn [show_char]. apply Forall_app. split; [by repeat constructor|exact Hl].
    + change 0x3FF%Z with (Z.ones 10). rewrite Z.shiftr_div_pow2, Z.land_ones by lia. pose proof (Z.mod_pos_bound cp (2 ^ 10) ltac:(lia)).
      assert (0xD800 <= 0xD7C0 + cp / 2 ^ 10 <= 0xDBFF)%Z as Hhi.
      { assert (64 <= cp / 2 ^ 10 < 1088)%Z; [|lia]. split; [apply Z.div_le_lower_bound; lia|apply Z.div_lt_upper_bound; lia]. }
      destruct (hex4_u_escape (0xD7C0 + cp / 2 ^ 10)) as (a & b & d & e & -> & Hx & Hl); [lia|].
      destruct (hex4_u_escape (0xDC00 + cp mod 2 ^ 10)) as (a' & b' & d' & e' & -> & Hx' & Hl'); [lia|].
      exists (TPair a b d e a' b' d' e'). split_and!; [by cbn [show_char app]; rewrite <- app_assoc| |].
      * cbn [char_value]. rewrite Hx, Hx'. cbn [mbind option_bind]. rewrite !(proj2 (Z.leb_le _ _)) by lia. cbn [andb]. f_equal. rewrite <- Hu. f_equal.
        pose proof (Z.div_mod cp (2 ^ 10) ltac:(lia)). lia.
      * intros _. cbn [show_char]. unfold all_ascii. rewrite !Forall_app. split_and!; (assumption || by repeat constructor).
Qed.

(** It fits into the buffer. *)
Lemma put_codepoint_fits (ea : bool) acc c buf :
  complete acc c -> length acc <= 3 -> length buf <= 499 ->
  serializer.put_codepoint ea (seq_cp (acc ++ [c])) c (buf ++ if ea then [] else acc) = Done ((buf ++ if ea then [] else acc) ++ escape_cp ea (seq_cp (acc ++ [c])) c) /\
  length (buf ++ (if ea then [] else acc) ++ escape_cp ea (seq_cp (acc ++ [c])) c) <= 512.
Proof.
  intros Hc Hacc Hbuf. unfold serializer.put_codepoint. set (cp := seq_cp (acc ++ [c])).
  assert (length (if ea then [] else acc) + length (escape_cp ea cp c) + (if ((cp <=? 31)%Z || ea && (127 <=? cp)%Z) && negb (existsb (Z.eqb cp) [8; 9; 10; 12; 13; 34; 92]%Z) then 1 else 0) <= 13) as Hlen.
  { destruct (decide (acc = [] /\ (code c < 128)%Z)) as [[-> Hlow]|Hn].
    - assert (cp = code c) as -> by (unfold cp; cbn [app seq_cp foldl]; unfold lead_value; by rewrite (proj2 (Z.ltb_lt _ _))).
      pose proof (low_char_table ea c Hlow) as Ht. rewrite !andb_true_iff in Ht. destruct Ht as [_ Ht]. apply Nat.leb_le in Ht.
      destruct ea; cbn [length]; case_match; lia.
    - destruct (complete_high acc c Hc Hn) as (_ & Hcp & _). fold cp in Hcp. destruct ea.
      + rewrite escape_cp_ascii by lia. destruct (cp <=? 0xFFFF)%Z; cbn; case_match; lia.
      + rewrite escape_cp_high by lia. rewrite (proj2 (Z.leb_gt cp 31)) by lia. cbn [orb andb length]. lia. }
  unfold serializer.put, string_buffer_size. rewrite !length_app, (proj2 (Nat.leb_le _ _)) by lia. split; [done|lia].
Qed.

(** ** The loop *)

Import serializer.

(** What the bytes that are no UTF-8 are replaced by, and the string with the replacements: the
    longest start of a sequence that cannot be continued is one, and the byte behind it is read
    again. *)
Definition replaced_by (h : error_handler_t) : bytes := if decide (h = error_handler.replace) then [chr 0xEF; chr 0xBF; chr 0xBD] else [].
Definition replacement_chars (h : error_handler_t) (ea : bool) : list text_char :=
  if decide (h = error_handler.replace) then [if ea then TUnicode "f"%char "f"%char "f"%char "d"%char else TBytes [chr 0xEF; chr 0xBF; chr 0xBD]] else [].

Fixpoint repair (r acc : bytes) (pending : list (Z * Z)) (s : bytes) : bytes :=
  match s with
  | [] => if decide (acc = []) then [] else r
  | c :: s =>
      match utf8_next pending (code c) with
      | Some [] => acc ++ c :: repair r [] [] s
      | Some p => repair r (acc ++ [c]) p s
      | None =>
          r ++ if decide (acc = []) then repair r [] [] s
               else match utf8_lead (code c) with Some [] => c :: repair r [] [] s | Some p => repair r [c] p s | None => r ++ repair r [] [] s end
      end
  end.
Definition repaired (h : error_handler_t) (s : bytes) : bytes := repair (replaced_by h) [] [] s.

(** Nothing is replaced in well-formed UTF-8. *)
Lemma repair_wf r acc pending s : partial acc pending -> utf8_wf pending s = true -> repair r acc pending s = acc ++ s.
Proof.
  revert acc pending. induction s as [|c s IH]; intros acc pending Hp Hw; cbn [repair utf8_wf] in *.
  - destruct pending; [|done]. apply partial_nil in Hp as ->. done.
  - destruct (utf8_next pending (code c)) as [p'|] eqn:Hn; [|done]. pose proof (partial_next _ _ _ _ Hp Hn) as Hp'.
    destruct p'; [by rewrite IH|]. rewrite IH by done. by rewrite <- app_assoc.
Qed.

Lemma repaired_wf h s : utf8_wf [] s = true -> repaired h s = s.
Proof. intros Hw. by apply repair_wf. Qed.

(** The byte behind a sequence that is given up is read from the start. *)
Lemma repair_again r acc pending c s :
  acc <> [] -> utf8_next pending (code c) = None -> repair r acc pending (c :: s) = r ++ repair r [] [] (c :: s).
Proof. intros Ha Hn. cbn [repair]. rewrite Hn, decide_False by done. done. Qed.

Lemma chars_value_app l1 l2 s1 s2 : chars_value l1 = Some s1 -> chars_value l2 = Some s2 -> chars_value (l1 ++ l2) = Some (s1 ++ s2).
Proof.
  revert s1. induction l1 as [|t l1 IH]; intros s1 H1 H2; [by injection H1 as <-|]. cbn [chars_value app] in *.
  apply bind_Some in H1 as (s & -> & H1). apply bind_Some in H1 as (s' & H1 & [= <-]). cbn [mbind option_bind]. rewrite (IH s') by done. cbn. by rewrite app_assoc.
Qed.

Lemma show_chars_app l1 l2 : show_chars (l1 ++ l2) = show_chars l1 ++ show_chars l2.
Proof. unfold show_chars. by rewrite map_app, concat_app. Qed.

Lemma replacement_chars_value h ea : chars_value (replacement_chars h ea) = Some (replaced_by h).
Proof. by destruct h, ea. Qed.
Lemma replacement_chars_ascii h : all_ascii (show_chars (replacement_chars h true)).
Proof. destruct h; cbn; by repeat constructor. Qed.

(** The loop inside a sequence: [acc] is read of it, [pending] to come, [buf] accepted. *)
Definition reading (ea : bool) (e : escape) (buf acc : bytes) (pending : list (Z * Z)) : Prop :=
  ser_ok (e_state e) (codepoint e) /\ state_pending (e_state e) = Some pending /\ partial acc pending /\ (acc <> [] -> codepoint e = seq_cp acc) /\
  undumped_chars e = length acc /\ e_buf e = buf ++ (if ea then [] else acc) /\ bytes_after_last_accept e = length buf /\ length buf <= 499.

Lemma reading_take ea e buf acc pending : reading ea e buf acc pending -> take (bytes_after_last_accept e) (e_buf e) = buf.
Proof. intros (_ & _ & _ & _ & _ & -> & -> & _). apply take_app_length. Qed.

Lemma ser_ok_accept cp : ser_ok UTF8_ACCEPT cp.
Proof. split_and!; [done|done|done|by left]. Qed.

(** A character, or the replacement, is complete. *)
Lemma reading_start ea out buf cp :
  length buf <= 512 -> exists buf', let '(o, b) := flush out buf in o ++ buf' = out ++ buf /\ reading ea (MkEscape o b (length b) 0 UTF8_ACCEPT cp) buf' [] [].
Proof.
  intros Hl. unfold flush, string_buffer_size. destruct (512 - length buf <? 13) eqn:Hf; [exists []|exists buf]; cbn [app];
    (split; [by rewrite ?app_nil_r|]); split_and!; try done; try apply ser_ok_accept; try (by destruct ea; rewrite ?app_nil_r); [cbn; lia|]. apply Nat.ltb_ge in Hf. lia.
Qed.

Lemma put_fits s n buf : length buf + length s + n <= 512 -> put s n buf = Done (buf ++ s).
Proof. intros Hl. unfold put, string_buffer_size. by rewrite (proj2 (Nat.leb_le _ _)). Qed.

Section strings.
  Context (h : error_handler_t) (ea : bool).

(** One byte. *)
Lemma escape_byte_spec i c e buf acc pending :
    reading ea e buf acc pending ->
    match utf8_next pending (code c) with
    | Some [] => exists e' buf' t, escape_byte h ea i c e = Done (false, e') /\ reading ea e' buf' [] [] /\ e_out e' ++ buf' = e_out e ++ buf ++ show_char t /\
        char_value t = Some (acc ++ [c]) /\ (ea = true -> all_ascii (show_char t))
    | Some p' => exists e', escape_byte h ea i c e = Done (false, e') /\ reading ea e' buf (acc ++ [c]) p' /\ e_out e' = e_out e
    | None =>
        if decide (h = error_handler.strict) then escape_byte h ea i c e = Fail (invalid_byte i c)
        else exists e' buf', escape_byte h ea i c e = Done ((0 <? length acc)%nat, e') /\ reading ea e' buf' [] [] /\
          e_out e' ++ buf' = e_out e ++ buf ++ show_chars (replacement_chars h ea)
    end.
Proof.
    intros Hread. pose proof (reading_take _ _ _ _ _ Hread) as Htake. destruct Hread as (Hok & Hp & Hpart & Hcp & Hund & Hbuf & Haft & Hlen).
    pose proof (partial_length _ _ Hpart) as Hacc. unfold escape_byte. destruct (utf8_next pending (code c)) as [p'|] eqn:Hn.
    - destruct (decode_seq _ _ _ _ _ _ Hok Hp Hpart Hcp Hn) as (state' & -> & Hok' & Hp'). pose proof (partial_next _ _ _ _ Hpart Hn) as Hpart'.
      pose proof (pending_accept _ _ (proj1 Hok') Hp') as Hst. destruct p' as [|r p'].
      + rewrite (proj2 Hst eq_refl). cbn [Z.eqb UTF8_ACCEPT]. destruct (put_codepoint_fits ea acc c buf Hpart' Hacc Hlen) as [Hput Hl512]. rewrite Hbuf, Hput. cbn [rbind].
        destruct (char_written ea acc c Hpart') as (t & Ht & Hv & Ha). rewrite <- app_assoc, <- Ht. rewrite <- Ht in Hl512.
        destruct (reading_start ea (e_out e) (buf ++ show_char t) (seq_cp (acc ++ [c]))) as (buf' & Hr); [done|].
        destruct (flush _ _) as [o b]. destruct Hr as [Ho Hr]. by exists (MkEscape o b (length b) 0 0 (seq_cp (acc ++ [c]))), buf', t.
      + rewrite (proj2 (Z.eqb_neq state' UTF8_ACCEPT)) by (intros Heq; by apply Hst in Heq).
        rewrite (proj2 (Z.eqb_neq state' UTF8_REJECT)) by (destruct Hok' as (_ & ? & _); done).
        assert ((if negb ea then put [c] 0 (e_buf e) else Done (e_buf e)) = Done (buf ++ if ea then [] else acc ++ [c])) as ->.
        { rewrite Hbuf. destruct ea; [done|]. cbn [negb]. rewrite put_fits; [by rewrite app_assoc|]. rewrite length_app. cbn. lia. }
        cbn [rbind]. eexists. split; [reflexivity|]. split; [|done]. split_and!; try done. cbn. rewrite Hund, length_app. cbn. lia.
    - pose proof (decode_spec _ _ c _ Hok Hp) as Hd. rewrite Hn in Hd. destruct (decode _ _ _) as [state' cp']. subst state'. change (UTF8_REJECT =? UTF8_ACCEPT)%Z with false.
      change (UTF8_REJECT =? UTF8_REJECT)%Z with true. cbv iota. rewrite Htake, Hund.
      assert (put (replacement ea) 0 buf = Done (buf ++ replacement ea)) as Hput by (apply put_fits; destruct ea; cbn; lia).
      destruct h; [done| |].
      + rewrite decide_False by done. rewrite decide_True, Hput by done. cbn [rbind].
        destruct (reading_start ea (e_out e) (buf ++ replacement ea) cp') as (buf' & Hr); [rewrite length_app; destruct ea; cbn; lia|].
        destruct (flush _ _) as [o b]. destruct Hr as [Ho Hr]. exists (MkEscape o b (length b) 0 UTF8_ACCEPT cp'), buf'. split_and!; [done|done|].
        cbn [e_out]. rewrite Ho. by destruct ea.
      + rewrite !decide_False by done. eexists _, buf. split; [reflexivity|]. split; [|cbn; by rewrite app_nil_r].
        split_and!; try done; [apply ser_ok_accept|cbn; by destruct ea; rewrite ?app_nil_r].
Qed.

(** The rest of the string, from inside a sequence: the loop writes what was accepted and
    characters for the rest, repaired; or, when it must not be, throws. *)
Lemma escape_loop_spec fuel s0 i s e buf acc pending :
    reading ea e buf acc pending -> 2 * length s + (if decide (acc = []) then 0 else 1) < fuel ->
    if bool_decide (h = error_handler.strict) && negb (utf8_wf pending s) then exists x, (let! e := escape_loop h ea fuel i s e in escape_end h ea s0 e) = Fail x /\ exn_id x = 316%Z
    else exists cs, (let! e := escape_loop h ea fuel i s e in escape_end h ea s0 e) = Done (e_out e ++ buf ++ show_chars cs) /\
      chars_value cs = Some (repair (replaced_by h) acc pending s) /\ (ea = true -> all_ascii (show_chars cs)).
Proof.
    revert i s e buf acc pending. induction fuel as [|fuel IH]; intros i s e buf acc pending Hread Hf; [lia|]. destruct s as [|c s]; cbn [escape_loop].
    - cbn [rbind repair utf8_wf]. pose proof (reading_take _ _ _ _ _ Hread) as Htake. destruct Hread as (Hok & Hp & Hpart & _ & _ & Hbuf & _).
      unfold escape_end. rewrite Htake. pose proof (pending_accept _ _ (proj1 Hok) Hp) as Hst. destruct pending as [|r pending].
      + rewrite (proj2 Hst eq_refl), andb_false_r. apply partial_nil in Hpart as ->. exists []. rewrite Hbuf. split_and!; [by destruct ea|done|constructor].
      + rewrite (proj2 (Z.eqb_neq (e_state e) UTF8_ACCEPT)) by (intros Heq; by apply Hst in Heq). rewrite andb_true_r.
        destruct (decide (acc = [])) as [->|Hacc]; [done|]. destruct h; cbn [decide]; [by eexists| |].
        * exists (replacement_chars error_handler.replace ea). split_and!; [by destruct ea|apply replacement_chars_value|intros ->; apply replacement_chars_ascii].
        * exists []. cbn. rewrite app_nil_r. split_and!; [done|done|constructor].
    - pose proof (escape_byte_spec i c e buf acc pending Hread) as Hstep. cbn [utf8_wf].
      destruct (utf8_next pending (code c)) as [[|r p']|] eqn:Hn.
      + destruct Hstep as (e' & buf' & t & -> & Hread' & Hout & Hv & Ha). cbn [rbind]. specialize (IH (S i) s e' buf' [] [] Hread' ltac:(repeat case_decide; cbn in *; (congruence || lia))).
        destruct (_ && _); [exact IH|]. destruct IH as (cs & -> & Hcs & Hascii). exists (t :: cs). split_and!.
        * change (show_chars (t :: cs)) with (show_char t ++ show_chars cs). by rewrite !app_assoc, <- (app_assoc (e_out e)), <- Hout.
        * cbn [chars_value repair]. rewrite Hn, Hv, Hcs. cbn. by rewrite <- app_assoc.
        * intros Hea. apply Forall_app. split; [by apply Ha|by apply Hascii].
      + destruct Hstep as (e' & -> & Hread' & Hout). cbn [rbind]. specialize (IH (S i) s e' buf (acc ++ [c]) (r :: p') Hread').
        destruct (_ && _) eqn:Hfail; cbn [repair]; rewrite ?Hn, ?Hout in *; apply IH; repeat case_decide; cbn in *; (congruence || lia).
      + destruct (decide (h = error_handler.strict)) as [->|Hh]; [rewrite Hstep; by eexists|].
        destruct Hstep as (e' & buf' & -> & Hread' & Hout). cbn [rbind andb].
        assert (exists cs, (let! e := (if (0 <? length acc)%nat then escape_loop h ea fuel i (c :: s) e' else escape_loop h ea fuel (S i) s e') in escape_end h ea s0 e) =
            Done (e_out e' ++ buf' ++ show_chars cs) /\
          chars_value cs = Some (repair (replaced_by h) [] [] (if decide (acc = []) then s else c :: s)) /\ (ea = true -> all_ascii (show_chars cs))) as (cs & -> & Hcs & Hascii).
        { destruct acc as [|a acc]; cbn [length Nat.ltb Nat.leb].
          - specialize (IH (S i) s e' buf' [] [] Hread' ltac:(repeat case_decide; cbn in *; (congruence || lia))). by rewrite bool_decide_false in IH by done.
          - specialize (IH i (c :: s) e' buf' [] [] Hread' ltac:(repeat case_decide; cbn in *; (congruence || lia))). by rewrite bool_decide_false in IH by done. }
        rewrite bool_decide_false by done. exists (replacement_chars h ea ++ cs). rewrite show_chars_app. split_and!.
        * by rewrite !app_assoc, <- (app_assoc (e_out e)), <- Hout.
        * assert (repair (replaced_by h) acc pending (c :: s) = replaced_by h ++ repair (replaced_by h) [] [] (if decide (acc = []) then s else c :: s)) as ->;
            [|by apply chars_value_app; [apply replacement_chars_value|]]. case_decide; [subst acc|by apply repair_again].
          cbn [repair]. by rewrite Hn, decide_True.
        * intros Hea. apply Forall_app. split; [|by apply Hascii]. subst ea. apply replacement_chars_ascii.
Qed.

Lemma escaped_text_spec s :
    if bool_decide (h = error_handler.strict) && negb (utf8_wf [] s) then exists x, escaped_text h ea s = Fail x /\ exn_id x = 316%Z
    else exists cs, escaped_text h ea s = Done (show_chars cs) /\ chars_value cs = Some (repaired h s) /\ (ea = true -> all_ascii (show_chars cs)).
Proof.
    apply (escape_loop_spec _ s 0 s (MkEscape [] [] 0 0 UTF8_ACCEPT 0) [] [] []); [|rewrite decide_True by done; lia].
    split_and!; try done; [apply ser_ok_accept|by destruct ea|cbn; lia].
Qed.
End strings.

(** ** The printing of [Json] *)

Definition ser_of (e : escape) : ser := Ser (e_out e) (e_buf e) (e_state e) (codepoint e).

Lemma put_done s n buf b : put s n buf = Done b -> b = buf ++ s.
Proof. unfold put. case_match; [|done]. congruence. Qed.
Lemma put_fail s n buf x : put s n buf <> Fail x.
Proof. unfold put. by case_match. Qed.

Lemma escape_byte_strict ea i c e :
  match escape_byte error_handler.strict ea i c e with
  | Done (again, e') => again = false /\ dump_step ea (ser_of e) c = Some (ser_of e')
  | Fail _ => dump_step ea (ser_of e) c = None
  | Stuck => True
  end.
Proof.
  unfold escape_byte, dump_step, ser_of. cbn [s_state s_cp s_out s_buf]. destruct (decode _ _ _) as [state cp]. destruct (state =? UTF8_ACCEPT)%Z.
  - unfold put_codepoint. destruct (put _ _ _) as [b|x|] eqn:Hp; cbn [rbind]; [|by apply put_fail in Hp|done]. apply put_done in Hp as ->.
    unfold flush. by destruct (_ <? _).
  - destruct (state =? UTF8_REJECT)%Z; [done|]. destruct ea; cbn [negb]; [done|]. destruct (put _ _ _) as [b|x|] eqn:Hp; cbn [rbind]; [|by apply put_fail in Hp|done].
    by apply put_done in Hp as ->.
Qed.

Lemma escape_loop_strict ea fuel i s e :
  match escape_loop error_handler.strict ea fuel i s e with
  | Done e' => dump_loop ea s (ser_of e) = Some (ser_of e')
  | Fail _ => dump_loop ea s (ser_of e) = None
  | Stuck => True
  end.
Proof.
  revert i s e. induction fuel as [|fuel IH]; intros i s e; [done|]. destruct s as [|c s]; cbn [escape_loop dump_loop]; [done|].
  pose proof (escape_byte_strict ea i c e) as Hb. destruct (escape_byte _ _ _ _ _) as [[again e']|x|]; cbn [rbind]; [|by rewrite Hb|done].
  destruct Hb as [-> ->]. apply IH.
Qed.

(** The same text, or a failure of both. *)
Lemma escaped_text_strict ea s :
  match escaped_text error_handler.strict ea s with
  | Done t => Json.dump_escaped ea s = Some t
  | Fail _ => Json.dump_escaped ea s = None
  | Stuck => False
  end.
Proof.
  pose proof (escaped_text_spec error_handler.strict ea s) as Hs. unfold escaped_text in *. unfold Json.dump_escaped.
  pose proof (escape_loop_strict ea (2 * length s + 1) 0 s (MkEscape [] [] 0 0 UTF8_ACCEPT 0)) as Hl.
  change (ser_of (MkEscape [] [] 0 0 UTF8_ACCEPT 0)) with (Ser [] [] UTF8_ACCEPT 0%Z) in Hl.
  destruct (escape_loop _ _ _ _ _ _) as [e|x|]; cbn [rbind] in *; rewrite ?Hl; cbn [mbind option_bind]; [|done|].
  - unfold escape_end, ser_of. cbn [s_state s_out s_buf]. by destruct (_ =? _)%Z.
  - by destruct (_ && _); [destruct Hs as (? & ? & _)|destruct Hs as (? & ? & _)].
Qed.
