(* ===== verification/SerializerTheory.v ===== *)
(** * Printing values: theorems

    What the serializer writes is a text of the grammar ([JsonText]), so the parser reads it
    back ([JsonComplete]): numbers through Grisu2 ([GrisuTheory]), strings by [EscapeTheory],
    indentation within its buffer up to 1024 characters a level, and no further. *)
From S2P Require Import Prelude CLib Json JsonLexer JsonParser JsonText JsonReading JsonComplete JsonValue BinaryFloat FloatTheory Grisu FloatRound GrisuTheory Serializer EscapeTheory.
From Stdlib Require Import SpecFloat.
Import serializer.

(** ** What a text means *)

(** The value in the text: strings repaired, no number for what is not finite, an object for
    binary data, and an integer that is not negative is unsigned. *)
Fixpoint printed (h : error_handler_t) (v : value) : value :=
  match v with
  | VNull | VBool _ => v
  | VInteger z | VUnsigned z => integer_value z
  | VFloat x => if isfinite x then v else VNull
  | VString s => VString (repaired h s)
  | VBinary b =>
      VObject [(B "bytes", VArray (map (fun c => VUnsigned (code c)) (bin_data b)));
               (B "subtype", match m_subtype b with Some z => VUnsigned z | None => VNull end)]
  | VArray l => VArray (map (printed h) l)
  | VObject l => VObject (foldl add_member [] (map (fun kv => (repaired h kv.1, printed h kv.2)) l))
  end.

(** The numbers of the C++ types. *)
Fixpoint representable (v : value) : bool :=
  match v with
  | VInteger z => (- 2 ^ 63 <=? z)%Z && (z <? 2 ^ 63)%Z
  | VUnsigned z => (0 <=? z)%Z && (z <? 2 ^ 64)%Z
  | VFloat x => valid_binary 53 1024 x
  | VBinary b => match m_subtype b with Some z => (0 <=? z)%Z && (z <? 2 ^ 64)%Z | None => true end
  | VArray l => forallb representable l
  | VObject l => forallb (fun kv => representable kv.2) l
  | _ => true
  end.

(** The strings that are printed without an exception. *)
Definition string_ok (h : error_handler_t) (s : bytes) : bool := negb (bool_decide (h = error_handler.strict) && negb (utf8_wf [] s)).
Fixpoint strings_ok (h : error_handler_t) (v : value) : bool :=
  match v with
  | VString s => string_ok h s
  | VArray l => forallb (strings_ok h) l
  | VObject l => forallb (fun kv => string_ok h kv.1 && strings_ok h kv.2) l
  | _ => true
  end.

(** The levels of indentation. *)
Fixpoint depth (v : value) : Z :=
  match v with
  | VBinary _ => 1
  | VArray l => 1 + foldr (fun v => Z.max (depth v)) 0 l
  | VObject l => 1 + foldr (fun kv => Z.max (depth kv.2)) 0 l
  | _ => 0
  end%Z.

Lemma foldr_max_le {A} (f : A -> Z) l x : x ∈ l -> (f x <= foldr (fun v => Z.max (f v)) 0 l)%Z.
Proof. induction 1 as [x l|x y l _ IH]; cbn; lia. Qed.

(** ** Steps of the serializer *)

(** [indent_string] is blank and long enough for the level. *)
Definition ready (cur : Z) (st : state) : Prop :=
  blanks (indent_string st) /\ (512 <= Z.of_nat (length (indent_string st)))%Z /\ (cur <= Z.of_nat (length (indent_string st)))%Z.

Lemma ready_le cur n st : ready n st -> (cur <= n)%Z -> ready cur st.
Proof. intros (Hb & H1 & H2) Hle. split_and!; [done|done|lia]. Qed.

Section printing.
  Context (h : error_handler_t) (ea : bool).

(** At the level [cur], [f] writes a text with [Q] when [ok], and throws when not. *)
Definition emits (ok : bool) (cur : Z) (f : state -> result state) (Q : bytes -> Prop) : Prop :=
    forall st, ready cur st ->
      if ok then exists st' t, f st = Done st' /\ o st' = o st ++ t /\ ready cur st' /\ Q t /\ (ea = true -> all_ascii t)
      else exists x, f st = Fail x /\ exn_id x = 316%Z.

Lemma emits_conv ok ok' cur f (Q Q' : bytes -> Prop) : emits ok' cur f Q' -> ok = ok' -> (forall t, Q' t -> Q t) -> emits ok cur f Q.
Proof. intros Hf -> HQ st Hst. specialize (Hf st Hst). destruct ok'; [|done]. destruct Hf as (st' & t & ? & ? & ? & ? & ?). exists st', t. split_and!; auto. Qed.

Lemma emits_write cur s : all_ascii s -> emits true cur (write s) (eq s).
Proof. intros Ha st Hst. exists (MkState (o st ++ s) (indent_string st)), s. by split_and!. Qed.

Lemma emits_seq ok1 ok2 cur f g Q1 Q2 :
    emits ok1 cur f Q1 -> emits ok2 cur g Q2 -> emits (ok1 && ok2) cur (f;;; g) (fun t => exists t1 t2, t = t1 ++ t2 /\ Q1 t1 /\ Q2 t2).
Proof.
    intros Hf Hg st Hst. unfold seq_of. specialize (Hf st Hst). destruct ok1; cbn [andb]; [|destruct Hf as (x & -> & Hx); by exists x].
    destruct Hf as (st1 & t1 & -> & Ho1 & Hr1 & HQ1 & Ha1). cbn [rbind]. specialize (Hg st1 Hr1). destruct ok2; [|done].
    destruct Hg as (st2 & t2 & -> & Ho2 & Hr2 & HQ2 & Ha2). exists st2, (t1 ++ t2). split_and!; [done|by rewrite Ho2, Ho1, app_assoc|done|eauto|].
    intros Hea. apply Forall_app. split; [by apply Ha1|by apply Ha2].
Qed.

(** With a fixed text before or behind. *)
Lemma emits_before ok cur s f Q : all_ascii s -> emits ok cur f Q -> emits ok cur (write s;;; f) (fun t => exists t', t = s ++ t' /\ Q t').
Proof.
    intros Hs Hf. eapply emits_conv; [exact (emits_seq _ _ _ _ _ _ _ (emits_write cur s Hs) Hf)|done|]. intros t (t1 & t2 & -> & <- & ?). eauto.
Qed.
Lemma emits_behind ok cur s f Q : all_ascii s -> emits ok cur f Q -> emits ok cur (f;;; write s) (fun t => exists t', t = t' ++ s /\ Q t').
Proof.
    intros Hs Hf. eapply emits_conv; [exact (emits_seq _ _ _ _ _ _ _ Hf (emits_write cur s Hs))|by rewrite andb_true_r|]. intros t (t1 & t2 & -> & ? & <-). eauto.
Qed.

Lemma blanks_ascii w : blanks w -> all_ascii w.
Proof. intros Hw. eapply Forall_impl; [exact Hw|]. intros c. unfold blank. cbn. intros Hc. rewrite orb_false_r in Hc. to_prop. lia. Qed.

Lemma emits_indent cur n : (0 <= n <= cur)%Z -> emits true cur (write_indent n) (fun t => blanks t).
Proof.
    intros Hn st (Hb & H1 & H2). unfold write_indent. rewrite length_app. rewrite (proj2 (Z.leb_le _ _)) by (cbn; lia).
    assert (blanks (take (Z.to_nat n) (indent_string st ++ [NUL]))) as Ht by (rewrite take_app_le by lia; by apply Forall_take).
    eexists _, _. split; [reflexivity|]. split_and!; try done. intros _. by apply blanks_ascii.
Qed.

(** The next level: the buffer is doubled when it is too short, which is enough. *)
Lemma emits_grow ok cur n f Q : (cur <= n)%Z -> (n <= Z.max 1024 (2 * cur))%Z -> emits ok n f Q -> emits ok cur (grow n;;; f) Q.
Proof.
    intros Hle Hn Hf st (Hb & H1 & H2). unfold seq_of. assert (exists st1, grow n st = Done st1 /\ o st1 = o st /\ ready n st1) as (st1 & -> & Ho & Hr).
    { unfold grow. destruct (_ <? n)%Z eqn:Hlt; to_prop; eexists; (split; [reflexivity|]); (split; [done|]); [|by split_and!].
      split_and!; cbn; rewrite ?length_app, ?length_replicate; [|lia|lia]. apply Forall_app. split; [done|]. by apply Forall_replicate. }
    cbn [rbind]. specialize (Hf st1 Hr). destruct ok; [|done]. destruct Hf as (st' & t & ? & ? & ? & ? & ?). exists st', t.
    split_and!; [done|congruence|by eapply ready_le|done|done].
Qed.

(** ** Strings and numbers *)

Lemma emits_escaped cur s : emits (string_ok h s) cur (dump_escaped h ea s) (fun t => exists cs, t = show_chars cs /\ chars_value cs = Some (repaired h s)).
Proof.
    intros st Hst. pose proof (escaped_text_spec h ea s) as Hs. unfold string_ok, dump_escaped. destruct (_ && _); cbn [negb].
    - destruct Hs as (x & -> & Hx). by exists x.
    - destruct Hs as (cs & -> & Hv & Ha). exists (MkState (o st ++ show_chars cs) (indent_string st)), (show_chars cs). split_and!; eauto.
Qed.

(** [t] is a text of [v]. *)
Definition text_of (v : value) (t : bytes) : Prop := exists d, doc_ok d /\ doc_value d = Some v /\ show_doc d = t.

Lemma text_of_number n v : number_ok n -> number_value n = Some v -> text_of v (show_number n).
Proof. intros Hok Hv. exists (DNumber n). split_and!; [by constructor|done|done]. Qed.

Lemma text_of_null : text_of VNull (B "null").
Proof. exists DNull. by split_and!; [constructor|..]. Qed.

Lemma show_number_ascii n : number_ok n -> all_ascii (show_number n).
Proof.
    assert (forall ds, digits ds -> all_ascii ds) as Hd.
    { intros ds [_ Hd]. eapply Forall_impl; [exact Hd|]. intros c Hc. unfold isdigit in Hc. cbn in Hc. to_prop. lia. }
    intros (Hi & _ & Hf & He). unfold show_number, all_ascii. rewrite !Forall_app. split_and!.
    - destruct (nt_minus n); by repeat constructor.
    - by apply Hd.
    - destruct (nt_frac n) as [ds|]; [|by constructor]. constructor; [done|]. by apply Hd, Hf.
    - destruct (nt_exp n) as [[[c sign] ds]|]; [|by constructor]. destruct (He _ _ _ eq_refl) as (Hc & Hs & Hds). rewrite !elem_of_cons, elem_of_nil in Hc. rewrite !elem_of_cons, elem_of_nil in Hs.
      constructor; [by destruct Hc as [-> |[-> |[]]]|]. apply Forall_app. split; [by destruct Hs as [-> |[-> |[-> |[]]]]; repeat constructor|by apply Hd].
Qed.

Lemma emits_integer cur z : (- 2 ^ 63 <= z < 2 ^ 64)%Z -> emits true cur (dump_integer z) (text_of (integer_value z)).
Proof.
    intros Hz st Hst. unfold dump_integer. rewrite dump_integer_dec, <- show_integer by done. eexists _, _. split; [reflexivity|].
    split_and!; try done; try (by apply Hst); [by apply text_of_number; [apply integer_text_ok|apply integer_text_value]|].
    intros _. by apply show_number_ascii, integer_text_ok.
Qed.

Lemma emits_float cur x : valid_binary 53 1024 x = true -> emits true cur (dump_float x) (text_of (if isfinite x then VFloat x else VNull)).
Proof.
    intros Hx. unfold dump_float. destruct (isfinite x) eqn:Hf; cbn [negb].
    - destruct (to_chars_spec x Hx Hf) as (n & -> & Hok & Hi & _ & Hs). eapply emits_conv; [apply emits_write; by apply show_number_ascii|done|].
      intros t <-. apply text_of_number; [done|]. unfold number_value. rewrite Hi. unfold float_value. by rewrite Hs, Hf.
    - eapply emits_conv; [apply emits_write; by repeat constructor|done|]. intros t <-. apply text_of_null.
Qed.

(** ** Lists of values *)

Definition element_ok (e : element doc) : Prop := blanks (e_before e) /\ blanks (e_after e) /\ doc_ok (e_doc e).
Definition member_ok (m : member doc) : Prop :=
    blanks (m_before m) /\ blanks (m_after m) /\ blanks (e_before (m_element m)) /\ blanks (e_after (m_element m)) /\ doc_ok (e_doc (m_element m)).

(** Between white space, [t] is the text of the elements, or of the members, of a container. *)
Definition text_of_elements (vs : list value) (t : bytes) : Prop :=
    forall pre post, blanks pre -> blanks post ->
      exists es, es <> [] /\ pre ++ t ++ post = commas (map show_element es) /\ Forall element_ok es /\ mapM (fun e => doc_value (e_doc e)) es = Some vs.
Definition text_of_members (kvs : list (bytes * value)) (t : bytes) : Prop :=
    forall pre post, blanks pre -> blanks post ->
      exists ms, ms <> [] /\ pre ++ t ++ post = commas (map show_member ms) /\ Forall member_ok ms /\ mapM member_value ms = Some kvs.

Lemma elements_one w t v : blanks w -> text_of v t -> text_of_elements [v] (w ++ t).
Proof.
    intros Hw (d & Hok & Hv & <-) pre post Hpre Hpost. exists [MkElement (pre ++ w) d post]. split_and!; [done| | |].
    - cbn. unfold show_element. cbn. by rewrite <- !app_assoc.
    - constructor; [|done]. split_and!; [by apply Forall_app|done|done].
    - cbn. by rewrite Hv.
Qed.

Lemma elements_cons w sep t v vs ts : blanks w -> blanks sep -> text_of v t -> text_of_elements vs ts -> text_of_elements (v :: vs) (w ++ t ++ B "," ++ sep ++ ts).
Proof.
    intros Hw Hsep (d & Hok & Hv & <-) Hts pre post Hpre Hpost. destruct (Hts sep post Hsep Hpost) as (es & Hne & Heq & Hes & Hvs).
    exists (MkElement (pre ++ w) d [] :: es). split_and!; [done| | |].
    - cbn [map]. destruct es as [|e es]; [done|]. cbn [map commas] in *. rewrite <- Heq. unfold show_element at 1. cbn [e_before e_doc e_after].
      rewrite app_nil_r, <- !app_assoc. done.
    - constructor; [|done]. split_and!; [by apply Forall_app|done|done].
    - cbn [mapM mbind option_bind e_doc]. rewrite Hv. cbn [mbind option_bind]. by rewrite Hvs.
Qed.

(** The key and what follows it. *)
Definition text_of_key (k : bytes) (t : bytes) : Prop :=
    exists w cs sp, t = w ++ DQUOTE :: show_chars cs ++ DQUOTE :: B ":" ++ sp /\ blanks w /\ blanks sp /\ chars_value cs = Some k.

Lemma member_value_of w cs w' sp d w2 k v :
    chars_value cs = Some k -> doc_value d = Some v -> member_value (MkMember w cs w' (MkElement sp d w2)) = Some (k, v).
Proof. intros Hk Hv. unfold member_value. cbn [m_key m_element e_doc]. rewrite Hk. cbn [mbind option_bind]. by rewrite Hv. Qed.

Lemma members_one k v tk t : text_of_key k tk -> text_of v t -> text_of_members [(k, v)] (tk ++ t).
Proof.
    intros (w & cs & sp & -> & Hw & Hsp & Hk) (d & Hok & Hv & <-) pre post Hpre Hpost. exists [MkMember (pre ++ w) cs [] (MkElement sp d post)]. split_and!; [done| | |].
    - cbn. unfold show_member, show_element. cbn. rewrite <- !app_assoc. cbn. by rewrite <- !app_assoc.
    - constructor; [|done]. split_and!; [by apply Forall_app|done..].
    - cbn [mapM mbind option_bind]. by rewrite (member_value_of _ _ _ _ _ _ _ _ Hk Hv).
Qed.

Lemma members_cons k v tk t sep kvs ts :
    blanks sep -> text_of_key k tk -> text_of v t -> text_of_members kvs ts -> text_of_members ((k, v) :: kvs) (tk ++ t ++ B "," ++ sep ++ ts).
Proof.
    intros Hsep (w & cs & sp & -> & Hw & Hsp & Hk) (d & Hok & Hv & <-) Hts pre post Hpre Hpost. destruct (Hts sep post Hsep Hpost) as (ms & Hne & Heq & Hms & Hvs).
    exists (MkMember (pre ++ w) cs [] (MkElement sp d []) :: ms). split_and!; [done| | |].
    - cbn [map]. destruct ms as [|m ms]; [done|]. cbn [map commas] in *. rewrite <- Heq. unfold show_member at 1, show_element at 1. cbn [m_before m_key m_after m_element e_before e_doc e_after].
      rewrite <- !app_assoc. cbn. rewrite <- !app_assoc. done.
    - constructor; [|done]. split_and!; [by apply Forall_app|done..].
    - cbn [mapM mbind option_bind]. rewrite (member_value_of _ _ _ _ _ _ _ _ Hk Hv). cbn [mbind option_bind]. by rewrite Hvs.
Qed.

Lemma text_of_array vs t pre post : text_of_elements vs t -> blanks pre -> blanks post -> text_of (VArray vs) (B "[" ++ pre ++ t ++ post ++ B "]").
Proof.
    intros Ht Hpre Hpost. destruct (Ht pre post Hpre Hpost) as (es & Hne & Heq & Hes & Hvs). exists (DArray [] es). split_and!; [by constructor|cbn; by rewrite Hvs|].
    assert (show_doc (DArray [] es) = B "[" ++ commas (map show_element es) ++ B "]") as -> by (by destruct es). by rewrite <- Heq, <- !app_assoc.
Qed.

Lemma text_of_object kvs t pre post : text_of_members kvs t -> blanks pre -> blanks post -> text_of (VObject (foldl add_member [] kvs)) (B "{" ++ pre ++ t ++ post ++ B "}").
Proof.
    intros Ht Hpre Hpost. destruct (Ht pre post Hpre Hpost) as (ms & Hne & Heq & Hms & Hvs). exists (DObject [] ms). split_and!; [by constructor| |].
    - cbn [doc_value]. change (mapM _ ms) with (mapM member_value ms). by rewrite Hvs.
    - assert (show_doc (DObject [] ms) = B "{" ++ commas (map show_member ms) ++ B "}") as -> by (by destruct ms). by rewrite <- Heq, <- !app_assoc.
Qed.

Lemma text_of_empty_array : text_of (VArray []) (B "[]").
Proof. exists (DArray [] []). by split_and!; [constructor|..]. Qed.
Lemma text_of_empty_object : text_of (VObject []) (B "{}").
Proof. exists (DObject [] []). by split_and!; [constructor|..]. Qed.

(** ** Values *)

Section layout.
  Context (pretty_print : bool) (indent_step : Z).

Lemma emits_key n cur k : (0 <= n <= cur)%Z -> emits (string_ok h k) cur (dump_key h ea pretty_print n k) (text_of_key (repaired h k)).
Proof.
    intros Hn. unfold dump_key.
    assert (forall sp, blanks sp -> emits (string_ok h k) cur (write [DQUOTE];;; dump_escaped h ea k;;; write (DQUOTE :: B ":" ++ sp)) (text_of_key (repaired h k))) as Hk.
    { intros sp Hsp. assert (all_ascii (DQUOTE :: B ":" ++ sp)) as Ha by (apply (Forall_app_2 _ [DQUOTE; ":"%char]); [by repeat constructor|by apply blanks_ascii]).
      eapply emits_conv; [apply emits_before; [by repeat constructor|apply emits_behind; [exact Ha|apply emits_escaped]]|done|].
      intros t (t' & -> & t2 & -> & cs & -> & Hv). exists [], cs, sp. by split_and!. }
    destruct pretty_print; [|by apply (Hk [])]. eapply emits_conv; [apply emits_seq; [by apply emits_indent|by apply (Hk (B " ")); repeat constructor]|done|].
    intros t (w & t' & -> & Hw & (w' & cs & sp & -> & Hw' & Hsp & Hv)). exists (w ++ w'), cs, sp. split_and!; [by rewrite <- app_assoc|by apply Forall_app|done|done].
Qed.

(** The white space before an element. *)
Lemma emits_element n cur ok g Q :
    (0 <= n <= cur)%Z -> emits ok cur g Q -> emits ok cur (if pretty_print then write_indent n;;; g else g) (fun t => exists w t', t = w ++ t' /\ blanks w /\ Q t').
Proof.
    intros Hn Hg. destruct pretty_print.
    - eapply emits_conv; [apply emits_seq; [by apply emits_indent|exact Hg]|done|]. intros t (w & t' & -> & Hw & HQ). by exists w, t'.
    - eapply emits_conv; [exact Hg|done|]. intros t HQ. by exists [], t.
Qed.

Lemma separator_ascii : all_ascii (if pretty_print then B "," ++ [LF] else B ",").
Proof. destruct pretty_print; by repeat constructor. Qed.
Lemma separator_blank : exists sep, (if pretty_print then B "," ++ [LF] else B ",") = B "," ++ sep /\ blanks sep.
Proof. destruct pretty_print; [exists [LF]|exists []]; (split; [done|by repeat constructor]). Qed.

Lemma dump_elements_cons n f v v2 l :
    dump_elements pretty_print n f (v :: v2 :: l) =
    (let g := f v;;; write (if pretty_print then B "," ++ [LF] else B ",");;; dump_elements pretty_print n f (v2 :: l) in if pretty_print then write_indent n;;; g else g).
Proof. by destruct pretty_print. Qed.

Lemma emits_elements n cur f l :
    l <> [] -> (0 <= n <= cur)%Z -> Forall (fun v => emits (strings_ok h v) cur (f v) (text_of (printed h v))) l ->
    emits (forallb (strings_ok h) l) cur (dump_elements pretty_print n f l) (text_of_elements (map (printed h) l)).
Proof.
    intros Hne Hn Hl. induction Hl as [|v l Hv Hl IH]; [done|]. destruct l as [|v2 l].
    - cbn [dump_elements map forallb]. eapply emits_conv; [by apply emits_element|by rewrite andb_true_r|]. intros t (w & t' & -> & Hw & Ht). by apply elements_one.
    - rewrite dump_elements_cons. cbv zeta. eapply emits_conv.
      + apply emits_element; [done|]. apply emits_seq; [exact Hv|]. apply emits_before; [apply separator_ascii|by apply IH].
      + done.
      + intros t (w & t' & -> & Hw & t1 & t2 & -> & Ht1 & t3 & -> & Ht3). destruct separator_blank as (sep & -> & Hsep). rewrite <- app_assoc. by apply elements_cons.
Qed.

Lemma emits_members n cur f l :
    l <> [] -> (0 <= n <= cur)%Z -> Forall (fun kv => emits (strings_ok h kv.2) cur (f kv.2) (text_of (printed h kv.2))) l ->
    emits (forallb (fun kv => string_ok h kv.1 && strings_ok h kv.2) l) cur (dump_members h ea pretty_print n f l)
      (text_of_members (map (fun kv => (repaired h kv.1, printed h kv.2)) l)).
Proof.
    intros Hne Hn Hl. induction Hl as [|[k v] l Hv Hl IH]; [done|]. destruct l as [|kv2 l].
    - cbn [dump_members map forallb fst snd]. eapply emits_conv; [by apply emits_seq; [apply emits_key|exact Hv]|by rewrite andb_true_r|].
      intros t (tk & t' & -> & Hk & Ht). by apply members_one.
    - cbn [dump_members]. eapply emits_conv.
      + apply emits_seq; [by apply emits_key|]. apply emits_seq; [exact Hv|]. apply emits_before; [apply separator_ascii|by apply IH].
      + cbn [forallb fst snd]. by rewrite <- !andb_assoc.
      + intros t (tk & t' & -> & Hk & t1 & t2 & -> & Ht1 & t3 & -> & Ht3). destruct separator_blank as (sep & -> & Hsep). rewrite <- app_assoc.
        by apply members_cons.
Qed.

(** The bytes of binary data. *)
Lemma emits_bytes cur l :
    emits true cur (dump_bytes pretty_print l) (fun t => if decide (l = []) then t = [] else text_of_elements (map (fun c => VUnsigned (code c)) l) t).
Proof.
    assert (forall c, emits true cur (dump_integer (code c)) (text_of (VUnsigned (code c)))) as Hc.
    { intros c. pose proof (code_range c). assert (VUnsigned (code c) = integer_value (code c)) as -> by (unfold integer_value; by rewrite (proj2 (Z.ltb_ge _ 0)) by lia).
      apply emits_integer. lia. }
    induction l as [|c l IH]; [intros st Hst; exists st, []; split_and!; try done; [by rewrite app_nil_r|constructor]|]. destruct l as [|c2 l].
    - eapply emits_conv; [apply Hc|done|]. intros t Ht. rewrite decide_False by done. by apply (elements_one []).
    - cbn [dump_bytes]. eapply emits_conv; [apply emits_seq; [apply Hc|]; apply emits_before; [destruct pretty_print; by repeat constructor|exact IH]|done|].
      intros t (t1 & t2 & -> & Ht1 & t3 & -> & Ht3). assert (exists sep, (if pretty_print then B ", " else B ",") = B "," ++ sep /\ blanks sep) as (sep & -> & Hsep)
        by (destruct pretty_print; [exists (B " ")|exists []]; (split; [done|by repeat constructor])).
      rewrite decide_False in Ht3 by done. rewrite decide_False by done. rewrite <- app_assoc. by apply (elements_cons []).
Qed.

Lemma emits_subtype cur b : representable (VBinary b) = true -> emits true cur (dump_subtype b) (text_of (match m_subtype b with Some z => VUnsigned z | None => VNull end)).
Proof.
    cbn [representable]. unfold dump_subtype. destruct (m_subtype b) as [z|]; intros Hz.
    - to_prop. assert (VUnsigned z = integer_value z) as -> by (unfold integer_value; by rewrite (proj2 (Z.ltb_ge _ 0)) by lia). apply emits_integer. lia.
    - eapply emits_conv; [apply emits_write; by repeat constructor|done|]. intros t <-. apply text_of_null.
Qed.

(** The object of binary data: the parts between its texts. *)
Lemma binary_text b w1 w2 w3 w4 sp tb ts :
    blanks w1 -> blanks w2 -> blanks w3 -> blanks sp ->
    (if decide (bin_data b = []) then tb = [] else text_of_elements (map (fun c => VUnsigned (code c)) (bin_data b)) tb) ->
    text_of (match m_subtype b with Some z => VUnsigned z | None => VNull end) ts -> w4 = w3 ++ B "}" ->
    text_of (printed h (VBinary b)) (B "{" ++ w1 ++ quoted (B "bytes") ++ B ":" ++ sp ++ B "[" ++ tb ++ B "]," ++ w2 ++ quoted (B "subtype") ++ B ":" ++ sp ++ ts ++ w4).
Proof.
    intros Hw1 Hw2 Hw3 Hsp Htb Hts ->. assert (text_of (VArray (map (fun c => VUnsigned (code c)) (bin_data b))) (B "[" ++ tb ++ B "]")) as Harr.
    { case_decide as Hd; [rewrite Hd; subst tb; apply text_of_empty_array|]. by apply (text_of_array _ tb [] []). }
    assert (forall s, chars_value (map TPlain s) = Some s -> text_of_key s (quoted s ++ B ":" ++ sp)) as Hkey.
    { intros s Hs. exists [], (map TPlain s), sp. split_and!; [|done|done|done]. unfold quoted. cbn [app]. rewrite <- app_assoc.
      assert (show_chars (map TPlain s) = s) as -> by (unfold show_chars; clear; induction s as [|c s IH]; cbn in *; congruence). done. }
    pose proof (members_cons _ _ _ _ w2 _ _ Hw2 (Hkey (B "bytes") eq_refl) Harr (members_one _ _ _ _ (Hkey (B "subtype") eq_refl) Hts)) as Hms.
    pose proof (text_of_object _ _ w1 w3 Hms Hw1 Hw3) as Ho. cbn [foldl] in Ho. unfold add_member in Ho. cbn [fst snd object_at] in Ho.
    rewrite <- !app_assoc in Ho. exact Ho.
Qed.

(** ** Levels *)

Context (Hstep : (0 <= indent_step <= 1024)%Z).

(** The level [cur] is 0 or at least a step, and [d] more fit into 32 bits. *)
Definition level (cur d : Z) : Prop := (0 <= cur)%Z /\ (cur = 0 \/ indent_step <= cur)%Z /\ (cur + indent_step * d < 2 ^ 32)%Z.

Lemma next_level cur d :
    level cur (1 + d) -> (0 <= d)%Z -> new_indent indent_step cur = (cur + indent_step)%Z /\ level (cur + indent_step) d /\ (cur <= cur + indent_step <= Z.max 1024 (2 * cur))%Z.
Proof.
    intros (H0 & Hc & Hlt) Hd. assert (0 <= indent_step * d)%Z by (apply Z.mul_nonneg_nonneg; lia). unfold new_indent, u32, wrapu, level. rewrite Z.mod_small by lia. split_and!; lia.
Qed.

Lemma level_le cur d d' : level cur d' -> (d <= d')%Z -> level cur d.
Proof. intros (H0 & Hc & Hlt) Hd. split_and!; [done|done|]. pose proof (Z.mul_le_mono_nonneg_l d d' indent_step ltac:(lia) Hd). lia. Qed.

(** The parts of a container with [n] for the next level, and its end. *)
Lemma emits_container ok cur f Q lpar rpar :
    (0 <= cur)%Z -> (cur <= cur + indent_step <= Z.max 1024 (2 * cur))%Z -> all_ascii lpar -> all_ascii rpar -> emits ok (cur + indent_step) f Q ->
    emits ok cur (write (lpar ++ [LF]);;; grow (cur + indent_step);;; f;;; write [LF];;; write_indent cur;;; write rpar)
      (fun t => exists w t', t = lpar ++ [LF] ++ t' ++ (LF :: w) ++ rpar /\ blanks w /\ Q t').
Proof.
    intros H0 Hn Hl Hr Hf. eapply emits_conv.
    - apply emits_before; [by apply Forall_app; split; [|by repeat constructor]|]. eapply emits_grow; [apply Hn..|]. apply emits_seq; [exact Hf|].
      apply emits_before; [by repeat constructor|]. apply emits_behind; [exact Hr|]. apply emits_indent. lia.
    - by rewrite andb_true_r.
    - intros t (t0 & -> & t1 & t2 & -> & HQ & t3 & -> & t4 & -> & Hw). exists t4, t1. split_and!; [by rewrite <- !app_assoc|done|done].
Qed.

Lemma emits_binary cur b :
    representable (VBinary b) = true -> level cur 1 -> emits true cur (dump_binary pretty_print indent_step b cur) (text_of (printed h (VBinary b))).
Proof.
    intros Hb Hlev. destruct (next_level cur 0 Hlev ltac:(done)) as (Hn & (Hpos & _) & Hle). destruct Hlev as (H0 & _). unfold dump_binary.
    pose proof (fun n => emits_bytes n (bin_data b)) as Hbytes. revert Hbytes. destruct pretty_print; intros Hbytes.
    - cbv zeta. rewrite Hn. eapply emits_conv.
      + apply emits_before; [by repeat constructor|]. eapply emits_grow; [apply Hle..|]. apply emits_seq; [apply emits_indent; lia|].
        apply emits_before; [by repeat constructor|]. apply emits_seq; [apply Hbytes|]. apply emits_before; [by repeat constructor|].
        apply emits_seq; [apply emits_indent; lia|]. apply emits_before; [by repeat constructor|]. apply emits_seq; [by apply emits_subtype|].
        apply emits_before; [by repeat constructor|]. apply emits_behind; [by repeat constructor|]. apply emits_indent. lia.
      + done.
      + intros t (t1 & -> & w1 & t2 & -> & Hw1 & t3 & -> & tb & t4 & -> & Htb & t5 & -> & w2 & t6 & -> & Hw2 & t7 & -> & ts & t8 & -> & Hts & t9 & -> & w3 & -> & Hw3).
        pose proof (binary_text b (LF :: w1) (LF :: w2) (LF :: w3) _ (B " ") tb ts ltac:(by constructor) ltac:(by constructor) ltac:(by constructor) ltac:(by repeat constructor) Htb Hts eq_refl) as Ht.
        exact Ht.
    - eapply emits_conv.
      + apply emits_before; [by repeat constructor|]. apply emits_seq; [apply Hbytes|]. apply emits_before; [by repeat constructor|].
        apply emits_behind; [by repeat constructor|by apply emits_subtype].
      + done.
      + intros t (t1 & -> & tb & t2 & -> & Htb & t3 & -> & ts & -> & Hts).
        exact (binary_text b [] [] [] _ [] tb ts ltac:(done) ltac:(done) ltac:(done) ltac:(done) Htb Hts eq_refl).
Qed.

Abbreviation dumps v cur := (emits (strings_ok h v) cur (dump h ea pretty_print indent_step v cur) (text_of (printed h v))).

Lemma emits_array l :
    Forall (fun v => representable v = true -> forall cur, level cur (depth v) -> dumps v cur) l ->
    representable (VArray l) = true -> forall cur, level cur (depth (VArray l)) -> dumps (VArray l) cur.
Proof.
    intros Hl Hr cur Hlev. cbn [depth] in Hlev. set (d := foldr _ 0%Z l) in Hlev. assert (0 <= d)%Z as Hd by (unfold d; clear; induction l; cbn; lia).
    assert (forall n, level n d -> Forall (fun v => dumps v n) l) as Hall.
    { intros n Hn. cbn [representable] in Hr. rewrite forallb_forall in Hr. rewrite Forall_forall in Hl |- *. intros v Hv.
      apply Hl; [done|by apply Hr, list_elem_of_In|]. eapply level_le; [exact Hn|]. by apply (foldr_max_le depth). }
    destruct l as [|v l]; [eapply emits_conv; [apply emits_write; by repeat constructor|done|]; intros t <-; apply text_of_empty_array|].
    destruct (next_level cur d Hlev Hd) as (Hn & Hlev' & Hle). pose proof (emits_elements 0 cur (fun v => dump h ea pretty_print indent_step v cur) (v :: l) ltac:(done)) as Hflat.
    pose proof (emits_elements (cur + indent_step) (cur + indent_step) (fun v => dump h ea pretty_print indent_step v (cur + indent_step)%Z) (v :: l) ltac:(done)) as Hdeep.
    pose proof (level_le cur d (1 + d) Hlev ltac:(lia)) as Hsame. pose proof (proj1 Hlev) as H0. pose proof (proj1 Hlev') as H0'.
    specialize (Hflat ltac:(lia) (Hall cur Hsame)). specialize (Hdeep ltac:(lia) (Hall _ Hlev')).
    cbn [dump]. clear Hall Hl. revert Hflat Hdeep. destruct pretty_print; intros Hflat Hdeep.
    - cbv zeta. rewrite Hn. eapply emits_conv; [apply emits_container; [done|done|by repeat constructor|by repeat constructor|exact Hdeep]|done|].
      intros t (w & t' & -> & Hw & Ht). apply (text_of_array _ t' [LF] (LF :: w)); [done|by constructor|by constructor].
    - eapply emits_conv; [apply emits_before; [by repeat constructor|apply emits_behind; [by repeat constructor|exact Hflat]]|done|].
      intros t (t1 & -> & t2 & -> & Ht). by apply (text_of_array _ t2 [] []).
Qed.

Lemma emits_object l :
    Forall (fun kv => representable kv.2 = true -> forall cur, level cur (depth kv.2) -> dumps kv.2 cur) l ->
    representable (VObject l) = true -> forall cur, level cur (depth (VObject l)) -> dumps (VObject l) cur.
Proof.
    intros Hl Hr cur Hlev. cbn [depth] in Hlev. set (d := foldr _ 0%Z l) in Hlev. assert (0 <= d)%Z as Hd by (unfold d; clear; induction l; cbn; lia).
    assert (forall n, level n d -> Forall (fun kv => dumps kv.2 n) l) as Hall.
    { intros n Hn. cbn [representable] in Hr. rewrite forallb_forall in Hr. rewrite Forall_forall in Hl |- *. intros kv Hv.
      apply Hl; [done|by apply Hr, list_elem_of_In|]. eapply level_le; [exact Hn|]. by apply (foldr_max_le (fun kv => depth kv.2)). }
    destruct l as [|kv l]; [eapply emits_conv; [apply emits_write; by repeat constructor|done|]; intros t <-; apply text_of_empty_object|].
    destruct (next_level cur d Hlev Hd) as (Hn & Hlev' & Hle). pose proof (emits_members 0 cur (fun v => dump h ea pretty_print indent_step v cur) (kv :: l) ltac:(done)) as Hflat.
    pose proof (emits_members (cur + indent_step) (cur + indent_step) (fun v => dump h ea pretty_print indent_step v (cur + indent_step)%Z) (kv :: l) ltac:(done)) as Hdeep.
    pose proof (level_le cur d (1 + d) Hlev ltac:(lia)) as Hsame. pose proof (proj1 Hlev) as H0. pose proof (proj1 Hlev') as H0'.
    specialize (Hflat ltac:(lia) (Hall cur Hsame)). specialize (Hdeep ltac:(lia) (Hall _ Hlev')).
    cbn [dump]. clear Hall Hl. revert Hflat Hdeep. destruct pretty_print; intros Hflat Hdeep.
    - cbv zeta. rewrite Hn. eapply emits_conv; [apply emits_container; [done|done|by repeat constructor|by repeat constructor|exact Hdeep]|done|].
      intros t (w & t' & -> & Hw & Ht). apply (text_of_object _ t' [LF] (LF :: w)); [done|by constructor|by constructor].
    - eapply emits_conv; [apply emits_before; [by repeat constructor|apply emits_behind; [by repeat constructor|exact Hflat]]|done|].
      intros t (t1 & -> & t2 & -> & Ht). by apply (text_of_object _ t2 [] []).
Qed.

Lemma emits_value v : representable v = true -> forall cur, level cur (depth v) -> dumps v cur.
Proof.
    induction v as [v Hp|l Hl|l Hl] using value_induction; [|by apply emits_array|by apply emits_object].
    intros Hr cur Hlev. destruct v as [|b|z|z|x|s|b|l|l]; try done; cbn [dump strings_ok printed] in *.
    - eapply emits_conv; [apply emits_write; by repeat constructor|done|]. intros t <-. apply text_of_null.
    - eapply emits_conv; [apply emits_write; by destruct b; repeat constructor|done|]. intros t <-. exists (DBool b). by split_and!; [constructor|..].
    - cbn [representable] in Hr. to_prop. apply emits_integer. lia.
    - cbn [representable] in Hr. to_prop. apply emits_integer. lia.
    - by apply emits_float.
    - eapply emits_conv; [apply emits_before; [by repeat constructor|apply emits_behind; [by repeat constructor|apply emits_escaped]]|done|].
      intros t (t1 & -> & t2 & -> & cs & -> & Hv). exists (DString cs). split_and!; [constructor|cbn; by rewrite Hv|done].
    - by apply emits_binary.
Qed.
End layout.
End printing.

(** ** [basic_json::dump] *)

(** [indent] characters a level fit into the buffer and into 32 bits. *)
Definition indent_fits (indent : Z) (v : value) : Prop := (indent <= 1024)%Z /\ (0 <= indent -> indent * depth v < 2 ^ 32)%Z.

Lemma basic_dump_spec v indent c ea h :
  representable v = true -> blank c = true -> indent_fits indent v ->
  if strings_ok h v then exists t, basic_dump v indent c ea h = Done t /\ text_of (printed h v) t /\ (ea = true -> all_ascii t)
  else exists x, basic_dump v indent c ea h = Fail x /\ exn_id x = 316%Z.
Proof.
  intros Hr Hc [Hi Hd]. unfold basic_dump. assert (ready 0 (MkState [] (replicate 512 c))) as Hst.
  { split_and!; cbn [indent_string]; rewrite ?length_replicate; [by apply Forall_replicate|lia|lia]. }
  assert (emits ea (strings_ok h v) 0 (if (0 <=? indent)%Z then dump h ea true (u32 indent) v 0 else dump h ea false 0 v 0) (text_of (printed h v))) as He.
  { destruct (0 <=? indent)%Z eqn:Hs; to_prop; apply emits_value; try done; unfold u32, wrapu; try (rewrite Z.mod_small by lia); try lia;
      (split; [done|]; split; [by left|]); lia. }
  specialize (He _ Hst). destruct (0 <=? indent)%Z; (destruct (strings_ok h v); [destruct He as (st' & t & -> & Ho & _ & Ht & Ha)|destruct He as (x & -> & Hx); by exists x]);
    (exists t; cbn [rbind]; split_and!; [by rewrite Ho|done|done]).
Qed.

(** The values that a text can mean: ordered objects, finite numbers, no binary data, negative signed integers. *)
Fixpoint canonical (v : value) : bool :=
  match v with
  | VNull | VBool _ | VString _ => true
  | VInteger z => (- 2 ^ 63 <=? z)%Z && (z <? 0)%Z
  | VUnsigned z => (0 <=? z)%Z && (z <? 2 ^ 64)%Z
  | VFloat x => valid_binary 53 1024 x && isfinite x
  | VBinary _ => false
  | VArray l => forallb canonical l
  | VObject l => increasing (map fst l) && forallb (fun kv => canonical kv.2) l
  end.

Lemma canonical_representable v : canonical v = true -> representable v = true.
Proof.
  induction v as [v Hp|l Hl|l Hl] using value_induction; cbn [canonical representable]; intros Hc.
  - destruct v; cbn in *; try done; to_prop; try (rewrite andb_true_iff; split; to_prop); try lia; try done.
  - rewrite forallb_forall in Hc |- *. rewrite Forall_forall in Hl. intros x Hx. apply Hl; [by apply list_elem_of_In|by apply Hc].
  - apply andb_true_iff in Hc as [_ Hc]. rewrite forallb_forall in Hc |- *. rewrite Forall_forall in Hl. intros x Hx. apply Hl; [by apply list_elem_of_In|by apply Hc].
Qed.

Lemma string_ok_strict s : string_ok error_handler.strict s = utf8_wf [] s.
Proof. unfold string_ok. rewrite bool_decide_true by done. apply negb_involutive. Qed.

Lemma string_ok_wf h s : utf8_wf [] s = true -> string_ok h s = true.
Proof. intros Hs. unfold string_ok. rewrite Hs. by rewrite andb_false_r. Qed.

(** Keys in increasing order stay where they are. *)
Lemma add_members_increasing l pre :
  increasing (map fst l) = true -> Forall (fun kv => Forall (fun kv' => bytes_lt kv'.1 kv.1 = true) pre) l -> foldl add_member pre l = pre ++ l.
Proof.
  revert pre. induction l as [|[k v] l IH]; intros pre Hi Hp; cbn [foldl]; [by rewrite app_nil_r|]. cbn [map increasing fst] in Hi. apply andb_true_iff in Hi as [Hk Hi].
  apply Forall_cons in Hp as [Hp Hpl]. unfold add_member at 2. cbn [fst snd] in *. rewrite object_at_last by done. rewrite IH; [by rewrite <- app_assoc|done|].
  rewrite Forall_forall in Hpl |- *. intros kv Hkv. apply Forall_app. split; [by apply Hpl|]. constructor; [|done].
  rewrite forallb_forall in Hk. apply Hk, in_map. by apply list_elem_of_In.
Qed.

Lemma printed_canonical h v : canonical v = true -> strings_ok error_handler.strict v = true -> printed h v = v /\ strings_ok h v = true.
Proof.
  induction v as [v Hp|l Hl|l Hl] using value_induction; cbn [canonical printed strings_ok]; intros Hc Hs.
  - destruct v as [| |z|z|x|s| | |]; cbn [canonical printed strings_ok] in *; try done; to_prop.
    + unfold integer_value. by rewrite (proj2 (Z.ltb_lt _ _)).
    + unfold integer_value. by rewrite (proj2 (Z.ltb_ge _ _)).
    + by rewrite H0.
    + rewrite string_ok_strict in Hs. by rewrite repaired_wf, string_ok_wf.
  - rewrite forallb_forall in Hc, Hs |- *. rewrite Forall_forall in Hl. split.
    + f_equal. rewrite <- (map_id l) at 2. apply map_ext_in. intros v Hv. apply Hl; [by apply list_elem_of_In|by apply Hc|by apply Hs].
    + intros v Hv. apply Hl; [by apply list_elem_of_In|by apply Hc|by apply Hs].
  - apply andb_true_iff in Hc as [Hi Hc]. rewrite forallb_forall in Hc, Hs |- *. rewrite Forall_forall in Hl.
    assert (forall kv, kv ∈ l -> utf8_wf [] kv.1 = true /\ printed h kv.2 = kv.2 /\ strings_ok h kv.2 = true) as Hkv.
    { intros kv Hkv. pose proof Hkv as Hin. apply list_elem_of_In in Hin. specialize (Hs kv Hin). apply andb_true_iff in Hs as [Hsk Hsv].
      split; [by rewrite string_ok_strict in Hsk|]. by apply Hl; [|apply Hc|]. }
    split.
    + assert (map (fun kv => (repaired h kv.1, printed h kv.2)) l = l) as ->.
      { rewrite <- (map_id l) at 2. apply map_ext_in. intros [k v] Hin. destruct (Hkv (k, v)) as (Hw & Hv & _); [by apply list_elem_of_In|]. cbn [fst snd] in *. by rewrite repaired_wf, Hv. }
      f_equal. apply (add_members_increasing l []); [done|]. apply Forall_true. by constructor.
    + intros kv Hin. destruct (Hkv kv) as (Hw & _ & ->); [by apply list_elem_of_In|]. by rewrite string_ok_wf.
Qed.

(** ** Properties *)

Lemma dump_parses v indent c ea h :
  representable v = true -> strings_ok h v = true -> blank c = true -> indent_fits indent v ->
  exists t, basic_dump v indent c ea h = Done t /\ (ea = true -> all_ascii t) /\
    forall allow_exceptions ignore_comments before after, blanks before -> blanks after ->
      parse allow_exceptions ignore_comments (before ++ t ++ after) = Some (Parsed (printed h v)).
Proof.
  intros Hr Hs Hc Hi. pose proof (basic_dump_spec v indent c ea h Hr Hc Hi) as Hd. rewrite Hs in Hd. destruct Hd as (t & Ht & (d & Hok & Hv & <-) & Ha).
  exists (show_doc d). split_and!; [done|done|]. intros ae ic before after Hb Haf. by apply parse_doc.
Qed.

(** C11: what [dump] writes, [parse] reads: compact or indented by up to 1024 spaces or tabs a
    level, with or without escaping what is not ASCII, and with each way to treat invalid UTF-8,
    the printing of a value of 64-bit integers and doubles runs without leaving its buffers,
    is ASCII where asked for, and parses to the value, its strings repaired, numbers that are
    not finite null, binary data an object; every finite double comes back as it was. *)
Theorem dump_correct v indent indent_char ensure_ascii error_handler :
  representable v = true -> strings_ok error_handler v = true -> blank indent_char = true -> indent_fits indent v ->
  exists t, basic_dump v indent indent_char ensure_ascii error_handler = Done t /\ (ensure_ascii = true -> all_ascii t) /\
    forall allow_exceptions ignore_comments before after, blanks before -> blanks after ->
      parse allow_exceptions ignore_comments (before ++ t ++ after) = Some (Parsed (printed error_handler v)).
Proof. apply dump_parses. Qed.

Lemma dump_correct_witness :
  exists t, basic_dump demo_value 4 " "%char true error_handler.replace = Done t /\ parse true false ([] ++ t ++ [LF]) = Some (Parsed (printed error_handler.replace demo_value)).
Proof.
  destruct (dump_correct demo_value 4 " "%char true error_handler.replace) as (t & Ht & _ & Hp);
    [vm_compute; reflexivity|vm_compute; reflexivity|reflexivity|split; [done|intros _; vm_compute; reflexivity]|].
  exists t. split; [exact Ht|]. apply Hp; [constructor|by repeat constructor].
Defined.

Lemma strings_ok_lenient h v : h <> error_handler.strict -> strings_ok h v = true.
Proof.
  intros Hh. destruct h; [done| |];
    (induction v as [v Hp|l Hl|l Hl] using value_induction; cbn [strings_ok]; [by destruct v|..];
     apply forallb_forall; intros x Hx; rewrite Forall_forall in Hl; apply list_elem_of_In in Hx; by apply Hl).
Qed.

(** C32: printing a value fails exactly when the strict error handler is asked for and a string or
    key anywhere in the value is not well-formed UTF-8, and then with [type_error] 316; in every
    other case, and with the other error handlers always, there is a text (the indentation
    being as in the other theorems). *)
Theorem dump_invalid_utf8 v indent indent_char ensure_ascii error_handler :
  representable v = true -> blank indent_char = true -> indent_fits indent v ->
  match basic_dump v indent indent_char ensure_ascii error_handler with
  | Done _ => error_handler = error_handler.strict -> strings_ok error_handler.strict v = true
  | Fail x => error_handler = error_handler.strict /\ strings_ok error_handler.strict v = false /\ exn_id x = 316%Z
  | Stuck => False
  end.
Proof.
  intros Hr Hc Hi. pose proof (basic_dump_spec v indent indent_char ensure_ascii error_handler Hr Hc Hi) as Hd.
  destruct (strings_ok error_handler v) eqn:Hs.
  - destruct Hd as (t & -> & _). by intros ->.
  - destruct Hd as (x & -> & Hx). destruct error_handler; [done|by rewrite strings_ok_lenient in Hs..].
Qed.

Lemma dump_invalid_utf8_witness :
  let v := VArray [VNull; VObject [(B "k", VString (B "ok")); ([chr 0xC3], VNull)]] in
  (exists x, basic_dump v 2 " "%char false error_handler.strict = Fail x /\ exn_id x = 316%Z) /\
  exists t, basic_dump v 2 " "%char false error_handler.replace = Done t.
Proof.
  cbv zeta. set (v := VArray [VNull; VObject [(B "k", VString (B "ok")); ([chr 0xC3], VNull)]]).
  assert (representable v = true /\ indent_fits 2 v) as [Hr Hi] by (split; [reflexivity|split; [done|intros _; vm_compute; reflexivity]]).
  pose proof (dump_invalid_utf8 v 2 " "%char false error_handler.strict Hr eq_refl Hi) as H1.
  pose proof (dump_invalid_utf8 v 2 " "%char false error_handler.replace Hr eq_refl Hi) as H2. split.
  - destruct (basic_dump v 2 _ false error_handler.strict) as [t|x|]; [|exists x; split; [reflexivity|apply H1]|destruct H1].
    specialize (H1 eq_refl). vm_compute in H1. discriminate H1.
  - destruct (basic_dump v 2 _ false error_handler.replace) as [t|x|]; [exists t; reflexivity|destruct H2 as [H2 _]; discriminate H2|destruct H2].
Defined.

(** C14: a value as the parser builds it -- ordered objects, finite numbers, signed integers only
    below zero, UTF-8 strings -- comes back unchanged from its text, printed compact or indented
    by blanks, at most 1024 a level, with or without escapes and with each error handler. *)
Theorem dump_roundtrip v indent indent_char ensure_ascii error_handler :
  canonical v = true -> strings_ok error_handler.strict v = true -> blank indent_char = true -> indent_fits indent v ->
  exists t, basic_dump v indent indent_char ensure_ascii error_handler = Done t /\ forall allow_exceptions ignore_comments, parse allow_exceptions ignore_comments t = Some (Parsed v).
Proof.
  intros Hv Hs Hc Hi. destruct (printed_canonical error_handler v Hv Hs) as [Hp Hs'].
  destruct (dump_parses v indent indent_char ensure_ascii error_handler (canonical_representable v Hv) Hs' Hc Hi) as (t & Ht & _ & Hparse). exists t. split; [done|].
  intros ae ic. specialize (Hparse ae ic [] [] ltac:(done) ltac:(done)). by rewrite app_nil_r, Hp in Hparse.
Qed.

Lemma dump_roundtrip_witness :
  let v := VObject [(B "k", VArray [VInteger (-5); VUnsigned 5; VFloat (S754_finite true 6755399441055744 (-52)); VString [chr 0xC3; chr 0xA9]])] in
  exists t, basic_dump v 1024 (chr 9) true error_handler.ignore = Done t /\ parse true true t = Some (Parsed v).
Proof.
  cbv zeta. destruct (dump_roundtrip (VObject [(B "k", VArray [VInteger (-5); VUnsigned 5; VFloat (S754_finite true 6755399441055744 (-52)); VString [chr 0xC3; chr 0xA9]])])
    1024 (chr 9) true error_handler.ignore) as (t & Ht & Hp);
    [vm_compute; reflexivity|vm_compute; reflexivity|reflexivity|split; [done|intros _; vm_compute; reflexivity]|].
  exists t. split; [exact Ht|apply Hp].
Defined.

(** The limit is sharp: one character more a level and the NUL behind [indent_string] is
    written, two more and the read leaves it. *)
Example indent_reads_nul :
  match basic_dump (VArray [VNull]) 1025 " "%char false error_handler.strict with Done t => existsb (fun c => code c =? 0)%Z t | _ => false end = true.
Proof. vm_compute. reflexivity. Qed.
Example indent_leaves_buffer : basic_dump (VArray [VNull]) 1026 " "%char false error_handler.strict = Stuck.
Proof. vm_compute. reflexivity. Qed.
