(* ===== verification/JsonRoundtrip.v ===== *)
(** * The printing of the proxy's values, and what the parser makes of it

    [Json] has the compact strict printing of the values the proxy builds.  It is the serializer
    of [Serializer] with the arguments [dump()] has by default, so what holds of that holds of
    the proxy's texts: the parser reads them back. *)
From S2P Require Import Prelude CLib Json JsonLexer JsonParser JsonText JsonReading JsonComplete JsonValue Serializer EscapeTheory SerializerTheory.
Import serializer.

(** The value of the library for a value of the proxy. *)
Fixpoint value_of (j : json) : value :=
  match j with
  | JNull => VNull
  | JBool b => VBool b
  | JInt z => if (z <? 0)%Z then VInteger z else VUnsigned z
  | JStr s => VString s
  | JArr l => VArray (map value_of l)
  | JObj l => VObject (map (fun kv => (fst kv, value_of (snd kv))) l)
  end.

(** A value of the library: 64-bit integers and ordered objects. *)
Fixpoint json_ok (j : json) : bool :=
  match j with
  | JInt z => (- 2 ^ 63 <=? z)%Z && (z <? 2 ^ 64)%Z
  | JArr l => forallb json_ok l
  | JObj l => increasing (map fst l) && forallb (fun kv => json_ok (snd kv)) l
  | _ => true
  end.

Lemma json_nested_ind (P : json -> Prop) :
  P JNull -> (forall b, P (JBool b)) -> (forall z, P (JInt z)) -> (forall s, P (JStr s)) ->
  (forall l, Forall P l -> P (JArr l)) -> (forall l, Forall (fun kv => P (snd kv)) l -> P (JObj l)) -> forall j, P j.
Proof.
  intros HN HB HI HS HA HO. fix IH 1. intros [|b|z|s|l|l]; [done|done|done|done|apply HA|apply HO];
    induction l as [|x l IHl]; constructor; try done; apply IH.
Qed.

(** ** The same text *)

(** [f] writes the text, or fails when there is none. *)
Definition prints (f : state -> result state) (t : option bytes) : Prop :=
  forall st, match f st with Done st' => exists s, t = Some s /\ o st' = o st ++ s | _ => t = None end.

Lemma prints_conv f t t' : prints f t' -> t = t' -> prints f t.
Proof. by intros Hf ->. Qed.

Lemma prints_write s : prints (write s) (Some s).
Proof. intros st. by exists s. Qed.

Lemma prints_seq f g t1 t2 : prints f t1 -> prints g t2 -> prints (f;;; g) (a ← t1; b ← t2; Some (a ++ b)).
Proof.
  intros Hf Hg st. unfold seq_of. specialize (Hf st). destruct (f st) as [st1|x|]; cbn [rbind]; [|by rewrite Hf..]. destruct Hf as (s1 & -> & Ho1).
  specialize (Hg st1). cbn [mbind option_bind]. destruct (g st1) as [st2|x|]; [|by rewrite Hg..]. destruct Hg as (s2 & -> & Ho2).
  exists (s1 ++ s2). split; [done|]. by rewrite Ho2, Ho1, app_assoc.
Qed.

Lemma prints_escaped s : prints (serializer.dump_escaped error_handler.strict false s) (Json.dump_escaped false s).
Proof.
  intros st. unfold serializer.dump_escaped. pose proof (escaped_text_strict false s) as Hs. destruct (escaped_text _ _ _) as [t|x|]; cbn [rbind]; [|done..].
  by exists t.
Qed.

Abbreviation print := (serializer.dump error_handler.strict false false 0).

Lemma prints_elements cur l :
  Forall (fun j => prints (print (value_of j) cur) (Json.dump j)) l ->
  prints (serializer.dump_elements false 0 (fun v => print v cur) (map value_of l)) (Json.dump_elements Json.dump l).
Proof.
  induction 1 as [|j l Hj Hl IH]; [intros st; exists []; by rewrite app_nil_r|]. destruct l as [|j2 l]; [exact Hj|].
  eapply prints_conv; [exact (prints_seq _ _ _ _ Hj (prints_seq _ _ _ _ (prints_write (B ",")) IH))|].
  change (Json.dump_elements Json.dump (j :: j2 :: l)) with (v ← Json.dump j; r ← Json.dump_elements Json.dump (j2 :: l); Some (v ++ B "," ++ r)).
  destruct (Json.dump j); [|done]. cbn [mbind option_bind]. by destruct (Json.dump_elements _ _).
Qed.

Lemma prints_key k : prints (dump_key error_handler.strict false false 0 k) (k ← Json.dump_escaped false k; Some ([DQUOTE] ++ k ++ [DQUOTE; ":"%char])).
Proof.
  eapply prints_conv; [exact (prints_seq _ _ _ _ (prints_write [DQUOTE]) (prints_seq _ _ _ _ (prints_escaped k) (prints_write (DQUOTE :: B ":"))))|].
  by destruct (Json.dump_escaped false k).
Qed.

Lemma prints_members cur l :
  Forall (fun kv => prints (print (value_of kv.2) cur) (Json.dump kv.2)) l ->
  prints (serializer.dump_members error_handler.strict false false 0 (fun v => print v cur) (map (fun kv => (kv.1, value_of kv.2)) l)) (Json.dump_members Json.dump l).
Proof.
  induction 1 as [|[k j] l Hj Hl IH]; [intros st; exists []; by rewrite app_nil_r|]. destruct l as [|kv2 l].
  - eapply prints_conv; [exact (prints_seq _ _ _ _ (prints_key k) Hj)|]. cbn. destruct (Json.dump_escaped false k); [|done]. cbn.
    destruct (Json.dump j); [|done]. cbn. by rewrite <- app_assoc.
  - eapply prints_conv; [exact (prints_seq _ _ _ _ (prints_key k) (prints_seq _ _ _ _ Hj (prints_seq _ _ _ _ (prints_write (B ",")) IH)))|].
    change (Json.dump_members Json.dump ((k, j) :: kv2 :: l)) with
      (k ← Json.dump_escaped false k; v ← Json.dump j; r ← Json.dump_members Json.dump (kv2 :: l); Some ([DQUOTE] ++ k ++ [DQUOTE; ":"%char] ++ v ++ B "," ++ r)).
    destruct (Json.dump_escaped false k); [|done]. cbn [mbind option_bind snd]. destruct (Json.dump j); [|done]. cbn [mbind option_bind].
    destruct (Json.dump_members _ _); [|done]. cbn. by rewrite <- app_assoc.
Qed.

Lemma prints_value j cur : prints (print (value_of j) cur) (Json.dump j).
Proof.
  induction j as [|b|z|s|l Hl|l Hl] using json_nested_ind.
  - apply prints_write.
  - apply prints_write.
  - intros st. assert (print (value_of (JInt z)) cur st = serializer.dump_integer z st) as -> by (cbn; by destruct (z <? 0)%Z).
    unfold serializer.dump_integer. cbn [Json.dump]. destruct (Json.dump_integer z) as [t|]; [by exists t|done].
  - eapply prints_conv; [exact (prints_seq _ _ _ _ (prints_write [DQUOTE]) (prints_seq _ _ _ _ (prints_escaped s) (prints_write [DQUOTE])))|].
    cbn. by destruct (Json.dump_escaped false s).
  - destruct l as [|j l]; [apply prints_write|].
    eapply prints_conv; [exact (prints_seq _ _ _ _ (prints_write (B "[")) (prints_seq _ _ _ _ (prints_elements cur _ Hl) (prints_write (B "]"))))|].
    change (Json.dump (JArr (j :: l))) with (t ← Json.dump_elements Json.dump (j :: l); Some (B "[" ++ t ++ B "]")). by destruct (Json.dump_elements _ _).
  - destruct l as [|kv l]; [apply prints_write|].
    eapply prints_conv; [exact (prints_seq _ _ _ _ (prints_write (B "{")) (prints_seq _ _ _ _ (prints_members cur _ Hl) (prints_write (B "}"))))|].
    change (Json.dump (JObj (kv :: l))) with (t ← Json.dump_members Json.dump (kv :: l); Some (B "{" ++ t ++ B "}")). by destruct (Json.dump_members _ _).
Qed.

Lemma basic_dump_json j t c : Json.dump j = Some t <-> basic_dump (value_of j) (-1) c false error_handler.strict = Done t.
Proof.
  unfold basic_dump. cbn [Z.leb Z.compare]. pose proof (prints_value j 0 (MkState [] (replicate 512 c))) as Hp.
  destruct (print _ _ _) as [st'|x|]; cbn [rbind]; [|by rewrite Hp..]. destruct Hp as (s & -> & ->). cbn [o app]. split; congruence.
Qed.

(** ** Reading it back *)

Lemma value_of_canonical j : json_ok j = true -> canonical (value_of j) = true.
Proof.
  induction j as [|b|z|s|l Hl|l Hl] using json_nested_ind; try done.
  - cbn [json_ok value_of]. intros Hz. to_prop. destruct (z <? 0)%Z eqn:Hs; cbn [canonical]; to_prop; rewrite andb_true_iff; split; to_prop; lia.
  - cbn [json_ok value_of canonical]. rewrite !forallb_forall. intros Hok v Hv. apply in_map_iff in Hv as (j & <- & Hj).
    rewrite Forall_forall in Hl. apply Hl; [by apply list_elem_of_In|by apply Hok].
  - cbn [json_ok value_of canonical]. rewrite !andb_true_iff, !forallb_forall, map_map. intros [Hi Hok]. split; [exact Hi|]. intros kv Hv. apply in_map_iff in Hv as (kj & <- & Hj).
    rewrite Forall_forall in Hl. apply Hl; [by apply list_elem_of_In|by apply Hok].
Qed.

Lemma parse_dump_ok allow_exceptions ic j t ws :
  json_ok j = true -> Json.dump j = Some t -> blanks ws -> parse allow_exceptions ic (t ++ ws) = Some (Parsed (value_of j)).
Proof.
  intros Hok Hd Hws. apply (basic_dump_json j t " "%char) in Hd. pose proof (value_of_canonical j Hok) as Hc.
  assert (indent_fits (-1) (value_of j)) as Hi by (split; lia).
  pose proof (basic_dump_spec _ (-1) " "%char false error_handler.strict (canonical_representable _ Hc) eq_refl Hi) as Hs.
  destruct (strings_ok _ _) eqn:Hstr; [|destruct Hs as (x & Hx & _); congruence]. destruct (printed_canonical error_handler.strict _ Hc Hstr) as [Hp _].
  destruct (dump_parses _ (-1) " "%char false error_handler.strict (canonical_representable _ Hc) Hstr eq_refl Hi) as (t' & Ht' & _ & Hparse).
  rewrite Hd in Ht'. injection Ht' as <-. specialize (Hparse allow_exceptions ic [] ws ltac:(done) Hws). by rewrite Hp in Hparse.
Qed.

(** The printing of the proxy's values is the serializer of the library with the arguments
    [dump()] has by default: the same text, and none where that throws. *)
Theorem dump_is_basic_dump j t indent_char : Json.dump j = Some t <-> basic_dump (value_of j) (-1) indent_char false error_handler.strict = Done t.
Proof. apply basic_dump_json. Qed.

(** What the serializer prints is what the parser reads: the text of a value with 64-bit
    integers and ordered keys, white space behind it or not, parses, with or without comments
    and exceptions, to that value; strings come back through their escapes and UTF-8 sequences. *)
Theorem parse_dump allow_exceptions ignore_comments j t ws :
  json_ok j = true -> Json.dump j = Some t -> Forall (fun c => blank c = true) ws ->
  parse allow_exceptions ignore_comments (t ++ ws) = Some (Parsed (value_of j)).
Proof. apply parse_dump_ok. Qed.

Definition demo_json : json :=
  JObj [(B "a", JArr [JInt (-3); JInt (2 ^ 63); JNull]); (B "b", JObj []); (B "key", JStr [DQUOTE; chr 0; chr 195; chr 169; "\"%char])].

Lemma parse_dump_witness :
  exists t, Json.dump demo_json = Some t /\ parse true false (t ++ [LF]) = Some (Parsed (value_of demo_json)).
Proof.
  eexists. split; [vm_compute; reflexivity|].
  apply (parse_dump true false demo_json _ [LF]); [reflexivity|vm_compute; reflexivity|repeat constructor].
Defined.
