(* ===== verification/Replies.v ===== *)
(** * The proxy's answers as a client reads them

    The bodies [fileCacheProxy.cpp] sends and the lines it records, read with the parser of
    [json.hpp]: the composition of the handlers, the serializer and the parser. *)
From S2P Require Import Prelude CLib Utilities Json Handlers JsonLexer JsonParser JsonText JsonRoundtrip.

(** What a client gets from a body. *)
Definition read_body (b : bytes) : option parse_result := parse true false b.

Definition file_id_value (id : bytes) : value := VObject [(B "FileID", VString id)].

Definition fileinfo_value (now : bytes) (crc size : Z) : value :=
  VObject [(B "FileInfo", VObject [(B "CreateTime", VString now); (B "FileCrc32", value_of (JInt crc)); (B "FileSize", value_of (JInt size))])].

(** The body of an upload, and its line in the record file. *)
Lemma read_file_id id esc ws :
  dump_escaped false id = Some esc -> Forall (fun c => blank c = true) ws ->
  read_body (file_id_json esc ++ ws) = Some (Parsed (file_id_value id)).
Proof.
  intros He Hws. apply (parse_dump_ok true false (JObj [(B "FileID", JStr id)])); [done|by apply dump_file_id|done].
Qed.

Lemma read_fileinfo now i :
  all_plain now -> read_body (fileinfo_text now i) = Some (Parsed (fileinfo_value now (s32 (crc32 i)) (wraps 64 (file_size i)))).
Proof.
  intros Hn. rewrite <- (app_nil_r (fileinfo_text now i)).
  apply (parse_dump_ok true false (JObj [(B "FileInfo", JObj [(B "CreateTime", JStr now); (B "FileCrc32", JInt (s32 (crc32 i)));
    (B "FileSize", JInt (wraps 64 (file_size i)))])])); [|by apply dump_fileinfo|done].
  pose proof (wraps_range 32 (crc32 i) ltac:(lia)). pose proof (wraps_range 64 (file_size i) ltac:(lia)).
  assert (forall z, (- 2 ^ 63 <= z < 2 ^ 63)%Z -> json_ok (JInt z) = true) as Hint.
  { intros z Hz. apply andb_true_iff. split; [apply Z.leb_le|apply Z.ltb_lt]; lia. }
  cbn [json_ok map fst snd forallb] in *. unfold s32. rewrite !Hint by lia. reflexivity.
Qed.

(** An upload that was answered 200 was stored. *)
Lemma upload_stored `{Service} req arg content ext st st1 t b :
  upload_request req content ext ->
  upload_handler req arg st = Ended tt st1 -> trace st1 = trace st ++ t -> replies t = [(200%Z, B "OK", Some b)] ->
  exists c spi g w group name esc, storage_upload_by_filebuff arg c spi content ext g w = ((0%Z, (group, name)), world st1) /\
    b = file_id_json esc /\ dump_escaped false (c_str group ++ B "/" ++ c_str name) = Some esc /\ records t = [b ++ [LF]].
Proof.
  intros Hreq Hrun Htr Hrep. destruct st as [w0 t0], (upload_result_total arg content ext w0) as (w' & u & res & Hres). cbn [trace] in Htr.
  pose proof (upload_result_connections _ _ _ _ _ _ _ Hres) as Hu. destruct res as [|group name|].
  - rewrite (upload_none req arg content ext Hreq w0 w' u Hres t0) in Hrun. injection Hrun as <-. apply app_inv_head in Htr as <-.
    by destruct Hu as [->|[c ->]].
  - destruct (stored_inv _ _ _ _ _ _ _ _ Hres) as (addr & g & spi & w1 & c & r1 & w2 & _ & _ & _ & Hst & -> & _ & _).
    destruct (dump_escaped false (c_str group ++ B "/" ++ c_str name)) as [esc|] eqn:He;
      [|by rewrite (upload_bad_name req arg content ext Hreq _ _ _ _ _ Hres He t0) in Hrun].
    rewrite (upload_some req arg content ext Hreq _ _ _ _ _ _ Hres He t0) in Hrun. injection Hrun as <-. apply app_inv_head in Htr as <-.
    injection Hrep as <-. by exists c, spi, g, w2, group, name, esc.
  - by rewrite (upload_overrun req arg content ext Hreq w0 w' u Hres t0) in Hrun.
Qed.

Lemma fileinfo_reply `{Service} req arg id w :
  evhttp_find_header (req_headers req) (B "FileID") = Some id ->
  let '((r, info), w2) := fdfs_get_file_info1 id w in
  exists t, runs (fileinfo_handler req arg) w tt w2 t /\
    if (r =? 0)%Z then
      exists b, replies t = [(200%Z, B "OK", Some b)] /\
        read_body b = Some (Parsed (fileinfo_value (get_time_now (local_now w2)) (s32 (crc32 info)) (wraps 64 (file_size info))))
    else replies t = [(400%Z, B "Bad Request", None)].
Proof.
  intros Hid. destruct (fdfs_get_file_info1 id w) as [[r info] w2] eqn:Hr. destruct (Z.eqb_spec r 0) as [->|Hne].
  - eexists. split; [by eapply fileinfo_runs|]. eexists. split; [reflexivity|]. apply read_fileinfo, plain_now.
  - eexists. split; [by eapply fileinfo_runs_error|reflexivity].
Qed.

Lemma delete_reply `{Service} req arg id w :
  evhttp_find_header (req_headers req) (B "FileID") = Some id ->
  let '(r, w2) := storage_delete_file1 arg id w in
  exists t, runs (delete_handler req arg) w tt w2 t /\
    replies t = [if (r =? 0)%Z then (200%Z, B "OK", None) else (400%Z, B "Bad Request", Some (c_str (STRERROR r)))].
Proof.
  intros Hid. destruct (storage_delete_file1 arg id w) as [r w2] eqn:Hr. destruct (Z.eqb_spec r 0) as [->|Hne].
  - eexists. split; [by eapply delete_runs|reflexivity].
  - eexists. split; [by eapply delete_runs_error|reflexivity].
Qed.

(** C6: a client that reads the answers with the library's own parser.  An upload answered 200
    has handed exactly the content of the request to the storage, and the body parses to an
    object whose [FileID] is the group and name the storage gave; so does the one line that was
    recorded.  With this id in a request's header, at any later time, [/fileinfo] asks the
    storage for exactly this id: answered with an error it answers 400, and otherwise a body that
    parses to the checksum (32 bits) and the size (64 bits) the storage said, and the time of the
    answer; [/delete] asks to delete exactly this id and answers 200, or 400 with the error. *)
Theorem client_roundtrip `{Service} req arg content ext st st1 t b :
  upload_request req content ext ->
  upload_handler req arg st = Ended tt st1 -> trace st1 = trace st ++ t ->
  replies t = [(200%Z, B "OK", Some b)] ->
  exists c spi g w group name, storage_upload_by_filebuff arg c spi content ext g w = ((0%Z, (group, name)), world st1) /\
    let id := c_str group ++ B "/" ++ c_str name in
    read_body b = Some (Parsed (file_id_value id)) /\
    (exists line, records t = [line] /\ read_body line = Some (Parsed (file_id_value id))) /\
    forall req' w1, evhttp_find_header (req_headers req') (B "FileID") = Some id ->
      (let '((r, info), w2) := fdfs_get_file_info1 id w1 in
       exists t2, runs (fileinfo_handler req' arg) w1 tt w2 t2 /\
         if (r =? 0)%Z then
           exists b2, replies t2 = [(200%Z, B "OK", Some b2)] /\
             read_body b2 = Some (Parsed (fileinfo_value (get_time_now (local_now w2)) (s32 (crc32 info)) (wraps 64 (file_size info))))
         else replies t2 = [(400%Z, B "Bad Request", None)]) /\
      (let '(r, w2) := storage_delete_file1 arg id w1 in
       exists t2, runs (delete_handler req' arg) w1 tt w2 t2 /\
         replies t2 = [if (r =? 0)%Z then (200%Z, B "OK", None) else (400%Z, B "Bad Request", Some (c_str (STRERROR r)))]).
Proof.
  intros Hreq Hrun Htr Hrep. destruct (upload_stored req arg content ext st st1 t b Hreq Hrun Htr Hrep)
    as (c & spi & g & w & group & name & esc & Hst & -> & Hesc & Hrec).
  exists c, spi, g, w, group, name. split; [done|]. cbn zeta. split; [rewrite <- (app_nil_r (file_id_json esc)); by apply read_file_id|].
  split; [eexists; split; [exact Hrec|]; apply read_file_id; [done|by repeat constructor]|].
  intros req' w1 Hid. split; [by apply fileinfo_reply|by apply delete_reply].
Qed.

#[local] Existing Instance shelf.

Definition demo_uploaded : hstate := demo_after [(B "/upload", demo_upload)].

Lemma client_roundtrip_witness :
  exists id line, read_body (file_id_json shelf_id) = Some (Parsed (file_id_value id)) /\
    records (trace demo_uploaded) = [line] /\ read_body line = Some (Parsed (file_id_value id)).
Proof.
  destruct (@client_roundtrip shelf demo_upload tt (B "hello") (Some (B "bin")) demo_start demo_uploaded (trace demo_uploaded)
    (file_id_json shelf_id)) as (c & spi & g & w & group & name & _ & H1 & (line & H2 & H3) & _); [by split|reflexivity|reflexivity|reflexivity|].
  eexists _, line. split; [exact H1|]. split; [exact H2|exact H3].
Defined.
