(* ===== verification/JsonPointer.v ===== *)
(** * JSON pointers: [json_pointer] of [include/json.hpp]

    A pointer is its reference tokens.  Parsing and printing with the escapes of RFC 6901, the
    conversion of tokens to array indices, the ways a pointer is followed ([get_checked],
    [get_unchecked], [contains], [get_and_create]), [flatten] and [unflatten].  Following a
    pointer to a reference that is then changed takes the change as a function. *)
From S2P Require Import Prelude CLib Json JsonLexer JsonParser JsonValue.

(** ** [detail::escape] and [detail::unescape] *)

Fixpoint starts_with (f s : bytes) : bool :=
  match f, s with
  | [], _ => true
  | c :: f, d :: s => (c =c d) && starts_with f s
  | _ :: _, [] => false
  end.

(** [s.find(f)], as an index. *)
Fixpoint find_sub (f s : bytes) : option nat :=
  if starts_with f s then Some 0
  else match s with [] => None | _ :: s => S <$> find_sub f s end.

(** The loop of [replace_substring] from [pos] on. *)
Fixpoint replace_loop (fuel : nat) (f t : bytes) (pos : nat) (s : bytes) : bytes :=
  match fuel with
  | 0 => s
  | S fuel =>
      match find_sub f (drop pos s) with
      | None => s
      | Some p =>
          let pos := pos + p in
          let s := take pos s ++ t ++ drop (pos + length f) s in
          replace_loop fuel f t (pos + length t) s
      end
  end.

(** What is left to search shrinks by the length of [f]. *)
Definition replace_substring (s f t : bytes) : bytes := replace_loop (S (length s)) f t 0 s.

Definition escape (s : bytes) : bytes :=
  replace_substring (replace_substring s (B "~") (B "~0")) (B "/") (B "~1").
Definition unescape_token (s : bytes) : bytes :=
  replace_substring (replace_substring s (B "~1") (B "/")) (B "~0") (B "~").

(** ** Pointers *)

Abbreviation json_pointer := (list bytes).

Definition is_slash (c : ascii) : bool := c =c "/"%char.

(** A tilde is followed by 0 or 1. *)
Fixpoint tildes_ok (s : bytes) : bool :=
  match s with
  | [] => true
  | c :: s => (negb (c =c "~"%char) || match s with d :: _ => (d =c "0"%char) || (d =c "1"%char) | [] => false end) && tildes_ok s
  end.

(** The loop of [split], behind a slash. *)
Fixpoint split_loop (fuel : nat) (s : bytes) : result json_pointer :=
  match fuel with
  | 0 => Stuck
  | S fuel =>
      let slash := find_if is_slash s in
      let reference_token := match slash with Some p => take p s | None => s end in
      if negb (tildes_ok reference_token) then
        Fail (parse_error_at 108 0 (B "escape character '~' must be followed with '0' or '1'"))
      else
        let! r := match slash with Some p => split_loop fuel (drop (S p) s) | None => Done [] end in
        Done (unescape_token reference_token :: r)
  end.

Definition split (reference_string : bytes) : result json_pointer :=
  match reference_string with
  | [] => Done []
  | c :: s =>
      if negb (is_slash c) then
        Fail (parse_error_at 107 1 (B "JSON pointer must be empty or begin with '/' - was: '" ++ reference_string ++ B "'"))
      else split_loop (S (length s)) s
  end.

(** [std::accumulate] over the tokens. *)
Definition to_string (ptr : json_pointer) : bytes := foldl (fun a b => a ++ "/"%char :: escape b) [] ptr.

Definition no_parent : exn := out_of_range 405 (B "JSON pointer has no parent").
Definition top (ptr : json_pointer) : result json_pointer :=
  match ptr with [] => Fail no_parent | t :: _ => Done [t] end.
Definition back (ptr : json_pointer) : result bytes :=
  match last ptr with None => Fail no_parent | Some t => Done t end.
Definition pop_back (ptr : json_pointer) : result json_pointer :=
  match ptr with [] => Fail no_parent | _ => Done (removelast ptr) end.

(** ** Array indices *)

(** [strtoull]: the value, the number of characters read, and whether it is out of range. *)
Definition strtoull_end (s : bytes) : Z * nat * bool :=
  let space := length (take_while isspace s) in
  let s := drop_while isspace s in
  let '(neg, sign, s) :=
    match s with
    | c :: s' => if c =c "-"%char then (true, 1, s') else if c =c "+"%char then (false, 1, s') else (false, 0, s)
    | [] => (false, 0, [])
    end in
  let ds := take_while isdigit s in
  match ds with
  | [] => (0%Z, 0, false)
  | _ =>
      let v := dec_value 0 ds in
      if (2 ^ 64 <=? v)%Z then ((2 ^ 64 - 1)%Z, space + sign + length ds, true)
      else (if neg then u64 (- v) else v, space + sign + length ds, false)
  end.

Definition array_index (s : bytes) : result Z :=
  let c := nth 0 s NUL in
  if (1 <? length s) && (c =c "0"%char) then
    Fail (parse_error_at 106 0 (B "array index '" ++ s ++ B "' must not begin with '0'"))
  else if (1 <? length s) && negb ((code "1" <=? code c) && (code c <=? code "9"))%Z then
    Fail (parse_error_at 109 0 (B "array index '" ++ s ++ B "' is not a number"))
  else
    let '(res, read, erange) := strtoull_end s in
    if (read =? 0)%nat || erange || negb (read =? length s)%nat then
      Fail (out_of_range 404 (B "unresolved reference token '" ++ s ++ B "'"))
    else if (2 ^ 64 - 1 <=? res)%Z then Fail (out_of_range 410 (B "array index " ++ s ++ B " exceeds size_type"))
    else Done res.

(** ** Following a pointer *)

Definition unresolved (t : bytes) : exn := out_of_range 404 (B "unresolved reference token '" ++ t ++ B "'").
Definition minus_index (v : value) : exn := out_of_range 402 (B "array index '-' (" ++ dec (size v) ++ B ") is out of range").

(** [get_checked]. *)
Fixpoint get_checked (ptr : json_pointer) (v : value) : result value :=
  match ptr with
  | [] => Done v
  | t :: ptr =>
      match v with
      | VObject _ => let! w := at_key t v in get_checked ptr w
      | VArray _ =>
          if t =s B "-" then Fail (minus_index v)
          else let! idx := array_index t in let! w := at_index idx v in get_checked ptr w
      | _ => Fail (unresolved t)
      end
  end.

(** [get_checked] for a reference that is changed by [f]. *)
Fixpoint at_checked (ptr : json_pointer) (f : value -> result value) (v : value) : result value :=
  match ptr with
  | [] => f v
  | t :: ptr =>
      match v with
      | VObject _ => let! w := at_key t v in let! w := at_checked ptr f w in Done (set_key t w v)
      | VArray _ =>
          if t =s B "-" then Fail (minus_index v)
          else
            let! idx := array_index t in let! w := at_index idx v in
            let! w := at_checked ptr f w in Done (set_index idx w v)
      | _ => Fail (unresolved t)
      end
  end.

(** [get_unchecked] for a reference that is changed by [f]: what is missing is created. *)
Fixpoint at_unchecked (ptr : json_pointer) (f : value -> result value) (v : value) : result value :=
  match ptr with
  | [] => f v
  | t :: ptr =>
      let nums := forallb isdigit t in
      let v := match v with VNull => if nums || (t =s B "-") then VArray [] else VObject [] | _ => v end in
      match v with
      | VObject _ =>
          let! (v, w) := sub_key t v in let! w := at_unchecked ptr f w in Done (set_key t w v)
      | VArray _ =>
          let! idx := (if t =s B "-" then Done (size v) else array_index t) in
          let! (v, w) := sub_index idx v in let! w := at_unchecked ptr f w in Done (set_index idx w v)
      | _ => Fail (unresolved t)
      end
  end.

(** The const [get_unchecked]. *)
Fixpoint get_unchecked (ptr : json_pointer) (v : value) : result value :=
  match ptr with
  | [] => Done v
  | t :: ptr =>
      match v with
      | VObject _ => let! w := const_key t v in get_unchecked ptr w
      | VArray _ =>
          if t =s B "-" then Fail (minus_index v)
          else let! idx := array_index t in let! w := const_index idx v in get_unchecked ptr w
      | _ => Fail (unresolved t)
      end
  end.

(** The checks of [contains] on a token for an array. *)
Definition index_token (t : bytes) : bool :=
  let c := nth 0 t NUL in
  negb (t =s B "-") &&
  negb ((length t =? 1) && negb ((code "0" <=? code c) && (code c <=? code "9"))%Z) &&
  negb ((1 <? length t) && (negb ((code "1" <=? code c) && (code c <=? code "9"))%Z || negb (forallb isdigit (drop 1 t)))).

Fixpoint contains (ptr : json_pointer) (v : value) : result bool :=
  match ptr with
  | [] => Done true
  | t :: ptr =>
      match v with
      | VObject _ =>
          if negb (contains_key t v) then Done false else let! w := const_key t v in contains ptr w
      | VArray _ =>
          if negb (index_token t) then Done false
          else
            let! idx := array_index t in
            if (size v <=? idx)%Z then Done false else let! w := const_index idx v in contains ptr w
      | _ => Done false
      end
  end.

(** [get_and_create] for a reference that is changed by [f]. *)
Fixpoint create (ptr : json_pointer) (f : value -> result value) (v : value) : result value :=
  match ptr with
  | [] => f v
  | t :: ptr =>
      match v with
      | VNull =>
          if t =s B "0" then
            let! (v, w) := sub_index 0 v in let! w := create ptr f w in Done (set_index 0 w v)
          else
            let! (v, w) := sub_key t v in let! w := create ptr f w in Done (set_key t w v)
      | VObject _ =>
          let! (v, w) := sub_key t v in let! w := create ptr f w in Done (set_key t w v)
      | VArray _ =>
          let! idx := array_index t in
          let! (v, w) := sub_index idx v in let! w := create ptr f w in Done (set_index idx w v)
      | _ => Fail (type_error 313 (B "invalid value to unflatten"))
      end
  end.

(** ** [flatten] and [unflatten] *)

Abbreviation members := (list (bytes * value)).

Definition put (key : bytes) (v : value) (result : members) : members := object_at key (fun _ => v) result.

(** The loops over the elements, from an index on, and over the members. *)
Section flatten.
  Context (flatten : bytes -> value -> members -> members) (reference_string : bytes).
Fixpoint flatten_elements (i : Z) (l : list value) (result : members) : members :=
    match l with
    | [] => result
    | v :: l => flatten_elements (i + 1) l (flatten (reference_string ++ "/"%char :: dec i) v result)
    end.
Fixpoint flatten_members (l : members) (result : members) : members :=
    match l with
    | [] => result
    | (k, v) :: l => flatten_members l (flatten (reference_string ++ "/"%char :: escape k) v result)
    end.
End flatten.

Fixpoint flatten_into (reference_string : bytes) (v : value) (result : members) : members :=
  match v with
  | VArray [] | VObject [] => put reference_string VNull result
  | VArray l => flatten_elements (fun p v => flatten_into p v) reference_string 0 l result
  | VObject l => flatten_members (fun p v => flatten_into p v) reference_string l result
  | _ => put reference_string v result
  end.

Definition flatten (v : value) : value := VObject (flatten_into [] v []).

Fixpoint unflatten_loop (l : members) (result : value) : JsonValue.result value :=
  match l with
  | [] => Done result
  | (k, v) :: l =>
      if negb (is_primitive v) then Fail (type_error 315 (B "values in object must be primitive"))
      else
        let! ptr := split k in
        let! result := create ptr (fun _ => Done v) result in
        unflatten_loop l result
  end.

Definition unflatten (v : value) : JsonValue.result value :=
  match v with
  | VObject l => unflatten_loop l VNull
  | _ => Fail (type_error 314 (B "only objects can be unflattened"))
  end.
