(* ===== verification/JsonPatch.v ===== *)
(** * JSON patches: [patch], [diff] and [merge_patch] of [include/json.hpp]

    A patch is an array of operations, each an object; [patch] applies them to a copy of the
    value, so that an exception leaves the value alone.  [diff] makes a patch.  Of the two
    operands of a comparison or an assignment that can both throw, the first one written does
    so for the comparison, the right one for the assignment. *)
From S2P Require Import Prelude CLib Json JsonLexer JsonParser JsonValue JsonPointer.

(** ** The operations *)

Inductive patch_operations := add | remove | replace | move | copy | test | invalid.

Definition get_op (op : bytes) : patch_operations :=
  if op =s B "add" then add
  else if op =s B "remove" then remove
  else if op =s B "replace" then replace
  else if op =s B "move" then move
  else if op =s B "copy" then copy
  else if op =s B "test" then test
  else invalid.

(** What [operation_add] does to the parent. *)
Definition add_child (last_path : bytes) (val parent : value) : result value :=
  match parent with
  | VNull | VObject _ => let! (parent, _) := sub_key last_path parent in Done (set_key last_path val parent)
  | VArray _ =>
      if last_path =s B "-" then push_back val parent
      else
        let! idx := array_index last_path in
        if (size parent <? idx)%Z then Fail (out_of_range 401 (B "array index " ++ dec idx ++ B " is out of range"))
        else insert_at idx val parent
  | _ => Stuck
  end.

Definition operation_add (ptr : json_pointer) (val result : value) : JsonValue.result value :=
  if bool_decide (ptr = []) then Done val
  else
    let! top_pointer := top ptr in
    let! _ := (if negb (bool_decide (top_pointer = ptr)) then get_checked top_pointer result else Done result) in
    let! last_path := back ptr in
    let! ptr := pop_back ptr in
    at_unchecked ptr (add_child last_path val) result.

(** What [operation_remove] does to the parent: nothing when it is primitive. *)
Definition remove_child (last_path : bytes) (parent : value) : result value :=
  match parent with
  | VObject l =>
      if contains_key last_path parent then Done (VObject (object_erase last_path l))
      else Fail (out_of_range 403 (B "key '" ++ last_path ++ B "' not found"))
  | VArray _ => let! idx := array_index last_path in erase_index idx parent
  | _ => Done parent
  end.

Definition operation_remove (ptr : json_pointer) (result : value) : JsonValue.result value :=
  let! last_path := back ptr in
  let! ptr := pop_back ptr in
  at_checked ptr (remove_child last_path) result.

(** [get_value] on an operation, an object. *)
Definition get_value (val : members) (op member : bytes) (string_type : bool) : result value :=
  let error_msg := if op =s B "op" then B "operation" else B "operation '" ++ op ++ B "'" in
  match object_find member val with
  | None => Fail (parse_error_at 105 0 (error_msg ++ B " must have member '" ++ member ++ B "'"))
  | Some w =>
      if string_type && negb (is_string w) then
        Fail (parse_error_at 105 0 (error_msg ++ B " must have string member '" ++ member ++ B "'"))
      else Done w
  end.
Definition get_string (val : members) (op member : bytes) : result bytes :=
  let! w := get_value val op member true in match w with VString s => Done s | _ => Stuck end.

(** ** [patch] *)

Definition not_operations : exn := parse_error_at 104 0 (B "JSON patch must be an array of objects").

Section patch.
  (** The text of an operation in the message of a failed test. *)
  Context (dump : value -> result bytes).

Definition operation_test (ptr : json_pointer) (val : members) (result : value) : JsonValue.result value :=
    let! success :=
      match get_checked ptr result with
      | Done w => let! v := get_value val (B "test") (B "value") false in Done (value_eqb w v)
      | Fail e => if is_out_of_range e then Done false else Fail e
      | Stuck => Stuck
      end in
    if negb success then
      let! text := dump (VObject val) in Fail (other_error 501 (B "unsuccessful: " ++ text))
    else Done result.

Definition operation (val : members) (result : value) : JsonValue.result value :=
    let! op := get_string val (B "op") (B "op") in
    let! path := get_string val op (B "path") in
    let! ptr := split path in
    match get_op op with
    | add => let! v := get_value val (B "add") (B "value") false in operation_add ptr v result
    | remove => operation_remove ptr result
    | replace =>
        let! v := get_value val (B "replace") (B "value") false in at_checked ptr (fun _ => Done v) result
    | move =>
        let! from_path := get_string val (B "move") (B "from") in
        let! from_ptr := split from_path in
        let! v := get_checked from_ptr result in
        let! result := operation_remove from_ptr result in
        operation_add ptr v result
    | copy =>
        let! from_path := get_string val (B "copy") (B "from") in
        let! from_ptr := split from_path in
        let! v := get_checked from_ptr result in
        operation_add ptr v result
    | test => operation_test ptr val result
    | invalid => Fail (parse_error_at 105 0 (B "operation value '" ++ op ++ B "' is invalid"))
    end.

Fixpoint patch_loop (json_patch : list value) (result : value) : JsonValue.result value :=
    match json_patch with
    | [] => Done result
    | VObject val :: json_patch => let! result := operation val result in patch_loop json_patch result
    | _ => Fail not_operations
    end.

Definition patch (v json_patch : value) : result value :=
    match json_patch with VArray ops => patch_loop ops v | _ => Fail not_operations end.
End patch.

(** ** [diff] *)

(** An initializer list of pairs. *)
Definition object_of (l : list (bytes * value)) : value := from_init (map (fun kv => VArray [VString kv.1; kv.2]) l).

Definition op_replace (path : bytes) (v : value) : value :=
  object_of [(B "op", VString (B "replace")); (B "path", VString path); (B "value", v)].
Definition op_add (path : bytes) (v : value) : value :=
  object_of [(B "op", VString (B "add")); (B "path", VString path); (B "value", v)].
Definition op_remove (path : bytes) : value := object_of [(B "op", VString (B "remove")); (B "path", VString path)].

Definition index_path (path : bytes) (i : Z) : bytes := path ++ "/"%char :: dec i.
Definition key_path (path key : bytes) : bytes := path ++ "/"%char :: escape key.

(** The loops of [diff]: over the common elements; over the elements of the source that are
    left, whose operations go in front of each other; over those of the target that are left. *)
Section loops.
  Context (diff : value -> value -> bytes -> list value) (path : bytes).

Fixpoint diff_elements (i : Z) (source target : list value) : list value :=
    match source, target with
    | v :: source, w :: target => diff v w (index_path path i) ++ diff_elements (i + 1) source target
    | _, _ => []
    end.
Fixpoint remove_elements (i : Z) (source : list value) (removed : list value) : list value :=
    match source with
    | [] => removed
    | _ :: source => remove_elements (i + 1) source (op_remove (index_path path i) :: removed)
    end.
Definition add_elements (target : list value) : list value := map (op_add (path ++ B "/-")) target.

  (** Over the members of the source, and over those of the target. *)
Fixpoint diff_members (source target : members) : list value :=
    match source with
    | [] => []
    | (k, v) :: source =>
        (match object_find k target with
         | Some w => diff v w (key_path path k)
         | None => [op_remove (key_path path k)]
         end) ++ diff_members source target
    end.
Fixpoint add_members (source target : members) : list value :=
    match target with
    | [] => []
    | (k, w) :: target =>
        (if bool_decide (object_find k source = None) then [op_add (key_path path k) w] else []) ++ add_members source target
    end.
End loops.

Fixpoint diff_ops (source target : value) (path : bytes) : list value :=
  if value_eqb source target then []
  else
    match source, target with
    | VArray l, VArray k =>
        diff_elements (fun v w p => diff_ops v w p) path 0 l k ++
        remove_elements path (Z.of_nat (length k)) (drop (length k) l) [] ++
        add_elements path (drop (length l) k)
    | VObject l, VObject k =>
        diff_members (fun v w p => diff_ops v w p) path l k ++ add_members path l k
    | _, _ => [op_replace path target]
    end.

Definition diff (source target : value) : value := VArray (diff_ops source target []).

(** ** [merge_patch] *)

(** The loop over the members of the patch; the value is an object. *)
Section merge.
  Context (merge_patch : value -> value -> value).
Fixpoint merge_members (apply_patch : members) (l : members) : members :=
    match apply_patch with
    | [] => l
    | (k, w) :: apply_patch =>
        merge_members apply_patch
          (if is_null w then object_erase k l else object_at k (fun v => merge_patch w v) l)
    end.
End merge.

(** [merge_patch apply_patch v]: what [v] becomes. *)
Fixpoint merge_patch (apply_patch v : value) : value :=
  match apply_patch with
  | VObject p =>
      let l := match v with VObject l => l | _ => [] end in
      VObject (merge_members (fun w x => merge_patch w x) p l)
  | _ => apply_patch
  end.

Example demo_patch :
  patch (fun _ => Done []) (VObject [(B "a", VArray [VUnsigned 1; VUnsigned 2; VUnsigned 3]); (B "b", VNull)])
    (diff (VObject [(B "a", VArray [VUnsigned 1; VUnsigned 2; VUnsigned 3]); (B "b", VNull)])
          (VObject [(B "a", VArray [VUnsigned 1; VUnsigned 4]); (B "a/~", VString (B "x"))])) =
  Done (VObject [(B "a", VArray [VUnsigned 1; VUnsigned 4]); (B "a/~", VString (B "x"))]).
Proof. vm_compute. reflexivity. Qed.
