(* ===== verification/PointerTheory.v ===== *)
(** * JSON pointers: theorems

    Escaping and unescaping tokens, parsing and printing pointers, array indices; the ways to
    follow a pointer agree where the value exists. *)
From S2P Require Import Prelude CLib Json JsonLexer JsonParser JsonValue JsonPointer.

(** ** [replace_substring] *)

(** Replacing from left to right; [k] characters are part of a match. *)
Fixpoint substitute (f t : bytes) (k : nat) (s : bytes) : bytes :=
  match s with
  | [] => []
  | c :: s' =>
      match k with
      | S k => substitute f t k s'
      | 0 => if starts_with f s then t ++ substitute f t (length f - 1) s' else c :: substitute f t 0 s'
      end
  end.

Lemma starts_with_app f s : starts_with f s = true <-> exists r, s = f ++ r.
Proof.
  revert s. induction f as [|c f IH]; intros s; cbn; [split; [by exists s|done]|]. destruct s as [|d s]; [by split; [|intros []]|].
  rewrite andb_true_iff, IH. split.
  - intros [->%Ascii.eqb_eq [r ->]]. by exists r.
  - intros [r [= -> ->]]. by rewrite Ascii.eqb_refl; eauto.
Qed.

Lemma substitute_skip f t l r : substitute f t (length l) (l ++ r) = substitute f t 0 r.
Proof. induction l as [|c l IH]; [done|exact IH]. Qed.

Section substitute.
  Context (f t : bytes) (Hf : f <> []).

Lemma find_sub_none s : find_sub f s = None -> substitute f t 0 s = s.
Proof.
    induction s as [|c s IH]; [done|]. cbn [find_sub substitute]. destruct (starts_with f (c :: s)); [done|].
    intros Hn. f_equal. apply IH. by destruct (find_sub f s).
Qed.

Lemma find_sub_some s p :
    find_sub f s = Some p ->
    exists l r, s = l ++ f ++ r /\ length l = p /\ substitute f t 0 s = l ++ t ++ substitute f t 0 r.
Proof.
    revert p. induction s as [|c s IH]; intros p; cbn [find_sub].
    { destruct (starts_with f []) eqn:Hs; [|done]. apply starts_with_app in Hs as [r Hr]. by destruct f. }
    destruct (starts_with f (c :: s)) eqn:Hs.
    - intros [= <-]. pose proof Hs as Hs'. apply starts_with_app in Hs as [r Hr]. exists [], r. split; [done|]. split; [done|].
      cbn [substitute]. rewrite Hs'. cbn. f_equal. destruct f as [|c' f']; [done|]. injection Hr as -> ->. cbn [length].
      rewrite Nat.sub_succ, Nat.sub_0_r. apply substitute_skip.
    - destruct (find_sub f s) as [q|] eqn:Hq; [|done]. intros [= <-]. destruct (IH q eq_refl) as (l & r & -> & Hl & He).
      exists (c :: l), r. cbn [substitute]. rewrite Hs. cbn. by rewrite Hl, He.
Qed.

Lemma replace_loop_spec fuel l s :
    length s < fuel -> replace_loop fuel f t (length l) (l ++ s) = l ++ substitute f t 0 s.
Proof.
    revert l s. induction fuel as [|fuel IH]; intros l s Hs; [lia|]. cbn [replace_loop]. rewrite drop_app_length.
    destruct (find_sub f s) as [p|] eqn:Hp; [|by rewrite find_sub_none].
    apply find_sub_some in Hp as (a & r & -> & Ha & ->).
    assert (0 < length f) by (destruct f; [done|cbn; lia]). rewrite !length_app in Hs.
    assert (take (length l + p) (l ++ a ++ f ++ r) = l ++ a) as ->.
    { rewrite take_app_add, <- Ha. by rewrite take_app_length. }
    assert (drop (length l + p + length f) (l ++ a ++ f ++ r) = r) as ->.
    { rewrite <- Nat.add_assoc, drop_app_add, <- Ha, drop_app_add. by rewrite drop_app_length. }
    replace (length l + p + length t) with (length ((l ++ a) ++ t)) by (rewrite !length_app; lia).
    rewrite (app_assoc (l ++ a)), IH by lia. by rewrite <- !app_assoc.
Qed.

Lemma replace_substring_spec s : replace_substring s f t = substitute f t 0 s.
Proof. unfold replace_substring. apply (replace_loop_spec _ []). lia. Qed.
End substitute.

(** ** Escapes *)

(** One character of a token, escaped, and with only the tilde escaped. *)
Definition esc (c : ascii) : bytes := if c =c "~"%char then B "~0" else if c =c "/"%char then B "~1" else [c].
Definition esc_tilde (c : ascii) : bytes := if c =c "~"%char then B "~0" else [c].

Lemma substitute_single d t s : substitute [d] t 0 s = flat_map (fun c => if c =c d then t else [c]) s.
Proof.
  induction s as [|c s IH]; [done|]. cbn [substitute starts_with flat_map length Nat.sub]. rewrite andb_true_r, Ascii.eqb_sym.
  case_test; by rewrite IH.
Qed.

Lemma escape_eq s : escape s = flat_map esc s.
Proof.
  unfold escape. rewrite !replace_substring_spec by done. change (B "~") with ["~"%char]. change (B "/") with ["/"%char].
  rewrite !substitute_single. induction s as [|c s IH]; [done|]. cbn [flat_map]. rewrite flat_map_app, IH. f_equal.
  unfold esc. destruct (c =c "~"%char) eqn:Hc; [done|]. cbn. by destruct (c =c "/"%char).
Qed.

Lemma starts_tilde d c s : starts_with ["~"%char; d] (c :: s) = (c =c "~"%char) && starts_with [d] s.
Proof. cbn [starts_with]. by rewrite (Ascii.eqb_sym c). Qed.

Lemma unescape_escape s : unescape_token (flat_map esc s) = s.
Proof.
  unfold unescape_token. rewrite !replace_substring_spec by done.
  assert (substitute (B "~1") (B "/") 0 (flat_map esc s) = flat_map esc_tilde s) as ->.
  { change (B "~1") with ["~"%char; "1"%char]. change (B "/") with ["/"%char]. induction s as [|c s IH]; [done|]. cbn [flat_map]. unfold esc at 1, esc_tilde at 1.
    destruct (c =c "~"%char) eqn:Hc; [|destruct (c =c "/"%char) eqn:Hd].
    - cbn. by rewrite IH.
    - cbn. rewrite IH. apply Ascii.eqb_eq in Hd as ->. done.
    - cbn [app substitute]. rewrite starts_tilde, Hc. cbn [andb]. by rewrite IH. }
  change (B "~0") with ["~"%char; "0"%char]. change (B "~") with ["~"%char]. induction s as [|c s IH]; [done|]. cbn [flat_map]. unfold esc_tilde at 1.
  destruct (c =c "~"%char) eqn:Hc.
  - cbn. rewrite IH. apply Ascii.eqb_eq in Hc as ->. done.
  - cbn [app substitute]. rewrite starts_tilde, Hc. cbn [andb]. by rewrite IH.
Qed.

Lemma escape_tildes s : tildes_ok (flat_map esc s) = true.
Proof.
  induction s as [|c s IH]; [done|]. cbn [flat_map]. unfold esc at 1. destruct (c =c "~"%char) eqn:Hc; [|destruct (c =c "/"%char)].
  1-2: cbn; by rewrite IH.
  cbn [app tildes_ok]. by rewrite Hc, IH.
Qed.

Lemma escape_no_slash s : Forall (fun c => is_slash c = false) (flat_map esc s).
Proof.
  induction s as [|c s IH]; [constructor|]. cbn [flat_map]. apply Forall_app. split; [|done]. unfold esc.
  destruct (c =c "~"%char) eqn:Hc; [|destruct (c =c "/"%char) eqn:Hd]; by repeat constructor.
Qed.

(** A token whose tildes are escapes is an escaped one. *)
Lemma tildes_escape n s :
  length s <= n -> tildes_ok s = true -> Forall (fun c => is_slash c = false) s -> exists t, s = flat_map esc t.
Proof.
  revert s. induction n as [|n IH]; intros s Hn Ht Hs; [exists []; by destruct s; [|cbn in Hn; lia]|].
  destruct s as [|c s]; [by exists []|]. cbn [tildes_ok] in Ht. apply andb_true_iff in Ht as [Hc Ht].
  apply Forall_cons in Hs as [Hc' Hs]. cbn in Hn. destruct (c =c "~"%char) eqn:He.
  - apply Ascii.eqb_eq in He as ->. destruct s as [|d s]; [done|]. cbn [tildes_ok] in Ht. apply andb_true_iff in Ht as [_ Ht].
    apply Forall_cons in Hs as [_ Hs]. cbn in Hn. destruct (IH s) as [t ->]; [lia|done..|]. cbn in Hc.
    apply orb_true_iff in Hc as [->%Ascii.eqb_eq| ->%Ascii.eqb_eq]; [by exists ("~"%char :: t)|by exists ("/"%char :: t)].
  - destruct (IH s) as [t ->]; [lia|done..|]. exists (c :: t). cbn [flat_map]. unfold esc. rewrite He. unfold is_slash in Hc'. by rewrite Hc'.
Qed.

(** ** Parsing and printing pointers *)

Definition print (ptr : json_pointer) : bytes := flat_map (fun t => "/"%char :: flat_map esc t) ptr.

Lemma to_string_eq ptr : to_string ptr = print ptr.
Proof.
  unfold to_string. change (print ptr) with ([] ++ print ptr). generalize (@nil ascii) as a.
  induction ptr as [|t ptr IH]; intros a; cbn [foldl print flat_map]; [by rewrite app_nil_r|].
  rewrite IH, escape_eq, <- app_assoc. done.
Qed.

Lemma to_string_app p q : to_string (p ++ q) = to_string p ++ to_string q.
Proof. rewrite !to_string_eq. apply flat_map_app. Qed.

Lemma to_string_key p k : to_string (p ++ [k]) = to_string p ++ "/"%char :: escape k.
Proof. rewrite to_string_app. by rewrite (to_string_eq [k]), escape_eq; cbn; rewrite app_nil_r. Qed.

Lemma split_loop_print fuel t ptr :
  length (flat_map esc t ++ print ptr) < fuel -> split_loop fuel (flat_map esc t ++ print ptr) = Done (t :: ptr).
Proof.
  revert t ptr. induction fuel as [|fuel IH]; intros t ptr Hf; [lia|]. cbn [split_loop]. destruct ptr as [|u ptr].
  - cbn [print flat_map]. rewrite app_nil_r, (proj2 (find_if_none _ _)) by apply escape_no_slash.
    by rewrite escape_tildes, unescape_escape.
  - cbn [print flat_map app] in Hf |- *. rewrite find_if_app by (done || apply escape_no_slash).
    rewrite take_app_length, escape_tildes, unescape_escape. cbn [negb].
    replace (drop (S _) _) with (flat_map esc u ++ print ptr).
    2: { rewrite <- Nat.add_1_r, drop_app_add. done. }
    rewrite IH; [done|]. rewrite length_app in Hf. cbn in Hf. unfold print in *. lia.
Qed.

Lemma split_to_string ptr : split (to_string ptr) = Done ptr.
Proof.
  rewrite to_string_eq. destruct ptr as [|t ptr]; [done|]. cbn [print flat_map app split is_slash]. cbn [Ascii.eqb Bool.eqb andb negb].
  apply split_loop_print. unfold print. lia.
Qed.

Lemma split_loop_inv fuel s ptr : split_loop fuel s = Done ptr -> print ptr = "/"%char :: s.
Proof.
  revert s ptr. induction fuel as [|fuel IH]; intros s ptr; [done|]. cbn [split_loop]. destruct (find_if is_slash s) as [p|] eqn:Hp.
  - apply find_if_some in Hp as (l & c & r & -> & <- & Hc & Hl). rewrite take_app_length.
    destruct (tildes_ok l) eqn:Ht; [|done]. cbn [negb].
    replace (drop (S (length l)) (l ++ c :: r)) with r by (rewrite <- Nat.add_1_r, drop_app_add; done).
    destruct (split_loop fuel r) as [q|e|] eqn:Hr; [|done..]. intros [= <-]. apply IH in Hr. cbn [print flat_map]. fold (print q). rewrite Hr.
    destruct (tildes_escape (length l) l) as [t ->]; [done..|]. rewrite unescape_escape. apply Ascii.eqb_eq in Hc as ->. done.
  - apply find_if_none in Hp. destruct (tildes_ok s) eqn:Ht; [|done]. cbn [negb]. intros [= <-]. cbn [print flat_map]. rewrite app_nil_r.
    destruct (tildes_escape (length s) s) as [t Hs]; [done..|]. by rewrite Hs, unescape_escape.
Qed.

Lemma to_string_split s ptr : split s = Done ptr -> to_string ptr = s.
Proof.
  rewrite to_string_eq. destruct s as [|c s]; [by intros [= <-]|]. cbn [split]. destruct (is_slash c) eqn:Hc; [|done]. cbn [negb].
  intros ->%split_loop_inv. apply Ascii.eqb_eq in Hc as ->. done.
Qed.

(** ** Array indices *)

Lemma take_while_digits ds r : Forall (fun c => isdigit c = true) ds -> take_while isdigit (ds ++ r) = ds ++ take_while isdigit r.
Proof. induction 1 as [|c ds Hc _ IH]; [done|]. cbn. by rewrite Hc, IH. Qed.

Lemma dec_nonneg i : (0 <= i)%Z -> dec i = dec_nat i.
Proof. intros Hi. unfold dec. by rewrite (proj2 (Z.ltb_ge i 0)). Qed.

Lemma strtoull_end_dec i : (0 <= i < 2 ^ 64)%Z -> strtoull_end (dec i) = (i, length (dec i), false).
Proof.
  intros Hi. rewrite dec_nonneg by lia. pose proof (dec_nat_digits i ltac:(lia)) as Hd. pose proof (dec_nat_value i ltac:(lia)) as Hv.
  destruct (dec_nat i) as [|c ds] eqn:He; [by apply dec_nat_nonnil in He|]. unfold strtoull_end.
  pose proof (Forall_cons_1 _ _ _ Hd) as [Hc _]. cbn [take_while drop_while]. rewrite isdigit_not_space by done.
  assert ((c =c "-"%char) = false /\ (c =c "+"%char) = false) as [-> ->].
  { split; apply Ascii.eqb_neq; intros ->; discriminate Hc. }
  cbn [length]. rewrite <- (app_nil_r (c :: ds)), take_while_digits by done. cbn [take_while]. rewrite app_nil_r, Hv.
  by rewrite (proj2 (Z.leb_gt _ _)) by lia.
Qed.

Lemma array_index_dec i : (0 <= i < 2 ^ 64 - 1)%Z -> array_index (dec i) = Done i.
Proof.
  intros Hi. unfold array_index. rewrite strtoull_end_dec by lia.
  assert (negb (length (dec i) =? length (dec i)) = false) as -> by by rewrite Nat.eqb_refl.
  rewrite (proj2 (Z.leb_gt (2 ^ 64 - 1) i)) by lia. rewrite dec_nonneg by lia.
  assert ((length (dec_nat i) =? 0)%nat = false) as ->.
  { apply Nat.eqb_neq. pose proof (dec_nat_nonnil i). by destruct (dec_nat i). }
  cbn [orb]. destruct (Z_lt_le_dec i 10) as [Hs|Hs].
  - rewrite dec_nat_small by lia. done.
  - destruct (dec_nat_head i ltac:(lia)) as (d & ds & -> & Hd). cbn [nth length].
    assert (code (digit_chr d) = d + 48)%Z as Hc by (unfold digit_chr; apply code_chr; lia).
    assert ((digit_chr d =c "0"%char) = false) as ->.
    { apply Ascii.eqb_neq. intros Hz. rewrite Hz in Hc. change (code "0") with 48%Z in Hc. lia. }
    rewrite andb_false_r. rewrite Hc. change (code "1") with 49%Z. change (code "9") with 57%Z.
    rewrite (proj2 (Z.leb_le _ _)), (proj2 (Z.leb_le _ _)) by lia. by rewrite andb_false_r.
Qed.

Lemma dec_not_minus i : (0 <= i)%Z -> (dec i =s B "-") = false.
Proof.
  intros Hi. apply bool_decide_eq_false. rewrite dec_nonneg by done. intros He. pose proof (dec_nat_digits i Hi) as Hd.
  rewrite He in Hd. apply Forall_cons in Hd as [Hd _]. discriminate Hd.
Qed.

Lemma take_while_full p (s : bytes) : length (take_while p s) = length s -> Forall (fun c => p c = true) s.
Proof.
  induction s as [|c s IH]; [constructor|]. cbn [take_while]. destruct (p c) eqn:Hc; [|done]. cbn. intros [= Hl]. constructor; auto.
Qed.

(** An index is digits. *)
Lemma array_index_digits t i : array_index t = Done i -> t <> [] /\ Forall (fun c => isdigit c = true) t /\ (0 <= i)%Z.
Proof.
  unfold array_index. destruct (_ && _); [done|]. destruct (_ && _) eqn:Hd; [done|].
  destruct (strtoull_end t) as [[res read] erange] eqn:Hs. destruct ((read =? 0)%nat || erange || negb (read =? length t)%nat) eqn:Hr; [done|].
  destruct (2 ^ 64 - 1 <=? res)%Z; [done|]. intros [= <-].
  to_prop. destruct t as [|c t]; [injection Hs as <- <- <-; done|]. split; [done|]. unfold strtoull_end in Hs. cbn [nth length] in *.
  destruct (isspace c) eqn:Hc.
  { exfalso. assert (t = []) as ->.
    { destruct t as [|d t]; [done|]. exfalso. destruct Hd as [Hd|Hd]; [done|]. to_prop. unfold isspace in Hc.
      change (code "1") with 49%Z in *. to_prop. lia. }
    cbn [take_while drop_while] in Hs. rewrite Hc in Hs. cbn in Hs. injection Hs as <- <- <-. done. }
  cbn [take_while drop_while length] in Hs. rewrite Hc in Hs. cbn [length] in Hs.
  destruct ((c =c "-"%char) || (c =c "+"%char)) eqn:Hsign.
  { exfalso. destruct t as [|d t].
    - assert ((0%Z, 0, false) = (res, read, erange)) as [= <- <- <-]; [|done]. rewrite <- Hs. by destruct (c =c "-"%char), (c =c "+"%char).
    - destruct Hd as [Hd|Hd]; [done|]. to_prop. destruct Hsign as [Hsg|Hsg]; to_prop; subst c; by vm_compute in H2. }
  apply orb_false_iff in Hsign as [Hs1 Hs2]. rewrite Hs1, Hs2 in Hs. cbn [take_while] in Hs. destruct (isdigit c) eqn:Hdig.
  2: { injection Hs as <- <- <-. done. }
  assert (length (take_while isdigit t) = length t) as Ht.
  { destruct (2 ^ 64 <=? _)%Z; injection Hs as <- <- <-; [done|]. cbn [length] in *. lia. }
  apply take_while_full in Ht. split; [by constructor|].
  destruct (2 ^ 64 <=? _)%Z; injection Hs as <- <- <-; [lia|]. apply isdigit_range in Hdig.
  apply dec_value_nonneg; [lia|]. clear -Ht. induction Ht as [|d t Hd _ IH]; [constructor|]. cbn. rewrite Hd. by constructor.
Qed.

(** ** The ways to follow a pointer *)

Lemma array_index_token t i : array_index t = Done i -> index_token t = true.
Proof.
  intros Hi. pose proof Hi as (Hne & Hd & _)%array_index_digits. unfold index_token.
  assert (t =s B "-" = false) as -> by (apply bool_decide_eq_false; intros ->; apply Forall_cons in Hd as [Hd _]; discriminate Hd).
  destruct t as [|c t]; [done|]. cbn [nth length negb andb]. change (drop 1 (c :: t)) with t. pose proof (Forall_cons_1 _ _ _ Hd) as [Hc Ht].
  assert (forallb isdigit t = true) as -> by by apply forallb_Forall.
  assert ((code "0" <=? code c)%Z && (code c <=? code "9")%Z = true) as -> by exact Hc. cbn [negb orb]. rewrite andb_false_r, orb_false_r. cbn [negb andb].
  unfold array_index in Hi. cbn [nth length] in Hi. destruct (_ && (c =c "0"%char)); [done|].
  rewrite ?orb_false_r. match goal with |- negb ?b = true => destruct b eqn:Hn end; [|done]. discriminate Hi.
Qed.

Lemma index_token_not_minus t : index_token t = true -> (t =s B "-") = false.
Proof. unfold index_token. by destruct (t =s B "-"). Qed.

Lemma get_checked_contains p v w : get_checked p v = Done w -> contains p v = Done true /\ get_unchecked p v = Done w.
Proof.
  revert v. induction p as [|t p IH]; intros v; [done|]. cbn [get_checked contains get_unchecked].
  destruct v as [| | | | | | |l|l]; try done.
  - destruct (t =s B "-"); [done|]. destruct (array_index t) as [i| |] eqn:Hi; [|done..]. cbn [rbind at_index const_index size].
    rewrite (array_index_token _ _ Hi). cbn [negb]. destruct (l !! Z.to_nat i) as [x|] eqn:Hx; [|done]. cbn [rbind]. intros [Hc Hu]%IH.
    apply array_index_digits in Hi as (_ & _ & Hi). apply lookup_lt_Some in Hx. by rewrite (proj2 (Z.leb_gt _ _)) by lia.
  - cbn [at_key const_key contains_key]. destruct (object_find t l) as [x|] eqn:Hx; [|done]. cbn [rbind]. intros [Hc Hu]%IH. done.
Qed.

Lemma contains_get_checked p v : contains p v = Done true -> exists w, get_checked p v = Done w.
Proof.
  revert v. induction p as [|t p IH]; intros v; [by exists v|]. cbn [get_checked contains].
  destruct v as [| | | | | | |l|l]; try done.
  - destruct (index_token t) eqn:Ht; [|done]. cbn [negb]. rewrite (index_token_not_minus _ Ht).
    destruct (array_index t) as [i| |] eqn:Hi; [|done..]. cbn [rbind at_index const_index size].
    destruct (_ <=? _)%Z; [done|]. destruct (l !! Z.to_nat i) as [x|]; [|done]. cbn [rbind]. apply IH.
  - cbn [at_key const_key contains_key]. destruct (object_find t l) as [x|] eqn:Hx; [|done]. cbn [rbind]. apply IH.
Qed.

(** [contains] throws on an empty token for an array, and on one that is too large. *)
Lemma contains_throws l :
  contains [[]] (VArray l) = Fail (unresolved []) /\
  contains [B "99999999999999999999"] (VArray l) = Fail (unresolved (B "99999999999999999999")).
Proof. split; reflexivity. Qed.

(** C16: JSON pointers: printing and parsing are inverse to each other on every pointer and every
    text that parses, escapes included; an array index is read back from its decimal text; the
    checked and the unchecked access and [contains] agree on which values exist. *)
Theorem pointer_correct :
  (forall ptr, split (to_string ptr) = Done ptr) /\
  (forall s ptr, split s = Done ptr -> to_string ptr = s) /\
  (forall i, (0 <= i < 2 ^ 64 - 1)%Z -> array_index (dec i) = Done i) /\
  (forall ptr v w, get_checked ptr v = Done w -> contains ptr v = Done true /\ get_unchecked ptr v = Done w) /\
  (forall ptr v, contains ptr v = Done true -> exists w, get_checked ptr v = Done w).
Proof.
  split; [apply split_to_string|]. split; [apply to_string_split|]. split; [apply array_index_dec|].
  split; [apply get_checked_contains|apply contains_get_checked].
Qed.
