(* ===== verification/PatchTheory.v ===== *)
(** * JSON patches: theorems

    Applying the patch that [diff] makes of two values to the first gives the second, up to
    [operator==]; what the operations do at the edges. *)
From S2P Require Import Prelude CLib Json JsonLexer JsonParser JsonValue JsonPointer JsonPatch PointerTheory.
From Stdlib Require Import SpecFloat.

(** ** Values *)

Definition is_nan (x : spec_float) : bool := match x with S754_nan => true | _ => false end.

(** What every value in memory is: maps are ordered, arrays are shorter than the address space;
    and no number is a NaN. *)
Fixpoint tidy (v : value) : bool :=
  match v with
  | VFloat x => negb (is_nan x)
  | VArray l => (Z.of_nat (length l) <? 2 ^ 63)%Z && forallb tidy l
  | VObject l => increasing (map fst l) && forallb (fun kv => tidy kv.2) l
  | _ => true
  end.

(** Numbers as the parser makes them of integers below [2^63]. *)
Fixpoint uniform (v : value) : bool :=
  match v with
  | VInteger z => (z <? 0)%Z
  | VUnsigned z => (0 <=? z)%Z && (z <? 2 ^ 63)%Z
  | VFloat _ => false
  | VArray l => forallb uniform l
  | VObject l => forallb (fun kv => uniform kv.2) l
  | _ => true
  end.

Lemma tidy_array l : tidy (VArray l) = true <-> (Z.of_nat (length l) < 2 ^ 63)%Z /\ Forall (fun v => tidy v = true) l.
Proof. cbn [tidy]. by rewrite andb_true_iff, Z.ltb_lt, forallb_Forall. Qed.

Lemma tidy_object l : tidy (VObject l) = true <-> increasing (map fst l) = true /\ Forall (fun kv => tidy kv.2 = true) l.
Proof. cbn [tidy]. by rewrite andb_true_iff, forallb_Forall. Qed.

Lemma list_equal_Forall2 {A} (eq : A -> A -> bool) l k : list_equal eq l k = true <-> Forall2 (fun x y => eq x y = true) l k.
Proof.
  revert k. induction l as [|x l IH]; intros [|y k]; cbn; split; intros H; try done; try by inv H.
  - apply andb_true_iff in H as [? ?]. constructor; [done|]. by apply IH.
  - inv H. apply andb_true_iff. split; [done|]. by apply IH.
Qed.

Lemma pairs_equal_Forall2 {A} (eq : A -> A -> bool) l k :
  pairs_equal eq l k = true <-> Forall2 (fun x y => x.1 = y.1 /\ eq x.2 y.2 = true) l k.
Proof.
  revert k. induction l as [|[a x] l IH]; intros [|[b y] k]; cbn; split; intros H; try done; try by inv H.
  - to_prop. constructor; [done|]. by apply IH.
  - inv H. cbn in *. destruct H3 as [-> ->]. rewrite bool_decide_true by done. by apply IH.
Qed.

Lemma SFeqb_refl x : is_nan x = false -> SFeqb x x = true.
Proof.
  destruct x as [s|s| |s m e]; [by destruct s..|done|]. intros _. unfold SFeqb, SFcompare. destruct s; rewrite Z.compare_refl, Pos.compare_refl; done.
Qed.

Lemma value_eqb_refl v : tidy v = true -> value_eqb v v = true.
Proof.
  induction v as [v Hv|l IH|l IH] using value_induction.
  - destruct v; try done; cbn [tidy value_eqb]; intros Ht; to_prop.
    + by destruct b.
    + apply Z.eqb_refl.
    + apply Z.eqb_refl.
    + by apply SFeqb_refl.
    + by apply bool_decide_true.
    + by apply bool_decide_true.
  - intros [_ Ht]%tidy_array. cbn [value_eqb]. apply list_equal_Forall2. revert Ht.
    induction IH as [|v l Hv _ IH]; intros Ht; constructor; apply Forall_cons in Ht as [? ?]; auto.
  - intros [_ Ht]%tidy_object. cbn [value_eqb]. apply pairs_equal_Forall2. revert Ht.
    induction IH as [|v l Hv _ IH]; intros Ht; constructor; apply Forall_cons in Ht as [? ?]; auto.
Qed.

Lemma value_eqb_uniform v w : uniform v = true -> uniform w = true -> value_eqb v w = true -> v = w.
Proof.
  revert w. induction v as [v Hv|l IH|l IH] using value_induction; intros w.
  - destruct v, w; cbn [uniform value_eqb]; intros; to_prop; try done; try congruence.
    + f_equal. by apply eqb_prop.
    + unfold to_signed, wraps in *. rewrite Z.mod_small in * by lia. lia.
    + unfold to_signed, wraps in *. rewrite Z.mod_small in * by lia. lia.
  - destruct w as [| | | | | | |k|k]; try done. cbn [uniform value_eqb]. rewrite !forallb_Forall. intros Hl Hk He%list_equal_Forall2. f_equal.
    revert IH Hl Hk. induction He as [|v w l k Hvw _ IH']; intros Hi Hl Hk; [done|].
    apply Forall_cons in Hi as [? ?], Hl as [? ?], Hk as [? ?]. f_equal; auto.
  - destruct w as [| | | | | | |k|k]; try done. cbn [uniform value_eqb]. rewrite !forallb_Forall. intros Hl Hk He%pairs_equal_Forall2. f_equal.
    revert IH Hl Hk. induction He as [|[a v] [b w] l k [Hab Hvw] _ IH']; intros Hi Hl Hk; [done|].
    apply Forall_cons in Hi as [? ?], Hl as [? ?], Hk as [? ?]. cbn in *. subst b. f_equal; [f_equal|]; auto.
Qed.

(** ** Changing what a pointer refers to *)

Lemma at_checked_app p q f v : at_checked (p ++ q) f v = at_checked p (at_checked q f) v.
Proof.
  revert v. induction p as [|t p IH]; intros v; [done|]. cbn [app at_checked]. destruct v; try done.
  - case_test; [done|]. destruct (array_index t); [|done..]. cbn [rbind]. destruct (at_index a (VArray l)); [|done..]. cbn [rbind]. by rewrite IH.
  - destruct (at_key t (VObject l)); [|done..]. cbn [rbind]. by rewrite IH.
Qed.

Lemma get_checked_app p q v : get_checked (p ++ q) v = let! w := get_checked p v in get_checked q w.
Proof.
  revert v. induction p as [|t p IH]; intros v; [done|]. cbn [app get_checked]. destruct v; try done.
  - case_test; [done|]. destruct (array_index t); [|done..]. cbn [rbind]. destruct (at_index a (VArray l)); [|done..]. cbn [rbind]. by rewrite IH.
  - destruct (at_key t (VObject l)); [|done..]. cbn [rbind]. by rewrite IH.
Qed.

Lemma at_key_set k w v x : at_key k v = Done x -> at_key k (set_key k w v) = Done w /\ forall u, set_key k u (set_key k w v) = set_key k u v.
Proof.
  destruct v; try done. cbn. intros _. rewrite object_find_at. split; [done|]. intros u. by rewrite object_at_at.
Qed.

Lemma at_index_set i w v x : at_index i v = Done x -> at_index i (set_index i w v) = Done w /\ forall u, set_index i u (set_index i w v) = set_index i u v.
Proof.
  destruct v; try done. cbn. destruct (l !! Z.to_nat i) as [y|] eqn:Hl; [|done]. intros _.
  rewrite list_lookup_insert_eq by (by apply lookup_lt_Some in Hl). split; [done|]. intros u. by rewrite list_insert_insert_eq.
Qed.

Lemma set_index_same i v x : at_index i v = Done x -> set_index i x v = v.
Proof. destruct v; try done. cbn. destruct (l !! Z.to_nat i) eqn:Hl; [|done]. intros [= ->]. by rewrite list_insert_id. Qed.

Lemma set_key_same k v x : at_key k v = Done x -> set_key k x v = v.
Proof. destruct v; try done. cbn. destruct (object_find k l) eqn:Hl; [|done]. intros [= ->]. by erewrite object_at_find. Qed.

(** The value after [w] replaced what the pointer refers to. *)
Definition replaced (p : json_pointer) (w v : value) : result value := at_checked p (fun _ => Done w) v.

Lemma at_checked_value p f v a : get_checked p v = Done a -> at_checked p f v = let! w := f a in replaced p w v.
Proof.
  unfold replaced. revert v. induction p as [|t p IH]; intros v; [cbn; intros [= ->]; by destruct (f a)|]. cbn [get_checked at_checked].
  destruct v; try done.
  - case_test; [done|]. destruct (array_index t); [|done..]. cbn [rbind]. destruct (at_index _ (VArray l)) as [x| |]; [|done..]. cbn [rbind]. intros Hg.
    rewrite (IH x Hg). by destruct (f a).
  - destruct (at_key t (VObject l)) as [x| |]; [|done..]. cbn [rbind]. intros Hg. rewrite (IH x Hg). by destruct (f a).
Qed.

Lemma replaced_ok p v a w :
  get_checked p v = Done a ->
  exists v', replaced p w v = Done v' /\ get_checked p v' = Done w /\ forall u, replaced p u v' = replaced p u v.
Proof.
  unfold replaced. revert v. induction p as [|t p IH]; intros v; [cbn; intros _; by exists w|]. cbn [get_checked at_checked].
  destruct v as [| | | | | | |l|l]; try done.
  - destruct (t =s B "-") eqn:Ht; [done|]. destruct (array_index t) as [i| |]; [|done..]. cbn [rbind].
    destruct (at_index i (VArray l)) as [x| |] eqn:Hx; [|done..]. cbn [rbind]. intros (x' & -> & Hg & Hr)%IH. cbn [rbind].
    eexists. split; [done|]. destruct (at_index_set i x' _ _ Hx) as [Ha Hs]. cbn [set_index] in *. rewrite Ha. cbn [rbind].
    split; [done|]. intros u. rewrite Hr. destruct (at_checked p _ x); [|done..]. cbn [rbind]. by rewrite Hs.
  - destruct (at_key t (VObject l)) as [x| |] eqn:Hx; [|done..]. cbn [rbind]. intros (x' & -> & Hg & Hr)%IH. cbn [rbind].
    eexists. split; [done|]. destruct (at_key_set t x' _ _ Hx) as [Ha Hs]. cbn [set_key] in *. rewrite Ha. cbn [rbind].
    split; [done|]. intros u. rewrite Hr. destruct (at_checked p _ x); [|done..]. cbn [rbind]. by rewrite Hs.
Qed.

Lemma replaced_same p v a : get_checked p v = Done a -> replaced p a v = Done v.
Proof.
  unfold replaced. revert v. induction p as [|t p IH]; intros v; [by intros [= ->]|]. cbn [get_checked at_checked].
  destruct v as [| | | | | | |l|l]; try done.
  - case_test; [done|]. destruct (array_index t) as [i| |]; [|done..]. cbn [rbind].
    destruct (at_index i (VArray l)) as [x| |] eqn:Hx; [|done..]. cbn [rbind]. intros ->%IH. cbn [rbind]. f_equal. by apply set_index_same.
  - destruct (at_key t (VObject l)) as [x| |] eqn:Hx; [|done..]. cbn [rbind]. intros ->%IH. cbn [rbind]. f_equal. by apply set_key_same.
Qed.

(** Where the value exists, nothing is created. *)
Lemma at_unchecked_checked p f v a : get_checked p v = Done a -> at_unchecked p f v = at_checked p f v.
Proof.
  revert v. induction p as [|t p IH]; intros v; [done|]. cbn [get_checked at_unchecked at_checked].
  destruct v as [| | | | | | |l|l]; try done.
  - case_test; [done|]. destruct (array_index t) as [i| |]; [|done..]. cbn [rbind at_index].
    destruct (l !! Z.to_nat i) as [x|] eqn:Hx; [|done]. cbn [rbind sub_index]. intros Hg.
    assert (resize (Z.to_nat (i + 1)) l = l) as ->.
    { unfold resize. apply lookup_lt_Some in Hx. replace (Z.to_nat (i + 1) - length l) with 0 by lia. apply app_nil_r. }
    erewrite nth_lookup_Some by done. cbn [rbind]. by rewrite (IH x Hg).
  - cbn [at_key sub_key]. destruct (object_find t l) as [x|] eqn:Hx; [|done]. cbn [rbind default id from_option]. intros Hg.
    rewrite (object_at_find _ _ _ _ Hx) by done. by rewrite (IH x Hg).
Qed.

(** ** Runs: operations that change what [p] refers to *)

Section runs.
  Context (dump : value -> result bytes).

Definition run (ops : list value) (p : json_pointer) (v w : value) : Prop :=
    forall whole, get_checked p whole = Done v -> patch_loop dump ops whole = replaced p w whole.

Lemma patch_loop_app o1 o2 v : patch_loop dump (o1 ++ o2) v = let! w := patch_loop dump o1 v in patch_loop dump o2 w.
Proof.
    revert v. induction o1 as [|o o1 IH]; intros v; [done|]. destruct o; try done. cbn [app patch_loop].
    destruct (operation _ _ _); [apply IH|done..].
Qed.

Lemma run_nil p v : run [] p v v.
Proof. intros whole Hg. cbn. by rewrite (replaced_same _ _ _ Hg). Qed.

Lemma run_app o1 o2 p u v w : run o1 p u v -> run o2 p v w -> run (o1 ++ o2) p u w.
Proof.
    intros H1 H2 whole Hg. rewrite patch_loop_app, (H1 _ Hg). destruct (replaced_ok _ _ _ v Hg) as (x & -> & Hx & Hr). cbn [rbind].
    by rewrite (H2 _ Hx).
Qed.

  (** Within a part. *)
Lemma run_child ops p t v w x y :
    get_checked [t] v = Done x -> replaced [t] y v = Done w -> run ops (p ++ [t]) x y -> run ops p v w.
Proof.
    intros Hx Hy Hrun whole Hg. rewrite Hrun by by rewrite get_checked_app, Hg. unfold replaced at 1.
    rewrite at_checked_app, (at_checked_value _ _ _ _ Hg). fold (replaced [t] y v). by rewrite Hy.
Qed.

  (** Single operations. *)
Lemma run_one o p v w :
    (forall whole, get_checked p whole = Done v -> operation dump o whole = replaced p w whole) -> run [VObject o] p v w.
Proof. intros Ho whole Hg. cbn [patch_loop]. rewrite (Ho _ Hg). by destruct (replaced p w whole). Qed.

  (** The members of an operation are found. *)
Lemma operation_eq o p rest v :
    operation dump ((B "op", VString o) :: (B "path", VString (to_string p)) :: rest) v =
    let val := (B "op", VString o) :: (B "path", VString (to_string p)) :: rest in
    match get_op o with
    | add => let! w := get_value val (B "add") (B "value") false in operation_add p w v
    | remove => operation_remove p v
    | replace => let! w := get_value val (B "replace") (B "value") false in at_checked p (fun _ => Done w) v
    | _ => operation dump val v
    end.
Proof.
    unfold operation. change (get_string _ (B "op") (B "op")) with (@Done bytes o). cbn [rbind].
    change (get_string _ o (B "path")) with (Done (to_string p)). cbn [rbind]. rewrite split_to_string. cbn [rbind].
    cbv zeta. by destruct (get_op o).
Qed.

Lemma run_replace p v w : run [op_replace (to_string p) w] p v w.
Proof.
    change (op_replace (to_string p) w) with
      (VObject [(B "op", VString (B "replace")); (B "path", VString (to_string p)); (B "value", w)]).
    apply run_one. intros whole Hg. by rewrite operation_eq.
Qed.

Lemma run_remove p t v w : remove_child t v = Done w -> run [op_remove (to_string (p ++ [t]))] p v w.
Proof.
    intros Hw. change (op_remove ?s) with (VObject [(B "op", VString (B "remove")); (B "path", VString s)]).
    apply run_one. intros whole Hg. rewrite operation_eq. change (get_op (B "remove")) with remove. cbv zeta iota.
    unfold operation_remove, back, pop_back.
    rewrite last_snoc. cbn [rbind]. destruct (p ++ [t]) as [|t' p'] eqn:Hp; [by destruct p|]. rewrite <- Hp, removelast_last. cbn [rbind].
    by rewrite (at_checked_value _ _ _ _ Hg), Hw.
Qed.

Lemma run_add p t x v w : add_child t x v = Done w -> run [op_add (to_string (p ++ [t])) x] p v w.
Proof.
    intros Hw. change (op_add ?s x) with (VObject [(B "op", VString (B "add")); (B "path", VString s); (B "value", x)]).
    apply run_one. intros whole Hg. rewrite operation_eq. change (get_op (B "add")) with add. cbv zeta iota.
    change (get_value _ _ _ _) with (Done x). cbn [rbind]. unfold operation_add, back, pop_back.
    rewrite last_snoc. rewrite bool_decide_false by by destruct p. cbn [rbind].
    assert (top (p ++ [t]) = Done (take 1 (p ++ [t]))) as -> by by destruct p. cbn [rbind].
    assert (exists y, (if negb (bool_decide (take 1 (p ++ [t]) = p ++ [t])) then get_checked (take 1 (p ++ [t])) whole else Done whole) = Done y) as [y ->].
    { destruct p as [|t1 p]; [exists whole; by rewrite bool_decide_true|]. rewrite bool_decide_false by by destruct p. cbn [negb].
      rewrite <- (take_drop 1 (t1 :: p)), get_checked_app in Hg. change (take 1 ((t1 :: p) ++ [t])) with (take 1 (t1 :: p)).
      destruct (get_checked (take 1 (t1 :: p)) whole) as [y| |]; [by exists y|done..]. }
    cbn [rbind]. destruct (p ++ [t]) as [|t' p'] eqn:Hp; [by destruct p|]. rewrite <- Hp, removelast_last. cbn [rbind].
    by rewrite (at_unchecked_checked _ _ _ _ Hg), (at_checked_value _ _ _ _ Hg), Hw.
Qed.
End runs.

(** ** [diff] *)

Section diff.
  Context (dump : value -> result bytes).
  Abbreviation run := (run dump).

  (** What the patch of [v] and [w] makes of [v]. *)
Definition becomes (v w r : value) : Prop := value_eqb r w = true /\ (uniform v = true -> uniform w = true -> r = w).
Definition patched (v : value) : Prop :=
    tidy v = true -> forall w p, tidy w = true -> exists r, run (diff_ops v w (to_string p)) p v r /\ becomes v w r.

Lemma becomes_self v w : tidy w = true -> becomes v w w.
Proof. intros Hw. split; [by apply value_eqb_refl|done]. Qed.

Lemma index_path_eq p i : index_path (to_string p) i = to_string (p ++ [dec i]).
Proof.
    unfold index_path. rewrite to_string_key, escape_eq. do 2 f_equal. assert (Forall (fun c => esc c = [c]) (dec i)) as Hd.
    { unfold dec. assert (forall n, (0 <= n)%Z -> Forall (fun c => esc c = [c]) (dec_nat n)) as Hn.
      { intros n Hn. eapply Forall_impl; [by apply dec_nat_digits|]. intros c Hc. unfold esc.
        repeat (case_test; [to_prop; subst; discriminate Hc|]). done. }
      destruct (i <? 0)%Z eqn:Hi; to_prop; [constructor; [done|]|]; apply Hn; lia. }
    induction Hd as [|c s Hc _ IH]; [done|]. cbn [flat_map]. by rewrite Hc, <- IH.
Qed.

Lemma run_index p i pre v post r ops :
    Z.of_nat (length pre) = i -> (i < 2 ^ 63)%Z -> run ops (p ++ [dec i]) v r ->
    run ops p (VArray (pre ++ v :: post)) (VArray (pre ++ r :: post)).
Proof.
    intros Hi Hb Hrun. assert (at_index i (VArray (pre ++ v :: post)) = Done v) as Ha.
    { cbn. by rewrite <- Hi, Nat2Z.id, list_lookup_middle. }
    apply (run_child dump ops p (dec i) _ _ v r); [..|done].
    - cbn [get_checked]. by rewrite dec_not_minus, array_index_dec by lia; cbn [rbind]; rewrite Ha.
    - unfold replaced. cbn [at_checked]. rewrite dec_not_minus, array_index_dec by lia. cbn [rbind]. rewrite Ha. cbn [rbind set_index].
      by rewrite <- Hi, Nat2Z.id, insert_app_r_alt, Nat.sub_diag by lia.
Qed.

Lemma diff_elements_run p i pre l k :
    Z.of_nat (length pre) = i -> (i + Z.of_nat (length l) < 2 ^ 63)%Z ->
    Forall patched l -> Forall (fun v => tidy v = true) l -> Forall (fun v => tidy v = true) k ->
    exists r, length r = min (length l) (length k) /\
      run (diff_elements (fun v w p => diff_ops v w p) (to_string p) i l k) p (VArray (pre ++ l)) (VArray (pre ++ r ++ drop (length k) l)) /\
      Forall2 (fun x y => value_eqb x y = true) r (take (length l) k) /\
      (forallb uniform l = true -> forallb uniform k = true -> r = take (length l) k).
Proof.
    intros Hi Hb Hl. revert i pre k Hi Hb. induction Hl as [|v l Hv Hl IH]; intros i pre k Hi Hb Htl Htk.
    { exists []. rewrite drop_nil. split_and!; [done|apply run_nil|constructor|done]. }
    destruct Htk as [|w k Hw Htk].
    { exists []. split_and!; [done|apply run_nil|constructor|done]. }
    apply Forall_cons in Htl as [Htv Htl]. cbn [length] in Hb. destruct (Hv Htv w (p ++ [dec i]) Hw) as (r & Hr & He & Hu).
    destruct (IH (i + 1)%Z (pre ++ [r]) k) as (rs & Hlen & Hrs & Hes & Hus); [rewrite length_app; cbn; lia|lia|done..|].
    exists (r :: rs). cbn [length take drop diff_elements forallb]. split_and!.
    - lia.
    - rewrite index_path_eq. eapply run_app; [by eapply run_index; [..|exact Hr]; lia|]. rewrite <- !app_assoc in Hrs. exact Hrs.
    - by constructor.
    - intros [??]%andb_true_iff [??]%andb_true_iff. f_equal; auto.
Qed.

Lemma remove_elements_run p i x l w ops :
    Z.of_nat (length x) = i -> (i + Z.of_nat (length l) < 2 ^ 63)%Z -> run ops p (VArray x) w ->
    run (remove_elements (to_string p) i l ops) p (VArray (x ++ l)) w.
Proof.
    revert i x ops. induction l as [|v l IH]; intros i x ops Hi Hb Hrun; [by rewrite app_nil_r|]. cbn [remove_elements length] in *.
    replace (x ++ v :: l) with ((x ++ [v]) ++ l) by by rewrite <- app_assoc. apply IH; [rewrite length_app; cbn; lia|lia|].
    change (op_remove ?s :: ops) with ([op_remove s] ++ ops). eapply run_app; [|exact Hrun]. rewrite index_path_eq.
    apply run_remove. cbn [remove_child]. rewrite array_index_dec by lia. cbn [rbind erase_index size].
    rewrite length_app. cbn [length]. rewrite (proj2 (Z.leb_gt _ _)) by lia. do 2 f_equal. unfold list_erase.
    by rewrite <- Hi, Nat2Z.id, take_app_length, drop_ge, app_nil_r by (rewrite length_app; cbn; lia).
Qed.

Lemma add_elements_run p x l : run (add_elements (to_string p) l) p (VArray x) (VArray (x ++ l)).
Proof.
    revert x. induction l as [|v l IH]; intros x; [rewrite app_nil_r; apply run_nil|]. cbn [add_elements map].
    change (?o :: ?l) with ([o] ++ l). eapply run_app; [|rewrite (app_assoc x [v]); apply IH].
    replace (to_string p ++ B "/-") with (to_string (p ++ [B "-"])) by by rewrite to_string_key, escape_eq.
    by apply run_add.
Qed.

Lemma run_key p k l v r ops :
    object_find k l = Some v -> run ops (p ++ [k]) v r -> run ops p (VObject l) (VObject (object_at k (fun _ => r) l)).
Proof.
    intros Hk Hrun. assert (at_key k (VObject l) = Done v) as Ha by (cbn; by rewrite Hk).
    apply (run_child dump ops p k _ _ v r); [..|done].
    - cbn [get_checked]. by rewrite Ha.
    - unfold replaced. cbn [at_checked]. by rewrite Ha.
Qed.

  (** What a member of the source became. *)
Definition member_patched (v : value) (w r : option value) : Prop :=
    match w with Some w => exists x, r = Some x /\ becomes v w x | None => r = None end.

Lemma diff_members_run p l k cur :
    increasing (map fst l) = true -> increasing (map fst cur) = true ->
    Forall (fun kv => patched kv.2) l -> Forall (fun kv => tidy kv.2 = true) l -> tidy (VObject k) = true ->
    (forall key v, object_find key l = Some v -> object_find key cur = Some v) ->
    exists cur', run (diff_members (fun v w p => diff_ops v w p) (to_string p) l k) p (VObject cur) (VObject cur') /\
      increasing (map fst cur') = true /\
      forall key, match object_find key l with
                  | Some v => member_patched v (object_find key k) (object_find key cur')
                  | None => object_find key cur' = object_find key cur
                  end.
Proof.
    intros Hi Hc Hl Ht Hk. revert cur Hi Hc. induction Hl as [|[k1 v] l Hv Hl IH]; intros cur Hi Hc Hcur.
    { exists cur. split; [apply run_nil|done]. }
    cbn [map fst] in Hi. apply increasing_cons in Hi as [Hlt Hi]. apply Forall_cons in Ht as [Htv Ht]. cbn in Hv, Htv.
    assert (object_find k1 cur = Some v) as Hk1 by (apply Hcur; cbn; by rewrite bytes_lt_irrefl, bool_decide_true).
    assert (exists cur1, run (match object_find k1 k with Some w => diff_ops v w (key_path (to_string p) k1) | None => [op_remove (key_path (to_string p) k1)] end)
              p (VObject cur) (VObject cur1) /\ increasing (map fst cur1) = true /\
              member_patched v (object_find k1 k) (object_find k1 cur1) /\
              forall key, key <> k1 -> object_find key cur1 = object_find key cur) as (cur1 & Hr1 & Hi1 & Hm1 & Ho1).
    { unfold key_path. rewrite <- to_string_key. destruct (object_find k1 k) as [w|] eqn:Hw.
      - assert (tidy w = true) as Htw.
        { apply tidy_object in Hk as [Hik Hk]. apply (object_find_elem _ _ _ Hik) in Hw. rewrite Forall_forall in Hk. by apply (Hk _ Hw). }
        destruct (Hv Htv w (p ++ [k1]) Htw) as (r & Hr & Hb). exists (object_at k1 (fun _ => r) cur). split_and!.
        + by eapply run_key.
        + by apply object_at_increasing.
        + rewrite object_find_at. by exists r.
        + intros key Hne. by apply object_find_at_ne.
      - exists (object_erase k1 cur). split_and!.
        + apply run_remove. cbn [remove_child contains_key]. by rewrite Hk1.
        + by apply object_erase_increasing.
        + cbn. by rewrite object_find_erase, decide_True.
        + intros key Hne. by rewrite object_find_erase, decide_False. }
    assert (object_find k1 l = None) as Hnl by by apply object_find_lt.
    destruct (IH Ht cur1) as (cur' & Hr' & Hi' & Hm'); [done|done| |].
    { intros key x Hx. rewrite Ho1; [|congruence]. apply Hcur. cbn. case_test.
      - rewrite object_find_lt in Hx; [done|]. eapply Forall_impl; [exact Hlt|]. intros y. by apply bytes_lt_trans.
      - case_test; [to_prop; congruence|done]. }
    exists cur'. split; [cbn [diff_members]; by eapply run_app|]. split; [done|]. intros key. cbn [object_find].
    destruct (bytes_lt key k1) eqn:Hkk.
    - specialize (Hm' key). rewrite object_find_lt in Hm'.
      + rewrite Hm'. apply Ho1. intros ->. by rewrite bytes_lt_irrefl in Hkk.
      + eapply Forall_impl; [exact Hlt|]. intros y. by apply bytes_lt_trans.
    - case_bool_decide as He.
      + subst key. specialize (Hm' k1). rewrite Hnl in Hm'. by rewrite Hm'.
      + specialize (Hm' key). destruct (object_find key l); [done|]. rewrite Hm'. by apply Ho1.
Qed.

Lemma add_members_run p l k cur :
    increasing (map fst k) = true -> increasing (map fst cur) = true ->
    exists cur', run (add_members (to_string p) l k) p (VObject cur) (VObject cur') /\ increasing (map fst cur') = true /\
      forall key, object_find key cur' =
        match object_find key l, object_find key k with None, Some w => Some w | _, _ => object_find key cur end.
Proof.
    revert cur. induction k as [|[k1 w] k IH]; intros cur Hi Hc.
    { exists cur. split; [apply run_nil|]. split; [done|]. intros key. by destruct (object_find key l). }
    cbn [map fst] in Hi. apply increasing_cons in Hi as [Hlt Hi].
    assert (exists cur1, run (if bool_decide (object_find k1 l = None) then [op_add (key_path (to_string p) k1) w] else []) p (VObject cur) (VObject cur1) /\
              increasing (map fst cur1) = true /\
              forall key, object_find key cur1 = if decide (key = k1 /\ object_find k1 l = None) then Some w else object_find key cur)
      as (cur1 & Hr1 & Hi1 & Ho1).
    { case_bool_decide as Hn.
      - exists (object_at k1 (fun _ => w) cur). split_and!.
        + unfold key_path. rewrite <- to_string_key. apply run_add. cbn [add_child sub_key rbind set_key]. by rewrite object_at_at.
        + by apply object_at_increasing.
        + intros key. destruct (decide (key = k1 /\ object_find k1 l = None)) as [[-> _]|Hd]; [by rewrite object_find_at|].
          apply object_find_at_ne. naive_solver.
      - exists cur. split; [apply run_nil|]. split; [done|]. intros key. rewrite decide_False; [done|]. naive_solver. }
    destruct (IH cur1 Hi Hi1) as (cur' & Hr' & Hi' & Ho').
    exists cur'. split; [cbn [add_members]; by eapply run_app|]. split; [done|]. intros key. rewrite Ho', Ho1. cbn [object_find].
    destruct (bytes_lt key k1) eqn:Hkk.
    - rewrite (object_find_lt key k) by (eapply Forall_impl; [exact Hlt|]; intros y; by apply bytes_lt_trans).
      rewrite decide_False; [by destruct (object_find key l)|]. intros [-> _]. by rewrite bytes_lt_irrefl in Hkk.
    - destruct (decide (key = k1)) as [->|He]; [rewrite bool_decide_true by done|rewrite bool_decide_false by done].
      + rewrite (object_find_lt k1 k) by done. destruct (object_find k1 l); [by rewrite decide_False by naive_solver|by rewrite decide_True].
      + rewrite decide_False by naive_solver. by destruct (object_find key l), (object_find key k).
Qed.
End diff.

Lemma forallb_find f key v l :
  forallb (fun kv : bytes * value => f kv.2) l = true -> increasing (map fst l) = true -> object_find key l = Some v -> f v = true.
Proof. intros Hl Hi Hk. apply (object_find_elem _ _ _ Hi) in Hk. rewrite forallb_Forall, Forall_forall in Hl. by apply (Hl _ Hk). Qed.

Lemma Forall2_eq_list {A} (l k : list A) : Forall2 (fun x y => x = y) l k -> l = k.
Proof. induction 1; congruence. Qed.

Lemma object_becomes l k r :
  tidy (VObject l) = true -> tidy (VObject k) = true -> increasing (map fst r) = true ->
  (forall key, match object_find key k with
               | Some w => exists x, object_find key r = Some x /\
                   (value_eqb x w = true) /\ (forallb (fun kv => uniform kv.2) l = true -> forallb (fun kv => uniform kv.2) k = true -> x = w)
               | None => object_find key r = None
               end) ->
  becomes (VObject l) (VObject k) (VObject r).
Proof.
  intros [Hil _]%tidy_object [Hik _]%tidy_object Hir Hr. split.
  - cbn [value_eqb]. apply pairs_equal_Forall2, (object_rel (fun x y => value_eqb x y = true)); [done..|]. intros key. specialize (Hr key).
    destruct (object_find key k); [destruct Hr as (x & -> & ? & _); by constructor|]. rewrite Hr. constructor.
  - cbn [uniform]. intros Hul Huk. f_equal. assert (Forall2 (fun x y => x = y) r k) as Hrk; [|by apply Forall2_eq_list].
    eapply Forall2_impl; [apply (object_rel (fun x y => x = y)); [done..|]|intros [] []; cbn; naive_solver].
    intros key. specialize (Hr key). destruct (object_find key k); [destruct Hr as (x & -> & _ & Hx); rewrite Hx by done; by constructor|].
    rewrite Hr. constructor.
Qed.

Section diff_run.
  Context (dump : value -> result bytes).

Lemma diff_array_run l : Forall (patched dump) l -> patched dump (VArray l).
Proof.
    intros Hl Hv w p Hw. cbn [diff_ops]. destruct (value_eqb (VArray l) w) eqn:He.
    { exists (VArray l). split; [apply run_nil|]. split; [done|]. intros ? ?. by apply value_eqb_uniform. }
    destruct w as [| | | | | | |k|k]; try (exists w; split; [apply run_replace|by apply becomes_self]).
    all: try (eexists; split; [apply run_replace|by apply becomes_self]).
    apply tidy_array in Hv as [Hll Htl], Hw as [Hlk Htk].
    destruct (diff_elements_run dump p 0 [] l k) as (r & Hlen & Hr & Hb & Hu); [done|lia|done..|]. cbn [app] in Hr.
    exists (VArray (r ++ drop (length l) k)). split.
    - eapply run_app; [exact Hr|]. eapply run_app; [|apply add_elements_run].
      destruct (Nat.le_gt_cases (length l) (length k)).
      + rewrite (drop_ge l), app_nil_r by lia. apply run_nil.
      + apply remove_elements_run; [lia|rewrite length_drop; lia|apply run_nil].
    - split.
      + cbn [value_eqb]. apply list_equal_Forall2. rewrite <- (take_drop (length l) k) at 2. apply Forall2_app; [done|].
        apply Forall_Forall2_diag, Forall_drop. eapply Forall_impl; [exact Htk|]. intros x. apply value_eqb_refl.
      + cbn [uniform]. intros Hul Huk. rewrite Hu by done. by rewrite take_drop.
Qed.

Lemma diff_object_run l : Forall (fun kv => patched dump kv.2) l -> patched dump (VObject l).
Proof.
    intros Hl Hv w p Hw. cbn [diff_ops]. destruct (value_eqb (VObject l) w) eqn:He.
    { exists (VObject l). split; [apply run_nil|]. split; [done|]. intros ? ?. by apply value_eqb_uniform. }
    destruct w as [| | | | | | |k|k]; try (eexists; split; [apply run_replace|by apply becomes_self]).
    pose proof Hv as [Hil Htl]%tidy_object. pose proof Hw as [Hik Htk]%tidy_object.
    destruct (diff_members_run dump p l k l) as (cur & Hr & Hi & Hm); [done..|].
    destruct (add_members_run dump p l k cur) as (cur' & Hr' & Hi' & Ha); [done..|].
    exists (VObject cur'). split; [by eapply run_app|]. apply object_becomes; [done..|]. intros key. rewrite Ha. specialize (Hm key).
    destruct (object_find key l) as [v|] eqn:Hkl, (object_find key k) as [w|] eqn:Hkk; cbn [member_patched] in Hm.
    - destruct Hm as (x & -> & He1 & Hu). exists x. split; [done|]. split; [done|]. intros Hul Huk.
      apply Hu; [exact (forallb_find _ _ _ _ Hul Hil Hkl)|exact (forallb_find _ _ _ _ Huk Hik Hkk)].
    - done.
    - exists w. split; [done|]. split; [|done]. apply value_eqb_refl. apply (object_find_elem _ _ _ Hik) in Hkk.
      rewrite Forall_forall in Htk. by apply (Htk _ Hkk).
    - done.
Qed.

Lemma diff_run v : patched dump v.
Proof.
    induction v as [v Hp|l IH|l IH] using value_induction; [|by apply diff_array_run|by apply diff_object_run].
    intros Hv w p Hw. assert (diff_ops v w (to_string p) = if value_eqb v w then [] else [op_replace (to_string p) w]) as ->.
    { destruct v; try done; by destruct w. }
    destruct (value_eqb v w) eqn:He.
    - exists v. split; [apply run_nil|]. split; [done|]. intros ? ?. by apply value_eqb_uniform.
    - exists w. split; [apply run_replace|by apply becomes_self].
Qed.
End diff_run.

(** C15: [diff] is right: the patch it makes of two values, applied to the first, succeeds and gives
    a value that is equal to the second, for any values, nested to any depth, with any keys; it
    is the second itself when their numbers are unsigned or negative integers below [2^63]. *)
Theorem patch_diff (dump : value -> result bytes) (source target : value) :
  tidy source = true -> tidy target = true ->
  exists r, patch dump source (diff source target) = Done r /\ value_eqb r target = true /\
    (uniform source = true -> uniform target = true -> r = target).
Proof.
  intros Hs Ht. destruct (diff_run dump source Hs target [] Ht) as (r & Hr & He & Hu). exists r. split; [|done].
  unfold patch, diff. exact (Hr source eq_refl).
Qed.

Definition demo_source : value :=
  VObject [(B "a", VArray [VUnsigned 1; VObject [(B "k", VNull)]; VUnsigned 3; VNull]); (B "b", VNull); (B "c/~d", VInteger (-1))].
Definition demo_target : value :=
  VObject [(B "a", VArray [VUnsigned 1; VObject [(B "k", VString (B "x"))]]); (B "a~1", VBool true); (B "c/~d", VArray [])].

Lemma patch_diff_witness : patch (fun _ => Done []) demo_source (diff demo_source demo_target) = Done demo_target.
Proof.
  destruct (patch_diff (fun _ => Done []) demo_source demo_target) as (r & Hr & _ & Hu); [vm_compute; reflexivity..|].
  rewrite Hu in Hr; [exact Hr|vm_compute; reflexivity..].
Defined.

(** ** What the operations do at the edges *)

(** [operator==] confuses an unsigned number with the signed one of the same bits, and is not
    transitive; [diff] then sees no difference. *)
Lemma diff_misses_sign : diff (VInteger (-1)) (VUnsigned (2 ^ 64 - 1)) = VArray [].
Proof. vm_compute. reflexivity. Qed.

Lemma equality_not_transitive :
  value_eqb (VInteger (-1)) (VUnsigned (2 ^ 64 - 1)) = true /\
  value_eqb (VUnsigned (2 ^ 64 - 1)) (VFloat (to_double (2 ^ 64 - 1))) = true /\
  value_eqb (VInteger (-1)) (VFloat (to_double (2 ^ 64 - 1))) = false.
Proof. vm_compute. done. Qed.

(** Adding below a primitive value fails an assertion; removing below one does nothing. *)
Lemma add_below_primitive dump b :
  patch dump (VObject [(B "a", VBool b)]) (VArray [op_add (B "/a/b") VNull]) = Stuck.
Proof. vm_compute. reflexivity. Qed.

Lemma remove_below_primitive dump b :
  patch dump (VObject [(B "a", VBool b)]) (VArray [op_remove (B "/a/b")]) = Done (VObject [(B "a", VBool b)]).
Proof. vm_compute. reflexivity. Qed.

(** Adding creates what is missing below the first token. *)
Lemma add_creates_parents dump :
  patch dump (VObject [(B "a", VObject [])]) (VArray [op_add (B "/a/b/c") VNull]) =
  Done (VObject [(B "a", VObject [(B "b", VObject [(B "c", VNull)])])]).
Proof. vm_compute. reflexivity. Qed.
