(* ===== verification/Binary.v ===== *)
(** * The binary formats: reader and writer of [include/json.hpp]

    What [binary_reader] and [binary_writer] do for every format: the state of the reader and
    its input, the errors it reports to the SAX handler, numbers, strings and byte arrays; the
    bytes of numbers.  A member function of the reader that returns [bool] is a computation
    over the reader and the handler: it has a value, or it ends with what the function returns
    instead ([false], or an exception).  [None] is missing fuel or an undefined call of the
    handler. *)
From S2P Require Import Prelude CLib Json JsonLexer JsonParser JsonValue BinaryFloat.
From Stdlib Require Import SpecFloat.

Module input_format_t.
Inductive t := json | cbor | msgpack | ubjson | bson.
End input_format_t.

Module cbor_tag_handler_t.
Inductive t := error | ignore | store.
End cbor_tag_handler_t.

(** ** The reader *)

(** What is left of the input, the last character read ([None] is end of file), and a count. *)
Record reader := MkReader { ia : bytes; current : option ascii; chars_read : Z }.

Definition mk_reader (input : bytes) : reader := MkReader input None 0.

Definition current_int (r : reader) : Z := match current r with Some c => code c | None => -1 end.
Definition current_char (r : reader) : ascii := match current r with Some c => c | None => chr 255 end.

(** ["%.2hhX"]. *)
Definition hex_upper (d : Z) : ascii := if (d <? 10)%Z then chr (48 + d) else chr (55 + d).
Definition hex_byte (c : Z) : bytes := [hex_upper (c / 16); hex_upper (c mod 16)].
Definition get_token_string (r : reader) : bytes := hex_byte (code (current_char r)).

Definition format_name (format : input_format_t.t) : bytes :=
  match format with
  | input_format_t.cbor => B "CBOR" | input_format_t.msgpack => B "MessagePack"
  | input_format_t.ubjson => B "UBJSON" | input_format_t.bson => B "BSON" | input_format_t.json => []
  end.
Definition exception_message (format : input_format_t.t) (detail context : bytes) : bytes :=
  B "syntax error while parsing " ++ format_name format ++ B " " ++ context ++ B ": " ++ detail.

(** The handler's events with a length: [2 ^ 64 - 1] when it is not known. *)
Class SizedSAX (S : Type) `{SAX S} := {
  sax_start_object_of : Z -> S -> option (sax_end * S);
  sax_start_array_of : Z -> S -> option (sax_end * S) }.

Definition no_size : Z := 2 ^ 64 - 1.

(** [max_size] of [std::vector] and [std::map] for elements of 16 and nodes of 80 bytes. *)
Definition array_max_size : Z := (2 ^ 63 - 1) / 16.
Definition object_max_size : Z := (2 ^ 63 - 1) / 80.

Definition dom_start_of (what : bytes) (max_size : Z) (v : value) (len : Z) (d : dom_parser) : option (sax_end * dom_parser) :=
  '(b, d) ← dom_start v d;
  Some (if negb (len =? no_size)%Z && (max_size <? len)%Z
        then Raise (out_of_range 408 (B "excessive " ++ what ++ B " size: " ++ dec len)) else Ret b, d).

#[export] Instance dom_SizedSAX : SizedSAX dom_parser := {
  sax_start_object_of := dom_start_of (B "object") object_max_size (VObject []);
  sax_start_array_of := dom_start_of (B "array") array_max_size (VArray []) }.

(** A value, or what the function returns instead. *)
Inductive step (A : Type) := Val (a : A) | Return (r : sax_end).
Arguments Val {A} a.
Arguments Return {A} r.

Section reader.
  Context {H : Type} `{SizedSAX H}.

Definition M (A : Type) : Type := reader -> H -> option (step A * reader * H).

Definition ret {A} (a : A) : M A := fun r s => Some (Val a, r, s).
Definition stuck {A} : M A := fun _ _ => None.
Definition bindM {A C} (m : M A) (k : A -> M C) : M C := fun r s =>
  '(x, r, s) ← m r s; match x with Val a => k a r s | Return e => Some (Return e, r, s) end.

(** Calls of the handler: [true] goes on. *)
Definition ends (e : sax_end) (r : reader) (s : H) : option (step unit * reader * H) :=
  Some (match e with Ret true => Val tt | _ => Return e end, r, s).
Definition call (f : H -> option (bool * H)) : M unit := fun r s => '(b, s) ← f s; ends (Ret b) r s.
Definition call_sized (f : H -> option (sax_end * H)) : M unit := fun r s => '(e, s) ← f s; ends e r s.

(** [sax->parse_error] with a position and the token, and [parse_error::create]. *)
Definition report_at (position : Z) (token : bytes) (id : Z) (message : bytes) : M unit := fun r s =>
  let '(e, s) := sax_parse_error (Z.to_nat position) token (parse_error_at id position message) s in ends e r s.
Definition report (token : bytes) (id : Z) (message : bytes) : M unit := fun r s => report_at (chars_read r) token id message r s.

(** A call whose result is not looked at. *)
Definition ignored {A} (default : A) (m : M A) : M A := fun r s =>
  '(x, r, s) ← m r s; Some (match x with Return (Ret false) => Val default | _ => x end, r, s).

Definition get : M Z := fun r s =>
  let r := match ia r with
           | [] => MkReader [] None (chars_read r + 1)
           | c :: i => MkReader i (Some c) (chars_read r + 1)
           end in Some (Val (current_int r), r, s).

(** [get_ignore_noop]: the next character that is not an N. *)
Fixpoint noop_loop (fuel : nat) : M Z :=
  match fuel with
  | 0 => stuck
  | S fuel => bindM get (fun c => if (c =? 78)%Z then noop_loop fuel else ret c)
  end.
Definition get_ignore_noop : M Z := fun r s => noop_loop (S (length (ia r))) r s.

Definition the_current : M Z := fun r s => Some (Val (current_int r), r, s).
Definition the_char : M ascii := fun r s => Some (Val (current_char r), r, s).
Definition the_token : M bytes := fun r s => Some (Val (get_token_string r), r, s).

Definition unexpect_eof (format : input_format_t.t) (context : bytes) : M unit := fun r s =>
  match current r with
  | None => report (B "<end of file>") 110 (exception_message format (B "unexpected end of input") context) r s
  | Some _ => Some (Val tt, r, s)
  end.
End reader.

Arguments M : clear implicits.
Notation "'let*' x ':=' m 'in' k" := (bindM m (fun x => k)) (at level 200, x pattern, m at level 100, k at level 200) : fdfs_scope.
Notation "m ';;*' k" := (bindM m (fun _ => k)) (at level 99, right associativity) : fdfs_scope.

Section reading.
  Context {H : Type} `{SizedSAX H}.

(** An error about the last byte; a handler may go on, with what there is. *)
Definition bad_byte {A} (default : A) (format : input_format_t.t) (id : Z) (detail context : bytes) : M H A :=
  let* token := the_token in
  report token id (exception_message format (detail ++ token) context) ;;* ret default.

(** ** Numbers, strings, byte arrays *)

Definition big_endian (l : bytes) : Z := foldl (fun a c => a * 256 + code c)%Z 0%Z l.

Fixpoint get_bytes (format : input_format_t.t) (n : nat) : M H bytes :=
  match n with
  | 0 => ret []
  | S n =>
      get ;;* unexpect_eof format (B "number") ;;*
      let* c := the_char in let* l := get_bytes format n in ret (c :: l)
  end.

(** An unsigned number of [n] bytes; a signed one of them has the same bytes. *)
Definition get_number (format : input_format_t.t) (n : nat) : M H Z := let* l := get_bytes format n in ret (big_endian l).
Definition get_signed (format : input_format_t.t) (n : nat) : M H Z := let* z := get_number format n in ret (wraps (8 * Z.of_nat n) z).
Definition get_float (format : input_format_t.t) : M H spec_float := let* z := get_number format 4 in ret (from_float (of_bits32 z)).
Definition get_double (format : input_format_t.t) : M H spec_float := let* z := get_number format 8 in ret (of_bits64 z).

(** The same numbers with the lowest byte first. *)
Definition get_number_le (format : input_format_t.t) (n : nat) : M H Z := let* l := get_bytes format n in ret (big_endian (rev l)).
Definition get_signed_le (format : input_format_t.t) (n : nat) : M H Z :=
  let* z := get_number_le format n in ret (wraps (8 * Z.of_nat n) z).

(** The loops of [get_string] and [get_binary]: a round reads a character or fails. *)
Fixpoint get_loop (fuel : nat) (format : input_format_t.t) (context : bytes) (len : Z) : M H bytes :=
  if (len <=? 0)%Z then ret []
  else
    match fuel with
    | 0 => stuck
    | S fuel =>
        get ;;* unexpect_eof format context ;;*
        let* c := the_char in let* l := get_loop fuel format context (len - 1) in ret (c :: l)
    end.
Definition get_string (format : input_format_t.t) (len : Z) : M H bytes :=
  fun r s => get_loop (S (length (ia r))) format (B "string") len r s.
Definition get_binary (format : input_format_t.t) (len : Z) : M H bytes :=
  fun r s => get_loop (S (length (ia r))) format (B "binary") len r s.

(** ** Loops *)

Section loops.
  Context {A : Type} (body : M H A).

(** [for (i = 0; i < len; ++i)]. *)
Fixpoint for_len (fuel : nat) (len : Z) : M H unit :=
  if (len <=? 0)%Z then ret tt
  else match fuel with 0 => stuck | S fuel => body ;;* for_len fuel (len - 1) end.

(** [while (get() != 0xFF)], with what the rounds give. *)
Fixpoint while_no_break (fuel : nat) : M H (list A) :=
  match fuel with
  | 0 => stuck
  | S fuel =>
      let* c := get in
      if (c =? 0xFF)%Z then ret [] else let* a := body in let* l := while_no_break fuel in ret (a :: l)
  end.
End loops.

(** [binary_reader::sax_parse] around the function of the format: in strict mode the input must
    end behind the value. *)
Definition sax_parse (format : input_format_t.t) (strict : bool) (parse_internal : M H unit) : M H unit :=
  parse_internal ;;*
  if strict then
    let* c := match format with input_format_t.ubjson => get_ignore_noop | _ => get end in
    if negb (c =? -1)%Z then bad_byte tt format 110 (B "expected end of input; last byte: 0x") (B "value") else ret tt
  else ret tt.
End reading.

(** [from_cbor] and its like: the handler builds the value. *)
Definition from_binary (allow_exceptions : bool) (input : bytes) (parse : M dom_parser unit) : option parse_result :=
  '(x, _, d) ← parse (mk_reader input) (mk_dom VNull allow_exceptions);
  Some match x with
       | Val _ | Return (Ret true) => Parsed (root d)
       | Return (Ret false) => Discarded
       | Return (Raise e) => Thrown e
       end.

(** ** The writer *)

(** [write_number]: [n] bytes, the highest first. *)
Fixpoint write_number (n : nat) (z : Z) : bytes :=
  match n with 0 => [] | S n => chr ((z / 256 ^ Z.of_nat n) mod 256) :: write_number n z end.

Definition write_number_le (n : nat) (z : Z) : bytes := rev (write_number n z).

Definition write_character (c : Z) : bytes := [chr c].

(** [write_compact_float] with the bytes that announce a [float] and a [double]. *)
Definition write_compact_float (float_prefix double_prefix : Z) (n : spec_float) : bytes :=
  if SFleb float_lowest n && SFleb n float_max && SFeqb (from_float (to_float n)) n then
    write_character float_prefix ++ write_number 4 (bits32 (to_float n))
  else write_character double_prefix ++ write_number 8 (bits64 n).
