(* ===== verification/Cbor.v ===== *)
(** * CBOR: [to_cbor] and [from_cbor] of [include/json.hpp]

    [write_cbor] and [parse_cbor_internal] with the functions for strings, byte arrays, arrays
    and objects.  The cases of the big switch are functions of the first byte, grouped by what
    they read; [None] means that the byte belongs to another group. *)
From S2P Require Import Prelude CLib Json JsonLexer JsonParser JsonValue BinaryFloat Binary.
From Stdlib Require Import SpecFloat.

Abbreviation cbor := input_format_t.cbor.

(** ** The writer *)

(** The control byte of a kind and a number in as few bytes as possible: the number itself, or
    the length of what follows. *)
Definition write_head (kind N : Z) : bytes :=
  if (N <=? 0x17)%Z then write_number 1 (kind + N)
  else if (N <=? 0xFF)%Z then write_character (kind + 0x18) ++ write_number 1 N
  else if (N <=? 0xFFFF)%Z then write_character (kind + 0x19) ++ write_number 2 N
  else if (N <=? 0xFFFFFFFF)%Z then write_character (kind + 0x1A) ++ write_number 4 N
  else write_character (kind + 0x1B) ++ write_number 8 N.

Definition write_cbor_integer (z : Z) : bytes := if (0 <=? z)%Z then write_head 0 z else write_head 0x20 (-1 - z).

Definition write_cbor_float (x : spec_float) : bytes :=
  match x with
  | S754_nan => write_character 0xF9 ++ write_character 0x7E ++ write_character 0x00
  | S754_infinity s => write_character 0xF9 ++ write_character (if s then 0xFC else 0x7C) ++ write_character 0x00
  | _ => write_compact_float 0xFA 0xFB x
  end.

Definition write_cbor_string (s : bytes) : bytes := write_head 0x60 (Z.of_nat (length s)) ++ s.

(** The subtype is a tag in front. *)
Definition write_cbor_subtype (t : Z) : bytes :=
  if (t <=? 0xFF)%Z then write_number 1 0xD8 ++ write_number 1 t
  else if (t <=? 0xFFFF)%Z then write_number 1 0xD9 ++ write_number 2 t
  else if (t <=? 0xFFFFFFFF)%Z then write_number 1 0xDA ++ write_number 4 t
  else write_number 1 0xDB ++ write_number 8 t.
Definition write_cbor_binary (b : byte_container) : bytes :=
  match m_subtype b with Some t => write_cbor_subtype t | None => [] end ++
  write_head 0x40 (Z.of_nat (length (bin_data b))) ++ bin_data b.

Fixpoint write_cbor (j : value) : bytes :=
  match j with
  | VNull => write_character 0xF6
  | VBool b => write_character (if b then 0xF5 else 0xF4)
  | VInteger z => write_cbor_integer z
  | VUnsigned z => write_head 0 z
  | VFloat x => write_cbor_float x
  | VString s => write_cbor_string s
  | VBinary b => write_cbor_binary b
  | VArray l => write_head 0x80 (Z.of_nat (length l)) ++ flat_map write_cbor l
  | VObject l =>
      write_head 0xA0 (Z.of_nat (length l)) ++ flat_map (fun kv => write_cbor_string (fst kv) ++ write_cbor (snd kv)) l
  end.

Definition to_cbor (j : value) : bytes := write_cbor j.

(** ** The reader *)

Section reader.
  Context {H : Type} `{SizedSAX H} (tag_handler : cbor_tag_handler_t.t).

(** How many bytes of a number follow the byte [c] of a kind. *)
Definition bytes_following (kind c : Z) : option nat :=
  if (c =? kind + 0x18)%Z then Some 1 else if (c =? kind + 0x19)%Z then Some 2
  else if (c =? kind + 0x1A)%Z then Some 4 else if (c =? kind + 0x1B)%Z then Some 8 else None.

(** The length in the control byte [c] of a kind, or behind it. *)
Definition get_length (kind c : Z) : option (M H Z) :=
  if (kind <=? c)%Z && (c <=? kind + 0x17)%Z then Some (ret (Z.land c 0x1F))
  else n ← bytes_following kind c; Some (get_number cbor n).

(** Strings: the rounds of the indefinite form are strings again. *)
Fixpoint get_cbor_string (fuel : nat) : M H bytes :=
  match fuel with
  | 0 => stuck
  | S fuel =>
      unexpect_eof cbor (B "string") ;;*
      let* c := the_current in
      match get_length 0x60 c with
      | Some length => let* len := length in get_string cbor len
      | None =>
          if (c =? 0x7F)%Z then let* chunks := while_no_break (get_cbor_string fuel) fuel in ret (concat chunks)
          else
            bad_byte [] cbor 113
              (B "expected length specification (0x60-0x7B) or indefinite string type (0x7F); last byte: 0x") (B "string")
      end
  end.

Fixpoint get_cbor_binary (fuel : nat) : M H bytes :=
  match fuel with
  | 0 => stuck
  | S fuel =>
      unexpect_eof cbor (B "binary") ;;*
      let* c := the_current in
      match get_length 0x40 c with
      | Some length => let* len := length in get_binary cbor len
      | None =>
          if (c =? 0x5F)%Z then let* chunks := while_no_break (get_cbor_binary fuel) fuel in ret (concat chunks)
          else
            bad_byte [] cbor 113
              (B "expected length specification (0x40-0x5B) or indefinite binary array type (0x5F); last byte: 0x") (B "binary")
      end
  end.

(** Integers. *)
Definition cbor_unsigned (c : Z) : option (M H unit) :=
  if (0 <=? c)%Z && (c <=? 0x17)%Z then Some (call (sax_number_unsigned c))
  else n ← bytes_following 0 c; Some (let* number := get_number cbor n in call (sax_number_unsigned number)).

Definition cbor_negative (c : Z) : option (M H unit) :=
  if (0x20 <=? c)%Z && (c <=? 0x37)%Z then Some (call (sax_number_integer (wraps 8 (0x20 - 1 - c))))
  else n ← bytes_following 0x20 c; Some (let* number := get_number cbor n in call (sax_number_integer (-1 - wraps 64 number))).

(** Null, false, true, and floating point numbers. *)
Definition cbor_half : M H unit :=
  get ;;* unexpect_eof cbor (B "number") ;;* let* byte1 := the_char in
  get ;;* unexpect_eof cbor (B "number") ;;* let* byte2 := the_char in
  call (sax_number_float (half_value (code byte1 * 256 + code byte2)) []).

Definition cbor_simple (c : Z) : option (M H unit) :=
  if (c =? 0xF4)%Z then Some (call (sax_boolean false))
  else if (c =? 0xF5)%Z then Some (call (sax_boolean true))
  else if (c =? 0xF6)%Z then Some (call sax_null)
  else if (c =? 0xF9)%Z then Some cbor_half
  else if (c =? 0xFA)%Z then Some (let* number := get_float cbor in call (sax_number_float number []))
  else if (c =? 0xFB)%Z then Some (let* number := get_double cbor in call (sax_number_float number []))
  else None.

(** A length in front of elements or members; [2 ^ 64 - 1] for the indefinite form. *)
Definition get_container_length (kind c : Z) : option (M H Z) :=
  match get_length kind c with
  | Some length => Some length
  | None => if (c =? kind + 0x1F)%Z then Some (ret no_size) else None
  end.

(** A tag and the number behind its byte. *)
Definition is_tag (c : Z) : bool := ((0xC6 <=? c) && (c <=? 0xD4) || (0xD8 <=? c) && (c <=? 0xDB))%Z.
Definition get_subtype (c : Z) : option (M H Z) := n ← bytes_following 0xC0 c; Some (ignored 0%Z (get_number cbor n)).

Section containers.
  Context (fuel : nat) (parse : bool -> M H unit).

Definition get_cbor_array (len : Z) : M H unit :=
  call_sized (sax_start_array_of len) ;;*
  (if negb (len =? no_size)%Z then for_len (parse true) fuel len
   else while_no_break (parse false) fuel ;;* ret tt) ;;*
  call sax_end_array.

Definition cbor_member : M H unit :=
  let* key := get_cbor_string fuel in call (sax_key key) ;;* parse true.

Definition get_cbor_object (len : Z) : M H unit :=
  call_sized (sax_start_object_of len) ;;*
  (if negb (len =? 0)%Z then
     if negb (len =? no_size)%Z then for_len (get ;;* cbor_member) fuel len
     else while_no_break cbor_member fuel ;;* ret tt
   else ret tt) ;;*
  call sax_end_object.

Definition cbor_tag (c : Z) : M H unit :=
  match tag_handler with
  | cbor_tag_handler_t.error => bad_byte tt cbor 112 (B "invalid byte: 0x") (B "value")
  | cbor_tag_handler_t.ignore =>
      match get_subtype c with Some m => m ;;* parse true | None => parse true end
  | cbor_tag_handler_t.store =>
      match get_subtype c with
      | Some m =>
          let* subtype := m in
          get ;;* let* b := get_cbor_binary fuel in call (sax_binary (MkBinary b (Some subtype)))
      | None => parse true
      end
  end.
(** The switch on the first byte. *)
Definition cbor_value (c : Z) : M H unit :=
  if (c =? -1)%Z then unexpect_eof cbor (B "value")
  else
    match cbor_unsigned c, cbor_negative c with
    | Some m, _ | _, Some m => m
    | None, None =>
        if (0x40 <=? c)%Z && (c <=? 0x5B)%Z || (c =? 0x5F)%Z then
          let* b := get_cbor_binary fuel in call (sax_binary (MkBinary b None))
        else if (0x60 <=? c)%Z && (c <=? 0x7B)%Z || (c =? 0x7F)%Z then
          let* s := get_cbor_string fuel in call (sax_string s)
        else
          match get_container_length 0x80 c, get_container_length 0xA0 c, cbor_simple c with
          | Some length, _, _ => let* len := length in get_cbor_array len
          | _, Some length, _ => let* len := length in get_cbor_object len
          | _, _, Some m => m
          | None, None, None =>
              if is_tag c then cbor_tag c else bad_byte tt cbor 112 (B "invalid byte: 0x") (B "value")
          end
    end.
End containers.

Fixpoint parse_cbor_internal (fuel : nat) (get_char : bool) : M H unit :=
  match fuel with
  | 0 => stuck
  | S fuel => let* c := (if get_char then get else the_current) in cbor_value fuel (parse_cbor_internal fuel) c
  end.
End reader.

(** Every round of every loop, and every call, reads a byte. *)
Definition from_cbor (strict allow_exceptions : bool) (tag_handler : cbor_tag_handler_t.t) (input : bytes) : option parse_result :=
  from_binary allow_exceptions input (sax_parse cbor strict (parse_cbor_internal tag_handler (input_fuel input) true)).

Definition demo_value : value :=
  VObject [(B "a", VArray [VInteger (-300); VUnsigned 70000; VFloat (S754_finite false 6755399441055744 (-52))]);
           (B "b", VBinary (MkBinary (B "xyz") (Some 300%Z))); (B "c", VArray [VNull; VBool true; VString []])].
Example demo_cbor : from_cbor true true cbor_tag_handler_t.store (to_cbor demo_value) = Some (Parsed demo_value).
Proof. vm_compute. reflexivity. Qed.
