(* ===== verification/BinaryTheory.v ===== *)
(** * The binary formats: theorems on reading what was written

    Numbers, floating point numbers, strings and byte arrays read back from their bytes; the
    handler around them; which values the formats can represent, and what they make of them. *)
From S2P Require Import Prelude CLib Json JsonLexer JsonParser JsonText JsonReading JsonComplete JsonValue BinaryFloat FloatTheory Binary.
From Stdlib Require Import SpecFloat.

(** The tests of the code on a byte whose range is known. *)
Ltac byte_tests :=
  repeat match goal with
    | |- context [(?a <=? ?b)%Z] => first [rewrite (proj2 (Z.leb_le a b)) by lia|rewrite (proj2 (Z.leb_gt a b)) by lia]
    | |- context [(?a <? ?b)%Z] => first [rewrite (proj2 (Z.ltb_lt a b)) by lia|rewrite (proj2 (Z.ltb_ge a b)) by lia]
    | |- context [(?a =? ?b)%Z] => first [rewrite (proj2 (Z.eqb_eq a b)) by lia|rewrite (proj2 (Z.eqb_neq a b)) by lia]
    end; cbn [andb orb negb mbind option_bind].

(** ** Numbers *)

Lemma write_number_1 z : (0 <= z < 256)%Z -> write_number 1 z = [chr z].
Proof. intros Hz. cbn. by rewrite Z.div_1_r, Z.mod_small. Qed.

Lemma write_number_length n z : length (write_number n z) = n.
Proof. induction n as [|n IH]; [done|]. cbn. by rewrite IH. Qed.

Lemma big_endian_app a l : foldl (fun a c => a * 256 + code c)%Z a l = (a * 256 ^ Z.of_nat (length l) + big_endian l)%Z.
Proof.
  unfold big_endian. revert a. induction l as [|c l IH]; intros a; [cbn; lia|]. cbn [foldl length].
  rewrite IH, (IH (0 * 256 + code c)%Z), Nat2Z.inj_succ, Z.pow_succ_r by lia. lia.
Qed.

Lemma big_endian_write n z : big_endian (write_number n z) = (z mod 256 ^ Z.of_nat n)%Z.
Proof.
  induction n as [|n IH]; [by rewrite Z.mod_1_r|]. cbn [write_number]. unfold big_endian. cbn [foldl].
  rewrite big_endian_app, write_number_length, IH, code_chr by (apply Z.mod_pos_bound; lia).
  rewrite Nat2Z.inj_succ, Z.pow_succ_r by lia. assert (0 < 256 ^ Z.of_nat n)%Z by (apply Z.pow_pos_nonneg; lia).
  rewrite (Z.mul_comm 256), Z.rem_mul_r by lia. lia.
Qed.

Lemma write_number_add n z k : write_number n (z + k * 256 ^ Z.of_nat n) = write_number n z.
Proof.
  revert k. induction n as [|n IH]; intros k; [done|]. cbn [write_number].
  assert (0 < 256 ^ Z.of_nat n)%Z by (apply Z.pow_pos_nonneg; lia).
  replace (k * 256 ^ Z.of_nat (S n))%Z with (k * 256 * 256 ^ Z.of_nat n)%Z by (rewrite Nat2Z.inj_succ, Z.pow_succ_r by lia; ring).
  by rewrite Z.div_add, IH, Z.mod_add by lia.
Qed.

(** The lowest bytes of a number, signed or not. *)
Lemma write_number_mod n z : write_number n z = write_number n (z mod 256 ^ Z.of_nat n).
Proof.
  assert (0 < 256 ^ Z.of_nat n)%Z by (apply Z.pow_pos_nonneg; lia).
  rewrite (Z.div_mod z (256 ^ Z.of_nat n)) at 1 by lia. rewrite Z.add_comm, Z.mul_comm. apply write_number_add.
Qed.

Lemma signed_bytes n z :
  (- 2 ^ (8 * Z.of_nat n - 1) <= z < 2 ^ (8 * Z.of_nat n - 1))%Z -> 0 < n ->
  wraps (8 * Z.of_nat n) (z mod 256 ^ Z.of_nat n) = z.
Proof.
  intros Hz Hn. assert (256 ^ Z.of_nat n = 2 * 2 ^ (8 * Z.of_nat n - 1))%Z as Hp.
  { rewrite <- Z.pow_succ_r by lia. change 256%Z with (2 ^ 8)%Z. rewrite <- Z.pow_mul_r by lia. f_equal. lia. }
  unfold wraps. replace (2 ^ (8 * Z.of_nat n))%Z with (256 ^ Z.of_nat n)%Z by (change 256%Z with (2 ^ 8)%Z; by rewrite <- Z.pow_mul_r by lia).
  rewrite Zplus_mod_idemp_l, Z.mod_small by lia. lia.
Qed.

(** ** What computations of the reader consume *)

Section consumes.
  Context {H : Type} `{SizedSAX H}.

(** [m] reads the bytes [w] and gives [a], without the handler. *)
Definition consumes {A} (m : M H A) (w : bytes) (a : A) : Prop :=
  forall r s rest, ia r = w ++ rest -> exists r', m r s = Some (Val a, r', s) /\ ia r' = rest.

(** The same behind the character [c]. *)
Definition consumes_from {A} (c : ascii) (m : M H A) (w : bytes) (a : A) : Prop :=
  forall r s rest, current r = Some c -> ia r = w ++ rest -> exists r', m r s = Some (Val a, r', s) /\ ia r' = rest.

Lemma bind_val {A C} (m : M H A) (k : A -> M H C) r s a r1 s1 : m r s = Some (Val a, r1, s1) -> bindM m k r s = k a r1 s1.
Proof. intros Hm. unfold bindM. by rewrite Hm. Qed.

Lemma get_cons c i r (s : H) : ia r = c :: i -> exists r', get r s = Some (Val (code c), r', s) /\ ia r' = i /\ current r' = Some c.
Proof. intros Hr. unfold get. rewrite Hr. eexists. split; [reflexivity|done]. Qed.

Lemma consumes_get {A} c (k : Z -> M H A) w a : consumes_from c (k (code c)) w a -> consumes (bindM get k) (c :: w) a.
Proof.
  intros Hk r s rest Hr. destruct (get_cons c (w ++ rest) r s Hr) as (r1 & Hg & Hr1 & Hc). rewrite (bind_val _ _ _ _ _ _ _ Hg). by apply Hk.
Qed.

Lemma consumes_ret {A} (a : A) : consumes (ret a) [] a.
Proof. intros r s rest Hr. by exists r. Qed.

Lemma consumes_bind {A C} (m : M H A) (k : A -> M H C) w w' a c :
  consumes m w a -> consumes (k a) w' c -> consumes (bindM m k) (w ++ w') c.
Proof.
  intros Hm Hk r s rest Hr. rewrite <- app_assoc in Hr. destruct (Hm r s _ Hr) as (r1 & Hm1 & Hr1).
  rewrite (bind_val _ _ _ _ _ _ _ Hm1). by apply Hk.
Qed.

Lemma consumes_map {A C} (m : M H A) (f : A -> C) w a : consumes m w a -> consumes (let* x := m in ret (f x)) w (f a).
Proof. intros Hm. rewrite <- (app_nil_r w). eapply consumes_bind; [exact Hm|apply consumes_ret]. Qed.

Lemma ignored_consumes {A} (x : A) (m : M H A) w a : consumes m w a -> consumes (ignored x m) w a.
Proof. intros Hm r s rest Hr. destruct (Hm r s rest Hr) as (r' & Heq & Hr'). exists r'. split; [|done]. unfold ignored. by rewrite Heq. Qed.

Lemma consumes_any {A} (m : M H A) c w a : consumes m w a -> consumes_from c m w a.
Proof. intros Hm r s rest _. apply Hm. Qed.

(** A round of the loops for characters. *)
Lemma consumes_char {A} format context c (k : ascii -> M H A) w a :
  consumes (k c) w a -> consumes (get ;;* unexpect_eof format context ;;* let* c := the_char in k c) (c :: w) a.
Proof.
  intros Hk r s rest Hr. destruct (get_cons c (w ++ rest) r s Hr) as (r1 & Hg & Hr1 & Hc). rewrite (bind_val _ _ _ _ _ _ _ Hg).
  assert (unexpect_eof format context r1 s = Some (Val tt, r1, s)) as He by (unfold unexpect_eof; by rewrite Hc).
  rewrite (bind_val _ _ _ _ _ _ _ He). assert (the_char r1 s = Some (Val c, r1, s)) as Ht by (unfold the_char, current_char; by rewrite Hc).
  rewrite (bind_val _ _ _ _ _ _ _ Ht). by apply Hk.
Qed.

Lemma get_bytes_consumes format l : consumes (get_bytes format (length l)) l l.
Proof. induction l as [|c l IH]; [apply consumes_ret|]. apply consumes_char. by apply (consumes_map _ (cons c)). Qed.

Lemma get_number_consumes format n z : (0 <= z < 256 ^ Z.of_nat n)%Z -> consumes (get_number format n) (write_number n z) z.
Proof.
  intros Hz. rewrite <- (Z.mod_small z (256 ^ Z.of_nat n)) at 2 by done. rewrite <- big_endian_write. apply consumes_map.
  rewrite <- (write_number_length n z) at 1. apply get_bytes_consumes.
Qed.

Lemma get_signed_consumes format n z :
  (- 2 ^ (8 * Z.of_nat n - 1) <= z < 2 ^ (8 * Z.of_nat n - 1))%Z -> 0 < n -> consumes (get_signed format n) (write_number n z) z.
Proof.
  intros Hz Hn. rewrite (write_number_mod n z). rewrite <- (signed_bytes n z Hz Hn) at 2.
  apply (consumes_map _ (wraps (8 * Z.of_nat n))), get_number_consumes, Z.mod_pos_bound. apply Z.pow_pos_nonneg; lia.
Qed.

(** The lowest byte first. *)
Lemma get_number_le_consumes format n z : (0 <= z < 256 ^ Z.of_nat n)%Z -> consumes (get_number_le format n) (write_number_le n z) z.
Proof.
  intros Hz. rewrite <- (Z.mod_small z (256 ^ Z.of_nat n)) at 2 by done. rewrite <- big_endian_write, <- (rev_involutive (write_number n z)).
  apply (consumes_map _ (fun l => big_endian (rev l))). rewrite <- (write_number_length n z) at 1. rewrite <- length_rev. apply get_bytes_consumes.
Qed.

Lemma get_signed_le_consumes format n z :
  (- 2 ^ (8 * Z.of_nat n - 1) <= z < 2 ^ (8 * Z.of_nat n - 1))%Z -> 0 < n -> consumes (get_signed_le format n) (write_number_le n z) z.
Proof.
  intros Hz Hn. unfold write_number_le. rewrite (write_number_mod n z). rewrite <- (signed_bytes n z Hz Hn) at 2.
  apply (consumes_map _ (wraps (8 * Z.of_nat n))), get_number_le_consumes, Z.mod_pos_bound. apply Z.pow_pos_nonneg; lia.
Qed.

Lemma get_loop_consumes fuel format context l : length l <= fuel -> consumes (get_loop fuel format context (Z.of_nat (length l))) l l.
Proof.
  revert fuel. induction l as [|c l IH]; intros [|fuel] Hf; cbn [get_loop length] in *; try apply consumes_ret; [lia|].
  rewrite (proj2 (Z.leb_gt _ _)) by lia. replace (Z.of_nat (S (length l)) - 1)%Z with (Z.of_nat (length l)) by lia.
  apply consumes_char. apply (consumes_map _ (cons c)), IH. lia.
Qed.

Lemma get_string_consumes format l : consumes (get_string format (Z.of_nat (length l))) l l.
Proof. intros r s rest Hr. unfold get_string. apply get_loop_consumes; [|done]. rewrite Hr, length_app. lia. Qed.
Lemma get_binary_consumes format l : consumes (get_binary format (Z.of_nat (length l))) l l.
Proof. intros r s rest Hr. unfold get_binary. apply get_loop_consumes; [|done]. rewrite Hr, length_app. lia. Qed.

Lemma get_float_consumes format x :
  SFeqb (from_float (to_float x)) x = true -> consumes (get_float format) (write_number 4 (bits32 (to_float x))) x.
Proof.
  intros Hx. destruct (compact_read x Hx) as [Hv Hr]. rewrite <- Hr at 2. apply (consumes_map _ (fun z => from_float (of_bits32 z))).
  by apply get_number_consumes, bits32_read.
Qed.
Lemma get_double_consumes format x : valid_binary 53 1024 x = true -> consumes (get_double format) (write_number 8 (bits64 x)) x.
Proof.
  intros Hv. destruct (bits64_read x Hv) as [Hr Hb]. rewrite <- Hr at 2. apply (consumes_map _ of_bits64). by apply get_number_consumes.
Qed.
End consumes.

(** ** Values *)

(** What the formats make of a value: an integer that is not negative becomes unsigned. *)
Fixpoint reread (keep_subtype : bool) (v : value) : value :=
  match v with
  | VInteger z => if (0 <=? z)%Z then VUnsigned z else v
  | VBinary b => VBinary (MkBinary (bin_data b) (if keep_subtype then m_subtype b else None))
  | VArray l => VArray (map (reread keep_subtype) l)
  | VObject l => VObject (map (fun kv => (fst kv, reread keep_subtype (snd kv))) l)
  | _ => v
  end.

Lemma flat_map_length_le {A} (f : A -> bytes) x l : x ∈ l -> length (f x) <= length (flat_map f l).
Proof. induction 1 as [|x y l _ IH]; cbn; rewrite length_app; lia. Qed.

Lemma flat_map_length_ge {A} (f : A -> bytes) l : (forall x, 0 < length (f x)) -> length l <= length (flat_map f l).
Proof. intros Hf. induction l as [|x l IH]; cbn; [lia|]. rewrite length_app. pose proof (Hf x). lia. Qed.

(** The greatest lengths and subtype that a format can represent; -1 where it has no subtypes. *)
Record limits := MkLimits { max_string : Z; max_array : Z; max_object : Z; max_subtype : Z }.

(** The numbers of the C++ types, ordered objects, and nothing beyond the limits. *)
Fixpoint encodable (m : limits) (v : value) : bool :=
  match v with
  | VNull | VBool _ => true
  | VInteger z => (- 2 ^ 63 <=? z)%Z && (z <? 2 ^ 63)%Z
  | VUnsigned z => (0 <=? z)%Z && (z <? 2 ^ 64)%Z
  | VFloat x => valid_binary 53 1024 x
  | VString s => (Z.of_nat (length s) <=? max_string m)%Z
  | VBinary b =>
      (Z.of_nat (length (bin_data b)) <=? max_string m)%Z &&
      match m_subtype b with Some t => (0 <=? t)%Z && (t <=? max_subtype m)%Z | None => true end
  | VArray l => (Z.of_nat (length l) <=? max_array m)%Z && forallb (encodable m) l
  | VObject l =>
      (Z.of_nat (length l) <=? max_object m)%Z && increasing (map fst l) &&
      forallb (fun kv => (Z.of_nat (length (fst kv)) <=? max_string m)%Z && encodable m (snd kv)) l
  end.

(** ** The handler that builds the value *)

(** [m] reads the bytes [w], and the handler puts the value [v] in its place. *)
Definition reads (m : M dom_parser unit) (w : bytes) (v : value) : Prop :=
  forall r d st rest, ia r = w ++ rest -> dom_ok st true d ->
    exists r' d', m r d = Some (Val tt, r', d') /\ ia r' = rest /\ handled v d d'.

Lemma reads_scalar (f : dom_parser -> option (bool * dom_parser)) v : f = dom_value v -> reads (call f) [] v.
Proof.
  intros -> r d st rest Hr Hd. destruct (dom_slot st d Hd) as (q & r1 & [Hslot _] & _).
  unfold call, dom_value. rewrite Hslot. do 2 eexists. split; [reflexivity|]. split; [done|].
  eexists q, _. by split_and!.
Qed.

Lemma reads_bind {A} (m : M dom_parser A) (k : A -> M dom_parser unit) w w' a v :
  consumes m w a -> reads (k a) w' v -> reads (bindM m k) (w ++ w') v.
Proof.
  intros Hm Hk r d st rest Hr Hd. rewrite <- app_assoc in Hr. destruct (Hm r d _ Hr) as (r1 & Hm1 & Hr1).
  rewrite (bind_val _ _ _ _ _ _ _ Hm1). by eapply Hk.
Qed.

(** The same behind the character [c]. *)
Definition reads_from (c : ascii) (m : M dom_parser unit) (w : bytes) (v : value) : Prop :=
  forall r d st rest, current r = Some c -> ia r = w ++ rest -> dom_ok st true d ->
    exists r' d', m r d = Some (Val tt, r', d') /\ ia r' = rest /\ handled v d d'.

Lemma reads_any c m w v : reads m w v -> reads_from c m w v.
Proof. intros Hm r d st rest _. apply Hm. Qed.

Lemma reads_get c (k : Z -> M dom_parser unit) w v : reads_from c (k (code c)) w v -> reads (bindM get k) (c :: w) v.
Proof.
  intros Hk r d st rest Hr Hd. destruct (get_cons c (w ++ rest) r d Hr) as (r1 & Hg & Hr1 & Hc).
  rewrite (bind_val _ _ _ _ _ _ _ Hg). by eapply Hk.
Qed.

Lemma reads_bind_from {A} c (m : M dom_parser A) (k : A -> M dom_parser unit) w w' a v :
  consumes_from c m w a -> reads (k a) w' v -> reads_from c (bindM m k) (w ++ w') v.
Proof.
  intros Hm Hk r d st rest Hc Hr Hd. rewrite <- app_assoc in Hr. destruct (Hm r d _ Hc Hr) as (r1 & Hm1 & Hr1).
  rewrite (bind_val _ _ _ _ _ _ _ Hm1). by eapply Hk.
Qed.

Lemma reads_char format context c (k : ascii -> M dom_parser unit) w v :
  reads (k c) w v -> reads (get ;;* unexpect_eof format context ;;* let* c := the_char in k c) (c :: w) v.
Proof.
  intros Hk r d st rest Hr Hd. destruct (get_cons c (w ++ rest) r d Hr) as (r1 & Hg & Hr1 & Hc). rewrite (bind_val _ _ _ _ _ _ _ Hg).
  assert (unexpect_eof format context r1 d = Some (Val tt, r1, d)) as He by (unfold unexpect_eof; by rewrite Hc).
  rewrite (bind_val _ _ _ _ _ _ _ He). assert (the_char r1 d = Some (Val c, r1, d)) as Ht by (unfold the_char, current_char; by rewrite Hc).
  rewrite (bind_val _ _ _ _ _ _ _ Ht). by eapply Hk.
Qed.

Lemma reads_then {A} (m : M dom_parser A) (f : A -> dom_parser -> option (bool * dom_parser)) w a v :
  consumes m w a -> f a = dom_value v -> reads (let* x := m in call (f x)) w v.
Proof. intros Hm Hf. rewrite <- (app_nil_r w). eapply reads_bind; [exact Hm|by apply reads_scalar]. Qed.

Lemma grown_same d q rs v : inside d q rs v -> grown d d q v.
Proof. intros [_ Hv]. split_and!; [|done..]. by rewrite assign_same. Qed.

Lemma grown_trans d d1 d' q st v w x : inside d q st v -> grown d d1 q w -> grown d1 d' q x -> grown d d' q x.
Proof.
  intros [_ Hv] (Hr1 & Hs1 & ? & ?) (Hr & Hs & ? & ?). split_and!; [|congruence..]. rewrite Hr, Hr1, assign_assign by eauto. done.
Qed.

(** Elements, one after the other. *)
Lemma for_elements {A} body (w : A -> bytes) (f : A -> value) l fuel :
  Forall (fun v => reads body (w v) (f v)) l -> length l <= fuel ->
  forall r d st q rs pre rest, ia r = flat_map w l ++ rest -> dom_ok (true :: st) false d -> inside d q rs (VArray pre) ->
    exists r' d', for_len body fuel (Z.of_nat (length l)) r d = Some (Val tt, r', d') /\ ia r' = rest /\
      grown d d' q (VArray (pre ++ map f l)).
Proof.
  intros Hl. revert fuel. induction Hl as [|v l Hv _ IH]; intros fuel Hf r d st q rs pre rest Hr Hd Hin.
  { exists r, d. split; [by destruct fuel|]. split; [done|]. rewrite app_nil_r. by eapply grown_same. }
  destruct fuel as [|fuel]; [simpl in Hf; lia|]. cbn [flat_map] in Hr. rewrite <- app_assoc in Hr.
  destruct (Hv r d _ _ Hr (dom_array_next st d Hd)) as (r1 & d1 & H1 & Hr1 & Hh).
  pose proof (handled_ok _ _ _ _ (dom_array_next st d Hd) Hh) as Hd1. pose proof (handled_element _ _ _ _ _ _ Hin Hh) as Hg.
  destruct (IH fuel ltac:(simpl in Hf; lia) r1 d1 st q rs _ rest Hr1 Hd1 (grown_inside _ _ _ _ _ _ Hin Hg)) as (r2 & d2 & H2 & Hr2 & Hg2).
  exists r2, d2. split_and!; [|done|].
  - cbn [for_len length]. rewrite (proj2 (Z.leb_gt _ _)) by lia. rewrite (bind_val _ _ _ _ _ _ _ H1).
    by replace (Z.of_nat (S (length l)) - 1)%Z with (Z.of_nat (length l)) by lia.
  - cbn [map]. rewrite <- app_assoc in Hg2. by eapply grown_trans.
Qed.

(** A member. *)
Definition reads_member (body : M dom_parser unit) (w : bytes) (k : bytes) (v : value) : Prop :=
  forall r d st q rs pre rest, ia r = w ++ rest -> dom_ok (false :: st) false d -> inside d q rs (VObject pre) ->
    Forall (fun kv => bytes_lt (fst kv) k = true) pre ->
    exists r' d', body r d = Some (Val tt, r', d') /\ ia r' = rest /\ dom_ok (false :: st) false d' /\ grown d d' q (VObject (pre ++ [(k, v)])).

Lemma reads_member_intro (key : M dom_parser bytes) body wk w k v :
  consumes key wk k -> reads body w v -> reads_member (let* k := key in call (sax_key k) ;;* body) (wk ++ w) k v.
Proof.
  intros Hk Hb r d st q rs pre rest Hr Hd Hin Hpre. rewrite <- app_assoc in Hr. destruct (Hk r d _ Hr) as (r1 & H1 & Hr1).
  rewrite (bind_val _ _ _ _ _ _ _ H1). destruct (dom_key_ok st k d Hd) as (d1 & Hkey & Hd1).
  destruct (key_step d q rs pre k Hin Hpre) as (d1' & Hkey' & Hg1 & He). rewrite Hkey in Hkey'. injection Hkey' as <-.
  assert (call (sax_key k) r1 d = Some (Val tt, r1, d1)) as Hc by (unfold call; cbn; by rewrite Hkey).
  rewrite (bind_val _ _ _ _ _ _ _ Hc). pose proof (grown_inside _ _ _ _ _ _ Hin Hg1) as Hin1.
  destruct (Hb r1 d1 _ _ Hr1 Hd1) as (r2 & d2 & H2 & Hr2 & Hh). exists r2, d2. split_and!; [done|done|by eapply handled_ok|].
  eapply grown_trans; [exact Hin|exact Hg1|]. by eapply handled_member.
Qed.

Lemma for_members body (w : bytes * value -> bytes) (f : value -> value) l fuel :
  Forall (fun kv => reads_member body (w kv) (fst kv) (f (snd kv))) l -> length l <= fuel -> increasing (map fst l) = true ->
  forall r d st q rs pre rest, ia r = flat_map w l ++ rest -> dom_ok (false :: st) false d -> inside d q rs (VObject pre) ->
    Forall (fun kv => Forall (fun kv' => bytes_lt (fst kv) (fst kv') = true) l) pre ->
    exists r' d', for_len body fuel (Z.of_nat (length l)) r d = Some (Val tt, r', d') /\ ia r' = rest /\
      grown d d' q (VObject (pre ++ map (fun kv => (fst kv, f (snd kv))) l)).
Proof.
  intros Hl. revert fuel. induction Hl as [|[k v] l Hv _ IH]; intros fuel Hf Hinc r d st q rs pre rest Hr Hd Hin Hpre.
  { exists r, d. split; [by destruct fuel|]. split; [done|]. rewrite app_nil_r. by eapply grown_same. }
  destruct fuel as [|fuel]; [simpl in Hf; lia|]. cbn [flat_map] in Hr. rewrite <- app_assoc in Hr.
  cbn [map increasing fst snd] in *. apply andb_true_iff in Hinc as [Hk Hinc].
  assert (Forall (fun kv => bytes_lt (fst kv) k = true) pre) as Hprek.
  { eapply Forall_impl; [exact Hpre|]. intros kv Hkv. by apply Forall_cons in Hkv as [? _]. }
  destruct (Hv r d st q rs pre _ Hr Hd Hin Hprek) as (r1 & d1 & H1 & Hr1 & Hd1 & Hg).
  destruct (IH fuel ltac:(simpl in Hf; lia) Hinc r1 d1 st q rs (pre ++ [(k, f v)]) rest Hr1 Hd1 (grown_inside _ _ _ _ _ _ Hin Hg))
    as (r2 & d2 & H2 & Hr2 & Hg2).
  { apply Forall_app. split.
    - eapply Forall_impl; [exact Hpre|]. intros kv Hkv. by apply Forall_cons in Hkv as [_ ?].
    - apply Forall_singleton. cbn [fst]. rewrite forallb_Forall in Hk. by apply Forall_map in Hk. }
  exists r2, d2. split_and!; [|done|].
  - cbn [for_len length]. rewrite (proj2 (Z.leb_gt _ _)) by lia. rewrite (bind_val _ _ _ _ _ _ _ H1).
    by replace (Z.of_nat (S (length l)) - 1)%Z with (Z.of_nat (length l)) by lia.
  - rewrite <- app_assoc in Hg2. by eapply grown_trans.
Qed.

(** Arrays and objects around them. *)
Lemma start_end_at b v w (len : Z) what max_size body r d st rest :
  container b (Some v) -> (len <= max_size)%Z \/ len = no_size -> dom_ok st true d ->
  (forall d q rs, dom_ok (b :: st) false d -> inside d q rs v -> exists r' d', body r d = Some (Val tt, r', d') /\ ia r' = rest /\ grown d d' q w) ->
  exists r' d', (call_sized (dom_start_of what max_size v len) ;;* body ;;* call dom_end) r d = Some (Val tt, r', d') /\ ia r' = rest /\ handled w d d'.
Proof.
  intros Hc Hlen Hd Hb. destruct (start_step st v b d Hd Hc) as (q & d1 & Hs & Hd1 & Hin & Hh).
  assert (call_sized (dom_start_of what max_size v len) r d = Some (Val tt, r, d1)) as Hst.
  { unfold call_sized, dom_start_of. rewrite Hs. cbn [mbind option_bind].
    destruct Hlen as [Hlen| ->]; [by rewrite (proj2 (Z.ltb_ge _ _)), andb_false_r by lia|by rewrite Z.eqb_refl]. }
  rewrite (bind_val _ _ _ _ _ _ _ Hst). destruct (Hb d1 q _ Hd1 Hin) as (r2 & d2 & H2 & Hr2 & Hg).
  rewrite (bind_val _ _ _ _ _ _ _ H2). destruct (dom_end_closed d2 q _ w (grown_inside _ _ _ _ _ _ Hin Hg)) as (d3 & H3 & Hcl).
  exists r2, d3. split_and!; [unfold call; by rewrite H3|done|]. apply Hh. by eapply grown_closed.
Qed.

Lemma start_end_reads b v w (len : Z) what max_size body wb :
  container b (Some v) -> (len <= max_size)%Z \/ len = no_size ->
  (forall r d st q rs rest, ia r = wb ++ rest -> dom_ok (b :: st) false d -> inside d q rs v ->
     exists r' d', body r d = Some (Val tt, r', d') /\ ia r' = rest /\ grown d d' q w) ->
  reads (call_sized (dom_start_of what max_size v len) ;;* body ;;* call dom_end) wb w.
Proof.
  intros Hc Hlen Hb r d st rest Hr Hd. eapply start_end_at; [exact Hc|exact Hlen|exact Hd|]. intros d1 q rs Hd1 Hin. by eapply Hb.
Qed.

(** What reading a value and more gives: in strict mode the value must be all. *)
Definition read_result (strict allow_exceptions : bool) (v : value) (rest : bytes) (r : parse_result) : Prop :=
  match rest with
  | _ :: _ => if strict then if allow_exceptions then exists e, r = Thrown e /\ exn_id e = 110%Z else r = Discarded else r = Parsed v
  | [] => r = Parsed v
  end.

Definition is_noop (c : ascii) : bool := (code c =? 78)%Z.
Definition drop_noop (s : bytes) : bytes := drop_while is_noop s.

(** What counts as behind the value: UBJSON ignores an N. *)
Definition behind (format : input_format_t.t) (s : bytes) : bytes := match format with input_format_t.ubjson => drop_noop s | _ => s end.

(** A read: the first character of [s], which is what is left. *)
Definition read_first {A} (m : reader -> A -> option (step Z * reader * A)) (r : reader) (d : A) (s : bytes) : Prop :=
  exists r', m r d = Some (Val (current_int r'), r', d) /\ current r' = head s /\ ia r' = tail s.

Lemma get_first {H} r (d : H) : read_first get r d (ia r).
Proof. unfold read_first, get. destruct (ia r); (eexists; split; [reflexivity|done]). Qed.

Lemma noop_loop_first {H} fuel r (d : H) : length (ia r) < fuel -> read_first (noop_loop fuel) r d (drop_noop (ia r)).
Proof.
  revert r. induction fuel as [|fuel IH]; intros r Hf; [lia|]. cbn [noop_loop]. destruct (ia r) as [|c s] eqn:Hi.
  - unfold read_first, bindM, get. rewrite Hi. cbn [mbind option_bind]. eexists. split; [reflexivity|done].
  - destruct (get_cons c s r d Hi) as (r1 & Hg & Hr1 & Hc). unfold read_first. rewrite (bind_val _ _ _ _ _ _ _ Hg). cbn [drop_noop drop_while]. unfold is_noop at 1 3.
    destruct (code c =? 78)%Z.
    + rewrite <- Hr1. apply IH. rewrite Hr1. cbn in Hf. lia.
    + exists r1. unfold current_int. by rewrite Hc.
Qed.

Lemma get_ignore_noop_first {H} r (d : H) : read_first get_ignore_noop r d (drop_noop (ia r)).
Proof. apply (noop_loop_first (S (length (ia r)))). lia. Qed.

Lemma drop_noop_length s : length (drop_noop s) <= length s.
Proof. unfold drop_noop. induction s as [|c s IH]; cbn; [lia|]. destruct (is_noop c); cbn; lia. Qed.

Lemma behind_length format s : length (behind format s) <= length s.
Proof. destruct format; cbn [behind]; try lia. apply drop_noop_length. Qed.

Lemma behind_first {H} format r (d : H) :
  read_first (match format with input_format_t.ubjson => get_ignore_noop | _ => get end) r d (behind format (ia r)).
Proof. destruct format; (apply get_first || apply get_ignore_noop_first). Qed.

Lemma from_binary_reads format strict allow_exceptions parse w v rest :
  reads parse w v -> exists r, from_binary allow_exceptions (w ++ rest) (sax_parse format strict parse) = Some r /\
    read_result strict allow_exceptions v (behind format rest) r.
Proof.
  intros Hp. set (d0 := mk_dom VNull allow_exceptions).
  destruct (Hp (mk_reader (w ++ rest)) d0 [] rest eq_refl ltac:(by split)) as (r1 & d1 & H1 & Hr1 & (q & d2 & Hh & Hroot & _ & _ & Hallow)).
  injection Hh as <- <-.
  unfold from_binary, sax_parse. rewrite (bind_val _ _ _ _ _ _ _ H1). destruct strict.
  2: { exists (Parsed v). cbn. rewrite Hroot. split; [done|]. by destruct (behind format rest). }
  destruct (behind_first format r1 d1) as (r2 & Hg & Hc & _). rewrite (bind_val _ _ _ _ _ _ _ Hg). rewrite Hr1 in Hc. unfold current_int.
  destruct (behind format rest) as [|c s]; cbn [head] in Hc; rewrite Hc; [exists (Parsed v); cbn; by rewrite Hroot|]. cbv iota.
  rewrite (proj2 (Z.eqb_neq _ _)) by (pose proof (code_range c); lia). cbn [negb].
  unfold bad_byte, bindM, the_token, report, report_at, ends. cbn [sax_parse_error dom_SAX]. unfold dom_parse_error. cbn in Hallow |- *. rewrite Hallow.
  destruct allow_exceptions; cbn; eexists; (split; [reflexivity|]); [by eexists|done].
Qed.

(** ** Every input is read to an end *)

(** From an input of at most [n] bytes behind the character [c], and the handler in one state,
    the computation ends: with a value, the handler in another state and [k] bytes less, or
    with what is no success. *)
Definition total_at {A} (c : option ascii) (m : M dom_parser A) (n : nat) (st : list bool) (e : bool) (st' : list bool) (e' : bool) (k : nat) : Prop :=
  forall r d, current r = c -> length (ia r) <= n -> dom_ok st e d ->
    exists x r' d', m r d = Some (x, r', d') /\
      match x with Val _ => dom_ok st' e' d' /\ length (ia r') + k <= length (ia r) | Return z => z <> Ret true end.
Definition total {A} (m : M dom_parser A) n st e st' e' k : Prop := forall c, total_at c m n st e st' e' k.

(** At the end of the input the computation fails. *)
Definition stops {A} (m : M dom_parser A) : Prop :=
  forall r d, current r = None -> exists z r' d', m r d = Some (Return z, r', d') /\ z <> Ret true.

Lemma stops_total {A} (m : M dom_parser A) n st e st' e' k : stops m -> total_at None m n st e st' e' k.
Proof. intros Hm r d Hc _ _. destruct (Hm r d Hc) as (z & r' & d' & Heq & Hz). by exists (Return z), r', d'. Qed.

Lemma total_weaken {A} c (m : M dom_parser A) n n' st e st' e' k k' :
  total_at c m n st e st' e' k -> n' <= n -> k' <= k -> total_at c m n' st e st' e' k'.
Proof.
  intros Hm Hn Hk r d Hc Hl Hd. destruct (Hm r d Hc ltac:(lia) Hd) as (x & r' & d' & Heq & Hx). exists x, r', d'. split; [done|].
  destruct x; [|done]. split; [apply Hx|lia].
Qed.

Lemma total_ret {A} c (a : A) n st e : total_at c (ret a) n st e st e 0.
Proof. intros r d _ _ Hd. do 3 eexists. split; [reflexivity|]. split; [done|lia]. Qed.

Lemma total_bind {A C} c (m : M dom_parser A) (f : A -> M dom_parser C) n st e st1 e1 st' e' k k1 :
  total_at c m n st e st1 e1 k1 -> (k1 <= n -> forall a, total (f a) (n - k1) st1 e1 st' e' k) -> total_at c (bindM m f) n st e st' e' (k1 + k).
Proof.
  intros Hm Hf r d Hc Hl Hd. destruct (Hm r d Hc Hl Hd) as (x & r1 & d1 & H1 & Hx). unfold bindM. rewrite H1. cbn [mbind option_bind].
  destruct x as [a|z]; [|by do 3 eexists]. destruct Hx as [Hd1 Hl1]. destruct (Hf ltac:(lia) a _ r1 d1 eq_refl ltac:(lia) Hd1) as (x & r2 & d2 & H2 & Hx).
  exists x, r2, d2. split; [done|]. destruct x; [|done]. split; [apply Hx|]. destruct Hx. lia.
Qed.

Lemma total_bind0 {A C} c (m : M dom_parser A) (f : A -> M dom_parser C) n st e st1 e1 st' e' k :
  total_at c m n st e st1 e1 0 -> (forall a, total (f a) n st1 e1 st' e' k) -> total_at c (bindM m f) n st e st' e' k.
Proof. intros Hm Hf. change k with (0 + k). eapply total_bind; [exact Hm|]. intros _. by rewrite Nat.sub_0_r. Qed.

(** Reading a character first. *)
Lemma total_get {A} (f : Z -> M dom_parser A) n st e st' e' k :
  (0 < n -> forall c, total_at (Some c) (f (code c)) (n - 1) st e st' e' k) -> stops (f (-1)%Z) -> total (bindM get f) n st e st' e' (S k).
Proof.
  intros Hf Hs c r d _ Hl Hd. destruct (ia r) as [|a i] eqn:Hi.
  - destruct (Hs (MkReader [] None (chars_read r + 1)) d eq_refl) as (z & r' & d' & Heq & Hz). exists (Return z), r', d'.
    split; [|done]. unfold bindM, get. by rewrite Hi.
  - destruct (get_cons a i r d Hi) as (r1 & Hg & Hr1 & Hc). rewrite (bind_val _ _ _ _ _ _ _ Hg). cbn in Hl.
    destruct (Hf ltac:(lia) a r1 d Hc ltac:(rewrite Hr1; lia) Hd) as (x & r2 & d2 & H2 & Hx). exists x, r2, d2. split; [done|].
    destruct x; [|done]. split; [apply Hx|]. rewrite Hr1 in Hx. cbn. lia.
Qed.

Lemma report_at_fails position token id message r (d : dom_parser) :
  exists z d', report_at position token id message r d = Some (Return z, r, d') /\ z <> Ret true.
Proof. unfold report_at. cbn. unfold dom_parse_error. destruct (allow_exceptions _); by do 2 eexists. Qed.

Lemma report_fails token id message r (d : dom_parser) : exists z d', report token id message r d = Some (Return z, r, d') /\ z <> Ret true.
Proof. apply report_at_fails. Qed.

Lemma unexpect_eof_stops {A} format context (m : M dom_parser A) : stops (unexpect_eof format context ;;* m).
Proof.
  intros r d Hc. unfold bindM, unexpect_eof. rewrite Hc.
  destruct (report_fails (B "<end of file>") 110 (exception_message format (B "unexpected end of input") context) r d) as (z & d' & -> & Hz).
  by exists z, r, d'.
Qed.

Lemma unexpect_eof_total {A} format context c (m : M dom_parser A) n st e st' e' k :
  total_at (Some c) m n st e st' e' k -> total_at (Some c) (unexpect_eof format context ;;* m) n st e st' e' k.
Proof.
  intros Hm r d Hc Hl Hd. assert (unexpect_eof format context r d = Some (Val tt, r, d)) as He by (unfold unexpect_eof; by rewrite Hc).
  rewrite (bind_val _ _ _ _ _ _ _ He). by apply Hm.
Qed.

Lemma bad_byte_total {A} (x : A) c format id detail context n st e st' e' k : total_at c (bad_byte x format id detail context) n st e st' e' k.
Proof.
  intros r d _ _ _. unfold bad_byte, bindM, the_token. cbn [mbind option_bind].
  destruct (report_fails (get_token_string r) id (exception_message format (detail ++ get_token_string r) context) r d) as (z & d' & -> & Hz).
  by exists (Return z), r, d'.
Qed.

Lemma the_current_total {A} c (f : Z -> M dom_parser A) n st e st' e' k :
  total_at (Some c) (f (code c)) n st e st' e' k -> total_at (Some c) (let* x := the_current in f x) n st e st' e' k.
Proof.
  intros Hf r d Hc. assert (the_current r d = Some (Val (code c), r, d)) as He by (unfold the_current, current_int; by rewrite Hc).
  rewrite (bind_val _ _ _ _ _ _ _ He). by apply Hf.
Qed.

(** Characters, numbers, strings. *)
Lemma char_total {A} format context (f : ascii -> M dom_parser A) n st e st' e' k :
  (0 < n -> forall c, total (f c) (n - 1) st e st' e' k) -> total (get ;;* unexpect_eof format context ;;* let* c := the_char in f c) n st e st' e' (S k).
Proof.
  intros Hf. apply total_get; [|apply unexpect_eof_stops]. intros Hn c. apply unexpect_eof_total. intros r d Hc Hl Hd.
  assert (the_char r d = Some (Val c, r, d)) as He by (unfold the_char, current_char; by rewrite Hc).
  rewrite (bind_val _ _ _ _ _ _ _ He). by eapply Hf.
Qed.

Lemma get_bytes_total format i n st e : total (get_bytes format i) n st e st e 0.
Proof.
  revert n. induction i as [|i IH]; intros n c; [apply total_ret|]. eapply total_weaken; [apply char_total|reflexivity|lia].
  intros _ a b. eapply total_bind0; [apply IH|]. intros l z. apply total_ret.
Qed.
Lemma get_number_total format i n st e : total (get_number format i) n st e st e 0.
Proof. intros c. eapply total_bind0; [apply get_bytes_total|]. intros l z. apply total_ret. Qed.

Lemma get_loop_total fuel format context len n st e : n < fuel -> total (get_loop fuel format context len) n st e st e 0.
Proof.
  revert n len. induction fuel as [|fuel IH]; intros n len Hf c; [lia|]. cbn [get_loop]. case_test; [apply total_ret|].
  eapply total_weaken; [apply char_total|reflexivity|lia]. intros Hn a b. eapply total_bind0; [apply IH; lia|]. intros l z. apply total_ret.
Qed.

Lemma get_string_total format len n st e : total (get_string format len) n st e st e 0.
Proof. intros c r d Hc Hl Hd. unfold get_string. eapply (get_loop_total _ _ _ _ (length (ia r))); [lia|done|lia|done]. Qed.
Lemma get_binary_total format len n st e : total (get_binary format len) n st e st e 0.
Proof. intros c r d Hc Hl Hd. unfold get_binary. eapply (get_loop_total _ _ _ _ (length (ia r))); [lia|done|lia|done]. Qed.

(** Loops. *)
Lemma for_len_total (body : M dom_parser unit) fuel len n st e e' :
  n < fuel -> (forall n', n' <= n -> total body n' st e st e' 1) -> (forall d, dom_ok st e' d -> dom_ok st e d) ->
  total (for_len body fuel len) n st e' st e' 0.
Proof.
  intros Hf Hb He. revert n len Hf Hb. induction fuel as [|fuel IH]; intros n len Hf Hb c; [lia|]. cbn [for_len]. case_test; [apply total_ret|].
  intros r d Hc Hl Hd. assert (total_at c (body ;;* for_len body fuel (len - 1)) n st e st e' 1) as Ht.
  { change 1 with (1 + 0). eapply total_bind; [by apply Hb|]. intros Hn a. apply IH; [lia|]. intros n' Hn'. apply Hb. lia. }
  destruct (Ht r d Hc Hl (He d Hd)) as (x & r' & d' & Heq & Hx). exists x, r', d'. split; [done|]. destruct x; [|done]. split; [apply Hx|lia].
Qed.

Lemma while_no_break_total {A} (body : M dom_parser A) fuel n st e e' :
  n < fuel -> (forall c n', n' < n -> total_at (Some c) body n' st e st e' 0) -> stops body -> (forall d, dom_ok st e' d -> dom_ok st e d) ->
  total (while_no_break body fuel) n st e' st e' 0.
Proof.
  intros Hf Hb Hs He. revert n Hf Hb. induction fuel as [|fuel IH]; intros n Hf Hb c; [lia|]. cbn [while_no_break].
  eapply total_weaken; [apply total_get|reflexivity|lia].
  - intros Hn a. case_test; [apply total_ret|]. intros r d Hc Hl Hd.
    eapply (total_bind0 (Some a) body _ (n - 1) st e st e'); [apply Hb; lia| |exact Hc|exact Hl|by apply He].
    intros x z. eapply total_bind0; [apply IH; [lia|]; intros; apply Hb; lia|]. intros l y. apply total_ret.
  - change (-1 =? 0xFF)%Z with false. cbv iota. intros r d Hc. destruct (Hs r d Hc) as (z & r' & d' & Heq & Hz). exists z, r', d'.
    split; [|done]. unfold bindM. by rewrite Heq.
Qed.

(** The handler. *)
Lemma call_total f c n st e st' e' :
  (forall d, dom_ok st e d -> exists d', f d = Some (true, d') /\ dom_ok st' e' d') -> total_at c (call f) n st e st' e' 0.
Proof. intros Hf r d _ _ Hd. destruct (Hf d Hd) as (d' & Heq & Hd'). unfold call. rewrite Heq. do 3 eexists. split; [reflexivity|]. split; [done|lia]. Qed.

Lemma call_value_total f v c n st : f = dom_value v -> total_at c (call f) n st true st false 0.
Proof. intros ->. apply call_total. intros d. by apply dom_value_ok. Qed.

Lemma call_start_total what max_size v len b c n st :
  container b (Some v) -> total_at c (call_sized (dom_start_of what max_size v len)) n st true (b :: st) false 0.
Proof.
  intros Hb r d _ _ Hd. destruct (dom_start_ok st b v d Hd Hb) as (d' & Heq & Hd'). unfold call_sized, dom_start_of. rewrite Heq. cbn [mbind option_bind].
  destruct (_ && _); do 3 eexists; (split; [reflexivity|]); [done|]. split; [done|lia].
Qed.

Lemma call_end_total b c n st : total_at c (call dom_end) n (b :: st) false st false 0.
Proof. apply call_total. intros d. by apply dom_end_ok. Qed.

Lemma call_key_total k c n st : total_at c (call (dom_key k)) n (false :: st) false (false :: st) true 0.
Proof. apply call_total. intros d. by apply dom_key_ok. Qed.

(** The value of the whole input. *)
Lemma from_binary_total format strict allow_exceptions parse input k :
  total parse (length input) [] true [] false k -> is_Some (from_binary allow_exceptions input (sax_parse format strict parse)).
Proof.
  intros Hp. assert (total (sax_parse format strict parse) (length input) [] true [] false 0) as Ht.
  { unfold sax_parse. intros c. eapply total_bind0; [eapply total_weaken; [apply Hp|reflexivity|lia]|]. intros _ c'. destruct strict; [|apply total_ret].
    intros r d Hc Hl Hd. destruct (behind_first format r d) as (r1 & Hg & Hcur & Hi). rewrite (bind_val _ _ _ _ _ _ _ Hg).
    assert (length (ia r1) <= length (ia r)) as Hle.
    { rewrite Hi. pose proof (behind_length format (ia r)). destruct (behind format (ia r)); cbn in *; lia. }
    destruct (negb _); [|do 3 eexists; split; [reflexivity|]; split; [done|lia]].
    destruct (bad_byte_total tt (current r1) format 110 (B "expected end of input; last byte: 0x") (B "value") (length (ia r1)) [] false [] false 0 r1 d)
      as (x & r' & d' & Heq & Hx); [done..|]. exists x, r', d'. split; [exact Heq|]. destruct x; [|done]. split; [apply Hx|]. destruct Hx. lia. }
  destruct (Ht _ (mk_reader input) (mk_dom VNull allow_exceptions) eq_refl ltac:(done) ltac:(by split)) as (x & r & d & Heq & _).
  unfold from_binary. rewrite Heq. by eexists.
Qed.

(** A failure to read a number leaves the handler where it was, but for the error. *)
Lemma dom_ok_errored st e ex d : dom_ok st e d -> dom_ok st e (snd (dom_parse_error ex d)).
Proof. done. Qed.

Lemma get_bytes_ends format i r (d : dom_parser) : exists x r' d', get_bytes format i r d = Some (x, r', d') /\ length (ia r') <= length (ia r) /\
  match x with Val _ => d' = d | Return z => z <> Ret true /\ exists ex, d' = snd (dom_parse_error ex d) end.
Proof.
  revert r. induction i as [|i IH]; intros r; [do 3 eexists; split; [reflexivity|]; done|]. cbn [get_bytes]. destruct (ia r) as [|a l] eqn:Hi.
  - unfold bindM, get. rewrite Hi. cbn [mbind option_bind]. unfold unexpect_eof. cbn [current]. unfold report, report_at. cbn [sax_parse_error dom_SAX].
    match goal with |- context [dom_parse_error ?e d] => set (ex := e) end.
    exists (Return (fst (dom_parse_error ex d))), (MkReader [] None (chars_read r + 1)), (snd (dom_parse_error ex d)).
    unfold dom_parse_error. destruct (allow_exceptions _); cbn; (split; [reflexivity|]); (split; [lia|]); (split; [done|]); by exists ex.
  - destruct (get_cons a l r d Hi) as (r1 & Hg & Hr1 & Hc). rewrite (bind_val _ _ _ _ _ _ _ Hg).
    assert (unexpect_eof format (B "number") r1 d = Some (Val tt, r1, d)) as He by (unfold unexpect_eof; by rewrite Hc).
    rewrite (bind_val _ _ _ _ _ _ _ He). assert (the_char r1 d = Some (Val a, r1, d)) as Ht by (unfold the_char, current_char; by rewrite Hc).
    rewrite (bind_val _ _ _ _ _ _ _ Ht). destruct (IH r1) as (x & r2 & d2 & Heq & Hl & Hx). rewrite Hr1 in Hl. unfold bindM. rewrite Heq. cbn [mbind option_bind].
    destruct x as [s|z]; do 3 eexists; (split; [reflexivity|]); (split; [cbn; lia|done]).
Qed.

Lemma ignored_total format i (f : bytes -> Z) n st e : total (ignored 0%Z (let* l := get_bytes format i in ret (f l))) n st e st e 0.
Proof.
  intros c r d _ Hl Hd. destruct (get_bytes_ends format i r d) as (x & r' & d' & Heq & Hle & Hx). unfold ignored, bindM. rewrite Heq. cbn [mbind option_bind].
  destruct x as [s|z]; [subst d'; do 3 eexists; split; [reflexivity|]; split; [done|lia]|]. destruct Hx as [Hz [ex ->]].
  destruct z as [[|]|ex']; [done| |]; do 3 eexists; (split; [reflexivity|]); [|done]. split; [by apply dom_ok_errored|lia].
Qed.
