(* ===== verification/CborTheory.v ===== *)
(** * CBOR: theorems

    [from_cbor] reads what [to_cbor] wrote, under every way to treat tags; every input is read
    to an end. *)
From S2P Require Import Prelude CLib Json JsonLexer JsonParser JsonText JsonReading JsonComplete JsonValue BinaryFloat FloatTheory Binary BinaryTheory Cbor.
From Stdlib Require Import SpecFloat.

(** ** Control bytes *)

(** The control byte holds the number, or announces its bytes. *)
Definition head (kind N : Z) (c : ascii) (w : bytes) : Prop :=
  ((N <= 0x17)%Z /\ code c = (kind + N)%Z /\ w = []) \/
  exists n, bytes_following kind (code c) = Some n /\ w = write_number n N /\ (N < 256 ^ Z.of_nat n)%Z /\ (kind + 0x18 <= code c <= kind + 0x1B)%Z.

Lemma write_head_spec kind N :
  (0 <= N < 2 ^ 64)%Z -> (0 <= kind <= 0xE0)%Z -> exists c w, write_head kind N = c :: w /\ head kind N c w.
Proof.
  intros HN Hk.
  assert (forall k n, (0x18 <= k <= 0x1B)%Z -> bytes_following kind (kind + k) = Some n -> (N < 256 ^ Z.of_nat n)%Z ->
    exists c w, write_character (kind + k) ++ write_number n N = c :: w /\ head kind N c w) as Hgo.
  { intros k n Hk1 Hb Hn. exists (chr (kind + k)), (write_number n N). split; [done|]. right. exists n.
    rewrite code_chr by lia. by split_and!; [..|lia|lia]. }
  unfold write_head. repeat case_test; to_prop; try (apply Hgo; [lia|unfold bytes_following; by byte_tests|cbn; lia]).
  rewrite write_number_1 by lia. exists (chr (kind + N)), []. split; [done|]. left. rewrite code_chr by lia. done.
Qed.

Section consumes.
  Context {H : Type} `{SizedSAX H}.

Lemma get_length_spec kind N c w :
  (0 <= N)%Z -> (kind mod 32 = 0)%Z -> head kind N c w -> exists m : M H Z, get_length kind (code c) = Some m /\ consumes m w N.
Proof.
  intros HN Hk [(Hs & Hc & ->)|(n & Hb & -> & Hn & Hc)]; unfold get_length.
  - rewrite Hc. byte_tests. eexists. split; [done|]. replace (Z.land (kind + N) 31) with N; [apply consumes_ret|].
    change 31%Z with (Z.ones 5). rewrite Z.land_ones by lia. change (2 ^ 5)%Z with 32%Z.
    rewrite Z.add_mod, Hk, Z.add_0_l, Z.mod_mod, Z.mod_small by lia. done.
  - byte_tests. rewrite Hb. eexists. split; [done|]. by apply get_number_consumes.
Qed.

(** Behind the control byte of a string or a byte array. *)
Lemma get_cbor_string_reads fuel s c w :
  0 < fuel -> head 0x60 (Z.of_nat (length s)) c w -> consumes_from c (get_cbor_string (H := H) fuel) (w ++ s) s.
Proof.
  intros Hf Hh r st rest Hc Hr. destruct fuel as [|fuel]; [lia|]. cbn [get_cbor_string].
  assert (unexpect_eof cbor (B "string") r st = Some (Val tt, r, st)) as He by (unfold unexpect_eof; by rewrite Hc).
  rewrite (bind_val _ _ _ _ _ _ _ He). assert (the_current r st = Some (Val (code c), r, st)) as Ht by (unfold the_current, current_int; by rewrite Hc).
  rewrite (bind_val _ _ _ _ _ _ _ Ht). destruct (get_length_spec 0x60 (Z.of_nat (length s)) c w) as (m & -> & Hm); [lia|done|done|].
  revert r st rest Hc Hr He Ht. intros r st rest _ Hr _ _. eapply consumes_bind; [exact Hm|apply get_string_consumes|done].
Qed.

Lemma get_cbor_binary_reads fuel s c w :
  0 < fuel -> head 0x40 (Z.of_nat (length s)) c w -> consumes_from c (get_cbor_binary (H := H) fuel) (w ++ s) s.
Proof.
  intros Hf Hh r st rest Hc Hr. destruct fuel as [|fuel]; [lia|]. cbn [get_cbor_binary].
  assert (unexpect_eof cbor (B "binary") r st = Some (Val tt, r, st)) as He by (unfold unexpect_eof; by rewrite Hc).
  rewrite (bind_val _ _ _ _ _ _ _ He). assert (the_current r st = Some (Val (code c), r, st)) as Ht by (unfold the_current, current_int; by rewrite Hc).
  rewrite (bind_val _ _ _ _ _ _ _ Ht). destruct (get_length_spec 0x40 (Z.of_nat (length s)) c w) as (m & -> & Hm); [lia|done|done|].
  revert r st rest Hc Hr He Ht. intros r st rest _ Hr _ _. eapply consumes_bind; [exact Hm|apply get_binary_consumes|done].
Qed.

(** A whole string. *)
Lemma cbor_string_reads fuel s :
  0 < fuel -> (Z.of_nat (length s) < 2 ^ 64)%Z -> consumes (get ;;* get_cbor_string (H := H) fuel) (write_cbor_string s) s.
Proof.
  intros Hf Hs. unfold write_cbor_string. destruct (write_head_spec 0x60 (Z.of_nat (length s))) as (c & w & -> & Hh); [lia|lia|].
  cbn [app]. apply consumes_get. by apply get_cbor_string_reads.
Qed.
End consumes.

(** ** Values *)

Lemma bytes_following_none kind c : (c < kind + 0x18 \/ kind + 0x1B < c)%Z -> bytes_following kind c = None.
Proof. intros Hc. unfold bytes_following. by byte_tests. Qed.

Lemma get_length_none {H} `{SizedSAX H} kind c : (c < kind \/ kind + 0x1B < c)%Z -> get_length (H := H) kind c = None.
Proof.
  intros Hc. unfold get_length. rewrite bytes_following_none by lia. destruct (kind <=? c)%Z eqn:?, (c <=? kind + 0x17)%Z eqn:?; to_prop; done || lia.
Qed.

Lemma cbor_unsigned_none {H} `{SizedSAX H} c : (0x1B < c)%Z -> cbor_unsigned (H := H) c = None.
Proof. intros Hc. unfold cbor_unsigned. rewrite bytes_following_none by lia. by byte_tests. Qed.

Lemma cbor_negative_none {H} `{SizedSAX H} c : (c < 0x20 \/ 0x3B < c)%Z -> cbor_negative (H := H) c = None.
Proof.
  intros Hc. unfold cbor_negative. rewrite bytes_following_none by lia.
  destruct (0x20 <=? c)%Z eqn:?, (c <=? 0x37)%Z eqn:?; to_prop; done || lia.
Qed.

Section values.
  Context (h : cbor_tag_handler_t.t).

Definition cbor_limits : limits :=
  MkLimits (2 ^ 64 - 1) array_max_size object_max_size (match h with cbor_tag_handler_t.error => -1 | _ => 2 ^ 64 - 1 end).
Definition keeps : bool := match h with cbor_tag_handler_t.ignore => false | _ => true end.

Abbreviation parse := (parse_cbor_internal (H := dom_parser) h).

Lemma cbor_unsigned_reads fuel N :
  (0 <= N < 2 ^ 64)%Z -> 0 < fuel -> reads (parse fuel true) (write_head 0 N) (VUnsigned N).
Proof.
  intros HN Hf. destruct fuel as [|fuel]; [lia|]. destruct (write_head_spec 0 N HN ltac:(lia)) as (c & w & -> & Hh).
  cbn [parse_cbor_internal]; unfold cbor_value. apply reads_get, reads_any. destruct Hh as [(Hs & Hc & ->)|(n & Hb & -> & Hn & Hc)].
  - byte_tests. unfold cbor_unsigned. byte_tests. rewrite Hc. by apply reads_scalar.
  - byte_tests. unfold cbor_unsigned. byte_tests. rewrite Hb. cbn [mbind option_bind].
    eapply reads_then; [apply get_number_consumes; lia|done].
Qed.

Lemma cbor_negative_reads fuel N :
  (0 <= N < 2 ^ 63)%Z -> 0 < fuel -> reads (parse fuel true) (write_head 0x20 N) (VInteger (-1 - N)).
Proof.
  intros HN Hf. destruct fuel as [|fuel]; [lia|]. destruct (write_head_spec 0x20 N ltac:(lia) ltac:(lia)) as (c & w & -> & Hh).
  cbn [parse_cbor_internal]; unfold cbor_value. apply reads_get, reads_any. destruct Hh as [(Hs & Hc & ->)|(n & Hb & -> & Hn & Hc)].
  - byte_tests. rewrite cbor_unsigned_none by lia. unfold cbor_negative. byte_tests. apply reads_scalar. cbn. f_equal. f_equal.
    rewrite Hc. unfold wraps. rewrite Z.mod_small by lia. lia.
  - byte_tests. rewrite cbor_unsigned_none by lia. unfold cbor_negative. byte_tests. rewrite Hb. cbn [mbind option_bind].
    eapply reads_then; [apply get_number_consumes; lia|]. cbn. f_equal. f_equal. unfold wraps. rewrite Z.mod_small by lia. lia.
Qed.

Lemma cbor_string_value fuel s :
  (Z.of_nat (length s) < 2 ^ 64)%Z -> 1 < fuel -> reads (parse fuel true) (write_cbor_string s) (VString s).
Proof.
  intros HN Hf. destruct fuel as [|fuel]; [lia|]. unfold write_cbor_string.
  destruct (write_head_spec 0x60 (Z.of_nat (length s)) ltac:(lia) ltac:(lia)) as (c & w & -> & Hh).
  cbn [parse_cbor_internal app]; unfold cbor_value. apply reads_get. assert (0x60 <= code c <= 0x7B)%Z as Hc by (destruct Hh as [(? & ? & _)|(n & _ & _ & _ & ?)]; lia).
  byte_tests. rewrite cbor_unsigned_none, cbor_negative_none by lia. byte_tests.
  rewrite <- (app_nil_r (w ++ s)). eapply reads_bind_from; [by apply get_cbor_string_reads; [lia|]|by apply reads_scalar].
Qed.

Lemma cbor_binary_value fuel b :
  (Z.of_nat (length b) < 2 ^ 64)%Z -> 1 < fuel ->
  reads (parse fuel true) (write_head 0x40 (Z.of_nat (length b)) ++ b) (VBinary (MkBinary b None)).
Proof.
  intros HN Hf. destruct fuel as [|fuel]; [lia|].
  destruct (write_head_spec 0x40 (Z.of_nat (length b)) ltac:(lia) ltac:(lia)) as (c & w & -> & Hh).
  cbn [parse_cbor_internal app]; unfold cbor_value. apply reads_get. assert (0x40 <= code c <= 0x5B)%Z as Hc by (destruct Hh as [(? & ? & _)|(n & _ & _ & _ & ?)]; lia).
  byte_tests. rewrite cbor_unsigned_none, cbor_negative_none by lia. byte_tests.
  rewrite <- (app_nil_r (w ++ b)). eapply reads_bind_from; [by apply get_cbor_binary_reads; [lia|]|by apply reads_scalar].
Qed.

Lemma cbor_half_reads a b x : half_value (code a * 256 + code b) = x -> reads cbor_half [a; b] (VFloat x).
Proof. intros <-. unfold cbor_half. apply reads_char, reads_char. by apply reads_scalar. Qed.

Lemma cbor_float_value fuel x : valid_binary 53 1024 x = true -> 0 < fuel -> reads (parse fuel true) (write_cbor_float x) (VFloat x).
Proof.
  intros Hv Hf. destruct fuel as [|fuel]; [lia|]. cbn [parse_cbor_internal]; unfold cbor_value.
  assert (reads (parse (S fuel) true) (write_compact_float 0xFA 0xFB x) (VFloat x)) as Hcompact.
  { unfold write_compact_float. destruct (_ && _) eqn:Hc.
    - apply andb_true_iff in Hc as [_ Hc]. unfold cbor_value; apply reads_get, reads_any.
      change (reads (let* number := get_float cbor in call (sax_number_float number [])) (write_number 4 (bits32 (to_float x))) (VFloat x)).
      by eapply reads_then; [apply get_float_consumes|].
    - unfold cbor_value; apply reads_get, reads_any.
      change (reads (let* number := get_double cbor in call (sax_number_float number [])) (write_number 8 (bits64 x)) (VFloat x)).
      by eapply reads_then; [apply get_double_consumes|]. }
  destruct x as [s|s| |s m e]; [exact Hcompact| | |exact Hcompact].
  - apply reads_get, reads_any. destruct s; by apply cbor_half_reads.
  - by apply reads_get, reads_any, cbor_half_reads.
Qed.

End values.

(** The tag of a subtype, as it is treated. *)
Lemma write_subtype_spec t :
  (0 <= t < 2 ^ 64)%Z -> exists c n, write_cbor_subtype t = c :: write_number n t /\ bytes_following 0xC0 (code c) = Some n /\
    (t < 256 ^ Z.of_nat n)%Z /\ (0xD8 <= code c <= 0xDB)%Z.
Proof.
  intros Ht. unfold write_cbor_subtype.
  repeat case_test; to_prop; rewrite write_number_1 by lia; do 2 eexists; (split; [reflexivity|]); rewrite code_chr by lia; (split; [reflexivity|]); cbn; lia.
Qed.

Lemma get_container_length_none {H} `{SizedSAX H} kind c : (c < kind \/ kind + 0x1F < c)%Z -> get_container_length (H := H) kind c = None.
Proof. intros Hc. unfold get_container_length. rewrite get_length_none by lia. by byte_tests. Qed.

Lemma cbor_binary_tagged h fuel b :
  encodable (cbor_limits h) (VBinary b) = true -> 2 < fuel -> reads (parse_cbor_internal h fuel true) (write_cbor_binary b) (reread (keeps h) (VBinary b)).
Proof.
  intros Hb Hf. cbn [encodable cbor_limits max_string max_subtype] in Hb. destruct b as [b [t|]]; cbn [bin_data m_subtype reread] in *; to_prop.
  2: { unfold write_cbor_binary. cbn [app bin_data m_subtype]. replace (if keeps h then None else None) with (@None Z) by (by destruct (keeps h)).
       apply cbor_binary_value; lia. }
  unfold write_cbor_binary. cbn [bin_data m_subtype]. destruct (write_subtype_spec t) as (c & n & -> & Hfo & Ht & Hc); [destruct h; lia|].
  destruct fuel as [|fuel]; [lia|]. cbn [parse_cbor_internal app]; unfold cbor_value. apply reads_get. byte_tests.
  rewrite cbor_unsigned_none, cbor_negative_none, !get_container_length_none by lia. byte_tests.
  assert (cbor_simple (H := dom_parser) (code c) = None) as -> by (unfold cbor_simple; by byte_tests).
  unfold is_tag. byte_tests. apply reads_any. unfold cbor_tag, get_subtype. rewrite Hfo. cbn [mbind option_bind].
  pose proof (ignored_consumes (H := dom_parser) 0%Z _ _ _ (get_number_consumes cbor n t ltac:(lia))) as Hcons. unfold keeps. destruct h; [lia| |].
  - eapply reads_bind; [exact Hcons|]. apply cbor_binary_value; lia.
  - eapply reads_bind; [exact Hcons|]. destruct (write_head_spec 0x40 (Z.of_nat (length b)) ltac:(lia) ltac:(lia)) as (c2 & w & -> & Hh).
    cbn [app]. apply reads_get. rewrite <- (app_nil_r (w ++ b)). eapply reads_bind_from; [by apply get_cbor_binary_reads; [lia|]|by apply reads_scalar].
Qed.

(** Every value takes at least a byte. *)
Lemma write_head_nonempty kind N : 0 < length (write_head kind N).
Proof. unfold write_head. repeat case_test; cbn; lia. Qed.

Lemma write_cbor_nonempty v : 0 < length (write_cbor v).
Proof.
  destruct v as [|b|z|z|x|s|b|l|l]; cbn [write_cbor]; rewrite ?length_app; try (cbn; lia); try (pose proof (write_head_nonempty 0 z); lia).
  - unfold write_cbor_integer. case_test; apply write_head_nonempty.
  - unfold write_cbor_float, write_compact_float. destruct x; try (cbn; lia); case_test; cbn; lia.
  - unfold write_cbor_string. rewrite length_app. pose proof (write_head_nonempty 0x60 (Z.of_nat (length s))). lia.
  - unfold write_cbor_binary. rewrite !length_app. pose proof (write_head_nonempty 0x40 (Z.of_nat (length (bin_data b)))). lia.
  - pose proof (write_head_nonempty 0x80 (Z.of_nat (length l))). lia.
  - pose proof (write_head_nonempty 0xA0 (Z.of_nat (length l))). lia.
Qed.

(** The bytes of arrays and of objects, up to the elements. *)
Lemma head_code kind N c w : head kind N c w -> (0 <= N)%Z -> (kind <= code c <= kind + 0x1B)%Z.
Proof. intros [(? & ? & _)|(n & _ & _ & _ & ?)] ?; lia. Qed.

Lemma cbor_container_dispatch h fuel kind N c w (k : Z -> M dom_parser unit) wb v :
  (kind = 0x80 /\ k = get_cbor_array fuel (parse_cbor_internal h fuel) \/ kind = 0xA0 /\ k = get_cbor_object fuel (parse_cbor_internal h fuel))%Z ->
  (0 <= N < 2 ^ 64)%Z -> head kind N c w -> reads (k N) wb v -> reads (parse_cbor_internal h (S fuel) true) (c :: w ++ wb) v.
Proof.
  intros Hk HN Hh Hr. cbn [parse_cbor_internal]; unfold cbor_value. apply reads_get. pose proof (head_code _ _ _ _ Hh ltac:(lia)) as Hc.
  assert (0x80 <= code c <= 0xBB)%Z as Hc2 by (destruct Hk as [[-> _]|[-> _]]; lia).
  byte_tests. rewrite cbor_unsigned_none, cbor_negative_none by lia. byte_tests. apply reads_any.
  destruct (get_length_spec (H := dom_parser) kind N c w) as (m & Hm & Hcons); [lia|by destruct Hk as [[-> _]|[-> _]]|done|].
  assert (get_container_length kind (code c) = Some m) as Hlen by (unfold get_container_length; by rewrite Hm).
  destruct Hk as [[-> ->]|[-> ->]].
  - rewrite Hlen. eapply reads_bind; [exact Hcons|exact Hr].
  - rewrite get_container_length_none, Hlen by lia. eapply reads_bind; [exact Hcons|exact Hr].
Qed.

(** A key and a value. *)
Lemma cbor_member_reads h fuel k w x :
  (Z.of_nat (length k) < 2 ^ 64)%Z -> 0 < fuel -> reads (parse_cbor_internal h fuel true) w x ->
  reads_member (get ;;* cbor_member fuel (parse_cbor_internal h fuel)) (write_cbor_string k ++ w) k x.
Proof.
  intros Hk Hf Hr. pose proof (reads_member_intro _ _ _ _ k x (cbor_string_reads fuel k Hf Hk) Hr) as Hm.
  intros r d st q rs pre rest Hi Hd Hin Hpre. destruct (Hm r d st q rs pre rest Hi Hd Hin Hpre) as (r' & d' & Heq & Hrest).
  exists r', d'. split; [|done]. rewrite <- Heq. unfold cbor_member, bindM. destruct (get r d) as [[[[c|] r1] s1]|]; [|done..]. done.
Qed.

(** What is to be shown of a value. *)
Definition cbor_roundtrip (h : cbor_tag_handler_t.t) (v : value) : Prop := forall fuel,
  encodable (cbor_limits h) v = true -> length (write_cbor v) + 1 < fuel ->
  reads (parse_cbor_internal h fuel true) (write_cbor v) (reread (keeps h) v).

Lemma cbor_array_reads h l : Forall (cbor_roundtrip h) l -> cbor_roundtrip h (VArray l).
Proof.
  intros IH fuel He Hf. destruct fuel as [|fuel]; [lia|].
  assert (array_max_size < 2 ^ 64 - 1 /\ object_max_size < 2 ^ 64 - 1 /\ no_size = 2 ^ 64 - 1)%Z as (Hamax & Homax & Hno) by done.
  cbn [encodable reread write_cbor cbor_limits max_array] in *. to_prop.
  destruct (write_head_spec 0x80 (Z.of_nat (length l))) as (c & w & Hw & Hh); [lia|lia|]. rewrite Hw in *.
  rewrite length_app in Hf. cbn [length] in Hf. cbn [app].
  eapply (cbor_container_dispatch h fuel 0x80 (Z.of_nat (length l))); [by left|lia|exact Hh|].
  unfold get_cbor_array. rewrite (proj2 (Z.eqb_neq _ no_size)) by lia. cbn [negb].
  apply (start_end_reads true (VArray []) (VArray (map (reread (keeps h)) l))); [done|lia|].
  intros r d st q rs rest Hi Hd Hin. apply (for_elements _ write_cbor (reread (keeps h)) l fuel) with (pre := []) (rs := rs) (st := st); try done.
  - match goal with He : forallb _ _ = true |- _ => rewrite forallb_Forall, Forall_forall in He; rename He into He0 end. apply Forall_forall. intros v Hv. rewrite Forall_forall in IH.
    pose proof (flat_map_length_le write_cbor v l Hv). apply IH; [done|by apply He0|lia].
  - pose proof (flat_map_length_ge write_cbor l write_cbor_nonempty). lia.
Qed.

Lemma cbor_object_reads h l : Forall (fun kv => cbor_roundtrip h (snd kv)) l -> cbor_roundtrip h (VObject l).
Proof.
  intros IH fuel He Hf. destruct fuel as [|fuel]; [lia|].
  assert (array_max_size < 2 ^ 64 - 1 /\ object_max_size < 2 ^ 64 - 1 /\ no_size = 2 ^ 64 - 1)%Z as (Hamax & Homax & Hno) by done.
  cbn [encodable reread write_cbor cbor_limits max_object] in *. to_prop.
  destruct (write_head_spec 0xA0 (Z.of_nat (length l))) as (c & w & Hw & Hh); [lia|lia|]. rewrite Hw in *.
  rewrite length_app in Hf. cbn [length] in Hf. cbn [app].
  set (wm := fun kv : bytes * value => write_cbor_string (fst kv) ++ write_cbor (snd kv)) in *.
  eapply (cbor_container_dispatch h fuel 0xA0 (Z.of_nat (length l))); [by right|lia|exact Hh|].
  unfold get_cbor_object. rewrite (proj2 (Z.eqb_neq _ no_size)) by lia. cbn [negb].
  apply (start_end_reads false (VObject []) (VObject (map (fun kv => (fst kv, reread (keeps h) (snd kv))) l))); [done|lia|].
  intros r d st q rs rest Hi Hd Hin. assert (forall m, (if negb (Z.of_nat (length l) =? 0)%Z then for_len m fuel (Z.of_nat (length l)) else ret tt) = for_len (H := dom_parser) m fuel (Z.of_nat (length l))) as ->
    by (intros m; destruct l; by destruct fuel).
  apply (for_members _ wm (reread (keeps h)) l fuel) with (pre := []) (rs := rs) (st := st); try done.
  - match goal with He : forallb _ _ = true |- _ => rewrite forallb_Forall, Forall_forall in He; rename He into He0 end. apply Forall_forall. intros v Hv. rewrite Forall_forall in IH.
    pose proof (flat_map_length_le wm v l Hv) as Hle. assert (length (write_cbor (snd v)) <= length (wm v)) by (unfold wm; rewrite length_app; lia).
    specialize (He0 v Hv). change (max_string (cbor_limits h)) with (2 ^ 64 - 1)%Z in He0. to_prop. apply cbor_member_reads; [lia|lia|]. apply IH; [done|done|lia].
  - pose proof (flat_map_length_ge wm l) as Hge. lapply Hge; [lia|]. intros kv. unfold wm. rewrite length_app. pose proof (write_cbor_nonempty (snd kv)). lia.
Qed.

Lemma cbor_reads h v : cbor_roundtrip h v.
Proof.
  induction v as [v Hp|l IH|l IH] using value_induction; [|by apply cbor_array_reads|by apply cbor_object_reads].
  intros fuel He Hf. pose proof (write_cbor_nonempty v) as Hne. destruct v as [|b|z|z|x|s|b|l|l]; try done; cbn [encodable reread write_cbor] in *.
  - destruct fuel as [|fuel]; [lia|]. by apply reads_get, reads_any, (reads_scalar _ VNull).
  - destruct fuel as [|fuel]; [lia|]. destruct b; apply reads_get, reads_any; [by apply (reads_scalar _ (VBool true))|by apply (reads_scalar _ (VBool false))].
  - to_prop. unfold write_cbor_integer. case_test; to_prop; [apply cbor_unsigned_reads; lia|].
    replace z with (-1 - (-1 - z))%Z at 2 by lia. apply cbor_negative_reads; lia.
  - to_prop. apply cbor_unsigned_reads; lia.
  - apply cbor_float_value; [done|lia].
  - cbn [max_string cbor_limits] in He. to_prop. apply cbor_string_value; lia.
  - apply cbor_binary_tagged; [done|lia].
Qed.

(** ** Every input is read to an end *)

Lemma get_length_total kind c m n st e : get_length kind c = Some m -> total m n st e st e 0.
Proof.
  unfold get_length. case_test; [intros [= <-] z; apply total_ret|]. destruct (bytes_following kind c); [|done]. intros [= <-]. apply get_number_total.
Qed.

Lemma get_cbor_string_stops fuel : 0 < fuel -> stops (get_cbor_string (H := dom_parser) fuel).
Proof. destruct fuel; [lia|]. intros _. apply unexpect_eof_stops. Qed.
Lemma get_cbor_binary_stops fuel : 0 < fuel -> stops (get_cbor_binary (H := dom_parser) fuel).
Proof. destruct fuel; [lia|]. intros _. apply unexpect_eof_stops. Qed.

Lemma get_cbor_string_total fuel n st e : n + 2 <= fuel -> total (get_cbor_string fuel) n st e st e 0.
Proof.
  revert n. induction fuel as [|fuel IH]; intros n Hf [c|]; [lia..| |by apply stops_total, get_cbor_string_stops; lia].
  cbn [get_cbor_string]. apply unexpect_eof_total, the_current_total. destruct (get_length 0x60 (code c)) as [m|] eqn:Hm.
  - eapply total_bind0; [by eapply get_length_total|]. intros len. apply get_string_total.
  - case_test; [|apply bad_byte_total]. eapply total_bind0; [|intros l z; apply total_ret].
    apply while_no_break_total with (e := e); [lia| |apply get_cbor_string_stops; lia|done]. intros a n' Hn'. apply IH. lia.
Qed.

Lemma get_cbor_binary_total fuel n st e : n + 2 <= fuel -> total (get_cbor_binary fuel) n st e st e 0.
Proof.
  revert n. induction fuel as [|fuel IH]; intros n Hf [c|]; [lia..| |by apply stops_total, get_cbor_binary_stops; lia].
  cbn [get_cbor_binary]. apply unexpect_eof_total, the_current_total. destruct (get_length 0x40 (code c)) as [m|] eqn:Hm.
  - eapply total_bind0; [by eapply get_length_total|]. intros len. apply get_binary_total.
  - case_test; [|apply bad_byte_total]. eapply total_bind0; [|intros l z; apply total_ret].
    apply while_no_break_total with (e := e); [lia| |apply get_cbor_binary_stops; lia|done]. intros a n' Hn'. apply IH. lia.
Qed.

Section total.
  Context (h : cbor_tag_handler_t.t) (fuel : nat) (parse : bool -> M dom_parser unit)
    (Hparse : forall n st, n + 2 <= fuel -> total (parse true) n st true st false 1)
    (Hnext : forall c n st, n + 3 <= fuel -> total_at (Some c) (parse false) n st true st false 0)
    (Hstop : 0 < fuel -> stops (parse false)).

Lemma get_cbor_array_total len n st : n + 2 <= fuel -> total (get_cbor_array fuel parse len) n st true st false 0.
Proof.
  intros Hf c. unfold get_cbor_array. eapply total_bind0; [by apply call_start_total|]. intros _ c1.
  eapply total_bind0; [|intros _ c2; apply call_end_total]. case_test.
  - apply (for_len_total _ _ _ n (true :: st) true false); [lia|intros n' Hn'; apply Hparse; lia|apply dom_array_next].
  - eapply total_bind0; [|intros _ c2; apply total_ret].
    apply (while_no_break_total _ _ n (true :: st) true false); [lia|intros a n' Hn'; apply Hnext; lia|apply Hstop; lia|apply dom_array_next].
Qed.

Lemma cbor_member_total n st : n + 2 <= fuel -> total (cbor_member fuel parse) n (false :: st) false (false :: st) false 0.
Proof.
  intros Hf c. unfold cbor_member. eapply total_bind0; [by apply get_cbor_string_total|]. intros k c1.
  eapply total_bind0; [apply call_key_total|]. intros _ c2. eapply total_weaken; [by apply Hparse|done|lia].
Qed.

Lemma cbor_member_stops : 0 < fuel -> stops (cbor_member fuel parse).
Proof.
  intros Hf r d Hc. destruct (get_cbor_string_stops fuel Hf r d Hc) as (z & r' & d' & Heq & Hz). exists z, r', d'. split; [|done].
  unfold cbor_member, bindM. by rewrite Heq.
Qed.

Lemma get_cbor_object_total len n st : n + 2 <= fuel -> total (get_cbor_object fuel parse len) n st true st false 0.
Proof.
  intros Hf c. unfold get_cbor_object. eapply total_bind0; [by apply call_start_total|]. intros _ c1.
  eapply total_bind0; [|intros _ c2; apply call_end_total]. case_test; [|apply total_ret]. case_test.
  - apply (for_len_total _ _ _ n (false :: st) false false); [lia| |done]. intros n' Hn'. apply total_get; [|apply cbor_member_stops; lia].
    intros _ a. apply cbor_member_total. lia.
  - eapply total_bind0; [|intros _ c2; apply total_ret].
    apply (while_no_break_total _ _ n (false :: st) false false); [lia|intros a n' Hn'; apply cbor_member_total; lia|apply cbor_member_stops; lia|done].
Qed.

Lemma cbor_tag_total c n st : n + 2 <= fuel -> total (cbor_tag h fuel parse c) n st true st false 0.
Proof.
  intros Hf z. assert (forall m, get_subtype c = Some m -> total m n st true st true 0) as Hsub.
  { unfold get_subtype. destruct (bytes_following 0xC0 c); [|done]. intros m [= <-]. apply ignored_total. }
  unfold cbor_tag. destruct h; [apply bad_byte_total| |]; destruct (get_subtype c) as [m|]; try (eapply total_weaken; [by apply Hparse|done|lia]).
  - eapply total_bind0; [by apply Hsub|]. intros _ z1. eapply total_weaken; [by apply Hparse|done|lia].
  - eapply total_bind0; [by apply Hsub|]. intros t z1. eapply total_weaken; [apply total_get|done|].
    + intros Hn a. eapply total_bind0; [apply get_cbor_binary_total; lia|]. intros b z2. by eapply call_value_total.
    + intros r d Hc. destruct (get_cbor_binary_stops fuel ltac:(lia) r d Hc) as (y & r' & d' & Heq & Hy). exists y, r', d'. split; [|done].
      unfold bindM. by rewrite Heq.
    + lia.
Qed.

Lemma cbor_value_total c n st : n + 2 <= fuel -> total_at (Some c) (cbor_value h fuel parse (code c)) n st true st false 0.
Proof.
  intros Hf. assert (forall A (m : M dom_parser A) f, total m n st true st true 0 -> (forall a, exists v, f a = dom_value v) -> total_at (Some c) (let* x := m in call (f x)) n st true st false 0) as Hnum.
  { intros A m f Hm Hv. eapply total_bind0; [apply Hm|]. intros a z. destruct (Hv a) as [v Ha]. by apply (call_value_total _ v). }
  unfold cbor_value. rewrite (proj2 (Z.eqb_neq _ _)) by (pose proof (code_range c); lia).
  destruct (cbor_unsigned (code c)) as [m|] eqn:Hu.
  { unfold cbor_unsigned in Hu. revert Hu. case_test; [intros [= <-]; by apply call_value_total with (v := VUnsigned (code c))|].
    destruct (bytes_following 0 (code c)); [|done]. intros [= <-]. apply Hnum; [apply get_number_total|intros a; by eexists]. }
  destruct (cbor_negative (code c)) as [m|] eqn:Hneg.
  { unfold cbor_negative in Hneg. revert Hneg. case_test; [intros [= <-]; by eapply call_value_total|].
    destruct (bytes_following 0x20 (code c)); [|done]. intros [= <-]. apply Hnum; [apply get_number_total|intros a; by eexists]. }
  case_test; [eapply total_bind0; [by apply get_cbor_binary_total|intros b z; by eapply call_value_total]|].
  case_test; [eapply total_bind0; [by apply get_cbor_string_total|intros b z; by eapply call_value_total]|].
  assert (forall kind m, get_container_length kind (code c) = Some m -> total m n st true st true 0) as Hlen.
  { intros kind m. unfold get_container_length. destruct (get_length kind (code c)) as [l|] eqn:Hl; [intros [= <-]; by eapply get_length_total|].
    case_test; [|done]. intros [= <-] z. apply total_ret. }
  destruct (get_container_length 0x80 (code c)) as [m|] eqn:Ha; [eapply total_bind0; [by eapply Hlen|]; intros len; by apply get_cbor_array_total|].
  destruct (get_container_length 0xA0 (code c)) as [m|] eqn:Ho; [eapply total_bind0; [by eapply Hlen|]; intros len; by apply get_cbor_object_total|].
  destruct (cbor_simple (code c)) as [m|] eqn:Hs; [|case_test; [by apply cbor_tag_total|apply bad_byte_total]].
  unfold cbor_simple in Hs. revert Hs. repeat (case_test; [intros [= <-]|]); try done; try (by eapply call_value_total).
  - unfold cbor_half. eapply total_weaken; [apply char_total|done|apply Nat.le_0_l]. intros _ a z.
    eapply total_weaken; [apply char_total|done|apply Nat.le_0_l]. intros _ b y. by eapply call_value_total.
  - apply (Hnum _ _ (fun a => dom_value (VFloat a))); [|intros a; by eexists]. intros z. eapply total_bind0; [apply get_number_total|]. intros a y. apply total_ret.
  - apply (Hnum _ _ (fun a => dom_value (VFloat a))); [|intros a; by eexists]. intros z. eapply total_bind0; [apply get_number_total|]. intros a y. apply total_ret.
Qed.
End total.

Lemma cbor_value_stops h fuel parse : stops (cbor_value (H := dom_parser) h fuel parse (-1)%Z).
Proof.
  intros r d Hc. unfold cbor_value. change (-1 =? -1)%Z with true. cbv iota. unfold unexpect_eof. rewrite Hc.
  destruct (report_fails (B "<end of file>") 110 (exception_message cbor (B "unexpected end of input") (B "value")) r d) as (z & d' & -> & Hz).
  by exists z, r, d'.
Qed.

Lemma parse_cbor_total h fuel :
  (forall n st, n + 2 <= fuel -> total (parse_cbor_internal h fuel true) n st true st false 1) /\
  (forall c n st, n + 3 <= fuel -> total_at (Some c) (parse_cbor_internal h fuel false) n st true st false 0) /\
  (0 < fuel -> stops (parse_cbor_internal (H := dom_parser) h fuel false)).
Proof.
  induction fuel as [|fuel (Hp & Hn & Hs)]; [split_and!; intros; lia|]. cbn [parse_cbor_internal]. split_and!.
  - intros n st Hf. apply total_get; [|apply cbor_value_stops]. intros Hpos c. apply cbor_value_total; [done..|lia].
  - intros c n st Hf. apply the_current_total, cbor_value_total; [done..|lia].
  - intros _ r d Hc. assert (the_current r d = Some (Val (-1)%Z, r, d)) as He by (unfold the_current, current_int; by rewrite Hc).
    rewrite (bind_val _ _ _ _ _ _ _ He). by apply cbor_value_stops.
Qed.

(** C17: what [to_cbor] writes, [from_cbor] reads: every value of the C++ types (but for byte
    arrays with a subtype, which are tags, where tags are an error, as they are by default:
    [subtype_refused]), with integers,
    floating point numbers (in half, single or double precision, infinities and NaN), strings,
    byte arrays and nested arrays and objects of every length comes back, whatever is done with
    tags, but for integers from 0 on, which come back unsigned, and for subtypes, where tags are
    ignored.  Bytes behind the value are left alone, or an error in strict mode. *)
Theorem cbor_correct (tag_handler : cbor_tag_handler_t.t) (strict allow_exceptions : bool) v rest :
  encodable (cbor_limits tag_handler) v = true ->
  exists r, from_cbor strict allow_exceptions tag_handler (to_cbor v ++ rest) = Some r /\
    read_result strict allow_exceptions (reread (keeps tag_handler) v) rest r.
Proof.
  intros Hv. apply from_binary_reads, cbor_reads; [done|]. unfold to_cbor, input_fuel. rewrite length_app. lia.
Qed.

Lemma cbor_correct_witness :
  let v := VArray [demo_value; VFloat (S754_infinity true); VInteger 7; VFloat (S754_finite false 7070651414971679 (-54))] in
  encodable (cbor_limits cbor_tag_handler_t.store) v = true /\
  exists r, from_cbor true true cbor_tag_handler_t.store (to_cbor v ++ []) = Some r /\ read_result true true (reread true v) [] r.
Proof.
  intros v. assert (encodable (cbor_limits cbor_tag_handler_t.store) v = true) as Hv by (vm_compute; reflexivity).
  split; [exact Hv|]. exact (cbor_correct cbor_tag_handler_t.store true true v [] Hv).
Defined.

Lemma from_cbor_total strict allow_exceptions tag_handler input : is_Some (from_cbor strict allow_exceptions tag_handler input).
Proof. eapply from_binary_total. apply parse_cbor_total. unfold input_fuel. lia. Qed.

(** ** At the edges *)

(** With the default way to treat tags a byte array with a subtype is not read back. *)
Example subtype_refused :
  match from_cbor true true cbor_tag_handler_t.error (to_cbor (VBinary (MkBinary (B "x") (Some 1%Z)))) with
  | Some (Thrown e) => exn_id e = 112%Z | _ => False end.
Proof. vm_compute. reflexivity. Qed.

Definition eight_bytes (c : Z) : bytes := replicate 8 (chr c).

(** A negative integer below [-2^63] is read as another one, [-2^64] as zero. *)
Lemma large_negative_wraps :
  from_cbor true true cbor_tag_handler_t.error (chr 0x3B :: eight_bytes 0xFF) = Some (Parsed (VInteger 0)).
Proof. vm_compute. reflexivity. Qed.

(** An array that announces [2^64 - 1] elements is read as one of indefinite length. *)
Lemma largest_length_indefinite :
  from_cbor true true cbor_tag_handler_t.error (chr 0x9B :: eight_bytes 0xFF ++ [chr 1; chr 0xFF]) = Some (Parsed (VArray [VUnsigned 1])).
Proof. vm_compute. reflexivity. Qed.

(** A length beyond [max_size] is an exception, also where exceptions are not allowed. *)
Lemma excessive_length_throws :
  exists what, from_cbor true false cbor_tag_handler_t.error (chr 0x9B :: eight_bytes 0x7F) = Some (Thrown (MkExn 408 what)).
Proof. eexists. vm_compute. reflexivity. Qed.

(** Strings are not checked to be UTF-8: what is read need not be a value that can be dumped. *)
Lemma strings_unchecked :
  from_cbor true true cbor_tag_handler_t.error [chr 0x61; chr 0xFF] = Some (Parsed (VString [chr 0xFF])) /\ value_ok (VString [chr 0xFF]) = false.
Proof. split; vm_compute; reflexivity. Qed.
