(* ===== verification/MsgPack.v ===== *)
(** * MessagePack: [to_msgpack] and [from_msgpack] of [include/json.hpp]

    [write_msgpack] and [parse_msgpack_internal] with the functions for strings, byte arrays,
    arrays and objects.  A length that no control byte can announce is written as none. *)
From S2P Require Import Prelude CLib Json JsonLexer JsonParser JsonValue BinaryFloat Binary.
From Stdlib Require Import SpecFloat.

Abbreviation msgpack := input_format_t.msgpack.

(** ** The writer *)

Definition write_msgpack_unsigned (z : Z) : bytes :=
  if (z <? 128)%Z then write_number 1 z
  else if (z <=? 0xFF)%Z then write_character 0xCC ++ write_number 1 z
  else if (z <=? 0xFFFF)%Z then write_character 0xCD ++ write_number 2 z
  else if (z <=? 0xFFFFFFFF)%Z then write_character 0xCE ++ write_number 4 z
  else if (z <=? 2 ^ 64 - 1)%Z then write_character 0xCF ++ write_number 8 z
  else [].

Definition write_msgpack_integer (z : Z) : bytes :=
  if (0 <=? z)%Z then write_msgpack_unsigned z
  else if (-32 <=? z)%Z then write_number 1 z
  else if (-128 <=? z)%Z && (z <=? 127)%Z then write_character 0xD0 ++ write_number 1 z
  else if (-32768 <=? z)%Z && (z <=? 32767)%Z then write_character 0xD1 ++ write_number 2 z
  else if (- 2 ^ 31 <=? z)%Z && (z <=? 2 ^ 31 - 1)%Z then write_character 0xD2 ++ write_number 4 z
  else if (- 2 ^ 63 <=? z)%Z && (z <=? 2 ^ 63 - 1)%Z then write_character 0xD3 ++ write_number 8 z
  else [].

Definition write_msgpack_string (s : bytes) : bytes :=
  let N := Z.of_nat (length s) in
  (if (N <=? 31)%Z then write_number 1 (Z.lor 0xA0 N)
   else if (N <=? 0xFF)%Z then write_character 0xD9 ++ write_number 1 N
   else if (N <=? 0xFFFF)%Z then write_character 0xDA ++ write_number 2 N
   else if (N <=? 0xFFFFFFFF)%Z then write_character 0xDB ++ write_number 4 N
   else []) ++ s.

(** The control byte of a byte array of at most 255 bytes, and whether it tells the length. *)
Definition short_binary_type (use_ext : bool) (N : Z) : Z * bool :=
  if use_ext then
    if (N =? 1)%Z then (0xD4, true)%Z else if (N =? 2)%Z then (0xD5, true)%Z else if (N =? 4)%Z then (0xD6, true)%Z
    else if (N =? 8)%Z then (0xD7, true)%Z else if (N =? 16)%Z then (0xD8, true)%Z else (0xC7, false)%Z
  else (0xC4, false)%Z.

Definition write_msgpack_binary (b : byte_container) : bytes :=
  let use_ext := match m_subtype b with Some _ => true | None => false end in
  let N := Z.of_nat (length (bin_data b)) in
  (if (N <=? 0xFF)%Z then
     let '(output_type, fixed) := short_binary_type use_ext N in
     write_character output_type ++ if fixed then [] else write_number 1 N
   else if (N <=? 0xFFFF)%Z then write_character (if use_ext then 0xC8 else 0xC5) ++ write_number 2 N
   else if (N <=? 0xFFFFFFFF)%Z then write_character (if use_ext then 0xC9 else 0xC6) ++ write_number 4 N
   else []) ++
  match m_subtype b with Some t => write_number 1 t | None => [] end ++ bin_data b.

Definition write_array_head (N : Z) : bytes :=
  if (N <=? 15)%Z then write_number 1 (Z.lor 0x90 N)
  else if (N <=? 0xFFFF)%Z then write_character 0xDC ++ write_number 2 N
  else if (N <=? 0xFFFFFFFF)%Z then write_character 0xDD ++ write_number 4 N
  else [].
Definition write_map_head (N : Z) : bytes :=
  if (N <=? 15)%Z then write_number 1 (Z.lor 0x80 (Z.land N 0xF))
  else if (N <=? 0xFFFF)%Z then write_character 0xDE ++ write_number 2 N
  else if (N <=? 0xFFFFFFFF)%Z then write_character 0xDF ++ write_number 4 N
  else [].

Fixpoint write_msgpack (j : value) : bytes :=
  match j with
  | VNull => write_character 0xC0
  | VBool b => write_character (if b then 0xC3 else 0xC2)
  | VInteger z => write_msgpack_integer z
  | VUnsigned z => write_msgpack_unsigned z
  | VFloat x => write_compact_float 0xCA 0xCB x
  | VString s => write_msgpack_string s
  | VBinary b => write_msgpack_binary b
  | VArray l => write_array_head (Z.of_nat (length l)) ++ flat_map write_msgpack l
  | VObject l =>
      write_map_head (Z.of_nat (length l)) ++ flat_map (fun kv => write_msgpack_string (fst kv) ++ write_msgpack (snd kv)) l
  end.

Definition to_msgpack (j : value) : bytes := write_msgpack j.

(** ** The reader *)

Section reader.
  Context {H : Type} `{SizedSAX H}.

Definition get_msgpack_string : M H bytes :=
  unexpect_eof msgpack (B "string") ;;*
  let* c := the_current in
  if (0xA0 <=? c)%Z && (c <=? 0xBF)%Z then get_string msgpack (Z.land c 0x1F)
  else if (c =? 0xD9)%Z then let* len := get_number msgpack 1 in get_string msgpack len
  else if (c =? 0xDA)%Z then let* len := get_number msgpack 2 in get_string msgpack len
  else if (c =? 0xDB)%Z then let* len := get_number msgpack 4 in get_string msgpack len
  else bad_byte [] msgpack 113 (B "expected length specification (0xA0-0xBF, 0xD9-0xDB); last byte: 0x") (B "string").

(** A byte array of a length, with a subtype in front. *)
Definition get_ext (len : Z) : M H byte_container :=
  let* subtype := get_signed msgpack 1 in
  let* b := get_binary msgpack len in ret (MkBinary b (Some (wrapu 8 subtype))).
Definition get_bin (len : Z) : M H byte_container := let* b := get_binary msgpack len in ret (MkBinary b None).

Definition get_msgpack_binary (c : Z) : option (M H byte_container) :=
  if (c =? 0xC4)%Z then Some (let* len := get_number msgpack 1 in get_bin len)
  else if (c =? 0xC5)%Z then Some (let* len := get_number msgpack 2 in get_bin len)
  else if (c =? 0xC6)%Z then Some (let* len := get_number msgpack 4 in get_bin len)
  else if (c =? 0xC7)%Z then Some (let* len := get_number msgpack 1 in get_ext len)
  else if (c =? 0xC8)%Z then Some (let* len := get_number msgpack 2 in get_ext len)
  else if (c =? 0xC9)%Z then Some (let* len := get_number msgpack 4 in get_ext len)
  else if (c =? 0xD4)%Z then Some (get_ext 1)
  else if (c =? 0xD5)%Z then Some (get_ext 2)
  else if (c =? 0xD6)%Z then Some (get_ext 4)
  else if (c =? 0xD7)%Z then Some (get_ext 8)
  else if (c =? 0xD8)%Z then Some (get_ext 16)
  else None.

(** Numbers. *)
Definition msgpack_number (c : Z) : option (M H unit) :=
  let unsigned n := Some (let* number := get_number msgpack n in call (sax_number_unsigned number)) in
  let signed n := Some (let* number := get_signed msgpack n in call (sax_number_integer number)) in
  if (0x00 <=? c)%Z && (c <=? 0x7F)%Z then Some (call (sax_number_unsigned c))
  else if (0xE0 <=? c)%Z && (c <=? 0xFF)%Z then Some (call (sax_number_integer (wraps 8 c)))
  else if (c =? 0xCA)%Z then Some (let* number := get_float msgpack in call (sax_number_float number []))
  else if (c =? 0xCB)%Z then Some (let* number := get_double msgpack in call (sax_number_float number []))
  else if (c =? 0xCC)%Z then unsigned 1 else if (c =? 0xCD)%Z then unsigned 2
  else if (c =? 0xCE)%Z then unsigned 4 else if (c =? 0xCF)%Z then unsigned 8
  else if (c =? 0xD0)%Z then signed 1 else if (c =? 0xD1)%Z then signed 2
  else if (c =? 0xD2)%Z then signed 4 else if (c =? 0xD3)%Z then signed 8
  else None.

Definition msgpack_literal (c : Z) : option (M H unit) :=
  if (c =? 0xC0)%Z then Some (call sax_null)
  else if (c =? 0xC2)%Z then Some (call (sax_boolean false))
  else if (c =? 0xC3)%Z then Some (call (sax_boolean true))
  else None.

(** The lengths of arrays and of maps. *)
Definition array_length (c : Z) : option (M H Z) :=
  if (0x90 <=? c)%Z && (c <=? 0x9F)%Z then Some (ret (Z.land c 0x0F))
  else if (c =? 0xDC)%Z then Some (get_number msgpack 2)
  else if (c =? 0xDD)%Z then Some (get_number msgpack 4)
  else None.
Definition map_length (c : Z) : option (M H Z) :=
  if (0x80 <=? c)%Z && (c <=? 0x8F)%Z then Some (ret (Z.land c 0x0F))
  else if (c =? 0xDE)%Z then Some (get_number msgpack 2)
  else if (c =? 0xDF)%Z then Some (get_number msgpack 4)
  else None.

Section containers.
  Context (fuel : nat) (parse : M H unit).

Definition get_msgpack_array (len : Z) : M H unit :=
  call_sized (sax_start_array_of len) ;;* for_len parse fuel len ;;* call sax_end_array.

Definition msgpack_member : M H unit :=
  get ;;* let* key := get_msgpack_string in call (sax_key key) ;;* parse.

Definition get_msgpack_object (len : Z) : M H unit :=
  call_sized (sax_start_object_of len) ;;* for_len msgpack_member fuel len ;;* call sax_end_object.

(** The switch on the first byte. *)
Definition msgpack_value (c : Z) : M H unit :=
  if (c =? -1)%Z then unexpect_eof msgpack (B "value")
  else if (0xA0 <=? c)%Z && (c <=? 0xBF)%Z || (0xD9 <=? c)%Z && (c <=? 0xDB)%Z then
    let* s := get_msgpack_string in call (sax_string s)
  else
    match msgpack_number c, msgpack_literal c, get_msgpack_binary c, array_length c, map_length c with
    | Some m, _, _, _, _ | _, Some m, _, _, _ => m
    | _, _, Some m, _, _ => let* b := m in call (sax_binary b)
    | _, _, _, Some length, _ => let* len := length in get_msgpack_array len
    | _, _, _, _, Some length => let* len := length in get_msgpack_object len
    | None, None, None, None, None => bad_byte tt msgpack 112 (B "invalid byte: 0x") (B "value")
    end.
End containers.

Fixpoint parse_msgpack_internal (fuel : nat) : M H unit :=
  match fuel with
  | 0 => stuck
  | S fuel => let* c := get in msgpack_value fuel (parse_msgpack_internal fuel) c
  end.
End reader.

Definition from_msgpack (strict allow_exceptions : bool) (input : bytes) : option parse_result :=
  from_binary allow_exceptions input (sax_parse msgpack strict (parse_msgpack_internal (input_fuel input))).

Definition demo_msgpack_value : value :=
  VObject [(B "a", VArray [VInteger (-300); VUnsigned 70000; VInteger (-5); VFloat (S754_finite false 6755399441055744 (-52))]);
           (B "b", VBinary (MkBinary (B "wxyz") (Some 200%Z))); (B "c", VArray [VNull; VBool true; VString []])].
Example demo_msgpack : from_msgpack true true (to_msgpack demo_msgpack_value) = Some (Parsed demo_msgpack_value).
Proof. vm_compute. reflexivity. Qed.
