(* ===== verification/MsgPackTheory.v ===== *)
(** * MessagePack: theorems

    [from_msgpack] reads what [to_msgpack] wrote; every input of either format is read to an
    end. *)
From S2P Require Import Prelude CLib Json JsonLexer JsonParser JsonText JsonReading JsonComplete JsonValue BinaryFloat FloatTheory Binary BinaryTheory Cbor CborTheory MsgPack.
From Stdlib Require Import SpecFloat.

(** ** Control bytes *)

(** Small numbers in the low bits of a control byte. *)
Lemma lor_small k m N :
  forallb (fun i => (Z.lor k (Z.of_nat i) =? k + Z.of_nat i)%Z) (seq 0 m) = true -> (0 <= N < Z.of_nat m)%Z -> Z.lor k N = (k + N)%Z.
Proof.
  rewrite forallb_Forall, Forall_forall. intros Hall HN. specialize (Hall (Z.to_nat N)). rewrite Z2Nat.id in Hall by lia.
  apply Z.eqb_eq, Hall, list_elem_of_In, in_seq. lia.
Qed.

Lemma land_small k bits N : (0 <= bits)%Z -> (k mod 2 ^ bits = 0)%Z -> (0 <= N < 2 ^ bits)%Z -> Z.land (k + N) (Z.ones bits) = N.
Proof. intros Hb Hk HN. rewrite Z.land_ones by lia. by rewrite Z.add_mod, Hk, Z.add_0_l, Z.mod_mod, Z.mod_small by lia. Qed.

(** A control byte, what follows it, and how the number is read. *)
Section consumes.
  Context {H : Type} `{SizedSAX H}.

Lemma get_msgpack_string_reads s :
  (Z.of_nat (length s) <= 0xFFFFFFFF)%Z ->
  exists c w, write_msgpack_string s = c :: w /\ consumes_from c (get_msgpack_string (H := H)) w s /\
    (0xA0 <= code c <= 0xBF \/ 0xD9 <= code c <= 0xDB)%Z.
Proof.
  intros Hs. unfold write_msgpack_string. set (N := Z.of_nat (length s)) in *.
  assert (forall c (m : M H Z) w, (0xA0 <= code c <= 0xBF \/ 0xD9 <= code c <= 0xDB)%Z -> consumes m w N ->
    (forall r st, current r = Some c -> get_msgpack_string r st = bindM m (get_string msgpack) r st) ->
    exists c' w', (c :: w) ++ s = c' :: w' /\ consumes_from c' (get_msgpack_string (H := H)) w' s /\ (0xA0 <= code c' <= 0xBF \/ 0xD9 <= code c' <= 0xDB)%Z) as Hgo.
  { intros c m w Hc Hm Heq. exists c, (w ++ s). split; [done|]. split; [|done]. intros r st rest Hcur Hr. rewrite (Heq r st Hcur).
    eapply consumes_bind; [exact Hm|apply get_string_consumes|exact Hr]. }
  assert (forall c r (st : H), current r = Some c -> get_msgpack_string r st =
    (if (0xA0 <=? code c)%Z && (code c <=? 0xBF)%Z then get_string msgpack (Z.land (code c) 0x1F)
     else if (code c =? 0xD9)%Z then let* len := get_number msgpack 1 in get_string msgpack len
     else if (code c =? 0xDA)%Z then let* len := get_number msgpack 2 in get_string msgpack len
     else if (code c =? 0xDB)%Z then let* len := get_number msgpack 4 in get_string msgpack len
     else bad_byte [] msgpack 113 (B "expected length specification (0xA0-0xBF, 0xD9-0xDB); last byte: 0x") (B "string")) r st) as Hun.
  { intros c r st Hc. unfold get_msgpack_string. assert (unexpect_eof msgpack (B "string") r st = Some (Val tt, r, st)) as He by (unfold unexpect_eof; by rewrite Hc).
    rewrite (bind_val _ _ _ _ _ _ _ He). assert (the_current r st = Some (Val (code c), r, st)) as Ht by (unfold the_current, current_int; by rewrite Hc).
    by rewrite (bind_val _ _ _ _ _ _ _ Ht). }
  repeat case_test; to_prop.
  - rewrite (lor_small 0xA0 32), write_number_1 by (done || lia). apply (Hgo _ (ret N)); [rewrite code_chr; lia|apply consumes_ret|].
    intros r st Hc. rewrite (Hun _ r st Hc), code_chr by lia. byte_tests. change 31%Z with (Z.ones 5). by rewrite land_small by (done || lia).
  - apply (Hgo _ (get_number msgpack 1)); [rewrite code_chr; lia|apply get_number_consumes; cbn; lia|]. intros r st Hc. by rewrite (Hun _ r st Hc).
  - apply (Hgo _ (get_number msgpack 2)); [rewrite code_chr; lia|apply get_number_consumes; cbn; lia|]. intros r st Hc. by rewrite (Hun _ r st Hc).
  - apply (Hgo _ (get_number msgpack 4)); [rewrite code_chr; lia|apply get_number_consumes; cbn; lia|]. intros r st Hc. by rewrite (Hun _ r st Hc).
  - lia.
Qed.

(** Byte arrays. *)
Lemma get_bin_consumes s : consumes (get_bin (H := H) (Z.of_nat (length s))) s (MkBinary s None).
Proof. unfold get_bin. apply (consumes_map _ (fun b => MkBinary b None)), get_binary_consumes. Qed.

Lemma get_ext_consumes s t :
  (0 <= t < 256)%Z -> consumes (get_ext (H := H) (Z.of_nat (length s))) (write_number 1 t ++ s) (MkBinary s (Some t)).
Proof.
  intros Ht. unfold get_ext. assert (write_number 1 t = write_number 1 (wraps 8 t)) as ->.
  { rewrite (write_number_mod 1 (wraps 8 t)), (write_number_mod 1 t). f_equal. change (256 ^ Z.of_nat 1)%Z with (2 ^ 8)%Z. unfold wraps.
    rewrite Zminus_mod_idemp_l. f_equal. lia. }
  eapply consumes_bind; [apply get_signed_consumes; [|lia]|].
  - unfold wraps. pose proof (Z.mod_pos_bound (t + 2 ^ (8 - 1)) (2 ^ 8) ltac:(lia)). cbn. lia.
  - replace (wrapu 8 (wraps 8 t)) with t; [apply (consumes_map _ (fun b => MkBinary b (Some t))), get_binary_consumes|].
    unfold wrapu, wraps. rewrite Zminus_mod_idemp_l. replace (t + 2 ^ (8 - 1) - 2 ^ (8 - 1))%Z with t by lia. by rewrite Z.mod_small by lia.
Qed.

(** A byte array behind its length. *)
Definition payload (b : byte_container) : bytes := match m_subtype b with Some t => write_number 1 t | None => [] end ++ bin_data b.
Definition get_payload (b : byte_container) (len : Z) : M H byte_container := match m_subtype b with Some _ => get_ext len | None => get_bin len end.
Definition subtype_ok (b : byte_container) : Prop := match m_subtype b with Some t => (0 <= t < 256)%Z | None => True end.

Lemma payload_consumes b : subtype_ok b -> consumes (get_payload b (Z.of_nat (length (bin_data b)))) (payload b) b.
Proof. destruct b as [s [t|]]; unfold subtype_ok, payload, get_payload; cbn; intros Ht; [by apply get_ext_consumes|apply get_bin_consumes]. Qed.

Definition binary_byte (k : Z) : Prop := (0xC4 <= k <= 0xC9 \/ 0xD4 <= k <= 0xD8)%Z.

(** The control byte [k] announces how the byte array is read. *)
Definition announced (k : Z) (w : bytes) (b : byte_container) : Prop :=
  exists m, get_msgpack_binary (H := H) k = Some m /\ consumes m w b /\ binary_byte k.

Lemma announced_length k n b :
  subtype_ok b -> binary_byte k -> (Z.of_nat (length (bin_data b)) < 256 ^ Z.of_nat n)%Z ->
  get_msgpack_binary k = Some (let* len := get_number msgpack n in get_payload b len) ->
  announced k (write_number n (Z.of_nat (length (bin_data b))) ++ payload b) b.
Proof.
  intros Hb Hk Hn Hg. eexists. split; [exact Hg|]. split; [|done]. eapply consumes_bind; [apply get_number_consumes; lia|by apply payload_consumes].
Qed.

Lemma announced_fixed k b :
  subtype_ok b -> binary_byte k -> get_msgpack_binary k = Some (get_payload b (Z.of_nat (length (bin_data b)))) -> announced k (payload b) b.
Proof. intros Hb Hk Hg. eexists. split; [exact Hg|]. split; [by apply payload_consumes|done]. Qed.

Lemma get_msgpack_binary_reads b :
  (Z.of_nat (length (bin_data b)) <= 0xFFFFFFFF)%Z -> subtype_ok b ->
  exists k w, write_msgpack_binary b = chr k :: w /\ announced k w b /\ (0 <= k < 256)%Z.
Proof.
  intros Hs Ht. set (N := Z.of_nat (length (bin_data b))) in *.
  assert (forall k w, binary_byte k -> announced k w b -> exists k' w', chr k :: w = chr k' :: w' /\ announced k' w' b /\ (0 <= k' < 256)%Z) as Hgo.
  { intros k w Hk Ha. exists k, w. split; [done|]. split; [done|]. unfold binary_byte in Hk. lia. }
  assert (forall k n, (N < 256 ^ Z.of_nat n)%Z -> binary_byte k -> get_msgpack_binary k = Some (let* len := get_number msgpack n in get_payload b len) ->
    exists k' w', (write_character k ++ write_number n N) ++ payload b = chr k' :: w' /\ announced k' w' b /\ (0 <= k' < 256)%Z) as Hlen.
  { intros k n Hn Hk Hg. rewrite <- app_assoc. by apply Hgo, announced_length. }
  unfold write_msgpack_binary. fold (payload b). unfold binary_byte, get_payload in Hlen. fold N. destruct (m_subtype b) as [t|] eqn:Hsub; repeat case_test; to_prop;
    try (apply Hlen; [cbn; lia|lia|reflexivity]); try lia.
  unfold short_binary_type. assert (forall k, binary_byte k -> get_msgpack_binary k = Some (get_ext N) ->
    exists k' w', (write_character k ++ []) ++ payload b = chr k' :: w' /\ announced k' w' b /\ (0 <= k' < 256)%Z) as Hfix.
  { intros k Hk Hg. rewrite app_nil_r. apply Hgo; [done|]. apply announced_fixed; [done..|]. unfold get_payload. by rewrite Hsub. }
  unfold binary_byte in Hfix.
  repeat (case_test; [to_prop; apply Hfix; [lia|match goal with HN : N = _ |- _ => by rewrite HN end]|]). apply Hlen; [cbn; lia|lia|reflexivity].
Qed.
End consumes.

(** ** Values *)

Abbreviation parse := (parse_msgpack_internal (H := dom_parser)).

(** A number behind a control byte that is known. *)
Lemma prefixed_reads fuel k n z w v (m : M dom_parser Z) (f : Z -> dom_parser -> option (bool * dom_parser)) :
  (forall parse, msgpack_value (H := dom_parser) fuel parse (code (chr k)) = let* number := m in call (f number)) ->
  consumes m (write_number n z) w -> f w = dom_value v -> reads (parse (S fuel)) (write_character k ++ write_number n z) v.
Proof. intros Hk Hm Hf. apply reads_get, reads_any. rewrite Hk. by eapply reads_then. Qed.

Lemma msgpack_unsigned_reads fuel z :
  (0 <= z < 2 ^ 64)%Z -> 0 < fuel -> reads (parse fuel) (write_msgpack_unsigned z) (VUnsigned z).
Proof.
  intros Hz Hf. destruct fuel as [|fuel]; [lia|]. unfold write_msgpack_unsigned.
  repeat case_test; to_prop; try lia; try (eapply prefixed_reads; [intros; reflexivity|apply get_number_consumes; cbn; lia|done]).
  rewrite write_number_1 by lia. apply reads_get, reads_any. rewrite code_chr by lia. unfold msgpack_value, msgpack_number. byte_tests.
  by apply reads_scalar.
Qed.

Lemma msgpack_integer_reads fuel z :
  (- 2 ^ 63 <= z < 2 ^ 63)%Z -> 0 < fuel -> reads (parse fuel) (write_msgpack_integer z) (if (0 <=? z)%Z then VUnsigned z else VInteger z).
Proof.
  intros Hz Hf. unfold write_msgpack_integer. destruct (0 <=? z)%Z eqn:Hpos; to_prop; [by apply msgpack_unsigned_reads; [lia|]|].
  destruct fuel as [|fuel]; [lia|].
  repeat case_test; to_prop; try lia; try (eapply prefixed_reads; [intros; reflexivity|apply get_signed_consumes; [cbn; lia|lia]|done]).
  rewrite <- (write_number_add 1 z 1). change (1 * 256 ^ Z.of_nat 1)%Z with 256%Z. rewrite write_number_1 by lia.
  apply reads_get, reads_any. rewrite code_chr by lia. unfold msgpack_value, msgpack_number. byte_tests.
  apply reads_scalar. cbn. do 2 f_equal. unfold wraps. replace (z + 256 + 2 ^ (8 - 1))%Z with (z + 128 + 1 * 2 ^ 8)%Z by lia.
  rewrite Z.mod_add, Z.mod_small by lia. lia.
Qed.

Lemma msgpack_float_reads fuel x : valid_binary 53 1024 x = true -> 0 < fuel -> reads (parse fuel) (write_compact_float 0xCA 0xCB x) (VFloat x).
Proof.
  intros Hx Hf. destruct fuel as [|fuel]; [lia|]. unfold write_compact_float. destruct (_ && _) eqn:Hc; apply reads_get, reads_any.
  - apply andb_true_iff in Hc as [_ Hc].
    change (reads (let* number := get_float msgpack in call (sax_number_float number [])) (write_number 4 (bits32 (to_float x))) (VFloat x)).
    by eapply reads_then; [apply get_float_consumes|].
  - change (reads (let* number := get_double msgpack in call (sax_number_float number [])) (write_number 8 (bits64 x)) (VFloat x)).
    by eapply reads_then; [apply get_double_consumes|].
Qed.

Lemma msgpack_string_reads fuel s :
  (Z.of_nat (length s) <= 0xFFFFFFFF)%Z -> 0 < fuel -> reads (parse fuel) (write_msgpack_string s) (VString s).
Proof.
  intros Hs Hf. destruct fuel as [|fuel]; [lia|]. destruct (get_msgpack_string_reads (H := dom_parser) s Hs) as (c & w & -> & Hc & Hr).
  apply reads_get. unfold msgpack_value. rewrite (proj2 (Z.eqb_neq _ _)) by lia.
  assert ((0xA0 <=? code c)%Z && (code c <=? 0xBF)%Z || (0xD9 <=? code c)%Z && (code c <=? 0xDB)%Z = true) as -> by (destruct Hr; by byte_tests).
  rewrite <- (app_nil_r w). eapply reads_bind_from; [exact Hc|by apply reads_scalar].
Qed.

Lemma msgpack_binary_reads fuel b :
  (Z.of_nat (length (bin_data b)) <= 0xFFFFFFFF)%Z -> subtype_ok b -> 0 < fuel -> reads (parse fuel) (write_msgpack_binary b) (VBinary b).
Proof.
  intros Hb Ht Hf. destruct fuel as [|fuel]; [lia|].
  destruct (get_msgpack_binary_reads (H := dom_parser) b Hb Ht) as (k & w & -> & (m & Hm & Hc & Hk) & Hr).
  apply reads_get, reads_any. rewrite code_chr by lia. unfold msgpack_value. unfold binary_byte in Hk.
  assert (msgpack_number (H := dom_parser) k = None) as -> by (unfold msgpack_number; destruct Hk; by byte_tests).
  assert (msgpack_literal (H := dom_parser) k = None) as -> by (unfold msgpack_literal; destruct Hk; by byte_tests).
  rewrite Hm. destruct Hk; byte_tests; (by eapply reads_then; [exact Hc|]).
Qed.

(** ** Arrays and objects *)

(** The length in front of elements. *)
Lemma array_head_spec N :
  (0 <= N <= 0xFFFFFFFF)%Z -> exists c w m, write_array_head N = c :: w /\ array_length (H := dom_parser) (code c) = Some m /\ consumes m w N /\
    (0x90 <= code c <= 0x9F \/ 0xDC <= code c <= 0xDD)%Z.
Proof.
  intros HN. unfold write_array_head. repeat case_test; to_prop; try lia.
  - rewrite (lor_small 0x90 16), write_number_1 by (done || lia). do 3 eexists. split; [done|]. rewrite code_chr by lia. unfold array_length. byte_tests.
    split; [done|]. split; [|lia]. change 15%Z with (Z.ones 4). rewrite land_small by (done || lia). apply consumes_ret.
  - do 3 eexists. split; [done|]. split; [reflexivity|]. split; [apply get_number_consumes; cbn; lia|]. rewrite code_chr; lia.
  - do 3 eexists. split; [done|]. split; [reflexivity|]. split; [apply get_number_consumes; cbn; lia|]. rewrite code_chr; lia.
Qed.

Lemma map_head_spec N :
  (0 <= N <= 0xFFFFFFFF)%Z -> exists c w m, write_map_head N = c :: w /\ map_length (H := dom_parser) (code c) = Some m /\ consumes m w N /\
    (0x80 <= code c <= 0x8F \/ 0xDE <= code c <= 0xDF)%Z.
Proof.
  intros HN. unfold write_map_head. repeat case_test; to_prop; try lia.
  - replace (Z.land N 15) with N by (symmetry; apply (land_small 0 4); (done || lia)).
    rewrite (lor_small 0x80 16), write_number_1 by (done || lia). do 3 eexists. split; [done|]. rewrite code_chr by lia. unfold map_length. byte_tests.
    split; [done|]. split; [|lia]. change 15%Z with (Z.ones 4). rewrite land_small by (done || lia). apply consumes_ret.
  - do 3 eexists. split; [done|]. split; [reflexivity|]. split; [apply get_number_consumes; cbn; lia|]. rewrite code_chr; lia.
  - do 3 eexists. split; [done|]. split; [reflexivity|]. split; [apply get_number_consumes; cbn; lia|]. rewrite code_chr; lia.
Qed.

(** No other group of the switch has these bytes. *)
Lemma msgpack_container c :
  (0x80 <= c <= 0x9F \/ 0xDC <= c <= 0xDF)%Z ->
  msgpack_number (H := dom_parser) c = None /\ msgpack_literal (H := dom_parser) c = None /\ get_msgpack_binary (H := dom_parser) c = None /\
  (c =? -1)%Z = false /\ (0xA0 <=? c)%Z && (c <=? 0xBF)%Z || (0xD9 <=? c)%Z && (c <=? 0xDB)%Z = false.
Proof. intros Hc. unfold msgpack_number, msgpack_literal, get_msgpack_binary. split_and!; destruct Hc; byte_tests; try done; lia. Qed.

Lemma write_msgpack_nonempty m v : encodable m v = true -> max_string m = 0xFFFFFFFF%Z -> max_array m = 0xFFFFFFFF%Z -> max_object m = 0xFFFFFFFF%Z -> 0 < length (write_msgpack v).
Proof.
  intros Hv Hs Ha Ho. destruct v as [|b|z|z|x|s|b|l|l]; cbn [write_msgpack encodable] in *; rewrite ?length_app; try (cbn; lia); to_prop.
  - unfold write_msgpack_integer, write_msgpack_unsigned. repeat case_test; to_prop; cbn; lia.
  - unfold write_msgpack_unsigned. repeat case_test; to_prop; cbn; lia.
  - unfold write_compact_float. case_test; cbn; lia.
  - unfold write_msgpack_string. repeat case_test; to_prop; cbn; lia.
  - unfold write_msgpack_binary. repeat case_test; to_prop; try destruct (short_binary_type _ _); cbn; lia.
  - unfold write_array_head. repeat case_test; to_prop; cbn; lia.
  - unfold write_map_head. repeat case_test; to_prop; cbn; lia.
Qed.

Definition msgpack_limits : limits := MkLimits 0xFFFFFFFF 0xFFFFFFFF 0xFFFFFFFF 0xFF.

Definition msgpack_roundtrip (v : value) : Prop := forall fuel,
  encodable msgpack_limits v = true -> length (write_msgpack v) < fuel -> reads (parse fuel) (write_msgpack v) (reread true v).

(** Every element takes at least a byte. *)
Lemma encodable_length {A} (w : A -> bytes) l : (forall x, x ∈ l -> 0 < length (w x)) -> length l <= length (flat_map w l).
Proof.
  induction l as [|x l IH]; intros Hw; cbn; [lia|]. rewrite length_app. pose proof (Hw x (list_elem_of_here _ _)).
  assert (length l <= length (flat_map w l)); [|lia]. apply IH. intros y Hy. apply Hw. by apply list_elem_of_further.
Qed.

Lemma msgpack_array_reads l : Forall msgpack_roundtrip l -> msgpack_roundtrip (VArray l).
Proof.
  intros IH fuel He Hf. destruct fuel as [|fuel]; [lia|].
  assert (0xFFFFFFFF < array_max_size /\ array_max_size < no_size)%Z as [Hmax Hno] by done.
  cbn [encodable reread write_msgpack msgpack_limits max_array] in *. to_prop. rewrite Forall_forall in IH.
  match goal with He : forallb _ _ = true |- _ => rewrite forallb_Forall, Forall_forall in He; rename He into Hl end.
  destruct (array_head_spec (Z.of_nat (length l)) ltac:(lia)) as (c & w & m & Hw & Hm & Hc & Hr). rewrite Hw in *.
  rewrite length_app in Hf. cbn [length] in Hf. cbn [app]. apply reads_get, reads_any.
  destruct (msgpack_container (code c)) as (G1 & G2 & G3 & G4 & G5); [lia|]. unfold msgpack_value. rewrite G1, G2, G3, G4, G5, Hm.
  eapply reads_bind; [exact Hc|]. unfold get_msgpack_array.
  apply (start_end_reads true (VArray []) (VArray (map (reread true) l))); [done|lia|].
  intros r d st q rs rest Hi Hd Hin. apply (for_elements _ write_msgpack (reread true) l fuel) with (pre := []) (rs := rs) (st := st); try done.
  - apply Forall_forall. intros v Hv. pose proof (flat_map_length_le write_msgpack v l Hv). apply IH; [done|by apply Hl|lia].
  - pose proof (encodable_length write_msgpack l) as Hle. lapply Hle; [lia|]. intros v Hv. by eapply write_msgpack_nonempty; [by apply Hl|..].
Qed.

Lemma msgpack_member_reads fuel k w x :
  (Z.of_nat (length k) <= 0xFFFFFFFF)%Z -> reads (parse fuel) w x -> reads_member (msgpack_member (parse fuel)) (write_msgpack_string k ++ w) k x.
Proof.
  intros Hk Hr. destruct (get_msgpack_string_reads (H := dom_parser) k Hk) as (c & wk & -> & Hc & _).
  pose proof (reads_member_intro (get ;;* get_msgpack_string) (parse fuel) (c :: wk) w k x (consumes_get _ _ _ _ Hc) Hr) as Hm.
  intros r d st q rs pre rest Hi Hd Hin Hpre. destruct (Hm r d st q rs pre rest Hi Hd Hin Hpre) as (r' & d' & Heq & Hrest).
  exists r', d'. split; [|done]. rewrite <- Heq. unfold msgpack_member, bindM. destruct (get r d) as [[[[a|] r1] s1]|]; done.
Qed.

Lemma msgpack_object_reads l : Forall (fun kv => msgpack_roundtrip (snd kv)) l -> msgpack_roundtrip (VObject l).
Proof.
  intros IH fuel He Hf. destruct fuel as [|fuel]; [lia|].
  assert (0xFFFFFFFF < object_max_size /\ object_max_size < no_size)%Z as [Hmax Hno] by done.
  cbn [encodable reread write_msgpack msgpack_limits max_object] in *. to_prop. rewrite Forall_forall in IH.
  match goal with He : forallb _ _ = true |- _ => rewrite forallb_Forall, Forall_forall in He; rename He into Hl end.
  destruct (map_head_spec (Z.of_nat (length l)) ltac:(lia)) as (c & w & m & Hw & Hm & Hc & Hr). rewrite Hw in *.
  rewrite length_app in Hf. cbn [length] in Hf. cbn [app]. apply reads_get, reads_any.
  destruct (msgpack_container (code c)) as (G1 & G2 & G3 & G4 & G5); [lia|].
  assert (array_length (H := dom_parser) (code c) = None) as G6 by (unfold array_length; destruct Hr; byte_tests; done || lia).
  unfold msgpack_value. rewrite G1, G2, G3, G4, G5, G6, Hm.
  eapply reads_bind; [exact Hc|]. unfold get_msgpack_object. set (wm := fun kv : bytes * value => write_msgpack_string (fst kv) ++ write_msgpack (snd kv)) in *.
  apply (start_end_reads false (VObject []) (VObject (map (fun kv => (fst kv, reread true (snd kv))) l))); [done|lia|].
  assert (forall kv, kv ∈ l -> (Z.of_nat (length (fst kv)) <= 0xFFFFFFFF)%Z /\ encodable msgpack_limits (snd kv) = true) as Hkv.
  { intros kv Hin. specialize (Hl kv Hin). cbn beta in Hl. apply andb_true_iff in Hl as [Hk Hv]. apply Z.leb_le in Hk. split; [exact Hk|done]. }
  assert (forall kv, length (write_msgpack (snd kv)) <= length (wm kv)) as Hwm by (intros kv; unfold wm; rewrite length_app; lia).
  intros r d st q rs rest Hi Hd Hin. apply (for_members _ wm (reread true) l fuel) with (pre := []) (rs := rs) (st := st); try done.
  - apply Forall_forall. intros kv Hv. pose proof (flat_map_length_le wm kv l Hv). specialize (Hwm kv). destruct (Hkv kv Hv).
    apply msgpack_member_reads; [done|]. apply IH; [done..|lia].
  - pose proof (encodable_length wm l) as Hle. lapply Hle; [lia|]. intros kv Hv. specialize (Hwm kv). destruct (Hkv kv Hv) as [_ Hv2].
    pose proof (write_msgpack_nonempty msgpack_limits (snd kv) Hv2 eq_refl eq_refl eq_refl). lia.
Qed.

Lemma msgpack_reads v : msgpack_roundtrip v.
Proof.
  induction v as [v Hp|l IH|l IH] using value_induction; [|by apply msgpack_array_reads|by apply msgpack_object_reads].
  intros fuel He Hf. destruct v as [|b|z|z|x|s|b|l|l]; try done; cbn [encodable reread write_msgpack] in *; to_prop.
  - destruct fuel as [|fuel]; [cbn in Hf; lia|]. by apply reads_get, reads_any, (reads_scalar _ VNull).
  - destruct fuel as [|fuel]; [cbn in Hf; lia|]. destruct b; apply reads_get, reads_any; [by apply (reads_scalar _ (VBool true))|by apply (reads_scalar _ (VBool false))].
  - apply msgpack_integer_reads; lia.
  - apply msgpack_unsigned_reads; lia.
  - apply msgpack_float_reads; [done|lia].
  - cbn [max_string msgpack_limits] in *. apply msgpack_string_reads; lia.
  - cbn [max_string max_subtype msgpack_limits] in *. replace (MkBinary (bin_data b) (m_subtype b)) with b by (by destruct b).
    apply msgpack_binary_reads; [lia| |lia]. unfold subtype_ok. destruct (m_subtype b); [|done]. to_prop. lia.
Qed.

(** ** Every input is read to an end *)

Lemma get_msgpack_string_stops : stops (get_msgpack_string (H := dom_parser)).
Proof. apply unexpect_eof_stops. Qed.

Lemma get_msgpack_string_total n st e : total get_msgpack_string n st e st e 0.
Proof.
  intros [c|]; [|apply stops_total, get_msgpack_string_stops]. apply unexpect_eof_total, the_current_total.
  repeat case_test; try apply bad_byte_total; try apply get_string_total;
    (eapply total_bind0; [apply get_number_total|intros len; apply get_string_total]).
Qed.

Lemma get_signed_total format i n st e : total (get_signed format i) n st e st e 0.
Proof. intros c. eapply total_bind0; [apply get_number_total|]. intros z y. apply total_ret. Qed.
Lemma get_bin_total len n st e : total (get_bin len) n st e st e 0.
Proof. intros c. eapply total_bind0; [apply get_binary_total|]. intros z y. apply total_ret. Qed.
Lemma get_ext_total len n st e : total (get_ext len) n st e st e 0.
Proof. intros c. eapply total_bind0; [apply get_signed_total|]. intros t y. eapply total_bind0; [apply get_binary_total|]. intros z x. apply total_ret. Qed.

Lemma get_msgpack_binary_total c m n st e : get_msgpack_binary c = Some m -> total m n st e st e 0.
Proof.
  unfold get_msgpack_binary. repeat case_test; try done; intros [= <-]; try apply get_ext_total;
    intros z; (eapply total_bind0; [apply get_number_total|intros len; first [apply get_bin_total|apply get_ext_total]]).
Qed.

Lemma then_call_total {A} (m : M dom_parser A) f n st : total m n st true st true 0 -> (forall a, exists v, f a = dom_value v) -> total (let* x := m in call (f x)) n st true st false 0.
Proof. intros Hm Hv c. eapply total_bind0; [apply Hm|]. intros a z. destruct (Hv a) as [v Ha]. by apply (call_value_total _ v). Qed.

Lemma msgpack_number_total c m n st : msgpack_number c = Some m -> total m n st true st false 0.
Proof.
  unfold msgpack_number. repeat case_test; try done; intros [= <-]; try (intros z; by eapply call_value_total);
    try (apply then_call_total; [first [apply get_number_total|apply get_signed_total]|intros a; by eexists]);
    (apply (then_call_total _ (fun x => dom_value (VFloat x))); [|intros a; by eexists]; intros z; eapply total_bind0; [apply get_number_total|];
     intros a y; apply total_ret).
Qed.

Lemma parse_msgpack_total fuel n st : n + 2 <= fuel -> total (parse fuel) n st true st false 1.
Proof.
  revert n st. induction fuel as [|fuel IH]; intros n st Hf; [lia|]. cbn [parse_msgpack_internal]. apply total_get.
  2: { intros r d Hc. unfold msgpack_value. change (-1 =? -1)%Z with true. cbv iota. unfold unexpect_eof. rewrite Hc.
       destruct (report_fails (B "<end of file>") 110 (exception_message msgpack (B "unexpected end of input") (B "value")) r d) as (z & d' & -> & Hz).
       by exists z, r, d'. }
  intros Hn c. unfold msgpack_value. rewrite (proj2 (Z.eqb_neq _ _)) by (pose proof (code_range c); lia).
  case_test; [eapply total_bind0; [apply get_msgpack_string_total|intros s z; by eapply call_value_total]|].
  destruct (msgpack_number (code c)) as [m|] eqn:H1; [by eapply msgpack_number_total|].
  destruct (msgpack_literal (code c)) as [m|] eqn:H2.
  { unfold msgpack_literal in H2. revert H2. repeat case_test; try done; intros [= <-]; by eapply call_value_total. }
  destruct (get_msgpack_binary (code c)) as [m|] eqn:H3; [apply then_call_total; [by eapply get_msgpack_binary_total|intros a; by eexists]|].
  destruct (array_length (code c)) as [m|] eqn:H4.
  { eapply total_bind0; [|intros len z; eapply total_bind0; [by apply call_start_total|intros _ y; eapply total_bind0; [|intros _ x; apply call_end_total]]].
    - unfold array_length in H4. revert H4. repeat case_test; try done; intros [= <-]; [apply total_ret|apply get_number_total..].
    - apply (for_len_total _ _ _ _ (true :: st) true false); [lia|intros n' Hn'; apply IH; lia|apply dom_array_next]. }
  destruct (map_length (code c)) as [m|] eqn:H5; [|apply bad_byte_total].
  eapply total_bind0; [|intros len z; eapply total_bind0; [by apply (call_start_total _ _ _ _ false)|intros _ y; eapply total_bind0; [|intros _ x; apply call_end_total]]].
  - unfold map_length in H5. revert H5. repeat case_test; try done; intros [= <-]; [apply total_ret|apply get_number_total..].
  - apply (for_len_total _ _ _ _ (false :: st) false false); [lia| |done]. intros n' Hn'. apply total_get.
    + intros Hn2 a. eapply total_bind0; [apply get_msgpack_string_total|]. intros k ?. eapply total_bind0; [apply call_key_total|].
      intros _ ?. eapply total_weaken; [apply IH|done|]; lia.
    + intros r d Hc. destruct (get_msgpack_string_stops r d Hc) as (u & r' & d' & Heq & Hu). exists u, r', d'. split; [|done]. unfold bindM. by rewrite Heq.
Qed.

Lemma from_msgpack_total strict allow_exceptions input : is_Some (from_msgpack strict allow_exceptions input).
Proof. eapply from_binary_total. apply parse_msgpack_total. unfold input_fuel. lia. Qed.

(** ** The properties *)

(** C18: what [to_msgpack] writes, [from_msgpack] reads: every value of the C++ types whose
    lengths fit into 32 bits and whose subtypes fit into 8 comes back, but for integers from 0
    on, which come back unsigned.  Bytes behind the value are left alone, or an error in strict
    mode. *)
Theorem msgpack_correct (strict allow_exceptions : bool) v rest :
  encodable msgpack_limits v = true ->
  exists r, from_msgpack strict allow_exceptions (to_msgpack v ++ rest) = Some r /\ read_result strict allow_exceptions (reread true v) rest r.
Proof.
  intros Hv. apply from_binary_reads, msgpack_reads; [done|]. unfold to_msgpack, input_fuel. rewrite length_app. lia.
Qed.

Lemma msgpack_correct_witness :
  let v := VArray [demo_msgpack_value; VFloat (S754_infinity true); VInteger 7; VFloat S754_nan] in
  encodable msgpack_limits v = true /\
  exists r, from_msgpack true true (to_msgpack v ++ []) = Some r /\ read_result true true (reread true v) [] r.
Proof.
  intros v. assert (encodable msgpack_limits v = true) as Hv by (vm_compute; reflexivity).
  split; [exact Hv|]. exact (msgpack_correct true true v [] Hv).
Defined.

(** A subtype beyond 8 bits loses its upper bits. *)
Lemma wide_subtype_truncated :
  from_msgpack true true (to_msgpack (VBinary (MkBinary (B "x") (Some 256%Z)))) = Some (Parsed (VBinary (MkBinary (B "x") (Some 0%Z)))).
Proof. vm_compute. reflexivity. Qed.
