(* ===== verification/Bson.v ===== *)
(** * BSON: [to_bson] and [from_bson] of [include/json.hpp]

    [write_bson] with the functions that compute the sizes in front of documents, and
    [parse_bson_internal] with those for elements.  An array is a document whose keys are its
    indices.  Sizes are numbers without a bound: what they measure fits into memory. *)
From S2P Require Import Prelude CLib Json JsonLexer JsonParser JsonValue BinaryFloat Binary.
From Stdlib Require Import SpecFloat.

Abbreviation bson := input_format_t.bson.

(** ** The sizes *)

Definition calc_bson_entry_header_size (name : bytes) : result Z :=
  match find_if (fun c => c =c NUL) name with
  | Some it => Fail (out_of_range 409 (B "BSON key cannot contain code point U+0000 (at byte " ++ dec (Z.of_nat it) ++ B ")"))
  | None => Done (1 + Z.of_nat (length name) + 1)%Z
  end.

Definition is_int32 (z : Z) : bool := (- 2 ^ 31 <=? z)%Z && (z <=? 2 ^ 31 - 1)%Z.

Definition calc_bson_string_size (s : bytes) : Z := 4 + Z.of_nat (length s) + 1.
Definition calc_bson_integer_size (z : Z) : Z := if is_int32 z then 4 else 8.
Definition calc_bson_unsigned_size (z : Z) : Z := if (z <=? 2 ^ 31 - 1)%Z then 4 else 8.
Definition calc_bson_binary_size (b : byte_container) : Z := 4 + Z.of_nat (length (bin_data b)) + 1.

(** The sums over the elements of an array, whose names are their indices, and of an object. *)
Section sizes.
  Context (calc_bson_element_size : value -> bytes -> result Z).

Fixpoint array_sizes (array_index result : Z) (l : list value) : JsonValue.result Z :=
  match l with
  | [] => Done result
  | el :: l => let! n := calc_bson_element_size el (dec array_index) in array_sizes (array_index + 1) (result + n) l
  end.
Fixpoint object_sizes (result : Z) (l : list (bytes * value)) : JsonValue.result Z :=
  match l with
  | [] => Done result
  | el :: l => let! n := calc_bson_element_size (snd el) (fst el) in object_sizes (result + n) l
  end.

Definition calc_bson_array_size (l : list value) : result Z := let! n := array_sizes 0 0 l in Done (4 + n + 1)%Z.
Definition calc_bson_object_size (l : list (bytes * value)) : result Z := let! n := object_sizes 0 l in Done (4 + n + 1)%Z.
End sizes.

Fixpoint calc_bson_element_size (j : value) (name : bytes) : result Z :=
  let! header_size := calc_bson_entry_header_size name in
  match j with
  | VObject l => let! n := calc_bson_object_size calc_bson_element_size l in Done (header_size + n)%Z
  | VArray l => let! n := calc_bson_array_size calc_bson_element_size l in Done (header_size + n)%Z
  | VBinary b => Done (header_size + calc_bson_binary_size b)%Z
  | VBool _ => Done (header_size + 1)%Z
  | VFloat _ => Done (header_size + 8)%Z
  | VInteger z => Done (header_size + calc_bson_integer_size z)%Z
  | VUnsigned z => Done (header_size + calc_bson_unsigned_size z)%Z
  | VString s => Done (header_size + calc_bson_string_size s)%Z
  | VNull => Done (header_size + 0)%Z
  end.

(** ** The writer *)

Definition write_bson_entry_header (name : bytes) (element_type : Z) : bytes := write_character element_type ++ name ++ [NUL].

Definition write_bson_boolean (name : bytes) (b : bool) : bytes :=
  write_bson_entry_header name 0x08 ++ write_character (if b then 0x01 else 0x00).
Definition write_bson_double (name : bytes) (x : spec_float) : bytes :=
  write_bson_entry_header name 0x01 ++ write_number_le 8 (bits64 x).
Definition write_bson_string (name s : bytes) : bytes :=
  write_bson_entry_header name 0x02 ++ write_number_le 4 (Z.of_nat (length s) + 1) ++ s ++ [NUL].
Definition write_bson_null (name : bytes) : bytes := write_bson_entry_header name 0x0A.
Definition write_bson_integer (name : bytes) (z : Z) : bytes :=
  if is_int32 z then write_bson_entry_header name 0x10 ++ write_number_le 4 z
  else write_bson_entry_header name 0x12 ++ write_number_le 8 z.
Definition write_bson_unsigned (name : bytes) (z : Z) : result bytes :=
  if (z <=? 2 ^ 31 - 1)%Z then Done (write_bson_entry_header name 0x10 ++ write_number_le 4 z)
  else if (z <=? 2 ^ 63 - 1)%Z then Done (write_bson_entry_header name 0x12 ++ write_number_le 8 z)
  else Fail (out_of_range 407 (B "integer number " ++ dec z ++ B " cannot be represented by BSON as it does not fit int64")).
Definition write_bson_binary (name : bytes) (b : byte_container) : bytes :=
  write_bson_entry_header name 0x05 ++ write_number_le 4 (Z.of_nat (length (bin_data b))) ++
  write_number 1 (match m_subtype b with Some t => t | None => 0x00%Z end) ++ bin_data b.

Section documents.
  Context (write_bson_element : value -> bytes -> result bytes).

Fixpoint write_elements (array_index : Z) (l : list value) : result bytes :=
  match l with
  | [] => Done []
  | el :: l =>
      let! w := write_bson_element el (dec array_index) in
      let! ws := write_elements (array_index + 1) l in Done (w ++ ws)
  end.
Fixpoint write_members (l : list (bytes * value)) : result bytes :=
  match l with
  | [] => Done []
  | el :: l => let! w := write_bson_element (snd el) (fst el) in let! ws := write_members l in Done (w ++ ws)
  end.

Definition write_bson_array (name : bytes) (l : list value) : result bytes :=
  let! size := calc_bson_array_size calc_bson_element_size l in
  let! w := write_elements 0 l in
  Done (write_bson_entry_header name 0x04 ++ write_number_le 4 size ++ w ++ write_character 0x00).
Definition write_bson_object (l : list (bytes * value)) : result bytes :=
  let! size := calc_bson_object_size calc_bson_element_size l in
  let! w := write_members l in
  Done (write_number_le 4 size ++ w ++ write_character 0x00).
Definition write_bson_object_entry (name : bytes) (l : list (bytes * value)) : result bytes :=
  let! w := write_bson_object l in Done (write_bson_entry_header name 0x03 ++ w).
End documents.

Fixpoint write_bson_element (j : value) (name : bytes) : result bytes :=
  match j with
  | VObject l => write_bson_object_entry write_bson_element name l
  | VArray l => write_bson_array write_bson_element name l
  | VBinary b => Done (write_bson_binary name b)
  | VBool b => Done (write_bson_boolean name b)
  | VFloat x => Done (write_bson_double name x)
  | VInteger z => Done (write_bson_integer name z)
  | VUnsigned z => write_bson_unsigned name z
  | VString s => Done (write_bson_string name s)
  | VNull => Done (write_bson_null name)
  end.

Definition write_bson (j : value) : result bytes :=
  match j with
  | VObject l => write_bson_object write_bson_element l
  | _ => Fail (type_error 317 (B "to serialize to BSON, top-level type must be object, but is " ++ type_name j))
  end.

Definition to_bson (j : value) : result bytes := write_bson j.

(** ** The reader *)

Section reader.
  Context {H : Type} `{SizedSAX H}.

Definition the_position : M H Z := fun r s => Some (Val (chars_read r), r, s).

(** [return false]. *)
Definition fails {A} : M H A := fun r s => Some (Return (Ret false), r, s).

(** A round reads a character or fails. *)
Fixpoint cstr_loop (fuel : nat) : M H bytes :=
  match fuel with
  | 0 => stuck
  | S fuel =>
      get ;;* unexpect_eof bson (B "cstring") ;;*
      let* c := the_char in
      if c =c NUL then ret [] else let* l := cstr_loop fuel in ret (c :: l)
  end.
Definition get_bson_cstr : M H bytes := fun r s => cstr_loop (S (length (ia r))) r s.

(** A length that is too small. *)
Definition bad_length {A} (default : A) (detail context : bytes) : M H A :=
  let* token := the_token in report token 112 (exception_message bson detail context) ;;* ret default.

Definition get_bson_string (len : Z) : M H bytes :=
  if (len <? 1)%Z then bad_length [] (B "string length must be at least 1, is " ++ dec len) (B "string")
  else
    let* s := get_string bson (len - 1) in
    let* c := get in
    if (c =? -1)%Z then fails else ret s.

Definition get_bson_binary (len : Z) : M H byte_container :=
  if (len <? 0)%Z then bad_length (MkBinary [] None) (B "byte array length cannot be negative, is " ++ dec len) (B "binary")
  else
    let* subtype := ignored 0%Z (get_number bson 1) in
    let* b := get_binary bson len in ret (MkBinary b (Some subtype)).

Section elements.
  Context (parse_object parse_array : M H unit).

Definition parse_bson_element_internal (element_type element_type_parse_position : Z) : M H unit :=
  if (element_type =? 0x01)%Z then
    let* number := get_number_le bson 8 in call (sax_number_float (of_bits64 number) [])
  else if (element_type =? 0x02)%Z then
    let* len := get_signed_le bson 4 in let* s := get_bson_string len in call (sax_string s)
  else if (element_type =? 0x03)%Z then parse_object
  else if (element_type =? 0x04)%Z then parse_array
  else if (element_type =? 0x05)%Z then
    let* len := get_signed_le bson 4 in let* b := get_bson_binary len in call (sax_binary b)
  else if (element_type =? 0x08)%Z then let* c := get in call (sax_boolean (negb (c =? 0)%Z))
  else if (element_type =? 0x0A)%Z then call sax_null
  else if (element_type =? 0x10)%Z then let* z := get_signed_le bson 4 in call (sax_number_integer z)
  else if (element_type =? 0x12)%Z then let* z := get_signed_le bson 8 in call (sax_number_integer z)
  else
    let cr_str := hex_byte (element_type mod 256) in
    report_at element_type_parse_position cr_str 114 (B "Unsupported BSON record type 0x" ++ cr_str).

Fixpoint parse_bson_element_list (fuel : nat) (is_array : bool) : M H unit :=
  match fuel with
  | 0 => stuck
  | S fuel =>
      let* element_type := get in
      if (element_type =? 0)%Z then ret tt
      else
        unexpect_eof bson (B "element list") ;;*
        let* element_type_parse_position := the_position in
        let* key := get_bson_cstr in
        (if is_array then ret tt else call (sax_key key)) ;;*
        parse_bson_element_internal element_type element_type_parse_position ;;*
        parse_bson_element_list fuel is_array
  end.
End elements.

(** Around the elements; a size that cannot be read is not looked at either. *)
Definition parse_bson_internal (element_list : M H unit) : M H unit :=
  ignored 0%Z (get_number_le bson 4) ;;* call_sized (sax_start_object_of no_size) ;;* element_list ;;* call sax_end_object.
Definition parse_bson_array (element_list : M H unit) : M H unit :=
  ignored 0%Z (get_number_le bson 4) ;;* call_sized (sax_start_array_of no_size) ;;* element_list ;;* call sax_end_array.

Fixpoint parse_bson (fuel : nat) (is_array : bool) : M H unit :=
  match fuel with
  | 0 => stuck
  | S fuel => fun r s =>
      (if is_array then parse_bson_array else parse_bson_internal)
        (parse_bson_element_list (parse_bson fuel false) (parse_bson fuel true) fuel is_array) r s
  end.
End reader.

Definition from_bson (strict allow_exceptions : bool) (input : bytes) : option parse_result :=
  from_binary allow_exceptions input (sax_parse bson strict (parse_bson (input_fuel input) false)).

Definition demo_bson_value : value :=
  VObject [(B "a", VArray [VInteger (-300); VInteger 70000000000; VBool false; VFloat (S754_finite false 6755399441055744 (-52))]);
           (B "b", VBinary (MkBinary (B "wxyz") (Some 200%Z))); (B "c", VArray [VNull; VBool true; VString []; VObject []])].
Example demo_bson : (let! w := to_bson demo_bson_value in Done (from_bson true true w)) = Done (Some (Parsed demo_bson_value)).
Proof. vm_compute. reflexivity. Qed.
