(* ===== verification/BsonTheory.v ===== *)
(** * BSON: theorems

    Which values [to_bson] writes, that the size in front of a document is its length, that
    [from_bson] reads what was written, and that every input is read to an end. *)
From S2P Require Import Prelude CLib Json JsonLexer JsonParser JsonText JsonReading JsonComplete JsonValue BinaryFloat FloatTheory Binary BinaryTheory Bson.
From Stdlib Require Import SpecFloat.

(** ** What is written *)

Definition no_nul (name : bytes) : bool := forallb (fun c => negb (c =c NUL)) name.

(** No key holds a NUL, and no integer is beyond 64 signed bits. *)
Fixpoint bson_keys (v : value) : bool :=
  match v with
  | VArray l => forallb bson_keys l
  | VObject l => forallb (fun kv => no_nul (fst kv) && bson_keys (snd kv)) l
  | _ => true
  end.
Fixpoint bson_integers (v : value) : bool :=
  match v with
  | VUnsigned z => (z <=? 2 ^ 63 - 1)%Z
  | VArray l => forallb bson_integers l
  | VObject l => forallb (fun kv => bson_integers (snd kv)) l
  | _ => true
  end.

Definition fails_with {A} (id : Z) (o : result A) : Prop := exists e, o = Fail e /\ exn_id e = id.

Lemma header_size name :
  if no_nul name then calc_bson_entry_header_size name = Done (Z.of_nat (length name) + 2)%Z else fails_with 409 (calc_bson_entry_header_size name).
Proof.
  unfold calc_bson_entry_header_size, no_nul. destruct (forallb _ name) eqn:Hn.
  - rewrite (proj2 (find_if_none _ _)); [f_equal; lia|]. rewrite forallb_Forall in Hn. eapply Forall_impl; [exact Hn|]. intros c Hc. by apply negb_true_iff in Hc.
  - destruct (find_if _ name) as [it|] eqn:Hf; [by eexists|]. apply find_if_none in Hf. exfalso.
    assert (forallb (fun c => negb (c =c NUL)) name = true); [|congruence]. apply forallb_Forall. eapply Forall_impl; [exact Hf|]. cbn. by intros c ->.
Qed.

Lemma dec_no_nul i : (0 <= i)%Z -> no_nul (dec i) = true.
Proof.
  intros Hi. unfold dec, no_nul. rewrite (proj2 (Z.ltb_ge _ _)) by lia. apply forallb_Forall. eapply Forall_impl; [by apply dec_nat_digits|].
  intros c Hc. apply negb_true_iff. destruct (c =c NUL) eqn:He; [|done]. apply Ascii.eqb_eq in He. by subst c.
Qed.

(** The sizes exist when the keys do not hold a NUL; otherwise computing them throws. *)
Definition sized (j : value) : Prop := forall name,
  if no_nul name && bson_keys j then exists n, calc_bson_element_size j name = Done n else fails_with 409 (calc_bson_element_size j name).

Lemma array_sized l : Forall sized l -> forall i acc, (0 <= i)%Z ->
  if forallb bson_keys l then exists n, array_sizes calc_bson_element_size i acc l = Done n else fails_with 409 (array_sizes calc_bson_element_size i acc l).
Proof.
  induction 1 as [|j l Hj _ IH]; intros i acc Hi; [by eexists|]. cbn [forallb array_sizes]. specialize (Hj (dec i)). rewrite dec_no_nul in Hj by done.
  cbn [andb] in Hj. destruct (bson_keys j); cbn [andb].
  - destruct Hj as [n ->]. apply IH. lia.
  - destruct Hj as (e & -> & He). by exists e.
Qed.

Lemma object_sized l : Forall (fun kv : bytes * value => sized kv.2) l -> forall acc,
  if forallb (fun kv => no_nul (fst kv) && bson_keys (snd kv)) l then exists n, object_sizes calc_bson_element_size acc l = Done n
  else fails_with 409 (object_sizes calc_bson_element_size acc l).
Proof.
  induction 1 as [|[k j] l Hj _ IH]; intros acc; [by eexists|]. cbn [forallb object_sizes fst snd] in *. specialize (Hj k).
  destruct (no_nul k && bson_keys j); cbn [andb].
  - destruct Hj as [n ->]. apply IH.
  - destruct Hj as (e & -> & He). by exists e.
Qed.

Lemma header_fails j name e : calc_bson_entry_header_size name = Fail e -> calc_bson_element_size j name = Fail e.
Proof. intros He. by destruct j; cbn [calc_bson_element_size]; rewrite He. Qed.

Lemma element_sized j : sized j.
Proof.
  induction j as [j Hp|l IH|l IH] using value_induction; intros name; pose proof (header_size name) as Hh;
    (destruct (no_nul name); cbn [andb];
     [|destruct Hh as (e & He & Hid); exists e; split; [by apply header_fails|done]]).
  - destruct j; try done; cbn [bson_keys calc_bson_element_size]; rewrite Hh; by eexists.
  - cbn [bson_keys calc_bson_element_size]. rewrite Hh. unfold calc_bson_array_size. pose proof (array_sized l IH 0 0 ltac:(done)) as Hl.
    destruct (forallb _ l); [destruct Hl as [n ->]; by eexists|destruct Hl as (e & -> & He); by exists e].
  - cbn [bson_keys calc_bson_element_size]. rewrite Hh. unfold calc_bson_object_size. pose proof (object_sized l IH 0) as Hl.
    destruct (forallb _ l); [destruct Hl as [n ->]; by eexists|destruct Hl as (e & -> & He); by exists e].
Qed.

(** What an element is written as: all but its integers can be written, and the computed size is the length. *)
Definition written (j : value) : Prop := forall name, bson_keys j = true ->
  match write_bson_element j name with
  | Done w => bson_integers j = true /\ (no_nul name = true -> calc_bson_element_size j name = Done (Z.of_nat (length w)))
  | Fail e => bson_integers j = false /\ exn_id e = 407%Z
  | Stuck => False
  end.

Lemma array_written l : Forall written l -> forallb bson_keys l = true -> forall i acc, (0 <= i)%Z ->
  match write_elements write_bson_element i l with
  | Done w => forallb bson_integers l = true /\ array_sizes calc_bson_element_size i acc l = Done (acc + Z.of_nat (length w))%Z
  | Fail e => forallb bson_integers l = false /\ exn_id e = 407%Z
  | Stuck => False
  end.
Proof.
  induction 1 as [|j l Hj _ IH]; intros Hk i acc Hi; cbn [write_elements array_sizes forallb] in *; [split; [done|]; f_equal; cbn; lia|].
  to_prop. specialize (Hj (dec i) ltac:(done)). destruct (write_bson_element j (dec i)) as [w|e|]; cbn [rbind]; [|by destruct Hj as [-> ?]|done].
  destruct Hj as [-> Hw]. rewrite (Hw (dec_no_nul i Hi)). cbn [rbind andb].
  specialize (IH ltac:(done) (i + 1)%Z (acc + Z.of_nat (length w))%Z ltac:(lia)).
  destruct (write_elements _ (i + 1) l) as [ws|e|]; cbn [rbind]; [|done..]. destruct IH as [-> ->]. split; [done|]. f_equal. rewrite length_app. lia.
Qed.

Lemma object_written l : Forall (fun kv : bytes * value => written kv.2) l ->
  forallb (fun kv => no_nul (fst kv) && bson_keys (snd kv)) l = true -> forall acc,
  match write_members write_bson_element l with
  | Done w => forallb (fun kv => bson_integers (snd kv)) l = true /\ object_sizes calc_bson_element_size acc l = Done (acc + Z.of_nat (length w))%Z
  | Fail e => forallb (fun kv => bson_integers (snd kv)) l = false /\ exn_id e = 407%Z
  | Stuck => False
  end.
Proof.
  induction 1 as [|[k j] l Hj _ IH]; intros Hk acc; cbn [write_members object_sizes forallb fst snd] in *; [split; [done|]; f_equal; cbn; lia|].
  to_prop. specialize (Hj k ltac:(done)). destruct (write_bson_element j k) as [w|e|]; cbn [rbind]; [|by destruct Hj as [-> ?]|done].
  destruct Hj as [-> Hw]. rewrite Hw by done. cbn [rbind andb]. specialize (IH ltac:(done) (acc + Z.of_nat (length w))%Z).
  destruct (write_members _ l) as [ws|e|]; cbn [rbind]; [|done..]. destruct IH as [-> ->]. split; [done|]. f_equal. rewrite length_app. lia.
Qed.

Lemma write_number_le_length n z : length (write_number_le n z) = n.
Proof. unfold write_number_le. by rewrite length_rev, write_number_length. Qed.
Lemma write_character_length c : length (write_character c) = 1.
Proof. done. Qed.
#[local] Hint Rewrite @length_app write_character_length write_number_length write_number_le_length : lengths.
Ltac lengths := autorewrite with lengths; cbn [length].

Lemma object_document_written l :
  Forall (fun kv : bytes * value => written kv.2) l -> bson_keys (VObject l) = true ->
  match write_bson_object write_bson_element l with
  | Done w => bson_integers (VObject l) = true /\ calc_bson_object_size calc_bson_element_size l = Done (Z.of_nat (length w)) /\
      exists ws, w = write_number_le 4 (Z.of_nat (length w)) ++ ws
  | Fail e => bson_integers (VObject l) = false /\ exn_id e = 407%Z
  | Stuck => False
  end.
Proof.
  intros IH Hk. cbn [bson_keys bson_integers] in *. unfold write_bson_object, calc_bson_object_size. pose proof (object_sized l ltac:(apply Forall_true; intros; apply element_sized) 0) as Hs.
  rewrite Hk in Hs. destruct Hs as [n Hn]. rewrite Hn. cbn [rbind]. pose proof (object_written l IH Hk 0) as Hw.
  destruct (write_members _ l) as [w|e|]; cbn [rbind]; [|done..]. destruct Hw as [-> Hw]. rewrite Hn in Hw. injection Hw as ->.
  assert (4 + Z.of_nat (length w) + 1 = Z.of_nat (length (write_number_le 4 (4 + (0 + Z.of_nat (length w)) + 1) ++ w ++ write_character 0)))%Z as Hl by (lengths; lia).
  split; [done|]. rewrite <- Hl. split; [f_equal; lia|]. by eexists.
Qed.

Lemma primitive_written j : is_primitive j = true -> written j.
Proof.
  intros Hp name _. pose proof (header_size name) as Hh.
  assert (forall (w : bytes) n, (Z.of_nat (length name) + 2 + n = Z.of_nat (length w))%Z ->
    no_nul name = true -> (let! h := calc_bson_entry_header_size name in Done (h + n)%Z) = Done (Z.of_nat (length w))) as Hgo.
  { intros w n Hw Hn. rewrite Hn in Hh. rewrite Hh. cbn [rbind]. by rewrite Hw. }
  destruct j as [|b|z|z|x|s|b|l|l]; try done; cbn [write_bson_element calc_bson_element_size bson_integers];
    try (split; [done|]; apply Hgo).
  4: { clear Hh. unfold write_bson_unsigned, calc_bson_unsigned_size. repeat case_test; to_prop; try lia; try (by split; [lia|]);
       (split; [lia|]; apply Hgo); unfold write_bson_entry_header; lengths; lia. }
  all: unfold write_bson_null, write_bson_boolean, write_bson_integer, write_bson_double, write_bson_string, write_bson_binary, write_bson_entry_header,
         calc_bson_string_size, calc_bson_integer_size, calc_bson_binary_size; try destruct (is_int32 _); lengths; lia.
Qed.

Lemma element_written j : written j.
Proof.
  induction j as [j Hp|l IH|l IH] using value_induction; [by apply primitive_written| |]; intros name Hk; pose proof (header_size name) as Hh.
  - pose proof (array_sized l ltac:(apply Forall_true; intros; apply element_sized) 0 0 ltac:(done)) as Hs. cbn [bson_keys] in Hk. rewrite Hk in Hs. destruct Hs as [n Hn].
    pose proof (array_written l IH Hk 0 0 ltac:(done)) as Hw. cbn [write_bson_element calc_bson_element_size bson_integers].
    unfold write_bson_array, calc_bson_array_size. rewrite Hn. cbn [rbind]. destruct (write_elements _ 0 l) as [w|e|]; cbn [rbind]; [|done..].
    destruct Hw as [-> Hw]. split; [done|]. rewrite Hn in Hw. injection Hw as ->. intros Hnn. rewrite Hnn in Hh. rewrite Hh. cbn [rbind]. f_equal.
    unfold write_bson_entry_header. lengths. lia.
  - pose proof (object_document_written l IH Hk) as Hw. cbn [write_bson_element calc_bson_element_size]. unfold write_bson_object_entry.
    destruct (write_bson_object _ l) as [w|e|]; cbn [rbind]; [|done..]. destruct Hw as (Hi & Hw & _). split; [exact Hi|].
    intros Hnn. rewrite Hnn in Hh. rewrite Hh, Hw. cbn [rbind]. f_equal. unfold write_bson_entry_header. lengths. lia.
Qed.

(** ** What is read *)

(** What BSON makes of a value: integers are signed, and byte arrays have a subtype. *)
Fixpoint bson_reread (v : value) : value :=
  match v with
  | VUnsigned z => VInteger z
  | VBinary b => VBinary (MkBinary (bin_data b) (Some (default 0%Z (m_subtype b))))
  | VArray l => VArray (map bson_reread l)
  | VObject l => VObject (map (fun kv => (fst kv, bson_reread (snd kv))) l)
  | _ => v
  end.

(** Strings and byte arrays have lengths of 31 bits. *)
Definition bson_limits : limits := MkLimits (2 ^ 31 - 2) (2 ^ 64) (2 ^ 64) 0xFF.

Section consumes.
  Context {H : Type} `{SizedSAX H}.

Lemma cstr_loop_consumes fuel name : no_nul name = true -> length name < fuel -> consumes (cstr_loop (H := H) fuel) (name ++ [NUL]) name.
Proof.
  revert fuel. induction name as [|c name IH]; intros [|fuel] Hn Hf; cbn [length] in Hf; try lia; cbn [cstr_loop app no_nul forallb] in *; apply consumes_char.
  - rewrite Ascii.eqb_refl. apply consumes_ret.
  - apply andb_true_iff in Hn as [Hc Hn]. apply negb_true_iff in Hc. rewrite Hc. apply (consumes_map _ (cons c)), IH; [done|lia].
Qed.

Lemma get_bson_cstr_consumes name : no_nul name = true -> consumes (get_bson_cstr (H := H)) (name ++ [NUL]) name.
Proof. intros Hn r s rest Hr. unfold get_bson_cstr. apply cstr_loop_consumes; [done| |done]. rewrite Hr, !length_app. lia. Qed.

Lemma get_bson_string_consumes s : consumes (get_bson_string (H := H) (Z.of_nat (length s) + 1)) (s ++ [NUL]) s.
Proof.
  unfold get_bson_string. rewrite (proj2 (Z.ltb_ge _ _)) by lia. replace (Z.of_nat (length s) + 1 - 1)%Z with (Z.of_nat (length s)) by lia.
  eapply consumes_bind; [apply get_string_consumes|]. apply consumes_get, consumes_any, consumes_ret.
Qed.

Lemma get_bson_binary_consumes s t :
  (0 <= t < 256)%Z -> consumes (get_bson_binary (H := H) (Z.of_nat (length s))) (write_number 1 t ++ s) (MkBinary s (Some t)).
Proof.
  intros Ht. unfold get_bson_binary. rewrite (proj2 (Z.ltb_ge _ _)) by lia.
  eapply consumes_bind; [by apply ignored_consumes, get_number_consumes|]. apply (consumes_map _ (fun b => MkBinary b (Some t))), get_binary_consumes.
Qed.

Lemma document_size_consumes size : exists z, consumes (ignored 0%Z (get_number_le (H := H) bson 4)) (write_number_le 4 size) z.
Proof. eexists. unfold write_number_le. rewrite write_number_mod. apply ignored_consumes, get_number_le_consumes, Z.mod_pos_bound. lia. Qed.
End consumes.

(** ** Elements *)

Abbreviation parse := (parse_bson (H := dom_parser)).
Abbreviation internal fuel := (parse_bson_element_internal (parse fuel false) (parse fuel true)).
Abbreviation element_list fuel := (parse_bson_element_list (parse fuel false) (parse fuel true)).

(** The bytes of an element: its type, its name, and what is read as its value. *)
Definition element_reads (fuel : nat) (w name : bytes) (v : value) : Prop :=
  exists c p, w = chr c :: name ++ [NUL] ++ p /\ (0 < c < 256)%Z /\ forall pos, reads (internal fuel c pos) p v.

Lemma element_reads_intro fuel name k p v :
  (0 < k < 256)%Z -> (forall pos, reads (internal fuel k pos) p v) -> element_reads fuel (write_bson_entry_header name k ++ p) name v.
Proof. intros Hk Hr. exists k, p. split; [|done]. unfold write_bson_entry_header. by rewrite <- !app_assoc. Qed.

(** A round of the loop: the handler has got the key, of an object. *)
Lemma list_round is_array fuel fuel' w name v r d d1 st rest :
  element_reads fuel w name v -> no_nul name = true -> ia r = w ++ rest ->
  (if is_array : bool then d1 = d else dom_key name d = Some (true, d1)) -> dom_ok st true d1 ->
  exists r' d', element_list fuel (S fuel') is_array r d = element_list fuel fuel' is_array r' d' /\ ia r' = rest /\ handled v d1 d'.
Proof.
  intros (c & p & -> & Hc & Hp) Hn Hr Hk Hd. cbn [parse_bson_element_list]. cbn [app] in Hr.
  destruct (get_cons (chr c) _ r d Hr) as (r1 & Hg & Hr1 & Hc1). rewrite (bind_val _ _ _ _ _ _ _ Hg). rewrite code_chr by lia.
  rewrite (proj2 (Z.eqb_neq _ _)) by lia.
  assert (unexpect_eof bson (B "element list") r1 d = Some (Val tt, r1, d)) as He by (unfold unexpect_eof; by rewrite Hc1).
  rewrite (bind_val _ _ _ _ _ _ _ He). assert (the_position r1 d = Some (Val (chars_read r1), r1, d)) as Hpos by done.
  rewrite (bind_val _ _ _ _ _ _ _ Hpos). assert (ia r1 = (name ++ [NUL]) ++ p ++ rest) as Hr1' by (rewrite Hr1; by rewrite <- !app_assoc).
  destruct (get_bson_cstr_consumes name Hn r1 d _ Hr1') as (r2 & H2 & Hr2). rewrite (bind_val _ _ _ _ _ _ _ H2).
  assert ((if is_array then ret tt else call (sax_key name)) r2 d = Some (Val tt, r2, d1)) as H3.
  { destruct is_array; [by subst d1|]. unfold call. cbn. by rewrite Hk. }
  rewrite (bind_val _ _ _ _ _ _ _ H3). destruct (Hp (chars_read r1) r2 d1 st rest Hr2 Hd) as (r4 & d4 & H4 & Hr4 & Hh).
  exists r4, d4. by rewrite (bind_val _ _ _ _ _ _ _ H4).
Qed.

Lemma list_end is_array fuel fuel' r d rest : ia r = NUL :: rest -> exists r', element_list fuel (S fuel') is_array r d = Some (Val tt, r', d) /\ ia r' = rest.
Proof.
  intros Hr. destruct (get_cons NUL rest r d Hr) as (r1 & Hg & Hr1 & _). exists r1. cbn [parse_bson_element_list]. by rewrite (bind_val _ _ _ _ _ _ _ Hg).
Qed.

Definition bson_roundtrip (v : value) : Prop := forall fuel name w,
  encodable bson_limits v = true -> write_bson_element v name = Done w -> length w <= fuel -> element_reads fuel w name (bson_reread v).

(** The elements of an array, and the members of an object. *)
Lemma array_list_reads fuel l : Forall bson_roundtrip l -> forallb (encodable bson_limits) l = true ->
  forall i w fuel' r d st q rs pre rest, (0 <= i)%Z -> write_elements write_bson_element i l = Done w -> length w <= fuel -> length w < fuel' ->
    ia r = w ++ NUL :: rest -> dom_ok (true :: st) false d -> inside d q rs (VArray pre) ->
    exists r' d', element_list fuel fuel' true r d = Some (Val tt, r', d') /\ ia r' = rest /\ grown d d' q (VArray (pre ++ map bson_reread l)).
Proof.
  induction 1 as [|v l Hv _ IH]; intros He i w fuel' r d st q rs pre rest Hi Hw Hf Hf' Hr Hd Hin; cbn [write_elements forallb map] in *.
  - injection Hw as <-. destruct fuel' as [|fuel']; [cbn in Hf'; lia|]. destruct (list_end true fuel fuel' r d rest Hr) as (r' & H1 & Hr1).
    exists r', d. split; [done|]. split; [done|]. rewrite app_nil_r. by eapply grown_same.
  - apply andb_true_iff in He as [Hev Hes]. destruct (write_bson_element v (dec i)) as [wv|e|] eqn:Hwv; cbn [rbind] in Hw; try done.
    destruct (write_elements _ (i + 1) l) as [ws|e|] eqn:Hws; cbn [rbind] in Hw; try done. injection Hw as <-. rewrite length_app in Hf, Hf'.
    destruct fuel' as [|fuel']; [lia|]. rewrite <- app_assoc in Hr. assert (element_reads fuel wv (dec i) (bson_reread v)) as Hel by (apply Hv; [done..|lia]).
    destruct (list_round true fuel fuel' wv (dec i) (bson_reread v) r d d (true :: st) _ Hel (dec_no_nul i Hi) Hr eq_refl (dom_array_next st d Hd)) as (r1 & d1 & H1 & Hr1 & Hh).
    pose proof (handled_ok _ _ _ _ (dom_array_next st d Hd) Hh) as Hd1. pose proof (handled_element _ _ _ _ _ _ Hin Hh) as Hg.
    assert (0 < length wv) by (destruct Hel as (c & p & -> & _); cbn; lia).
    destruct (IH ltac:(done) (i + 1)%Z ws fuel' r1 d1 st q rs _ rest ltac:(lia) Hws ltac:(lia) ltac:(lia) Hr1 Hd1 (grown_inside _ _ _ _ _ _ Hin Hg)) as (r2 & d2 & H2 & Hr2 & Hg2).
    exists r2, d2. rewrite H1. split; [done|]. split; [done|]. rewrite <- app_assoc in Hg2. by eapply grown_trans.
Qed.

Lemma object_list_reads fuel l : Forall (fun kv : bytes * value => bson_roundtrip kv.2) l ->
  forallb (fun kv => encodable bson_limits (snd kv)) l = true -> forallb (fun kv => no_nul (fst kv)) l = true -> increasing (map fst l) = true ->
  forall w fuel' r d st q rs pre rest, write_members write_bson_element l = Done w -> length w <= fuel -> length w < fuel' ->
    ia r = w ++ NUL :: rest -> dom_ok (false :: st) false d -> inside d q rs (VObject pre) ->
    Forall (fun kv => Forall (fun kv' => bytes_lt (fst kv) (fst kv') = true) l) pre ->
    exists r' d', element_list fuel fuel' false r d = Some (Val tt, r', d') /\ ia r' = rest /\
      grown d d' q (VObject (pre ++ map (fun kv => (fst kv, bson_reread (snd kv))) l)).
Proof.
  induction 1 as [|[k v] l Hv _ IH]; intros He Hk Hinc w fuel' r d st q rs pre rest Hw Hf Hf' Hr Hd Hin Hpre; cbn [write_members forallb map increasing fst snd] in *.
  - injection Hw as <-. destruct fuel' as [|fuel']; [cbn in Hf'; lia|]. destruct (list_end false fuel fuel' r d rest Hr) as (r' & H1 & Hr1).
    exists r', d. split; [done|]. split; [done|]. rewrite app_nil_r. by eapply grown_same.
  - apply andb_true_iff in He as [Hev Hes]. apply andb_true_iff in Hk as [Hk Hks]. apply andb_true_iff in Hinc as [Hlt Hinc].
    destruct (write_bson_element v k) as [wv|e|] eqn:Hwv; cbn [rbind] in Hw; try done.
    destruct (write_members _ l) as [ws|e|] eqn:Hws; cbn [rbind] in Hw; try done. injection Hw as <-. rewrite length_app in Hf, Hf'.
    destruct fuel' as [|fuel']; [lia|]. rewrite <- app_assoc in Hr. assert (element_reads fuel wv k (bson_reread v)) as Hel by (apply Hv; [done..|lia]).
    assert (0 < length wv) by (destruct Hel as (c & p & -> & _); cbn; lia).
    assert (Forall (fun kv => bytes_lt (fst kv) k = true) pre) as Hprek by (eapply Forall_impl; [exact Hpre|]; intros kv Hkv; by apply Forall_cons in Hkv as [? _]).
    destruct (dom_key_ok st k d Hd) as (d1 & Hkey & Hd1). destruct (key_step d q rs pre k Hin Hprek) as (d1' & Hkey' & Hg1 & Hoe).
    rewrite Hkey in Hkey'. injection Hkey' as <-. pose proof (grown_inside _ _ _ _ _ _ Hin Hg1) as Hin1.
    destruct (list_round false fuel fuel' wv k (bson_reread v) r d d1 (false :: st) _ Hel Hk Hr Hkey Hd1) as (r2 & d2 & H2 & Hr2 & Hh).
    pose proof (handled_ok _ _ _ _ Hd1 Hh) as Hd2. pose proof (handled_member _ _ _ _ _ _ _ Hin1 Hprek Hoe Hh) as Hg2.
    pose proof (grown_trans _ _ _ _ _ _ _ _ Hin Hg1 Hg2) as Hg.
    destruct (IH Hes Hks Hinc ws fuel' r2 d2 st q rs (pre ++ [(k, bson_reread v)]) rest eq_refl ltac:(lia) ltac:(lia) Hr2 Hd2 (grown_inside _ _ _ _ _ _ Hin Hg)) as (r3 & d3 & H3 & Hr3 & Hg3).
    { apply Forall_app. split.
      - eapply Forall_impl; [exact Hpre|]. intros kv Hkv. by apply Forall_cons in Hkv as [_ ?].
      - apply Forall_singleton. cbn [fst]. rewrite forallb_Forall in Hlt. by apply Forall_map in Hlt. }
    exists r3, d3. rewrite H2. split; [done|]. split; [done|]. rewrite <- app_assoc in Hg3. by eapply grown_trans.
Qed.

(** Documents. *)
Lemma document_reads (is_array : bool) fuel size w v :
  container is_array (Some (if is_array then VArray [] else VObject [])) ->
  (forall r d st q rs rest, ia r = w ++ [NUL] ++ rest -> dom_ok (is_array :: st) false d -> inside d q rs (if is_array then VArray [] else VObject []) ->
    exists r' d', element_list fuel fuel is_array r d = Some (Val tt, r', d') /\ ia r' = rest /\ grown d d' q v) ->
  reads (parse (S fuel) is_array) (write_number_le 4 size ++ w ++ write_character 0x00) v.
Proof.
  intros Hc Hl. destruct (document_size_consumes (H := dom_parser) size) as [z Hz].
  destruct is_array; (eapply reads_bind; [exact Hz|]); [eapply (start_end_reads true (VArray []) v)|eapply (start_end_reads false (VObject []) v)]; try done; try (by right);
    intros r d st q rs rest Hr; (eapply Hl; by rewrite Hr, <- app_assoc).
Qed.

Lemma prefixed_number_reads {A} n z a (m : M dom_parser A) (f : A -> dom_parser -> option (bool * dom_parser)) v :
  consumes m (write_number_le n z) a -> f a = dom_value v -> reads (let* x := m in call (f x)) (write_number_le n z) v.
Proof. intros Hm Hf. by eapply reads_then. Qed.

Lemma bson_integer_reads fuel name z : (- 2 ^ 63 <= z < 2 ^ 63)%Z -> element_reads fuel (write_bson_integer name z) name (VInteger z).
Proof.
  intros Hz. unfold write_bson_integer, is_int32. destruct (_ && _) eqn:Hi; to_prop; (apply element_reads_intro; [lia|]); intros pos;
    (eapply (reads_then _ sax_number_integer); [apply get_signed_le_consumes; cbn; lia|done]).
Qed.

Lemma bson_primitive_reads v : is_primitive v = true -> bson_roundtrip v.
Proof.
  intros Hp fuel name w He Hw Hf. destruct v as [|b|z|z|x|s|b|l|l]; try done; cbn [write_bson_element encodable bson_reread bson_limits max_string max_subtype] in *;
    to_prop; try (injection Hw as <-).
  - unfold write_bson_null. rewrite <- (app_nil_r (write_bson_entry_header _ _)). apply element_reads_intro; [lia|]. intros pos. by apply (reads_scalar _ VNull).
  - apply element_reads_intro; [lia|]. intros pos. destruct b; apply reads_get, reads_any; [by apply (reads_scalar _ (VBool true))|by apply (reads_scalar _ (VBool false))].
  - apply bson_integer_reads. lia.
  - assert (w = write_bson_integer name z /\ (z < 2 ^ 63)%Z) as [-> Hz]; [|apply bson_integer_reads; lia].
    unfold write_bson_unsigned in Hw. unfold write_bson_integer, is_int32. rewrite (proj2 (Z.leb_le (- 2 ^ 31) z)) by lia. cbn [andb].
    destruct (z <=? 2 ^ 31 - 1)%Z eqn:H31; [|destruct (z <=? 2 ^ 63 - 1)%Z eqn:H63; [|done]]; injection Hw as <-; to_prop; (split; [done|lia]).
  - apply element_reads_intro; [lia|]. intros pos. destruct (bits64_read x He) as [Hr Hb]. rewrite <- Hr at 2.
    by eapply (reads_then _ (fun number => sax_number_float (of_bits64 number) [])); [by apply get_number_le_consumes|].
  - apply element_reads_intro; [lia|]. intros pos. eapply reads_bind; [apply get_signed_le_consumes; cbn; lia|].
    by eapply reads_then; [apply get_bson_string_consumes|].
  - apply element_reads_intro; [lia|]. intros pos. eapply reads_bind; [apply get_signed_le_consumes; cbn; lia|].
    eapply reads_then; [|done]. destruct b as [data [t|]]; cbn in *; to_prop; apply get_bson_binary_consumes; lia.
Qed.

Lemma Done_inj {A} (a b : A) : Done a = Done b -> a = b.
Proof. by intros [=]. Qed.
Lemma header_length name k w : length (write_bson_entry_header name k ++ w) = length name + 2 + length w.
Proof. unfold write_bson_entry_header. lengths. lia. Qed.
Lemma document_length size w : length (write_number_le 4 size ++ w ++ write_character 0) = 5 + length w.
Proof. lengths. lia. Qed.

Lemma sized_keys l n : calc_bson_object_size calc_bson_element_size l = Done n -> forallb (fun kv => no_nul (fst kv)) l = true.
Proof.
  unfold calc_bson_object_size. intros Hn. pose proof (object_sized l ltac:(apply Forall_true; intros; apply element_sized) 0) as Hs.
  destruct (forallb _ l) eqn:Hl; [|destruct Hs as (e & He & _); by rewrite He in Hn].
  rewrite forallb_Forall in Hl |- *. eapply Forall_impl; [exact Hl|]. cbn. intros kv Hkv. by apply andb_true_iff in Hkv as [? _].
Qed.

Lemma object_document_reads fuel l w :
  Forall (fun kv : bytes * value => bson_roundtrip kv.2) l -> encodable bson_limits (VObject l) = true ->
  write_bson_object write_bson_element l = Done w -> length w <= fuel -> reads (parse fuel false) w (bson_reread (VObject l)).
Proof.
  intros IH He Hw Hf. cbn [encodable] in He. to_prop. unfold write_bson_object in Hw.
  destruct (calc_bson_object_size _ l) as [size|e|] eqn:Hsize; cbn [rbind] in Hw; try done.
  destruct (write_members _ l) as [ws|e|] eqn:Hws; cbn [rbind] in Hw; try done. apply Done_inj in Hw as <-. rewrite document_length in Hf.
  destruct fuel as [|fuel]; [lia|]. apply (document_reads false); [done|]. intros r d st q rs rest Hr Hd Hin.
  eapply (object_list_reads fuel l IH) with (pre := []); try done; try lia; [|by eapply sized_keys].
  match goal with Hl : forallb _ l = true |- _ => rewrite forallb_Forall in Hl |- *; eapply Forall_impl; [exact Hl|] end.
  cbn. intros kv Hkv. by apply andb_true_iff in Hkv as [_ ?].
Qed.

Lemma bson_element_reads v : bson_roundtrip v.
Proof.
  induction v as [v Hp|l IH|l IH] using value_induction; [by apply bson_primitive_reads| |]; intros fuel name w He Hw Hf; cbn [write_bson_element] in *.
  - cbn [encodable] in He. to_prop. unfold write_bson_array in Hw. destruct (calc_bson_array_size _ l) as [size|e|]; cbn [rbind] in Hw; try done.
    destruct (write_elements _ 0 l) as [ws|e|] eqn:Hws; cbn [rbind] in Hw; try done. apply Done_inj in Hw as <-. apply element_reads_intro; [lia|]. intros pos.
    rewrite header_length, document_length in Hf. destruct fuel as [|fuel]; [lia|].
    apply (document_reads true); [done|]. intros r d st q rs rest Hr Hd Hin. eapply (array_list_reads fuel l IH) with (pre := []); try done; lia.
  - unfold write_bson_object_entry in Hw. destruct (write_bson_object _ l) as [ws|e|] eqn:Hws; cbn [rbind] in Hw; try done. apply Done_inj in Hw as <-.
    rewrite header_length in Hf. apply element_reads_intro; [lia|]. intros pos. apply object_document_reads; [done..|lia].
Qed.

(** ** Every input is read to an end *)

Lemma get_signed_le_total format i n st e : total (get_signed_le format i) n st e st e 0.
Proof. intros c. eapply total_bind0; [intros; eapply total_bind0; [apply get_bytes_total|]; intros l z; apply total_ret|]. intros z y. apply total_ret. Qed.

Lemma cstr_loop_total fuel n st e : n < fuel -> total (cstr_loop fuel) n st e st e 0.
Proof.
  revert n. induction fuel as [|fuel IH]; intros n Hf c; [lia|]. cbn [cstr_loop]. eapply total_weaken; [apply char_total|reflexivity|lia].
  intros Hn a b. case_test; [apply total_ret|]. eapply total_bind0; [apply IH; lia|]. intros l z. apply total_ret.
Qed.
Lemma get_bson_cstr_total n st e : total get_bson_cstr n st e st e 0.
Proof. intros c r d Hc Hl Hd. unfold get_bson_cstr. eapply (cstr_loop_total _ (length (ia r))); [lia|done|lia|done]. Qed.

Lemma bad_length_total {A} (x : A) detail context c n st e st' e' k : total_at c (bad_length x detail context) n st e st' e' k.
Proof.
  intros r d _ _ _. unfold bad_length, bindM, the_token. cbn [mbind option_bind].
  destruct (report_fails (get_token_string r) 112 (exception_message bson detail context) r d) as (z & d' & -> & Hz).
  by exists (Return z), r, d'.
Qed.

Lemma fails_total {A} c n st e st' e' k : total_at c (fails (A := A)) n st e st' e' k.
Proof. intros r d _ _ _. by eexists _, _, _. Qed.

Lemma get_bson_string_total len n st e : total (get_bson_string len) n st e st e 0.
Proof.
  intros c. unfold get_bson_string. case_test; [apply bad_length_total|]. eapply total_bind0; [apply get_string_total|]. intros s z.
  eapply total_weaken; [apply total_get|reflexivity|lia].
  - intros _ a. case_test; [apply fails_total|apply total_ret].
  - intros r d _. by eexists _, _, _.
Qed.

Lemma get_bson_binary_total len n st e : total (get_bson_binary len) n st e st e 0.
Proof.
  intros c. unfold get_bson_binary. case_test; [apply bad_length_total|]. eapply total_bind0; [apply ignored_total|]. intros t z.
  eapply total_bind0; [apply get_binary_total|]. intros b y. apply total_ret.
Qed.

Lemma get_total n st e : total get n st e st e 0.
Proof. intros c r d _ _ Hd. unfold get. destruct (ia r); do 3 eexists; (split; [reflexivity|]); (split; [done|]); cbn; lia. Qed.

Lemma element_total fuel pos n st c : (forall b, total (parse fuel b) n st true st false 0) -> total (internal fuel c pos) n st true st false 0.
Proof.
  intros Hp. unfold parse_bson_element_internal. intros z.
  repeat case_test; try apply Hp; try (by apply (call_value_total _ VNull)).
  - eapply total_bind0; [intros; eapply total_bind0; [apply get_bytes_total|]; intros l ?; apply total_ret|]. intros x ?. by eapply call_value_total.
  - eapply total_bind0; [apply get_signed_le_total|]. intros len ?. eapply total_bind0; [apply get_bson_string_total|]. intros s ?. by eapply call_value_total.
  - eapply total_bind0; [apply get_signed_le_total|]. intros len ?. eapply total_bind0; [apply get_bson_binary_total|]. intros s ?. by eapply call_value_total.
  - eapply total_bind0; [apply get_total|]. intros x ?. by eapply call_value_total.
  - eapply total_bind0; [apply get_signed_le_total|]. intros x ?. by eapply call_value_total.
  - eapply total_bind0; [apply get_signed_le_total|]. intros x ?. by eapply call_value_total.
  - intros r d _ _ _. destruct (report_at_fails pos (hex_byte (c mod 256)) 114 (B "Unsupported BSON record type 0x" ++ hex_byte (c mod 256)) r d) as (y & d' & -> & Hy).
    by exists (Return y), r, d'.
Qed.

Lemma element_list_total fuel is_array fuel' n st :
  n < fuel' -> (forall n', n' < n -> forall st b, total (parse fuel b) n' st true st false 0) ->
  total (element_list fuel fuel' is_array) n (is_array :: st) false (is_array :: st) false 0.
Proof.
  revert n. induction fuel' as [|fuel' IH]; intros n Hf Hp z; [lia|]. cbn [parse_bson_element_list].
  eapply total_weaken; [apply total_get|reflexivity|lia]; [|intros r d Hc; by eapply unexpect_eof_stops].
  intros Hn c. case_test; [apply total_ret|]. apply unexpect_eof_total. eapply total_bind0.
  { intros r d _ _ Hd. do 3 eexists. split; [reflexivity|]. split; [exact Hd|lia]. }
  intros pos ?. eapply total_bind0; [apply get_bson_cstr_total|]. intros key ?.
  apply (total_bind0 _ _ _ _ _ _ (is_array :: st) true).
  { destruct is_array; [|by apply call_key_total]. intros r d _ _ Hd. do 3 eexists. split; [reflexivity|]. split; [by apply dom_array_next|lia]. }
  intros _ ?. eapply total_bind0; [apply element_total; intros b; apply Hp; lia|]. intros _. apply IH; [lia|]. intros n' Hn'. apply Hp. lia.
Qed.

Lemma parse_bson_total fuel is_array n st : n + 2 <= fuel -> total (parse fuel is_array) n st true st false 0.
Proof.
  revert is_array n st. induction fuel as [|fuel IH]; intros is_array n st Hf z; [lia|]. cbn [parse_bson].
  destruct is_array; (eapply total_bind0; [apply ignored_total|]; intros _ ?).
  - eapply total_bind0; [by apply (call_start_total _ _ _ _ true)|]. intros _ ?.
    eapply total_bind0; [apply element_list_total; [lia|]; intros n' Hn' st' b; apply IH; lia|]. intros _ ?. apply call_end_total.
  - eapply total_bind0; [by apply (call_start_total _ _ _ _ false)|]. intros _ ?.
    eapply total_bind0; [apply element_list_total; [lia|]; intros n' Hn' st' b; apply IH; lia|]. intros _ ?. apply call_end_total.
Qed.

Lemma from_bson_total strict allow_exceptions input : is_Some (from_bson strict allow_exceptions input).
Proof. eapply from_binary_total. apply parse_bson_total. unfold input_fuel. lia. Qed.

(** ** The properties *)

(** [to_bson] succeeds exactly for the objects, however deep, without a NUL in a key and
    without an integer from 2^63 on.  Then the number in front is the length of what is
    written.  Otherwise the exception tells why: no object (317), a NUL in a key (409, which is
    found before anything is written), an integer that does not fit (407). *)
Theorem to_bson_correct v :
  if is_object v && bson_keys v && bson_integers v then exists w ws, to_bson v = Done w /\ w = write_number_le 4 (Z.of_nat (length w)) ++ ws
  else fails_with (if negb (is_object v) then 317 else if negb (bson_keys v) then 409 else 407) (to_bson v).
Proof.
  destruct v as [|b|z|z|x|s|b|l|l]; try by eexists. change (is_object (VObject l)) with true. unfold to_bson, write_bson.
  destruct (bson_keys (VObject l)) eqn:Hk; cbn [andb negb].
  - pose proof (object_document_written l ltac:(apply Forall_true; intros; apply element_written) Hk) as Hw.
    destruct (write_bson_object _ l) as [w|e|]; [|destruct Hw as [-> Hid]; by exists e|done]. destruct Hw as (-> & _ & ws & Hw). by exists w, ws.
  - unfold write_bson_object, calc_bson_object_size. cbn [bson_keys] in Hk. pose proof (object_sized l ltac:(apply Forall_true; intros; apply element_sized) 0) as Hs.
    rewrite Hk in Hs. destruct Hs as (e & -> & He). by exists e.
Qed.

(** C19: what [to_bson] writes, [from_bson] reads: every value of the C++ types whose strings and
    byte arrays have lengths of 31 bits, and subtypes of 8 bits, comes back, but for unsigned integers, which come back
    signed, and byte arrays without a subtype, which come back with subtype 0.  Bytes behind the
    value are left alone, or an error in strict mode. *)
Theorem bson_correct (strict allow_exceptions : bool) v w rest :
  encodable bson_limits v = true -> to_bson v = Done w ->
  exists r, from_bson strict allow_exceptions (w ++ rest) = Some r /\ read_result strict allow_exceptions (bson_reread v) rest r.
Proof.
  intros Hv Hw. apply from_binary_reads. destruct v as [|b|z|z|x|s|b|l|l]; try done.
  apply object_document_reads; [|done|done|unfold input_fuel; rewrite length_app; lia]. apply Forall_true. intros kv. apply bson_element_reads.
Qed.

Lemma bson_correct_witness :
  encodable bson_limits demo_bson_value = true /\
  exists w, to_bson demo_bson_value = Done w /\
  exists r, from_bson true true (w ++ []) = Some r /\ read_result true true (bson_reread demo_bson_value) [] r.
Proof.
  assert (encodable bson_limits demo_bson_value = true) as Hv by (vm_compute; reflexivity).
  split; [exact Hv|]. destruct (to_bson demo_bson_value) as [w|e|] eqn:Hw; [|vm_compute in Hw; discriminate Hw..].
  exists w. split; [reflexivity|]. exact (bson_correct true true demo_bson_value w [] Hv Hw).
Defined.

(** The input ends before the NUL of a string: there is no exception although they are asked for. *)
Lemma unterminated_string_silent :
  from_bson true true (B "...." ++ [chr 2; "k"%char; NUL] ++ write_number_le 4 2 ++ B "x") = Some Discarded.
Proof. vm_compute. reflexivity. Qed.

(** The sizes in front of documents and the NUL behind strings are not looked at. *)
Lemma sizes_unchecked :
  from_bson true true (B "...." ++ [chr 2; "k"%char; NUL] ++ write_number_le 4 2 ++ B "xy" ++ [NUL]) = Some (Parsed (VObject [(B "k", VString (B "x"))])).
Proof. vm_compute. reflexivity. Qed.
