(* ===== verification/Ubjson.v ===== *)
(** * UBJSON: [to_ubjson] and [from_ubjson] of [include/json.hpp]

    [write_ubjson] with the optional counts ([#]) and types ([$]) of containers, and
    [parse_ubjson_internal].  A byte array is written as an array of numbers; an integer from
    2^63 on is written, and read by the lexer, as text. *)
From S2P Require Import Prelude CLib Json JsonLexer JsonParser JsonValue BinaryFloat Binary.
From Stdlib Require Import SpecFloat.

Abbreviation ubjson := input_format_t.ubjson.

(** ** The writer *)

Definition write_char (c : ascii) : bytes := [c].
Definition prefix_if (add_prefix : bool) (c : ascii) : bytes := if add_prefix then write_char c else [].

(** [write_number_with_ubjson_prefix] for the three kinds of numbers.  A length never takes the
    last branch of the second. *)
Definition write_ubjson_float (n : spec_float) (add_prefix : bool) : bytes := prefix_if add_prefix "D" ++ write_number 8 (bits64 n).

Definition write_ubjson_below (n : Z) (add_prefix : bool) (high_precision : bytes) : bytes :=
  if (n <=? 127)%Z then prefix_if add_prefix "i" ++ write_number 1 n
  else if (n <=? 255)%Z then prefix_if add_prefix "U" ++ write_number 1 n
  else if (n <=? 32767)%Z then prefix_if add_prefix "I" ++ write_number 2 n
  else if (n <=? 2 ^ 31 - 1)%Z then prefix_if add_prefix "l" ++ write_number 4 n
  else if (n <=? 2 ^ 63 - 1)%Z then prefix_if add_prefix "L" ++ write_number 8 n
  else high_precision.
Definition write_ubjson_high (n : Z) (add_prefix : bool) : bytes :=
  let number := dec n in prefix_if add_prefix "H" ++ write_ubjson_below (Z.of_nat (length number)) true [] ++ number.
Definition write_ubjson_unsigned (n : Z) (add_prefix : bool) : bytes := write_ubjson_below n add_prefix (write_ubjson_high n add_prefix).

Definition write_ubjson_integer (n : Z) (add_prefix : bool) : bytes :=
  if (-128 <=? n)%Z && (n <=? 127)%Z then prefix_if add_prefix "i" ++ write_number 1 n
  else if (0 <=? n)%Z && (n <=? 255)%Z then prefix_if add_prefix "U" ++ write_number 1 n
  else if (-32768 <=? n)%Z && (n <=? 32767)%Z then prefix_if add_prefix "I" ++ write_number 2 n
  else if (- 2 ^ 31 <=? n)%Z && (n <=? 2 ^ 31 - 1)%Z then prefix_if add_prefix "l" ++ write_number 4 n
  else if (- 2 ^ 63 <=? n)%Z && (n <=? 2 ^ 63 - 1)%Z then prefix_if add_prefix "L" ++ write_number 8 n
  else write_ubjson_high n add_prefix.

Definition ubjson_prefix (j : value) : ascii :=
  match j with
  | VNull => "Z"
  | VBool b => if b then "T" else "F"
  | VInteger z =>
      if (-128 <=? z)%Z && (z <=? 127)%Z then "i" else if (0 <=? z)%Z && (z <=? 255)%Z then "U"
      else if (-32768 <=? z)%Z && (z <=? 32767)%Z then "I" else if (- 2 ^ 31 <=? z)%Z && (z <=? 2 ^ 31 - 1)%Z then "l"
      else if (- 2 ^ 63 <=? z)%Z && (z <=? 2 ^ 63 - 1)%Z then "L" else "H"
  | VUnsigned z =>
      if (z <=? 127)%Z then "i" else if (z <=? 255)%Z then "U" else if (z <=? 32767)%Z then "I"
      else if (z <=? 2 ^ 31 - 1)%Z then "l" else if (z <=? 2 ^ 63 - 1)%Z then "L" else "H"
  | VFloat _ => "D"
  | VString _ => "S"
  | VArray _ | VBinary _ => "["
  | VObject _ => "{"
  end.

Section containers.
  Context (use_count use_type : bool).

(** The type that all the values have, and whether their own prefixes are still required; a
    type without a count is a failed assertion. *)
Definition write_type (l : list value) : result (bytes * bool) :=
  match l with
  | front :: _ =>
      if use_type then
        if negb use_count then Stuck
        else
          let first_prefix := ubjson_prefix front in
          if forallb (fun v => (ubjson_prefix v =c first_prefix)) l then Done (write_char "$" ++ write_char first_prefix, false) else Done ([], true)
      else Done ([], true)
  | [] => Done ([], true)
  end.

Definition write_count (n : nat) : bytes := if use_count then write_char "#" ++ write_ubjson_unsigned (Z.of_nat n) true else [].
Definition write_close (c : ascii) : bytes := if use_count then [] else write_char c.

Definition write_ubjson_string (s : bytes) : bytes := write_ubjson_unsigned (Z.of_nat (length s)) true ++ s.

Definition write_ubjson_binary (data : bytes) : result bytes :=
  let! type :=
    match data with
    | _ :: _ => if use_type then if negb use_count then Stuck else Done (write_char "$" ++ write_char "U") else Done []
    | [] => Done []
    end in
  Done (type ++ write_count (length data) ++
        (if use_type then data else flat_map (fun c => write_char "U" ++ write_char c) data) ++ write_close "]").

Section elements.
  Context (write_ubjson : value -> bool -> result bytes).

Fixpoint write_array_elements (prefix_required : bool) (l : list value) : result bytes :=
  match l with
  | [] => Done []
  | el :: l => let! w := write_ubjson el prefix_required in let! ws := write_array_elements prefix_required l in Done (w ++ ws)
  end.
Fixpoint write_object_elements (prefix_required : bool) (l : list (bytes * value)) : result bytes :=
  match l with
  | [] => Done []
  | el :: l =>
      let! w := write_ubjson (snd el) prefix_required in
      let! ws := write_object_elements prefix_required l in Done (write_ubjson_string (fst el) ++ w ++ ws)
  end.

Definition write_ubjson_array (l : list value) : result bytes :=
  let! (type, prefix_required) := write_type l in
  let! w := write_array_elements prefix_required l in
  Done (type ++ write_count (length l) ++ w ++ write_close "]").
Definition write_ubjson_object (l : list (bytes * value)) : result bytes :=
  let! (type, prefix_required) := write_type (map snd l) in
  let! w := write_object_elements prefix_required l in
  Done (type ++ write_count (length l) ++ w ++ write_close "}").
End elements.

Fixpoint write_ubjson (j : value) (add_prefix : bool) : result bytes :=
  match j with
  | VNull => Done (prefix_if add_prefix "Z")
  | VBool b => Done (prefix_if add_prefix (if b then "T" else "F"))
  | VInteger z => Done (write_ubjson_integer z add_prefix)
  | VUnsigned z => Done (write_ubjson_unsigned z add_prefix)
  | VFloat x => Done (write_ubjson_float x add_prefix)
  | VString s => Done (prefix_if add_prefix "S" ++ write_ubjson_string s)
  | VArray l => let! w := write_ubjson_array write_ubjson l in Done (prefix_if add_prefix "[" ++ w)
  | VBinary b => let! w := write_ubjson_binary (bin_data b) in Done (prefix_if add_prefix "[" ++ w)
  | VObject l => let! w := write_ubjson_object write_ubjson l in Done (prefix_if add_prefix "{" ++ w)
  end.
End containers.

Definition to_ubjson (j : value) (use_size use_type : bool) : result bytes := write_ubjson use_size use_type j true.

(** ** The reader *)

Section reader.
  Context {H : Type} `{SizedSAX H}.

Definition is_char (a : ascii) (c : Z) : bool := (c =? code a)%Z.

(** The number behind the type of a length, which may be negative. *)
Definition length_of_type (c : Z) : option (M H Z) :=
  if is_char "U" c then Some (get_number ubjson 1) else if is_char "i" c then Some (get_signed ubjson 1)
  else if is_char "I" c then Some (get_signed ubjson 2) else if is_char "l" c then Some (get_signed ubjson 4)
  else if is_char "L" c then Some (get_signed ubjson 8) else None.

Definition get_ubjson_string (get_char : bool) : M H bytes :=
  (if get_char then let* _ := get in ret tt else ret tt) ;;*
  unexpect_eof ubjson (B "value") ;;*
  let* c := the_current in
  match length_of_type c with
  | Some m => let* len := m in get_string ubjson len
  | None => bad_byte [] ubjson 113 (B "expected length type specification (U, i, I, l, L); last byte: 0x") (B "string")
  end.

(** As a [size_t], into which a negative number wraps; [result] is what there was. *)
Definition get_ubjson_size_value (result : Z) : M H Z :=
  let* c := get_ignore_noop in
  match length_of_type c with
  | Some m => let* number := m in ret (wrapu 64 number)
  | None => bad_byte result ubjson 113 (B "expected length type specification (U, i, I, l, L) after '#'; last byte: 0x") (B "size")
  end.

Definition get_ubjson_size_type : M H (Z * Z) :=
  let* c := get_ignore_noop in
  if is_char "$" c then
    let* type := get in
    unexpect_eof ubjson (B "type") ;;*
    let* c := get_ignore_noop in
    if negb (is_char "#" c) then
      unexpect_eof ubjson (B "value") ;;*
      bad_byte (no_size, type) ubjson 112 (B "expected '#' after type information; last byte: 0x") (B "size")
    else let* size := get_ubjson_size_value no_size in ret (size, type)
  else if is_char "#" c then let* size := get_ubjson_size_value no_size in ret (size, 0)%Z
  else ret (no_size, 0)%Z.

(** The number is the only token of the text. *)
Definition get_ubjson_high_precision_number : M H unit :=
  let* size := get_ubjson_size_value 0 in
  let* number_vector := (fun r s => get_loop (S (length (ia r))) ubjson (B "number") size r s) in
  let scan := scan false (input_fuel number_vector) in
  match scan (mk_lexer number_vector) with
  | None => stuck
  | Some (result_number, number_lexer) =>
      let number_string := JsonLexer.get_token_string number_lexer in
      match scan number_lexer with
      | None => stuck
      | Some (result_remainder, number_lexer) =>
          let invalid :=
            report number_string 115 (exception_message ubjson (B "invalid number text: " ++ JsonLexer.get_token_string number_lexer) (B "high-precision number")) in
          if negb (bool_decide (result_remainder = end_of_input)) then invalid
          else
            match result_number with
            | value_integer => call (sax_number_integer (num_integer number_lexer))
            | value_unsigned => call (sax_number_unsigned (num_unsigned number_lexer))
            | value_float => call (sax_number_float (num_float number_lexer) number_string)
            | _ => invalid
            end
      end
  end.

Definition ubjson_literal (prefix : Z) : option (M H unit) :=
  if is_char "T" prefix then Some (call (sax_boolean true)) else if is_char "F" prefix then Some (call (sax_boolean false))
  else if is_char "Z" prefix then Some (call sax_null) else None.

Definition ubjson_number (prefix : Z) : option (M H unit) :=
  let signed n := Some (let* number := get_signed ubjson n in call (sax_number_integer number)) in
  if is_char "U" prefix then Some (let* number := get_number ubjson 1 in call (sax_number_unsigned number))
  else if is_char "i" prefix then signed 1 else if is_char "I" prefix then signed 2 else if is_char "l" prefix then signed 4 else if is_char "L" prefix then signed 8
  else if is_char "d" prefix then Some (let* number := get_float ubjson in call (sax_number_float number []))
  else if is_char "D" prefix then Some (let* number := get_double ubjson in call (sax_number_float number []))
  else if is_char "H" prefix then Some get_ubjson_high_precision_number
  else None.

Definition ubjson_char : M H unit :=
  get ;;* unexpect_eof ubjson (B "char") ;;*
  let* c := the_current in
  if (127 <? c)%Z then bad_byte tt ubjson 113 (B "byte after 'C' must be in range 0x00..0x7F; last byte: 0x") (B "char")
  else let* s := the_char in call (sax_string [s]).

(** [for (i = 0; i < size; ++i)], which no input bounds. *)
Fixpoint repeat (body : M H unit) (n : positive) : M H unit :=
  match n with
  | 1 => body
  | n~0 => repeat body n ;;* repeat body n
  | n~1 => body ;;* repeat body n ;;* repeat body n
  end%positive.
Definition for_size (size : Z) (body : M H unit) : M H unit := match size with Zpos n => repeat body n | _ => ret tt end.

(** [while (current != close)]. *)
Fixpoint until_loop (fuel : nat) (close : ascii) (body : M H unit) : M H unit :=
  match fuel with
  | 0 => stuck
  | S fuel => let* c := the_current in if is_char close c then ret tt else body ;;* get_ignore_noop ;;* until_loop fuel close body
  end.
Definition until (close : ascii) (body : M H unit) : M H unit := fun r s => until_loop (length (ia r) + 2) close body r s.

Section containers.
  Context (get_ubjson_value : Z -> M H unit).

Definition parse_ubjson_internal (get_char : bool) : M H unit :=
  let* prefix := (if get_char then get_ignore_noop else the_current) in get_ubjson_value prefix.

Definition get_ubjson_array : M H unit :=
  let* (size, type) := get_ubjson_size_type in
  if negb (size =? no_size)%Z then
    call_sized (sax_start_array_of size) ;;*
    (if negb (type =? 0)%Z then
       if negb (is_char "N" type) then for_size size (get_ubjson_value type) else ret tt
     else for_size size (parse_ubjson_internal true)) ;;*
    call sax_end_array
  else call_sized (sax_start_array_of no_size) ;;* until "]" (parse_ubjson_internal false) ;;* call sax_end_array.

Definition ubjson_member (get_char : bool) (value : M H unit) : M H unit :=
  let* key := get_ubjson_string get_char in call (sax_key key) ;;* value.

Definition get_ubjson_object : M H unit :=
  let* (size, type) := get_ubjson_size_type in
  if negb (size =? no_size)%Z then
    call_sized (sax_start_object_of size) ;;*
    (if negb (type =? 0)%Z then for_size size (ubjson_member true (get_ubjson_value type))
     else for_size size (ubjson_member true (parse_ubjson_internal true))) ;;*
    call sax_end_object
  else
    call_sized (sax_start_object_of no_size) ;;* until "}" (ubjson_member false (parse_ubjson_internal true)) ;;* call sax_end_object.

(** The switch on the type. *)
Definition ubjson_value (prefix : Z) : M H unit :=
  if (prefix =? -1)%Z then unexpect_eof ubjson (B "value")
  else
    match ubjson_literal prefix, ubjson_number prefix with
    | Some m, _ | None, Some m => m
    | None, None =>
        if is_char "C" prefix then ubjson_char
        else if is_char "S" prefix then let* s := get_ubjson_string true in call (sax_string s)
        else if is_char "[" prefix then get_ubjson_array
        else if is_char "{" prefix then get_ubjson_object
        else bad_byte tt ubjson 112 (B "invalid byte: 0x") (B "value")
    end.
End containers.

Fixpoint get_ubjson_value (fuel : nat) (prefix : Z) : M H unit :=
  match fuel with 0 => stuck | S fuel => ubjson_value (get_ubjson_value fuel) prefix end.
End reader.

Definition from_ubjson (strict allow_exceptions : bool) (input : bytes) : option parse_result :=
  from_binary allow_exceptions input (sax_parse ubjson strict (parse_ubjson_internal (get_ubjson_value (input_fuel input)) true)).

Definition demo_ubjson_value : value :=
  VObject [(B "a", VArray [VInteger (-300); VInteger 70000; VInteger (-5); VInteger 7000000000; VUnsigned (2 ^ 63); VUnsigned 200; VFloat (S754_finite false 6755399441055744 (-52))]);
           (B "b", VArray [VArray [VInteger 1]; VArray [VNull; VNull]; VArray []]); (B "c", VArray [VString (B "x"); VBool true; VObject [(B "k", VBool false)]])].
Example demo_ubjson :
  map (fun '(c, t) => let! w := to_ubjson demo_ubjson_value c t in Done (from_ubjson true true w)) [(false, false); (true, false); (true, true)] =
  List.repeat (Done (Some (Parsed demo_ubjson_value))) 3.
Proof. vm_compute. reflexivity. Qed.
