(* ===== verification/UbjsonTheory.v ===== *)
(** * UBJSON: theorems

    [from_ubjson] reads what [to_ubjson] wrote, with and without counts and types of containers;
    every input is read to an end. *)
From S2P Require Import Prelude CLib Json JsonLexer JsonParser JsonText JsonReading JsonComplete JsonValue BinaryFloat FloatTheory Binary BinaryTheory Cbor CborTheory MsgPack MsgPackTheory Bson BsonTheory Ubjson.
From Stdlib Require Import SpecFloat.

(** ** Prefixes *)

(** A value with its prefix. *)
Lemma write_prefix use_count use_type v :
  write_ubjson use_count use_type v true = let! w := write_ubjson use_count use_type v false in Done (ubjson_prefix v :: w).
Proof.
  destruct v as [|b|z|z|x|s|b|l|l]; cbn [write_ubjson ubjson_prefix prefix_if]; try done.
  - cbn [rbind]. f_equal. unfold write_ubjson_integer, write_ubjson_high, prefix_if. by repeat case_test.
  - cbn [rbind]. f_equal. unfold write_ubjson_unsigned, write_ubjson_below, write_ubjson_high, prefix_if. by repeat case_test.
  - by destruct (write_ubjson_binary _ _ _).
  - by destruct (write_ubjson_array _ _ _ _).
  - by destruct (write_ubjson_object _ _ _ _).
Qed.

(** No prefix is one of the characters that mean something else. *)
Definition plain_prefix (c : ascii) : bool := negb (existsb (Ascii.eqb c) ["N"; "]"; "}"; "$"; "#"; NUL]%char).

Lemma prefix_plain v : plain_prefix (ubjson_prefix v) = true.
Proof. destruct v as [|b|z|z|x|s|b|l|l]; cbn [ubjson_prefix]; repeat case_test; done. Qed.

Lemma plain_facts c :
  plain_prefix c = true -> is_noop c = false /\ is_char "N" (code c) = false /\ is_char "]" (code c) = false /\ is_char "}" (code c) = false /\
    is_char "$" (code c) = false /\ is_char "#" (code c) = false /\ (code c =? 0)%Z = false.
Proof.
  unfold plain_prefix. cbn [existsb]. rewrite orb_false_r. intros Hc. apply negb_true_iff in Hc. to_prop.
  assert (forall a, c <> a -> (code c =? code a)%Z = false) as Hne by (intros a Ha; apply Z.eqb_neq; intros He; by apply Ha, code_inj).
  unfold is_noop, is_char. split_and!; by (apply Hne || apply (Hne "N"%char) || apply (Hne NUL)).
Qed.

(** ** Computations behind [get_ignore_noop] *)

Lemma get_ignore_noop_cons {H} c w r (s : H) :
  is_noop c = false -> ia r = c :: w -> exists r', get_ignore_noop r s = Some (Val (code c), r', s) /\ current r' = Some c /\ ia r' = w.
Proof.
  intros Hc Hr. destruct (get_ignore_noop_first r s) as (r' & Hg & Hcur & Hi). rewrite Hr in Hcur, Hi. unfold drop_noop in *. cbn [drop_while] in *. rewrite Hc in *.
  exists r'. cbn in Hcur, Hi. split_and!; [|done..]. rewrite Hg. unfold current_int. by rewrite Hcur.
Qed.

Section consumes.
  Context {H : Type} `{SizedSAX H}.

Lemma consumes_noop {A} c (k : Z -> M H A) w a : is_noop c = false -> consumes_from c (k (code c)) w a -> consumes (bindM get_ignore_noop k) (c :: w) a.
Proof.
  intros Hc Hk r s rest Hr. destruct (get_ignore_noop_cons c (w ++ rest) r s Hc Hr) as (r1 & Hg & Hcur & Hi).
  rewrite (bind_val _ _ _ _ _ _ _ Hg). by apply Hk.
Qed.

Lemma consumes_eof {A} c format context (m : M H A) w a : consumes_from c m w a -> consumes_from c (unexpect_eof format context ;;* m) w a.
Proof.
  intros Hm r s rest Hc Hr. assert (unexpect_eof format context r s = Some (Val tt, r, s)) as He by (unfold unexpect_eof; by rewrite Hc).
  rewrite (bind_val _ _ _ _ _ _ _ He). by apply Hm.
Qed.

Lemma consumes_skip {A C} c (x : C) (k : C -> M H A) w a : consumes_from c (k x) w a -> consumes_from c (bindM (ret x) k) w a.
Proof. done. Qed.

Lemma consumes_current {A} c (k : Z -> M H A) w a : consumes_from c (k (code c)) w a -> consumes_from c (bindM the_current k) w a.
Proof.
  intros Hm r s rest Hc Hr. assert (the_current r s = Some (Val (code c), r, s)) as He by (unfold the_current, current_int; by rewrite Hc).
  rewrite (bind_val _ _ _ _ _ _ _ He). by apply Hm.
Qed.

(** ** Lengths and strings *)

Lemma below_spec n high :
  (0 <= n < 2 ^ 63)%Z -> exists c p m, write_ubjson_below n true high = c :: p /\ length_of_type (H := H) (code c) = Some m /\ consumes m p n /\ plain_prefix c = true.
Proof.
  intros Hn. unfold write_ubjson_below, prefix_if. repeat case_test; to_prop; try lia;
    (do 3 eexists; split; [reflexivity|]; split; [reflexivity|]; split; [|reflexivity]);
    first [apply get_signed_consumes; [cbn; lia|lia]|apply get_number_consumes; cbn; lia].
Qed.

Lemma size_value_consumes n x high : (0 <= n < 2 ^ 63)%Z -> consumes (get_ubjson_size_value (H := H) x) (write_ubjson_below n true high) n.
Proof.
  intros Hn. destruct (below_spec n high Hn) as (c & p & m & Hw & Hm & Hc & Hp). rewrite Hw.
  apply consumes_noop; [by apply plain_facts|]. rewrite Hm. apply consumes_any. rewrite <- (app_nil_r p). eapply consumes_bind; [exact Hc|].
  replace n with (wrapu 64 n) at 2; [apply consumes_ret|]. unfold wrapu. rewrite Z.mod_small; lia.
Qed.

Lemma ubjson_string_from s :
  (Z.of_nat (length s) < 2 ^ 63)%Z ->
  exists c p, write_ubjson_string s = c :: p /\ plain_prefix c = true /\ consumes_from c (get_ubjson_string (H := H) false) p s.
Proof.
  intros Hs. destruct (below_spec (Z.of_nat (length s)) (write_ubjson_high (Z.of_nat (length s)) true) ltac:(lia)) as (c & p & m & Hw & Hm & Hc & Hp).
  exists c, (p ++ s). unfold write_ubjson_string, write_ubjson_unsigned. rewrite Hw. split; [done|]. split; [done|].
  unfold get_ubjson_string. apply consumes_skip, consumes_eof, consumes_current. rewrite Hm. apply consumes_any. eapply consumes_bind; [exact Hc|apply get_string_consumes].
Qed.

Lemma get_ubjson_string_consumes s : (Z.of_nat (length s) < 2 ^ 63)%Z -> consumes (get_ubjson_string (H := H) true) (write_ubjson_string s) s.
Proof.
  intros Hs. destruct (ubjson_string_from s Hs) as (c & p & -> & _ & Hc). intros r st rest Hr.
  destruct (get_cons c (p ++ rest) r st Hr) as (r1 & Hg & Hr1 & Hcur). destruct (Hc r1 st rest Hcur Hr1) as (r2 & H2 & Hr2). exists r2. split; [|done].
  rewrite <- H2. unfold get_ubjson_string. assert ((let* _ := get in ret tt) r st = Some (Val tt, r1, st)) as Ht by (by rewrite (bind_val _ _ _ _ _ _ _ Hg)).
  by rewrite (bind_val _ _ _ _ _ _ _ Ht).
Qed.
End consumes.

(** ** Numbers as text *)

Lemma scan_dec z : (0 <= z < 2 ^ 64)%Z -> exists l l',
  scan false (input_fuel (dec z)) (mk_lexer (dec z)) = Some (value_unsigned, l) /\
  scan false (input_fuel (dec z)) l = Some (end_of_input, l') /\ num_unsigned l' = z.
Proof.
  intros Hz. destruct (dec z) as [|c ds] eqn:Hd. { unfold dec in Hd. destruct (z <? 0)%Z; [done|by apply dec_nat_nonnil in Hd]. }
  destruct (dec_first z c ds Hd) as [Hc Hscan]. unfold input_fuel. set (lf := length (c :: ds) + 2).
  destruct (scan_start false lf (mk_lexer (c :: ds)) [] c ds) as (l1 & Hs1 & Hcur & Hr1 & Hj & Ht1); [done|done|done|done|unfold lf; cbn; lia|].
  destruct (scan_number_dec lf l1 c ds z []) as (l & Hs & Hnum & Hr & Hok & Ht); try done; [lia|by rewrite app_nil_r|unfold lf; cbn; lia|].
  unfold integer_value in *. rewrite (proj2 (Z.ltb_ge z 0)) in * by lia. cbn [number_token number_kept] in *. exists l, (JsonLexer.get l). split; [by rewrite Hs1, Hscan|].
  destruct (JsonLexer.get_end l Hok Hr) as (Hend & _). split.
  - unfold scan. rewrite (proj2 (Nat.eqb_neq _ 0)) by (unfold JsonLexer.total in Ht; lia). cbn [negb]. unfold lf. cbn [length Nat.add skip_whitespace]. rewrite Hend.
    change (existsb (Z.eqb EOF) [32; 9; 10; 13]%Z) with false. cbv iota. change (scan_token (S (length ds + 2)) (JsonLexer.get l) = Some (end_of_input, JsonLexer.get l)).
    unfold scan_token. by rewrite Hend.
  - rewrite <- Hnum. unfold JsonLexer.get. by destruct (if next_unget l then _ else _).
Qed.

(** ** Values that are no containers *)

Abbreviation parse := (get_ubjson_value (H := dom_parser)).

(** What UBJSON makes of a value: the width of a number tells its kind; a byte array is an
    array of numbers. *)
Definition ubjson_integer (z : Z) : value := if (128 <=? z)%Z && (z <=? 255)%Z || (2 ^ 63 <=? z)%Z then VUnsigned z else VInteger z.
Fixpoint ubjson_reread (v : value) : value :=
  match v with
  | VInteger z | VUnsigned z => ubjson_integer z
  | VBinary b => VArray (map (fun c => VUnsigned (code c)) (bin_data b))
  | VArray l => VArray (map ubjson_reread l)
  | VObject l => VObject (map (fun kv => (fst kv, ubjson_reread (snd kv))) l)
  | _ => v
  end.

(** Containers of at most the [max_size] of those of the program. *)
Definition ubjson_limits : limits := MkLimits array_max_size array_max_size object_max_size (2 ^ 64 - 1).

Lemma reads_last {A} (m : M dom_parser A) (k : A -> M dom_parser unit) w a v : consumes m w a -> reads (k a) [] v -> reads (bindM m k) w v.
Proof. intros Hm Hk. rewrite <- (app_nil_r w). by eapply reads_bind. Qed.

Lemma high_precision_reads z high :
  (2 ^ 63 <= z < 2 ^ 64)%Z ->
  reads get_ubjson_high_precision_number (write_ubjson_below (Z.of_nat (length (dec z))) true high ++ dec z) (VUnsigned z).
Proof.
  intros Hz. assert (Z.of_nat (length (dec z)) <= 20)%Z as Hlen.
  { unfold dec. rewrite (proj2 (Z.ltb_ge z 0)) by lia. pose proof (dec_nat_length_bounds z 20). lia. }
  eapply reads_bind; [apply size_value_consumes; lia|]. eapply reads_last.
  { intros r s rest Hr. apply get_loop_consumes; [|exact Hr]. rewrite Hr, length_app. lia. }
  destruct (scan_dec z ltac:(lia)) as (l & l' & Hs & Hs' & Hn). cbv beta zeta. rewrite Hs, Hs'. rewrite bool_decide_true by done. cbn [negb].
  apply reads_scalar. by rewrite Hn.
Qed.

(** Numbers, the prefix of which has been read. *)
Lemma small_integer z : (- 2 ^ 63 <= z < 128)%Z \/ (256 <= z < 2 ^ 63)%Z -> ubjson_integer z = VInteger z.
Proof. intros Hz. unfold ubjson_integer. rewrite (proj2 (Z.leb_gt (2 ^ 63) z)), orb_false_r by lia. destruct (_ && _) eqn:He; to_prop; [lia|done]. Qed.
Lemma large_integer z : (128 <= z <= 255)%Z \/ (2 ^ 63 <= z)%Z -> ubjson_integer z = VUnsigned z.
Proof. intros Hz. unfold ubjson_integer. destruct (_ || _) eqn:He; [done|]. apply orb_false_iff in He as [He ?]. apply andb_false_iff in He. lia. Qed.

Lemma signed_reads fuel c n z :
  ubjson_number (H := dom_parser) (code c) = Some (let* number := get_signed ubjson n in call (sax_number_integer number)) ->
  ubjson_literal (H := dom_parser) (code c) = None -> (- 2 ^ (8 * Z.of_nat n - 1) <= z < 2 ^ (8 * Z.of_nat n - 1))%Z -> 0 < n ->
  reads (parse (S fuel) (code c)) (write_number n z) (VInteger z).
Proof.
  intros Hn Hl Hz Hpos. cbn [get_ubjson_value]. unfold ubjson_value. rewrite (proj2 (Z.eqb_neq _ _)) by (pose proof (code_range c); lia). rewrite Hl, Hn.
  eapply (reads_then _ sax_number_integer); [by apply get_signed_consumes|done].
Qed.

Lemma byte_reads fuel z : (0 <= z < 256)%Z -> reads (parse (S fuel) (code "U")) (write_number 1 z) (VUnsigned z).
Proof.
  intros Hz. change (reads (let* number := get_number ubjson 1 in call (sax_number_unsigned number)) (write_number 1 z) (VUnsigned z)).
  eapply reads_then; [by apply get_number_consumes|done].
Qed.

Lemma unsigned_reads fuel z : (0 <= z < 2 ^ 64)%Z ->
  reads (parse (S fuel) (code (ubjson_prefix (VUnsigned z)))) (write_ubjson_unsigned z false) (ubjson_integer z).
Proof.
  intros Hz. unfold write_ubjson_unsigned, write_ubjson_below, ubjson_prefix, prefix_if. cbn [app]. repeat case_test; to_prop; try lia;
    first [rewrite small_integer by lia; apply signed_reads; [done..|cbn; lia|lia]|rewrite large_integer by lia].
  - by apply byte_reads; lia.
  - unfold write_ubjson_high, prefix_if. cbn [app]. apply high_precision_reads. lia.
Qed.

Lemma integer_reads fuel z : (- 2 ^ 63 <= z < 2 ^ 63)%Z ->
  reads (parse (S fuel) (code (ubjson_prefix (VInteger z)))) (write_ubjson_integer z false) (ubjson_integer z).
Proof.
  intros Hz. unfold write_ubjson_integer, ubjson_prefix, prefix_if. cbn [app]. repeat case_test; to_prop; try lia;
    first [rewrite small_integer by lia; apply signed_reads; [done..|cbn; lia|lia]|rewrite large_integer by lia].
  apply byte_reads. lia.
Qed.

(** ** Loops *)

Section loops.
  Context {H : Type} `{SizedSAX H} (body : M H unit).

Fixpoint times (n : nat) : M H unit := match n with 0 => ret tt | S n => body ;;* times n end.

Lemma bindM_assoc {A C D} (m : M H A) (k : A -> M H C) (h : C -> M H D) r s : bindM (bindM m k) h r s = bindM m (fun a => bindM (k a) h) r s.
Proof. unfold bindM. destruct (m r s) as [[[[a|e] r1] s1]|]; done. Qed.

Lemma bind_ext {A C} (m : M H A) (k k' : A -> M H C) r s : (forall a r s, k a r s = k' a r s) -> bindM m k r s = bindM m k' r s.
Proof. intros Hk. unfold bindM. destruct (m r s) as [[[[a|e] r1] s1]|]; cbn [mbind option_bind]; auto. Qed.

Lemma times_add a b r s : times (a + b) r s = bindM (times a) (fun _ => times b) r s.
Proof.
  revert r s. induction a as [|a IH]; intros r s; [done|]. cbn [times Nat.add]. rewrite bindM_assoc. by apply bind_ext.
Qed.

Lemma repeat_times n r s : repeat body n r s = times (Pos.to_nat n) r s.
Proof.
  revert r s. induction n as [n IH|n IH|]; intros r s; cbn [repeat].
  - rewrite Pos2Nat.inj_xI. replace (S (2 * Pos.to_nat n)) with (S (Pos.to_nat n + Pos.to_nat n)) by lia. cbn [times]. apply bind_ext. intros _ r1 s1.
    rewrite times_add. unfold bindM at 1 2. rewrite IH. destruct (times _ r1 s1) as [[[[a|e] r2] s2]|]; cbn [mbind option_bind]; auto.
  - rewrite Pos2Nat.inj_xO. replace (2 * Pos.to_nat n) with (Pos.to_nat n + Pos.to_nat n) by lia.
    rewrite times_add. unfold bindM. rewrite IH. destruct (times _ r s) as [[[[a|e] r2] s2]|]; cbn [mbind option_bind]; auto.
  - change (Pos.to_nat 1) with 1. cbn [times]. unfold bindM. destruct (body r s) as [[[[[]|e] r1] s1]|]; done.
Qed.

Lemma for_len_times n r s : for_len body n (Z.of_nat n) r s = times n r s.
Proof.
  revert r s. induction n as [|n IH]; intros r s; [done|]. cbn [for_len times]. rewrite (proj2 (Z.leb_gt _ _)) by lia.
  apply bind_ext. intros _ r1 s1. rewrite <- IH. by replace (Z.of_nat (S n) - 1)%Z with (Z.of_nat n) by lia.
Qed.

(** The loop over a size is the loop with fuel of the other formats. *)
Lemma for_size_len n r s : for_size (Z.of_nat n) body r s = for_len body n (Z.of_nat n) r s.
Proof.
  rewrite for_len_times. destruct n as [|n]; [done|].
  change (for_size (Z.of_nat (S n)) body r s) with (repeat body (Pos.of_succ_nat n) r s). by rewrite repeat_times, SuccNat2Pos.id_succ.
Qed.
End loops.

(** Elements behind characters that have been read: the loop up to the closing character. *)
Lemma until_next close body r d c r1 d1 r2 c2 w2 fuel :
  current r = Some c -> is_char close (code c) = false -> body r d = Some (Val tt, r1, d1) -> ia r1 = c2 :: w2 -> is_noop c2 = false ->
  (get_ignore_noop r1 d1 = Some (Val (code c2), r2, d1)) ->
  until_loop (H := dom_parser) (S fuel) close body r d = until_loop fuel close body r2 d1.
Proof.
  intros Hc Hcl Hb Hi Hn Hg. cbn [until_loop]. assert (the_current r d = Some (Val (code c), r, d)) as Ht by (unfold the_current, current_int; by rewrite Hc).
  rewrite (bind_val _ _ _ _ _ _ _ Ht), Hcl, (bind_val _ _ _ _ _ _ _ Hb). by rewrite (bind_val _ _ _ _ _ _ _ Hg).
Qed.

Lemma until_end close body r (d : dom_parser) fuel : current r = Some close -> until_loop (S fuel) close body r d = Some (Val tt, r, d).
Proof.
  intros Hc. cbn [until_loop]. assert (the_current r d = Some (Val (code close), r, d)) as Ht by (unfold the_current, current_int; by rewrite Hc).
  rewrite (bind_val _ _ _ _ _ _ _ Ht). unfold is_char. by rewrite Z.eqb_refl.
Qed.

Section arrays.
  Context (fuel : nat) {A : Type} (prefix : A -> ascii) (body : A -> bytes) (val : A -> value).
  Context (Hplain : forall x, plain_prefix (prefix x) = true).

Definition with_prefix (x : A) : bytes := prefix x :: body x.
Definition element_ok (x : A) : Prop := reads (parse fuel (code (prefix x))) (body x) (val x).

Lemma until_elements l : Forall element_ok l -> forall f r d st q rs pre rest c w,
  flat_map with_prefix l ++ "]"%char :: rest = c :: w -> current r = Some c -> ia r = w -> length l < f ->
  dom_ok (true :: st) false d -> inside d q rs (VArray pre) ->
  exists r' d', until_loop f "]" (parse_ubjson_internal (parse fuel) false) r d = Some (Val tt, r', d') /\ ia r' = rest /\ grown d d' q (VArray (pre ++ map val l)).
Proof.
  induction 1 as [|x l Hx _ IH]; intros f r d st q rs pre rest c w Hw Hc Hi Hf Hd Hin; (destruct f as [|f]; [lia|]); cbn [flat_map map app with_prefix] in *.
  - injection Hw as <- <-. exists r, d. split; [by apply until_end|]. split; [done|]. rewrite app_nil_r. by eapply grown_same.
  - injection Hw as <- <-. rewrite <- app_assoc in Hi. destruct (Hx r d _ _ Hi (dom_array_next st d Hd)) as (r1 & d1 & H1 & Hr1 & Hh).
    pose proof (handled_ok _ _ _ _ (dom_array_next st d Hd) Hh) as Hd1. pose proof (handled_element _ _ _ _ _ _ Hin Hh) as Hg.
    assert (exists c2 w2, flat_map with_prefix l ++ "]"%char :: rest = c2 :: w2 /\ is_noop c2 = false) as (c2 & w2 & Hw2 & Hn2).
    { destruct l as [|y l]; [by do 2 eexists|]. do 2 eexists. split; [reflexivity|]. by apply plain_facts. }
    rewrite Hw2 in Hr1. destruct (get_ignore_noop_cons c2 w2 r1 d1 Hn2 Hr1) as (r2 & Hg2 & Hc2 & Hi2).
    destruct (IH f r2 d1 st q rs _ rest c2 w2 Hw2 Hc2 Hi2 ltac:(cbn in Hf; lia) Hd1 (grown_inside _ _ _ _ _ _ Hin Hg)) as (r3 & d3 & H3 & Hr3 & Hg3).
    exists r3, d3. split; [|split; [done|]].
    + rewrite <- H3. eapply until_next; [done|by apply plain_facts| |done..]. unfold parse_ubjson_internal.
      assert (the_current r d = Some (Val (code (prefix x)), r, d)) as Ht by (unfold the_current, current_int; by rewrite Hc).
      by rewrite (bind_val _ _ _ _ _ _ _ Ht).
    + rewrite <- app_assoc in Hg3. by eapply grown_trans.
Qed.

(** The same elements behind a count: with their prefixes, or without. *)
Lemma prefixed_element x : element_ok x -> reads (parse_ubjson_internal (parse fuel) true) (with_prefix x) (val x).
Proof.
  intros Hx r d st rest Hr Hd. unfold with_prefix in Hr. cbn [app] in Hr.
  destruct (get_ignore_noop_cons (prefix x) (body x ++ rest) r d ltac:(by apply plain_facts) Hr) as (r1 & Hg & _ & Hi).
  unfold parse_ubjson_internal. rewrite (bind_val _ _ _ _ _ _ _ Hg). by eapply Hx.
Qed.

Lemma sized_elements m (w : A -> bytes) l : Forall (fun x => reads m (w x) (val x)) l ->
  forall r d st q rs rest, ia r = flat_map w l ++ rest -> dom_ok (true :: st) false d -> inside d q rs (VArray []) ->
    exists r' d', for_size (Z.of_nat (length l)) m r d = Some (Val tt, r', d') /\ ia r' = rest /\ grown d d' q (VArray (map val l)).
Proof.
  intros Hl r d st q rs rest Hr Hd Hin. destruct (for_elements m w val l (length l) Hl ltac:(lia) r d st q rs [] rest Hr Hd Hin) as (r' & d' & Heq & Hrest).
  exists r', d'. split; [|done]. by rewrite for_size_len.
Qed.
End arrays.

(** ** Types and counts of containers *)

Lemma typed_head {H} `{SizedSAX H} c n high :
  (0 <= n < 2 ^ 63)%Z ->
  consumes (get_ubjson_size_type (H := H)) ("$"%char :: c :: "#"%char :: write_ubjson_below n true high) (n, code c).
Proof.
  intros Hn. apply consumes_noop; [done|]. change (is_char "$" (code "$")) with true. cbv iota. apply consumes_any, consumes_get, consumes_eof, consumes_any.
  apply consumes_noop; [done|]. change (is_char "#" (code "#")) with true. cbn [negb]. cbv iota. by apply consumes_any, (consumes_map _ (fun size => (size, code c))), size_value_consumes.
Qed.

Lemma counted_head {H} `{SizedSAX H} n high :
  (0 <= n < 2 ^ 63)%Z -> consumes (get_ubjson_size_type (H := H)) ("#"%char :: write_ubjson_below n true high) (n, 0%Z).
Proof.
  intros Hn. apply consumes_noop; [done|]. change (is_char "$" (code "#")) with false. change (is_char "#" (code "#")) with true. cbv iota.
  by apply consumes_any, (consumes_map _ (fun size => (size, 0%Z))), size_value_consumes.
Qed.

(** Without them, the first character of what is inside has been read. *)
Definition inner (c : ascii) : bool := negb (existsb (Ascii.eqb c) ["N"; "$"; "#"]%char).
Lemma plain_inner c : plain_prefix c = true -> inner c = true.
Proof. unfold plain_prefix, inner. cbn [existsb]. rewrite !orb_false_r. intros Hc. apply negb_true_iff in Hc. apply negb_true_iff. to_prop. by rewrite !(proj2 (Ascii.eqb_neq _ _)) by done. Qed.

Lemma no_head c w r (d : dom_parser) : inner c = true -> ia r = c :: w ->
  exists r', get_ubjson_size_type r d = Some (Val (no_size, 0%Z), r', d) /\ current r' = Some c /\ ia r' = w.
Proof.
  intros Hc Hr. unfold inner in Hc. cbn [existsb] in Hc. rewrite orb_false_r in Hc. apply negb_true_iff in Hc. to_prop.
  assert (forall a, c <> a -> (code c =? code a)%Z = false) as Hne by (intros a Ha; apply Z.eqb_neq; intros He; by apply Ha, code_inj).
  destruct (get_ignore_noop_cons c w r d ltac:(by apply (Hne "N"%char)) Hr) as (r1 & Hg & Hcur & Hi). exists r1. split; [|done].
  unfold get_ubjson_size_type. rewrite (bind_val _ _ _ _ _ _ _ Hg). unfold is_char. by rewrite !Hne by done.
Qed.

Section array.
  Context (fuel : nat) {A : Type} (prefix : A -> ascii) (body : A -> bytes) (val : A -> value) (l : list A).
  Context (Hplain : forall x, plain_prefix (prefix x) = true) (Hl : Forall (element_ok fuel prefix body val) l)
    (Hmax : (Z.of_nat (length l) <= array_max_size)%Z).

Lemma array_sizes_apart : (array_max_size < 2 ^ 63)%Z /\ (array_max_size < no_size)%Z.
Proof. done. Qed.

Lemma array_typed c high : Forall (fun x => prefix x = c) l -> l <> [] ->
  reads (get_ubjson_array (parse fuel)) (("$"%char :: c :: "#"%char :: write_ubjson_below (Z.of_nat (length l)) true high) ++ flat_map body l) (VArray (map val l)).
Proof.
  intros Hc Hne. destruct array_sizes_apart as [H1 H2]. assert (plain_prefix c = true) as Hp.
  { destruct l as [|x l']; [done|]. apply Forall_cons in Hc as [<- _]. apply Hplain. }
  destruct (plain_facts c Hp) as (_ & HN & _ & _ & _ & _ & H0). eapply reads_bind; [apply typed_head; lia|]. cbv beta iota.
  rewrite (proj2 (Z.eqb_neq _ no_size)) by lia. rewrite H0, HN. cbn [negb]. apply (start_end_reads true (VArray []) (VArray (map val l))); [done|lia|].
  apply sized_elements. rewrite Forall_forall in *. intros x Hx. rewrite <- (Hc x Hx). by apply Hl.
Qed.

Lemma array_counted high :
  reads (get_ubjson_array (parse fuel)) (("#"%char :: write_ubjson_below (Z.of_nat (length l)) true high) ++ flat_map (with_prefix prefix body) l) (VArray (map val l)).
Proof.
  destruct array_sizes_apart as [H1 H2]. eapply reads_bind; [apply counted_head; lia|]. cbv beta iota.
  rewrite (proj2 (Z.eqb_neq _ no_size)) by lia. change (0 =? 0)%Z with true. cbn [negb]. apply (start_end_reads true (VArray []) (VArray (map val l))); [done|lia|].
  apply sized_elements. eapply Forall_impl; [exact Hl|]. intros x. by apply prefixed_element.
Qed.

Lemma array_plain : reads (get_ubjson_array (parse fuel)) (flat_map (with_prefix prefix body) l ++ ["]"%char]) (VArray (map val l)).
Proof.
  intros r d st rest Hr Hd. rewrite <- app_assoc in Hr. cbn [app] in Hr.
  assert (exists c w, flat_map (with_prefix prefix body) l ++ "]"%char :: rest = c :: w /\ inner c = true) as (c & w & Hw & Hc).
  { destruct l as [|x l']; [by do 2 eexists|]. do 2 eexists. split; [reflexivity|]. by apply plain_inner. }
  rewrite Hw in Hr. destruct (no_head c w r d Hc Hr) as (r1 & H1 & Hcur & Hi). unfold get_ubjson_array. rewrite (bind_val _ _ _ _ _ _ _ H1). cbv beta iota.
  change (no_size =? no_size)%Z with true. cbn [negb]. cbv iota. eapply (start_end_at true (VArray []) (VArray (map val l))); [done|by right|exact Hd|].
  intros d1 q rs Hd1 Hin. unfold until. eapply (until_elements fuel prefix body val Hplain l Hl) with (pre := []); try done.
  assert (length l <= length (flat_map (with_prefix prefix body) l)) as Hle by (apply flat_map_length_ge; intros x; cbn; lia).
  assert (length (flat_map (with_prefix prefix body) l ++ "]"%char :: rest) = S (length w)) as Hlw by (by rewrite Hw).
  rewrite length_app in Hlw. cbn [length] in Hlw. rewrite Hi. lia.
Qed.
End array.

Section object.
  Context (fuel : nat) (prefix : value -> ascii) (body : value -> bytes) (val : value -> value) (l : list (bytes * value)).
  Context (Hplain : forall x, plain_prefix (prefix x) = true).

Definition member (w : value -> bytes) (kv : bytes * value) : bytes := write_ubjson_string (fst kv) ++ w (snd kv).
Definition member_ok (kv : bytes * value) : Prop := element_ok fuel prefix body val (snd kv) /\ (Z.of_nat (length (fst kv)) < 2 ^ 63)%Z.

Lemma ubjson_member_reads m w kv :
  (Z.of_nat (length (fst kv)) < 2 ^ 63)%Z -> reads m (w (snd kv)) (val (snd kv)) -> reads_member (ubjson_member true m) (member w kv) (fst kv) (val (snd kv)).
Proof. intros Hk Hr. apply reads_member_intro; [by apply get_ubjson_string_consumes|done]. Qed.

(** A member whose first character has been read. *)
Lemma ubjson_member_from kv :
  member_ok kv -> exists c p, member (with_prefix prefix body) kv = c :: p /\ plain_prefix c = true /\
    forall r d st q rs pre rest, current r = Some c -> ia r = p ++ rest -> dom_ok (false :: st) false d -> inside d q rs (VObject pre) ->
      Forall (fun kv' => bytes_lt (fst kv') (fst kv) = true) pre ->
      exists r' d', ubjson_member false (parse_ubjson_internal (parse fuel) true) r d = Some (Val tt, r', d') /\ ia r' = rest /\ dom_ok (false :: st) false d' /\
        grown d d' q (VObject (pre ++ [(fst kv, val (snd kv))])).
Proof.
  intros [Hv Hk]. destruct (ubjson_string_from (H := dom_parser) (fst kv) Hk) as (c & p & Hs & Hp & Hc).
  exists c, (p ++ with_prefix prefix body (snd kv)). unfold member. rewrite Hs. split; [done|]. split; [done|].
  intros r d st q rs pre rest Hcur Hi Hd Hin Hpre. rewrite <- app_assoc in Hi.
  destruct (Hc r d _ Hcur Hi) as (r1 & H1 & Hr1). unfold ubjson_member. rewrite (bind_val _ _ _ _ _ _ _ H1).
  (* Behind the key it is a member whose key takes no bytes. *)
  destruct (reads_member_intro (ret (fst kv)) (parse_ubjson_internal (parse fuel) true) [] (with_prefix prefix body (snd kv)) (fst kv) (val (snd kv))
    (consumes_ret _) ltac:(by apply prefixed_element) r1 d st q rs pre rest Hr1 Hd Hin Hpre) as (r2 & d2 & H2 & Hrest).
  exists r2, d2. split; [exact H2|exact Hrest].
Qed.

Lemma until_members l' : Forall member_ok l' -> increasing (map fst l') = true -> forall f r d st q rs pre rest c w,
  flat_map (member (with_prefix prefix body)) l' ++ "}"%char :: rest = c :: w -> current r = Some c -> ia r = w -> length l' < f ->
  dom_ok (false :: st) false d -> inside d q rs (VObject pre) -> Forall (fun kv => Forall (fun kv' => bytes_lt (fst kv) (fst kv') = true) l') pre ->
  exists r' d', until_loop f "}" (ubjson_member false (parse_ubjson_internal (parse fuel) true)) r d = Some (Val tt, r', d') /\ ia r' = rest /\
    grown d d' q (VObject (pre ++ map (fun kv => (fst kv, val (snd kv))) l')).
Proof.
  induction 1 as [|kv l' Hx Hl' IH]; intros Hinc f r d st q rs pre rest c w Hw Hc Hi Hf Hd Hin Hpre; (destruct f as [|f]; [lia|]); cbn [flat_map map app increasing] in *.
  - injection Hw as <- <-. exists r, d. split; [by apply until_end|]. split; [done|]. rewrite app_nil_r. by eapply grown_same.
  - apply andb_true_iff in Hinc as [Hlt Hinc]. destruct (ubjson_member_from kv Hx) as (c1 & p & Hm & Hp & Hread). rewrite Hm in Hw. cbn [app] in Hw.
    injection Hw as <- <-. rewrite <- app_assoc in Hi.
    assert (Forall (fun kv' => bytes_lt (fst kv') (fst kv) = true) pre) as Hprek by (eapply Forall_impl; [exact Hpre|]; intros kv' Hkv; by apply Forall_cons in Hkv as [? _]).
    destruct (Hread r d st q rs pre _ Hc Hi Hd Hin Hprek) as (r1 & d1 & H1 & Hr1 & Hd1 & Hg).
    assert (exists c2 w2, flat_map (member (with_prefix prefix body)) l' ++ "}"%char :: rest = c2 :: w2 /\ is_noop c2 = false) as (c2 & w2 & Hw2 & Hn2).
    { destruct l' as [|kv2 l']; [by do 2 eexists|]. apply Forall_cons in Hl' as [Hx2 _]. destruct (ubjson_member_from kv2 Hx2) as (c2 & p2 & Hm2 & Hp2 & _).
      cbn [flat_map]. rewrite Hm2. do 2 eexists. split; [reflexivity|]. by apply plain_facts. }
    rewrite Hw2 in Hr1. destruct (get_ignore_noop_cons c2 w2 r1 d1 Hn2 Hr1) as (r2 & Hg2 & Hc2 & Hi2).
    destruct (IH Hinc f r2 d1 st q rs (pre ++ [(fst kv, val (snd kv))]) rest c2 w2 Hw2 Hc2 Hi2 ltac:(cbn in Hf; lia) Hd1 (grown_inside _ _ _ _ _ _ Hin Hg)) as (r3 & d3 & H3 & Hr3 & Hg3).
    { apply Forall_app. split.
      - eapply Forall_impl; [exact Hpre|]. intros kv' Hkv. by apply Forall_cons in Hkv as [_ ?].
      - apply Forall_singleton. cbn [fst]. rewrite forallb_Forall in Hlt. by apply Forall_map in Hlt. }
    exists r3, d3. split; [|split; [done|]].
    + rewrite <- H3. eapply until_next; [done|by apply plain_facts|exact H1|done..].
    + rewrite <- app_assoc in Hg3. by eapply grown_trans.
Qed.

Context (Hl : Forall member_ok l) (Hinc : increasing (map fst l) = true) (Hmax : (Z.of_nat (length l) <= object_max_size)%Z).

Lemma object_sizes_apart : (object_max_size < 2 ^ 63)%Z /\ (object_max_size < no_size)%Z.
Proof. done. Qed.

Definition read_object : value := VObject (map (fun kv => (fst kv, val (snd kv))) l).

Lemma sized_members m w : (forall v, element_ok fuel prefix body val v -> (exists k, (k, v) ∈ l) -> reads m (w v) (val v)) ->
  forall r d st q rs rest, ia r = flat_map (member w) l ++ rest -> dom_ok (false :: st) false d -> inside d q rs (VObject []) ->
    exists r' d', for_size (Z.of_nat (length l)) (ubjson_member true m) r d = Some (Val tt, r', d') /\ ia r' = rest /\ grown d d' q read_object.
Proof.
  intros Hm r d st q rs rest Hr Hd Hin.
  destruct (for_members (ubjson_member true m) (member w) val l (length l)) with (r := r) (d := d) (st := st) (q := q) (rs := rs) (pre := @nil (bytes * value)) (rest := rest)
    as (r' & d' & Heq & Hrest); try done.
  - rewrite Forall_forall in *. intros [k v] Hkv. destruct (Hl _ Hkv) as [Hv Hk]. apply ubjson_member_reads; [done|]. apply Hm; [done|by exists k].
  - exists r', d'. split; [|done]. by rewrite for_size_len.
Qed.

Lemma object_typed c high : Forall (fun kv => prefix (snd kv) = c) l -> l <> [] ->
  reads (get_ubjson_object (parse fuel)) (("$"%char :: c :: "#"%char :: write_ubjson_below (Z.of_nat (length l)) true high) ++ flat_map (member body) l) read_object.
Proof.
  intros Hc Hne. destruct object_sizes_apart as [H1 H2]. assert (plain_prefix c = true) as Hp.
  { destruct l as [|x l']; [done|]. apply Forall_cons in Hc as [<- _]. apply Hplain. }
  destruct (plain_facts c Hp) as (_ & _ & _ & _ & _ & _ & H0). eapply reads_bind; [apply typed_head; lia|]. cbv beta iota.
  rewrite (proj2 (Z.eqb_neq _ no_size)) by lia. rewrite H0. cbn [negb]. apply (start_end_reads false (VObject []) read_object); [done|lia|].
  apply sized_members. intros v Hv [k Hk]. rewrite Forall_forall in Hc. by rewrite <- (Hc _ Hk).
Qed.

Lemma object_counted high :
  reads (get_ubjson_object (parse fuel)) (("#"%char :: write_ubjson_below (Z.of_nat (length l)) true high) ++ flat_map (member (with_prefix prefix body)) l) read_object.
Proof.
  destruct object_sizes_apart as [H1 H2]. eapply reads_bind; [apply counted_head; lia|]. cbv beta iota.
  rewrite (proj2 (Z.eqb_neq _ no_size)) by lia. change (0 =? 0)%Z with true. cbn [negb]. apply (start_end_reads false (VObject []) read_object); [done|lia|].
  apply sized_members. intros v Hv _. by apply prefixed_element.
Qed.

Lemma object_plain : reads (get_ubjson_object (parse fuel)) (flat_map (member (with_prefix prefix body)) l ++ ["}"%char]) read_object.
Proof.
  intros r d st rest Hr Hd. rewrite <- app_assoc in Hr. cbn [app] in Hr.
  assert (exists c w, flat_map (member (with_prefix prefix body)) l ++ "}"%char :: rest = c :: w /\ inner c = true) as (c & w & Hw & Hc).
  { destruct l as [|kv l']; [by do 2 eexists|]. apply Forall_cons in Hl as [Hx _]. destruct (ubjson_member_from kv Hx) as (c2 & p2 & Hm2 & Hp2 & _).
    cbn [flat_map]. rewrite Hm2. do 2 eexists. split; [reflexivity|]. by apply plain_inner. }
  rewrite Hw in Hr. destruct (no_head c w r d Hc Hr) as (r1 & H1 & Hcur & Hi). unfold get_ubjson_object. rewrite (bind_val _ _ _ _ _ _ _ H1). cbv beta iota.
  change (no_size =? no_size)%Z with true. cbn [negb]. cbv iota. eapply (start_end_at false (VObject []) read_object); [done|by right|exact Hd|].
  intros d1 q rs Hd1 Hin. unfold until. eapply (until_members l Hl Hinc) with (pre := []); try done.
  assert (length l <= length (flat_map (member (with_prefix prefix body)) l)) as Hle by (apply flat_map_length_ge; intros x; unfold member; rewrite length_app; cbn; lia).
  assert (length (flat_map (member (with_prefix prefix body)) l ++ "}"%char :: rest) = S (length w)) as Hlw by (by rewrite Hw).
  rewrite length_app in Hlw. cbn [length] in Hlw. rewrite Hi. lia.
Qed.
End object.

(** ** What was written *)

(** The bytes in front of the elements: none, or the type that they all have. *)
Definition type_bytes {A} (prefix : A -> ascii) (l : list A) (use_count : bool) (t : bytes) (required : bool) : Prop :=
  t = [] /\ required = true \/
  use_count = true /\ required = false /\ l <> [] /\ exists c, t = ["$"%char; c] /\ Forall (fun x => prefix x = c) l.

Lemma write_type_bytes use_count use_type l t required :
  write_type use_count use_type l = Done (t, required) -> type_bytes ubjson_prefix l use_count t required.
Proof.
  unfold write_type. destruct l as [|v l]; [intros [= <- <-]; by left|]. destruct use_type; [|intros [= <- <-]; by left].
  destruct use_count; [|done]. cbn [negb]. destruct (forallb _ (v :: l)) eqn:Hall; [|intros [= <- <-]; by left].
  intros Hw. apply Done_inj in Hw. injection Hw as <- <-. right. split_and!; try done. eexists. split; [reflexivity|].
  rewrite forallb_Forall in Hall. eapply Forall_impl; [exact Hall|]. intros x Hx. by apply Ascii.eqb_eq in Hx.
Qed.

Lemma array_layout {A} fuel prefix body val (l : list A) use_count t required :
  (forall x, plain_prefix (prefix x) = true) -> Forall (element_ok fuel prefix body val) l -> (Z.of_nat (length l) <= array_max_size)%Z ->
  type_bytes prefix l use_count t required ->
  reads (get_ubjson_array (parse fuel))
    (t ++ write_count use_count (length l) ++ flat_map (if required then with_prefix prefix body else body) l ++ write_close use_count "]") (VArray (map val l)).
Proof.
  intros Hp Hl Hmax [[-> ->]|(-> & -> & Hne & c & -> & Hc)]; [destruct use_count|]; unfold write_count, write_close, write_char; cbn [app]; rewrite ?app_nil_r.
  - by apply array_counted.
  - by apply array_plain.
  - by apply (array_typed fuel prefix body val l).
Qed.

Lemma object_layout fuel prefix body val (l : list (bytes * value)) use_count t required :
  (forall x, plain_prefix (prefix x) = true) -> Forall (member_ok fuel prefix body val) l -> increasing (map fst l) = true ->
  (Z.of_nat (length l) <= object_max_size)%Z -> type_bytes (fun kv => prefix (snd kv)) l use_count t required ->
  reads (get_ubjson_object (parse fuel))
    (t ++ write_count use_count (length l) ++ flat_map (member (if required then with_prefix prefix body else body)) l ++ write_close use_count "}")
    (VObject (map (fun kv => (fst kv, val (snd kv))) l)).
Proof.
  intros Hp Hl Hinc Hmax [[-> ->]|(-> & -> & Hne & c & -> & Hc)]; [destruct use_count|]; unfold write_count, write_close, write_char; cbn [app]; rewrite ?app_nil_r.
  - by apply object_counted.
  - by apply object_plain.
  - by apply (object_typed fuel prefix body val l).
Qed.

Section written.
  Context (use_count use_type : bool).

Abbreviation write := (write_ubjson use_count use_type).

Definition body_of (v : value) : bytes := match write v false with Done w => w | _ => [] end.
Definition element_bytes (required : bool) : value -> bytes := if required then with_prefix ubjson_prefix body_of else body_of.

Lemma element_bytes_written required v w : write v required = Done w -> write v false = Done (body_of v) /\ w = element_bytes required v.
Proof.
  unfold element_bytes, with_prefix, body_of. destruct required; [rewrite write_prefix|]; intros Hw; destruct (write v false) as [w'|e|]; try done.
  - apply Done_inj in Hw. by subst w.
  - apply Done_inj in Hw. by subst w.
Qed.

Lemma elements_written required l ws :
  write_array_elements write required l = Done ws -> ws = flat_map (element_bytes required) l /\ Forall (fun v => write v false = Done (body_of v)) l.
Proof.
  revert ws. induction l as [|v l IH]; intros ws Hw; cbn [write_array_elements] in Hw; [by apply Done_inj in Hw as <-|].
  destruct (write v required) as [w|e|] eqn:Hv; cbn [rbind] in Hw; try done. destruct (write_array_elements _ _ l) as [ws'|e|]; cbn [rbind] in Hw; try done.
  apply Done_inj in Hw as <-. destruct (IH ws' eq_refl) as [-> Hl]. destruct (element_bytes_written _ _ _ Hv) as [Hb ->]. split; [done|by constructor].
Qed.

Lemma members_written required l ws :
  write_object_elements write required l = Done ws -> ws = flat_map (member (element_bytes required)) l /\ Forall (fun kv => write (snd kv) false = Done (body_of (snd kv))) l.
Proof.
  revert ws. induction l as [|kv l IH]; intros ws Hw; cbn [write_object_elements] in Hw; [by apply Done_inj in Hw as <-|].
  destruct (write (snd kv) required) as [w|e|] eqn:Hv; cbn [rbind] in Hw; try done. destruct (write_object_elements _ _ l) as [ws'|e|]; cbn [rbind] in Hw; try done.
  apply Done_inj in Hw as <-. destruct (IH ws' eq_refl) as [-> Hl]. destruct (element_bytes_written _ _ _ Hv) as [Hb ->].
  split; [cbn [flat_map]; unfold member at 2; by rewrite <- app_assoc|by constructor].
Qed.

Definition ubjson_roundtrip (v : value) : Prop := forall fuel w,
  encodable ubjson_limits v = true -> write v false = Done w -> length w < fuel -> reads (parse fuel (code (ubjson_prefix v))) w (ubjson_reread v).

(** An element is shorter than what is around it. *)
Lemma element_shorter {A} (b : A -> bytes) required prefix t use_count' n close x l :
  x ∈ l -> type_bytes prefix l use_count' t required ->
  length (b x) < length (t ++ write_count use_count' n ++ flat_map (if required then with_prefix prefix b else b) l ++ write_close use_count' close).
Proof.
  intros Hx [[-> ->]|(-> & -> & _ & c & -> & _)]; rewrite !length_app.
  - pose proof (flat_map_length_le (with_prefix prefix b) x l Hx) as Hle. unfold with_prefix at 1 in Hle. cbn [length] in *. lia.
  - pose proof (flat_map_length_le b x l Hx). cbn [length]. lia.
Qed.

Lemma flat_map_single (s : bytes) : flat_map (fun c => [c]) s = s.
Proof. induction s as [|c s IH]; [done|]. cbn [flat_map app]. by rewrite IH. Qed.

Lemma ubjson_binary_reads b : ubjson_roundtrip (VBinary b).
Proof.
  intros fuel w He Hw Hf. cbn [encodable ubjson_reread write_ubjson ubjson_prefix prefix_if ubjson_limits max_string] in *. to_prop.
  destruct (write_ubjson_binary use_count use_type (bin_data b)) as [w'|e|] eqn:Hb; cbn [rbind] in Hw; try done. apply Done_inj in Hw. cbn [app] in Hw. subst w'.
  assert (exists t required, type_bytes (fun _ => "U"%char) (bin_data b) use_count t required /\
    w = t ++ write_count use_count (length (bin_data b)) ++ flat_map (if required then with_prefix (fun _ => "U"%char) (fun c => [c]) else (fun c => [c])) (bin_data b) ++
      write_close use_count "]") as (t & required & Ht & ->).
  { unfold write_ubjson_binary in Hb. destruct (bin_data b) as [|c data]; cbn [rbind] in Hb.
    - apply Done_inj in Hb as <-. exists [], true. split; [by left|]. by destruct use_type.
    - destruct use_type; [destruct use_count; [|done]|]; cbn [negb rbind] in Hb; apply Done_inj in Hb as <-.
      + exists ["$"%char; "U"%char], false. split; [right; split_and!; try done; eexists; split; [reflexivity|by apply Forall_true]|]. by rewrite flat_map_single.
      + exists [], true. split; [by left|]. reflexivity. }
  destruct fuel as [|fuel]; [lia|]. apply array_layout; [done| |done|done].
  apply Forall_forall. intros c Hc. pose proof (element_shorter (fun c => [c]) required _ t use_count (length (bin_data b)) "]"%char c _ Hc Ht) as Hs. cbn [length] in Hs.
  destruct fuel as [|fuel]; [lia|]. unfold element_ok. pose proof (byte_reads fuel (code c) (code_range c)) as Hr. rewrite write_number_1 in Hr by apply code_range.
  by rewrite chr_code in Hr.
Qed.

Lemma ubjson_primitive_reads v : is_primitive v = true -> ubjson_roundtrip v.
Proof.
  intros Hp. destruct v as [|b|z|z|x|s|b|l|l]; try done; [..|by apply ubjson_binary_reads];
    intros fuel w He Hw Hf; (destruct fuel as [|fuel]; [lia|]); cbn [write_ubjson encodable ubjson_reread ubjson_limits max_string] in *; to_prop; apply Done_inj in Hw as <-.
  - by apply (reads_scalar _ VNull).
  - destruct b; [by apply (reads_scalar _ (VBool true))|by apply (reads_scalar _ (VBool false))].
  - apply integer_reads. lia.
  - apply unsigned_reads. lia.
  - change (reads (let* number := get_double ubjson in call (sax_number_float number [])) (write_number 8 (bits64 x)) (VFloat x)).
    by eapply reads_then; [apply get_double_consumes|].
  - change (reads (let* s := get_ubjson_string true in call (sax_string s)) (write_ubjson_string s) (VString s)).
    destruct array_sizes_apart as [H1 _]. eapply reads_then; [apply get_ubjson_string_consumes; lia|done].
Qed.

Lemma ubjson_array_reads l : Forall ubjson_roundtrip l -> ubjson_roundtrip (VArray l).
Proof.
  intros IH fuel w He Hw Hf. cbn [encodable ubjson_reread write_ubjson ubjson_prefix prefix_if ubjson_limits max_array] in *. to_prop.
  unfold write_ubjson_array in Hw. destruct (write_type use_count use_type l) as [[t required]|e|] eqn:Ht; cbn [rbind] in Hw; try done.
  destruct (write_array_elements _ required l) as [ws|e|] eqn:Hws; cbn [rbind] in Hw; try done. apply Done_inj in Hw as <-. cbn [app] in *.
  apply write_type_bytes in Ht. destruct (elements_written _ _ _ Hws) as [-> Hb]. destruct fuel as [|fuel]; [lia|].
  apply array_layout; [apply prefix_plain| |done|done].
  match goal with He : forallb _ _ = true |- _ => rewrite forallb_Forall in He; rename He into Hl end. rewrite Forall_forall in *. intros v Hv.
  pose proof (element_shorter body_of required _ t use_count (length l) "]"%char v l Hv Ht). unfold element_bytes in Hf. apply IH; [done|by apply Hl|by apply Hb|lia].
Qed.

Lemma member_shorter required t kv close l :
  kv ∈ l -> type_bytes (fun kv => ubjson_prefix (snd kv)) l use_count t required ->
  length (body_of (snd kv)) < length (t ++ write_count use_count (length l) ++ flat_map (member (element_bytes required)) l ++ write_close use_count close).
Proof.
  intros Hx [[-> ->]|(-> & -> & _ & c & -> & _)]; unfold element_bytes; rewrite !length_app.
  - pose proof (flat_map_length_le (member (with_prefix ubjson_prefix body_of)) kv l Hx) as Hle. unfold member at 1, with_prefix at 1 in Hle.
    rewrite length_app in Hle. cbn [length] in *. lia.
  - pose proof (flat_map_length_le (member body_of) kv l Hx) as Hle. unfold member at 1 in Hle. rewrite length_app in Hle. cbn [length]. lia.
Qed.

Lemma ubjson_object_reads l : Forall (fun kv => ubjson_roundtrip (snd kv)) l -> ubjson_roundtrip (VObject l).
Proof.
  intros IH fuel w He Hw Hf. cbn [encodable ubjson_reread write_ubjson ubjson_prefix prefix_if ubjson_limits max_object max_string] in *. to_prop.
  unfold write_ubjson_object in Hw. destruct (write_type use_count use_type (map snd l)) as [[t required]|e|] eqn:Ht; cbn [rbind] in Hw; try done.
  destruct (write_object_elements _ required l) as [ws|e|] eqn:Hws; cbn [rbind] in Hw; try done. apply Done_inj in Hw as <-. cbn [app] in *.
  apply write_type_bytes in Ht. destruct (members_written _ _ _ Hws) as [-> Hb]. destruct fuel as [|fuel]; [lia|].
  assert (type_bytes (fun kv => ubjson_prefix (snd kv)) l use_count t required) as Ht'.
  { destruct Ht as [?|(? & ? & Hne & c & -> & Hc)]; [by left|right]. split_and!; try done; [by destruct l|]. exists c. split; [done|]. by apply Forall_map in Hc. }
  apply object_layout; [apply prefix_plain| |done|done|done].
  match goal with He : forallb _ l = true |- _ => rewrite forallb_Forall in He; rename He into Hl end. rewrite Forall_forall in *. intros kv Hkv.
  pose proof (member_shorter required t kv "}"%char l Hkv Ht'). pose proof (Hl kv Hkv) as Hok. cbn beta in Hok. to_prop. destruct array_sizes_apart as [Hamax _].
  split; [apply IH; [done..|by apply Hb|lia]|lia].
Qed.

Lemma ubjson_reads v : ubjson_roundtrip v.
Proof.
  induction v as [v Hp|l IH|l IH] using value_induction; [by apply ubjson_primitive_reads|by apply ubjson_array_reads|by apply ubjson_object_reads].
Qed.

(** The value with its prefix. *)
Lemma ubjson_value_reads v w fuel :
  encodable ubjson_limits v = true -> write v true = Done w -> length w <= fuel -> reads (parse_ubjson_internal (parse fuel) true) w (ubjson_reread v).
Proof.
  intros Hv Hw Hf. destruct (element_bytes_written true v w Hw) as [Hb ->]. cbn in Hf.
  apply (prefixed_element fuel ubjson_prefix body_of ubjson_reread prefix_plain v). apply ubjson_reads; [done..|lia].
Qed.
End written.

(** A type without a count is all that can fail. *)
Lemma elements_done write required l : Forall (fun v => forall b, exists w, write v b = Done w) l -> exists w, write_array_elements write required l = Done w.
Proof.
  induction 1 as [|v l Hv _ [ws IH]]; cbn [write_array_elements]; [by eexists|]. destruct (Hv required) as [w ->]. cbn [rbind]. rewrite IH. by eexists.
Qed.
Lemma members_done write required (l : list (bytes * value)) :
  Forall (fun kv => forall b, exists w, write (snd kv) b = Done w) l -> exists w, write_object_elements write required l = Done w.
Proof.
  induction 1 as [|kv l Hv _ [ws IH]]; cbn [write_object_elements]; [by eexists|]. destruct (Hv required) as [w ->]. cbn [rbind]. rewrite IH. by eexists.
Qed.

Lemma ubjson_written use_count use_type v : use_type = false \/ use_count = true -> forall add_prefix, exists w, write_ubjson use_count use_type v add_prefix = Done w.
Proof.
  intros Hu. assert (forall l, exists t required, write_type use_count use_type l = Done (t, required)) as Htype.
  { intros l. unfold write_type. destruct l as [|v' l]; [by do 2 eexists|]. destruct use_type; [|by do 2 eexists]. destruct Hu as [?| ->]; [done|].
    cbn [negb]. destruct (forallb _ _); by do 2 eexists. }
  induction v as [v Hp|l IH|l IH] using value_induction; intros add_prefix.
  - destruct v as [|b|z|z|x|s|b|l|l]; try done; cbn [write_ubjson]; try by eexists.
    unfold write_ubjson_binary. destruct (bin_data b) as [|c data]; [by eexists|]. destruct use_type; [|by eexists]. destruct Hu as [?| ->]; [done|by eexists].
  - cbn [write_ubjson]. unfold write_ubjson_array. destruct (Htype l) as (t & required & ->). cbn [rbind].
    destruct (elements_done _ required l IH) as [w ->]. by eexists.
  - cbn [write_ubjson]. unfold write_ubjson_object. destruct (Htype (map snd l)) as (t & required & ->). cbn [rbind].
    destruct (members_done _ required l IH) as [w ->]. by eexists.
Qed.

(** ** Every input is read to an end *)

Lemma noop_total n st e : total get_ignore_noop n st e st e 0.
Proof.
  intros c r d _ _ Hd. destruct (get_ignore_noop_first r d) as (r' & Hg & _ & Hi). exists (Val (current_int r')), r', d. split; [done|]. split; [done|].
  rewrite Hi. pose proof (drop_noop_length (ia r)). destruct (drop_noop (ia r)); cbn in *; lia.
Qed.

(** Reading a character that is no N first; at the end of the input [f] fails. *)
Lemma noop_then {A} (f : Z -> M dom_parser A) n st e st' e' k :
  (0 < n -> forall c, total_at (Some c) (f (code c)) (n - 1) st e st' e' k) -> BinaryTheory.stops (f (-1)%Z) -> total (bindM get_ignore_noop f) n st e st' e' (S k).
Proof.
  intros Hf Hs c r d _ Hl Hd. destruct (get_ignore_noop_first r d) as (r1 & Hg & Hc & Hi). rewrite (bind_val _ _ _ _ _ _ _ Hg). unfold current_int.
  pose proof (drop_noop_length (ia r)) as Hle. destruct (drop_noop (ia r)) as [|a w]; cbn [head tail] in *; rewrite Hc.
  - destruct (Hs r1 d Hc) as (z & r' & d' & Heq & Hz). by exists (Return z), r', d'.
  - cbn in Hle. destruct (Hf ltac:(lia) a r1 d Hc ltac:(rewrite Hi; lia) Hd) as (x & r2 & d2 & H2 & Hx). exists x, r2, d2. split; [done|].
    destruct x; [|done]. split; [apply Hx|]. rewrite Hi in Hx. destruct Hx. lia.
Qed.

Lemma length_of_type_total c m n st e : length_of_type c = Some m -> total m n st e st e 0.
Proof. unfold length_of_type. repeat case_test; try done; intros [= <-]; first [apply get_signed_total|apply get_number_total]. Qed.

Lemma bad_byte_stops {A} (x : A) format id detail context : BinaryTheory.stops (bad_byte (H := dom_parser) x format id detail context).
Proof.
  intros r d _. unfold bad_byte, bindM, the_token. cbn [mbind option_bind].
  destruct (report_fails (get_token_string r) id (exception_message format (detail ++ get_token_string r) context) r d) as (z & d' & -> & Hz).
  by exists z, r, d'.
Qed.

Lemma size_value_total x n st e : total (get_ubjson_size_value x) n st e st e 1.
Proof.
  apply noop_then; [|apply bad_byte_stops]. intros _ c. destruct (length_of_type (code c)) as [m|] eqn:Hm; [|apply bad_byte_total].
  eapply total_bind0; [by eapply length_of_type_total|]. intros z y. apply total_ret.
Qed.

Lemma ubjson_string_tail n st e (c : option ascii) :
  total_at c (unexpect_eof ubjson (B "value") ;;* let* c := the_current in
    match length_of_type c with
    | Some m => let* len := m in get_string ubjson len
    | None => bad_byte [] ubjson 113 (B "expected length type specification (U, i, I, l, L); last byte: 0x") (B "string")
    end) n st e st e 0.
Proof.
  destruct c as [c|]; [|apply stops_total, unexpect_eof_stops]. apply unexpect_eof_total, the_current_total.
  destruct (length_of_type (code c)) as [m|] eqn:Hm; [|apply bad_byte_total]. eapply total_bind0; [by eapply length_of_type_total|]. intros z. apply get_string_total.
Qed.

Lemma ubjson_string_total get_char n st e : total (get_ubjson_string get_char) n st e st e 0.
Proof.
  intros c. unfold get_ubjson_string. eapply total_bind0; [|intros _ c'; apply ubjson_string_tail].
  destruct get_char; [|apply total_ret]. eapply total_bind0; [apply get_total|]. intros z y. apply total_ret.
Qed.

Lemma stops_bind {A C} (m : M dom_parser A) (k : A -> M dom_parser C) : BinaryTheory.stops m -> BinaryTheory.stops (bindM m k).
Proof. intros Hm r d Hc. destruct (Hm r d Hc) as (z & r' & d' & Heq & Hz). exists z, r', d'. split; [|done]. unfold bindM. by rewrite Heq. Qed.

Lemma high_precision_total n st : total get_ubjson_high_precision_number n st true st false 0.
Proof.
  intros c. eapply total_bind0; [eapply total_weaken; [apply size_value_total|reflexivity|lia]|]. intros size y. eapply total_bind0.
  { intros r d Hc Hl Hd. eapply (get_loop_total _ _ _ _ (length (ia r))); [lia|exact Hc|lia|exact Hd]. }
  intros s x. cbv zeta. destruct (scan_total false (input_fuel s) (mk_lexer s)) as (t & l & -> & (Hok & Hle & _) & _); [done|cbn; unfold input_fuel; lia|].
  destruct (scan_total false (input_fuel s) l Hok) as (t' & l' & -> & _); [change (rest (mk_lexer s)) with s in Hle; unfold input_fuel; lia|].
  assert (forall token message, total_at x (report token 115 message) n st true st false 0) as Hrep.
  { intros token message r d _ _ _. destruct (report_fails token 115 message r d) as (z & d' & -> & Hz). by exists (Return z), r, d'. }
  destruct (negb _); [apply Hrep|]. destruct t; try apply Hrep; by eapply call_value_total.
Qed.

Lemma ubjson_literal_total c m n st : ubjson_literal c = Some m -> total m n st true st false 0.
Proof. unfold ubjson_literal. repeat case_test; try done; intros [= <-] z; by eapply call_value_total. Qed.

Lemma ubjson_number_total c m n st : ubjson_number c = Some m -> total m n st true st false 0.
Proof.
  unfold ubjson_number. repeat case_test; try done; intros [= <-]; try apply high_precision_total;
    try (apply then_call_total; [first [apply get_number_total|apply get_signed_total]|intros a; by eexists]);
    (apply (then_call_total _ (fun x => dom_value (VFloat x))); [|intros a; by eexists]; intros z; eapply total_bind0; [apply get_number_total|];
     intros a y; apply total_ret).
Qed.

Lemma ubjson_char_total n st : total ubjson_char n st true st false 0.
Proof.
  intros c. eapply total_weaken; [apply total_get|reflexivity|lia]; [|apply unexpect_eof_stops].
  intros _ a. apply unexpect_eof_total, the_current_total. case_test; [apply bad_byte_total|]. eapply total_bind0.
  - intros r d _ _ Hd. do 3 eexists. split; [reflexivity|]. split; [exact Hd|lia].
  - intros x z. by eapply call_value_total.
Qed.

(** ** Loops *)

Lemma total_enter {A} c (m : M dom_parser A) n st e e' st1 e1 k :
  (forall d, dom_ok st e' d -> dom_ok st e d) -> total_at c m n st e st1 e1 k -> total_at c m n st e' st1 e1 k.
Proof. intros He Hm r d Hc Hl Hd. by apply Hm; auto. Qed.

Lemma for_size_total body size n st e e' :
  total body n st e st e' 0 -> (forall d, dom_ok st e' d -> dom_ok st e d) -> total (for_size size body) n st e' st e' 0.
Proof.
  intros Hb He. unfold for_size. destruct size as [|p|p]; try (intros c; apply total_ret). induction p as [p IH|p IH|]; intros c; cbn [repeat].
  - eapply total_bind0; [apply (total_enter _ _ _ _ e); [done|apply Hb]|]. intros _ c1. eapply total_bind0; [apply IH|]. intros _. apply IH.
  - eapply total_bind0; [apply IH|]. intros _. apply IH.
  - apply (total_enter _ _ _ _ e); [done|apply Hb].
Qed.

(** What ends, with no more than what there was. *)
Definition ends_at (o : option (step unit * reader * dom_parser)) (n : nat) (st : list bool) (e : bool) : Prop :=
  exists x r' d', o = Some (x, r', d') /\ match x with Val _ => dom_ok st e d' /\ length (ia r') <= n | Return z => z <> Ret true end.

Lemma until_loop_ends close body st e e' n :
  (forall c n', n' <= n -> total_at (Some c) body n' st e st e' 0) -> BinaryTheory.stops body -> (forall d, dom_ok st e' d -> dom_ok st e d) ->
  forall fuel r d, length (ia r) <= n -> (match current r with Some _ => length (ia r) + 1 | None => 0 end) < fuel -> dom_ok st e' d ->
    ends_at (until_loop fuel close body r d) (length (ia r)) st e'.
Proof.
  intros Hb Hs He fuel. induction fuel as [|fuel IH]; intros r d Hn Hf Hd; [lia|]. cbn [until_loop]. unfold ends_at.
  assert (the_current r d = Some (Val (current_int r), r, d)) as Ht by done. rewrite (bind_val _ _ _ _ _ _ _ Ht).
  destruct (is_char close (current_int r)); [do 3 eexists; split; [reflexivity|done]|].
  destruct (current r) as [c|] eqn:Hc.
  - destruct (Hb c _ Hn r d Hc (le_n _) (He d Hd)) as (x & r1 & d1 & H1 & Hx). destruct x as [[]|z].
    2: { exists (Return z), r1, d1. split; [|done]. unfold bindM. by rewrite H1. }
    rewrite (bind_val _ _ _ _ _ _ _ H1). destruct Hx as [Hd1 Hl1]. destruct (get_ignore_noop_first r1 d1) as (r2 & Hg & Hc2 & Hi2).
    rewrite (bind_val _ _ _ _ _ _ _ Hg). pose proof (drop_noop_length (ia r1)) as Hdl.
    destruct (IH r2 d1) as (x & r3 & d3 & H3 & Hx); [| |done|].
    + rewrite Hi2. destruct (drop_noop (ia r1)); cbn in *; lia.
    + rewrite Hc2, Hi2. destruct (drop_noop (ia r1)); cbn in *; lia.
    + exists x, r3, d3. split; [done|]. destruct x; [|done]. split; [apply Hx|]. destruct Hx as [_ Hx]. rewrite Hi2 in Hx. destruct (drop_noop (ia r1)); cbn in *; lia.
  - destruct (stops_bind body (fun _ => get_ignore_noop ;;* until_loop fuel close body) Hs r d Hc) as (z & r' & d' & Heq & Hz). by exists (Return z), r', d'.
Qed.

Lemma until_ends close body st e e' r d :
  (forall c n', n' <= length (ia r) -> total_at (Some c) body n' st e st e' 0) -> BinaryTheory.stops body -> (forall d, dom_ok st e' d -> dom_ok st e d) ->
  dom_ok st e' d -> ends_at (until close body r d) (length (ia r)) st e'.
Proof. intros Hb Hs He Hd. unfold until. eapply until_loop_ends; [exact Hb|done..|destruct (current r); lia|done]. Qed.

(** At the end of the input the loop fails. *)
Lemma until_stops close body r d st e n : BinaryTheory.stops body -> current r = None -> ends_at (until close body r d) n st e.
Proof.
  intros Hs Hc. unfold until, ends_at. rewrite Nat.add_comm. cbn [Nat.add until_loop].
  assert (the_current r d = Some (Val (-1)%Z, r, d)) as Ht by (unfold the_current, current_int; by rewrite Hc). rewrite (bind_val _ _ _ _ _ _ _ Ht).
  assert (is_char close (-1) = false) as -> by (unfold is_char; apply Z.eqb_neq; pose proof (code_range close); lia).
  match goal with |- context [body ;;* ?m] => destruct (stops_bind body (fun _ => m) Hs r d Hc) as (z & r' & d' & Heq & Hz) end. by exists (Return z), r', d'.
Qed.

(** ** Containers *)

Lemma bind_inv {A C} (m : M dom_parser A) (k : A -> M dom_parser C) r d c r' d' :
  bindM m k r d = Some (Val c, r', d') -> exists a r1 d1, m r d = Some (Val a, r1, d1) /\ k a r1 d1 = Some (Val c, r', d').
Proof. unfold bindM. destruct (m r d) as [[[[a|z] r1] d1]|] eqn:Hm; cbn [mbind option_bind]; try done. intros Hk. by exists a, r1, d1. Qed.

(** The type is a character that was there. *)
Lemma size_type_type r (d : dom_parser) size type r' d' : get_ubjson_size_type r d = Some (Val (size, type), r', d') -> type <> (-1)%Z.
Proof.
  unfold get_ubjson_size_type. intros (c & r1 & d1 & _ & H)%bind_inv.
  destruct (is_char "$" c); [|destruct (is_char "#" c); [apply bind_inv in H as (? & ? & ? & _ & H)|]; by injection H as _ <- _ _].
  apply bind_inv in H as (t & r2 & d2 & Hg & ([] & r3 & d3 & He & H)%bind_inv).
  assert (t <> (-1)%Z) as Ht.
  { destruct (get_first r1 d1) as (r2' & Hg' & Hc & _). rewrite Hg' in Hg. injection Hg as <- <- <-. unfold current_int, unexpect_eof in *.
    destruct (current r2') as [a|] eqn:Ha; [pose proof (code_range a); lia|].
    destruct (report_fails (B "<end of file>") 110 (exception_message ubjson (B "unexpected end of input") (B "type")) r2' d1) as (z & d'' & Hrep & _). by rewrite Hrep in He. }
  apply bind_inv in H as (c2 & r4 & d4 & _ & H). destruct (negb _).
  - apply bind_inv in H as (? & ? & ? & _ & H). unfold bad_byte in H. apply bind_inv in H as (? & ? & ? & _ & H). apply bind_inv in H as (? & ? & ? & _ & H). by injection H as _ <- _ _.
  - apply bind_inv in H as (? & ? & ? & _ & H). by injection H as _ <- _ _.
Qed.

Lemma size_type_ends r d st e : dom_ok st e d ->
  exists x r' d', get_ubjson_size_type r d = Some (x, r', d') /\
    match x with
    | Val (size, _) => dom_ok st e d' /\ (length (ia r') < length (ia r) \/ size = no_size /\ current r' = None /\ length (ia r') <= length (ia r))
    | Return z => z <> Ret true
    end.
Proof.
  intros Hd. unfold get_ubjson_size_type. destruct (get_ignore_noop_first r d) as (r1 & Hg & Hc & Hi). rewrite (bind_val _ _ _ _ _ _ _ Hg).
  pose proof (drop_noop_length (ia r)) as Hle. destruct (drop_noop (ia r)) as [|a w]; cbn [head tail length] in *.
  - unfold current_int. rewrite Hc. do 3 eexists. split; [reflexivity|]. split; [done|]. right. rewrite Hi. split_and!; [done..|cbn; lia].
  - match goal with |- exists x r' d', ?m r1 d = _ /\ _ => assert (total_at (Some a) m (length w) st e st e 0) as Ht end.
    { case_test; [|case_test; [|apply total_ret]].
      - eapply total_weaken; [apply total_get with (k := 0)|reflexivity|lia]; [|apply unexpect_eof_stops]. intros _ c. apply unexpect_eof_total.
        eapply total_weaken; [apply noop_then with (k := 0)|reflexivity|lia]; [|apply unexpect_eof_stops]. intros _ c'. case_test; [apply unexpect_eof_total, bad_byte_total|].
        eapply total_bind0; [eapply total_weaken; [apply size_value_total|reflexivity|lia]|]. intros size z. apply total_ret.
      - eapply total_bind0; [eapply total_weaken; [apply size_value_total|reflexivity|lia]|]. intros size z. apply total_ret. }
    destruct (Ht r1 d Hc ltac:(rewrite Hi; lia) Hd) as (x & r2 & d2 & H2 & Hx). exists x, r2, d2. split; [done|]. destruct x as [[size type]|]; [|done].
    destruct Hx as [Hd2 Hl2]. split; [done|]. left. rewrite Hi in Hl2. lia.
Qed.

Lemma call_start_at what max_size v len b r d st :
  container b (Some v) -> dom_ok st true d ->
  exists x d', call_sized (dom_start_of what max_size v len) r d = Some (x, r, d') /\ match x with Val _ => dom_ok (b :: st) false d' | Return z => z <> Ret true end.
Proof.
  intros Hb Hd. destruct (dom_start_ok st b v d Hd Hb) as (d' & Heq & Hd'). unfold call_sized, dom_start_of. rewrite Heq. cbn [mbind option_bind].
  destruct (_ && _); do 2 eexists; (split; [reflexivity|]); done.
Qed.

(** What [get_ubjson_array] and [get_ubjson_object] do behind the size and the type. *)
Lemma container_ends b what max_size v len body n r d st :
  container b (Some v) -> dom_ok st true d -> (forall d, dom_ok (b :: st) false d -> ends_at (body r d) n (b :: st) false) ->
  ends_at ((call_sized (dom_start_of what max_size v len) ;;* body ;;* call dom_end) r d) n st false.
Proof.
  intros Hb Hd Hbody. unfold ends_at. destruct (call_start_at what max_size v len b r d st Hb Hd) as (x & d1 & H1 & Hx).
  destruct x as [[]|z]; [|exists (Return z), r, d1; split; [|done]; unfold bindM; by rewrite H1]. rewrite (bind_val _ _ _ _ _ _ _ H1).
  destruct (Hbody d1 Hx) as (x2 & r2 & d2 & H2 & Hx2). destruct x2 as [[]|z]; [|exists (Return z), r2, d2; split; [|done]; unfold bindM; by rewrite H2].
  rewrite (bind_val _ _ _ _ _ _ _ H2). destruct Hx2 as [Hd2 Hl2]. destruct (call_end_total b None 0 st) with (r := MkReader [] None 0) (d := d2) as (x3 & r3 & d3 & H3 & Hx3); [done..|].
  unfold call in *. destruct (dom_end d2) as [[ok d4]|]; [|done]. cbn in H3 |- *. injection H3 as <- _ <-. do 3 eexists. split; [reflexivity|]. destruct ok; [|done]. by destruct Hx3.
Qed.

Lemma ends_total c m n st e st' e' :
  (forall r d, current r = c -> length (ia r) <= n -> dom_ok st e d -> ends_at (m r d) (length (ia r)) st' e') -> total_at c m n st e st' e' 0.
Proof.
  intros Hm r d Hc Hl Hd. destruct (Hm r d Hc Hl Hd) as (x & r' & d' & Heq & Hx). exists x, r', d'. split; [done|]. destruct x; [|done]. split; [apply Hx|]. destruct Hx. lia.
Qed.

Lemma total_ends c m n st e st' e' r d : total_at c m n st e st' e' 0 -> current r = c -> length (ia r) <= n -> dom_ok st e d -> ends_at (m r d) n st' e'.
Proof.
  intros Hm Hc Hl Hd. destruct (Hm r d Hc Hl Hd) as (x & r' & d' & Heq & Hx). exists x, r', d'. split; [done|]. destruct x; [|done]. split; [apply Hx|]. destruct Hx. lia.
Qed.

Section nested.
  Context (get_value : Z -> M dom_parser unit) (n : nat).
  Context (Hvalue : forall n' prefix st, n' < n -> prefix <> (-1)%Z -> total (get_value prefix) n' st true st false 0) (Hstops : BinaryTheory.stops (get_value (-1)%Z)).

Lemma next_total n' st : n' < n -> total (parse_ubjson_internal get_value true) n' st true st false 0.
Proof.
  intros Hn c. unfold parse_ubjson_internal. eapply total_weaken; [apply noop_then with (k := 0)|reflexivity|lia]; [|exact Hstops].
  intros Hn' a. apply Hvalue; [lia|]. pose proof (code_range a). lia.
Qed.

Lemma internal_total n' c st : n' < n -> total_at (Some c) (parse_ubjson_internal get_value false) n' st true st false 0.
Proof. intros Hn. unfold parse_ubjson_internal. apply the_current_total, Hvalue; [done|]. pose proof (code_range c). lia. Qed.

Lemma internal_stops : BinaryTheory.stops (parse_ubjson_internal get_value false).
Proof.
  intros r d Hc. unfold parse_ubjson_internal. assert (the_current r d = Some (Val (-1)%Z, r, d)) as Ht by (unfold the_current, current_int; by rewrite Hc).
  rewrite (bind_val _ _ _ _ _ _ _ Ht). by apply Hstops.
Qed.

(** Behind the size and the type, when there is a size, and when there is none. *)
Lemma head_ends (k : Z * Z -> M dom_parser unit) st :
  (forall size type r d, size <> no_size -> type <> (-1)%Z -> length (ia r) < n -> dom_ok st true d -> ends_at (k (size, type) r d) (length (ia r)) st false) ->
  (forall type r d, current r = None \/ length (ia r) < n -> dom_ok st true d -> ends_at (k (no_size, type) r d) (length (ia r)) st false) ->
  total (let* x := get_ubjson_size_type in k x) n st true st false 0.
Proof.
  intros Hsized Hunsized c. apply ends_total. intros r d _ Hl Hd. unfold ends_at. destruct (size_type_ends r d st true Hd) as (x & r1 & d1 & H1 & Hx).
  destruct x as [[size type]|z]; [|exists (Return z), r1, d1; split; [|done]; unfold bindM; by rewrite H1]. rewrite (bind_val _ _ _ _ _ _ _ H1).
  destruct Hx as [Hd1 Hx]. assert (ends_at (k (size, type) r1 d1) (length (ia r1)) st false) as (y & r2 & d2 & H2 & Hy).
  { destruct (decide (size = no_size)) as [->|Hne]; [apply Hunsized; [|done]|apply Hsized; [done|by eapply size_type_type| |done]]; destruct Hx as [?|(? & ? & ?)]; try done; [right; lia|by left|lia]. }
  exists y, r2, d2. split; [done|]. destruct y; [|done]. split; [apply Hy|]. destruct Hy as [_ Hy]. destruct Hx as [?|(_ & _ & ?)]; lia.
Qed.

Lemma until_container_ends close body b r d st e :
  (forall c n', n' < n -> total_at (Some c) body n' (b :: st) e (b :: st) false 0) -> BinaryTheory.stops body -> (forall d, dom_ok (b :: st) false d -> dom_ok (b :: st) e d) ->
  current r = None \/ length (ia r) < n -> dom_ok (b :: st) false d -> ends_at (until close body r d) (length (ia r)) (b :: st) false.
Proof.
  intros Hb Hs He [Hc|Hl] Hd; [by apply until_stops|]. eapply until_ends; [|done..]. intros c n' Hn'. apply Hb. lia.
Qed.

Lemma ubjson_array_total st : total (get_ubjson_array get_value) n st true st false 0.
Proof.
  apply head_ends.
  - intros size type r d Hne Htype Hl Hd. rewrite (proj2 (Z.eqb_neq _ _)) by done. cbn [negb]. apply (container_ends true); [done..|]. intros d1 Hd1.
    apply (total_ends (current r) _ _ (true :: st) false); [|done..].
    repeat case_test; try apply total_ret; (apply (for_size_total _ _ _ _ true); [|apply dom_array_next]); [by apply Hvalue|by apply next_total].
  - intros type r d Hr Hd. cbv beta iota. rewrite Z.eqb_refl. cbn [negb]. apply (container_ends true); [done..|]. intros d1 Hd1.
    apply (until_container_ends _ _ true _ _ _ true); [|apply internal_stops|apply dom_array_next|done|done]. intros c n' Hn'. by apply internal_total.
Qed.

Lemma member_total get_char (m : M dom_parser unit) n' st c :
  total m n' (false :: st) true (false :: st) false 0 -> total_at c (ubjson_member get_char m) n' (false :: st) false (false :: st) false 0.
Proof.
  intros Hm. unfold ubjson_member. eapply total_bind0; [apply ubjson_string_total|]. intros key z. eapply total_bind0; [apply call_key_total|]. intros _. apply Hm.
Qed.

Lemma member_stops m : BinaryTheory.stops (ubjson_member (H := dom_parser) false m).
Proof. apply stops_bind. intros r d Hc. by apply unexpect_eof_stops. Qed.

Lemma ubjson_object_total st : total (get_ubjson_object get_value) n st true st false 0.
Proof.
  apply head_ends.
  - intros size type r d Hne Htype Hl Hd. rewrite (proj2 (Z.eqb_neq _ _)) by done. cbn [negb]. apply (container_ends false); [done..|]. intros d1 Hd1.
    apply (total_ends (current r) _ _ (false :: st) false); [|done..].
    case_test; (apply (for_size_total _ _ _ _ false); [|done]); intros c; apply member_total; [by apply Hvalue|by apply next_total].
  - intros type r d Hr Hd. cbv beta iota. rewrite Z.eqb_refl. cbn [negb]. apply (container_ends false); [done..|]. intros d1 Hd1.
    apply (until_container_ends _ _ false _ _ _ false); [|apply member_stops|done|done|done]. intros c n' Hn'. apply member_total. by apply next_total.
Qed.
End nested.

Lemma value_stops fuel : 0 < fuel -> BinaryTheory.stops (parse fuel (-1)%Z).
Proof.
  destruct fuel as [|fuel]; [lia|]. intros _ r d Hc. cbn [get_ubjson_value]. unfold ubjson_value. change (-1 =? -1)%Z with true. cbv iota. unfold unexpect_eof. rewrite Hc.
  destruct (report_fails (B "<end of file>") 110 (exception_message ubjson (B "unexpected end of input") (B "value")) r d) as (z & d' & -> & Hz). by exists z, r, d'.
Qed.

Lemma ubjson_value_total fuel prefix n st : n + 2 <= fuel -> prefix <> (-1)%Z -> total (parse fuel prefix) n st true st false 0.
Proof.
  revert prefix n st. induction fuel as [|fuel IH]; intros prefix n st Hf Hp c; [lia|]. cbn [get_ubjson_value]. unfold ubjson_value.
  assert (forall n' prefix st, n' < n -> prefix <> (-1)%Z -> total (parse fuel prefix) n' st true st false 0) as Hvalue by (intros; apply IH; lia).
  assert (BinaryTheory.stops (parse fuel (-1)%Z)) as Hstops by (apply value_stops; lia).
  rewrite (proj2 (Z.eqb_neq _ _)) by done.
  destruct (ubjson_literal prefix) as [m|] eqn:Hlit; [by eapply ubjson_literal_total|].
  destruct (ubjson_number prefix) as [m|] eqn:Hnum; [by eapply ubjson_number_total|].
  repeat case_test; [apply ubjson_char_total| |by apply ubjson_array_total|by apply ubjson_object_total|apply bad_byte_total].
  eapply total_bind0; [apply ubjson_string_total|]. intros s z. by eapply call_value_total.
Qed.

Lemma from_ubjson_total strict allow_exceptions input : is_Some (from_ubjson strict allow_exceptions input).
Proof.
  eapply from_binary_total. unfold parse_ubjson_internal. apply noop_then with (k := 0); [|apply value_stops; unfold input_fuel; lia].
  intros Hn c. eapply total_weaken; [apply (ubjson_value_total _ _ (length input))|lia|reflexivity]; [unfold input_fuel; lia|]. pose proof (code_range c). lia.
Qed.

(** ** The properties *)

(** C20: what [to_ubjson] writes, [from_ubjson] reads, with or without the sizes and the types of
    containers, where a type requires a size: every value of the C++ types, within [max_size],
    comes back, but for integers, whose width tells the kind, and byte arrays, which come back as
    arrays of numbers.  Bytes behind the value, other than an N, are left alone, or an error in
    strict mode. *)
Theorem ubjson_correct (strict allow_exceptions use_size use_type : bool) v rest :
  encodable ubjson_limits v = true -> use_type = false \/ use_size = true ->
  exists w r, to_ubjson v use_size use_type = Done w /\ from_ubjson strict allow_exceptions (w ++ rest) = Some r /\
    read_result strict allow_exceptions (ubjson_reread v) (drop_noop rest) r.
Proof.
  intros Hv Hu. destruct (ubjson_written use_size use_type v Hu true) as [w Hw]. exists w.
  destruct (from_binary_reads ubjson strict allow_exceptions (parse_ubjson_internal (parse (input_fuel (w ++ rest))) true) w (ubjson_reread v) rest) as (r & Hr & Hres).
  - apply (ubjson_value_reads use_size use_type); [done..|]. unfold input_fuel. rewrite length_app. lia.
  - by exists r.
Qed.

Lemma ubjson_correct_witness :
  encodable ubjson_limits demo_ubjson_value = true /\ (true = false \/ true = true) /\
  exists w r, to_ubjson demo_ubjson_value true true = Done w /\ from_ubjson true true (w ++ B "NN") = Some r /\
    read_result true true (ubjson_reread demo_ubjson_value) (drop_noop (B "NN")) r.
Proof.
  assert (encodable ubjson_limits demo_ubjson_value = true) as Hv by (vm_compute; reflexivity).
  assert (true = false \/ true = true) as Hu by (right; reflexivity).
  split; [exact Hv|]. split; [exact Hu|]. exact (ubjson_correct true true true true demo_ubjson_value (B "NN") Hv Hu).
Defined.

(** C22: every byte sequence is read to an end, as CBOR whatever is done with tags, as
    MessagePack, as BSON and as UBJSON: within the fuel that the length of the input gives,
    whatever lengths the bytes announce, and without an undefined call of the handler, there is
    a value, the discarded value or an exception. *)
Theorem binary_total (strict allow_exceptions : bool) (tag_handler : cbor_tag_handler_t.t) input :
  is_Some (from_cbor strict allow_exceptions tag_handler input) /\ is_Some (from_msgpack strict allow_exceptions input) /\
  is_Some (from_bson strict allow_exceptions input) /\ is_Some (from_ubjson strict allow_exceptions input).
Proof. split; [apply from_cbor_total|]. split; [apply from_msgpack_total|]. split; [apply from_bson_total|apply from_ubjson_total]. Qed.

(** ** What the input does not bound *)

(** At most 14 bytes make an array of any length up to [max_size]. *)
Lemma nulls_amplified n :
  n <> 0 -> (Z.of_nat n <= array_max_size)%Z ->
  from_ubjson true true (B "[$Z#" ++ write_ubjson_unsigned (Z.of_nat n) true) = Some (Parsed (VArray (replicate n VNull))).
Proof.
  intros Hn Hmax. destruct array_sizes_apart as [H1 _]. set (w := B "[$Z#" ++ write_ubjson_unsigned (Z.of_nat n) true).
  assert (reads (parse_ubjson_internal (parse (input_fuel w)) true) w (VArray (map (fun v : value => v) (replicate n VNull)))) as Hr.
  { unfold input_fuel. rewrite Nat.add_comm. cbn [Nat.add].
    apply (prefixed_element (S (S (length w))) (fun _ : unit => "["%char) (fun _ => B "$Z#" ++ write_ubjson_unsigned (Z.of_nat n) true)
      (fun _ => VArray (map (fun v : value => v) (replicate n VNull))) (fun _ => eq_refl) tt).
    pose proof (array_typed (S (length w)) (fun _ : value => "Z"%char) (fun _ => []) (fun v => v) (replicate n VNull) (fun _ => eq_refl)) as Ht.
    rewrite length_replicate in Ht. specialize (Ht ltac:(apply Forall_replicate, (reads_scalar _ VNull); reflexivity) Hmax "Z"%char
      (write_ubjson_high (Z.of_nat n) true) ltac:(by apply Forall_replicate) ltac:(by destruct n)).
    replace (flat_map (fun _ : value => @nil ascii) (replicate n VNull)) with (@nil ascii) in Ht by (clear; induction n; done).
    rewrite app_nil_r in Ht. exact Ht. }
  destruct (from_binary_reads ubjson true true (parse_ubjson_internal (parse (input_fuel w)) true) w _ [] Hr) as (r & Heq & Hres).
  rewrite app_nil_r in Heq. unfold from_ubjson. rewrite Heq, Hres. by rewrite list_fmap_id.
Qed.

(** The text of a number may go on behind a NUL. *)
Lemma number_text_cut : from_ubjson true true (B "Hi" ++ [chr 6] ++ B "12" ++ [NUL] ++ B "abc") = Some (Parsed (VUnsigned 12)).
Proof. vm_compute. reflexivity. Qed.
