(* ===== verification/AsyncPool.v ===== *)
(** * The asynchronous thread pool: [spdlog/details/mpmc_blocking_q.h], [details/thread_pool.h]

    Threads that log put messages into a bounded queue, worker threads take them out.  The pool
    is a transition system: an action is a critical section, a notification, a piece of work
    outside the lock, a wake-up or a time-out, and the scheduler chooses the actions and whom a
    notification wakes.  Testing the condition of a wait and blocking are one action: only the
    holder of the mutex changes the queue, and a notification in between would find the
    sleepers it finds before the test. *)
From S2P Require Import Prelude PatternFormatter Files CircularQueue Logger.

(** ** The critical sections of [mpmc_blocking_queue] *)

Section mpmc.
  Context {T : Type}.

  (** [None] is to wait on [pop_cv_]. *)
Definition enqueue (item : T) (q : circular_q T) : option (circular_q T) :=
    if full q then None else Some (push_back item q).

Definition enqueue_nowait (item : T) (q : circular_q T) : circular_q T := push_back item q.

  (** [None] is to wait on [push_cv_], or the end of the wait. *)
Definition dequeue (q : circular_q T) : option (T * circular_q T) :=
    if empty q then None else x ← front q; q ← pop_front q; Some (x, q).
End mpmc.

(** ** Messages *)

Inductive async_msg_type := Mlog | Mflush | Mterminate.

Record async_msg := MkAsync { msg_buf : log_msg_buffer; msg_type : async_msg_type; worker_ptr : option nat }.

Definition async_default : async_msg := MkAsync default_buffer Mlog None.
Definition async_log_msg (worker : nat) (m : log_msg) : async_msg := MkAsync (mk_log_msg_buffer m) Mlog (Some worker).
Definition async_flush_msg (worker : nat) : async_msg := MkAsync default_buffer Mflush (Some worker).
Definition terminate_msg : async_msg := MkAsync default_buffer Mterminate None.

(** The move constructor and assignment. *)
Definition move_async (m : async_msg) : async_msg := MkAsync (move_log_msg_buffer (msg_buf m)) (msg_type m) (worker_ptr m).

Inductive async_overflow_policy := block | overrun_oldest.

(** What a thread has to post. *)
Abbreviation posts := (list (async_msg * async_overflow_policy)).

(** ** The pool *)

(** A thread that posts: about to enter the queue, waiting on [pop_cv_], about to notify [push_cv_]. *)
Inductive poster :=
  | Posting (todo : posts)
  | Waiting (m : async_msg) (todo : posts)
  | Notifying (todo : posts).

(** A worker: about to test the queue, for the last time of a [wait_for] or not; waiting on
    [push_cv_]; with a message, about to notify [pop_cv_]; about to process it; returned. *)
Inductive worker :=
  | WDequeue (timed_out : bool)
  | WSleep
  | WPopped (m : async_msg)
  | WProcess (m : async_msg)
  | WExit.

(** History: [posted] and [taken] are the messages in the order they entered and left the queue,
    [lost] those overrun, [finished] those whose processing has returned. *)
Record pool := MkPool {
  queue : circular_q async_msg; workers : list worker; posters : list poster; destroying : bool;
  posted : list async_msg; taken : list async_msg; lost : list async_msg; finished : list async_msg }.

Definition set_workers (ws : list worker) (p : pool) : pool :=
  MkPool (queue p) ws (posters p) (destroying p) (posted p) (taken p) (lost p) (finished p).
Definition set_posters (ps : list poster) (p : pool) : pool :=
  MkPool (queue p) (workers p) ps (destroying p) (posted p) (taken p) (lost p) (finished p).
Definition set_worker (j : nat) (w : worker) (p : pool) : pool := set_workers (<[j := w]> (workers p)) p.
Definition set_poster (i : nat) (s : poster) (p : pool) : pool := set_posters (<[i := s]> (posters p)) p.

(** The constructor, with the threads that will post through loggers of this pool. *)
Definition thread_pool (q_max_items threads_n : nat) (programs : list posts) : outcome pool :=
  if (threads_n =? 0)%nat || (1000 <? threads_n)%nat then
    Throw (B "spdlog::thread_pool(): invalid threads_n param (valid range is 1-1000)")
  else
    Ok (MkPool (mk_circular_q async_default q_max_items) (replicate threads_n (WDequeue false))
          (Posting <$> programs) false [] [] [] []).

(** ** Posting *)

Definition entered (i : nat) (m : async_msg) (todo : posts) (q : circular_q async_msg) (gone : list async_msg) (p : pool) : pool :=
  MkPool q (workers p) (<[i := Notifying todo]> (posters p)) (destroying p) (posted p ++ [m]) (taken p) (lost p ++ gone) (finished p).

(** [post_async_msg_], up to the end of the critical section. *)
Definition post (i : nat) (p : pool) : option pool :=
  match posters p !! i with
  | Some (Posting ((m, block) :: todo)) =>
      Some match enqueue m (queue p) with
           | Some q => entered i m todo q [] p
           | None => set_poster i (Waiting m todo) p
           end
  | Some (Posting ((m, overrun_oldest) :: todo)) =>
      let gone := if full (queue p) then option_list (head (items (queue p) ++ [m])) else [] in
      Some (entered i m todo (enqueue_nowait m (queue p)) gone p)
  | _ => None
  end.

Definition sleeping (w : worker) : bool := match w with WSleep => true | _ => false end.
Definition waiting (s : poster) : bool := match s with Waiting _ _ => true | _ => false end.

Definition wake_worker (j : nat) (p : pool) : option pool :=
  match workers p !! j with Some WSleep => Some (set_worker j (WDequeue false) p) | _ => None end.

Definition wake_poster (i : nat) (p : pool) : option pool :=
  match posters p !! i with Some (Waiting m todo) => Some (set_poster i (Posting ((m, block) :: todo)) p) | _ => None end.

(** [push_cv_.notify_one()] of poster [i]: wakes the sleeper [j] the scheduler chooses. *)
Definition notify_push (i j : nat) (p : pool) : option pool :=
  match posters p !! i with
  | Some (Notifying todo) =>
      let p := set_poster i (Posting todo) p in
      if existsb sleeping (workers p) then wake_worker j p else Some p
  | _ => None
  end.

(** ** Working *)

(** [dequeue_for]: a wait that has timed out tests a last time, and [process_next_msg_] returns
    [true]: the loop calls it again. *)
Definition take_msg (j : nat) (p : pool) : option pool :=
  match workers p !! j with
  | Some (WDequeue timed_out) =>
      if empty (queue p) then Some (set_worker j (if timed_out then WDequeue false else WSleep) p)
      else
        '(m, q) ← dequeue (queue p);
        Some (MkPool q (<[j := WPopped m]> (workers p)) (posters p) (destroying p) (posted p) (taken p ++ [m]) (lost p) (finished p))
  | _ => None
  end.

(** [pop_cv_.notify_one()] of worker [j]. *)
Definition notify_pop (j i : nat) (p : pool) : option pool :=
  match workers p !! j with
  | Some (WPopped m) =>
      let p := set_worker j (WProcess m) p in
      if existsb waiting (posters p) then wake_poster i p else Some p
  | _ => None
  end.

(** The switch of [process_next_msg_]; what the logger does is in [AsyncLogger]. *)
Definition process (j : nat) (p : pool) : option pool :=
  match workers p !! j with
  | Some (WProcess m) =>
      let w := match msg_type m with Mterminate => WExit | _ => WDequeue false end in
      Some (MkPool (queue p) (<[j := w]> (workers p)) (posters p) (destroying p) (posted p) (taken p) (lost p) (finished p ++ [m]))
  | _ => None
  end.

(** ** Destruction *)

Definition idle (s : poster) : bool := match s with Posting [] => true | _ => false end.

(** The destructor, which runs when the last reference is dropped: a thread that posts holds
    one.  It becomes the last poster; joining the workers is the end of all actions. *)
Definition destroy (p : pool) : option pool :=
  if negb (destroying p) && forallb idle (posters p) then
    Some (MkPool (queue p) (workers p) (posters p ++ [Posting (replicate (length (workers p)) (terminate_msg, block))])
            true (posted p) (taken p) (lost p) (finished p))
  else None.

Definition exited (w : worker) : bool := match w with WExit => true | _ => false end.

(** Every worker is joined, and the destructor returns. *)
Definition joined (p : pool) : bool := destroying p && forallb idle (posters p) && forallb exited (workers p).

(** ** Actions and runs *)

Inductive action :=
  | APost (i : nat)
  | ANotifyPush (i j : nat)
  | ATake (j : nat)
  | ANotifyPop (j i : nat)
  | AProcess (j : nat)
  | ADestroy
  | ATimeout (j : nat)         (* the 10 seconds of a [wait_for] are over *)
  | AWakeWorker (j : nat)      (* a spurious wake-up *)
  | AWakePoster (i : nat).

Definition timeout (j : nat) (p : pool) : option pool :=
  match workers p !! j with Some WSleep => Some (set_worker j (WDequeue true) p) | _ => None end.

Definition act (a : action) (p : pool) : option pool :=
  match a with
  | APost i => post i p
  | ANotifyPush i j => notify_push i j p
  | ATake j => take_msg j p
  | ANotifyPop j i => notify_pop j i p
  | AProcess j => process j p
  | ADestroy => destroy p
  | ATimeout j => timeout j p
  | AWakeWorker j => wake_worker j p
  | AWakePoster i => wake_poster i p
  end.

(** Time-outs and spurious wake-ups are not progress. *)
Definition unprompted (a : action) : bool := match a with ATimeout _ | AWakeWorker _ | AWakePoster _ => true | _ => false end.

Fixpoint acts (l : list action) (p : pool) : option pool :=
  match l with [] => Some p | a :: l => p ← act a p; acts l p end.

Definition overrun_counter (p : pool) : Z := overrun_counter_ (queue p).
Definition queue_size (p : pool) : nat := size (queue p).
