(* ===== verification/AsyncTheory.v ===== *)
(** * The asynchronous thread pool: its invariant, progress and end

    What every action of [AsyncPool] keeps: where each message is, the order of the queue, the
    balance of sleepers and notifications on both condition variables, and the terminate
    messages of the destructor; from it, that the pool never deadlocks, and a measure that every
    action but time-outs and spurious wake-ups decreases. *)
From S2P Require Import Prelude CLib Fmt PatternFormatter Files CircularQueue Logger AsyncPool.

#[local] Arguments countb : simpl never.
#[local] Arguments weigh : simpl never.

(** ** What is counted *)

Definition terminating (m : async_msg) : bool := match msg_type m with Mterminate => true | _ => false end.

(** The message a worker holds. *)
Definition held (w : worker) : option async_msg := match w with WPopped m | WProcess m => Some m | _ => None end.
Definition popped (w : worker) : bool := match w with WPopped _ => true | _ => false end.
(** The worker will test the queue again without being woken, or will not. *)
Definition awake (w : worker) : bool :=
  match w with WDequeue _ => true | WPopped m | WProcess m => negb (terminating m) | _ => false end.
Definition stopping (w : worker) : bool :=
  match w with WExit => true | WPopped m | WProcess m => terminating m | _ => false end.

Definition notifying (s : poster) : bool := match s with Notifying _ => true | _ => false end.
Definition ready (s : poster) : bool := match s with Posting (_ :: _) => true | _ => false end.
Definition todo_of (s : poster) : posts :=
  match s with Posting todo | Notifying todo => todo | Waiting m todo => (m, block) :: todo end.

(** The threads that post: first those of the program, without terminate messages; then only the
    destructor, with [k] of them left. *)
Definition users_ok (n : nat) (destroying : bool) (ps : list poster) (posted : list async_msg) : Prop :=
  if destroying then
    exists us d k old, ps = us ++ [d] /\ Forall (fun s => idle s = true) us /\ todo_of d = replicate k (terminate_msg, block) /\
      k <= n /\ posted = old ++ replicate (n - k) terminate_msg /\ countb terminating old = 0
  else
    Forall (fun s => Forall (fun mp => terminating (fst mp) = false) (todo_of s)) ps /\ countb terminating posted = 0.

Record pool_inv (n cap : nat) (p : pool) : Prop := {
  inv_wf : wf (queue p);
  inv_max : max_items_ (queue p) = S cap;
  inv_workers : length (workers p) = n;
  inv_fate : posted p ≡ₚ taken p ++ items (queue p) ++ lost p;
  inv_order : sublist (taken p ++ items (queue p)) (posted p);
  inv_overrun : overrun_counter_ (queue p) = u64 (Z.of_nat (length (lost p)));
  inv_held : taken p ≡ₚ finished p ++ omap held (workers p);
  inv_one : n = 1 -> taken p = finished p ++ omap held (workers p);
  inv_push : countb sleeping (workers p) = 0 \/ size (queue p) <= countb notifying (posters p) + countb awake (workers p);
  inv_pop : countb waiting (posters p) = 0 \/ cap <= size (queue p) + countb popped (workers p) + countb ready (posters p);
  inv_stop : countb terminating (taken p) = countb stopping (workers p);
  inv_lost : countb terminating (lost p) = 0;
  inv_users : users_ok n (destroying p) (posters p) (posted p) }.

(** ** Posters *)

Lemma idle_ready s : idle s = true -> ready s = false /\ waiting s = false /\ notifying s = false /\ todo_of s = [].
Proof. by destruct s as [[]| |]. Qed.

Lemma users_active n ps posted i s :
  users_ok n true ps posted -> ps !! i = Some s -> idle s = false ->
  exists us k old, ps = us ++ [s] /\ i = length us /\ Forall (fun s => idle s = true) us /\ todo_of s = replicate k (terminate_msg, block) /\
    k <= n /\ posted = old ++ replicate (n - k) terminate_msg /\ countb terminating old = 0.
Proof.
  intros (us & d & k & old & -> & Hus & Htodo & Hk & Hp & Hold) Hs Hi.
  apply lookup_app_Some in Hs as [Hs|[Hle Hs]].
  - rewrite Forall_lookup in Hus. rewrite (Hus i s Hs) in Hi. done.
  - apply list_lookup_singleton_Some in Hs as [Hz ->]. exists us, k, old. split_and!; try done. lia.
Qed.

Lemma users_same n b ps posted i s s' :
  users_ok n b ps posted -> ps !! i = Some s -> idle s = false -> todo_of s' = todo_of s -> users_ok n b (<[i := s']> ps) posted.
Proof.
  destruct b; intros Hu Hs Hi Ht.
  - destruct (users_active _ _ _ _ _ Hu Hs Hi) as (us & k & old & -> & -> & Hus & Htodo & Hk & Hp & Hold).
    exists us, s', k, old. rewrite insert_app_r_alt, Nat.sub_diag by lia. split_and!; try done. by rewrite Ht.
  - destruct Hu as [Hps Hp]. split; [|done]. apply Forall_insert; [done|]. rewrite Ht. by apply (Forall_lookup_1 _ _ _ _ Hps Hs).
Qed.

Lemma users_post n b ps posted i m pol todo :
  users_ok n b ps posted -> ps !! i = Some (Posting ((m, pol) :: todo)) ->
  users_ok n b (<[i := Notifying todo]> ps) (posted ++ [m]) /\ (pol = block \/ countb terminating (posted ++ [m]) = 0).
Proof.
  destruct b; intros Hu Hs.
  - destruct (users_active _ _ _ _ _ Hu Hs eq_refl) as (us & k & old & -> & -> & Hus & Htodo & Hk & -> & Hold).
    destruct k as [|k]; [done|]. injection Htodo as -> -> Htodo. split; [|by left].
    exists us, (Notifying todo), k, old. rewrite insert_app_r_alt, Nat.sub_diag by lia. split_and!; try done; [lia|].
    rewrite <- app_assoc. f_equal. replace (n - k) with (S (n - S k)) by lia. by rewrite replicate_S_end.
  - destruct Hu as [Hps Hp]. pose proof (Forall_lookup_1 _ _ _ _ Hps Hs) as [Hm Htodo]%Forall_cons. cbn in Hm.
    assert (countb terminating (posted ++ [m]) = 0) as Hp' by (rewrite countb_app, Hp, countb_cons, Hm; done).
    split; [|by right]. split; [|done]. by apply Forall_insert.
Qed.

Lemma list_omap_insert_same {A B} (f : A -> option B) (l : list A) i x y :
  l !! i = Some x -> f y = f x -> omap f (<[i := y]> l) = omap f l.
Proof.
  revert i. induction l as [|z l IH]; intros [|i] Hl Hf; simplify_eq/=; [by rewrite Hf|]. by rewrite (IH i).
Qed.

Lemma list_omap_insert_some {A B} (f : A -> option B) (l : list A) i x y b :
  l !! i = Some x -> f x = None -> f y = Some b -> omap f (<[i := y]> l) ≡ₚ b :: omap f l.
Proof.
  revert i. induction l as [|z l IH]; intros [|i] Hl Hx Hy; simplify_eq/=; [by rewrite Hx, Hy|].
  destruct (f z); rewrite (IH i) by done; [by constructor|done].
Qed.

(** The counts after the change of one poster or one worker. *)
Ltac poster_facts Hs s' :=
  pose proof (countb_insert notifying _ _ s' _ Hs); pose proof (countb_insert waiting _ _ s' _ Hs); pose proof (countb_insert ready _ _ s' _ Hs).
Ltac worker_facts Hw w' :=
  pose proof (countb_insert sleeping _ _ w' _ Hw); pose proof (countb_insert awake _ _ w' _ Hw);
  pose proof (countb_insert popped _ _ w' _ Hw); pose proof (countb_insert stopping _ _ w' _ Hw).

(** ** Every action keeps the invariant *)

Lemma acts_keep (P : pool -> Prop) l p p' : (forall a p p', act a p = Some p' -> P p -> P p') -> acts l p = Some p' -> P p -> P p'.
Proof.
  intros HP. revert p. induction l as [|a l IH]; intros p; cbn; [by intros [= ->]|].
  destruct (act a p) as [p1|] eqn:Ha; [|done]. intros Hl Hp. eapply IH; [exact Hl|]. by eapply HP.
Qed.

Section invariant.
  Context (n cap : nat).
  Abbreviation inv := (pool_inv n cap).

Lemma items_size p : inv p -> length (items (queue p)) = size (queue p) /\ size (queue p) <= cap.
Proof.
    intros Hp. rewrite items_length by apply Hp. destruct (size_bound (queue p)) as [Hb _]; [apply Hp|].
    unfold capacity in Hb. rewrite (inv_max _ _ _ Hp) in Hb. split; [done|lia].
  Qed.

  (** A poster that changes its state, and not what it has to post. *)
Lemma set_poster_inv p i s s' :
    inv p -> posters p !! i = Some s -> idle s = false -> todo_of s' = todo_of s ->
    (countb sleeping (workers p) = 0 \/ size (queue p) + Nat.b2n (notifying s) <=
      countb notifying (posters p) + Nat.b2n (notifying s') + countb awake (workers p)) ->
    (countb waiting (<[i := s']> (posters p)) = 0 \/ cap + Nat.b2n (ready s) <=
      size (queue p) + countb popped (workers p) + countb ready (posters p) + Nat.b2n (ready s')) ->
    inv (set_poster i s' p).
Proof.
    intros [] Hs Hi Ht Hpush Hpop. poster_facts Hs s'. split; cbn; try done; [lia|lia|by eapply users_same].
  Qed.

Lemma wake_poster_inv p p' i : wake_poster i p = Some p' -> inv p -> inv p'.
Proof.
    unfold wake_poster. destruct (posters p !! i) as [[| m todo|]|] eqn:Hs; try done. intros [= <-] Hp.
    apply (set_poster_inv _ _ _ _ Hp Hs); [done|done|..]; destruct Hp; cbn; [lia|]. poster_facts Hs (Posting ((m, block) :: todo)).
    cbn in *. lia.
  Qed.

  (** A worker that changes its state, with the message it holds. *)
Lemma set_worker_inv p j w w' :
    inv p -> workers p !! j = Some w -> held w' = held w -> stopping w' = stopping w ->
    (countb sleeping (<[j := w']> (workers p)) = 0 \/ size (queue p) + Nat.b2n (awake w) <=
      countb notifying (posters p) + countb awake (workers p) + Nat.b2n (awake w')) ->
    (countb waiting (posters p) = 0 \/ cap + Nat.b2n (popped w) <=
      size (queue p) + countb popped (workers p) + countb ready (posters p) + Nat.b2n (popped w')) ->
    inv (set_worker j w' p).
Proof.
    intros [] Hw Hh Hst Hpush Hpop. worker_facts Hw w'.
    assert (omap held (<[j := w']> (workers p)) = omap held (workers p)) as Hho.
    { apply list_omap_insert_same with w; done. }
    split; cbn; rewrite ?Hho; try done; [by rewrite length_insert|lia|lia|]. rewrite Hst in *. lia.
  Qed.

Lemma wake_worker_inv p p' j : wake_worker j p = Some p' -> inv p -> inv p'.
Proof.
    unfold wake_worker. destruct (workers p !! j) as [[| |m|m|]|] eqn:Hw; try done. intros [= <-] Hp.
    apply (set_worker_inv _ _ _ _ Hp Hw); [done|done|..]; destruct Hp; cbn; [|lia]. worker_facts Hw (WDequeue false). cbn in *. lia.
  Qed.

Lemma timeout_inv p p' j : timeout j p = Some p' -> inv p -> inv p'.
Proof.
    unfold timeout. destruct (workers p !! j) as [[| |m|m|]|] eqn:Hw; try done. intros [= <-] Hp.
    apply (set_worker_inv _ _ _ _ Hp Hw); [done|done|..]; destruct Hp; cbn; [|lia]. worker_facts Hw (WDequeue true). cbn in *. lia.
  Qed.

Lemma notify_push_inv p p' i j : notify_push i j p = Some p' -> inv p -> inv p'.
Proof.
    unfold notify_push. destruct (posters p !! i) as [[| |todo]|] eqn:Hs; try done.
    intros Hr Hp. cbn in Hr. destruct (existsb sleeping (workers p)) eqn:Hsl.
    - unfold wake_worker in Hr. cbn in Hr. destruct (workers p !! j) as [w|] eqn:Hw; [|done]. destruct w; try done.
      injection Hr as <-. poster_facts Hs (Posting todo).
      (* first the wake-up, then the notification is spent *)
      assert (inv (set_worker j (WDequeue false) p)) as Hp' by (apply (wake_worker_inv p _ j); [unfold wake_worker; by rewrite Hw|done]).
      worker_facts Hw (WDequeue false). pose proof (inv_push _ _ _ Hp) as Hpush.
      apply (set_poster_inv _ _ (Notifying todo) (Posting todo) Hp'); [done|done|done|..]; cbn in *; [lia|].
      pose proof (inv_pop _ _ _ Hp') as Hpop. cbn in Hpop. destruct todo; cbn in *; lia.
    - injection Hr as <-. apply countb_existsb in Hsl.
      apply (set_poster_inv _ _ (Notifying todo) (Posting todo) Hp); [done|done|done|by left|].
      poster_facts Hs (Posting todo). pose proof (inv_pop _ _ _ Hp) as Hpop. cbn in *. destruct todo; cbn in *; lia.
  Qed.

Lemma notify_pop_inv p p' i j : notify_pop j i p = Some p' -> inv p -> inv p'.
Proof.
    unfold notify_pop. destruct (workers p !! j) as [[| |m|m|]|] eqn:Hw; try done.
    intros Hr Hp. cbn in Hr. destruct (existsb waiting (posters p)) eqn:Hsl.
    - unfold wake_poster in Hr. cbn in Hr. destruct (posters p !! i) as [s|] eqn:Hs; [|done]. destruct s as [| mw todo|]; try done.
      injection Hr as <-. worker_facts Hw (WProcess m).
      assert (inv (set_poster i (Posting ((mw, block) :: todo)) p)) as Hp' by (apply (wake_poster_inv p _ i); [unfold wake_poster; by rewrite Hs|done]).
      poster_facts Hs (Posting ((mw, block) :: todo)). pose proof (inv_pop _ _ _ Hp) as Hpop. pose proof (inv_push _ _ _ Hp') as Hpush.
      apply (set_worker_inv _ _ (WPopped m) (WProcess m) Hp'); [done|done|done|..]; cbn in *; lia.
    - injection Hr as <-. apply countb_existsb in Hsl. worker_facts Hw (WProcess m). pose proof (inv_push _ _ _ Hp) as Hpush.
      apply (set_worker_inv _ _ (WPopped m) (WProcess m) Hp); [done|done|done|..]; cbn in *; [lia|by left].
  Qed.

Lemma process_inv p p' j : process j p = Some p' -> inv p -> inv p'.
Proof.
    unfold process. destruct (workers p !! j) as [[| | |m|]|] eqn:Hw; try done.
    set (w' := match msg_type m with Mterminate => WExit | _ => WDequeue false end). intros [= <-] [].
    assert (held w' = None /\ stopping w' = terminating m /\ awake w' = negb (terminating m) /\ sleeping w' = false /\ popped w' = false)
      as (Hh & Hst & Haw & Hsl & Hpo) by (unfold w', terminating; by destruct (msg_type m)).
    assert (omap held (workers p) ≡ₚ m :: omap held (<[j := w']> (workers p))) as Hperm.
    { rewrite <- (list_insert_id (workers p) j (WProcess m)) at 1 by done.
      rewrite <- (list_insert_insert_eq (workers p) j (WProcess m) w').
      apply list_omap_insert_some with w'; [|done|done]. apply list_lookup_insert_eq. by eapply lookup_lt_Some. }
    worker_facts Hw w'. rewrite Hst, Haw, Hsl, Hpo in *. cbn [stopping awake sleeping popped] in *.
    split; cbn [queue workers posters destroying posted taken lost finished]; try done; [by rewrite length_insert| | |lia|lia|lia].
    - rewrite inv_held0, Hperm, <- app_assoc. done.
    - intros ->. destruct (workers p) as [|w [|]]; try done. destruct j as [|j]; [|done]. injection Hw as ->.
      rewrite inv_one0 by done. cbn. rewrite Hh. cbn. by rewrite app_nil_r.
  Qed.

Lemma take_inv p p' j : take_msg j p = Some p' -> inv p -> inv p'.
Proof.
    unfold take_msg. destruct (workers p !! j) as [[t| |m|m|]|] eqn:Hw; try done. intros Hr Hp.
    destruct (items_size p Hp) as [Hlen _]. rewrite empty_size in Hr by apply Hp. destruct (size (queue p) =? 0)%nat eqn:Hz; to_prop.
    - injection Hr as <-. set (w' := if t then WDequeue false else WSleep).
      worker_facts Hw w'. destruct Hp. apply (set_worker_inv p j (WDequeue t) w' ltac:(done) Hw); try by destruct t.
      + right. destruct t; cbn in *; lia.
      + cbn. destruct t; cbn; lia.
    - destruct (pop_front_items (queue p)) as (q & Hq & Hwf & Hit & Hmax & Hov); [apply Hp|done|].
      unfold dequeue in Hr. rewrite empty_size, (proj2 (Nat.eqb_neq _ _) Hz), front_items, Hq in Hr by (done || apply Hp).
      destruct (items (queue p)) as [|m rest] eqn:Hi; [cbn in Hlen; lia|]. injection Hr as <-. cbn in Hit.
      assert (size q = length rest) as Hsq by (by rewrite <- Hit, items_length). destruct Hp. worker_facts Hw (WPopped m). rewrite Hi in *.
      cbn [held stopping awake sleeping popped length Nat.b2n] in *.
      split; cbn [queue workers posters destroying posted taken lost finished]; rewrite ?Hit; try done.
      + by rewrite Hmax.
      + by rewrite length_insert.
      + by rewrite <- app_assoc.
      + by rewrite <- app_assoc.
      + by rewrite Hov.
      + rewrite inv_held0, (list_omap_insert_some held _ _ _ (WPopped m) m Hw) by done. rewrite <- app_assoc. f_equiv. by rewrite Permutation_app_comm.
      + intros ->. destruct (workers p) as [|w [|]]; try done. destruct j as [|j]; [|done]. injection Hw as ->.
        rewrite inv_one0 by done. cbn. by rewrite app_nil_r.
      + destruct (terminating m); cbn in *; lia.
      + lia.
      + rewrite countb_app, countb_cons. rewrite countb_nil. lia.
  Qed.

  (** A message that enters the queue, overrunning none or the oldest. *)
Lemma entered_inv p i m pol todo q gone :
    inv p -> posters p !! i = Some (Posting ((m, pol) :: todo)) -> wf q -> max_items_ q = S cap ->
    items (queue p) ++ [m] = gone ++ items q -> overrun_counter_ q = u64 (Z.of_nat (length (lost p) + length gone)) ->
    (gone = [] \/ pol <> block /\ size q = cap) -> inv (entered i m todo q gone p).
Proof.
    intros Hp Hs Hwf Hmax Hit Hov Hgone. destruct (items_size p Hp) as [Hlen Hcap]. destruct Hp. poster_facts Hs (Notifying todo).
    destruct (users_post _ _ _ _ _ _ _ _ inv_users0 Hs) as [Hu Hblock]. cbn [notifying waiting ready Nat.b2n] in *.
    assert (size (queue p) + 1 = length gone + size q) as Hsz.
    { rewrite <- Hlen, <- (items_length q) by done. apply (f_equal length) in Hit. rewrite !length_app in Hit. done. }
    assert (posted p ++ [m] ≡ₚ taken p ++ items q ++ lost p ++ gone) as Hfate.
    { rewrite inv_fate0, <- !app_assoc. f_equiv. rewrite (Permutation_app_comm (lost p) gone), (Permutation_app_comm (lost p) [m]).
      rewrite !app_assoc. f_equiv. rewrite Hit. apply Permutation_app_comm. }
    unfold entered. split; cbn [queue workers posters destroying posted taken lost finished]; try done.
    - transitivity (taken p ++ gone ++ items q); [apply sublist_app; [done|]; by apply sublist_inserts_l|].
      rewrite <- Hit, app_assoc. by apply sublist_app.
    - by rewrite length_app.
    - destruct Hgone as [->|[_ Hq]]; cbn [length] in Hsz; lia.
    - destruct Hgone as [->|[_ Hq]]; cbn [length] in Hsz; lia.
    - rewrite countb_app, inv_lost0. destruct Hgone as [->|[Hpol _]]; [done|]. destruct Hblock as [?|Hz]; [done|].
      rewrite Hfate, !countb_app in Hz. lia.
  Qed.

Lemma post_inv p p' i : post i p = Some p' -> inv p -> inv p'.
Proof.
    unfold post. destruct (posters p !! i) as [s|] eqn:Hs; [|done]. destruct s as [[|[m pol] todo]|m todo|todo]; try done.
    intros Hr Hp. destruct (items_size p Hp) as [Hlen Hcap]. pose proof (inv_max _ _ _ Hp) as Hmax. pose proof (inv_wf _ _ _ Hp) as Hwf.
    assert (full (queue p) = (size (queue p) =? cap)%nat) as Hfull by (rewrite full_size by (done || lia); unfold capacity; by rewrite Hmax, Nat.sub_1_r).
    destruct (push_back_items m (queue p)) as (Hit & Hov & Hm); [done|lia|]. pose proof (push_back_wf m _ Hwf) as Hwf'.
    assert (capacity (queue p) = cap) as Hcapq by (unfold capacity; rewrite Hmax; lia). rewrite Hcapq in Hit.
    assert (full (queue p) = false -> inv (entered i m todo (push_back m (queue p)) [] p)) as Hroom.
    { intros Hnf. rewrite Hnf in *. symmetry in Hfull. to_prop. apply (entered_inv p i m pol todo); try done; [by rewrite Hm| | |by left].
      - rewrite Hit. unfold newest. rewrite length_app. cbn [length]. replace (length (items (queue p)) + 1 - cap) with 0 by lia. done.
      - rewrite Hov, (inv_overrun _ _ _ Hp). cbn [length]. by rewrite Nat.add_0_r. }
    destruct pol.
    - injection Hr as <-. unfold enqueue. destruct (full (queue p)) eqn:Hf; [|by apply Hroom]. symmetry in Hfull. to_prop.
      poster_facts Hs (Waiting m todo). apply (set_poster_inv p i _ (Waiting m todo) Hp Hs); [done|done|..]; destruct Hp; cbn in *; lia.
    - injection Hr as <-. unfold enqueue_nowait. destruct (full (queue p)) eqn:Hf; [|by apply Hroom]. symmetry in Hfull. to_prop.
      destruct (items (queue p) ++ [m]) as [|x rest] eqn:Hx; [by destruct (items (queue p))|]. cbn [head option_list].
      assert (items (push_back m (queue p)) = rest) as Hrest.
      { rewrite Hit. unfold newest. apply (f_equal length) in Hx. rewrite length_app in Hx. cbn [length] in *.
        by replace (S (length rest) - cap) with 1 by lia. }
      apply (entered_inv p i m overrun_oldest todo); try done; [by rewrite Hm|by rewrite Hx, Hrest| |right; split; [done|]].
      + rewrite Hov, (inv_overrun _ _ _ Hp). cbn [length]. unfold u64, wrapu. rewrite Zplus_mod_idemp_l. by rewrite Nat2Z.inj_add.
      + rewrite <- items_length, Hrest by done. apply (f_equal length) in Hx. rewrite length_app in Hx. cbn [length] in Hx. lia.
  Qed.

Lemma destroy_inv p p' : destroy p = Some p' -> inv p -> inv p'.
Proof.
    unfold destroy. destruct (destroying p) eqn:Hd; cbn [negb andb]; [done|]. destruct (forallb idle (posters p)) eqn:Hi; [|done].
    intros [= <-] []. apply forallb_Forall in Hi. rewrite Hd in inv_users0. destruct inv_users0 as [_ Hterm].
    assert (forall f, (forall s, idle s = true -> f s = false) -> countb f (posters p) = 0) as Hnone.
    { intros f Hf. apply countb_zero. eapply Forall_impl; [exact Hi|]. exact Hf. }
    split; cbn [queue workers posters destroying posted taken lost finished]; try done.
    - rewrite countb_app, countb_cons. rewrite countb_nil. lia.
    - left. rewrite countb_app, Hnone; [done|]. intros s Hs. by apply idle_ready in Hs as (_ & ? & _).
    - exists (posters p), (Posting (replicate (length (workers p)) (terminate_msg, block))), n, (posted p).
      rewrite inv_workers0, Nat.sub_diag. cbn [replicate]. rewrite app_nil_r. split_and!; done.
  Qed.

Lemma act_inv a p p' : act a p = Some p' -> inv p -> inv p'.
Proof.
    destruct a; cbn [act]; eauto using post_inv, notify_push_inv, take_inv, notify_pop_inv, process_inv, destroy_inv, timeout_inv,
      wake_worker_inv, wake_poster_inv.
  Qed.

Lemma acts_inv l p p' : acts l p = Some p' -> inv p -> inv p'.
Proof. apply acts_keep. eauto using act_inv. Qed.

Lemma thread_pool_inv programs p :
    Forall (Forall (fun mp => terminating (fst mp) = false)) programs -> thread_pool cap n programs = Ok p -> inv p.
Proof.
    intros Hprog Hp. unfold thread_pool in Hp. destruct ((n =? 0)%nat || (1000 <? n)%nat) eqn:Hn; [done|]. injection Hp as <-.
    assert (items (mk_circular_q async_default cap) = []) as Hnil.
    { apply nil_length_inv. rewrite items_length by apply wf_new. done. }
    assert (forall A (f : A -> bool) x, f x = false -> countb f (replicate n x) = 0) as Hrep.
    { intros A f x Hf. by rewrite countb_replicate, Hf. }
    assert (omap held (replicate n (WDequeue false)) = []) as Hheld by (clear; induction n; done).
    split; cbn [queue workers posters destroying posted taken lost finished]; rewrite ?Hnil, ?Hheld; try done; try (by left; apply Hrep).
    - apply wf_new.
    - cbn. lia.
    - apply length_replicate.
    - left. apply countb_zero, Forall_fmap. by apply Forall_true.
    - by rewrite Hrep.
    - split; [|done]. apply Forall_fmap. exact Hprog.
  Qed.
End invariant.

(** ** No deadlock *)

(** A worker that can act by itself. *)
Definition busy (w : worker) : bool := match w with WDequeue _ | WPopped _ | WProcess _ => true | _ => false end.

Lemma worker_kinds ws : countb sleeping ws + countb awake ws + countb stopping ws = length ws.
Proof.
  induction ws as [|w ws IH]; [done|]. rewrite !countb_cons. cbn [length]. destruct w as [| |m|m|]; cbn; try destruct (terminating m); cbn; lia.
Qed.

Lemma countb_split {A} (f g : A -> bool) l :
  (forall x, g x = true -> f x = true) -> countb f l = 0 -> countb g l = 0.
Proof. intros Hfg. rewrite !countb_zero. intros Hl. eapply Forall_impl; [exact Hl|]. intros x Hx. cbn in *. destruct (g x) eqn:Hg; [|done]. by rewrite (Hfg x Hg) in Hx. Qed.

Lemma sleeper ws : existsb sleeping ws = true -> exists j, ws !! j = Some WSleep.
Proof.
  intros Hs. apply existsb_exists in Hs as (w & Hin & Hw). apply list_elem_of_In, list_elem_of_lookup in Hin as [j Hj]. destruct w; eauto; done.
Qed.

Lemma waiter ps : existsb waiting ps = true -> exists i m todo, ps !! i = Some (Waiting m todo).
Proof.
  intros Hs. apply existsb_exists in Hs as (s & Hin & Hw). apply list_elem_of_In, list_elem_of_lookup in Hin as [i Hi]. destruct s; eauto; done.
Qed.

Definition can_act (p : pool) : Prop := exists a p', unprompted a = false /\ act a p = Some p'.

Section progress.
  Context (n cap : nat) (p : pool) (Hp : pool_inv n cap p).

Lemma busy_acts j w : workers p !! j = Some w -> busy w = true -> can_act p.
Proof.
    intros Hw Hb. destruct w as [t| |m|m|]; try done.
    - destruct (items_size n cap p Hp) as [Hlen _]. exists (ATake j). cbn. unfold take_msg. rewrite Hw.
      destruct (empty (queue p)) eqn:He; [by eexists|]. unfold dequeue. rewrite He. rewrite empty_size in He by apply Hp. to_prop.
      rewrite front_items by (done || apply Hp). destruct (items (queue p)) as [|m rest]; [cbn in Hlen; lia|].
      destruct (pop_front_items (queue p)) as (q & -> & _); [apply Hp|done|]. by eexists.
    - destruct (existsb waiting (posters p)) eqn:Hs.
      + destruct (waiter _ Hs) as (i & mw & todo & Hi). exists (ANotifyPop j i). cbn. unfold notify_pop. rewrite Hw. cbn. rewrite Hs.
        unfold wake_poster. cbn. rewrite Hi. by eexists.
      + exists (ANotifyPop j 0). cbn. unfold notify_pop. rewrite Hw. cbn. rewrite Hs. by eexists.
    - exists (AProcess j). cbn. unfold process. rewrite Hw. by eexists.
  Qed.

Lemma poster_acts i s : posters p !! i = Some s -> notifying s || ready s = true -> can_act p.
Proof.
    intros Hs Hb. destruct s as [[|[m pol] todo]|m todo|todo]; try done.
    - exists (APost i). cbn. unfold post. rewrite Hs. destruct pol; by eexists.
    - destruct (existsb sleeping (workers p)) eqn:Hsl.
      + destruct (sleeper _ Hsl) as [j Hj]. exists (ANotifyPush i j). cbn. unfold notify_push. rewrite Hs. cbn. rewrite Hsl.
        unfold wake_worker. cbn. rewrite Hj. by eexists.
      + exists (ANotifyPush i 0). cbn. unfold notify_push. rewrite Hs. cbn. rewrite Hsl. by eexists.
  Qed.

  (** Nobody can act by itself: all sleep, wait, are done or have returned. *)
Lemma can_act_or_quiet :
    can_act p \/ countb busy (workers p) = 0 /\ countb (fun s => notifying s || ready s) (posters p) = 0.
Proof.
    destruct (decide (0 < countb busy (workers p))) as [Hb|Hb].
    { destruct (countb_lookup _ _ Hb) as (j & w & Hw & Hbw). left. by eapply busy_acts. }
    destruct (decide (0 < countb (fun s => notifying s || ready s) (posters p))) as [Hr|Hr]; [|right; lia].
    destruct (countb_lookup _ _ Hr) as (i & s & Hs & Hbs). left. by eapply poster_acts.
  Qed.

  (** When the destructor has posted everything and the queue is empty, all workers stop. *)
Lemma destroyed_counts :
    destroying p = true ->
    exists us d k, posters p = us ++ [d] /\ Forall (fun s => idle s = true) us /\ todo_of d = replicate k (terminate_msg, block) /\
      k <= n /\ n - k = countb terminating (items (queue p)) + countb stopping (workers p).
Proof.
    intros Hd. pose proof Hp as []. rewrite Hd in inv_users0. destruct inv_users0 as (us & d & k & old & Hps & Hus & Htodo & Hk & Hpost & Hold).
    exists us, d, k. split_and!; try done.
    pose proof (countb_Proper terminating _ _ inv_fate0) as Hc. rewrite Hpost, !countb_app, countb_replicate, Hold, inv_lost0, inv_stop0 in Hc. cbn in Hc. lia.
  Qed.

Lemma no_deadlock : 0 < n -> 0 < cap -> joined p = false -> can_act p.
Proof.
    intros Hn Hcap Hj. destruct can_act_or_quiet as [?|[Hbusy Hready]]; [done|].
    assert (countb awake (workers p) = 0 /\ countb popped (workers p) = 0) as [Haw Hpo].
    { split; (eapply countb_split; [|exact Hbusy]); intros []; done. }
    assert (countb notifying (posters p) = 0 /\ countb ready (posters p) = 0) as [Hno Hre].
    { split; (eapply countb_split; [|exact Hready]); cbn; intros [[]| |]; done. }
    pose proof (worker_kinds (workers p)) as Hkinds. destruct (items_size n cap p Hp) as [Hlen _].
    pose proof Hp as []. rewrite Haw, Hno, Hpo, Hre in *.
    assert (countb waiting (posters p) = 0 -> forallb idle (posters p) = true) as Hidle.
    { intros Hw. apply forallb_Forall. rewrite countb_zero in Hw, Hready. rewrite Forall_lookup in *. intros i s Hs.
      specialize (Hw i s Hs). specialize (Hready i s Hs). by destruct s as [[]| |]. }
    destruct (destroying p) eqn:Hd.
    - destruct destroyed_counts as (us & d & k & Hps & Hus & Htodo & Hk & Hc); [done|].
      assert (countb sleeping (workers p) = 0) as Hsl.
      { destruct inv_push0 as [?|Hz]; [done|]. assert (items (queue p) = []) as Hi by (apply nil_length_inv; lia). rewrite Hi, countb_nil in Hc.
        assert (countb waiting (posters p) = 0) as Hw by lia. specialize (Hidle Hw). apply forallb_Forall in Hidle.
        rewrite Hps, Forall_app, Forall_singleton in Hidle. destruct Hidle as [_ Hdi]. apply idle_ready in Hdi as (_ & _ & _ & Hnil).
        rewrite Hnil in Htodo. destruct k; [|done]. lia. }
      assert (k = 0) as -> by lia. unfold joined in Hj. rewrite Hd in Hj. cbn [andb] in Hj.
      assert (forallb exited (workers p) = true) as Hex.
      { apply forallb_Forall. rewrite countb_zero in Hbusy, Hsl. rewrite Forall_lookup in *. intros j w Hw.
        specialize (Hbusy j w Hw). specialize (Hsl j w Hw). by destruct w. }
      rewrite Hex, andb_true_r in Hj. exfalso. rewrite Hps, forallb_app in Hj. cbn [forallb] in Hj. rewrite andb_true_r in Hj.
      rewrite (proj2 (forallb_Forall _ _) Hus) in Hj. cbn [andb] in Hj. rewrite Hps, !countb_app in Hno. rewrite countb_cons in Hno.
      destruct d as [[]|m todo|todo]; try done. cbn in Hno. lia.
    - exists ADestroy. cbn. unfold destroy. rewrite Hd. cbn [negb andb]. destruct inv_users0 as [_ Hpost].
      pose proof (countb_Proper terminating _ _ inv_fate0) as Hc. rewrite !countb_app in Hc.
      assert (size (queue p) = 0) as Hz by lia. rewrite Hidle by lia. by eexists.
  Qed.
End progress.

(** ** Every run ends *)

Definition poster_weight (s : poster) : nat :=
  match s with Posting todo => 7 * length todo | Waiting _ todo => 7 * length todo + 6 | Notifying todo => 7 * length todo + 2 end.
Definition worker_weight (w : worker) : nat :=
  match w with WDequeue t => if t then 2 else 1 | WPopped _ => 4 | WProcess _ => 2 | WSleep | WExit => 0 end.

(** A bound on the actions to come, for [n] workers. *)
Definition remaining (n : nat) (p : pool) : nat :=
  weigh poster_weight (posters p) + weigh worker_weight (workers p) + 4 * size (queue p) + (if destroying p then 0 else 7 * n + 1).

Lemma act_remaining n cap a p p' :
  pool_inv n cap p -> act a p = Some p' ->
  if unprompted a then remaining n p' <= remaining n p + 2 else remaining n p' < remaining n p.
Proof.
  intros Hp Ha. pose proof (act_inv _ _ _ _ _ Ha Hp) as Hp'.
  destruct (items_size _ _ _ Hp) as [Hlen Hcap], (items_size _ _ _ Hp') as [Hlen' Hcap'].
  pose proof (inv_wf _ _ _ Hp) as Hwf. pose proof (inv_max _ _ _ Hp) as Hmax. unfold remaining.
  destruct a as [i|i j|j|j i|j| |j|j|i]; cbn [act unprompted] in *.
  - unfold post in Ha. destruct (posters p !! i) as [[[|[m pol] todo]|m todo|todo]|] eqn:Hs; try done.
    assert (size (push_back m (queue p)) <= size (queue p) + 1) as Hpush.
    { rewrite <- !items_length by (by try apply push_back_wf). destruct (push_back_items m (queue p) Hwf) as (-> & _); [lia|].
      unfold newest. rewrite length_drop, length_app. cbn [length]. lia. }
    pose proof (weigh_insert poster_weight _ _ (Notifying todo) _ Hs). pose proof (weigh_insert poster_weight _ _ (Waiting m todo) _ Hs).
    unfold enqueue, enqueue_nowait in Ha. destruct pol; [destruct (full (queue p))|]; injection Ha as <-; cbn in *; lia.
  - unfold notify_push in Ha. destruct (posters p !! i) as [[| |todo]|] eqn:Hs; try done. cbn in Ha.
    pose proof (weigh_insert poster_weight _ _ (Posting todo) _ Hs). unfold wake_worker in Ha. cbn in Ha.
    destruct (existsb sleeping (workers p)); [|injection Ha as <-; cbn in *; lia].
    destruct (workers p !! j) as [[]|] eqn:Hw; try done. injection Ha as <-. pose proof (weigh_insert worker_weight _ _ (WDequeue false) _ Hw). cbn in *. lia.
  - unfold take_msg in Ha. destruct (workers p !! j) as [[t| |m|m|]|] eqn:Hw; try done. rewrite empty_size in Ha by done.
    destruct (size (queue p) =? 0)%nat eqn:Hz; to_prop.
    + pose proof (weigh_insert worker_weight _ _ (if t then WDequeue false else WSleep) _ Hw). injection Ha as <-. destruct t; cbn in *; lia.
    + destruct (pop_front_items (queue p)) as (q & Hq & Hwfq & Hit & _); [done|done|]. unfold dequeue in Ha.
      rewrite empty_size, (proj2 (Nat.eqb_neq _ _) Hz), front_items, Hq in Ha by done.
      destruct (items (queue p)) as [|m rest] eqn:Hi; [cbn in Hlen; lia|]. injection Ha as <-.
      pose proof (weigh_insert worker_weight _ _ (WPopped m) _ Hw). cbn in Hit, Hlen'. rewrite Hit in Hlen'. cbn in *. destruct t; lia.
  - unfold notify_pop in Ha. destruct (workers p !! j) as [[| |m|m|]|] eqn:Hw; try done. cbn in Ha.
    pose proof (weigh_insert worker_weight _ _ (WProcess m) _ Hw). unfold wake_poster in Ha. cbn in Ha.
    destruct (existsb waiting (posters p)); [|injection Ha as <-; cbn in *; lia].
    destruct (posters p !! i) as [[|mw todo|]|] eqn:Hs; try done. injection Ha as <-.
    pose proof (weigh_insert poster_weight _ _ (Posting ((mw, block) :: todo)) _ Hs). cbn in *. lia.
  - unfold process in Ha. destruct (workers p !! j) as [[| | |m|]|] eqn:Hw; try done. injection Ha as <-.
    pose proof (weigh_insert worker_weight _ _ (WDequeue false) _ Hw). pose proof (weigh_insert worker_weight _ _ WExit _ Hw).
    destruct (msg_type m); cbn in *; lia.
  - unfold destroy in Ha. destruct (destroying p); [done|]. cbn in Ha. destruct (forallb idle (posters p)); [|done]. injection Ha as <-.
    cbn. rewrite weigh_app, weigh_single, (inv_workers _ _ _ Hp). cbn. rewrite length_replicate. lia.
  - unfold timeout in Ha. destruct (workers p !! j) as [[]|] eqn:Hw; try done. injection Ha as <-.
    pose proof (weigh_insert worker_weight _ _ (WDequeue true) _ Hw). cbn in *. lia.
  - unfold wake_worker in Ha. destruct (workers p !! j) as [[]|] eqn:Hw; try done. injection Ha as <-.
    pose proof (weigh_insert worker_weight _ _ (WDequeue false) _ Hw). cbn in *. lia.
  - unfold wake_poster in Ha. destruct (posters p !! i) as [[|m todo|]|] eqn:Hs; try done. injection Ha as <-.
    pose proof (weigh_insert poster_weight _ _ (Posting ((m, block) :: todo)) _ Hs). cbn in *. lia.
Qed.

Lemma acts_remaining n cap l p p' :
  pool_inv n cap p -> acts l p = Some p' ->
  length l + remaining n p' <= remaining n p + 3 * countb unprompted l.
Proof.
  revert p. induction l as [|a l IH]; intros p Hp; cbn [acts]; [intros [= ->]; cbn; lia|].
  destruct (act a p) as [p1|] eqn:Ha; [|done]. intros Hl. cbn [mbind option_bind] in Hl.
  pose proof (act_remaining _ _ _ _ _ Hp Ha) as Hr. specialize (IH p1 (act_inv _ _ _ _ _ Ha Hp) Hl).
  rewrite countb_cons. cbn [length]. destruct (unprompted a); cbn [Nat.b2n]; lia.
Qed.

(** ** What is left at the end *)

Lemma countb_sublist {A} (f : A -> bool) l k : sublist l k -> countb f l <= countb f k.
Proof. induction 1; rewrite ?countb_cons; lia. Qed.

(** The terminate messages are the last of the queue. *)
Lemma nothing_behind old n l m :
  sublist (l ++ m) (old ++ replicate n terminate_msg) -> countb terminating old = 0 -> countb terminating l = n -> 0 < n -> m = [].
Proof.
  intros Hs Hold Hl Hn. apply sublist_app_r in Hs as (k1 & k2 & Heq & Hk1 & Hk2).
  pose proof (countb_sublist terminating _ _ Hk1) as Hc1. pose proof (countb_sublist terminating _ _ Hk2) as Hc2.
  rewrite countb_replicate in Hc2. cbn in Hc2. pose proof (f_equal (countb terminating) Heq) as Hc. rewrite !countb_app in Hc.
  pose proof (sublist_length _ _ Hk2) as Hlen. rewrite length_replicate in Hlen. pose proof (countb_le terminating k2) as Hle.
  destruct m as [|x m _] using rev_ind; [done|]. exfalso. rewrite countb_app, countb_cons, countb_nil in Hc.
  destruct k2 as [|y k2 _] using rev_ind; [cbn in *; rewrite countb_nil in *; lia|].
  rewrite !app_assoc in Heq. apply app_inj_tail in Heq as [_ ->].
  assert (countb terminating (k2 ++ [y]) = length (k2 ++ [y])) as Hall by lia. apply countb_all in Hall.
  apply Forall_app in Hall as [_ Hy]. rewrite Forall_singleton in Hy. rewrite Hy in Hc. cbn [Nat.b2n] in Hc. lia.
Qed.

Lemma joined_end n cap p :
  pool_inv n cap p -> 0 < n -> joined p = true ->
  items (queue p) = [] /\ finished p ≡ₚ taken p /\ (n = 1 -> finished p = taken p) /\ countb terminating (finished p) = n /\
  posted p ≡ₚ finished p ++ lost p.
Proof.
  intros Hp Hn Hj. unfold joined in Hj. apply andb_true_iff in Hj as [[Hd Hi]%andb_true_iff Hw]. apply forallb_Forall in Hi, Hw.
  pose proof Hp as []. rewrite Hd in inv_users0. destruct inv_users0 as (us & d & k & old & Hps & Hus & Htodo & Hk & Hpost & Hold).
  assert (k = 0) as ->.
  { rewrite Hps, Forall_app, Forall_singleton in Hi. destruct Hi as [_ (_ & _ & _ & Hnil)%idle_ready]. rewrite Hnil in Htodo. by destruct k. }
  assert (countb stopping (workers p) = n) as Hst.
  { rewrite <- inv_workers0. apply countb_all. eapply Forall_impl; [exact Hw|]. by intros []. }
  rewrite Nat.sub_0_r in Hpost.
  assert (items (queue p) = []) as Hnil by (eapply (nothing_behind old n (taken p)); [by rewrite <- Hpost|done|congruence|done]).
  assert (omap held (workers p) = []) as Hheld.
  { clear - Hw. induction (workers p) as [|w ws IH]; [done|]. apply Forall_cons in Hw as [Hw Hws]. destruct w; try done. by apply IH. }
  rewrite Hheld in *. setoid_rewrite app_nil_r in inv_held0. rewrite app_nil_r in inv_one0. split_and!; [done|by symmetry| | |].
  - intros H1. by rewrite inv_one0.
  - by rewrite <- inv_held0, inv_stop0.
  - rewrite inv_fate0, Hnil, inv_held0. done.
Qed.

(** ** What is posted *)

(** What the threads still have to post. *)
Definition todos (p : pool) : list posts := todo_of <$> posters p.

Lemma todos_same (ps : list poster) i s s' : ps !! i = Some s -> todo_of s' = todo_of s -> todo_of <$> <[i := s']> ps = todo_of <$> ps.
Proof. intros Hs Ht. rewrite list_fmap_insert, Ht. apply list_insert_id. by rewrite list_lookup_fmap, Hs. Qed.

(** Only [post] and [destroy] change what is left to post. *)
Inductive progress (p p' : pool) : Prop :=
  | progress_none :
      todos p' = todos p -> posted p' = posted p -> lost p' = lost p -> destroying p' = destroying p -> progress p p'
  | progress_post i m pol todo :
      todos p !! i = Some ((m, pol) :: todo) -> todos p' = <[i := todo]> (todos p) -> posted p' = posted p ++ [m] ->
      (pol = block -> lost p' = lost p) -> destroying p' = destroying p -> progress p p'
  | progress_destroy :
      destroying p = false -> destroying p' = true -> posted p' = posted p -> lost p' = lost p ->
      todos p' = todos p ++ [replicate (length (workers p)) (terminate_msg, block)] -> progress p p'.

Lemma act_progress a p p' : act a p = Some p' -> progress p p'.
Proof.
  intros Ha. destruct a as [i|i j|j|j i|j| |j|j|i]; cbn [act] in Ha.
  - unfold post in Ha. destruct (posters p !! i) as [[[|[m pol] todo]|m todo|todo]|] eqn:Hs; try done.
    assert (todos p !! i = Some ((m, pol) :: todo)) as Ht by (unfold todos; by rewrite list_lookup_fmap, Hs).
    destruct pol; [destruct (enqueue m (queue p))|]; injection Ha as <-.
    + eapply progress_post; [exact Ht|apply list_fmap_insert|done| |done]. intros _. apply app_nil_r.
    + by apply progress_none; [eapply todos_same|..].
    + eapply progress_post; [exact Ht|apply list_fmap_insert|done|done|done].
  - unfold notify_push in Ha. destruct (posters p !! i) as [[| |todo]|] eqn:Hs; try done. unfold wake_worker in Ha. cbn in Ha.
    destruct (existsb sleeping (workers p)); [destruct (workers p !! j) as [[]|]|]; try done; injection Ha as <-;
      (by apply progress_none; [eapply todos_same|..]).
  - unfold take_msg in Ha. destruct (workers p !! j) as [[]|]; try done. destruct (empty (queue p)); [injection Ha as <-; by apply progress_none|].
    destruct (dequeue (queue p)) as [[m q]|]; [|done]. injection Ha as <-. by apply progress_none.
  - unfold notify_pop in Ha. destruct (workers p !! j) as [[]|]; try done. unfold wake_poster in Ha. cbn in Ha.
    destruct (existsb waiting (posters p)); [destruct (posters p !! i) as [[| mw todo|]|] eqn:Hs|]; try done; injection Ha as <-;
      [|by apply progress_none]. by apply progress_none; [eapply todos_same|..].
  - unfold process in Ha. destruct (workers p !! j) as [[]|]; try done. injection Ha as <-. by apply progress_none.
  - unfold destroy in Ha. destruct (destroying p) eqn:Hd; [done|]. cbn in Ha. destruct (forallb _ _); [|done]. injection Ha as <-.
    apply progress_destroy; try done. unfold todos. cbn. by rewrite fmap_app.
  - unfold timeout in Ha. destruct (workers p !! j) as [[]|]; try done. injection Ha as <-. by apply progress_none.
  - unfold wake_worker in Ha. destruct (workers p !! j) as [[]|]; try done. injection Ha as <-. by apply progress_none.
  - unfold wake_poster in Ha. destruct (posters p !! i) as [[|m todo|]|] eqn:Hs; try done. injection Ha as <-.
    by apply progress_none; [eapply todos_same|..].
Qed.

(** Threads that always block lose nothing. *)
Definition blocking (todo : posts) : Prop := Forall (fun mp => snd mp = block) todo.

Lemma blocking_lossless l p p' :
  acts l p = Some p' -> Forall blocking (todos p) -> lost p = [] -> lost p' = [].
Proof.
  intros Hl Hb Hn. apply (acts_keep (fun p => Forall blocking (todos p) /\ lost p = []) l p p'); [|done|done].
  intros a q q' Ha%act_progress. destruct Ha as [Ht _ Hlo _|i m pol todo Ht Ht' _ Hlo _|_ _ _ Hlo Ht]; intros [Hq Hq0].
  - by rewrite Ht, Hlo.
  - pose proof (Forall_lookup_1 _ _ _ _ Hq Ht) as [Hpol Htodo]%Forall_cons. split; [rewrite Ht'; by apply Forall_insert|]. by rewrite Hlo.
  - rewrite Ht, Hlo, Forall_app, Forall_singleton. split; [split; [done|]|done]. by apply Forall_replicate.
Qed.

(** Every thread posts its program in order, and together they post all of it. *)
Record history (n : nat) (programs : list posts) (p : pool) : Prop := {
  h_length : length (todos p) = length programs + Nat.b2n (destroying p);
  h_order : forall i prog, programs !! i = Some prog -> exists done todo, todos p !! i = Some todo /\
    fst <$> prog = done ++ (fst <$> todo) /\ sublist done (posted p);
  h_all : posted p ++ (fst <$> concat (todos p)) ≡ₚ (fst <$> concat programs) ++ (if destroying p then replicate n terminate_msg else []) }.

Lemma concat_insert {A} (ll : list (list A)) i x l : ll !! i = Some (x :: l) -> x :: concat (<[i := l]> ll) ≡ₚ concat ll.
Proof.
  revert i. induction ll as [|k ll IH]; intros [|i] Hi; simplify_eq/=; [done|]. rewrite <- (IH i) by done. apply Permutation_middle.
Qed.

Lemma act_history n cap programs a p p' :
  act a p = Some p' -> pool_inv n cap p -> history n programs p -> history n programs p'.
Proof.
  intros Ha Hp [Hlen Ho Hh]. apply act_progress in Ha as [Ht Hpo _ Hd|i m pol todo Ht Ht' Hpo _ Hd|Hd Hd' Hpo _ Ht].
  - split; [by rewrite Ht, Hd|by rewrite Ht, Hpo|by rewrite Ht, Hpo, Hd].
  - split; [by rewrite Ht', Hd, length_insert|..].
    + intros j prog Hj. destruct (Ho j prog Hj) as (done & tj & Htj & Heq & Hs). rewrite Ht', Hpo. destruct (decide (i = j)) as [<-|Hne].
      * rewrite list_lookup_insert_eq by (by eapply lookup_lt_Some). rewrite Ht in Htj. injection Htj as <-. exists (done ++ [m]), todo.
        split_and!; [done| |by apply sublist_app]. rewrite Heq, <- app_assoc. done.
      * rewrite list_lookup_insert_ne by done. exists done, tj. split_and!; [done|done|by apply sublist_inserts_r].
    + rewrite Ht', Hpo, Hd, <- Hh, <- app_assoc. f_equiv. rewrite <- (concat_insert (todos p) i _ _ Ht). done.
  - split; [rewrite Hd in Hlen; rewrite Ht, Hd', length_app, Hlen; cbn; lia|..].
    + intros j prog Hj. destruct (Ho j prog Hj) as (done & tj & Htj & Heq & Hs). exists done, tj. rewrite Ht, Hpo.
      split_and!; [|done|done]. by apply lookup_app_l_Some.
    + rewrite Hd in Hh. rewrite app_nil_r in Hh. rewrite Ht, Hpo, Hd', concat_app, fmap_app, app_assoc, Hh. cbn.
      rewrite app_nil_r, (inv_workers _ _ _ Hp), fmap_replicate. done.
Qed.

Lemma thread_pool_history n cap programs p : thread_pool cap n programs = Ok p -> history n programs p.
Proof.
  unfold thread_pool. destruct (_ || _); [done|]. intros [= <-].
  assert (todo_of <$> (Posting <$> programs) = programs) as Ht by (rewrite <- list_fmap_compose; apply list_fmap_id).
  split; unfold todos; cbn; rewrite Ht.
  - lia.
  - intros i prog Hi. exists [], prog. split_and!; [done|done|apply sublist_nil_l].
  - by rewrite app_nil_r.
Qed.

Lemma sublist_full {A} (l k : list A) : sublist l k -> length l = length k -> l = k.
Proof.
  induction 1 as [|x l k Hs IH|x l k Hs IH]; intros Hl; [done|f_equal; apply IH; by injection Hl|].
  apply sublist_length in Hs. cbn in Hl. lia.
Qed.

(** ** The pool as a whole *)

(** Loggers post messages and flushes only. *)
Definition user_program (prog : posts) : Prop := Forall (fun mp => terminating (fst mp) = false) prog.

Lemma run_invs cap n programs p0 l p :
  Forall user_program programs -> thread_pool cap n programs = Ok p0 -> acts l p0 = Some p ->
  pool_inv n cap p /\ history n programs p /\ 0 < n.
Proof.
  intros Hprog H0 Hl.
  assert (pool_inv n cap p /\ history n programs p) as [Hp Hh].
  { apply (acts_keep (fun p => pool_inv n cap p /\ history n programs p) l p0 p); [|done|].
    - intros a q q' Ha [Hq Hqh]. split; [by eapply act_inv|by eapply act_history].
    - split; [by eapply thread_pool_inv|by eapply thread_pool_history]. }
  split_and!; [done|done|]. unfold thread_pool in H0. destruct (n =? 0)%nat eqn:Hn; [done|]. to_prop. lia.
Qed.

Lemma thread_pool_start cap n programs p :
  thread_pool cap n programs = Ok p ->
  lost p = [] /\ todos p = programs /\ remaining n p = 7 * length (concat programs) + 8 * n + 1.
Proof.
  unfold thread_pool. destruct (_ || _); [done|]. intros [= <-].
  assert (todo_of <$> (Posting <$> programs) = programs) as Ht by (rewrite <- list_fmap_compose; apply list_fmap_id).
  split_and!; [done|exact Ht|]. unfold remaining. cbn [posters workers queue destroying].
  assert (weigh poster_weight (Posting <$> programs) = 7 * length (concat programs)) as ->.
  { clear. unfold weigh. induction programs as [|prog programs IH]; [done|]. cbn in *. rewrite length_app. lia. }
  assert (weigh worker_weight (replicate n (WDequeue false)) = n) as ->.
  { clear. unfold weigh. induction n as [|n IH]; [done|]. cbn in *. lia. }
  change (size (mk_circular_q async_default cap)) with 0. lia.
Qed.

Lemma joined_todos p : joined p = true -> destroying p = true /\ concat (todos p) = [].
Proof.
  unfold joined. intros [[Hd Hi]%andb_true_iff _]%andb_true_iff. split; [done|]. apply forallb_Forall in Hi. unfold todos.
  induction Hi as [|s ps Hs _ IH]; [done|]. cbn. rewrite IH. apply idle_ready in Hs as (_ & _ & _ & ->). done.
Qed.

(** One thread: what it has posted are the first messages of its program,
    and at the end those that terminate the workers. *)
Lemma posted_prefix cap n prog p0 l p :
  user_program prog -> thread_pool cap n [prog] = Ok p0 -> acts l p0 = Some p ->
  posted p `prefix_of` (fst <$> prog) ++ replicate n terminate_msg.
Proof.
  intros Hprog H0 Hl. destruct (run_invs cap n [prog] p0 l p) as (Hp & [Hlen Ho Hall] & _); [by repeat constructor|done|done|].
  destruct (Ho 0 prog eq_refl) as (dn & todo & Htodo & Heq & Hsub). cbn [concat] in Hall. rewrite app_nil_r in Hall.
  pose proof (inv_users _ _ _ Hp) as Hu. destruct (destroying p).
  - destruct Hu as (us & d & k & old & Hps & Hus & Hd & Hk & Hpost & Hold). unfold todos in *. rewrite Hps in *.
    destruct us as [|s [|]]; rewrite length_fmap, length_app in Hlen; cbn in Hlen; try lia. apply Forall_singleton, idle_ready in Hus as (_ & _ & _ & Hs).
    cbn in Htodo, Hall. rewrite Hs in *. injection Htodo as <-. cbn in Heq, Hall. rewrite app_nil_r in Heq, Hall.
    rewrite Hd, fmap_replicate, Hpost, Heq, <- app_assoc, <- replicate_add in Hall. cbn [fst] in Hall.
    replace (n - k + k) with n in Hall by lia. apply Permutation_app_inv_r in Hall.
    assert (dn = old) as ->.
    { apply sublist_full; [|by rewrite Hall]. rewrite Hpost in Hsub. apply sublist_app_r in Hsub as (k1 & k2 & -> & Hk1 & Hk2).
      assert (countb terminating (k1 ++ k2) = 0) as Hz by (by rewrite <- Hall). rewrite countb_app in Hz.
      destruct k2 as [|x k2]; [by rewrite app_nil_r|]. rewrite countb_cons in Hz. apply sublist_submseteq in Hk2.
      assert (x ∈ replicate (n - k) terminate_msg) as [-> _]%elem_of_replicate by (eapply elem_of_submseteq; [|exact Hk2]; by left).
      cbn in Hz. lia. }
    rewrite Hpost, Heq. apply prefix_app. exists (replicate k terminate_msg). rewrite <- replicate_add. f_equal. lia.
  - rewrite app_nil_r in Hall. destruct (todos p) as [|t [|]]; try done. injection Htodo as ->. cbn in Hall. rewrite app_nil_r, Heq in Hall.
    apply Permutation_app_inv_r in Hall. apply sublist_full in Hsub as <-; [|by rewrite Hall]. rewrite Heq. by eexists; rewrite <- app_assoc.
Qed.

(** C31: the queue of the asynchronous loggers, whatever the threads and the scheduler do: it never
    holds more than its bound; every message that entered it was taken by one worker, waits, or
    was overrun; those taken and waiting are in the order they entered; the counter tells the
    overruns; a message taken has been processed once or is in a worker's hands; each thread's
    messages enter in the order of its program; with the policy [block] none is lost and the
    queue is first in, first out. *)
Theorem async_queue_correct cap n programs p0 l p :
  Forall user_program programs -> thread_pool cap n programs = Ok p0 -> acts l p0 = Some p ->
  queue_size p <= cap /\ overrun_counter p = u64 (Z.of_nat (length (lost p))) /\
  posted p ≡ₚ taken p ++ items (queue p) ++ lost p /\ sublist (taken p ++ items (queue p)) (posted p) /\
  taken p ≡ₚ finished p ++ omap held (workers p) /\
  (forall i prog, programs !! i = Some prog -> exists done todo, fst <$> prog = done ++ todo /\ sublist done (posted p)) /\
  (Forall blocking programs -> lost p = [] /\ posted p = taken p ++ items (queue p)).
Proof.
  intros Hprog H0 Hl. destruct (run_invs _ _ _ _ _ _ Hprog H0 Hl) as (Hp & Hh & _).
  destruct (items_size _ _ _ Hp) as [_ Hs]. destruct (thread_pool_start _ _ _ _ H0) as (Hlost & Htodos & _).
  split_and!; try apply Hp; [done| |].
  - intros i prog Hi. destruct (h_order _ _ _ Hh i prog Hi) as (dn & todo & _ & Heq & Hsub). exists dn, (fst <$> todo). done.
  - intros Hb. assert (lost p = []) as Hlo by (apply (blocking_lossless l p0 p Hl); [by rewrite Htodos|done]). split; [done|].
    symmetry. apply sublist_full; [apply Hp|]. pose proof (inv_fate _ _ _ Hp) as Hf. rewrite Hlo, app_nil_r in Hf. by rewrite Hf.
Qed.

(** C30: the asynchronous thread pool, with a queue for at least one item (with none it can
    deadlock, [zero_queue_deadlock]), never deadlocks and its destructor returns: a run of [k]
    time-outs and spurious wake-ups has at most [3 k] plus [7] actions per message, [8] per worker and one; as long as the destructor has not
    returned some thread can act without either; and when nobody can, the destructor has
    returned, every worker has, the queue is empty, every message of every thread was posted,
    followed by one to terminate each worker, and all but the overrun ones were processed, once each. *)
Theorem async_pool_terminates cap n programs p0 l p :
  Forall user_program programs -> 0 < cap -> thread_pool cap n programs = Ok p0 -> acts l p0 = Some p ->
  length l <= 7 * length (concat programs) + 8 * n + 1 + 3 * countb unprompted l /\
  (joined p = false -> can_act p) /\
  (joined p = true ->
     queue_size p = 0 /\ posted p ≡ₚ (fst <$> concat programs) ++ replicate n terminate_msg /\
     posted p ≡ₚ finished p ++ lost p /\ countb terminating (finished p) = n).
Proof.
  intros Hprog Hcap H0 Hl. destruct (run_invs _ _ _ _ _ _ Hprog H0 Hl) as (Hp & Hh & Hn).
  destruct (thread_pool_start _ _ _ _ H0) as (_ & _ & Hrem). split_and!.
  - rewrite <- Hrem. pose proof (acts_remaining n cap l p0 p (thread_pool_inv _ _ _ _ Hprog H0) Hl). lia.
  - intros Hj. by apply (no_deadlock n cap p Hp).
  - intros Hj. destruct (joined_end _ _ _ Hp Hn Hj) as (Hi & _ & _ & Hterm & Hpost). destruct (joined_todos p Hj) as [Hd Ht].
    pose proof (h_all _ _ _ Hh) as Hall. rewrite Hd, Ht in Hall. cbn [fmap list_fmap] in Hall. rewrite app_nil_r in Hall.
    split_and!; try done. unfold queue_size. rewrite <- items_length, Hi by apply Hp. done.
Qed.

(** A bound of 0 is accepted, and the first message posted with the policy [block] waits for ever. *)
Lemma zero_queue_deadlock m :
  exists p0 p, thread_pool 0 1 [[(m, block)]] = Ok p0 /\ acts [APost 0; ATake 0] p0 = Some p /\ joined p = false /\ ~ can_act p.
Proof.
  do 2 eexists. split; [reflexivity|]. split; [reflexivity|]. split; [done|]. intros (a & p' & Hu & Ha).
  destruct a as [[|[|i]]|[|[|i]] j|[|[|j]]|[|[|j]] i|[|[|j]]| |j|j|i]; done.
Qed.

(** Two threads and two workers, room for one message. *)
Definition demo_note : log_msg := MkMsg (B "fc") info 0 7 no_loc (B "hello").
Definition demo_programs : list posts := [[(async_log_msg 0 demo_note, block)]; [(async_flush_msg 0, overrun_oldest)]].
Definition demo_run : list action :=
  [ATake 0; ATake 1; APost 0; APost 1; ANotifyPush 1 1; ANotifyPush 0 0; ATake 0; ATake 1; ANotifyPop 0 0; AProcess 0;
   ATake 0; ADestroy; APost 2; ANotifyPush 2 0; APost 2; ATake 0; ANotifyPop 0 2; APost 2; ANotifyPush 2 1; ATake 1;
   ANotifyPop 1 0; AProcess 1; AProcess 0].

Definition demo_end : outcome (option pool) :=
  match thread_pool 1 2 demo_programs with Ok p => Ok (acts demo_run p) | Throw e => Throw e | Undef => Undef end.

Lemma async_queue_correct_witness :
  exists p, demo_end = Ok (Some p) /\ lost p = [async_log_msg 0 demo_note] /\ overrun_counter p = u64 1.
Proof.
  eexists. split; [vm_compute; reflexivity|]. split; [reflexivity|].
  eapply (async_queue_correct 1 2 demo_programs _ demo_run); [repeat constructor|reflexivity|vm_compute; reflexivity].
Defined.

Lemma async_pool_terminates_witness :
  exists p, demo_end = Ok (Some p) /\ joined p = true /\ posted p ≡ₚ finished p ++ lost p.
Proof.
  eexists. split; [vm_compute; reflexivity|]. split; [reflexivity|].
  eapply (async_pool_terminates 1 2 demo_programs _ demo_run); [repeat constructor|lia|reflexivity|vm_compute; reflexivity|reflexivity].
Defined.
