(* ===== verification/AsyncLogger.v ===== *)
(** * The asynchronous logger: [spdlog/async_logger.h], [async_logger-inl.h]

    A logger whose [sink_it_] and [flush_] post to the thread pool; the worker calls its
    [backend_sink_it_] and [backend_flush_].  What reaches the sinks is what the synchronous
    logger would have sent: call by call, and for a whole run of the pool with one worker. *)
From S2P Require Import Prelude CLib Fmt PatternFormatter Files Sinks CircularQueue Logger AsyncPool AsyncTheory.

(** The weak pointer to the pool is [alive] as long as the pool lives. *)
Record async_logger := MkAsyncLogger { base : logger; overflow_policy_ : async_overflow_policy }.

Definition async_clone (new_name : bytes) (a : async_logger) : async_logger := MkAsyncLogger (clone new_name (base a)) (overflow_policy_ a).

Section async_loggers.
  Context {F K W : Type} `{Sink F K W} (localtime : Z -> tm) (this_thread : Z).
  Abbreviation G := (shared K W).

  (** ** The worker's side *)

Definition backend_flush_ (a : async_logger) (g : G) : option G := flush_sinks localtime (sinks_ (base a)) (base a) g.

Definition backend_sink_it_ (msg : log_msg) (a : async_logger) (g : G) : option G :=
    g ← sink_loop localtime msg (sinks_ (base a)) (base a) g;
    if should_flush_ msg (base a) then backend_flush_ a g else Some g.

  (** The calls of [process_next_msg_]; loggers are shared pointers into [objs]. *)
Definition process_msg (objs : gmap nat async_logger) (m : async_msg) (g : G) : option G :=
    match msg_type m with
    | Mlog => id ← worker_ptr m; a ← objs !! id; backend_sink_it_ (b_msg (msg_buf m)) a g
    | Mflush => id ← worker_ptr m; a ← objs !! id; backend_flush_ a g
    | Mterminate => Some g
    end.

Fixpoint process_all (objs : gmap nat async_logger) (l : list async_msg) (g : G) : option G :=
    match l with [] => Some g | m :: l => g ← process_msg objs m g; process_all objs l g end.

  (** ** The caller's side: what is posted, or the exception *)

Definition async_sink_it_ (alive : bool) (id : nat) (msg : log_msg) (a : async_logger) : outcome posts :=
    if alive then Ok [(async_log_msg id msg, overflow_policy_ a)] else Throw (B "async log: thread pool doesn't exist anymore").

Definition async_flush_ (alive : bool) (id : nat) (a : async_logger) : outcome posts :=
    if alive then Ok [(async_flush_msg id, overflow_policy_ a)] else Throw (B "async flush: thread pool doesn't exist anymore").

Definition with_base (l : logger) (a : async_logger) : async_logger := MkAsyncLogger l (overflow_policy_ a).

  (** [log_it_] and the functions of [logger] around it, with the virtual [sink_it_] of this class. *)
Definition async_log_it_ (alive : bool) (id : nat) (msg : log_msg) (log_enabled traceback_enabled : bool) (a : async_logger)
    : outcome posts * async_logger :=
    match (if log_enabled then async_sink_it_ alive id msg a else Ok []) with
    | Ok ps => (Ok ps, if traceback_enabled then with_base (with_tracer (tracer_push_back msg (tracer_ (base a))) (base a)) a else a)
    | r => (r, a)
    end.

  (** [log(source_loc, level, string_view)]: an exception leaves it. *)
Definition async_log (alive : bool) (id : nat) (loc : source_loc) (lvl : level_enum) (msg : bytes) (a : async_logger) (g : G)
    : outcome posts * async_logger * G :=
    let log_enabled := should_log lvl (base a) in
    let traceback_enabled := enabled_ (tracer_ (base a)) in
    if negb log_enabled && negb traceback_enabled then (Ok [], a, g)
    else
      let '(m, g) := mk_log_msg this_thread loc (name_ (base a)) lvl msg g in
      (async_log_it_ alive id m log_enabled traceback_enabled a, g).

  (** [log_]: exceptions of the formatting and of the call are reported. *)
Definition async_log_ (alive : bool) (id : nat) (loc : source_loc) (lvl : level_enum) (formatted : outcome bytes) (a : async_logger) (g : G)
    : outcome posts * async_logger * G :=
    let log_enabled := should_log lvl (base a) in
    let traceback_enabled := enabled_ (tracer_ (base a)) in
    if negb log_enabled && negb traceback_enabled then (Ok [], a, g)
    else
      match formatted with
      | Ok buf =>
          let '(m, g) := mk_log_msg this_thread loc (name_ (base a)) lvl buf g in
          match async_log_it_ alive id m log_enabled traceback_enabled a with
          | (Throw what, a) => (Ok [], a, err_handler_ localtime what (base a) g)
          | (r, a) => (r, a, g)
          end
      | Throw what => (Ok [], a, err_handler_ localtime what (base a) g)
      | Undef => (Undef, a, g)
      end.

Definition post_backtrace (alive : bool) (id : nat) (a : async_logger) (msg : log_msg) (ps : posts) : option posts :=
    match async_sink_it_ alive id msg a with Ok qs => Some (ps ++ qs) | _ => None end.

  (** [dump_backtrace_]; the pool does not go away meanwhile. *)
Definition async_dump_backtrace_ (alive : bool) (id : nat) (a : async_logger) (g : G) : option (outcome posts * async_logger * G) :=
    if negb (enabled_ (tracer_ (base a))) then Some (Ok [], a, g)
    else
      let '(m, g) := mk_log_msg this_thread no_loc (name_ (base a)) info start_text g in
      match async_sink_it_ alive id m a with
      | Ok ps =>
          '(t, ps) ← foreach_pop (post_backtrace alive id a) (tracer_ (base a)) ps;
          let '(m, g) := mk_log_msg this_thread no_loc (name_ (base a)) info end_text g in
          ps ← post_backtrace alive id a m ps;
          Some (Ok ps, with_base (with_tracer t (base a)) a, g)
      | r => Some (r, a, g)
      end.

Definition async_flush (alive : bool) (id : nat) (a : async_logger) : outcome posts := async_flush_ alive id a.

  (** ** Call by call *)

Lemma backend_sink_it_eq msg a g : backend_sink_it_ msg a g = sink_it_ localtime msg (base a) g.
Proof. reflexivity. Qed.

  (** The moves of a message into and out of the queue keep it: they are no steps of the model. *)
Lemma move_async_id id m : move_async (async_log_msg id m) = async_log_msg id m.
Proof.
    unfold move_async, move_log_msg_buffer, async_log_msg. cbn [msg_buf msg_type worker_ptr]. f_equal. by rewrite mk_log_msg_buffer_msg.
  Qed.

  (** A message posted and processed is one given to the sinks. *)
Lemma process_log_msg objs id a m g : objs !! id = Some a -> process_msg objs (async_log_msg id m) g = sink_it_ localtime m (base a) g.
Proof. intros Ha. unfold process_msg. cbn [msg_type worker_ptr async_log_msg msg_buf mbind option_bind]. rewrite Ha, mk_log_msg_buffer_msg. reflexivity. Qed.

Lemma process_flush_msg objs id a g : objs !! id = Some a -> process_msg objs (async_flush_msg id) g = flush_ localtime (base a) g.
Proof. intros Ha. unfold process_msg. cbn. by rewrite Ha. Qed.

Lemma process_all_app objs l k g : process_all objs (l ++ k) g = process_all objs l g ≫= process_all objs k.
Proof. revert g. induction l as [|m l IH]; intros g; cbn; [done|]. destruct (process_msg objs m g); cbn; [apply IH|done]. Qed.

Lemma process_all_terminate objs n g : process_all objs (replicate n terminate_msg) g = Some g.
Proof. induction n as [|n IH]; [done|]. exact IH. Qed.

Lemma process_prefix objs fin ms g :
    fin `prefix_of` ms ++ [terminate_msg] -> process_all objs fin g = process_all objs (take (length fin) ms) g.
Proof.
    intros [k Hk]. destruct k as [|x k _] using rev_ind.
    - rewrite app_nil_r in Hk. subst fin. rewrite process_all_app, take_ge by (rewrite length_app; lia). by destruct (process_all objs ms g).
    - rewrite app_assoc in Hk. apply app_inj_tail in Hk as [-> _]. by rewrite take_app_length.
  Qed.

  (** ** A thread that calls [sink_it_] and [flush_] of asynchronous loggers *)

Inductive request := RSink (id : nat) (msg : log_msg) | RFlush (id : nat).
Definition request_logger (r : request) : nat := match r with RSink id _ | RFlush id => id end.

Definition request_posts (objs : gmap nat async_logger) (r : request) : posts :=
    match objs !! request_logger r with
    | Some a => match (match r with RSink id msg => async_sink_it_ true id msg a | RFlush id => async_flush_ true id a end) with Ok ps => ps | _ => [] end
    | None => []
    end.

  (** The same calls of the synchronous loggers. *)
Definition sync_request (objs : gmap nat async_logger) (r : request) (g : G) : option G :=
    a ← objs !! request_logger r;
    match r with RSink _ msg => sink_it_ localtime msg (base a) g | RFlush _ => flush_ localtime (base a) g end.

Fixpoint sync_requests (objs : gmap nat async_logger) (rs : list request) (g : G) : option G :=
    match rs with [] => Some g | r :: rs => g ← sync_request objs r g; sync_requests objs rs g end.

Definition known (objs : gmap nat async_logger) (r : request) : Prop :=
    exists a, objs !! request_logger r = Some a /\ overflow_policy_ a = block.

Lemma request_posts_known objs r :
    known objs r -> exists m, request_posts objs r = [(m, block)] /\ terminating m = false /\ forall g, process_msg objs m g = sync_request objs r g.
Proof.
    intros (a & Ha & Hpol). unfold request_posts, sync_request. rewrite Ha. destruct r as [id msg|id]; cbn in *; rewrite Hpol; eexists.
    - split_and!; [done|done|]. intros g. by apply process_log_msg.
    - split_and!; [done|done|]. intros g. by apply process_flush_msg.
  Qed.

Lemma requests_posts objs rs :
    Forall (known objs) rs ->
    user_program (concat (request_posts objs <$> rs)) /\ blocking (concat (request_posts objs <$> rs)) /\
    exists ms, fst <$> concat (request_posts objs <$> rs) = ms /\ length ms = length rs /\
      forall k g, process_all objs (take k ms) g = sync_requests objs (take k rs) g.
Proof.
    induction 1 as [|r rs Hr Hrs (Hu & Hb & ms & Hms & Hlen & Hall)].
    { split_and!; [by constructor|by constructor|]. exists []. split_and!; [done|done|]. intros [|k] g; done. }
    destruct (request_posts_known objs r Hr) as (m & Hm & Ht & Hg). cbn [fmap list_fmap concat]. rewrite Hm. cbn [app].
    split_and!; [by constructor|by constructor|]. exists (m :: ms). cbn [fmap list_fmap fst]. split_and!; [by f_equal|cbn; by rewrite Hlen|].
    intros [|k] g; [done|]. cbn [take process_all sync_requests]. rewrite Hg. destruct (sync_request objs r g); [apply Hall|done].
  Qed.
End async_loggers.

(** C29: asynchronous logging is synchronous logging, later: in every run of a pool with one worker
    and a thread that calls blocking loggers, what the worker has done so far is what the
    synchronous loggers do for a first part of the calls; when the destructor has returned, it
    is what they do for all of them. *)
Theorem async_equals_sync {F K W} `{Sink F K W} localtime objs rs cap p0 l p (g : shared K W) :
  Forall (known objs) rs -> thread_pool cap 1 [concat (request_posts objs <$> rs)] = Ok p0 -> acts l p0 = Some p ->
  (exists k, process_all localtime objs (finished p) g = sync_requests localtime objs (take k rs) g) /\
  (joined p = true -> process_all localtime objs (finished p) g = sync_requests localtime objs rs g).
Proof.
  intros Hrs Hstart Hl. destruct (requests_posts localtime objs rs Hrs) as (Hu & Hb & ms & Hms & Hlen & Hall).
  destruct (run_invs cap 1 [concat (request_posts objs <$> rs)] p0 l p) as (Hp & Hh & _); [by repeat constructor|done|done|].
  destruct (thread_pool_start _ _ _ _ Hstart) as (Hlost & Htodos & _).
  assert (lost p = []) as Hlo by (apply (blocking_lossless l p0 p Hl); [rewrite Htodos; by constructor|done]).
  assert (finished p `prefix_of` ms ++ [terminate_msg]) as Hpre.
  { etrans; [|rewrite <- Hms; by apply (posted_prefix cap 1 _ p0 l p)]. pose proof (inv_fate _ _ _ Hp) as Hf.
    rewrite Hlo, app_nil_r in Hf. rewrite <- (sublist_full _ _ (inv_order _ _ _ Hp)) by (by rewrite Hf).
    rewrite (inv_one _ _ _ Hp eq_refl). apply prefix_app_r, prefix_app_r. done. }
  rewrite (process_prefix localtime objs _ _ g Hpre). split; [by exists (length (finished p))|]. intros Hj. rewrite Hall, take_ge; [done|].
  destruct (joined_end _ _ _ Hp ltac:(lia) Hj) as (_ & _ & _ & _ & Hpost). destruct (joined_todos p Hj) as [Hd Ht].
  pose proof (h_all _ _ _ Hh) as Hh2. rewrite Hd, Ht, Hpost, Hlo in Hh2. cbn [concat fmap list_fmap] in Hh2.
  rewrite !app_nil_r, Hms in Hh2. apply Permutation_length in Hh2. rewrite length_app in Hh2. lia.
Qed.

(** The buffered messages of a backtrace are posted oldest first. *)
Lemma foreach_posts id a n q ps :
  wf q -> size q <= n ->
  exists q', foreach_pop_loop n (post_backtrace true id a) q ps =
    Some (q', ps ++ ((fun b => (async_log_msg id (b_msg b), overflow_policy_ a)) <$> items q)) /\ items q' = [].
Proof.
  revert q ps. induction n as [|n IH]; intros q ps Hq Hn; cbn [foreach_pop_loop]; rewrite empty_size by done;
    pose proof (items_length q Hq) as Hlen; destruct (size q =? 0)%nat eqn:Hz; to_prop; try lia.
  1, 2: exists q; assert (items q = []) as -> by (apply nil_length_inv; lia); by rewrite app_nil_r.
  rewrite front_items by done. destruct (pop_front_items q Hq Hz) as (q1 & Hpop & Hq1 & Hi & _).
  destruct (items q) as [|b bs] eqn:Hit; [cbn in Hlen; lia|]. cbn [head mbind option_bind post_backtrace async_sink_it_]. rewrite Hpop.
  destruct (IH q1 (ps ++ [(async_log_msg id (b_msg b), overflow_policy_ a)])) as (q2 & Heq & Hnil); [done| |].
  { rewrite <- items_length, Hi by done. cbn in *. lia. }
  exists q2. split; [|done]. cbn [mbind option_bind]. rewrite Heq, Hi. cbn. by rewrite <- app_assoc.
Qed.

(** The calls of an asynchronous logger: with a pool, [log], with and without a format, and
    [flush] post at most one message, and processing it gives what the synchronous function
    gives, the logger's own state included; [dump_backtrace] posts the start line, the buffered
    messages and the end line and empties the buffer.  Without one, a message at a level that is
    on is lost: a plain text and a flush throw out of the call, a formatted text is
    reported to the error handler. *)
Theorem async_log_correct {F K W} `{Sink F K W} localtime this_thread objs id a loc lvl (g : shared K W) :
  objs !! id = Some a ->
  (forall text, exists ps a' g1, async_log this_thread true id loc lvl text a g = (Ok ps, a', g1) /\ length ps <= 1 /\
     (process_all localtime objs (fst <$> ps) g1 ≫= fun g' => Some (base a', g')) = log localtime this_thread loc lvl text (base a) g) /\
  (forall r, r <> Undef -> exists ps a' g1, async_log_ localtime this_thread true id loc lvl r a g = (Ok ps, a', g1) /\ length ps <= 1 /\
     (process_all localtime objs (fst <$> ps) g1 ≫= fun g' => Some (base a', g')) = log_ localtime this_thread loc lvl r (base a) g) /\
  (exists ps, async_flush true id a = Ok ps /\ process_all localtime objs (fst <$> ps) g = flush_ localtime (base a) g) /\
  (wf (messages_ (tracer_ (base a))) -> enabled_ (tracer_ (base a)) = true -> exists m1 m2 a' g1,
     async_dump_backtrace_ this_thread true id a g =
       Some (Ok ((fun m => (async_log_msg id m, overflow_policy_ a)) <$> m1 :: (b_msg <$> items (messages_ (tracer_ (base a)))) ++ [m2]), a', g1) /\
     message_of this_thread no_loc (name_ (base a)) info start_text m1 /\ message_of this_thread no_loc (name_ (base a)) info end_text m2 /\
     items (messages_ (tracer_ (base a'))) = []) /\
  (should_log lvl (base a) = true ->
     (forall text, exists what g1, async_log this_thread false id loc lvl text a g = (Throw what, a, g1)) /\
     (forall text, exists what g1, async_log_ localtime this_thread false id loc lvl (Ok text) a g = (Ok [], a, err_handler_ localtime what (base a) g1)) /\
     (exists what, async_flush false id a = Throw what)).
Proof.
  intros Ha. split_and!.
  - intros text. unfold async_log, log. destruct (negb _ && negb _); [exists [], a, g; split_and!; [done|cbn; lia|done]|].
    destruct (mk_log_msg _ _ _ _ _ _) as [m g1]. unfold async_log_it_, log_it_. destruct (should_log lvl (base a)); cbn [async_sink_it_].
    + do 3 eexists. split_and!; [done|done|]. cbn [fmap list_fmap fst process_all]. rewrite (process_log_msg _ _ _ _ _ _ Ha).
      destruct (sink_it_ localtime m (base a) g1); [|done]. cbn. by destruct (enabled_ (tracer_ (base a))).
    + do 3 eexists. split_and!; [done|cbn; lia|]. cbn. by destruct (enabled_ (tracer_ (base a))).
  - intros r Hr. unfold async_log_, log_. destruct (negb _ && negb _); [exists [], a, g; split_and!; [done|cbn; lia|done]|].
    destruct r as [text|what|]; [|exists [], a; eexists; split_and!; [done|cbn; lia|done]|done].
    destruct (mk_log_msg _ _ _ _ _ _) as [m g1]. unfold async_log_it_, log_it_. destruct (should_log lvl (base a)); cbn [async_sink_it_].
    + do 3 eexists. split_and!; [done|done|]. cbn [fmap list_fmap fst process_all]. rewrite (process_log_msg _ _ _ _ _ _ Ha).
      destruct (sink_it_ localtime m (base a) g1); [|done]. cbn. by destruct (enabled_ (tracer_ (base a))).
    + do 3 eexists. split_and!; [done|cbn; lia|]. cbn. by destruct (enabled_ (tracer_ (base a))).
  - eexists. split; [done|]. cbn [fmap list_fmap fst process_all]. rewrite (process_flush_msg _ _ _ _ _ Ha).
    by destruct (flush_ localtime (base a) g).
  - intros Hq He. unfold async_dump_backtrace_. rewrite He. cbn [negb]. destruct (mk_log_msg _ _ _ _ start_text g) as [m1 g1] eqn:Hm1.
    cbn [async_sink_it_]. unfold foreach_pop. destruct (foreach_posts id a _ _ [(async_log_msg id m1, overflow_policy_ a)] Hq (Nat.le_refl _)) as (q' & -> & Hnil).
    cbn [mbind option_bind]. destruct (mk_log_msg _ _ _ _ end_text g1) as [m2 g2] eqn:Hm2. exists m1, m2. do 2 eexists. split_and!.
    + cbn. rewrite fmap_app, <- list_fmap_compose. reflexivity.
    + unfold mk_log_msg in Hm1. destruct (now g). by injection Hm1 as <- _.
    + unfold mk_log_msg in Hm2. destruct (now g1). by injection Hm2 as <- _.
    + exact Hnil.
  - intros Hon. split_and!; [| |by eexists]; intros text; unfold async_log, async_log_; rewrite Hon; cbn [negb andb];
      destruct (mk_log_msg _ _ _ _ _ _) as [m g1]; by do 2 eexists.
Qed.

#[local] Existing Instance keeper_Sink.
#[local] Existing Instance recorded_Sink.

(** ** A run: two messages and a flush through a queue of one *)

Definition demo_async : async_logger := MkAsyncLogger demo_logger block.
Definition demo_objs : gmap nat async_logger := {[ 0 := demo_async ]}.
Definition demo_requests : list request := [RSink 0 (MkMsg (B "fc") err 0 7 no_loc (B "disk full")); RFlush 0].
Definition demo_sync_run : list action :=
  [APost 0; ANotifyPush 0 0; APost 0; ATake 0; ANotifyPop 0 0; APost 0; AProcess 0; ANotifyPush 0 0; ATake 0; ANotifyPop 0 0; AProcess 0;
   ATake 0; ADestroy; APost 1; ANotifyPush 1 0; ATake 0; ANotifyPop 0 0; AProcess 0].

Lemma async_equals_sync_witness :
  exists p0 p, thread_pool 1 1 [concat (request_posts demo_objs <$> demo_requests)] = Ok p0 /\ acts demo_sync_run p0 = Some p /\
    process_all (F := unit) (fun _ => demo_tm) demo_objs (finished p) demo_shared = sync_requests (F := unit) (fun _ => demo_tm) demo_objs demo_requests demo_shared.
Proof.
  eexists. eexists. split; [reflexivity|]. split; [vm_compute; reflexivity|].
  eapply (async_equals_sync (F := unit) (fun _ => demo_tm) demo_objs demo_requests 1 _ demo_sync_run); [|reflexivity|vm_compute; reflexivity|reflexivity].
  repeat constructor; eexists; split; reflexivity.
Defined.

Lemma async_log_correct_witness :
  exists ps a' g1, async_log 7 true 0 no_loc err (B "oops") demo_async demo_shared = (Ok ps, a', g1) /\ length ps <= 1.
Proof.
  destruct (async_log_correct (F := unit) (fun _ => demo_tm) 7 demo_objs 0 demo_async no_loc err demo_shared) as (H & _); [reflexivity|].
  destruct (H (B "oops")) as (ps & a' & g1 & Heq & Hlen & _). exists ps, a', g1. split; [exact Heq|exact Hlen].
Defined.
