(* ===== verification/FmtArgs.v ===== *)
(** * Format arguments: [spdlog/fmt/bundled/core.h]

    What a call of the fmt library makes of its arguments: [arg_mapper] turns a C++ value into one
    of the core types, [format_arg_store] keeps the values in an array and the types packed four
    bits each in a descriptor, [basic_format_args] looks arguments up by index and by name, and
    [visit_format_arg] reads the member of the union the type names.  [dynamic_format_arg_store]
    builds the same at run time.  Floating point, 128-bit and custom types are left out. *)
From S2P Require Import Prelude CLib Files.

(** ** Types and values *)

Inductive type_ :=
  | none_type | int_type | uint_type | long_long_type | ulong_long_type | int128_type | uint128_type
  | bool_type | char_type | float_type | double_type | long_double_type
  | cstring_type | string_type | pointer_type | custom_type.

#[global] Instance type_eq_dec : EqDecision type_.
Proof. solve_decision. Defined.

Definition types : list type_ :=
  [none_type; int_type; uint_type; long_long_type; ulong_long_type; int128_type; uint128_type; bool_type; char_type;
   float_type; double_type; long_double_type; cstring_type; string_type; pointer_type; custom_type].

(** The enumerator's value, and the [static_cast] back. *)
Definition type_num (t : type_) : Z :=
  match t with
  | none_type => 0 | int_type => 1 | uint_type => 2 | long_long_type => 3 | ulong_long_type => 4
  | int128_type => 5 | uint128_type => 6 | bool_type => 7 | char_type => 8 | float_type => 9
  | double_type => 10 | long_double_type => 11 | cstring_type => 12 | string_type => 13
  | pointer_type => 14 | custom_type => 15
  end.
Definition type_of_num (n : Z) : type_ := nth (Z.to_nat n) types none_type.

Definition last_integer_type : type_ := char_type.
Definition last_numeric_type : type_ := long_double_type.
Definition is_integral_type (t : type_) : bool :=
  ((type_num none_type <? type_num t) && (type_num t <=? type_num last_integer_type))%Z.
Definition is_arithmetic_type (t : type_) : bool :=
  ((type_num none_type <? type_num t) && (type_num t <=? type_num last_numeric_type))%Z.

(** What a visitor is called with, and what [arg_mapper] maps to: a value of a core type.  A C
    string is its address and, unless that is null, the characters before its terminator; a
    pointer is its address. *)
Inductive operand :=
  | op_monostate
  | op_int (v : Z) | op_uint (v : Z) | op_long_long (v : Z) | op_ulong_long (v : Z)
  | op_bool (v : bool) | op_char (v : ascii)
  | op_cstring (data : Z) (chars : bytes) | op_string (s : bytes) | op_pointer (p : Z).

(** C++ values that can be passed to a formatting function; [long] has 64 bits. *)
Inductive cxx_value :=
  | Cschar (v : Z) | Cuchar (v : Z) | Cshort (v : Z) | Cushort (v : Z) | Cint (v : Z) | Cunsigned (v : Z)
  | Clong (v : Z) | Culong (v : Z) | Clonglong (v : Z) | Culonglong (v : Z) | Cbool (v : bool) | Cchar (v : ascii)
  | Ccharptr (data : Z) (chars : bytes) | Cstring (s : bytes) | Cvoidptr (p : Z) | Cnullptr.

(** [arg_mapper::map]. *)
Definition arg_map (v : cxx_value) : operand :=
  match v with
  | Cschar v => op_int v | Cuchar v => op_uint v | Cshort v => op_int v | Cushort v => op_uint v
  | Cint v => op_int v | Cunsigned v => op_uint v | Clong v => op_long_long v | Culong v => op_ulong_long v
  | Clonglong v => op_long_long v | Culonglong v => op_ulong_long v | Cbool v => op_bool v | Cchar v => op_char v
  | Ccharptr data chars => op_cstring data chars | Cstring s => op_string s
  | Cvoidptr p => op_pointer p | Cnullptr => op_pointer 0
  end.

(** [type_constant]. *)
Definition type_constant (o : operand) : type_ :=
  match o with
  | op_monostate => none_type | op_int _ => int_type | op_uint _ => uint_type | op_long_long _ => long_long_type
  | op_ulong_long _ => ulong_long_type | op_bool _ => bool_type | op_char _ => char_type
  | op_cstring _ _ => cstring_type | op_string _ => string_type | op_pointer _ => pointer_type
  end.

Record named_arg_info := MkNamed { named_name : bytes; named_id : Z }.

(** The union [value]: which member was written, and with what. *)
Inductive value :=
  | int_value (v : Z) | uint_value (v : Z) | long_long_value (v : Z) | ulong_long_value (v : Z)
  | bool_value (v : bool) | char_value (v : ascii) | string_data (data : Z) (chars : bytes) | string_value (s : bytes)
  | pointer (p : Z) | named_args (args : list named_arg_info).

(** The constructors of [value]. *)
Definition make_value (o : operand) : value :=
  match o with
  | op_monostate => int_value 0 | op_int v => int_value v | op_uint v => uint_value v
  | op_long_long v => long_long_value v | op_ulong_long v => ulong_long_value v
  | op_bool v => bool_value v | op_char v => char_value v | op_cstring data chars => string_data data chars
  | op_string s => string_value s | op_pointer p => pointer p
  end.

Record format_arg := MkArg { arg_type : type_; arg_value : value }.

(** The default constructor, and [operator bool]. *)
Definition no_arg : format_arg := MkArg none_type (int_value 0).
Definition has_arg (a : format_arg) : bool := negb (bool_decide (arg_type a = none_type)).

Definition make_arg (v : cxx_value) : format_arg := MkArg (type_constant (arg_map v)) (make_value (arg_map v)).

(** [visit_format_arg]: what the visitor is called with; [None] when the union does not hold the
    member the type names. *)
Definition visit_format_arg (a : format_arg) : option operand :=
  match arg_type a, arg_value a with
  | none_type, _ => Some op_monostate
  | int_type, int_value v => Some (op_int v)
  | uint_type, uint_value v => Some (op_uint v)
  | long_long_type, long_long_value v => Some (op_long_long v)
  | ulong_long_type, ulong_long_value v => Some (op_ulong_long v)
  | bool_type, bool_value v => Some (op_bool v)
  | char_type, char_value v => Some (op_char v)
  | cstring_type, string_data data chars => Some (op_cstring data chars)
  | string_type, string_value s => Some (op_string s)
  | pointer_type, pointer p => Some (op_pointer p)
  | _, _ => None
  end.

(** ** Storing arguments *)

Definition packed_arg_bits : Z := 4.
Definition max_packed_args : Z := 62 / packed_arg_bits.
Definition is_unpacked_bit : Z := Z.shiftl 1 63.
Definition has_named_args_bit : Z := Z.shiftl 1 62.

Fixpoint encode_types (ts : list type_) : Z :=
  match ts with
  | [] => 0
  | t :: ts => Z.lor (type_num t) (u64 (Z.shiftl (encode_types ts) packed_arg_bits))
  end.

(** An argument of a call: the name [fmt::arg] gives it, if any, and the value. *)
Abbreviation call_arg := (option bytes * cxx_value)%type.

Fixpoint init_named_args (arg_count : Z) (args : list call_arg) : list named_arg_info :=
  match args with
  | [] => []
  | (Some name, _) :: args => MkNamed name arg_count :: init_named_args (arg_count + 1) args
  | (None, _) :: args => init_named_args (arg_count + 1) args
  end.

(** The array is of values, or of arguments with their types. *)
Inductive slots := packed (l : list value) | unpacked (l : list format_arg).

(** [values_] or [args_] points at index [first] of the array. *)
Record basic_format_args := MkArgs { desc_ : Z; array : slots; first : nat }.

(** The constructors of [arg_data] fill [NUM_ARGS] elements, or one if that is zero. *)
Definition at_least_one {A} (d : A) (l : list A) : list A := match l with [] => [d] | _ => l end.

(** [format_arg_store] and the constructor of [basic_format_args] from it. *)
Definition make_format_args (args : list call_arg) : basic_format_args :=
  let num_args := length args in
  let named := init_named_args 0 args in
  let num_named_args := length named in
  let is_packed := (Z.of_nat num_args <=? max_packed_args)%Z in
  let desc :=
    Z.lor (if is_packed then encode_types (map (fun a : call_arg => type_constant (arg_map a.2)) args)
           else Z.lor is_unpacked_bit (Z.of_nat num_args))
          (if (num_named_args =? 0)%nat then 0 else has_named_args_bit) in
  let vals := at_least_one (int_value 0) (map (fun a : call_arg => make_value (arg_map a.2)) args) in
  let fargs := at_least_one no_arg (map (fun a : call_arg => make_arg a.2) args) in
  if (num_named_args =? 0)%nat then MkArgs desc (if is_packed then packed vals else unpacked fargs) 0
  else MkArgs desc (if is_packed then packed (named_args named :: vals)
                    else unpacked (MkArg none_type (named_args named) :: fargs)) 1.

(** ** Looking arguments up *)

Definition is_packed (a : basic_format_args) : bool := (Z.land (desc_ a) is_unpacked_bit =? 0)%Z.
Definition has_named_args (a : basic_format_args) : bool := negb (Z.land (desc_ a) has_named_args_bit =? 0)%Z.

Definition args_type (index : Z) (a : basic_format_args) : type_ :=
  let shift := (index * packed_arg_bits)%Z in
  let mask := (Z.shiftl 1 packed_arg_bits - 1)%Z in
  type_of_num (Z.land (Z.shiftr (desc_ a) shift) mask).

Definition max_size (a : basic_format_args) : Z :=
  s32 (if is_packed a then max_packed_args else Z.land (desc_ a) (u64 (- is_unpacked_bit - 1))).

(** [values_[index]] and [args_[index]]; outside the array they are undefined. *)
Definition value_at (index : Z) (a : basic_format_args) : option value :=
  if (Z.of_nat (first a) + index <? 0)%Z then None
  else
    match array a with
    | packed l => l !! Z.to_nat (Z.of_nat (first a) + index)
    | unpacked l => arg_value <$> l !! Z.to_nat (Z.of_nat (first a) + index)
    end.
Definition arg_at (index : Z) (a : basic_format_args) : option format_arg :=
  if (Z.of_nat (first a) + index <? 0)%Z then None
  else
    match array a with
    | packed _ => None
    | unpacked l => l !! Z.to_nat (Z.of_nat (first a) + index)
    end.

(** [get(int)]. *)
Definition get (id : Z) (a : basic_format_args) : option format_arg :=
  if negb (is_packed a) then
    if (id <? max_size a)%Z then arg_at id a else Some no_arg
  else if (max_packed_args <=? id)%Z then Some no_arg
  else
    let t := args_type id a in
    if bool_decide (t = none_type) then Some no_arg
    else v ← value_at id a; Some (MkArg t v).

Fixpoint get_id_loop (name : bytes) (named : list named_arg_info) : Z :=
  match named with
  | [] => -1
  | i :: named => if named_name i =s name then named_id i else get_id_loop name named
  end.

Definition get_id (name : bytes) (a : basic_format_args) : option Z :=
  if negb (has_named_args a) then Some (-1)%Z
  else
    match value_at (-1) a with
    | Some (named_args named) => Some (get_id_loop name named)
    | _ => None
    end.

(** [get(basic_string_view)]. *)
Definition get_by_name (name : bytes) (a : basic_format_args) : option format_arg :=
  id ← get_id name a; if (0 <=? id)%Z then get id a else Some no_arg.

(** ** [dynamic_format_arg_store] *)

(** With a named argument [data_[0]] holds the names; its type is not initialised. *)
Record dynamic_format_arg_store := MkStore { data_ : list format_arg; named_info_ : list named_arg_info }.

Definition empty_store : dynamic_format_arg_store := MkStore [] [].

Definition get_types (s : dynamic_format_arg_store) : Z :=
  Z.lor (Z.lor is_unpacked_bit (Z.of_nat (length (data_ s))))
        (match named_info_ s with [] => 0 | _ => has_named_args_bit end).

(** [get_types()] and [data()]. *)
Definition dynamic_args (s : dynamic_format_arg_store) : basic_format_args :=
  MkArgs (get_types s) (unpacked (data_ s)) (match named_info_ s with [] => 0 | _ => 1 end).

Definition emplace_arg (v : cxx_value) (s : dynamic_format_arg_store) : dynamic_format_arg_store :=
  MkStore (data_ s ++ [make_arg v]) (named_info_ s).

Definition emplace_named (name : bytes) (v : cxx_value) (s : dynamic_format_arg_store) : dynamic_format_arg_store :=
  let data := match named_info_ s with [] => MkArg none_type (named_args []) :: data_ s | _ => data_ s end in
  let data := data ++ [make_arg v] in
  let named := named_info_ s ++ [MkNamed name (s32 (Z.of_nat (length data) - 2))] in
  MkStore (<[0 := MkArg none_type (named_args named)]> data) named.

(** [push_back] of a value and of a named argument. *)
Definition store_push_back (a : call_arg) (s : dynamic_format_arg_store) : dynamic_format_arg_store :=
  match a with (None, v) => emplace_arg v s | (Some name, v) => emplace_named name v s end.

Definition make_store (args : list call_arg) : dynamic_format_arg_store := foldl (fun s a => store_push_back a s) empty_store args.

(** ** Bits *)

Lemma land_high k a b : (0 <= k)%Z -> (0 <= a < 2 ^ k)%Z -> Z.land a (Z.shiftl b k) = 0%Z.
Proof.
  intros Hk Ha. apply Z.bits_inj'. intros n Hn. rewrite Z.land_spec, Z.bits_0, Z.shiftl_spec by done.
  destruct (Z_lt_le_dec n k); [rewrite (Z.testbit_neg_r _ (n - k)) by lia; apply andb_false_r|].
  rewrite <- (Z.mod_small a (2 ^ k)), Z.mod_pow2_bits_high by lia. done.
Qed.

Lemma lor_high k a b : (0 <= k)%Z -> (0 <= a < 2 ^ k)%Z -> Z.lor a (Z.shiftl b k) = (a + b * 2 ^ k)%Z.
Proof.
  intros Hk Ha. pose proof (land_high k a b Hk Ha) as H0. rewrite <- Z.shiftl_mul_pow2 by done.
  rewrite <- Z.lxor_lor, <- Z.add_nocarry_lxor by done. done.
Qed.

Lemma land_bit x k : (0 <= k)%Z -> (Z.land x (Z.shiftl 1 k) =? 0)%Z = negb (Z.testbit x k).
Proof.
  intros Hk. destruct (Z.testbit x k) eqn:Ht; cbn [negb].
  - apply Z.eqb_neq. intros H. assert (Z.testbit (Z.land x (Z.shiftl 1 k)) k = false) as Hb by (by rewrite H, Z.bits_0).
    rewrite Z.land_spec, Ht, Z.shiftl_spec, Z.sub_diag in Hb by done. done.
  - apply Z.eqb_eq, Z.bits_inj'. intros n Hn. rewrite Z.land_spec, Z.bits_0, Z.shiftl_spec by done.
    destruct (Z.eq_dec n k) as [->|]; [by rewrite Ht|]. apply andb_false_intro2.
    change 1%Z with (2 ^ 0)%Z. destruct (Z_lt_le_dec n k); [apply Z.testbit_neg_r; lia|]. apply Z.pow2_bits_false. lia.
Qed.

Lemma type_num_range t : (0 <= type_num t < 2 ^ 4)%Z.
Proof. by destruct t. Qed.

Lemma type_of_type_num t : type_of_num (type_num t) = t.
Proof. by destruct t. Qed.

(** Up to fifteen types fit: none of the shifts loses a bit. *)
Lemma encode_cons t ts :
  length ts < 16 -> (0 <= encode_types ts < 2 ^ (4 * Z.of_nat (length ts)))%Z ->
  encode_types (t :: ts) = (type_num t + encode_types ts * 16)%Z.
Proof.
  intros Hl Hr. cbn [encode_types]. unfold u64, wrapu. rewrite Z.mod_small.
  - rewrite lor_high; [done|done|apply type_num_range].
  - rewrite Z.shiftl_mul_pow2 by done. change (2 ^ packed_arg_bits)%Z with (2 ^ 4)%Z. split; [nia|].
    apply (Z.lt_le_trans _ (2 ^ (4 * Z.of_nat (length ts)) * 2 ^ 4)); [nia|].
    rewrite <- Z.pow_add_r by lia. apply Z.pow_le_mono_r; lia.
Qed.

Lemma encode_range ts : length ts <= 16 -> (0 <= encode_types ts < 2 ^ (4 * Z.of_nat (length ts)))%Z.
Proof.
  induction ts as [|t ts IH]; [done|]. cbn [length]. intros Hl. specialize (IH ltac:(lia)).
  rewrite encode_cons by (done || lia). pose proof (type_num_range t).
  replace (4 * Z.of_nat (S (length ts)))%Z with (4 + 4 * Z.of_nat (length ts))%Z by lia. rewrite Z.pow_add_r by lia. nia.
Qed.

Lemma encode_div ts i :
  length ts <= 16 ->
  ((encode_types ts / 2 ^ (4 * Z.of_nat i)) mod 2 ^ 4)%Z = match ts !! i with Some t => type_num t | None => 0%Z end.
Proof.
  revert ts. induction i as [|i IH]; intros [|t ts] Hl; cbn [length] in Hl.
  - done.
  - rewrite encode_cons by (lia || apply encode_range; lia). rewrite Z.mul_0_r, Z.pow_0_r, Z.div_1_r.
    cbn [lookup list_lookup]. pose proof (type_num_range t). change (2 ^ 4)%Z with 16%Z in *. rewrite Z.mod_add by done. by apply Z.mod_small.
  - cbn [encode_types]. rewrite Z.div_0_l by (apply Z.pow_nonzero; lia). done.
  - rewrite encode_cons by (lia || apply encode_range; lia). cbn [lookup list_lookup]. rewrite <- IH by lia.
    replace (4 * Z.of_nat (S i))%Z with (4 + 4 * Z.of_nat i)%Z by lia. rewrite Z.pow_add_r, <- Z.div_div by lia.
    do 2 f_equal. pose proof (type_num_range t). change (2 ^ 4)%Z with 16%Z in *. rewrite Z.div_add by done. rewrite Z.div_small by done. lia.
Qed.

(** A descriptor: the types or the number of arguments, and the two flags. *)
Definition descriptor (n : Z) (unpacked named : bool) : Z := (n + Z.b2z named * 2 ^ 62 + Z.b2z unpacked * 2 ^ 63)%Z.

Lemma descriptor_bits n up nm :
  (0 <= n < 2 ^ 62)%Z -> Z.testbit (descriptor n up nm) 63 = up /\ Z.testbit (descriptor n up nm) 62 = nm.
Proof.
  intros Hn. rewrite !Z.testbit_odd, !Z.shiftr_div_pow2 by done. unfold descriptor.
  change (2 ^ 63)%Z with (2 * 2 ^ 62)%Z.
  replace ((n + Z.b2z nm * 2 ^ 62 + Z.b2z up * (2 * 2 ^ 62)) / 2 ^ 62)%Z with (Z.b2z nm + 2 * Z.b2z up)%Z.
  2: { replace (n + _ + _)%Z with (n + (Z.b2z nm + 2 * Z.b2z up) * 2 ^ 62)%Z by ring.
       rewrite Z.div_add, Z.div_small by done || lia. lia. }
  replace ((n + Z.b2z nm * 2 ^ 62 + Z.b2z up * (2 * 2 ^ 62)) / (2 * 2 ^ 62))%Z with (Z.b2z up).
  2: { replace (n + _ + _)%Z with (n + Z.b2z nm * 2 ^ 62 + Z.b2z up * (2 * 2 ^ 62))%Z by ring.
       rewrite Z.div_add, Z.div_small; [lia| |done]. destruct nm; cbn [Z.b2z]; lia. }
  by destruct up, nm.
Qed.

Lemma encode_small (args : list call_arg) :
  (Z.of_nat (length args) <= 15)%Z ->
  (0 <= encode_types (map (fun a : call_arg => type_constant (arg_map a.2)) args) < 2 ^ 62)%Z.
Proof.
  intros Hl. assert (length (map (fun a : call_arg => type_constant (arg_map a.2)) args) = length args) as Hts by apply length_map.
  pose proof (encode_range _ ltac:(rewrite Hts; lia)) as He. rewrite Hts in He.
  assert (2 ^ (4 * Z.of_nat (length args)) <= 2 ^ 60)%Z by (apply Z.pow_le_mono_r; lia). lia.
Qed.

Lemma make_format_args_desc args :
  (Z.of_nat (length args) < 2 ^ 31)%Z ->
  let up := negb (Z.of_nat (length args) <=? max_packed_args)%Z in
  let ts := map (fun a : call_arg => type_constant (arg_map a.2)) args in
  desc_ (make_format_args args) =
    descriptor (if up then Z.of_nat (length args) else encode_types ts) up (negb (length (init_named_args 0 args) =? 0)%nat).
Proof.
  intros Hl up ts. unfold make_format_args. fold ts.
  match goal with |- desc_ (if ?b then MkArgs ?d _ _ else _) = _ => transitivity d; [by destruct b|] end.
  assert (has_named_args_bit = Z.shiftl 1 62) as -> by done.
  assert (forall n (b : bool), (0 <= n < 2 ^ 62)%Z ->
    Z.lor n (if b then 0 else Z.shiftl 1 62) = (n + Z.b2z (negb b) * 2 ^ 62)%Z) as Hlor.
  { intros n [] Hn; [rewrite Z.lor_0_r; cbn; lia|]. rewrite lor_high by (done || lia). cbn [negb Z.b2z]. lia. }
  unfold descriptor, up. change max_packed_args with 15%Z. destruct (Z.of_nat (length args) <=? 15)%Z eqn:Hp; to_prop; cbn [negb].
  - pose proof (encode_small args Hp) as He. fold ts in He.
    rewrite Hlor by lia. cbn [Z.b2z]. lia.
  - rewrite (Z.lor_comm is_unpacked_bit), <- Z.lor_assoc, (Z.lor_comm is_unpacked_bit), Z.lor_assoc.
    rewrite (Hlor (Z.of_nat (length args))) by lia.
    unfold is_unpacked_bit. rewrite lor_high; [done|done|].
    destruct (length (init_named_args 0 args) =? 0)%nat; cbn [negb Z.b2z]; lia.
Qed.

(** ** Lookup by index and by name *)

Lemma is_packed_descriptor n up nm arr k : (0 <= n < 2 ^ 62)%Z -> is_packed (MkArgs (descriptor n up nm) arr k) = negb up.
Proof. intros Hn. unfold is_packed, is_unpacked_bit. cbn [desc_]. rewrite land_bit by done. by rewrite (proj1 (descriptor_bits n up nm Hn)). Qed.

Lemma has_named_descriptor n up nm arr k : (0 <= n < 2 ^ 62)%Z -> has_named_args (MkArgs (descriptor n up nm) arr k) = nm.
Proof.
  intros Hn. unfold has_named_args, has_named_args_bit. cbn [desc_]. rewrite land_bit by done.
  rewrite (proj2 (descriptor_bits n up nm Hn)). apply negb_involutive.
Qed.

Lemma max_size_descriptor n nm arr k :
  (0 <= n < 2 ^ 31)%Z -> max_size (MkArgs (descriptor n true nm) arr k) = n.
Proof.
  intros Hn. unfold max_size. rewrite is_packed_descriptor by lia. cbn [negb desc_].
  replace (u64 (- is_unpacked_bit - 1)) with (Z.ones 63) by reflexivity. rewrite Z.land_ones by done.
  unfold descriptor, s32, wraps. cbn [Z.b2z]. rewrite (Z.mod_add _ 1 (2 ^ 63)) by done.
  rewrite (Z.mod_small _ (2 ^ 63)) by (destruct nm; cbn [Z.b2z]; lia).
  replace (n + Z.b2z nm * 2 ^ 62 + 2 ^ (32 - 1))%Z with (n + 2 ^ 31 + (Z.b2z nm * 2 ^ 30) * 2 ^ 32)%Z by (destruct nm; cbn [Z.b2z]; lia).
  rewrite Z.mod_add, Z.mod_small by lia. lia.
Qed.

Lemma args_type_descriptor ts nm arr k i :
  length ts <= 15 -> i < 15 ->
  args_type (Z.of_nat i) (MkArgs (descriptor (encode_types ts) false nm) arr k) = default none_type (ts !! i).
Proof.
  intros Hl Hi. unfold args_type. cbn [desc_]. unfold packed_arg_bits. change (Z.shiftl 1 4 - 1)%Z with (Z.ones 4).
  rewrite Z.land_ones, Z.shiftr_div_pow2 by lia. rewrite (Z.mul_comm _ 4).
  replace ((descriptor (encode_types ts) false nm / 2 ^ (4 * Z.of_nat i)) mod 2 ^ 4)%Z
    with ((encode_types ts / 2 ^ (4 * Z.of_nat i)) mod 2 ^ 4)%Z.
  - rewrite encode_div by lia. destruct (ts !! i) as [t|]; [apply type_of_type_num|done].
  - unfold descriptor. cbn [Z.b2z]. rewrite Z.mul_0_l, Z.add_0_r.
    replace (2 ^ 62)%Z with (2 ^ (58 - 4 * Z.of_nat i) * 2 ^ 4 * 2 ^ (4 * Z.of_nat i))%Z
      by (rewrite <- !Z.pow_add_r by lia; f_equal; lia).
    rewrite !Z.mul_assoc, Z.div_add by (apply Z.pow_nonzero; lia). by rewrite Z.mod_add.
Qed.

(** The argument a call passes at a position, and under a name: the first of that name. *)
Definition nth_arg (args : list call_arg) (i : nat) : format_arg :=
  match args !! i with Some a => make_arg a.2 | None => no_arg end.
Definition find_named (args : list call_arg) (name : bytes) : option nat :=
  fst <$> list_find (fun a : call_arg => a.1 = Some name) args.

Lemma named_type v : type_constant (arg_map v) <> none_type.
Proof. by destruct v. Qed.

Lemma lookup_at_least_one {A} (d : A) l i x : l !! i = Some x -> at_least_one d l !! i = Some x.
Proof. by destruct l. Qed.

(** The array of a call's arguments: the values, or the arguments, from [first] on. *)
Lemma make_format_args_array args i a :
  args !! i = Some a ->
  let m := make_format_args args in
  if (Z.of_nat (length args) <=? max_packed_args)%Z then value_at (Z.of_nat i) m = Some (make_value (arg_map a.2))
  else arg_at (Z.of_nat i) m = Some (make_arg a.2).
Proof.
  intros Ha m. unfold m, make_format_args, value_at, arg_at.
  destruct (length (init_named_args 0 args) =? 0)%nat; destruct (Z.of_nat (length args) <=? max_packed_args)%Z; cbn [first array];
    rewrite (proj2 (Z.ltb_ge _ 0)) by lia; rewrite <- Nat2Z.inj_add, Nat2Z.id; cbn [Nat.add lookup list_lookup];
    apply lookup_at_least_one; rewrite list_lookup_fmap, Ha; done.
Qed.

Lemma get_nth args i :
  (Z.of_nat (length args) < 2 ^ 31)%Z -> get (Z.of_nat i) (make_format_args args) = Some (nth_arg args i).
Proof.
  intros Hl. pose proof (make_format_args_desc args Hl) as Hd. pose proof (make_format_args_array args i) as Ha.
  destruct (make_format_args args) as [d arr k]. cbn [desc_] in Hd. subst d. cbv zeta in *. unfold get, nth_arg.
  change max_packed_args with 15%Z in *. destruct (Z.of_nat (length args) <=? 15)%Z eqn:Hp; to_prop; cbn [negb] in *.
  - rewrite is_packed_descriptor by (by apply encode_small). cbn [negb]. destruct (15 <=? Z.of_nat i)%Z eqn:Hi; to_prop; [by rewrite lookup_ge_None_2 by lia|].
    rewrite args_type_descriptor by (rewrite ?length_map; lia). rewrite list_lookup_fmap. destruct (args !! i) as [a|] eqn:Hai; cbn [fmap option_fmap option_map default]; [|done].
    rewrite bool_decide_false by apply named_type. by rewrite (Ha a eq_refl).
  - rewrite is_packed_descriptor, max_size_descriptor by lia. cbn [negb].
    destruct (Z.of_nat i <? Z.of_nat (length args))%Z eqn:Hi; to_prop; [|by rewrite lookup_ge_None_2 by lia].
    destruct (lookup_lt_is_Some_2 args i ltac:(lia)) as [a Hai]. rewrite Hai. by apply Ha.
Qed.

Lemma get_id_loop_spec k args name :
  get_id_loop name (init_named_args k args) =
    match find_named args name with Some i => (k + Z.of_nat i)%Z | None => (-1)%Z end.
Proof.
  unfold find_named. revert k. induction args as [|[[n|] v] args IH]; intros k; [done| |]; cbn [init_named_args get_id_loop list_find named_name named_id].
  - destruct (decide (n = name)) as [->|Hne].
    + rewrite bool_decide_true by done. destruct (decide _) as [|Hf]; [cbn; lia|by destruct Hf].
    + rewrite bool_decide_false by done. destruct (decide _) as [Hs|]; [by injection Hs|].
      rewrite IH. destruct (list_find _ args) as [[i a]|]; cbn; lia.
  - destruct (decide _) as [Hs|]; [done|]. rewrite IH. destruct (list_find _ args) as [[i a]|]; cbn; lia.
Qed.

Lemma make_format_args_names args :
  length (init_named_args 0 args) <> 0 -> value_at (-1) (make_format_args args) = Some (named_args (init_named_args 0 args)).
Proof.
  intros Hn. unfold make_format_args. rewrite (proj2 (Nat.eqb_neq _ 0) Hn).
  by destruct (Z.of_nat (length args) <=? max_packed_args)%Z.
Qed.

Lemma get_id_find args name :
  (Z.of_nat (length args) < 2 ^ 31)%Z ->
  get_id name (make_format_args args) = Some (match find_named args name with Some i => Z.of_nat i | None => (-1)%Z end).
Proof.
  intros Hl. pose proof (make_format_args_desc args Hl) as Hd. pose proof (get_id_loop_spec 0 args name) as Hs.
  pose proof (make_format_args_names args) as Ha. destruct (make_format_args args) as [d arr k]. cbn [desc_] in Hd. subst d. unfold get_id.
  rewrite has_named_descriptor.
  - destruct (length (init_named_args 0 args) =? 0)%nat eqn:Hz; to_prop; cbn [negb].
    + apply length_zero_iff_nil in Hz. rewrite Hz in Hs. cbn [get_id_loop] in Hs.
      f_equal. destruct (find_named args name); lia.
    + cbn [negb] in Ha. rewrite Ha by done. rewrite Hs. by destruct (find_named args name).
  - change max_packed_args with 15%Z. destruct (Z.of_nat (length args) <=? 15)%Z eqn:Hp; to_prop; cbn [negb]; [|lia].
    by apply encode_small.
Qed.

Lemma visit_make_arg v : visit_format_arg (make_arg v) = Some (arg_map v).
Proof. by destruct v. Qed.

(** ** The dynamic store *)

Lemma init_named_app k xs ys :
  init_named_args k (xs ++ ys) = init_named_args k xs ++ init_named_args (k + Z.of_nat (length xs)) ys.
Proof.
  revert k. induction xs as [|[[n|] v] xs IH]; intros k; cbn [app init_named_args length].
  - by rewrite Z.add_0_r.
  - rewrite IH. cbn [app]. by rewrite <- Z.add_assoc, Nat2Z.inj_succ, (Z.add_1_l (Z.of_nat _)).
  - rewrite IH. by rewrite <- Z.add_assoc, Nat2Z.inj_succ, (Z.add_1_l (Z.of_nat _)).
Qed.

(** The array of a store: the arguments, after a slot for the names if there are any. *)
Definition store_array (args : list call_arg) : list format_arg :=
  let l := map (fun a : call_arg => make_arg a.2) args in
  match init_named_args 0 args with [] => l | named => MkArg none_type (named_args named) :: l end.

Lemma make_store_spec args :
  (Z.of_nat (length args) < 2 ^ 31)%Z -> make_store args = MkStore (store_array args) (init_named_args 0 args).
Proof.
  induction args as [|[name v] args IH] using rev_ind; [done|]. rewrite length_app. cbn [length]. intros Hl.
  unfold make_store. rewrite foldl_app. cbn [foldl]. change (foldl _ _ args) with (make_store args). rewrite IH by lia.
  unfold store_array. rewrite init_named_app. destruct name as [name|]; cbn [init_named_args store_push_back].
  - unfold emplace_named. cbn [named_info_ data_]. rewrite map_app. cbn [map snd].
    assert (s32 (Z.of_nat (length args)) = Z.of_nat (length args)) as Hs.
    { unfold s32, wraps. rewrite Z.mod_small by lia. lia. }
    destruct (init_named_args 0 args) as [|n named]; cbn [app insert list_insert]; rewrite !length_cons, ?length_app, ?length_map, ?length_cons; cbn [length];
      rewrite Z.add_0_l; replace (Z.of_nat (S (length args + 1)) - 2)%Z with (Z.of_nat (length args)) by lia; by rewrite Hs.
  - unfold emplace_arg. cbn [named_info_ data_]. rewrite map_app, app_nil_r. by destruct (init_named_args 0 args).
Qed.

Lemma dynamic_desc args :
  (Z.of_nat (length args) < 2 ^ 31 - 1)%Z ->
  let named := negb (length (init_named_args 0 args) =? 0)%nat in
  dynamic_args (make_store args) =
    MkArgs (descriptor (Z.of_nat (length args + Nat.b2n named)) true named) (unpacked (store_array args)) (Nat.b2n named).
Proof.
  intros Hl named. rewrite make_store_spec by lia. unfold dynamic_args, get_types. cbn [data_ named_info_].
  assert (length (store_array args) = length args + Nat.b2n named) as Hlen.
  { unfold store_array, named. destruct (init_named_args 0 args); cbn [length Nat.eqb negb Nat.b2n]; rewrite length_map; lia. }
  rewrite Hlen. unfold named, descriptor. rewrite (Z.lor_comm is_unpacked_bit), <- Z.lor_assoc, (Z.lor_comm is_unpacked_bit), Z.lor_assoc.
  destruct (init_named_args 0 args); cbn [length Nat.eqb negb Nat.b2n Z.b2z]; f_equal.
  - rewrite Z.lor_0_r. unfold is_unpacked_bit. rewrite lor_high by lia. lia.
  - unfold has_named_args_bit, is_unpacked_bit. rewrite (lor_high 62), lor_high by lia. lia.
Qed.

Lemma store_array_lookup args i :
  store_array args !! (Nat.b2n (negb (length (init_named_args 0 args) =? 0)%nat) + i) = (fun a : call_arg => make_arg a.2) <$> args !! i.
Proof. unfold store_array. destruct (init_named_args 0 args); cbn [length Nat.eqb negb Nat.b2n Nat.add lookup list_lookup]; apply list_lookup_fmap. Qed.

(** A store gives the arguments pushed, by index and by name, as a call with them would.  But
    with a named argument the index one past the last is taken for an argument too, and read
    outside the array. *)
Lemma dynamic_store_correct args :
  (Z.of_nat (length args) < 2 ^ 31 - 1)%Z ->
  let m := dynamic_args (make_store args) in
  (forall i, i < length args -> get (Z.of_nat i) m = Some (nth_arg args i)) /\
  (forall name, get_id name m = get_id name (make_format_args args)) /\
  get (Z.of_nat (length args)) m = if decide (init_named_args 0 args = []) then Some no_arg else None.
Proof.
  intros Hl m. unfold m. rewrite dynamic_desc by done. set (b := negb _).
  assert (Nat.b2n b <= 1) as Hb by (by destruct b; cbn; lia).
  assert (forall i, get (Z.of_nat i) (MkArgs (descriptor (Z.of_nat (length args + Nat.b2n b)) true b) (unpacked (store_array args)) (Nat.b2n b)) =
    if (i <? length args + Nat.b2n b)%nat then (fun a : call_arg => make_arg a.2) <$> args !! i else Some no_arg) as Hget.
  { intros i. unfold get. rewrite is_packed_descriptor, max_size_descriptor by lia. cbn [negb]. unfold arg_at. cbn [first array].
    rewrite (proj2 (Z.ltb_ge _ 0)) by lia. rewrite <- Nat2Z.inj_add, Nat2Z.id.
    pose proof (store_array_lookup args i) as Hsa. fold b in Hsa. rewrite Hsa.
    destruct (i <? length args + Nat.b2n b)%nat eqn:Hi, (Z.of_nat i <? Z.of_nat (length args + Nat.b2n b))%Z eqn:Hi'; to_prop; done || lia. }
  split_and!.
  - intros i Hi. rewrite Hget. rewrite (proj2 (Nat.ltb_lt _ _)) by lia. unfold nth_arg.
    by destruct (lookup_lt_is_Some_2 args i Hi) as [a ->].
  - intros name. rewrite get_id_find by lia. unfold get_id. rewrite has_named_descriptor by lia.
    pose proof (get_id_loop_spec 0 args name) as Hs. unfold value_at, store_array. subst b. cbn [array first].
    destruct (init_named_args 0 args); cbn [length Nat.eqb negb Nat.b2n].
    + cbn [get_id_loop] in Hs. f_equal. destruct (find_named args name); lia.
    + change (Z.of_nat 1 + -1)%Z with 0%Z. change (Z.to_nat 0) with 0. cbn [Z.ltb Z.compare lookup list_lookup fmap option_fmap option_map arg_value].
      rewrite Hs. by destruct (find_named args name).
  - rewrite Hget, lookup_ge_None_2 by lia. subst b. destruct (init_named_args 0 args) as [|n named] eqn:Hn; cbn [length Nat.eqb negb Nat.b2n].
    + rewrite Nat.add_0_r, Nat.ltb_irrefl. by rewrite decide_True.
    + rewrite (proj2 (Nat.ltb_lt _ _)) by lia. by rewrite decide_False.
Qed.

(** ** The contract *)

(** The arguments a formatting function is called with are found again: by index each one
    with its type, decoded from the four-bit fields of the descriptor or, beyond fifteen, from
    the array; past the last one none; by name the first of that name; and the union is read
    through the member it was written to. *)
Theorem format_args_correct (args : list call_arg) :
  (Z.of_nat (length args) < 2 ^ 31)%Z ->
  let m := make_format_args args in
  (forall i, get (Z.of_nat i) m = Some (nth_arg args i)) /\
  (forall name, get_by_name name m =
     Some (match find_named args name with Some i => nth_arg args i | None => no_arg end)) /\
  (forall i a, args !! i = Some a -> (f ← get (Z.of_nat i) m; visit_format_arg f) = Some (arg_map a.2)).
Proof.
  intros Hl m. unfold m. split_and!.
  - intros i. by apply get_nth.
  - intros name. unfold get_by_name. rewrite get_id_find by done. cbn [mbind option_bind].
    destruct (find_named args name) as [i|]; [|done]. rewrite (proj2 (Z.leb_le 0 _)) by lia. by apply get_nth.
  - intros i a Ha. rewrite get_nth by done. unfold nth_arg. rewrite Ha. apply visit_make_arg.
Qed.

Lemma format_args_correct_witness :
  let args := replicate 16 (None, Cint 7) ++ [(Some (B "n"), Cstring (B "x"))] in
  get 16 (make_format_args args) = Some (make_arg (Cstring (B "x"))) /\
  get_by_name (B "n") (make_format_args (drop 8 args)) = Some (make_arg (Cstring (B "x"))).
Proof.
  split.
  - apply (proj1 (format_args_correct (replicate 16 (None, Cint 7) ++ [(Some (B "n"), Cstring (B "x"))]) eq_refl) 16).
  - apply (proj1 (proj2 (format_args_correct (drop 8 (replicate 16 (None, Cint 7) ++ [(Some (B "n"), Cstring (B "x"))])) eq_refl)) (B "n")).
Defined.
