(* ===== verification/FmtWrite.v ===== *)
(** * Writing arguments: [spdlog/fmt/bundled/format.h], [format-inl.h]

    How the fmt library writes one argument under a set of format specifiers: padding and
    filling, [int_writer] in the four bases, strings, characters and pointers.  The output is a
    buffer that grows; writing is appending.  Floating point is left out. *)
From S2P Require Import Prelude CLib Json Fmt Files FmtArgs.

(** ** Format specifiers *)

Module align.
Inductive type := none | left | right | center | numeric.
End align.

Module sign.
Inductive type := none | minus | plus | space.
End sign.

Definition align_num (a : align.type) : Z :=
  match a with align.none => 0 | align.left => 1 | align.right => 2 | align.center => 3 | align.numeric => 4 end.

(** [fill_t]: four characters, of which the first [size_] are used. *)
Record fill_t := MkFill { fill_data : bytes; fill_size : nat }.
Definition default_fill : fill_t := MkFill [" "%char; NUL; NUL; NUL] 1.

(** [operator=]: the characters past the text keep their values. *)
Definition fill_assign (s : bytes) (f : fill_t) : outcome fill_t :=
  let size := length s in
  if (4 <? size)%nat then Throw (B "invalid fill") else Ok (MkFill (s ++ drop size (fill_data f)) size).

Record format_specs := MkSpecs {
  sp_width : Z; sp_precision : Z; sp_type : ascii; sp_align : align.type; sp_sign : sign.type; sp_alt : bool; sp_fill : fill_t }.
Definition default_specs : format_specs := MkSpecs 0 (-1) NUL align.none sign.none false default_fill.

(** A reference to a locale: what [grouping] and [thousands_sep] ask of it; the groups are
    values of type [char]. *)
Record locale_ref := MkLocale { grouping : list Z; thousands_sep : ascii }.
Definition classic : locale_ref := MkLocale [] ","%char.

(** A function of the library on the output: [option] for what is undefined. *)
Definition lift {A} (o : option A) : outcome A := match o with Some a => Ok a | None => Undef end.

Definition bind {A C} (o : outcome A) (f : A -> outcome C) : outcome C :=
  match o with Ok a => f a | Throw what => Throw what | Undef => Undef end.
Notation "'let*' x ':=' o 'in' k" := (bind o (fun x => k)) (at level 200, x pattern, o at level 100, k at level 200) : fdfs_scope.

(** ** Code points *)

(** [count_code_points(string_view)]: the characters that are not continuation bytes. *)
Fixpoint count_code_points (s : bytes) : Z :=
  match s with
  | [] => 0%Z
  | c :: s => ((if Z.land (code c) 0xc0 =? 0x80 then 0 else 1) + count_code_points s)%Z
  end.

(** [code_point_index] for [char] counts characters, not code points. *)
Definition code_point_index (s : bytes) (n : nat) : nat := let size := length s in if (n <? size)%nat then n else size.

(** ** Padding *)

(** [std::fill_n]. *)
Definition fill_n (it : bytes) (n : Z) (c : ascii) : bytes := it ++ replicate (Z.to_nat n) c.

Fixpoint fill_loop (n : nat) (text it : bytes) : bytes :=
  match n with 0 => it | S n => fill_loop n text (it ++ text) end.

Definition fill (it : bytes) (n : Z) (fill : fill_t) : bytes :=
  if (fill_size fill =? 1)%nat then fill_n it n (nth 0 (fill_data fill) NUL)
  else fill_loop (Z.to_nat n) (take (fill_size fill) (fill_data fill)) it.

Definition left_padding_shifts : list Z := [31; 31; 0; 1; 0]%Z.
Definition right_padding_shifts : list Z := [0; 31; 0; 1; 0]%Z.

(** [write_padded<align>]; the size is only used to reserve space. *)
Definition write_padded (to_left : bool) (out : bytes) (specs : format_specs) (width : Z) (f : bytes -> bytes) : bytes :=
  let spec_width := sp_width specs in
  let padding := if (width <? spec_width)%Z then (spec_width - width)%Z else 0%Z in
  let shifts := if to_left then left_padding_shifts else right_padding_shifts in
  let left_padding := Z.shiftr padding (nth (Z.to_nat (align_num (sp_align specs))) shifts 0%Z) in
  let it := fill out left_padding (sp_fill specs) in
  let it := f it in
  fill it (padding - left_padding) (sp_fill specs).

(** [write(out, basic_string_view, specs)]. *)
Definition write_str (out s : bytes) (specs : format_specs) : bytes :=
  let size := length s in
  let size := if ((0 <=? sp_precision specs) && (sp_precision specs <? Z.of_nat size))%Z
              then code_point_index s (Z.to_nat (sp_precision specs)) else size in
  let width := if negb (sp_width specs =? 0)%Z then count_code_points (take size s) else 0%Z in
  write_padded true out specs width (fun it => it ++ take size s).

Definition write_char (out : bytes) (value : ascii) (specs : format_specs) : bytes :=
  write_padded true out specs 1 (fun it => it ++ [value]).

(** ** Digits *)

(** [count_digits<BITS>]; 64 rounds are enough for 64 bits. *)
Fixpoint count_digits_bits_loop (fuel : nat) (BITS n num_digits : Z) : option Z :=
  match fuel with
  | 0 => None
  | S fuel =>
      let num_digits := (num_digits + 1)%Z in
      let n := Z.shiftr n BITS in
      if negb (n =? 0)%Z then count_digits_bits_loop fuel BITS n num_digits else Some num_digits
  end.
Definition count_digits_bits (BITS n : Z) : option Z := count_digits_bits_loop 64 BITS n 0.

(** [hex_digits], and the digits of upper case. *)
Definition hex_digits (upper : bool) : bytes := if upper then B "0123456789ABCDEF" else B "0123456789abcdef".

(** [format_uint<BASE_BITS>]: the state is the memory and the index of [buffer]; writing before
    the memory is undefined. *)
Fixpoint format_uint_loop (fuel : nat) (BASE_BITS : Z) (upper : bool) (value : Z) (buf : bytes) (pos : nat) : option bytes :=
  match fuel with
  | 0 => None
  | S fuel =>
      let digit := Z.land value (Z.shiftl 1 BASE_BITS - 1) in
      match pos with
      | 0 => None
      | S pos =>
          let c := if (BASE_BITS <? 4)%Z then chr (48 + digit) else nth (Z.to_nat digit) (hex_digits upper) NUL in
          let buf := <[pos := c]> buf in
          let value := Z.shiftr value BASE_BITS in
          if negb (value =? 0)%Z then format_uint_loop fuel BASE_BITS upper value buf pos else Some buf
      end
  end.

(** Into the [num_digits] characters [to_pointer] adds to the output. *)
Definition format_uint (BASE_BITS value num_digits : Z) (upper : bool) : option bytes :=
  format_uint_loop 64 BASE_BITS upper value (replicate (Z.to_nat num_digits) NUL) (Z.to_nat num_digits).

(** [uint32_or_64_or_128_t]: the width of the unsigned type, its [digits10], and the
    [count_digits] that is chosen. *)
Definition digits10 (w : Z) : Z := if (w =? 32)%Z then 9 else 19.
Definition count_digits_w (w n : Z) : Z := if (w =? 32)%Z then count_digits32 n else count_digits n.

(** [format_decimal] to an iterator: through a buffer of [digits10 + 1] characters, from its
    start to the end of the digits. *)
Definition format_decimal_it (w value num_digits : Z) : option bytes :=
  let size := (digits10 w + 1)%Z in
  if (size <? num_digits)%Z then None
  else
    '(buf, _) ← format_decimal (replicate (Z.to_nat size) NUL) value (Z.to_nat num_digits);
    Some (take (Z.to_nat num_digits) buf).

(** ** Integers *)

(** [write_int_data]: the padding with zeros, and the size with the prefix. *)
Definition write_int_data (num_digits : Z) (prefix : bytes) (specs : format_specs) : Z * Z :=
  let size := (Z.of_nat (length prefix) + num_digits)%Z in
  match sp_align specs with
  | align.numeric =>
      let width := sp_width specs in
      if (size <? width)%Z then (width, (width - size)%Z) else (size, 0%Z)
  | _ =>
      if (num_digits <? sp_precision specs)%Z then
        ((Z.of_nat (length prefix) + sp_precision specs)%Z, (sp_precision specs - num_digits)%Z)
      else (size, 0%Z)
  end.

Definition write_int (out : bytes) (num_digits : Z) (prefix : bytes) (specs : format_specs) (f : bytes -> bytes) : bytes :=
  let '(size, padding) := write_int_data num_digits prefix specs in
  write_padded false out specs size (fun it => f (fill_n (it ++ prefix) padding "0"%char)).

(** [int_writer] over an unsigned type of [w] bits. *)
Record int_writer := MkWriter { iw_bits : Z; iw_specs : format_specs; abs_value : Z; iw_prefix : bytes }.

Definition mk_int_writer (w value : Z) (specs : format_specs) : int_writer :=
  if (value <? 0)%Z then MkWriter w specs (wrapu w (0 - wrapu w value)) ["-"%char]
  else
    match sp_sign specs with
    | sign.none | sign.minus => MkWriter w specs (wrapu w value) []
    | sign.plus => MkWriter w specs (wrapu w value) ["+"%char]
    | sign.space => MkWriter w specs (wrapu w value) [" "%char]
    end.

Definition on_dec (iw : int_writer) (out : bytes) : outcome bytes :=
  let num_digits := count_digits_w (iw_bits iw) (abs_value iw) in
  let* digits := lift (format_decimal_it (iw_bits iw) (abs_value iw) num_digits) in
  Ok (write_int out num_digits (iw_prefix iw) (iw_specs iw) (fun it => it ++ digits)).

Definition on_hex (iw : int_writer) (out : bytes) : outcome bytes :=
  let prefix := if sp_alt (iw_specs iw) then iw_prefix iw ++ ["0"%char; sp_type (iw_specs iw)] else iw_prefix iw in
  let* num_digits := lift (count_digits_bits 4 (abs_value iw)) in
  let* digits := lift (format_uint 4 (abs_value iw) num_digits (negb (sp_type (iw_specs iw) =c "x"%char))) in
  Ok (write_int out num_digits prefix (iw_specs iw) (fun it => it ++ digits)).

Definition on_bin (iw : int_writer) (out : bytes) : outcome bytes :=
  let prefix := if sp_alt (iw_specs iw) then iw_prefix iw ++ ["0"%char; sp_type (iw_specs iw)] else iw_prefix iw in
  let* num_digits := lift (count_digits_bits 1 (abs_value iw)) in
  let* digits := lift (format_uint 1 (abs_value iw) num_digits false) in
  Ok (write_int out num_digits prefix (iw_specs iw) (fun it => it ++ digits)).

Definition on_oct (iw : int_writer) (out : bytes) : outcome bytes :=
  let* num_digits := lift (count_digits_bits 3 (abs_value iw)) in
  let prefix :=
    if sp_alt (iw_specs iw) && (sp_precision (iw_specs iw) <=? num_digits)%Z && negb (abs_value iw =? 0)%Z
    then iw_prefix iw ++ ["0"%char] else iw_prefix iw in
  let* digits := lift (format_uint 3 (abs_value iw) num_digits false) in
  Ok (write_int out num_digits prefix (iw_specs iw) (fun it => it ++ digits)).

(** The groups of [on_num]: the separators they add, the digits that are left and the groups
    that are. *)
Definition CHAR_MAX : Z := 127.
Definition sep_size : Z := 1.
Fixpoint count_groups (size n : Z) (group : list Z) : Z * Z * list Z :=
  match group with
  | [] => (size, n, [])
  | g :: rest =>
      if ((g <? n) && (0 <? g) && negb (g =? CHAR_MAX))%Z then count_groups (size + sep_size) (n - g) rest
      else (size, n, group)
  end.

(** [*p-- = c]; outside the buffer it is undefined. *)
Definition store_back (c : ascii) (st : bytes * Z) : option (bytes * Z) :=
  let '(buffer, p) := st in
  if ((0 <=? p) && (p <? Z.of_nat (length buffer)))%Z then Some (<[Z.to_nat p := c]> buffer, (p - 1)%Z) else None.

(** The loop over the digits [i], from the last to the second; [group] is not empty. *)
Fixpoint group_digits (i : nat) (digits : bytes) (sep : ascii) (digit_index : Z) (group : list Z) (st : bytes * Z) : option (bytes * Z) :=
  match i with
  | 0 => Some st
  | S i' =>
      st ← store_back (nth i digits NUL) st;
      match group with
      | [] => None
      | g :: rest =>
          if (g <=? 0)%Z then group_digits i' digits sep digit_index group st
          else
            let digit_index := (digit_index + 1)%Z in
            if (negb (digit_index mod g =? 0) || (g =? CHAR_MAX))%Z then group_digits i' digits sep digit_index group st
            else
              st ← store_back sep st;
              match rest with
              | [] => group_digits i' digits sep digit_index group st
              | _ => group_digits i' digits sep 0 rest st
              end
      end
  end.

Definition on_num (locale : locale_ref) (iw : int_writer) (out : bytes) : outcome bytes :=
  let groups := grouping locale in
  if bool_decide (groups = []) then on_dec iw out
  else if thousands_sep locale =c NUL then on_dec iw out
  else
    let num_digits := count_digits_w (iw_bits iw) (abs_value iw) in
    let '(size, n, group) := count_groups num_digits num_digits groups in
    let size := match group with [] => (size + sep_size * ((n - 1) / default 0 (last groups)))%Z | _ => size end in
    let* (digits, _) := lift (format_decimal (replicate 40 NUL) (abs_value iw) (Z.to_nat num_digits)) in
    let size := (size + Z.of_nat (length (iw_prefix iw)))%Z in
    let* st := lift (group_digits (Z.to_nat (num_digits - 1)) digits (thousands_sep locale) 0 groups
                       (replicate (Z.to_nat size) NUL, (size - 1)%Z)) in
    let* (buffer, p) := lift (store_back (nth 0 digits NUL) st) in
    let* buffer := (if (length (iw_prefix iw) =? 0)%nat then Ok buffer else lift (fst <$> store_back "-"%char (buffer, p))) in
    Ok (write_padded false out (iw_specs iw) size (fun it => it ++ buffer)).

(** [on_chr]: the value as a [char], without sign, padding or width. *)
Definition on_chr (iw : int_writer) (out : bytes) : outcome bytes := Ok (out ++ [chr (wrapu 8 (abs_value iw))]).

(** [handle_int_type_spec] with an [int_writer]. *)
Definition handle_int_type_spec (locale : locale_ref) (spec : ascii) (iw : int_writer) (out : bytes) : outcome bytes :=
  if (spec =c NUL) || (spec =c "d"%char) then on_dec iw out
  else if (spec =c "x"%char) || (spec =c "X"%char) then on_hex iw out
  else if (spec =c "b"%char) || (spec =c "B"%char) then on_bin iw out
  else if spec =c "o"%char then on_oct iw out
  else if spec =c "L"%char then on_num locale iw out
  else if spec =c "c"%char then on_chr iw out
  else Throw (B "invalid type specifier").

(** ** [write] without specifiers *)

(** Into the space [to_pointer] adds: a sign, and the digits behind it. *)
Definition write_integer (w : Z) (out : bytes) (value : Z) : outcome bytes :=
  let negative := (value <? 0)%Z in
  let abs_value := if negative then wrapu w (wrapu w (Z.lnot (wrapu w value)) + 1) else wrapu w value in
  let num_digits := count_digits_w w abs_value in
  let buf := replicate (Z.to_nat num_digits) NUL in
  let* (digits, _) := lift (format_decimal buf abs_value (Z.to_nat num_digits)) in
  Ok (out ++ (if negative then ["-"%char] else []) ++ digits).

Definition write_cstring (out : bytes) (data : Z) (chars : bytes) : outcome bytes :=
  if (data =? 0)%Z then Throw (B "string pointer is null") else Ok (out ++ chars).

(** [write_ptr]. *)
Definition write_ptr (out : bytes) (value : Z) (specs : option format_specs) : outcome bytes :=
  let* num_digits := lift (count_digits_bits 4 value) in
  let size := (num_digits + 2)%Z in
  let* digits := lift (format_uint 4 value num_digits false) in
  let write it := it ++ ["0"%char; "x"%char] ++ digits in
  Ok (match specs with Some specs => write_padded false out specs size write | None => write out end).

(** ** The argument formatters *)

Definition bool_text (v : bool) : bytes := if v then B "true" else B "false".

(** [default_arg_formatter]: without specifiers. *)
Definition default_arg_formatter (out : bytes) (v : operand) : outcome bytes :=
  match v with
  | op_monostate => Undef
  | op_int v | op_uint v => write_integer 32 out v
  | op_long_long v | op_ulong_long v => write_integer 64 out v
  | op_bool v => Ok (out ++ bool_text v)
  | op_char c => Ok (out ++ [c])
  | op_cstring data chars => write_cstring out data chars
  | op_string s => Ok (out ++ s)
  | op_pointer p => write_ptr out p None
  end.

(** [arg_formatter_base::write_int]. *)
Definition af_write_int (locale : locale_ref) (w : Z) (out : bytes) (value : Z) (spec : format_specs) : outcome bytes :=
  handle_int_type_spec locale (sp_type spec) (mk_int_writer w value spec) out.

(** A [char] as an [int]. *)
Definition char_to_int (c : ascii) : Z := wraps 8 (code c).

(** [handle_char_specs] with the [char_spec_handler]. *)
Definition handle_char_specs (locale : locale_ref) (out : bytes) (value : ascii) (specs : format_specs) : outcome bytes :=
  if negb (sp_type specs =c NUL) && negb (sp_type specs =c "c"%char) then af_write_int locale 32 out (char_to_int value) specs
  else
    match sp_align specs, sp_sign specs, sp_alt specs with
    | align.numeric, _, _ => Throw (B "invalid format specifier for char")
    | _, sign.none, false => Ok (write_char out value specs)
    | _, _, _ => Throw (B "invalid format specifier for char")
    end.

(** [arg_formatter_base::write] of a C string, with specifiers. *)
Definition af_write_cstring (out : bytes) (data : Z) (chars : bytes) (specs : format_specs) : outcome bytes :=
  if (data =? 0)%Z then Throw (B "string pointer is null") else Ok (write_str out chars specs).

Definition handle_cstring_type_spec (out : bytes) (data : Z) (chars : bytes) (specs : format_specs) : outcome bytes :=
  let spec := sp_type specs in
  if (spec =c NUL) || (spec =c "s"%char) then af_write_cstring out data chars specs
  else if spec =c "p"%char then write_ptr out data (Some specs)
  else Throw (B "invalid type specifier").

Definition check_string_type_spec (spec : ascii) : outcome unit :=
  if negb (spec =c NUL) && negb (spec =c "s"%char) then Throw (B "invalid type specifier") else Ok tt.
Definition check_pointer_type_spec (spec : ascii) : outcome unit :=
  if negb (spec =c NUL) && negb (spec =c "p"%char) then Throw (B "invalid type specifier") else Ok tt.

(** [arg_formatter]: under specifiers. *)
Definition arg_formatter (locale : locale_ref) (specs : format_specs) (out : bytes) (v : operand) : outcome bytes :=
  match v with
  | op_monostate => Undef
  | op_int v | op_uint v => af_write_int locale 32 out v specs
  | op_long_long v | op_ulong_long v => af_write_int locale 64 out v specs
  | op_bool v =>
      if negb (sp_type specs =c NUL) then af_write_int locale 32 out (Z.b2z v) specs else Ok (write_str out (bool_text v) specs)
  | op_char c => handle_char_specs locale out c specs
  | op_cstring data chars => handle_cstring_type_spec out data chars specs
  | op_string s => let* _ := check_string_type_spec (sp_type specs) in Ok (write_str out s specs)
  | op_pointer p => let* _ := check_pointer_type_spec (sp_type specs) in write_ptr out p (Some specs)
  end.

(** ** Reference: the digits of a number in base [2 ^ k] *)

Definition digit_text (upper : bool) (d : Z) : ascii := nth (Z.to_nat d) (hex_digits upper) NUL.

Fixpoint base_go (fuel : nat) (k : Z) (upper : bool) (n : Z) : bytes :=
  match fuel with
  | 0 => []
  | S fuel => if (n <? 2 ^ k)%Z then [digit_text upper n] else base_go fuel k upper (n / 2 ^ k) ++ [digit_text upper (n mod 2 ^ k)]
  end.
Definition base_nat (k : Z) (upper : bool) (n : Z) : bytes := base_go (S (Z.to_nat (Z.log2 n))) k upper n.

Section bases.
  Context (k : Z) (upper : bool) (Hk : (1 <= k <= 4)%Z).

Lemma pow_k : (2 <= 2 ^ k <= 16)%Z.
Proof. split; [apply (Z.pow_le_mono_r 2 1 k); lia|apply (Z.pow_le_mono_r 2 k 4); lia]. Qed.

Lemma base_go_fuel f1 f2 n :
  (0 <= n)%Z -> (n < 2 ^ Z.of_nat f1)%Z -> (n < 2 ^ Z.of_nat f2)%Z -> 0 < f1 -> 0 < f2 ->
  base_go f1 k upper n = base_go f2 k upper n.
Proof using Hk.
  pose proof pow_k as Hp. revert f2 n. induction f1 as [|f1 IH]; intros f2 n Hn H1 H2 L1 L2; [lia|].
  destruct f2 as [|f2]; [lia|]. cbn [base_go]. destruct (n <? 2 ^ k)%Z eqn:Hlt; [done|]. to_prop. f_equal.
  rewrite Nat2Z.inj_succ, Z.pow_succ_r in H1, H2 by lia.
  assert (0 < n / 2 ^ k)%Z by (apply Z.div_str_pos; lia).
  assert (0 < f1) by (destruct f1; [change (2 ^ Z.of_nat 0)%Z with 1%Z in H1; lia|lia]).
  assert (0 < f2) by (destruct f2; [change (2 ^ Z.of_nat 0)%Z with 1%Z in H2; lia|lia]).
  apply IH; try lia; apply Z.div_lt_upper_bound; nia.
Qed.

Lemma base_nat_small n : (0 <= n < 2 ^ k)%Z -> base_nat k upper n = [digit_text upper n].
Proof. intros Hn. unfold base_nat. cbn [base_go]. by rewrite (proj2 (Z.ltb_lt n (2 ^ k))) by lia. Qed.

Lemma base_nat_step n :
  (2 ^ k <= n)%Z -> base_nat k upper n = base_nat k upper (n / 2 ^ k) ++ [digit_text upper (n mod 2 ^ k)].
Proof using Hk.
  intros Hn. pose proof pow_k as Hp. assert (0 < n / 2 ^ k)%Z by (apply Z.div_str_pos; lia).
  pose proof (log2_fuel (n / 2 ^ k) ltac:(lia)) as Hf. pose proof (log2_fuel n ltac:(lia)) as Hg.
  rewrite Nat2Z.inj_succ, Z.pow_succ_r in Hg by lia.
  unfold base_nat at 1. cbn [base_go]. rewrite (proj2 (Z.ltb_ge n (2 ^ k))) by lia. f_equal.
  apply base_go_fuel; [lia| |lia| |lia].
  - apply Z.div_lt_upper_bound; nia.
  - assert (0 < Z.log2 n)%Z by (apply Z.log2_pos; lia). lia.
Qed.

(** Induction on the digits of a number. *)
Lemma base_ind (P : Z -> Prop) :
  (forall n, (0 <= n < 2 ^ k)%Z -> P n) -> (forall n, (2 ^ k <= n)%Z -> P (n / 2 ^ k)%Z -> P n) -> forall n, (0 <= n)%Z -> P n.
Proof using Hk.
  intros H0 Hs n. pose proof pow_k as Hp. induction n as [n IH] using (well_founded_induction (Z.lt_wf 0)). intros Hn.
  destruct (Z_lt_le_dec n (2 ^ k)); [by apply H0|]. apply Hs; [done|].
  apply IH; [split; [by apply Z.div_pos; lia|apply Z.div_lt; lia]|apply Z.div_pos; lia].
Qed.

(** The digits determine the number, and the first one is 0 only for 0. *)
Definition base_value (s : bytes) : Z := foldl (fun v c => v * 2 ^ k + Z.of_nat (default 0%nat (find_if (Ascii.eqb c) (hex_digits upper))))%Z 0%Z s.

Lemma digit_text_value d : (0 <= d < 16)%Z -> Z.of_nat (default 0%nat (find_if (Ascii.eqb (digit_text upper d)) (hex_digits upper))) = d.
Proof using.
  intros Hd. assert (exists i, d = Z.of_nat i /\ i < 16) as (i & -> & Hi) by (exists (Z.to_nat d); lia).
  unfold digit_text. rewrite Nat2Z.id. destruct upper; do 16 (destruct i as [|i]; [reflexivity|]); lia.
Qed.

Lemma base_nat_value n : (0 <= n)%Z -> base_value (base_nat k upper n) = n.
Proof using Hk.
  pose proof pow_k as Hp. revert n. apply base_ind; intros n Hn.
  - rewrite base_nat_small by done. unfold base_value. cbn [foldl]. rewrite digit_text_value by lia. lia.
  - intros IH. rewrite base_nat_step by done. unfold base_value. rewrite foldl_app. cbn [foldl]. fold (base_value (base_nat k upper (n / 2 ^ k))).
    rewrite IH. pose proof (Z.mod_pos_bound n (2 ^ k) ltac:(lia)). rewrite digit_text_value by lia.
    pose proof (Z.div_mod n (2 ^ k) ltac:(lia)). lia.
Qed.

Lemma base_nat_length n : (0 <= n)%Z -> length (base_nat k upper n) = if (n <? 2 ^ k)%Z then 1 else S (length (base_nat k upper (n / 2 ^ k))).
Proof using Hk.
  intros Hn. destruct (n <? 2 ^ k)%Z eqn:Hlt; to_prop; [by rewrite base_nat_small by lia|].
  rewrite base_nat_step, length_app by lia. cbn [length]. lia.
Qed.

Lemma base_nat_bound n m : (0 <= n)%Z -> (0 < m)%nat -> (n < 2 ^ (k * Z.of_nat m))%Z -> length (base_nat k upper n) <= m.
Proof using Hk.
  pose proof pow_k as Hp. intros Hn. revert m. pattern n. revert n Hn. apply base_ind; intros n Hn.
  - intros m Hm _. rewrite base_nat_small by done. cbn. lia.
  - intros IH m Hm Hlt. rewrite base_nat_step, length_app by done. cbn [length].
    destruct m as [|[|m]]; [lia|rewrite Z.mul_1_r in Hlt; lia|].
    enough (length (base_nat k upper (n / 2 ^ k)) <= S m) by lia. apply IH; [lia|].
    apply Z.div_lt_upper_bound; [lia|]. rewrite <- Z.pow_add_r by lia. by replace (k + k * Z.of_nat (S m))%Z with (k * Z.of_nat (S (S m)))%Z by lia.
Qed.
End bases.

(** ** The digits written *)

Lemma count_digits_bits_loop_spec k fuel v n :
  (1 <= k <= 4)%Z -> (0 <= v)%Z -> length (base_nat k false v) <= fuel ->
  count_digits_bits_loop fuel k v n = Some (n + Z.of_nat (length (base_nat k false v)))%Z.
Proof.
  intros Hk Hv. pose proof (pow_k k Hk) as Hp. revert v n Hv. induction fuel as [|fuel IH]; intros v n Hv Hl.
  - rewrite base_nat_length in Hl by done. destruct (v <? 2 ^ k)%Z; lia.
  - cbn [count_digits_bits_loop]. rewrite Z.shiftr_div_pow2 by lia. rewrite base_nat_length in Hl |- * by done.
    destruct (v <? 2 ^ k)%Z eqn:Hlt; to_prop.
    + rewrite Z.div_small by lia. done.
    + assert (0 < v / 2 ^ k)%Z by (apply Z.div_str_pos; lia). rewrite (proj2 (Z.eqb_neq _ 0)) by lia. cbn [negb].
      rewrite IH by lia. f_equal. lia.
Qed.

Lemma digit_chars k upper d :
  (1 <= k <= 4)%Z -> (0 <= d < 2 ^ k)%Z ->
  (if (k <? 4)%Z then chr (48 + d) else nth (Z.to_nat d) (hex_digits upper) NUL) = digit_text upper d.
Proof.
  intros Hk Hd. destruct (k <? 4)%Z eqn:Hlt; to_prop; [|done].
  assert (2 ^ k <= 2 ^ 3)%Z by (apply Z.pow_le_mono_r; lia).
  assert (exists i, d = Z.of_nat i /\ i < 8) as (i & -> & Hi) by (exists (Z.to_nat d); lia).
  unfold digit_text. rewrite Nat2Z.id. destruct upper; do 8 (destruct i as [|i]; [reflexivity|]); lia.
Qed.

Lemma insert_last (junk suf : bytes) c p :
  length junk = S p -> exists junk', length junk' = p /\ <[p := c]> (junk ++ suf) = junk' ++ c :: suf.
Proof.
  intros Hl. destruct junk as [|d junk _] using rev_ind; [done|]. rewrite length_app in Hl. cbn [length] in Hl.
  exists junk. split; [lia|]. replace p with (length junk + 0) by lia. rewrite <- app_assoc, insert_app_r. done.
Qed.

Lemma format_uint_loop_spec k upper fuel v junk suf :
  (1 <= k <= 4)%Z -> (0 <= v)%Z -> length (base_nat k upper v) <= fuel -> length junk = length (base_nat k upper v) ->
  format_uint_loop fuel k upper v (junk ++ suf) (length junk) = Some (base_nat k upper v ++ suf).
Proof.
  intros Hk Hv. pose proof (pow_k k Hk) as Hp. revert v junk suf Hv. induction fuel as [|fuel IH]; intros v junk suf Hv Hl Hj.
  - rewrite base_nat_length in Hl by done. destruct (v <? 2 ^ k)%Z; lia.
  - cbn [format_uint_loop]. rewrite Z.shiftl_mul_pow2, Z.mul_1_l by lia.
    replace (2 ^ k - 1)%Z with (Z.ones k) by (rewrite Z.ones_equiv; lia). rewrite Z.land_ones, Z.shiftr_div_pow2 by lia.
    pose proof (Z.mod_pos_bound v (2 ^ k) ltac:(lia)). rewrite digit_chars by done.
    rewrite base_nat_length in Hl, Hj by done. destruct (length junk) as [|p] eqn:Hp'; [destruct (v <? 2 ^ k)%Z; lia|].
    destruct (insert_last junk suf (digit_text upper (v mod 2 ^ k)) p Hp') as (junk' & Hj' & ->).
    destruct (v <? 2 ^ k)%Z eqn:Hlt; to_prop.
    + rewrite Z.div_small by lia. rewrite Z.mod_small by lia. rewrite base_nat_small by lia.
      assert (junk' = []) as -> by (apply nil_length_inv; lia). done.
    + assert (0 < v / 2 ^ k)%Z by (apply Z.div_str_pos; lia). rewrite (proj2 (Z.eqb_neq _ 0)) by lia. cbn [negb].
      rewrite <- Hj', IH by lia. rewrite (base_nat_step k upper Hk v), <- app_assoc by done. done.
Qed.

(** A value of at most 64 bits has at most 64 digits. *)
Lemma base_nat_64 k upper v : (1 <= k <= 4)%Z -> (0 <= v < 2 ^ 64)%Z -> length (base_nat k upper v) <= 64.
Proof.
  intros Hk Hv. apply base_nat_bound; [done|lia|lia|]. apply (Z.lt_le_trans _ (2 ^ 64)); [lia|]. apply Z.pow_le_mono_r; lia.
Qed.

Lemma base_nat_length_upper k upper v : (1 <= k <= 4)%Z -> (0 <= v)%Z -> length (base_nat k upper v) = length (base_nat k false v).
Proof.
  intros Hk. revert v. apply (base_ind k); [done|intros n Hn|intros n Hn IH].
  - by rewrite !base_nat_small.
  - by rewrite (base_nat_step k upper), (base_nat_step k false), !length_app, IH.
Qed.

Lemma digits_bits_ok k upper v :
  (1 <= k <= 4)%Z -> (0 <= v < 2 ^ 64)%Z ->
  count_digits_bits k v = Some (Z.of_nat (length (base_nat k upper v))) /\
  format_uint k v (Z.of_nat (length (base_nat k upper v))) upper = Some (base_nat k upper v).
Proof.
  intros Hk Hv. pose proof (base_nat_64 k upper v Hk Hv). split.
  - unfold count_digits_bits. rewrite count_digits_bits_loop_spec; [|done|lia|by apply base_nat_64]. by rewrite (base_nat_length_upper k upper) by lia.
  - unfold format_uint. rewrite Nat2Z.id. rewrite <- (app_nil_r (replicate _ NUL)).
    rewrite <- (length_replicate (length (base_nat k upper v)) NUL) at 2.
    rewrite format_uint_loop_spec by (rewrite ?length_replicate; lia || done). by rewrite app_nil_r.
Qed.

(** The two widths of [int_writer]. *)
Definition int_width (w : Z) : Prop := w = 32%Z \/ w = 64%Z.

Lemma count_digits_w_length w v : int_width w -> (0 <= v < 2 ^ w)%Z -> count_digits_w w v = Z.of_nat (length (dec_nat v)).
Proof.
  intros [-> | ->] Hv; unfold count_digits_w; cbn [Z.eqb Pos.eqb].
  - rewrite count_digits32_eq by done. apply count_digits_length. lia.
  - by apply count_digits_length.
Qed.

Lemma dec_nat_digits10 w v : int_width w -> (0 <= v < 2 ^ w)%Z -> (Z.of_nat (length (dec_nat v)) <= digits10 w + 1)%Z.
Proof.
  intros Hw Hv. assert (0 < Z.to_nat (digits10 w + 1)) by (by destruct Hw as [-> | ->]; cbn; lia).
  enough (length (dec_nat v) <= Z.to_nat (digits10 w + 1)) by lia. apply dec_nat_length_bounds; [done|lia|].
  apply (Z.lt_trans _ (2 ^ w)); [lia|]. by destruct Hw as [-> | ->].
Qed.

Lemma format_decimal_from w v buf :
  int_width w -> (0 <= v < 2 ^ w)%Z -> length (dec_nat v) <= length buf ->
  format_decimal buf v (length (dec_nat v)) = Some (dec_nat v ++ drop (length (dec_nat v)) buf, 0).
Proof.
  intros Hw Hv Hl. apply (format_decimal_spec []).
  - split; [lia|]. destruct Hw as [-> | ->]; lia.
  - by apply (region_start buf [] (length (dec_nat v))).
Qed.

Lemma format_decimal_it_ok w v :
  int_width w -> (0 <= v < 2 ^ w)%Z -> format_decimal_it w v (Z.of_nat (length (dec_nat v))) = Some (dec_nat v).
Proof.
  intros Hw Hv. pose proof (dec_nat_digits10 w v Hw Hv) as Hd. unfold format_decimal_it.
  rewrite (proj2 (Z.ltb_ge _ _)) by lia. rewrite Nat2Z.id. rewrite (format_decimal_from w) by (rewrite ?length_replicate; lia || done).
  cbn [mbind option_bind]. by rewrite take_app_length.
Qed.

(** ** Reference: what a field looks like *)

Definition fill_text (f : fill_t) : bytes := take (fill_size f) (fill_data f).
Definition fills (n : nat) (f : fill_t) : bytes := concat (replicate n (fill_text f)).

(** A body of [width] columns in a field: the missing columns are filled on the side the
    alignment leaves free, on both sides (one more on the right) when centered. *)
Definition padded (to_left : bool) (specs : format_specs) (width : Z) (body : bytes) : bytes :=
  let n := Z.to_nat (sp_width specs - width) in
  let l :=
    match sp_align specs with
    | align.none => if to_left then 0 else n
    | align.left => 0
    | align.right | align.numeric => n
    | align.center => n / 2
    end in
  fills l (sp_fill specs) ++ body ++ fills (n - l) (sp_fill specs).

Definition sign_text (specs : format_specs) (v : Z) : bytes :=
  if (v <? 0)%Z then ["-"%char]
  else match sp_sign specs with sign.plus => ["+"%char] | sign.space => [" "%char] | _ => [] end.

(** A prefix and digits, with zeros between them up to the width or the precision. *)
Definition int_body (specs : format_specs) (prefix digits : bytes) : bytes :=
  let size := Z.of_nat (length prefix + length digits) in
  let zeros :=
    Z.max 0 (match sp_align specs with
             | align.numeric => sp_width specs - size
             | _ => sp_precision specs - Z.of_nat (length digits)
             end) in
  padded false specs (size + zeros) (prefix ++ replicate (Z.to_nat zeros) "0"%char ++ digits).

Definition alt_prefix (specs : format_specs) : bytes := if sp_alt specs then ["0"%char; sp_type specs] else [].

(** The text of an integer, or the error. *)
Definition int_field (specs : format_specs) (v : Z) : bytes + bytes :=
  let t := sp_type specs in
  let a := Z.abs v in
  let s := sign_text specs v in
  if (t =c NUL) || (t =c "d"%char) || (t =c "L"%char) then inl (int_body specs s (dec_nat a))
  else if (t =c "x"%char) || (t =c "X"%char) then
    inl (int_body specs (s ++ alt_prefix specs) (base_nat 4 (negb (t =c "x"%char)) a))
  else if (t =c "b"%char) || (t =c "B"%char) then inl (int_body specs (s ++ alt_prefix specs) (base_nat 1 false a))
  else if t =c "o"%char then
    let digits := base_nat 3 false a in
    let prefix := if sp_alt specs && (sp_precision specs <=? Z.of_nat (length digits))%Z && negb (a =? 0)%Z then ["0"%char] else [] in
    inl (int_body specs (s ++ prefix) digits)
  else if t =c "c"%char then inl (padded true specs 1 [chr (v mod 2 ^ 8)])
  else inr (B "invalid type specifier").

(** A string: cut to the precision (in characters), padded to the width (in code points). *)
Definition str_field (specs : format_specs) (s : bytes) : bytes :=
  let cut := if (0 <=? sp_precision specs)%Z then take (Z.to_nat (sp_precision specs)) s else s in
  padded true specs (count_code_points cut) cut.

Definition ptr_field (specs : format_specs) (p : Z) : bytes :=
  let body := B "0x" ++ base_nat 4 false p in padded false specs (Z.of_nat (length body)) body.

Definition char_field (specs : format_specs) (c : ascii) : bytes + bytes :=
  if negb (sp_type specs =c NUL) && negb (sp_type specs =c "c"%char) then int_field specs (char_to_int c)
  else
    match sp_align specs, sp_sign specs, sp_alt specs with
    | align.numeric, _, _ => inr (B "invalid format specifier for char")
    | _, sign.none, false => inl (padded true specs 1 [c])
    | _, _, _ => inr (B "invalid format specifier for char")
    end.

Definition field (specs : format_specs) (v : operand) : bytes + bytes :=
  let t := sp_type specs in
  match v with
  | op_monostate => inl []
  | op_int v | op_uint v | op_long_long v | op_ulong_long v => int_field specs v
  | op_bool v => if t =c NUL then inl (str_field specs (bool_text v)) else int_field specs (Z.b2z v)
  | op_char c => char_field specs c
  | op_cstring data chars =>
      if (t =c NUL) || (t =c "s"%char) then
        if (data =? 0)%Z then inr (B "string pointer is null") else inl (str_field specs chars)
      else if t =c "p"%char then inl (ptr_field specs data)
      else inr (B "invalid type specifier")
  | op_string s => if (t =c NUL) || (t =c "s"%char) then inl (str_field specs s) else inr (B "invalid type specifier")
  | op_pointer p => if (t =c NUL) || (t =c "p"%char) then inl (ptr_field specs p) else inr (B "invalid type specifier")
  end.

(** What the library makes of an integer to be written as a character: the character of its
    absolute value alone, whatever the width, fill and alignment. *)
Definition integral (v : operand) : option Z :=
  match v with
  | op_int n | op_uint n | op_long_long n | op_ulong_long n => Some n
  | op_bool b => Some (Z.b2z b)
  | _ => None
  end.
Definition bare_char (specs : format_specs) (v : operand) : option ascii :=
  if sp_type specs =c "c"%char then (fun n => chr (Z.abs n mod 2 ^ 8)) <$> integral v else None.
Definition written (specs : format_specs) (v : operand) : bytes + bytes :=
  match bare_char specs v with Some c => inl [c] | None => field specs v end.

(** Appending a text, or the exception. *)
Definition emit (out : bytes) (r : bytes + bytes) : outcome bytes :=
  match r with inl text => Ok (out ++ text) | inr what => Throw what end.

(** Operands and specifiers that can occur. *)
Definition operand_ok (v : operand) : Prop :=
  match v with
  | op_monostate => False
  | op_int v => (- 2 ^ 31 <= v < 2 ^ 31)%Z
  | op_uint v => (0 <= v < 2 ^ 32)%Z
  | op_long_long v => (- 2 ^ 63 <= v < 2 ^ 63)%Z
  | op_ulong_long v => (0 <= v < 2 ^ 64)%Z
  | op_cstring data _ => (0 <= data < 2 ^ 64)%Z
  | op_pointer p => (0 <= p < 2 ^ 64)%Z
  | _ => True
  end.

Record specs_ok (s : format_specs) : Prop := {
  so_width : (0 <= sp_width s < 2 ^ 31)%Z;
  so_fill : length (fill_data (sp_fill s)) = 4 /\ 1 <= fill_size (sp_fill s) <= 4 }.

(** ** The writers against the reference *)

Lemma fill_loop_eq n text it : fill_loop n text it = it ++ concat (replicate n text).
Proof. revert it. induction n as [|n IH]; intros it; cbn [fill_loop replicate concat]; [by rewrite app_nil_r|]. by rewrite IH, <- app_assoc. Qed.

Lemma fill_eq it n f : length (fill_data f) = 4 -> fill it n f = it ++ fills (Z.to_nat n) f.
Proof.
  intros Hl. unfold fill, fills, fill_text. destruct (fill_size f =? 1)%nat eqn:Hs; to_prop; [|apply fill_loop_eq].
  rewrite Hs. unfold fill_n. f_equal. destruct (fill_data f) as [|c l]; [done|]. cbn [nth take].
  induction (Z.to_nat n) as [|m IH]; [done|]. cbn [replicate concat app]. by f_equal.
Qed.

Lemma shift_align (to_left : bool) a :
  nth (Z.to_nat (align_num a)) (if to_left then left_padding_shifts else right_padding_shifts) 0%Z =
    match a with align.none => if to_left then 31%Z else 0%Z | align.left => 31%Z | align.center => 1%Z | _ => 0%Z end.
Proof. by destruct a, to_left. Qed.

Lemma write_padded_eq to_left out specs width f body :
  specs_ok specs -> (0 <= width)%Z -> (forall it, f it = it ++ body) ->
  write_padded to_left out specs width f = out ++ padded to_left specs width body.
Proof.
  intros [Hw [Hf _]] H0 Hbody. unfold write_padded. rewrite !fill_eq, Hbody, shift_align by done. unfold padded.
  set (p := if (width <? sp_width specs)%Z then _ else _).
  assert (0 <= p < 2 ^ 31)%Z as Hp by (subst p; case_test; to_prop; lia).
  assert (Z.to_nat (sp_width specs - width) = Z.to_nat p) as -> by (subst p; case_test; to_prop; lia).
  assert (Z.shiftr p 31 = 0)%Z as H31 by (rewrite Z.shiftr_div_pow2, Z.div_small by lia; done).
  assert (Z.shiftr p 1 = p / 2)%Z as H1 by (by rewrite Z.shiftr_div_pow2).
  clearbody p. assert (Z.to_nat (p / 2) = Z.to_nat p / 2) as H2 by (by rewrite Z2Nat.inj_div by lia).
  set (lp := Z.shiftr _ _). set (l := match sp_align specs with align.none => _ | _ => _ end).
  assert (0 <= lp /\ Z.to_nat lp = l)%Z as [Hlp Hl].
  { subst lp l. destruct (sp_align specs), to_left; rewrite ?H31, ?H1, ?Z.shiftr_0_r, ?H2; (split; [|done]); lia || (apply Z.div_pos; lia). }
  rewrite Z2Nat.inj_sub, Hl by done. by rewrite <- !app_assoc.
Qed.

Lemma write_int_eq out prefix specs digits n :
  specs_ok specs -> n = Z.of_nat (length digits) ->
  write_int out n prefix specs (fun it => it ++ digits) = out ++ int_body specs prefix digits.
Proof.
  intros Hs ->. unfold write_int, write_int_data, int_body.
  assert (Z.of_nat (length prefix + length digits) = Z.of_nat (length prefix) + Z.of_nat (length digits))%Z as -> by lia.
  set (size := (Z.of_nat (length prefix) + Z.of_nat (length digits))%Z).
  match goal with |- context [Z.max 0 ?z] => set (zeros := Z.max 0 z) end.
  match goal with |- (let '(_, _) := ?p in _) = _ => assert (p = ((size + zeros)%Z, zeros)) as -> end.
  { subst size zeros. destruct (sp_align specs); case_test; to_prop; f_equal; lia. }
  apply write_padded_eq; [done|subst size zeros; lia|]. intros it. unfold fill_n. by rewrite <- !app_assoc.
Qed.

Lemma mk_int_writer_eq w v specs :
  int_width w -> (- 2 ^ (w - 1) <= v < 2 ^ w)%Z -> mk_int_writer w v specs = MkWriter w specs (Z.abs v) (sign_text specs v).
Proof.
  intros Hw Hv. assert (0 < 2 ^ (w - 1) /\ 2 ^ w = 2 * 2 ^ (w - 1))%Z as [Hp Hpow] by (by destruct Hw as [-> | ->]).
  unfold mk_int_writer, sign_text, wrapu. destruct (v <? 0)%Z eqn:Hneg; to_prop.
  - rewrite Zminus_mod_idemp_r, Z.mod_small by lia. do 2 f_equal. lia.
  - rewrite Z.mod_small by lia. rewrite Z.abs_eq by lia. by destruct (sp_sign specs).
Qed.

Section writers.
  Context (w a : Z) (specs : format_specs) (prefix out : bytes).
  Context (Hw : int_width w) (Ha : (0 <= a < 2 ^ w)%Z) (Hs : specs_ok specs).
  Abbreviation iw := (MkWriter w specs a prefix).

Lemma abs_64 : (0 <= a < 2 ^ 64)%Z.
Proof. destruct Hw as [-> | ->]; lia. Qed.

Lemma on_dec_eq : on_dec iw out = Ok (out ++ int_body specs prefix (dec_nat a)).
Proof.
  unfold on_dec. cbn [iw_bits abs_value iw_prefix iw_specs]. rewrite count_digits_w_length, format_decimal_it_ok by done.
  cbn [lift bind]. f_equal. by apply write_int_eq.
Qed.

Lemma on_hex_eq :
  on_hex iw out = Ok (out ++ int_body specs (prefix ++ alt_prefix specs) (base_nat 4 (negb (sp_type specs =c "x"%char)) a)).
Proof.
  unfold on_hex. cbn [abs_value iw_prefix iw_specs].
  destruct (digits_bits_ok 4 (negb (sp_type specs =c "x"%char)) a ltac:(lia) abs_64) as [-> Hf]. cbn [lift bind]. rewrite Hf.
  cbn [lift bind]. rewrite (write_int_eq _ _ specs _ _ Hs eq_refl). unfold alt_prefix. destruct (sp_alt specs); by rewrite ?app_nil_r.
Qed.

Lemma on_bin_eq : on_bin iw out = Ok (out ++ int_body specs (prefix ++ alt_prefix specs) (base_nat 1 false a)).
Proof.
  unfold on_bin. cbn [abs_value iw_prefix iw_specs].
  destruct (digits_bits_ok 1 false a ltac:(lia) abs_64) as [-> Hf]. cbn [lift bind]. rewrite Hf.
  cbn [lift bind]. rewrite (write_int_eq _ _ specs _ _ Hs eq_refl). unfold alt_prefix. destruct (sp_alt specs); by rewrite ?app_nil_r.
Qed.

Lemma on_oct_eq :
  on_oct iw out =
    Ok (out ++ int_body specs (prefix ++ (if sp_alt specs && (sp_precision specs <=? Z.of_nat (length (base_nat 3 false a)))%Z && negb (a =? 0)%Z
                                          then ["0"%char] else [])) (base_nat 3 false a)).
Proof.
  unfold on_oct. cbn [abs_value iw_prefix iw_specs].
  destruct (digits_bits_ok 3 false a ltac:(lia) abs_64) as [-> Hf]. cbn [lift bind]. rewrite Hf.
  cbn [lift bind]. rewrite (write_int_eq _ _ specs _ _ Hs eq_refl). case_test; by rewrite ?app_nil_r.
Qed.
End writers.

Lemma af_write_int_eq loc w out v specs :
  grouping loc = [] -> int_width w -> (- 2 ^ (w - 1) <= v < 2 ^ w)%Z -> specs_ok specs ->
  af_write_int loc w out v specs = emit out (if sp_type specs =c "c"%char then inl [chr (Z.abs v mod 2 ^ 8)] else int_field specs v).
Proof.
  intros Hg Hw Hv Hs. unfold af_write_int. rewrite mk_int_writer_eq by done.
  assert (0 <= Z.abs v < 2 ^ w)%Z as Ha by (assert (0 < 2 ^ (w - 1) /\ 2 ^ w = 2 * 2 ^ (w - 1))%Z by (by destruct Hw as [-> | ->]); lia).
  unfold handle_int_type_spec, on_num. rewrite Hg, bool_decide_true by done.
  rewrite (on_dec_eq w), (on_hex_eq w), (on_bin_eq w), (on_oct_eq w) by done. unfold int_field, on_chr. cbn [abs_value].
  destruct (sp_type specs =c "c"%char) eqn:Hc; [apply Ascii.eqb_eq in Hc; by rewrite Hc|].
  destruct (sp_type specs =c NUL) eqn:?; [done|]. destruct (sp_type specs =c "d"%char) eqn:?; [done|]. cbn [orb].
  destruct (sp_type specs =c "L"%char) eqn:HL; [apply Ascii.eqb_eq in HL; by rewrite HL|].
  repeat (case_test; [done|]). done.
Qed.

Lemma count_code_points_nonneg s : (0 <= count_code_points s)%Z.
Proof. induction s as [|c s IH]; cbn [count_code_points]; [done|]. case_test; lia. Qed.

Lemma write_str_eq out s specs : specs_ok specs -> write_str out s specs = out ++ str_field specs s.
Proof.
  intros Hs. unfold write_str, str_field.
  set (cut := if (0 <=? sp_precision specs)%Z then _ else s).
  match goal with |- context [take (if ?b then ?x else ?y) s] => assert (take (if b then x else y) s = cut) as Hcut end.
  { subst cut. destruct (0 <=? sp_precision specs)%Z eqn:H0; cbn [andb]; [|by rewrite take_ge].
    destruct (sp_precision specs <? Z.of_nat (length s))%Z eqn:Hlt; to_prop; [|by rewrite !take_ge by lia].
    unfold code_point_index. by rewrite (proj2 (Nat.ltb_lt _ _)) by lia. }
  rewrite Hcut. clearbody cut. pose proof (count_code_points_nonneg cut).
  destruct (sp_width specs =? 0)%Z eqn:Hz; to_prop; cbn [negb].
  - rewrite (write_padded_eq _ _ specs _ _ cut Hs) by done. unfold padded. rewrite Hz.
    replace (0 - count_code_points cut)%Z with (- count_code_points cut)%Z by lia.
    by replace (Z.to_nat (- count_code_points cut)) with 0 by lia.
  - by apply write_padded_eq.
Qed.

Lemma write_ptr_eq out p specs : specs_ok specs -> (0 <= p < 2 ^ 64)%Z -> write_ptr out p (Some specs) = Ok (out ++ ptr_field specs p).
Proof.
  intros Hs Hp. unfold write_ptr. destruct (digits_bits_ok 4 false p ltac:(lia) Hp) as [-> Hf]. cbn [lift bind]. rewrite Hf. cbn [lift bind].
  f_equal. unfold ptr_field. rewrite length_app, Nat2Z.inj_add, Z.add_comm. apply write_padded_eq; [done|cbn; lia|done].
Qed.

(** Without specifiers. *)
Definition plain (v : operand) : bytes + bytes :=
  match v with
  | op_monostate => inl []
  | op_int v | op_uint v | op_long_long v | op_ulong_long v => inl (dec v)
  | op_bool v => inl (bool_text v)
  | op_char c => inl [c]
  | op_cstring data chars => if (data =? 0)%Z then inr (B "string pointer is null") else inl chars
  | op_string s => inl s
  | op_pointer p => inl (B "0x" ++ base_nat 4 false p)
  end.

Lemma write_integer_eq w out v :
  int_width w -> (- 2 ^ (w - 1) <= v < 2 ^ w)%Z -> write_integer w out v = Ok (out ++ dec v).
Proof.
  intros Hw Hv. assert (0 < 2 ^ (w - 1) /\ 2 ^ w = 2 * 2 ^ (w - 1))%Z as [Hp Hpow] by (by destruct Hw as [-> | ->]).
  unfold write_integer. set (a := if (v <? 0)%Z then _ else _).
  assert (a = Z.abs v) as ->.
  { subst a. unfold wrapu. destruct (v <? 0)%Z eqn:Hneg; to_prop; [|rewrite Z.mod_small; lia].
    rewrite Zplus_mod_idemp_l. unfold Z.lnot. rewrite <- Z.sub_1_r.
    replace (- (v mod 2 ^ w) - 1 + 1)%Z with (0 - v mod 2 ^ w)%Z by lia. rewrite Zminus_mod_idemp_r, Z.mod_small; lia. }
  assert (0 <= Z.abs v < 2 ^ w)%Z as Ha by lia. rewrite count_digits_w_length, Nat2Z.id by done.
  rewrite (format_decimal_from w) by (rewrite ?length_replicate; done). cbn [lift bind]. rewrite drop_ge by (by rewrite length_replicate).
  rewrite app_nil_r. do 2 f_equal. unfold dec. destruct (v <? 0)%Z eqn:Hneg; to_prop; cbn [app];
    [by rewrite Z.abs_neq by lia|by rewrite Z.abs_eq by lia].
Qed.

Lemma default_arg_formatter_eq out v : operand_ok v -> default_arg_formatter out v = emit out (plain v).
Proof.
  assert (int_width 32 /\ int_width 64) as [H32 H64] by (split; [by left|by right]).
  destruct v; cbn [operand_ok default_arg_formatter plain emit]; intros Hok; try done; try (by apply write_integer_eq; [done|cbn; lia]).
  - unfold write_cstring. by case_test.
  - unfold write_ptr. destruct (digits_bits_ok 4 false p ltac:(lia) Hok) as [-> Hf]. cbn [lift bind]. by rewrite Hf.
Qed.

Lemma arg_formatter_eq loc specs out v :
  grouping loc = [] -> specs_ok specs -> operand_ok v -> arg_formatter loc specs out v = emit out (written specs v).
Proof.
  intros Hg Hs. assert (int_width 32 /\ int_width 64) as [H32 H64] by (split; [by left|by right]). unfold written, bare_char.
  destruct v; cbn [operand_ok arg_formatter field integral fmap option_fmap option_map]; intros Hok; try done;
    try (rewrite af_write_int_eq by (done || (cbn; lia)); by destruct (sp_type specs =c "c"%char)).
  - destruct (sp_type specs =c NUL) eqn:Hn; cbn [negb].
    + apply Ascii.eqb_eq in Hn. rewrite Hn. cbn [emit Ascii.eqb Bool.eqb]. by rewrite write_str_eq.
    + rewrite af_write_int_eq by (done || (destruct v; cbn; lia)). by destruct (sp_type specs =c "c"%char).
  - assert ((if sp_type specs =c "c"%char then @None ascii else None) = None) as -> by (by destruct (sp_type specs =c "c"%char)).
    unfold handle_char_specs, char_field. case_test.
    + assert ((sp_type specs =c "c"%char) = false) as Hc by (by destruct (sp_type specs =c "c"%char), (sp_type specs =c NUL)).
      rewrite af_write_int_eq; [by rewrite Hc|done|done| |done]. unfold char_to_int, wraps.
      pose proof (Z.mod_pos_bound (code v + 2 ^ (8 - 1)) (2 ^ 8) ltac:(done)). cbn in *. lia.
    + unfold write_char. rewrite (write_padded_eq _ _ specs _ _ [v]) by done. by destruct (sp_align specs), (sp_sign specs), (sp_alt specs).
  - assert ((if sp_type specs =c "c"%char then @None ascii else None) = None) as -> by (by destruct (sp_type specs =c "c"%char)).
    unfold handle_cstring_type_spec, af_write_cstring. repeat case_test; cbn [emit]; try done; [by rewrite write_str_eq|by apply write_ptr_eq].
  - assert ((if sp_type specs =c "c"%char then @None ascii else None) = None) as -> by (by destruct (sp_type specs =c "c"%char)).
    unfold check_string_type_spec. destruct (sp_type specs =c NUL), (sp_type specs =c "s"%char); cbn [negb andb orb bind emit]; rewrite ?write_str_eq by done; done.
  - assert ((if sp_type specs =c "c"%char then @None ascii else None) = None) as -> by (by destruct (sp_type specs =c "c"%char)).
    unfold check_pointer_type_spec. destruct (sp_type specs =c NUL), (sp_type specs =c "p"%char); cbn [negb andb orb bind emit]; rewrite ?write_ptr_eq by done; done.
Qed.

(** ** The contract *)

Lemma count_code_points_app s t : count_code_points (s ++ t) = (count_code_points s + count_code_points t)%Z.
Proof. induction s as [|c s IH]; [done|]. cbn [app count_code_points]. rewrite IH. lia. Qed.

Lemma count_fills n f : count_code_points (fills n f) = (Z.of_nat n * count_code_points (fill_text f))%Z.
Proof. unfold fills. induction n as [|n IH]; [done|]. cbn [replicate concat]. rewrite count_code_points_app, IH. lia. Qed.

Lemma padded_columns b specs body :
  count_code_points (fill_text (sp_fill specs)) = 1%Z ->
  count_code_points (padded b specs (count_code_points body) body) = Z.max (sp_width specs) (count_code_points body).
Proof.
  intros Hf. unfold padded. rewrite !count_code_points_app, !count_fills, Hf.
  set (n := Z.to_nat _). set (l := match sp_align specs with align.none => _ | _ => _ end).
  assert (l <= n) by (subst l; destruct (sp_align specs), b; (lia || (pose proof (Nat.div_le_upper_bound n 2 n); lia))).
  subst n. lia.
Qed.

Lemma padded_default b n body : (0 <= n)%Z -> padded b default_specs n body = body.
Proof.
  intros Hn. unfold padded. cbn [sp_width sp_align default_specs]. replace (Z.to_nat (0 - n)) with 0 by lia.
  destruct b; cbn [fills replicate concat Nat.sub app]; apply app_nil_r.
Qed.

Lemma int_body_default s digits : int_body default_specs s digits = s ++ digits.
Proof.
  unfold int_body. cbn [sp_align sp_precision default_specs]. rewrite Z.max_l by lia. rewrite padded_default by lia. done.
Qed.

Lemma default_field v : field default_specs v = plain v.
Proof.
  assert (forall v, int_field default_specs v = inl (dec v)) as Hi.
  { intros z. unfold int_field, sign_text. cbn [sp_type sp_sign default_specs]. rewrite Ascii.eqb_refl. cbn [orb].
    rewrite int_body_default. unfold dec. destruct (z <? 0)%Z eqn:Hz; to_prop; [by rewrite Z.abs_neq by lia|by rewrite Z.abs_eq by lia]. }
  assert (forall s, str_field default_specs s = s) as Hs.
  { intros s. unfold str_field. cbn [sp_precision default_specs Z.leb Z.compare]. apply padded_default, count_code_points_nonneg. }
  destruct v; cbn [field plain]; rewrite ?Hi, ?Hs; try done.
  - change (sp_type default_specs) with NUL. rewrite Ascii.eqb_refl. cbn [orb]. unfold ptr_field. by rewrite padded_default by lia.
Qed.

(** C25: Writing one argument that is no floating point number, in a locale that does not group
    digits, gives the field its specifiers describe, or the exception, and never undefined
    behaviour: integers in bases 2, 8, 10 and 16 with their sign, prefix and zeros, strings cut
    and padded, characters and pointers; the digit counts are right for the buffers the digits
    go through.  One combination is not written as described: an integer as a character, of
    which the absolute value's character is written alone.  Without specifiers the text is that
    of the default ones.  A field has at least the columns asked for. *)
Theorem write_arg_correct (loc : locale_ref) (specs : format_specs) (out : bytes) (v : operand) :
  grouping loc = [] -> specs_ok specs -> operand_ok v ->
  arg_formatter loc specs out v = match bare_char specs v with Some c => Ok (out ++ [c]) | None => emit out (field specs v) end /\
  default_arg_formatter out v = emit out (plain v) /\ field default_specs v = plain v /\
  (count_code_points (fill_text (sp_fill specs)) = 1%Z -> forall b body,
     count_code_points (padded b specs (count_code_points body) body) = Z.max (sp_width specs) (count_code_points body)).
Proof.
  intros Hg Hs Hv. split_and!; [rewrite arg_formatter_eq by done; unfold written; by destruct (bare_char specs v)|by apply default_arg_formatter_eq|apply default_field|].
  intros Hf b body. by apply padded_columns.
Qed.

Lemma write_arg_correct_witness :
  arg_formatter classic (MkSpecs 10 (-1) "X"%char align.numeric sign.plus true default_fill) [] (op_int (-255)) = Ok (B "-0X00000FF") /\
  default_arg_formatter [] (op_long_long (- 2 ^ 63)) = Ok (B "-9223372036854775808").
Proof.
  split.
  - eapply eq_trans.
    + apply (write_arg_correct classic (MkSpecs 10 (-1) "X"%char align.numeric sign.plus true default_fill) [] (op_int (-255)));
        [done|split; cbn; lia|cbn; lia].
    + vm_compute. reflexivity.
  - eapply eq_trans.
    + apply (write_arg_correct classic default_specs [] (op_long_long (- 2 ^ 63))); [done|split; cbn; lia|cbn; lia].
    + vm_compute. reflexivity.
Defined.

(** ** What the code gets wrong *)

(** With a locale that groups digits, a plus sign is written as a minus. *)
Lemma grouped_plus_is_minus :
  arg_formatter (MkLocale [3%Z] ","%char) (MkSpecs 0 (-1) "L"%char align.none sign.plus false default_fill) [] (op_int 1234567)
    = Ok (B "-1,234,567").
Proof. vm_compute. reflexivity. Qed.

(** An integer written as a character ignores the width; zeros go before a [bool]'s text. *)
Lemma char_width_ignored w f out n :
  (0 <= n < 2 ^ 7)%Z ->
  arg_formatter classic (MkSpecs w (-1) "c"%char align.none sign.none false f) out (op_int n) = Ok (out ++ [chr n]).
Proof.
  intros Hn. cbn [arg_formatter]. unfold af_write_int. rewrite mk_int_writer_eq by (by left || cbn; lia).
  cbn. unfold on_chr. cbn [abs_value]. unfold wrapu. by rewrite Z.abs_eq, Z.mod_small by lia.
Qed.

Lemma zero_padded_bool : field (MkSpecs 6 (-1) NUL align.numeric sign.none false (MkFill ["0"%char; NUL; NUL; NUL] 1)) (op_bool true) = inl (B "00true").
Proof. vm_compute. reflexivity. Qed.
