(* ===== verification/FmtParse.v ===== *)
(** * Format strings: [spdlog/fmt/bundled/format.h], [core.h]

    The parser of format strings with the handler that formats: [parse_format_string] with its two
    paths (a loop for short strings, [memchr] for long ones), replacement fields, argument ids,
    format specifiers with their checks and dynamic width and precision, [vformat_to].  A pointer
    into the format string is what is left of the string from there.  When an exception leaves,
    the output is given up, as by every caller. *)
From S2P Require Import Prelude CLib Json Fmt Files FmtArgs FmtWrite.

Definition max_int : Z := INT_MAX.

(** ** Characters *)

Definition is_ascii_letter (c : ascii) : bool :=
  (((code "a" <=? code c) && (code c <=? code "z")) || ((code "A" <=? code c) && (code c <=? code "Z")))%Z.
Definition is_name_start (c : ascii) : bool := is_ascii_letter c || (c =c "_"%char).
Definition is_name_char (c : ascii) : bool := is_name_start c || isdigit c.

Definition code_point_lengths : list nat :=
  [1; 1; 1; 1; 1; 1; 1; 1; 1; 1; 1; 1; 1; 1; 1; 1; 0; 0; 0; 0; 0; 0; 0; 0; 2; 2; 2; 2; 3; 3; 4; 0].
Definition code_point_length (c : ascii) : nat :=
  let len := nth (Z.to_nat (Z.shiftr (code c) 3)) code_point_lengths 0 in
  len + (if (len =? 0)%nat then 1 else 0).

(** ** Numbers and argument ids *)

(** The loop of [parse_nonnegative_int], from a digit on; [big] is a tenth of the largest [int]. *)
Fixpoint parse_int_loop (value : Z) (s : bytes) : Z * bytes :=
  match s with
  | c :: s' =>
      if isdigit c then
        if (max_int / 10 <? value)%Z then ((max_int + 1)%Z, s)
        else parse_int_loop (u32 (u32 (value * 10) + digit_val c)) s'
      else (value, s)
  | [] => (value, [])
  end.

Definition parse_nonnegative_int (s : bytes) : outcome (Z * bytes) :=
  match s with
  | c :: _ =>
      if isdigit c then
        let '(value, s) := parse_int_loop 0 s in
        if (max_int <? value)%Z then Throw (B "number is too big") else Ok (value, s)
      else Undef
  | [] => Undef
  end.

(** What an id handler is called with. *)
Inductive arg_ref := ref_auto | ref_index (i : Z) | ref_name (name : bytes).

Definition ends_id (s : bytes) : bool := match s with c :: _ => (c =c "}"%char) || (c =c ":"%char) | [] => false end.

Definition parse_arg_id (s : bytes) : outcome (arg_ref * bytes) :=
  match s with
  | [] => Undef
  | c :: s' =>
      if (c =c "}"%char) || (c =c ":"%char) then Ok (ref_auto, s)
      else if isdigit c then
        let* (index, s) := (if negb (c =c "0"%char) then parse_nonnegative_int s else Ok (0%Z, s')) in
        if ends_id s then Ok (ref_index index, s) else Throw (B "invalid format string")
      else if negb (is_name_start c) then Throw (B "invalid format string")
      else Ok (ref_name (c :: take_while is_name_char s'), drop_while is_name_char s')
  end.

(** [next_arg_id] and [check_arg_id] of the parse context, on its [next_arg_id_]. *)
Definition next_arg_id (next : Z) : outcome (Z * Z) :=
  if (0 <=? next)%Z then Ok (next, (next + 1)%Z) else Throw (B "cannot switch from manual to automatic argument indexing").
Definition check_arg_id (next : Z) : outcome Z :=
  if (0 <? next)%Z then Throw (B "cannot switch from automatic to manual argument indexing") else Ok (-1)%Z.

(** ** Setting specifiers *)

Definition set_align (a : align.type) (s : format_specs) : format_specs :=
  MkSpecs (sp_width s) (sp_precision s) (sp_type s) a (sp_sign s) (sp_alt s) (sp_fill s).
Definition set_fill (f : fill_t) (s : format_specs) : format_specs :=
  MkSpecs (sp_width s) (sp_precision s) (sp_type s) (sp_align s) (sp_sign s) (sp_alt s) f.
Definition set_sign (g : sign.type) (s : format_specs) : format_specs :=
  MkSpecs (sp_width s) (sp_precision s) (sp_type s) (sp_align s) g (sp_alt s) (sp_fill s).
Definition set_alt (s : format_specs) : format_specs :=
  MkSpecs (sp_width s) (sp_precision s) (sp_type s) (sp_align s) (sp_sign s) true (sp_fill s).
Definition set_width (w : Z) (s : format_specs) : format_specs :=
  MkSpecs w (sp_precision s) (sp_type s) (sp_align s) (sp_sign s) (sp_alt s) (sp_fill s).
Definition set_precision (p : Z) (s : format_specs) : format_specs :=
  MkSpecs (sp_width s) p (sp_type s) (sp_align s) (sp_sign s) (sp_alt s) (sp_fill s).
Definition set_type (t : ascii) (s : format_specs) : format_specs :=
  MkSpecs (sp_width s) (sp_precision s) t (sp_align s) (sp_sign s) (sp_alt s) (sp_fill s).

(** [on_zero] of the setter: the first character of the fill, whatever its size. *)
Definition set_zero (s : format_specs) : format_specs :=
  set_fill (MkFill (<[0 := "0"%char]> (fill_data (sp_fill s))) (fill_size (sp_fill s))) (set_align align.numeric s).

(** [numeric_specs_checker], on the type of the argument. *)
Definition require_numeric_argument (t : type_) : outcome unit :=
  if is_arithmetic_type t then Ok tt else Throw (B "format specifier requires numeric argument").
Definition check_sign (t : type_) : outcome unit :=
  let* _ := require_numeric_argument t in
  if is_integral_type t && negb (bool_decide (t = int_type)) && negb (bool_decide (t = long_long_type)) &&
     negb (bool_decide (t = char_type))
  then Throw (B "format specifier requires signed argument") else Ok tt.
Definition check_precision (t : type_) : outcome unit :=
  if is_integral_type t || bool_decide (t = pointer_type) then Throw (B "precision not allowed for this argument type")
  else Ok tt.

(** The handlers of [specs_checker]. *)
Definition on_align (t : type_) (a : align.type) (s : format_specs) : outcome format_specs :=
  let* _ := (match a with align.numeric => require_numeric_argument t | _ => Ok tt end) in Ok (set_align a s).
Definition on_sign (t : type_) (g : sign.type) (s : format_specs) : outcome format_specs :=
  let* _ := check_sign t in Ok (set_sign g s).
Definition on_hash (t : type_) (s : format_specs) : outcome format_specs := let* _ := require_numeric_argument t in Ok (set_alt s).
Definition on_zero (t : type_) (s : format_specs) : outcome format_specs := let* _ := require_numeric_argument t in Ok (set_zero s).
Definition on_fill (text : bytes) (s : format_specs) : outcome format_specs :=
  let* f := fill_assign text (sp_fill s) in Ok (set_fill f s).

(** ** Alignment *)

Definition align_of (c : ascii) : align.type :=
  if c =c "<"%char then align.left else if c =c ">"%char then align.right else if c =c "^"%char then align.center else align.none.
Definition is_align (c : ascii) : bool := (c =c "<"%char) || (c =c ">"%char) || (c =c "^"%char).

(** The character at [p], an offset, is an alignment. *)
Definition found_align (t : type_) (s : bytes) (p : nat) (specs : format_specs) : outcome (bytes * format_specs) :=
  let a := align_of (nth p s NUL) in
  if (p =? 0)%nat then let* specs := on_align t a specs in Ok (drop 1 s, specs)
  else if nth 0 s NUL =c "{"%char then Throw (B "invalid fill character '{'")
  else
    let* specs := on_fill (take p s) specs in
    let* specs := on_align t a specs in
    Ok (drop (p + 1) s, specs).

(** [parse_align]: the loop tries the place behind one code point, then the first. *)
Definition parse_align (t : type_) (s : bytes) (specs : format_specs) : outcome (bytes * format_specs) :=
  match s with
  | [] => Undef
  | c :: _ =>
      let p := code_point_length c in
      let p := if (length s <=? p)%nat then 0 else p in
      if is_align (nth p s NUL) then found_align t s p specs
      else if (p =? 0)%nat then Ok (s, specs)
      else if is_align c then found_align t s 0 specs
      else Ok (s, specs)
  end.

(** ** Parsing and formatting *)

Section format.
  Context (args : basic_format_args) (loc : locale_ref).

  (** [get_arg] on the context, by index and by name. *)
Definition check_arg (a : format_arg) : outcome format_arg := if has_arg a then Ok a else Throw (B "argument not found").
Definition get_arg (id : Z) : outcome format_arg := let* a := lift (get id args) in check_arg a.
Definition get_arg_named (name : bytes) : outcome format_arg := let* a := lift (get_by_name name args) in check_arg a.

  (** [specs_handler::get_arg]: the argument, and the new [next_arg_id_]. *)
Definition handler_get_arg (r : arg_ref) (next : Z) : outcome (format_arg * Z) :=
    match r with
    | ref_auto => let* (id, next) := next_arg_id next in let* a := get_arg id in Ok (a, next)
    | ref_index id => let* next := check_arg_id next in let* a := get_arg id in Ok (a, next)
    | ref_name name => let* a := get_arg_named name in Ok (a, next)
    end.

  (** [get_dynamic_spec] with a [width_checker] or a [precision_checker]; [what] is the word. *)
Definition get_dynamic_spec (what : bytes) (a : format_arg) : outcome Z :=
    let* v := lift (visit_format_arg a) in
    let* value :=
      match v with
      | op_int v | op_uint v | op_long_long v | op_ulong_long v =>
          if (v <? 0)%Z then Throw (B "negative " ++ what) else Ok (u64 v)
      | _ => Throw (what ++ B " is not integer")
      end in
    if (max_int <? value)%Z then Throw (B "number is too big") else Ok value.

Definition on_dynamic_width (r : arg_ref) (specs : format_specs) (next : Z) : outcome (format_specs * Z) :=
    let* (a, next) := handler_get_arg r next in
    let* w := get_dynamic_spec (B "width") a in Ok (set_width w specs, next).
Definition on_dynamic_precision (r : arg_ref) (specs : format_specs) (next : Z) : outcome (format_specs * Z) :=
    let* (a, next) := handler_get_arg r next in
    let* p := get_dynamic_spec (B "precision") a in Ok (set_precision p specs, next).

  (** Behind the opening brace of a dynamic width or precision. *)
Definition parse_dynamic (on_dynamic : arg_ref -> format_specs -> Z -> outcome (format_specs * Z)) (s : bytes)
      (specs : format_specs) (next : Z) : outcome (bytes * (format_specs * Z)) :=
    let* (s, st) :=
      match s with
      | [] => Ok ([], (specs, next))
      | _ => let* (r, s) := parse_arg_id s in let* st := on_dynamic r specs next in Ok (s, st)
      end in
    match s with
    | d :: s => if d =c "}"%char then Ok (s, st) else Throw (B "invalid format string")
    | [] => Throw (B "invalid format string")
    end.

Definition parse_width (s : bytes) (specs : format_specs) (next : Z) : outcome (bytes * (format_specs * Z)) :=
    match s with
    | [] => Undef
    | c :: s' =>
        if isdigit c then
          let* (w, s) := parse_nonnegative_int s in Ok (s, (set_width w specs, next))
        else if c =c "{"%char then parse_dynamic on_dynamic_width s' specs next
        else Ok (s, (specs, next))
    end.

  (** From the point on. *)
Definition parse_precision (t : type_) (s : bytes) (specs : format_specs) (next : Z) : outcome (bytes * (format_specs * Z)) :=
    let s := drop 1 s in
    let c := nth 0 s NUL in
    let* (s, st) :=
      if isdigit c then
        let* (p, s) := parse_nonnegative_int s in Ok (s, (set_precision p specs, next))
      else if c =c "{"%char then parse_dynamic on_dynamic_precision (drop 1 s) specs next
      else Throw (B "missing precision specifier") in
    let* _ := check_precision t in Ok (s, st).

  (** The parts of [parse_format_specs], each returning when the end is reached. *)
Definition parse_sign (t : type_) (s : bytes) (specs : format_specs) : outcome (bytes * format_specs) :=
    match s with
    | c :: s' =>
        if c =c "+"%char then let* specs := on_sign t sign.plus specs in Ok (s', specs)
        else if c =c "-"%char then let* specs := on_sign t sign.minus specs in Ok (s', specs)
        else if c =c " "%char then let* specs := on_sign t sign.space specs in Ok (s', specs)
        else Ok (s, specs)
    | [] => Ok (s, specs)
    end.

Definition parse_flag (flag : ascii) (on_flag : format_specs -> outcome format_specs) (s : bytes) (specs : format_specs)
      : outcome (bytes * format_specs) :=
    match s with
    | c :: s' => if c =c flag then let* specs := on_flag specs in Ok (s', specs) else Ok (s, specs)
    | [] => Ok (s, specs)
    end.

Definition parse_type (s : bytes) (specs : format_specs) : bytes * format_specs :=
    match s with
    | c :: s' => if negb (c =c "}"%char) then (s', set_type c specs) else (s, specs)
    | [] => (s, specs)
    end.

Definition parse_format_specs (t : type_) (s : bytes) (specs : format_specs) (next : Z) : outcome (bytes * (format_specs * Z)) :=
    let at_end (s : bytes) := bool_decide (s = []) in
    if at_end s then Ok (s, (specs, next)) else
    let* (s, specs) := parse_align t s specs in
    if at_end s then Ok (s, (specs, next)) else
    let* (s, specs) := parse_sign t s specs in
    if at_end s then Ok (s, (specs, next)) else
    let* (s, specs) := parse_flag "#" (on_hash t) s specs in
    if at_end s then Ok (s, (specs, next)) else
    let* (s, specs) := parse_flag "0" (on_zero t) s specs in
    if at_end s then Ok (s, (specs, next)) else
    let* (s, (specs, next)) := parse_width s specs next in
    if at_end s then Ok (s, (specs, next)) else
    let* (s, (specs, next)) :=
      (if nth 0 s NUL =c "."%char then parse_precision t s specs next else Ok (s, (specs, next))) in
    let '(s, specs) := parse_type s specs in
    Ok (s, (specs, next)).

  (** ** [format_handler]: the state is [next_arg_id_] and the output *)

Record handler := MkHandler { next_arg_id_ : Z; out_ : bytes }.

Definition on_text (text : bytes) (h : handler) : handler := MkHandler (next_arg_id_ h) (out_ h ++ text).

  (** [on_arg_id] through [id_adapter]. *)
Definition on_arg_id (r : arg_ref) (h : handler) : outcome (Z * handler) :=
    match r with
    | ref_auto => let* (id, next) := next_arg_id (next_arg_id_ h) in Ok (id, MkHandler next (out_ h))
    | ref_index id => let* next := check_arg_id (next_arg_id_ h) in Ok (id, MkHandler next (out_ h))
    | ref_name name =>
        let* id := lift (get_id name args) in
        if (id <? 0)%Z then Throw (B "argument not found") else Ok (id, h)
    end.

Definition format_default (a : format_arg) (h : handler) : outcome handler :=
    let* v := lift (visit_format_arg a) in
    let* out := default_arg_formatter (out_ h) v in
    Ok (MkHandler (next_arg_id_ h) out).

Definition on_replacement_field (id : Z) (h : handler) : outcome handler :=
    let* a := get_arg id in format_default a h.

  (** A single letter before the brace is taken as the type without the parser and its checks. *)
Definition short_spec (s : bytes) : bool :=
    match s with c :: d :: _ => (d =c "}"%char) && is_ascii_letter c | _ => false end.

Definition format_field (a : format_arg) (s : bytes) (h : handler) : outcome (bytes * handler) :=
    let* (s, (specs, next)) :=
      if short_spec s then Ok (drop 1 s, (set_type (nth 0 s NUL) default_specs, next_arg_id_ h))
      else
        let* (s, st) := parse_format_specs (arg_type a) s default_specs (next_arg_id_ h) in
        if nth 0 s NUL =c "}"%char then Ok (s, st) else Throw (B "missing '}' in format string") in
    let* v := lift (visit_format_arg a) in
    let* out := arg_formatter loc specs (out_ h) v in
    Ok (s, MkHandler next out).

Definition on_format_specs (id : Z) (s : bytes) (h : handler) : outcome (bytes * handler) :=
    let* a := get_arg id in format_field a s h.

  (** From the opening brace on. *)
Definition parse_replacement_field (s : bytes) (h : handler) : outcome (bytes * handler) :=
    let s := drop 1 s in
    match s with
    | [] => Throw (B "invalid format string")
    | c :: s' =>
        if c =c "}"%char then
          let* (id, h) := on_arg_id ref_auto h in
          let* h := on_replacement_field id h in Ok (s', h)
        else if c =c "{"%char then Ok (s', on_text [c] h)
        else
          let* (r, s) := parse_arg_id s in
          let* (id, h) := on_arg_id r h in
          let c := nth 0 s NUL in
          if c =c "}"%char then let* h := on_replacement_field id h in Ok (drop 1 s, h)
          else if c =c ":"%char then
            let* (s, h) := on_format_specs id (drop 1 s) h in
            if nth 0 s NUL =c "}"%char then Ok (drop 1 s, h) else Throw (B "unknown format specifier")
          else Throw (B "missing '}' in format string")
    end.

  (** ** [parse_format_string] *)

  (** What lies between two pointers. *)
Definition range (b e : bytes) : bytes := take (length b - length e) b.

  (** The loop for strings shorter than 32; every round consumes a character. *)
Fixpoint small_loop (fuel : nat) (b p : bytes) (h : handler) : outcome handler :=
    match fuel with
    | 0 => Undef
    | S fuel =>
        match p with
        | [] => Ok (on_text b h)
        | c :: p' =>
            if c =c "{"%char then
              let h := on_text (range b p) h in
              let* (p, h) := parse_replacement_field p h in small_loop fuel p p h
            else if c =c "}"%char then
              if nth 0 p' NUL =c "}"%char then
                let h := on_text (range b p') h in small_loop fuel (drop 1 p') (drop 1 p') h
              else Throw (B "unmatched '}' in format string")
            else small_loop fuel b p' h
        end
    end.

  (** The writer of the long path: [memchr] for closing braces. *)
Fixpoint write_loop (fuel : nat) (s : bytes) (h : handler) : outcome handler :=
    match fuel with
    | 0 => Undef
    | S fuel =>
        match find_if (Ascii.eqb "}"%char) s with
        | None => Ok (on_text s h)
        | Some p =>
            let p := S p in
            if nth 0 (drop p s) NUL =c "}"%char then write_loop fuel (drop (p + 1) s) (on_text (take p s) h)
            else Throw (B "unmatched '}' in format string")
        end
    end.
Definition write (s : bytes) (h : handler) : outcome handler :=
    match s with [] => Ok h | _ => write_loop (S (length s)) s h end.

Fixpoint large_loop (fuel : nat) (s : bytes) (h : handler) : outcome handler :=
    match fuel with
    | 0 => Undef
    | S fuel =>
        match s with
        | [] => Ok h
        | c :: s' =>
            match (if negb (c =c "{"%char) then S <$> find_if (Ascii.eqb "{"%char) s' else Some 0) with
            | None => write s h
            | Some p =>
                let* h := write (take p s) h in
                let* (s, h) := parse_replacement_field (drop p s) h in large_loop fuel s h
            end
        end
    end.

Definition parse_format_string (format_str : bytes) (h : handler) : outcome handler :=
    if (length format_str <? 32)%nat then small_loop (S (length format_str)) format_str format_str h
    else large_loop (S (length format_str)) format_str h.

  (** [vformat_to]: what is appended to a buffer. *)
Definition vformat_to (buf format_str : bytes) : outcome bytes :=
    if bool_decide (format_str = B "{}") then
      let* a := lift (get 0 args) in
      let* a := check_arg a in
      let* v := lift (visit_format_arg a) in default_arg_formatter buf v
    else let* h := parse_format_string format_str (MkHandler 0 buf) in Ok (out_ h).
End format.

(** [format_to(buf, format_str, args...)]. *)
Definition format_to (buf format_str : bytes) (args : list call_arg) : outcome bytes :=
  vformat_to (make_format_args args) classic buf format_str.
