(* ===== verification/FmtTheory.v ===== *)
(** * Theorems on format strings

    Formatting ends and is defined on every format string; the two paths of the parser agree; a
    format string built from pieces means what the pieces say; what the parser gets wrong. *)
From S2P Require Import Prelude CLib Json Fmt Files FmtArgs FmtWrite FmtParse.

(** ** Outcomes that satisfy a property: [U] stands for what undefined behaviour would need *)

Definition good {A} (U : Prop) (P : A -> Prop) (o : outcome A) : Prop :=
  match o with Ok a => P a | Throw _ => True | Undef => U end.

Lemma good_bind {A C} U (P : A -> Prop) (Q : C -> Prop) (o : outcome A) f :
  good U P o -> (forall a, P a -> good U Q (f a)) -> good U Q (bind o f).
Proof. intros Ho Hf. destruct o; cbn in *; auto. Qed.

Lemma good_imp {A} U (P Q : A -> Prop) o : good U P o -> (forall a, P a -> Q a) -> good U Q o.
Proof. intros Ho H. destruct o; cbn in *; auto. Qed.

Lemma good_lift {A} U (P : A -> Prop) (o : option A) : (forall a, o = Some a -> P a) -> is_Some o \/ U -> good U P (lift o).
Proof. intros HP [[a ->]|HU]; cbn; [by apply HP|]. destruct o; cbn; auto. Qed.

(** Arguments that are there and hold what their types say. *)
Record args_ok (args : basic_format_args) : Prop := {
  ao_get : forall id, (0 <= id)%Z -> exists a, get id args = Some a /\
    (has_arg a = true -> exists v, visit_format_arg a = Some v /\ operand_ok v);
  ao_id : forall name, is_Some (get_id name args) }.

Section defined.
  Context (U : Prop) (args : basic_format_args) (loc : locale_ref).
  Context (HU : args_ok args \/ U) (Hloc : grouping loc = [] \/ U) (buf : bytes).

  (** The rest is shorter than [n]; numbers are in range. *)
Definition rest_le {A} (n : nat) (P : A -> Prop) (r : bytes * A) : Prop := length r.1 <= n /\ P r.2.
Definition next_ok (next : Z) : Prop := (-1 <= next)%Z.
Definition spec_state_ok (st : format_specs * Z) : Prop := specs_ok st.1 /\ next_ok st.2.
Definition int_ok (v : Z) : Prop := (0 <= v <= max_int)%Z.
Definition ref_ok (r : arg_ref) : Prop := match r with ref_index i => (0 <= i)%Z | _ => True end.

Lemma parse_int_loop_ok v s : (0 <= v <= 2 ^ 31 + 1)%Z ->
  length (parse_int_loop v s).2 <= length s /\ (0 <= (parse_int_loop v s).1 < 2 ^ 32)%Z.
Proof.
  revert v. induction s as [|c s IH]; intros v Hv; cbn [parse_int_loop]; [cbn [fst snd]; lia|].
  destruct (isdigit c) eqn:Hc; [|cbn [fst snd]; lia]. apply isdigit_range in Hc.
  destruct (max_int / 10 <? v)%Z eqn:Hb; to_prop; [cbn [fst snd]; unfold max_int, INT_MAX; lia|].
  change (max_int / 10)%Z with 214748364%Z in Hb. unfold u32, wrapu. rewrite (Z.mod_small (v * 10)), Z.mod_small by lia.
  cbn [length]. destruct (IH (v * 10 + digit_val c)%Z ltac:(lia)). lia.
Qed.

Lemma parse_nonnegative_int_ok c s :
  isdigit c = true -> good U (fun r => int_ok r.1 /\ length r.2 <= length s) (parse_nonnegative_int (c :: s)).
Proof.
  intros Hc. unfold parse_nonnegative_int. rewrite Hc. cbn [parse_int_loop]. rewrite Hc.
  change (max_int / 10 <? 0)%Z with false. cbv iota. apply isdigit_range in Hc.
  pose proof (parse_int_loop_ok (u32 (u32 (0 * 10) + digit_val c)) s) as Hp.
  assert (u32 (u32 (0 * 10) + digit_val c) = digit_val c) as Hd by (unfold u32, wrapu; rewrite Z.mod_0_l, Z.mod_small by lia; lia).
  rewrite Hd in *. specialize (Hp ltac:(lia)). destruct (parse_int_loop (digit_val c) s) as [v r]. cbn [fst snd] in Hp.
  destruct (max_int <? v)%Z eqn:Hm; to_prop; cbn [good fst snd]; [done|]. unfold int_ok. lia.
Qed.

Lemma parse_arg_id_ok c s :
  good U (fun r => ref_ok r.1 /\ length r.2 <= S (length s)) (parse_arg_id (c :: s)).
Proof.
  cbn [parse_arg_id]. case_test; [cbn; lia|]. destruct (isdigit c) eqn:Hc.
  - apply (good_bind _ (fun r => int_ok r.1 /\ length r.2 <= length s)).
    + case_test; [by apply parse_nonnegative_int_ok|]. cbn [good fst snd]. unfold int_ok, max_int, INT_MAX. lia.
    + intros [i r] [Hi Hr]. cbn [fst snd] in *. unfold int_ok in Hi. case_test; cbn; [lia|done].
  - case_test; [done|]. cbn. pose proof (drop_while_length is_name_char s). lia.
Qed.

Definition arg_ok (a : format_arg) : Prop := (exists v, visit_format_arg a = Some v /\ operand_ok v) \/ U.

Lemma get_arg_ok id : (0 <= id)%Z -> good U arg_ok (get_arg args id).
Proof.
  intros Hid. unfold get_arg. apply (good_bind _ (fun a => has_arg a = true -> arg_ok a)).
  - apply good_lift; destruct HU as [Ha|]; [|by right|left|by right; auto].
    + intros a Hg. destruct (ao_get _ Ha id Hid) as (a' & Hg' & Hv). rewrite Hg in Hg'. simplify_eq. intros H. left. auto.
    + destruct (ao_get _ Ha id Hid) as (a & -> & _). by eexists.
  - intros a Ha. unfold check_arg. destruct (has_arg a); cbn; auto.
Qed.

Lemma get_arg_named_ok name : good U arg_ok (get_arg_named args name).
Proof.
  unfold get_arg_named. apply (good_bind _ (fun a => has_arg a = true -> arg_ok a)).
  - unfold get_by_name. destruct HU as [Ha|Hu]; [|apply good_lift; [by right|by right]].
    destruct (ao_id _ Ha name) as [id ->]. cbn [mbind option_bind]. destruct (0 <=? id)%Z eqn:Hid; to_prop; [|done].
    destruct (ao_get _ Ha id Hid) as (a & -> & Hv). cbn. intros H. left. auto.
  - intros a Ha. unfold check_arg. destruct (has_arg a); cbn; auto.
Qed.

Lemma next_arg_id_ok next : next_ok next -> good U (fun r => (0 <= r.1)%Z /\ next_ok r.2) (next_arg_id next).
Proof. intros Hn. unfold next_arg_id, next_ok in *. case_test; to_prop; cbn [good fst snd]; [lia|done]. Qed.

Lemma check_arg_id_ok next : next_ok next -> good U next_ok (check_arg_id next).
Proof. intros Hn. unfold check_arg_id, next_ok in *. case_test; to_prop; cbn [good]; [done|lia]. Qed.

Lemma handler_get_arg_ok r next :
  ref_ok r -> next_ok next -> good U (fun r => arg_ok r.1 /\ next_ok r.2) (handler_get_arg args r next).
Proof.
  intros Hr Hn. destruct r as [|i|n]; cbn [handler_get_arg].
  - apply (good_bind _ _ _ _ _ (next_arg_id_ok next Hn)). intros [id next'] [Hid Hn'].
    apply (good_bind _ _ _ _ _ (get_arg_ok id Hid)). intros a Ha. by split.
  - apply (good_bind _ _ _ _ _ (check_arg_id_ok next Hn)). intros next' Hn'.
    apply (good_bind _ _ _ _ _ (get_arg_ok i Hr)). intros a Ha. by split.
  - apply (good_bind _ _ _ _ _ (get_arg_named_ok n)). intros a Ha. by split.
Qed.

(** Reading an argument that was found. *)
Lemma visit_ok a : arg_ok a -> good U (fun v => operand_ok v \/ U) (lift (visit_format_arg a)).
Proof. intros [(v & -> & Hv)|Hu]; [by left|]. apply good_lift; by right. Qed.

Lemma get_dynamic_spec_ok what a : arg_ok a -> good U int_ok (get_dynamic_spec what a).
Proof.
  intros Ha. unfold get_dynamic_spec. apply (good_bind _ _ _ _ _ (visit_ok a Ha)). intros v _.
  apply (good_bind _ (fun v => (0 <= v)%Z)).
  - destruct v; try done; case_test; try done; cbn; unfold u64, wrapu; by apply Z.mod_pos_bound.
  - intros z Hz. case_test; to_prop; cbn [good]; [done|]. unfold int_ok. lia.
Qed.

Lemma set_width_ok w s : int_ok w -> specs_ok s -> specs_ok (set_width w s).
Proof. intros Hw [_ Hf]. split; [unfold int_ok, max_int, INT_MAX in Hw; cbn [set_width sp_width]; lia|done]. Qed.
Lemma set_precision_ok p s : specs_ok s -> specs_ok (set_precision p s).
Proof. by intros [? ?]. Qed.
Lemma set_align_ok a s : specs_ok s -> specs_ok (set_align a s).
Proof. by intros [? ?]. Qed.
Lemma set_sign_ok a s : specs_ok s -> specs_ok (set_sign a s).
Proof. by intros [? ?]. Qed.
Lemma set_alt_ok s : specs_ok s -> specs_ok (set_alt s).
Proof. by intros [? ?]. Qed.
Lemma set_type_ok c s : specs_ok s -> specs_ok (set_type c s).
Proof. by intros [? ?]. Qed.
Lemma set_zero_ok s : specs_ok s -> specs_ok (set_zero s).
Proof. intros [Hw [Hl Hs]]. split; [done|]. cbn [set_zero set_fill sp_fill fill_data fill_size]. by rewrite length_insert. Qed.

Lemma on_dynamic_width_ok r s next :
  ref_ok r -> specs_ok s -> next_ok next -> good U spec_state_ok (on_dynamic_width args r s next).
Proof.
  intros Hr Hs Hn. unfold on_dynamic_width. apply (good_bind _ _ _ _ _ (handler_get_arg_ok r next Hr Hn)). intros [a next'] [Ha Hn'].
  apply (good_bind _ _ _ _ _ (get_dynamic_spec_ok _ a Ha)). intros w Hw. split; [by apply set_width_ok|done].
Qed.

Lemma on_dynamic_precision_ok r s next :
  ref_ok r -> specs_ok s -> next_ok next -> good U spec_state_ok (on_dynamic_precision args r s next).
Proof.
  intros Hr Hs Hn. unfold on_dynamic_precision. apply (good_bind _ _ _ _ _ (handler_get_arg_ok r next Hr Hn)). intros [a next'] [Ha Hn'].
  apply (good_bind _ _ _ _ _ (get_dynamic_spec_ok _ a Ha)). intros w Hw. split; [by apply set_precision_ok|done].
Qed.

Lemma code_point_length_range c : 1 <= code_point_length c <= 4.
Proof. destruct c as [[] [] [] [] [] [] [] []]; vm_compute; lia. Qed.

Lemma good_check {A} (P : A -> Prop) (o : outcome unit) (a : A) :
  good U (fun _ => True) o -> P a -> good U P (bind o (fun _ => Ok a)).
Proof. intros Ho Ha. by apply (good_bind _ _ _ _ _ Ho). Qed.

Lemma require_numeric_ok t : good U (fun _ => True) (require_numeric_argument t).
Proof. unfold require_numeric_argument. by case_test. Qed.
Lemma check_sign_ok t : good U (fun _ => True) (check_sign t).
Proof. unfold check_sign. apply (good_bind _ _ _ _ _ (require_numeric_ok t)). intros _ _. by case_test. Qed.
Lemma check_precision_ok t : good U (fun _ => True) (check_precision t).
Proof. unfold check_precision. by case_test. Qed.

Lemma on_align_ok t a s : specs_ok s -> good U specs_ok (on_align t a s).
Proof. intros Hs. unfold on_align. apply good_check; [destruct a; try done; apply require_numeric_ok|by apply set_align_ok]. Qed.

Lemma found_align_ok t s p specs :
  specs_ok specs -> p <= 4 -> p < length s -> good U (rest_le (length s) specs_ok) (found_align t s p specs).
Proof.
  intros Hs Hp Hl. unfold found_align. destruct (p =? 0)%nat eqn:H0; to_prop.
  - apply (good_bind _ _ _ _ _ (on_align_ok t _ specs Hs)). intros s' Hs'. split; [cbn [fst]; rewrite length_drop; lia|done].
  - case_test; [done|]. apply (good_bind _ specs_ok).
    + unfold on_fill, fill_assign. rewrite length_take_le by lia. rewrite (proj2 (Nat.ltb_ge 4 p)) by lia. cbn [bind good].
      destruct Hs as [Hw [Hd _]]. split; [done|]. cbn [set_fill sp_fill fill_data fill_size]. rewrite length_app, length_take_le, length_drop by lia. lia.
    + intros s' Hs'. apply (good_bind _ _ _ _ _ (on_align_ok t _ s' Hs')). intros s'' Hs''. split; [cbn [fst]; rewrite length_drop; lia|done].
Qed.

Lemma parse_align_ok t c s specs : specs_ok specs -> good U (rest_le (S (length s)) specs_ok) (parse_align t (c :: s) specs).
Proof.
  intros Hs. pose proof (code_point_length_range c) as Hc. unfold parse_align.
  set (p := if (length (c :: s) <=? code_point_length c)%nat then 0 else code_point_length c).
  assert (p <= 4 /\ p < length (c :: s)) as [Hp Hl] by (subst p; case_test; to_prop; cbn [length] in *; lia).
  clearbody p. destruct (is_align (nth p (c :: s) NUL)); [by apply found_align_ok|].
  destruct (p =? 0)%nat; [by split|]. destruct (is_align c); [apply found_align_ok; [done|lia|lia]|by split].
Qed.

(** The reference in braces, of a width or a precision. *)
Definition rest_state (n : nat) : bytes * (format_specs * Z) -> Prop := rest_le n spec_state_ok.

Lemma dynamic_ok (on_dynamic : arg_ref -> format_specs -> Z -> outcome (format_specs * Z)) s specs next :
  (forall r, ref_ok r -> good U spec_state_ok (on_dynamic r specs next)) -> specs_ok specs -> next_ok next ->
  good U (rest_state (length s)) (parse_dynamic on_dynamic s specs next).
Proof.
  intros Hd Hs Hn. unfold parse_dynamic. apply (good_bind _ (rest_state (length s))).
  - destruct s as [|c s]; [by split|]. apply (good_bind _ _ _ _ _ (parse_arg_id_ok c s)). intros [r s'] [Hr Hl].
    apply (good_bind _ _ _ _ _ (Hd r Hr)). intros st Hst. by split.
  - intros [s' st] [Hl Hst]. cbn [fst snd] in *. destruct s' as [|d s']; [done|]. case_test; [|done]. split; [cbn [fst length] in *; lia|done].
Qed.

Lemma parse_width_ok c s specs next :
  specs_ok specs -> next_ok next -> good U (rest_state (S (length s))) (parse_width args (c :: s) specs next).
Proof.
  intros Hs Hn. cbn [parse_width]. destruct (isdigit c) eqn:Hc.
  - apply (good_bind _ _ _ _ _ (parse_nonnegative_int_ok c s Hc)). intros [w r] [Hw Hr]. split; [cbn in *; lia|]. split; [by apply set_width_ok|done].
  - case_test; [|split; [done|by split]].
    eapply good_imp; [apply (dynamic_ok (on_dynamic_width args)); [intros r Hr; by apply on_dynamic_width_ok|done|done]|].
    intros [r st] [Hr Hst]. split; [cbn in *; lia|done].
Qed.

Lemma parse_precision_ok t c s specs next :
  specs_ok specs -> next_ok next -> good U (rest_state (length s)) (parse_precision args t (c :: s) specs next).
Proof.
  intros Hs Hn. unfold parse_precision. change (drop 1 (c :: s)) with s. apply (good_bind _ (rest_state (length s))).
  - destruct s as [|d s]; [by cbn|]. change (drop 1 (d :: s)) with s. cbn [nth]. destruct (isdigit d) eqn:Hd.
    + apply (good_bind _ _ _ _ _ (parse_nonnegative_int_ok d s Hd)). intros [w r] [Hw Hr]. split; [cbn in *; lia|]. split; [by apply set_precision_ok|done].
    + case_test; [|done]. eapply good_imp; [apply (dynamic_ok (on_dynamic_precision args)); [intros r Hr; by apply on_dynamic_precision_ok|done|done]|].
      intros [r st] [Hr Hst]. split; [cbn in *; lia|done].
  - intros [r st] Hr. apply good_check; [apply check_precision_ok|done].
Qed.

Lemma parse_sign_ok t s specs : specs_ok specs -> good U (rest_le (length s) specs_ok) (parse_sign t s specs).
Proof.
  intros Hs. destruct s as [|c s]; cbn [parse_sign]; [by split|].
  assert (forall g, good U (rest_le (S (length s)) specs_ok) (let* specs := on_sign t g specs in Ok (s, specs))) as Hg.
  { intros g. apply (good_bind _ specs_ok); [apply good_check; [apply check_sign_ok|by apply set_sign_ok]|]. intros s' Hs'. split; [cbn; lia|done]. }
  repeat (case_test; [apply Hg|]). by split.
Qed.

Lemma parse_flag_ok flag on_flag s specs :
  (good U specs_ok (on_flag specs)) -> specs_ok specs -> good U (rest_le (length s) specs_ok) (parse_flag flag on_flag s specs).
Proof.
  intros Hf Hs. destruct s as [|c s]; cbn [parse_flag]; [by split|]. case_test; [|by split].
  apply (good_bind _ _ _ _ _ Hf). intros s' Hs'. split; [cbn; lia|done].
Qed.

Lemma on_hash_ok t s : specs_ok s -> good U specs_ok (on_hash t s).
Proof. intros Hs. apply good_check; [apply require_numeric_ok|by apply set_alt_ok]. Qed.
Lemma on_zero_ok t s : specs_ok s -> good U specs_ok (on_zero t s).
Proof. intros Hs. apply good_check; [apply require_numeric_ok|by apply set_zero_ok]. Qed.

Lemma parse_type_ok s specs : specs_ok specs -> rest_le (length s) specs_ok (parse_type s specs).
Proof. intros Hs. destruct s as [|c s]; cbn [parse_type]; [by split|]. case_test; [split; [cbn; lia|by apply set_type_ok]|by split]. Qed.

Lemma rest_state_pair n s specs next : length s <= n -> specs_ok specs -> next_ok next -> rest_state n (s, (specs, next)).
Proof. intros. split; [done|by split]. Qed.

Lemma parse_format_specs_ok t s specs next :
  specs_ok specs -> next_ok next -> good U (rest_state (length s)) (parse_format_specs args t s specs next).
Proof.
  intros Hs Hn. unfold parse_format_specs.
  destruct s as [|c s]; [rewrite bool_decide_true by done; by apply rest_state_pair|rewrite bool_decide_false by done].
  apply (good_bind _ _ _ _ _ (parse_align_ok t c s specs Hs)). intros [s1 p1] [Hl1 Hp1]. cbn [fst snd] in *.
  case_bool_decide; [by apply rest_state_pair|].
  apply (good_bind _ _ _ _ _ (parse_sign_ok t s1 p1 Hp1)). intros [s2 p2] [Hl2 Hp2]. cbn [fst snd] in *.
  case_bool_decide; [apply rest_state_pair; cbn [length]; auto; lia|].
  apply (good_bind _ _ _ _ _ (parse_flag_ok "#" (on_hash t) s2 p2 (on_hash_ok t p2 Hp2) Hp2)). intros [s3 p3] [Hl3 Hp3]. cbn [fst snd] in *.
  case_bool_decide; [apply rest_state_pair; cbn [length]; auto; lia|].
  apply (good_bind _ _ _ _ _ (parse_flag_ok "0" (on_zero t) s3 p3 (on_zero_ok t p3 Hp3) Hp3)). intros [s4 p4] [Hl4 Hp4]. cbn [fst snd] in *.
  case_bool_decide; [apply rest_state_pair; cbn [length]; auto; lia|].
  destruct s4 as [|c4 s4]; [done|]. apply (good_bind _ _ _ _ _ (parse_width_ok c4 s4 p4 next Hp4 Hn)). intros [s5 [p5 n5]] (Hl5 & Hp5 & Hn5). cbn [fst snd length] in *.
  case_bool_decide; [apply rest_state_pair; cbn [length]; auto; lia|].
  apply (good_bind _ (rest_state (length s5))).
  - destruct s5 as [|c5 s5]; [done|]. case_test; [|by apply rest_state_pair]. eapply good_imp; [by apply parse_precision_ok|]. intros [r st] [Hr Hst]. split; [cbn in *; lia|done].
  - intros [s6 [p6 n6]] (Hl6 & Hp6 & Hn6). cbn [fst snd] in *. pose proof (parse_type_ok s6 p6 Hp6) as [Hl7 Hp7].
    destruct (parse_type s6 p6) as [s7 p7]. cbn [fst snd] in *. apply rest_state_pair; cbn [length]; auto; lia.
Qed.

(** ** The handler *)

(** The next id is in range, and what was in the buffer is still there. *)
Definition h_ok (h : handler) : Prop := next_ok (next_arg_id_ h) /\ (buf `prefix_of` out_ h \/ U).

Lemma h_ok_next next h : h_ok h -> next_ok next -> h_ok (MkHandler next (out_ h)).
Proof. by intros [_ ?]. Qed.

Lemma h_ok_text t h : h_ok h -> h_ok (on_text t h).
Proof. intros [Hn [Hp|Hu]]; split; [done|left; by apply prefix_app_r|done|by right]. Qed.

Lemma on_arg_id_ok r h : ref_ok r -> h_ok h -> good U (fun r => ((0 <= r.1)%Z \/ U) /\ h_ok r.2) (on_arg_id args r h).
Proof.
  intros Hr Hh. pose proof (proj1 Hh) as Hn. destruct r as [|i|n]; cbn [on_arg_id].
  - apply (good_bind _ _ _ _ _ (next_arg_id_ok _ Hn)). intros [id next] [Hid Hn']. split; [by left|by apply h_ok_next].
  - apply (good_bind _ _ _ _ _ (check_arg_id_ok _ Hn)). intros next Hn'. split; [by left|by apply h_ok_next].
  - apply (good_bind _ (fun _ => True)).
    + apply good_lift; [done|]. destruct HU as [Ha|]; [left; by apply ao_id|by right].
    + intros id _. case_test; to_prop; [done|]. split; [by left|done].
Qed.

(** What a writer makes of the output. *)
Definition extends (out out' : bytes) : Prop := out `prefix_of` out' \/ U.

Lemma good_U {A} (P : A -> Prop) (o : outcome A) : U -> (forall a, P a) -> good U P o.
Proof. by destruct o; cbn. Qed.

Lemma emit_ok out r : good U (extends out) (emit out r).
Proof. destruct r; cbn; [left; apply prefix_app_r; done|done]. Qed.

Lemma found_arg_ok id : (0 <= id)%Z \/ U -> good U arg_ok (get_arg args id).
Proof. intros [Hid|Hu]; [by apply get_arg_ok|]. apply good_U; [done|]. intros a. by right. Qed.

Lemma h_ok_extends next h out : h_ok h -> next_ok next -> extends (out_ h) out -> h_ok (MkHandler next out).
Proof. intros [_ [Hp|Hu]] Hn [He|?]; (split; [done|]); [left; by trans (out_ h)|by right..]. Qed.

Lemma on_replacement_field_ok id h : (0 <= id)%Z \/ U -> h_ok h -> good U h_ok (on_replacement_field args id h).
Proof.
  intros Hid Hh. unfold on_replacement_field, format_default. apply (good_bind _ _ _ _ _ (found_arg_ok id Hid)).
  intros a Ha. apply (good_bind _ _ _ _ _ (visit_ok a Ha)). intros v Hv. apply (good_bind _ (extends (out_ h))).
  - destruct Hv as [Hv|Hu]; [|apply good_U; [done|by right]]. rewrite default_arg_formatter_eq by done. apply emit_ok.
  - intros out Ho. apply (h_ok_extends _ h); [done|apply Hh|done].
Qed.

Lemma default_specs_ok : specs_ok default_specs.
Proof. split; cbn; lia. Qed.

Lemma on_format_specs_ok id s h :
  (0 <= id)%Z \/ U -> h_ok h -> good U (rest_le (length s) h_ok) (on_format_specs args loc id s h).
Proof.
  intros Hid Hh. unfold on_format_specs, format_field. apply (good_bind _ _ _ _ _ (found_arg_ok id Hid)).
  intros a Ha. apply (good_bind _ (rest_state (length s))).
  - case_test; [apply rest_state_pair; [rewrite length_drop; lia|apply set_type_ok, default_specs_ok|apply Hh]|].
    apply (good_bind _ _ _ _ _ (parse_format_specs_ok _ _ _ _ default_specs_ok (proj1 Hh))). intros [r st] Hr. by case_test.
  - intros [r [specs next]] (Hl & Hs & Hn). cbn [fst snd] in *.
    apply (good_bind _ _ _ _ _ (visit_ok a Ha)). intros v Hv. apply (good_bind _ (extends (out_ h))).
    + destruct Hv as [Hv|Hu]; [|apply good_U; [done|by right]]. destruct Hloc as [Hg|Hu]; [|apply good_U; [done|by right]].
      rewrite arg_formatter_eq by done. apply emit_ok.
    + intros out Ho. split; [done|]. by apply (h_ok_extends _ h).
Qed.

(** A replacement field takes at least its opening brace. *)
Lemma parse_replacement_field_ok c s h : h_ok h -> good U (rest_le (length s) h_ok) (parse_replacement_field args loc (c :: s) h).
Proof.
  intros Hh. unfold parse_replacement_field. change (drop 1 (c :: s)) with s. destruct s as [|d s]; [done|].
  case_test; [|case_test].
  - apply (good_bind _ _ _ _ _ (on_arg_id_ok ref_auto h I Hh)). intros [id h'] [Hid Hh'].
    apply (good_bind _ _ _ _ _ (on_replacement_field_ok id h' Hid Hh')). intros h'' Hh''. split; [cbn; lia|done].
  - split; [cbn; lia|by apply h_ok_text].
  - apply (good_bind _ _ _ _ _ (parse_arg_id_ok d s)). intros [r s'] [Hr Hl]. cbn [fst snd] in *.
    apply (good_bind _ _ _ _ _ (on_arg_id_ok r h Hr Hh)). intros [id h'] [Hid Hh']. cbn [fst snd] in *.
    case_test; [|case_test; [|done]].
    + apply (good_bind _ _ _ _ _ (on_replacement_field_ok id h' Hid Hh')). intros h'' Hh''. split; [cbn [fst length]; rewrite length_drop; lia|done].
    + apply (good_bind _ _ _ _ _ (on_format_specs_ok id (drop 1 s') h' Hid Hh')). intros [s'' h''] [Hl' Hh'']. cbn [fst snd] in *.
      case_test; [|done]. rewrite length_drop in Hl'. split; [cbn [fst length]; rewrite length_drop; lia|done].
Qed.

(** ** Text with doubled braces *)

(** The text of a piece without opening braces, [None] when a closing brace stands alone. *)
Fixpoint text_of (s : bytes) : option bytes :=
  match s with
  | [] => Some []
  | c :: s' =>
      if c =c "}"%char then
        match s' with
        | d :: s' => if d =c "}"%char then cons d <$> text_of s' else None
        | [] => None
        end
      else cons c <$> text_of s'
  end.

Definition add_text (s : bytes) (h : handler) : outcome handler :=
  match text_of s with Some t => Ok (on_text t h) | None => Throw (B "unmatched '}' in format string") end.

Lemma on_text_app s t h : on_text t (on_text s h) = on_text (s ++ t) h.
Proof. unfold on_text. cbn. by rewrite app_assoc. Qed.

Lemma on_text_nil h : on_text [] h = h.
Proof. destruct h. unfold on_text. cbn. by rewrite app_nil_r. Qed.

Lemma text_of_app l s : Forall (fun c => Ascii.eqb "}"%char c = false) l -> text_of (l ++ s) = app l <$> text_of s.
Proof.
  induction 1 as [|c l Hc _ IH]; cbn [app text_of]; [by destruct (text_of s)|]. rewrite Ascii.eqb_sym, Hc, IH. by destruct (text_of s).
Qed.

Lemma write_loop_eq fuel s h : length s < fuel -> write_loop fuel s h = add_text s h.
Proof.
  revert s h. induction fuel as [|fuel IH]; intros s h Hl; [lia|]. cbn [write_loop]. unfold add_text.
  destruct (find_if (Ascii.eqb "}"%char) s) as [p|] eqn:Hf.
  - apply find_if_some in Hf as (l & c & r & -> & <- & Hc & Hl'). apply Ascii.eqb_eq in Hc. subst c.
    rewrite text_of_app by done. replace (S (length l)) with (length (l ++ ["}"%char])) by (rewrite length_app; cbn; lia).
    replace (l ++ "}"%char :: r) with ((l ++ ["}"%char]) ++ r) by (by rewrite <- app_assoc).
    rewrite drop_app_length, take_app_length. cbn [text_of]. rewrite Ascii.eqb_refl.
    destruct r as [|d r]; [done|]. cbn [nth]. destruct (d =c "}"%char) eqn:Hd; [|done]. apply Ascii.eqb_eq in Hd. subst d.
    replace (length (l ++ ["}"%char]) + 1) with (length ((l ++ ["}"%char]) ++ ["}"%char])) by (rewrite !length_app; cbn; lia).
    replace ((l ++ ["}"%char]) ++ "}"%char :: r) with (((l ++ ["}"%char]) ++ ["}"%char]) ++ r) by (by rewrite <- !app_assoc).
    rewrite drop_app_length. rewrite !length_app in Hl. cbn [length] in Hl. rewrite IH by lia. unfold add_text.
    destruct (text_of r); cbn [fmap option_fmap option_map]; [|done]. by rewrite on_text_app, <- app_assoc.
  - apply find_if_none in Hf. rewrite <- (app_nil_r s) at 2. rewrite text_of_app by done. cbn. by rewrite app_nil_r.
Qed.

Lemma write_eq s h : write s h = add_text s h.
Proof. unfold write. destruct s as [|c s]; [unfold add_text; cbn; by rewrite on_text_nil|]. apply write_loop_eq. lia. Qed.

(** ** The two paths *)

Definition is_open (c : ascii) : bool := c =c "{"%char.

(** What is left of a format string at an opening brace, or at the end. *)
Definition at_open (rest : bytes) : Prop := match rest with [] => True | c :: _ => is_open c = true end.

(** Text up to a brace, then the field and what a loop makes of the rest. *)
Definition text_then (pend t rest : bytes) (h : handler) (k : bytes -> handler -> outcome handler) : outcome handler :=
  match text_of t with
  | None => Throw (B "unmatched '}' in format string")
  | Some x =>
      let h := on_text (pend ++ x) h in
      match rest with
      | [] => Ok h
      | _ => let* (p, h) := parse_replacement_field args loc rest h in k p h
      end
  end.

Lemma range_app (l r : bytes) : range (l ++ r) r = l.
Proof. unfold range. rewrite length_app, Nat.add_sub. apply take_app_length. Qed.

Lemma small_segment f pend t rest h :
  length (t ++ rest) < f -> Forall (fun c => is_open c = false) t -> at_open rest ->
  exists f', length rest <= f' /\
    small_loop args loc f (pend ++ t ++ rest) (t ++ rest) h = text_then pend t rest h (fun p h => small_loop args loc f' p p h).
Proof.
  revert pend t h. induction f as [|f IH]; intros pend t h Hl Ht Hr; [lia|]. unfold text_then.
  destruct t as [|c t]; cbn [app text_of small_loop].
  - exists f. split; [cbn [app] in Hl; lia|]. destruct rest as [|c r]; [done|]. cbn [at_open] in Hr. unfold is_open in Hr. rewrite Hr.
    by rewrite range_app, app_nil_r.
  - apply Forall_cons in Ht as [Hc Ht]. cbn [app length] in Hl. unfold is_open in Hc. rewrite Hc.
    destruct (c =c "}"%char) eqn:Hb.
    + apply Ascii.eqb_eq in Hb. subst c. destruct t as [|d t].
      * exists (length rest). split; [done|]. destruct rest as [|d r]; [done|]. cbn [at_open app nth] in *. apply Ascii.eqb_eq in Hr. by subst d.
      * cbn [app nth]. destruct (d =c "}"%char) eqn:Hd; [|by exists (length rest)]. apply Ascii.eqb_eq in Hd. subst d.
        cbn [app length] in Hl. apply Forall_cons in Ht as [_ Ht]. change (drop 1 ("}"%char :: t ++ rest)) with (t ++ rest).
        destruct (IH [] t (on_text (pend ++ ["}"%char]) h) ltac:(lia) Ht Hr) as (f' & Hf' & He). exists f'. split; [done|].
        replace (range (pend ++ "}"%char :: "}"%char :: t ++ rest) ("}"%char :: t ++ rest)) with (pend ++ ["}"%char]).
        2: { replace (pend ++ "}"%char :: "}"%char :: t ++ rest) with ((pend ++ ["}"%char]) ++ "}"%char :: t ++ rest) by (by rewrite <- app_assoc). by rewrite range_app. }
        cbn [app] in He. rewrite He. unfold text_then. cbn [app]. destruct (text_of t) as [x|]; cbn [fmap option_fmap option_map]; [|done].
        by rewrite on_text_app, <- app_assoc.
    + destruct (IH (pend ++ [c]) t h ltac:(lia) Ht Hr) as (f' & Hf' & He). exists f'. split; [done|].
      replace (pend ++ c :: t ++ rest) with ((pend ++ [c]) ++ t ++ rest) by (by rewrite <- app_assoc). rewrite He. unfold text_then.
      destruct (text_of t) as [x|]; cbn [fmap option_fmap option_map]; [|done]. by rewrite <- app_assoc.
Qed.

Lemma large_segment f t rest h :
  Forall (fun c => is_open c = false) t -> at_open rest ->
  large_loop args loc (S f) (t ++ rest) h = text_then [] t rest h (fun s h => large_loop args loc f s h).
Proof.
  intros Ht Hr. unfold text_then. destruct t as [|c t].
  - cbn [app text_of large_loop]. destruct rest as [|c r]; [by rewrite on_text_nil|]. cbn [at_open] in Hr. unfold is_open in Hr. rewrite Hr. cbn [negb take write bind].
    change (drop 0 (c :: r)) with (c :: r). by rewrite on_text_nil.
  - cbn [app large_loop]. apply Forall_cons in Ht as [Hc Ht]. unfold is_open in Hc. rewrite Hc. cbn [negb].
    assert (Forall (fun x => Ascii.eqb "{"%char x = false) t) as Ht'.
    { eapply Forall_impl; [exact Ht|]. intros x Hx. rewrite Ascii.eqb_sym. exact Hx. }
    destruct rest as [|d r].
    + rewrite app_nil_r, (proj2 (find_if_none _ t)) by done.
      cbn [fmap option_fmap option_map]. rewrite write_eq. unfold add_text. by destruct (text_of (c :: t)).
    + cbn [at_open] in Hr. unfold is_open in Hr. apply Ascii.eqb_eq in Hr. subst d. rewrite find_if_app by (done || apply Ascii.eqb_refl).
      cbn [fmap option_fmap option_map]. change (S (length t)) with (length (c :: t)). change (c :: t ++ "{"%char :: r) with ((c :: t) ++ "{"%char :: r).
      rewrite take_app_length, drop_app_length, write_eq. unfold add_text. by destruct (text_of (c :: t)).
Qed.

(** Every string is text up to its first opening brace. *)
Lemma split_open s : exists t rest, s = t ++ rest /\ Forall (fun c => is_open c = false) t /\ at_open rest.
Proof.
  exists (take_while (fun c => negb (is_open c)) s), (drop_while (fun c => negb (is_open c)) s). split_and!.
  - by rewrite take_drop_while.
  - eapply Forall_impl; [apply take_while_all|]. intros c Hc. by apply negb_true_iff in Hc.
  - destruct (drop_while _ s) as [|c r] eqn:Hd; [done|]. apply drop_while_head in Hd. by apply negb_false_iff in Hd.
Qed.

Lemma text_then_ok n pend t rest h k :
  h_ok h -> length rest <= S n -> (forall p h, length p <= n -> h_ok h -> good U h_ok (k p h)) -> good U h_ok (text_then pend t rest h k).
Proof.
  intros Hh Hl Hk. unfold text_then. destruct (text_of t) as [x|]; [|done]. destruct rest as [|c r]; [by apply h_ok_text|].
  apply (good_bind _ _ _ _ _ (parse_replacement_field_ok c r (on_text (pend ++ x) h) (h_ok_text _ _ Hh))). intros [p h'] [Hp Hh']. apply Hk; [cbn in *; lia|done].
Qed.

Lemma large_loop_ok f s h : length s < f -> h_ok h -> good U h_ok (large_loop args loc f s h).
Proof.
  revert s h. induction f as [|f IH]; intros s h Hl Hh; [lia|]. destruct (split_open s) as (t & rest & -> & Ht & Hr).
  rewrite large_segment by done. rewrite length_app in Hl. destruct rest as [|c r].
  - unfold text_then. destruct (text_of t); [by apply h_ok_text|done].
  - cbn [length] in Hl. apply (text_then_ok (length r)); [done|cbn; lia|]. intros p h' Hp Hh'. apply IH; [lia|done].
Qed.
End defined.

Section paths.
  Context (args : basic_format_args) (loc : locale_ref).

Lemma loops_agree n f1 f2 s h :
  length s <= n -> length s < f1 -> length s < f2 -> next_ok (next_arg_id_ h) -> small_loop args loc f1 s s h = large_loop args loc f2 s h.
Proof.
  revert f1 f2 s h. induction n as [n IH] using lt_wf_ind. intros f1 f2 s h Hn H1 H2 Hh.
  destruct (split_open s) as (t & rest & -> & Ht & Hr). destruct f2 as [|f2]; [lia|].
  destruct (small_segment args loc f1 [] t rest h H1 Ht Hr) as (f' & Hf' & He). cbn [app] in He. rewrite He, large_segment by done.
  unfold text_then. destruct (text_of t) as [x|]; [|done]. destruct rest as [|c r]; [done|].
  pose proof (parse_replacement_field_ok True args loc (or_intror I) (or_intror I) [] c r (on_text ([] ++ x) h) (conj Hh (or_intror I))) as Hp.
  destruct (parse_replacement_field args loc (c :: r) (on_text ([] ++ x) h)) as [[p h']| |]; [|done|done].
  destruct Hp as [Hp [Hh' _]]. cbn [good bind fst snd] in *. rewrite length_app in *. cbn [length] in *.
  apply (IH (length p)); [lia|lia|lia|lia|done].
Qed.
End paths.

(** ** Arguments of a call *)

(** Values in the range of their type. *)
Definition call_ok (args : list call_arg) : Prop :=
  (Z.of_nat (length args) < 2 ^ 31)%Z /\ Forall (fun a : call_arg => operand_ok (arg_map a.2)) args.

Lemma nth_arg_has args i : has_arg (nth_arg args i) = true -> exists a, args !! i = Some a /\ nth_arg args i = make_arg a.2.
Proof. unfold nth_arg. destruct (args !! i) as [a|]; [by exists a|done]. Qed.

Lemma args_ok_make args : call_ok args -> args_ok (make_format_args args).
Proof.
  intros [Hl Ha]. split.
  - intros id Hid. exists (nth_arg args (Z.to_nat id)). split.
    + rewrite <- (Z2Nat.id id) at 1 by done. by apply get_nth.
    + intros H. apply nth_arg_has in H as (a & Hi & ->). exists (arg_map a.2). split; [apply visit_make_arg|].
      by apply (Forall_lookup_1 _ _ _ _ Ha Hi).
  - intros name. rewrite get_id_find by done. by eexists.
Qed.

Lemma outcome_bind_assoc {A C D} (o : outcome A) (f : A -> outcome C) (g : C -> outcome D) :
  bind (bind o f) g = bind o (fun a => bind (f a) g).
Proof. by destruct o. Qed.

(** The two paths of the format string parser agree: for every format string, every
    arguments and any output already written, the loop over characters, used below 32
    characters, and the [memchr] loops, used from there on, write the same text, throw the
    same exception or are both undefined. *)
Theorem parse_paths_agree (args : basic_format_args) (loc : locale_ref) (s buf : bytes) (next : Z) :
  (-1 <= next)%Z ->
  small_loop args loc (S (length s)) s s (MkHandler next buf) = large_loop args loc (S (length s)) s (MkHandler next buf).
Proof. intros Hn. apply (loops_agree args loc (length s)); [done|lia|lia|exact Hn]. Qed.

Lemma parse_paths_agree_witness :
  small_loop (make_format_args [(None, Cint 7)]) classic 10 (B "{{{:>3}}}") (B "{{{:>3}}}") (MkHandler 0 []) = Ok (MkHandler 1 (B "{  7}")).
Proof.
  eapply eq_trans.
  - apply (parse_paths_agree (make_format_args [(None, Cint 7)]) classic (B "{{{:>3}}}") [] 0). lia.
  - vm_compute. reflexivity.
Defined.

Lemma vformat_to_ok args loc buf s :
  args_ok args -> grouping loc = [] -> good False (fun out => buf `prefix_of` out) (vformat_to args loc buf s).
Proof.
  intros Ha Hl. unfold vformat_to. case_bool_decide.
  - rewrite <- outcome_bind_assoc. apply (good_bind _ _ _ _ _ (get_arg_ok False args (or_introl Ha) 0 ltac:(lia))).
    intros f [(v & -> & Hv)|[]]. cbn [lift bind]. rewrite default_arg_formatter_eq by done.
    destruct (plain v); cbn; [by apply prefix_app_r|done].
  - apply (good_bind _ (h_ok False buf)); [|by intros h [_ [Hp|[]]]].
    assert (h_ok False buf (MkHandler 0 buf)) as H0 by (split; [done|by left]).
    assert (good False (h_ok False buf) (large_loop args loc (S (length s)) s (MkHandler 0 buf))) as Hg
      by (apply large_loop_ok; [by left|by left|lia|done]).
    unfold parse_format_string. case_test; [|done].
    by rewrite (loops_agree args loc (length s) _ (S (length s))) by (done || lia).
Qed.

(** C24: Formatting the arguments of a call, none of them a floating point number, in a locale
    that does not group digits, ends on every format string, however malformed, with a text that
    extends what was in the buffer or with a format error, and is never undefined: no read outside the
    format string, the arguments or the digit buffers, no assertion that fails, no loop that
    runs on. *)
Theorem format_total (args : list call_arg) (loc : locale_ref) (buf s : bytes) :
  call_ok args -> grouping loc = [] ->
  (exists text, vformat_to (make_format_args args) loc buf s = Ok (buf ++ text)) \/
  (exists what, vformat_to (make_format_args args) loc buf s = Throw what).
Proof.
  intros Ha Hl. pose proof (vformat_to_ok _ loc buf s (args_ok_make args Ha) Hl) as Hg.
  destruct (vformat_to _ loc buf s) as [out| |]; [left|right; by eexists|done]. destruct Hg as [text ->]. by exists text.
Qed.

Lemma format_total_witness :
  (exists text, vformat_to (make_format_args [(None, Cint 7)]) classic (B "x") (B "{0:{0}}}") = Ok (B "x" ++ text)) \/
  (exists what, vformat_to (make_format_args [(None, Cint 7)]) classic (B "x") (B "{0:{0}}}") = Throw what).
Proof.
  apply format_total; [|done]. split; [reflexivity|]. constructor; [cbn; lia|constructor].
Defined.
