(* ===== verification/FmtPieces.v ===== *)
(** * What format strings mean

    A reference for the language of format strings: pieces of text and replacement fields, their
    printed form and their value over the arguments of a call; and the theorem that formatting
    the printed form gives the value. *)
From S2P Require Import Prelude CLib Json Fmt Files FmtArgs FmtWrite FmtParse FmtTheory.

(** ** Pieces and their printed form *)

(** A width or a precision: absent, a number, or that of an argument. *)
Inductive count := no_count | num (n : Z) | dyn (r : arg_ref).

(** Specifiers; no fill is the empty text, no type is [NUL]. *)
Record spec := MkSpec {
  f_fill : bytes; f_align : align.type; f_sign : sign.type; f_alt : bool; f_zero : bool;
  f_width : count; f_precision : count; f_type : ascii }.

Inductive piece := text (t : bytes) | replacement (r : arg_ref) (sp : option spec).

Definition show_ref (r : arg_ref) : bytes :=
  match r with ref_auto => [] | ref_index i => dec_nat i | ref_name n => n end.
Definition show_count (c : count) : bytes :=
  match c with no_count => [] | num n => dec_nat n | dyn r => "{"%char :: show_ref r ++ ["}"%char] end.
Definition show_align (a : align.type) : bytes :=
  match a with align.left => ["<"%char] | align.right => [">"%char] | align.center => ["^"%char] | _ => [] end.
Definition show_sign (s : sign.type) : bytes :=
  match s with sign.none => [] | sign.minus => ["-"%char] | sign.plus => ["+"%char] | sign.space => [" "%char] end.
Definition show_flag (b : bool) (c : ascii) : bytes := if b then [c] else [].
Definition show_precision (c : count) : bytes := match c with no_count => [] | _ => "."%char :: show_count c end.
Definition show_type (t : ascii) : bytes := if t =c NUL then [] else [t].

(** The specifiers behind the alignment. *)
Definition show_tail (sp : spec) : bytes :=
  show_sign (f_sign sp) ++ show_flag (f_alt sp) "#" ++ show_flag (f_zero sp) "0" ++ show_count (f_width sp) ++
  show_precision (f_precision sp) ++ show_type (f_type sp).
Definition show_spec (sp : spec) : bytes := f_fill sp ++ show_align (f_align sp) ++ show_tail sp.

(** Braces in text are doubled. *)
Fixpoint escape (t : bytes) : bytes :=
  match t with
  | [] => []
  | c :: t => if (c =c "{"%char) || (c =c "}"%char) then c :: c :: escape t else c :: escape t
  end.

Definition show_piece (p : piece) : bytes :=
  match p with
  | text t => escape t
  | replacement r None => "{"%char :: show_ref r ++ ["}"%char]
  | replacement r (Some sp) => "{"%char :: show_ref r ++ ":"%char :: show_spec sp ++ ["}"%char]
  end.
Definition show (ps : list piece) : bytes := concat (map show_piece ps).

(** ** Their value *)

Section eval.
  Context (args : list call_arg).

  (** [next] is the index for the next automatic argument; -1 once an index was given. *)
Definition eval_ref (r : arg_ref) (next : Z) : outcome (cxx_value * Z) :=
    let find i next :=
      match args !! i with Some a => Ok (a.2, next) | None => Throw (B "argument not found") end in
    match r with
    | ref_auto =>
        if (0 <=? next)%Z then find (Z.to_nat next) (next + 1)%Z
        else Throw (B "cannot switch from manual to automatic argument indexing")
    | ref_index i =>
        if (0 <? next)%Z then Throw (B "cannot switch from automatic to manual argument indexing")
        else find (Z.to_nat i) (-1)%Z
    | ref_name n => match find_named args n with Some i => find i next | None => Throw (B "argument not found") end
    end.

  (** A width or precision: an integer argument from 0 to the largest [int]. *)
Definition eval_dynamic (what : bytes) (v : cxx_value) : outcome Z :=
    match arg_map v with
    | op_int v | op_uint v | op_long_long v | op_ulong_long v =>
        if (v <? 0)%Z then Throw (B "negative " ++ what)
        else if (INT_MAX <? v)%Z then Throw (B "number is too big") else Ok v
    | _ => Throw (what ++ B " is not integer")
    end.

Definition eval_count (what : bytes) (dflt : Z) (c : count) (next : Z) : outcome (Z * Z) :=
    match c with
    | no_count => Ok (dflt, next)
    | num n => Ok (n, next)
    | dyn r => let* (v, next) := eval_ref r next in let* n := eval_dynamic what v in Ok (n, next)
    end.

  (** The fill: a code point, in the first characters of the four; a zero flag overwrites the
      first character. *)
Definition eval_fill (sp : spec) : fill_t :=
    let f := match f_fill sp with [] => default_fill | t => MkFill (t ++ drop (length t) (fill_data default_fill)) (length t) end in
    if f_zero sp then MkFill (<[0 := "0"%char]> (fill_data f)) (fill_size f) else f.

  (** Specifiers on an argument of type [t]: signs need a signed argument, [#] and [0] a number,
      and integers and pointers have no precision. *)
Definition eval_spec (t : type_) (sp : spec) (next : Z) : outcome (format_specs * Z) :=
    let* _ := (match f_sign sp with sign.none => Ok tt | _ => check_sign t end) in
    let* _ := (if f_alt sp || f_zero sp then require_numeric_argument t else Ok tt) in
    let* (w, next) := eval_count (B "width") 0 (f_width sp) next in
    let* (p, next) := eval_count (B "precision") (-1) (f_precision sp) next in
    let* _ := (match f_precision sp with no_count => Ok tt | _ => check_precision t end) in
    Ok (MkSpecs w p (f_type sp) (if f_zero sp then align.numeric else f_align sp) (f_sign sp) (f_alt sp) (eval_fill sp), next).

Definition eval_piece (p : piece) (h : handler) : outcome handler :=
    match p with
    | text t => Ok (on_text t h)
    | replacement r sp =>
        let* (v, next) := eval_ref r (next_arg_id_ h) in
        match sp with
        | None => let* out := emit (out_ h) (plain (arg_map v)) in Ok (MkHandler next out)
        | Some sp =>
            let* (specs, next) := eval_spec (type_constant (arg_map v)) sp next in
            let* out := emit (out_ h) (written specs (arg_map v)) in Ok (MkHandler next out)
        end
    end.

Fixpoint eval (ps : list piece) (h : handler) : outcome handler :=
    match ps with [] => Ok h | p :: ps => let* h := eval_piece p h in eval ps h end.
End eval.

(** ** Pieces that can be printed *)

Definition ref_printable (r : arg_ref) : Prop :=
  match r with
  | ref_auto => True
  | ref_index i => (0 <= i <= INT_MAX)%Z
  | ref_name n => match n with c :: n => is_name_start c = true /\ Forall (fun c => is_name_char c = true) n | [] => False end
  end.
(** A width of zero would be the zero flag. *)
Definition count_printable (least : Z) (c : count) : Prop :=
  match c with no_count => True | num n => (least <= n <= INT_MAX)%Z | dyn r => ref_printable r end.

(** The fill is one code point before an alignment; specifiers are not empty. *)
Record spec_printable (sp : spec) : Prop := {
  pr_fill : match f_fill sp with
            | [] => True
            | c :: _ => length (f_fill sp) = code_point_length c /\ c <> "{"%char /\ f_align sp <> align.none
            end;
  pr_align : f_align sp <> align.numeric;
  pr_width : count_printable 1 (f_width sp);
  pr_precision : count_printable 0 (f_precision sp);
  pr_type : f_type sp = NUL \/ is_ascii_letter (f_type sp) = true;
  pr_some : show_spec sp <> [] }.

Definition piece_printable (p : piece) : Prop :=
  match p with
  | text _ => True
  | replacement r sp => ref_printable r /\ match sp with Some sp => spec_printable sp | None => True end
  end.

(** ** Reading numbers and references back *)

Definition no_digit (s : bytes) : Prop := match s with c :: _ => isdigit c = false | [] => True end.

Lemma dec_value_mono v ds : (0 <= v)%Z -> Forall (fun c => isdigit c = true) ds -> (v <= dec_value v ds)%Z.
Proof.
  intros Hv Hd. revert v Hv. induction Hd as [|c ds Hc _ IH]; intros v Hv; cbn [dec_value]; [lia|].
  apply isdigit_range in Hc. specialize (IH (v * 10 + digit_val c)%Z ltac:(lia)). lia.
Qed.

Lemma parse_int_loop_app v ds r :
  (0 <= v)%Z -> Forall (fun c => isdigit c = true) ds -> (dec_value v ds <= max_int)%Z -> no_digit r ->
  parse_int_loop v (ds ++ r) = (dec_value v ds, r).
Proof.
  intros Hv Hd. revert v Hv. induction Hd as [|c ds Hc Hds IH]; intros v Hv Hle Hr; cbn [app dec_value] in *.
  - destruct r as [|c r]; cbn [parse_int_loop no_digit] in *; [done|by rewrite Hr].
  - cbn [parse_int_loop]. rewrite Hc. apply isdigit_range in Hc.
    pose proof (dec_value_mono (v * 10 + digit_val c) ds ltac:(lia) Hds). unfold max_int, INT_MAX in *.
    change ((2 ^ 31 - 1) / 10)%Z with 214748364%Z. rewrite (proj2 (Z.ltb_ge _ v)) by lia.
    unfold u32, wrapu. rewrite (Z.mod_small (v * 10)), Z.mod_small by lia. apply IH; (lia || done).
Qed.

Lemma parse_nonnegative_int_app n r :
  (0 <= n <= INT_MAX)%Z -> no_digit r -> parse_nonnegative_int (dec_nat n ++ r) = Ok (n, r).
Proof.
  intros Hn Hr. pose proof (dec_nat_digits n ltac:(lia)) as Hd. pose proof (dec_nat_value n ltac:(lia)) as Hv.
  pose proof (dec_nat_nonnil n) as Hne. unfold parse_nonnegative_int.
  destruct (dec_nat n ++ r) as [|c s] eqn:He; [by apply app_nil in He as [? _]|]. rewrite <- He.
  rewrite parse_int_loop_app, Hv; [|lia|done|unfold max_int; lia|done].
  destruct (dec_nat n) as [|d ds]; [done|]. apply Forall_cons in Hd as [Hd _]. cbn [app] in He. injection He as -> _. rewrite Hd.
  by rewrite (proj2 (Z.ltb_ge _ n)) by (unfold max_int; lia).
Qed.

Lemma name_char_facts c : is_name_char c = true -> (c =c "}"%char) || (c =c ":"%char) = false /\ is_align c = false.
Proof. destruct c as [[] [] [] [] [] [] [] []]; vm_compute; intros; auto; discriminate. Qed.
Lemma name_start_facts c : is_name_start c = true -> isdigit c = false /\ is_name_char c = true.
Proof. destruct c as [[] [] [] [] [] [] [] []]; vm_compute; intros; auto; discriminate. Qed.
Lemma digit_facts c : isdigit c = true -> is_name_char c = true.
Proof. intros Hc. unfold is_name_char. rewrite Hc. apply orb_true_r. Qed.
Lemma end_facts c : (c =c "}"%char) || (c =c ":"%char) = true -> isdigit c = false /\ is_name_char c = false.
Proof. destruct c as [[] [] [] [] [] [] [] []]; vm_compute; intros; auto; discriminate. Qed.

Lemma ends_id_cons s : ends_id s = true -> exists c s', s = c :: s' /\ (c =c "}"%char) || (c =c ":"%char) = true.
Proof. destruct s as [|c s']; [done|]. intros H. by exists c, s'. Qed.

Lemma parse_arg_id_app r s : ref_printable r -> ends_id s = true -> parse_arg_id (show_ref r ++ s) = Ok (r, s).
Proof.
  intros Hr Hs. destruct (ends_id_cons s Hs) as (e & s' & -> & He). destruct (end_facts e He) as [Hed Hen].
  destruct r as [|i|n]; cbn [show_ref ref_printable app] in *.
  - cbn [parse_arg_id]. by rewrite He.
  - assert (parse_arg_id (dec_nat i ++ e :: s') =
      let* (index, s) := (if (i =? 0)%Z then Ok (0%Z, e :: s') else Ok (i, e :: s')) in if ends_id s then Ok (ref_index index, s) else Throw (B "invalid format string")) as ->.
    { destruct (i =? 0)%Z eqn:Hi; to_prop; [by subst i|].
      destruct (dec_nat_head i ltac:(lia)) as (d & ds & Hds & Hd).
      pose proof (parse_nonnegative_int_app i (e :: s') Hr Hed) as Hp. rewrite Hds in *. cbn [app parse_arg_id] in *.
      pose proof (isdigit_digit_chr d ltac:(lia)) as Hdig. destruct (name_char_facts _ (digit_facts _ Hdig)) as [Hx _].
      rewrite Hx, Hdig, Hp. destruct (digit_chr d =c "0"%char) eqn:H0; [|done].
      apply Ascii.eqb_eq in H0. pose proof (digit_val_chr d ltac:(lia)) as Hv. rewrite H0 in Hv. vm_compute in Hv. lia. }
    destruct (i =? 0)%Z eqn:Hi; cbn [bind ends_id]; rewrite He; [apply Z.eqb_eq in Hi; by subst i|done].
  - destruct n as [|c n]; [done|]. destruct Hr as [Hc Hn]. destruct (name_start_facts c Hc) as [Hd Hcn].
    destruct (name_char_facts c Hcn) as [Hx _]. cbn [app parse_arg_id]. rewrite Hx, Hd, Hc. cbn [negb].
    by rewrite take_while_app_stop, drop_while_app_stop by done.
Qed.

(** ** Arguments: the handler against the reference *)

Section correct.
  Context (args : list call_arg) (loc : locale_ref) (Hargs : call_ok args) (Hloc : grouping loc = []).
  Abbreviation A := (make_format_args args).

Lemma get_arg_at i :
  get_arg A (Z.of_nat i) = match args !! i with Some a => Ok (make_arg a.2) | None => Throw (B "argument not found") end.
Proof using Hargs.
  unfold get_arg. rewrite get_nth by apply Hargs. cbn [lift bind]. unfold check_arg, nth_arg.
  destruct (args !! i) as [a|]; [|done]. by destruct a as [? []].
Qed.

Lemma find_named_lookup name i : find_named args name = Some i -> is_Some (args !! i).
Proof.
  unfold find_named. destruct (list_find _ args) as [[j a]|] eqn:Hf; cbn; [|done]. intros [= <-].
  apply list_find_Some in Hf as (Hl & _). by eexists.
Qed.

Lemma handler_get_arg_eq r next :
  ref_printable r -> handler_get_arg A r next = let* (v, next) := eval_ref args r next in Ok (make_arg v, next).
Proof using Hargs.
  intros Hr. destruct r as [|i|n]; cbn [handler_get_arg eval_ref].
  - unfold next_arg_id. destruct (0 <=? next)%Z eqn:Hn; [|done]. to_prop. cbn [bind].
    rewrite <- (Z2Nat.id next) at 1 by done. rewrite get_arg_at. by destruct (args !! Z.to_nat next).
  - unfold check_arg_id. destruct (0 <? next)%Z; [done|]. cbn [bind]. cbn [ref_printable] in Hr.
    rewrite <- (Z2Nat.id i) at 1 by lia. rewrite get_arg_at. by destruct (args !! Z.to_nat i).
  - unfold get_arg_named, get_by_name. rewrite get_id_find by apply Hargs. cbn [mbind option_bind].
    destruct (find_named args n) as [i|] eqn:Hf; [|done]. rewrite (proj2 (Z.leb_le 0 _)) by lia.
    pose proof (get_arg_at i) as Hg. unfold get_arg in Hg. rewrite Hg. by destruct (args !! i).
Qed.

(** The field's own reference: the index first, then the argument. *)
Lemma on_arg_id_eq {C} r h (k : format_arg -> handler -> outcome C) :
  ref_printable r ->
  (let* (id, h) := on_arg_id A r h in let* a := get_arg A id in k a h) =
  (let* (v, next) := eval_ref args r (next_arg_id_ h) in k (make_arg v) (MkHandler next (out_ h))).
Proof using Hargs.
  intros Hr. destruct r as [|i|n]; cbn [on_arg_id eval_ref].
  - unfold next_arg_id. destruct (0 <=? next_arg_id_ h)%Z eqn:Hn; [|done]. to_prop. cbn [bind].
    rewrite <- (Z2Nat.id (next_arg_id_ h)) at 1 by done. rewrite get_arg_at. by destruct (args !! Z.to_nat (next_arg_id_ h)).
  - unfold check_arg_id. destruct (0 <? next_arg_id_ h)%Z; [done|]. cbn [bind]. cbn [ref_printable] in Hr.
    rewrite <- (Z2Nat.id i) at 1 by lia. rewrite get_arg_at. by destruct (args !! Z.to_nat i).
  - rewrite get_id_find by apply Hargs. cbn [lift bind]. destruct (find_named args n) as [i|] eqn:Hf; [|done].
    rewrite (proj2 (Z.ltb_ge _ 0)) by lia. cbn [bind]. rewrite get_arg_at. destruct h. by destruct (args !! i).
Qed.

Lemma eval_ref_ok r next v next' : eval_ref args r next = Ok (v, next') -> operand_ok (arg_map v).
Proof using Hargs.
  destruct Hargs as [_ Hok].
  assert (forall i n, match args !! i with Some a => Ok (a.2, n) | None => Throw (B "argument not found") end = Ok (v, next') -> operand_ok (arg_map v)) as Hi.
  { intros i n. destruct (args !! i) as [a|] eqn:Ha; [|done]. intros [= <- _]. by apply (Forall_lookup_1 _ _ _ _ Hok Ha). }
  destruct r; cbn [eval_ref]; [case_test|case_test|destruct (find_named args name)]; try done; apply Hi.
Qed.

Lemma get_dynamic_spec_eq what v : operand_ok (arg_map v) -> get_dynamic_spec what (make_arg v) = eval_dynamic what v.
Proof.
  intros Hv. unfold get_dynamic_spec, eval_dynamic. rewrite visit_make_arg. cbn [lift bind].
  assert (forall z, (z < 2 ^ 64)%Z -> (let* value := (if (z <? 0)%Z then Throw (B "negative " ++ what) else Ok (u64 z)) in
     if (max_int <? value)%Z then Throw (B "number is too big") else Ok value) =
     (if (z <? 0)%Z then Throw (B "negative " ++ what) else if (INT_MAX <? z)%Z then Throw (B "number is too big") else Ok z)) as Hz.
  { intros z Hz. destruct (z <? 0)%Z eqn:H0; to_prop; [done|]. cbn [bind]. unfold u64, wrapu. rewrite Z.mod_small by lia. done. }
  destruct (arg_map v); cbn [operand_ok] in Hv; try done; apply Hz; lia.
Qed.

(** ** Parsing specifiers *)

Definition dynamic_eq (what : bytes) (set : Z -> format_specs -> format_specs)
    (f : arg_ref -> format_specs -> Z -> outcome (format_specs * Z)) : Prop :=
  forall r specs next, ref_printable r ->
    f r specs next = let* (v, next) := eval_ref args r next in let* n := eval_dynamic what v in Ok (set n specs, next).

Lemma on_dynamic_width_eq : dynamic_eq (B "width") set_width (on_dynamic_width A).
Proof using Hargs.
  intros r specs next Hr. unfold on_dynamic_width. rewrite handler_get_arg_eq by done.
  destruct (eval_ref args r next) as [[v next']| |] eqn:He; cbn [bind]; [|done|done].
  by rewrite get_dynamic_spec_eq by (by apply eval_ref_ok in He).
Qed.

Lemma on_dynamic_precision_eq : dynamic_eq (B "precision") set_precision (on_dynamic_precision A).
Proof using Hargs.
  intros r specs next Hr. unfold on_dynamic_precision. rewrite handler_get_arg_eq by done.
  destruct (eval_ref args r next) as [[v next']| |] eqn:He; cbn [bind]; [|done|done].
  by rewrite get_dynamic_spec_eq by (by apply eval_ref_ok in He).
Qed.

Lemma parse_dynamic_app f r s specs next :
  ref_printable r -> parse_dynamic f (show_ref r ++ "}"%char :: s) specs next = let* st := f r specs next in Ok (s, st).
Proof.
  intros Hr. unfold parse_dynamic. destruct (show_ref r ++ "}"%char :: s) as [|c l] eqn:He; [by destruct (show_ref r)|].
  rewrite <- He, parse_arg_id_app by done. cbn [bind]. by destruct (f r specs next).
Qed.

(** What may follow a width or precision that is not there. *)
Definition no_count_head (s : bytes) : Prop := match s with c :: _ => isdigit c = false /\ c <> "{"%char | [] => False end.

Lemma parse_width_app c s specs next :
  count_printable 1 c -> no_count_head s ->
  parse_width A (show_count c ++ s) specs next =
    let* (w, next) := eval_count args (B "width") (sp_width specs) c next in Ok (s, (set_width w specs, next)).
Proof using Hargs.
  intros Hc Hs. destruct s as [|e s]; [done|]. destruct Hs as [Hd He]. destruct c as [|n|r]; cbn [show_count eval_count bind app].
  - cbn [parse_width]. rewrite Hd. rewrite (proj2 (Ascii.eqb_neq e "{"%char)) by done. by destruct specs.
  - cbn [count_printable] in Hc. destruct (dec_nat_head n ltac:(lia)) as (d & ds & Hds & Hdr).
    pose proof (parse_nonnegative_int_app n (e :: s) ltac:(lia) Hd) as Hp. rewrite Hds in *. cbn [app parse_width] in *.
    by rewrite (isdigit_digit_chr d ltac:(lia)), Hp.
  - cbn [parse_width]. change (isdigit "{") with false. cbn [Ascii.eqb Bool.eqb]. rewrite <- app_assoc. cbn [app].
    rewrite parse_dynamic_app by done. rewrite on_dynamic_width_eq by done.
    destruct (eval_ref args r next) as [[v next']| |]; cbn [bind]; [|done|done]. by destruct (eval_dynamic (B "width") v).
Qed.

Lemma parse_precision_app t c s specs next :
  count_printable 0 c -> c <> no_count -> no_count_head s ->
  parse_precision A t ("."%char :: show_count c ++ s) specs next =
    let* (p, next) := eval_count args (B "precision") (sp_precision specs) c next in
    let* _ := check_precision t in Ok (s, (set_precision p specs, next)).
Proof using Hargs.
  intros Hc Hne Hs. unfold parse_precision.
  change (drop 1 ("."%char :: show_count c ++ s)) with (show_count c ++ s).
  destruct s as [|e s]; [done|]. destruct Hs as [Hd He]. destruct c as [|n|r]; [done| |]; cbn [show_count eval_count bind].
  - cbn [count_printable] in Hc. pose proof (dec_nat_digits n ltac:(lia)) as Hds. pose proof (dec_nat_nonnil n) as Hnn.
    pose proof (parse_nonnegative_int_app n (e :: s) ltac:(lia) Hd) as Hp. destruct (dec_nat n) as [|d ds]; [done|].
    apply Forall_cons in Hds as [Hdd _]. cbn [app nth] in *. rewrite Hdd, Hp. done.
  - cbn [app nth]. change (isdigit "{") with false. cbn [Ascii.eqb Bool.eqb]. rewrite <- app_assoc.
    match goal with |- context [drop 1 (_ :: ?l)] => change (drop 1 ("{"%char :: l)) with l end. cbn [app].
    rewrite parse_dynamic_app by done. rewrite on_dynamic_precision_eq by done.
    destruct (eval_ref args r next) as [[v next']| |]; cbn [bind]; [|done|done]. by destruct (eval_dynamic (B "precision") v).
Qed.

(** What the parts of the specifiers begin with. *)
Definition at_type (c : ascii) : bool := is_ascii_letter c || (c =c "}"%char).
Definition at_precision (c : ascii) : bool := at_type c || (c =c "."%char).
Definition at_width (c : ascii) : bool := at_precision c || (c =c "{"%char) || (isdigit c && negb (c =c "0"%char)).
Definition at_zero (c : ascii) : bool := at_width c || (c =c "0"%char).
Definition at_hash (c : ascii) : bool := at_zero c || (c =c "#"%char).

Definition begins (P : ascii -> bool) (s : bytes) : Prop := match s with c :: _ => P c = true | [] => False end.

Lemma begins_nonnil P s : begins P s -> s <> [].
Proof. by destruct s. Qed.

Lemma at_precision_facts c : at_precision c = true -> isdigit c = false /\ c <> "{"%char.
Proof. destruct c as [[] [] [] [] [] [] [] []]; vm_compute; intros; split; congruence. Qed.
Lemma at_width_facts c : at_width c = true -> c =c "0"%char = false.
Proof. destruct c as [[] [] [] [] [] [] [] []]; vm_compute; intros; congruence. Qed.
Lemma at_zero_facts c : at_zero c = true -> c =c "#"%char = false.
Proof. destruct c as [[] [] [] [] [] [] [] []]; vm_compute; intros; congruence. Qed.
Lemma at_hash_facts c : at_hash c = true ->
  (c =c "+"%char) = false /\ (c =c "-"%char) = false /\ (c =c " "%char) = false.
Proof. destruct c as [[] [] [] [] [] [] [] []]; vm_compute; intros; split_and!; congruence. Qed.
Lemma at_type_facts c : at_type c = true -> c =c "."%char = false.
Proof. destruct c as [[] [] [] [] [] [] [] []]; vm_compute; intros; congruence. Qed.
Lemma letter_facts c : is_ascii_letter c = true -> c =c NUL = false /\ c =c "}"%char = false.
Proof. destruct c as [[] [] [] [] [] [] [] []]; vm_compute; intros; split; congruence. Qed.
Lemma digit_at_width d : (1 <= d <= 9)%Z -> at_width (digit_chr d) = true.
Proof.
  intros Hd. assert (exists i, d = Z.of_nat i /\ 1 <= i <= 9) as (i & -> & Hi) by (exists (Z.to_nat d); lia).
  do 10 (destruct i as [|i]; [reflexivity || lia|]). lia.
Qed.

Section tails.
  Context (sp : spec) (rest : bytes) (Hsp : spec_printable sp).

Definition tail_type : bytes := show_type (f_type sp) ++ "}"%char :: rest.
Definition tail_precision : bytes := show_precision (f_precision sp) ++ tail_type.
Definition tail_width : bytes := show_count (f_width sp) ++ tail_precision.
Definition tail_zero : bytes := show_flag (f_zero sp) "0" ++ tail_width.
Definition tail_hash : bytes := show_flag (f_alt sp) "#" ++ tail_zero.
Definition tail_sign : bytes := show_sign (f_sign sp) ++ tail_hash.

Lemma show_tail_eq : show_tail sp ++ "}"%char :: rest = tail_sign.
Proof. unfold show_tail, tail_sign, tail_hash, tail_zero, tail_width, tail_precision, tail_type. by rewrite <- !app_assoc. Qed.

Lemma tail_type_begins : begins at_type tail_type.
Proof using Hsp.
  unfold tail_type, show_type. destruct (pr_type sp Hsp) as [Hn|Hl]; [by rewrite Hn|].
  rewrite (proj1 (letter_facts _ Hl)). cbn [app begins]. unfold at_type. by rewrite Hl.
Qed.

Lemma begins_or (P Q : ascii -> bool) s : begins P s -> (forall c, P c = true -> Q c = true) -> begins Q s.
Proof. destruct s; [done|]. cbn. auto. Qed.

Lemma tail_precision_begins : begins at_precision tail_precision.
Proof using Hsp.
  unfold tail_precision, show_precision. destruct (f_precision sp); [|done|done].
  apply (begins_or at_type); [apply tail_type_begins|]. intros c Hc. unfold at_precision. by rewrite Hc.
Qed.

Lemma tail_width_begins : begins at_width tail_width.
Proof using Hsp.
  unfold tail_width. pose proof (pr_width sp Hsp) as Hw. destruct (f_width sp) as [|n|r]; cbn [show_count count_printable app] in *.
  - apply (begins_or at_precision); [apply tail_precision_begins|]. intros c Hc. unfold at_width. by rewrite Hc.
  - destruct (dec_nat_head n ltac:(lia)) as (d & ds & -> & Hd). cbn [app begins]. by apply digit_at_width.
  - done.
Qed.

Lemma tail_zero_begins : begins at_zero tail_zero.
Proof using Hsp.
  unfold tail_zero, show_flag. destruct (f_zero sp); [done|]. apply (begins_or at_width); [apply tail_width_begins|].
  intros c Hc. unfold at_zero. by rewrite Hc.
Qed.

Lemma tail_hash_begins : begins at_hash tail_hash.
Proof using Hsp.
  unfold tail_hash, show_flag. destruct (f_alt sp); [done|]. apply (begins_or at_zero); [apply tail_zero_begins|].
  intros c Hc. unfold at_hash. by rewrite Hc.
Qed.

(** No character behind the alignment is one. *)
Lemma show_ref_no_align r : ref_printable r -> Forall (fun c => is_align c = false) (show_ref r).
Proof.
  intros Hr. assert (forall c, is_name_char c = true -> is_align c = false) as Hn by (intros c Hc; apply (name_char_facts c Hc)).
  destruct r as [|i|n]; cbn [show_ref ref_printable] in *; [done| |].
  - eapply Forall_impl; [apply dec_nat_digits; lia|]. intros c Hc. by apply Hn, digit_facts.
  - destruct n as [|c n]; [done|]. destruct Hr as [Hc Hs]. constructor; [by apply Hn, name_start_facts|].
    eapply Forall_impl; [exact Hs|]. done.
Qed.

Lemma show_count_no_align n c : (0 <= n)%Z -> count_printable n c -> Forall (fun c => is_align c = false) (show_count c).
Proof.
  intros Hn Hc. destruct c as [|m|r]; cbn [show_count count_printable] in *; [done| |].
  - eapply Forall_impl; [apply dec_nat_digits; lia|]. intros c Hd. apply (name_char_facts c), digit_facts, Hd.
  - constructor; [done|]. apply Forall_app. split; [by apply show_ref_no_align|by constructor].
Qed.

Lemma show_tail_no_align : Forall (fun c => is_align c = false) (show_tail sp).
Proof using Hsp.
  unfold show_tail. rewrite !Forall_app. split_and!.
  - destruct (f_sign sp); by repeat constructor.
  - destruct (f_alt sp); by repeat constructor.
  - destruct (f_zero sp); by repeat constructor.
  - by apply (show_count_no_align 1), Hsp.
  - pose proof (show_count_no_align 0 (f_precision sp) ltac:(lia) (pr_precision sp Hsp)). unfold show_precision.
    destruct (f_precision sp); [done|by constructor..].
  - unfold show_type. destruct (pr_type sp Hsp) as [Hn|Hl]; [by rewrite Hn|]. rewrite (proj1 (letter_facts _ Hl)).
    constructor; [|done]. apply name_char_facts. unfold is_name_char, is_name_start. by rewrite Hl.
Qed.

(** ** The parts, one by one *)

Definition at_sign (c : ascii) : bool := at_hash c || (c =c "+"%char) || (c =c "-"%char) || (c =c " "%char).

Lemma tail_sign_begins : begins at_sign tail_sign.
Proof using Hsp.
  unfold tail_sign. destruct (f_sign sp); try done. apply (begins_or at_hash); [apply tail_hash_begins|].
  intros c Hc. unfold at_sign. by rewrite Hc.
Qed.

Lemma at_sign_length c : at_sign c = true -> code_point_length c = 1.
Proof. destruct c as [[] [] [] [] [] [] [] []]; vm_compute; intros; congruence. Qed.

Lemma nth_no_align u : Forall (fun c => is_align c = false) u -> is_align (nth 0 (u ++ "}"%char :: rest) NUL) = false.
Proof. destruct 1 as [|c u Hc _]; [done|]. exact Hc. Qed.

(** The fill and the alignment, set on the default specifiers. *)
Definition align_specs : format_specs :=
  set_align (f_align sp) (set_fill (match f_fill sp with [] => default_fill | t => MkFill (t ++ drop (length t) (fill_data default_fill)) (length t) end) default_specs).

Lemma parse_align_app t :
  parse_align t (f_fill sp ++ show_align (f_align sp) ++ tail_sign) default_specs = Ok (tail_sign, align_specs).
Proof using Hsp.
  pose proof (show_tail_no_align) as Hna. pose proof tail_sign_begins as Hb. pose proof show_tail_eq as Heq.
  assert (0 < length tail_sign) as Hlen by (destruct tail_sign; [done|cbn; lia]).
  pose proof (pr_fill sp Hsp) as Hfill. pose proof (pr_align sp Hsp) as Hal. pose proof (pr_some sp Hsp) as Hsome.
  unfold align_specs. unfold show_spec in Hsome. destruct (f_fill sp) as [|c fl].
  - assert (forall a ch, show_align a = [ch] -> is_align ch = true /\ align_of ch = a /\ code_point_length ch = 1) as Hch
      by (intros [] ch H; cbn in H; simplify_eq; by split_and!).
    destruct (show_align (f_align sp)) as [|ch l] eqn:Hs.
    + assert (f_align sp = align.none) as -> by (by destruct (f_align sp)). cbn [app] in *.
      rewrite <- Heq in *. destruct (show_tail sp) as [|c u]; [done|]. apply Forall_cons in Hna as [Hc Hu].
      cbn [app begins] in *. unfold parse_align. rewrite (at_sign_length c Hb).
      rewrite (proj2 (Nat.leb_gt _ _)) by (cbn [length]; rewrite length_app; cbn; lia).
      change (nth 1 (c :: u ++ "}"%char :: rest) NUL) with (nth 0 (u ++ "}"%char :: rest) NUL). rewrite nth_no_align by done.
      cbn [Nat.eqb]. by rewrite Hc.
    + assert (l = []) as -> by (by destruct (f_align sp); simplify_eq/=). destruct (Hch _ _ Hs) as (H1 & H2 & H3).
      cbn [app]. unfold parse_align. rewrite H3. rewrite (proj2 (Nat.leb_gt _ _)) by (cbn [length]; lia).
      change (nth 1 (ch :: tail_sign) NUL) with (nth 0 tail_sign NUL). rewrite <- Heq at 1. rewrite nth_no_align by done.
      cbn [Nat.eqb]. rewrite H1. unfold found_align. cbn [Nat.eqb nth]. rewrite H2. change (drop 1 (ch :: tail_sign)) with tail_sign.
      destruct (f_align sp); done.
  - destruct Hfill as (Hl & Hc & Ha). set (fill := c :: fl) in *.
    assert (exists ch, show_align (f_align sp) = [ch] /\ is_align ch = true /\ align_of ch = f_align sp) as (ch & Hs & H1 & H2)
      by (destruct (f_align sp); try done; by eexists).
    rewrite Hs. pose proof (code_point_length_range c) as Hr. unfold parse_align. unfold fill at 1. cbn [app].
    change (c :: fl ++ ch :: tail_sign) with (fill ++ ch :: tail_sign). rewrite <- Hl.
    rewrite (proj2 (Nat.leb_gt _ _)) by (rewrite length_app; cbn [length]; lia).
    rewrite app_nth2, Nat.sub_diag by lia. cbn [nth]. rewrite H1. unfold found_align.
    rewrite (proj2 (Nat.eqb_neq _ 0)) by lia. change (nth 0 (fill ++ ch :: tail_sign) NUL) with c.
    rewrite app_nth2, Nat.sub_diag by lia. cbn [nth]. rewrite (proj2 (Ascii.eqb_neq c "{"%char)) by done.
    rewrite take_app_length, H2. unfold on_fill, fill_assign. rewrite (proj2 (Nat.ltb_ge 4 _)) by lia. cbn [bind].
    replace (length fill + 1) with (length (fill ++ [ch])) by (rewrite length_app; cbn; lia).
    replace (fill ++ ch :: tail_sign) with ((fill ++ [ch]) ++ tail_sign) by (by rewrite <- app_assoc). rewrite drop_app_length.
    destruct (f_align sp); done.
Qed.

Lemma parse_sign_app t specs :
  sp_sign specs = sign.none ->
  parse_sign t tail_sign specs =
    let* _ := (match f_sign sp with sign.none => Ok tt | _ => check_sign t end) in Ok (tail_hash, set_sign (f_sign sp) specs).
Proof using Hsp.
  intros Hs. pose proof tail_hash_begins as Hb. unfold tail_sign.
  destruct (f_sign sp); cbn [show_sign app]; [|by (cbn; unfold on_sign; destruct (check_sign t))..].
  destruct tail_hash as [|c l]; [done|]. destruct (at_hash_facts c Hb) as (H1 & H2 & H3). cbn [parse_sign bind]. rewrite H1, H2, H3.
  destruct specs; cbn in *. by subst.
Qed.

Lemma parse_hash_app t specs :
  parse_flag "#" (on_hash t) tail_hash specs =
    let* _ := (if f_alt sp then require_numeric_argument t else Ok tt) in Ok (tail_zero, if f_alt sp then set_alt specs else specs).
Proof using Hsp.
  pose proof tail_zero_begins as Hb. unfold tail_hash, show_flag. destruct (f_alt sp); cbn [app].
  - cbn. unfold on_hash. by destruct (require_numeric_argument t).
  - destruct tail_zero as [|c l]; [done|]. cbn [parse_flag]. by rewrite (at_zero_facts c Hb).
Qed.

Lemma parse_zero_app t specs :
  parse_flag "0" (on_zero t) tail_zero specs =
    let* _ := (if f_zero sp then require_numeric_argument t else Ok tt) in Ok (tail_width, if f_zero sp then set_zero specs else specs).
Proof using Hsp.
  pose proof tail_width_begins as Hb. unfold tail_zero, show_flag. destruct (f_zero sp); cbn [app].
  - cbn. unfold on_zero. by destruct (require_numeric_argument t).
  - destruct tail_width as [|c l]; [done|]. cbn [parse_flag]. by rewrite (at_width_facts c Hb).
Qed.

Lemma parse_type_app specs : sp_type specs = NUL -> parse_type tail_type specs = ("}"%char :: rest, set_type (f_type sp) specs).
Proof using Hsp.
  intros Hs. unfold tail_type, show_type. destruct (pr_type sp Hsp) as [Hn|Hl].
  - rewrite Hn. cbn. destruct specs; cbn in *. by subst.
  - destruct (letter_facts _ Hl) as [H1 H2]. rewrite H1. cbn [app parse_type]. by rewrite H2.
Qed.

Lemma parse_precision_part t specs next :
  (if nth 0 tail_precision NUL =c "."%char then parse_precision A t tail_precision specs next else Ok (tail_precision, (specs, next))) =
    let* (p, next) := eval_count args (B "precision") (sp_precision specs) (f_precision sp) next in
    let* _ := (match f_precision sp with no_count => Ok tt | _ => check_precision t end) in Ok (tail_type, (set_precision p specs, next)).
Proof using Hsp Hargs.
  pose proof tail_type_begins as Hb. pose proof (pr_precision sp Hsp) as Hp.
  assert (no_count_head tail_type) as Hh.
  { destruct tail_type as [|c l]; [done|]. apply at_precision_facts. unfold at_precision. cbn [begins] in Hb. by rewrite Hb. }
  unfold tail_precision, show_precision. destruct (f_precision sp) eqn:Hc.
  - cbn [app eval_count bind]. destruct tail_type as [|c l]; [done|]. cbn [nth]. rewrite (at_type_facts c Hb). by destruct specs.
  - rewrite <- Hc in *. cbn [app nth]. change ("."%char =c "."%char) with true. rewrite parse_precision_app by (done || by rewrite Hc). by rewrite Hc.
  - rewrite <- Hc in *. cbn [app nth]. change ("."%char =c "."%char) with true. rewrite parse_precision_app by (done || by rewrite Hc). by rewrite Hc.
Qed.

(** Width, precision and type. *)
Lemma parse_counts_app t specs next :
  sp_width specs = 0%Z -> sp_precision specs = (-1)%Z -> sp_type specs = NUL ->
  (let* (s, (specs, next)) := parse_width A tail_width specs next in
   if bool_decide (s = []) then Ok (s, (specs, next)) else
   let* (s, (specs, next)) :=
     (if nth 0 s NUL =c "."%char then parse_precision A t s specs next else Ok (s, (specs, next))) in
   let '(s, specs) := parse_type s specs in Ok (s, (specs, next))) =
  (let* (w, next) := eval_count args (B "width") 0 (f_width sp) next in
   let* (p, next) := eval_count args (B "precision") (-1) (f_precision sp) next in
   let* _ := (match f_precision sp with no_count => Ok tt | _ => check_precision t end) in
   Ok ("}"%char :: rest, (set_type (f_type sp) (set_precision p (set_width w specs)), next))).
Proof using Hsp Hargs.
  intros Hw Hp Ht. pose proof tail_precision_begins as Hb.
  assert (no_count_head tail_precision) as Hh by (destruct tail_precision as [|c l]; [done|]; by apply at_precision_facts).
  unfold tail_width. rewrite parse_width_app by (done || apply Hsp). rewrite Hw.
  destruct (eval_count args (B "width") 0 (f_width sp) next) as [[w next1]| |]; cbn [bind]; [|done|done].
  rewrite bool_decide_false by (by apply (begins_nonnil at_precision)). rewrite parse_precision_part.
  change (sp_precision (set_width w specs)) with (sp_precision specs). rewrite Hp.
  destruct (eval_count args (B "precision") (-1) (f_precision sp) next1) as [[p next2]| |]; cbn [bind]; [|done|done].
  destruct (match f_precision sp with no_count => Ok tt | _ => check_precision t end) as [[]| |]; cbn [bind]; [|done|done].
  by rewrite parse_type_app.
Qed.

Lemma parse_format_specs_app t next :
  parse_format_specs A t (show_spec sp ++ "}"%char :: rest) default_specs next =
    let* st := eval_spec args t sp next in Ok ("}"%char :: rest, st).
Proof using Hsp Hargs.
  pose proof (begins_nonnil _ _ tail_sign_begins) as N1. pose proof (begins_nonnil _ _ tail_hash_begins) as N2.
  pose proof (begins_nonnil _ _ tail_zero_begins) as N3. pose proof (begins_nonnil _ _ tail_width_begins) as N4.
  assert (show_spec sp ++ "}"%char :: rest = f_fill sp ++ show_align (f_align sp) ++ tail_sign) as ->
    by (unfold show_spec; by rewrite <- show_tail_eq, <- !app_assoc).
  unfold parse_format_specs. rewrite bool_decide_false by (intros [_ [_ ?]%app_nil]%app_nil; done).
  rewrite parse_align_app. cbn [bind]. rewrite bool_decide_false by done. rewrite parse_sign_app by done. unfold eval_spec.
  destruct (match f_sign sp with sign.none => Ok tt | _ => check_sign t end) as [[]| |]; cbn [bind]; [|done|done].
  rewrite bool_decide_false by done. rewrite parse_hash_app. unfold eval_fill.
  destruct (f_alt sp) eqn:Ha, (f_zero sp) eqn:Hz; cbn [orb]; destruct (require_numeric_argument t) as [[]| |] eqn:Hr; cbn [bind]; try done;
    rewrite bool_decide_false, parse_zero_app, Hz by done; rewrite ?Hr; cbn [bind]; try done;
    rewrite bool_decide_false, parse_counts_app by done;
    (destruct (eval_count args (B "width") 0 (f_width sp) next) as [[w next1]| |]; cbn [bind]; [|done|done]);
    (destruct (eval_count args (B "precision") (-1) (f_precision sp) next1) as [[p next2]| |]; cbn [bind]; [|done|done]);
    (destruct (match f_precision sp with no_count => Ok tt | _ => check_precision t end) as [[]| |]; done).
Qed.

Lemma short_spec_head c l : short_spec (c :: l) = true -> is_ascii_letter c = true.
Proof. destruct l; [done|]. cbn. by intros [_ ?]%andb_true_iff. Qed.

Lemma digit_no_letter c : isdigit c = true -> is_ascii_letter c = true -> False.
Proof. destruct c as [[] [] [] [] [] [] [] []]; vm_compute; congruence. Qed.

Lemma letter_length c : is_ascii_letter c = true -> code_point_length c = 1.
Proof. destruct c as [[] [] [] [] [] [] [] []]; vm_compute; congruence. Qed.

(** The short cut is taken for a type alone, where the parser would find nothing to check. *)
Lemma short_spec_app :
  short_spec (show_spec sp ++ "}"%char :: rest) = true ->
  show_spec sp = [f_type sp] /\ forall t next, eval_spec args t sp next = Ok (set_type (f_type sp) default_specs, next).
Proof using Hsp.
  intros Hs. pose proof (pr_fill sp Hsp) as Hf. pose proof (pr_align sp Hsp) as Hal. pose proof (pr_width sp Hsp) as Hw.
  pose proof (pr_type sp Hsp) as Ht. pose proof (pr_some sp Hsp) as Hn.
  destruct sp as [fill al sg alt zero w p ty]. unfold show_spec, show_tail in *.
  cbn [f_fill f_align f_sign f_alt f_zero f_width f_precision f_type] in *.
  destruct fill as [|c fl]; [|exfalso; destruct Hf as (Hlen & Hc & Ha)].
  - destruct al; [|by apply short_spec_head in Hs..|done]. destruct sg; [|by apply short_spec_head in Hs..].
    destruct alt; [by apply short_spec_head in Hs|]. destruct zero; [by apply short_spec_head in Hs|].
    cbn [show_align show_sign show_flag app] in *. destruct w as [|n|r]; [|exfalso|by apply short_spec_head in Hs].
    + destruct p as [|n|r]; [|by apply short_spec_head in Hs..]. cbn [show_count show_precision app] in *.
      unfold show_type in *. destruct Ht as [->|Hl]; [done|]. rewrite (proj1 (letter_facts _ Hl)) in *. by split.
    + cbn [count_printable show_count] in *. destruct (dec_nat_head n ltac:(lia)) as (d & ds & Hds & Hd).
      rewrite Hds in Hs. apply short_spec_head in Hs. apply (digit_no_letter (digit_chr d)); [apply isdigit_digit_chr; lia|done].
  - pose proof (short_spec_head _ _ Hs) as Hl. apply letter_length in Hl. rewrite Hl in Hlen.
    destruct fl as [|d fl]; [|done]. destruct al; try done; cbn in Hs; done.
Qed.

(** What a field with specifiers writes, once its argument is found. *)
Lemma format_specs_app v h :
  operand_ok (arg_map v) -> next_ok (next_arg_id_ h) ->
  format_field A loc (make_arg v) (show_spec sp ++ "}"%char :: rest) h =
  (let* (specs, next) := eval_spec args (type_constant (arg_map v)) sp (next_arg_id_ h) in
   let* out := emit (out_ h) (written specs (arg_map v)) in Ok ("}"%char :: rest, MkHandler next out)).
Proof using Hsp Hargs Hloc.
  intros Hv Hn. unfold format_field. rewrite visit_make_arg. change (arg_type (make_arg v)) with (type_constant (arg_map v)).
  destruct (short_spec (show_spec sp ++ "}"%char :: rest)) eqn:Hb.
  - destruct (short_spec_app Hb) as [Hs ->]. rewrite Hs. cbn [app nth bind lift].
    rewrite arg_formatter_eq by (done || apply set_type_ok, default_specs_ok). reflexivity.
  - pose proof (parse_format_specs_ok False A (or_introl (args_ok_make args Hargs)) (type_constant (arg_map v)) (show_spec sp ++ "}"%char :: rest)
      default_specs (next_arg_id_ h) default_specs_ok Hn) as Hp.
    rewrite parse_format_specs_app in *. destruct (eval_spec args _ sp _) as [[specs next]| |]; [|done|done].
    cbn [bind nth lift good] in *. rewrite Ascii.eqb_refl. cbn [bind].
    rewrite arg_formatter_eq by (done || apply Hp). reflexivity.
Qed.
End tails.

(** ** Replacement fields *)

Lemma show_ref_head r e s :
  ref_printable r -> (e =c "}"%char) || (e =c ":"%char) = true ->
  exists c l, show_ref r ++ e :: s = c :: l /\ (c =c "{"%char) = false /\ ((c =c "}"%char) = true -> r = ref_auto /\ c = e /\ l = s).
Proof.
  intros Hr He. assert (forall c, is_name_char c = true -> (c =c "{"%char) = false /\ (c =c "}"%char) = false) as Hn
    by (intros c; destruct c as [[] [] [] [] [] [] [] []]; vm_compute; intros; split; congruence).
  destruct r as [|i|n]; cbn [show_ref ref_printable] in *.
  - exists e, s. split_and!; [done| |done]. by apply orb_true_iff in He as [->%Ascii.eqb_eq| ->%Ascii.eqb_eq].
  - pose proof (dec_nat_digits i ltac:(lia)) as Hd. pose proof (dec_nat_nonnil i). destruct (dec_nat i) as [|d ds]; [done|].
    apply Forall_cons in Hd as [Hd _]. destruct (Hn d (digit_facts d Hd)) as [H1 H2]. exists d, (ds ++ e :: s). split_and!; [done|done|].
    by rewrite H2.
  - destruct n as [|d n]; [done|]. destruct Hr as [Hd _]. destruct (Hn d (proj2 (name_start_facts d Hd))) as [H1 H2].
    exists d, (n ++ e :: s). split_and!; [done|done|]. by rewrite H2.
Qed.

Lemma plain_field_app r rest h :
  ref_printable r ->
  parse_replacement_field A loc ("{"%char :: show_ref r ++ "}"%char :: rest) h =
    let* (id, h) := on_arg_id A r h in let* h := on_replacement_field A id h in Ok (rest, h).
Proof.
  intros Hr. unfold parse_replacement_field.
  change (drop 1 ("{"%char :: show_ref r ++ "}"%char :: rest)) with (show_ref r ++ "}"%char :: rest).
  destruct (show_ref_head r "}" rest Hr eq_refl) as (c & l & Hs & Ho & Hc). rewrite Hs, Ho.
  destruct (c =c "}"%char) eqn:Hb; [destruct (Hc eq_refl) as (-> & _ & ->); done|].
  rewrite <- Hs, parse_arg_id_app by done. done.
Qed.

Lemma spec_field_app r s h :
  ref_printable r ->
  parse_replacement_field A loc ("{"%char :: show_ref r ++ ":"%char :: s) h =
    let* (id, h) := on_arg_id A r h in
    let* (s, h) := on_format_specs A loc id s h in
    if nth 0 s NUL =c "}"%char then Ok (drop 1 s, h) else Throw (B "unknown format specifier").
Proof.
  intros Hr. unfold parse_replacement_field.
  change (drop 1 ("{"%char :: show_ref r ++ ":"%char :: s)) with (show_ref r ++ ":"%char :: s).
  destruct (show_ref_head r ":" s Hr eq_refl) as (c & l & Hs & Ho & Hc). rewrite Hs, Ho.
  destruct (c =c "}"%char) eqn:Hb; [destruct (Hc eq_refl) as (_ & -> & _); done|].
  rewrite <- Hs, parse_arg_id_app by done. done.
Qed.

Lemma eval_ref_next r next v next' :
  ref_printable r -> next_ok next -> eval_ref args r next = Ok (v, next') -> next_ok next'.
Proof using Hargs.
  intros Hr Hn He. pose proof (handler_get_arg_ok False A (or_introl (args_ok_make args Hargs)) r next
    ltac:(destruct r; cbn in *; lia || done) Hn) as Hg. rewrite handler_get_arg_eq, He in Hg by done. apply Hg.
Qed.

Lemma replacement_app r sp rest h :
  piece_printable (replacement r sp) -> next_ok (next_arg_id_ h) ->
  parse_replacement_field A loc (show_piece (replacement r sp) ++ rest) h =
    let* h := eval_piece args (replacement r sp) h in Ok (rest, h).
Proof using Hargs Hloc.
  intros [Hr Hsp] Hn. destruct sp as [sp|]; cbn [show_piece eval_piece].
  - replace (("{"%char :: show_ref r ++ ":"%char :: show_spec sp ++ ["}"%char]) ++ rest)
      with ("{"%char :: show_ref r ++ ":"%char :: show_spec sp ++ "}"%char :: rest)
      by (cbn [app]; rewrite <- app_assoc; cbn [app]; by rewrite <- app_assoc).
    rewrite spec_field_app by done. set (s := show_spec sp ++ "}"%char :: rest).
    transitivity (let* (id, h) := on_arg_id A r h in let* a := get_arg A id in
      let* (s, h) := format_field A loc a s h in
      if nth 0 s NUL =c "}"%char then Ok (drop 1 s, h) else Throw (B "unknown format specifier")).
    { destruct (on_arg_id A r h) as [[id h']| |]; [|done|done]. apply outcome_bind_assoc. }
    rewrite (on_arg_id_eq r h (fun a h => let* (s, h) := format_field A loc a s h in
      if nth 0 s NUL =c "}"%char then Ok (drop 1 s, h) else Throw (B "unknown format specifier"))) by done.
    destruct (eval_ref args r (next_arg_id_ h)) as [[v next]| |] eqn:He; cbn [bind]; [|done|done]. subst s.
    rewrite format_specs_app; [|done|by eapply eval_ref_ok|by eapply eval_ref_next].
    cbn [next_arg_id_ out_]. destruct (eval_spec args _ sp next) as [[specs next']| |]; cbn [bind]; [|done|done].
    destruct (emit (out_ h) _); cbn [bind nth]; [|done|done]. rewrite Ascii.eqb_refl. done.
  - replace (("{"%char :: show_ref r ++ ["}"%char]) ++ rest) with ("{"%char :: show_ref r ++ "}"%char :: rest)
      by (cbn [app]; by rewrite <- app_assoc).
    rewrite plain_field_app by done.
    transitivity (let* (id, h) := on_arg_id A r h in let* a := get_arg A id in let* h := format_default a h in Ok (rest, h)).
    { destruct (on_arg_id A r h) as [[id h']| |]; [|done|done]. apply outcome_bind_assoc. }
    rewrite (on_arg_id_eq r h (fun a h => let* h := format_default a h in Ok (rest, h))) by done.
    destruct (eval_ref args r (next_arg_id_ h)) as [[v next]| |] eqn:He; cbn [bind]; [|done|done].
    unfold format_default. rewrite visit_make_arg. cbn [lift bind out_ next_arg_id_]. rewrite default_arg_formatter_eq by (by eapply eval_ref_ok).
    by destruct (emit (out_ h) _).
Qed.

(** ** Whole format strings *)

Definition run (s : bytes) (h : handler) : outcome handler := large_loop A loc (S (length s)) s h.

Lemma run_fuel f s h : next_ok (next_arg_id_ h) -> length s < f -> large_loop A loc f s h = run s h.
Proof.
  intros Hn Hf. unfold run. rewrite <- (loops_agree A loc (length s) (S (length s)) f) by (done || lia).
  apply (loops_agree A loc (length s)); (done || lia).
Qed.

Lemma run_then t rest h :
  Forall (fun c => is_open c = false) t -> at_open rest -> next_ok (next_arg_id_ h) ->
  run (t ++ rest) h = text_then A loc [] t rest h run.
Proof.
  intros Ht Hr Hn. unfold run at 1. rewrite large_segment by done. unfold text_then.
  destruct (text_of t) as [x|]; [|done]. destruct rest as [|c r]; [done|].
  pose proof (parse_replacement_field_ok True A loc (or_intror I) (or_intror I) [] c r (on_text ([] ++ x) h) (conj Hn (or_intror I))) as Hp.
  destruct (parse_replacement_field A loc (c :: r) _) as [[p h']| |]; [|done|done]. destruct Hp as [Hp [Hn' _]].
  cbn [bind fst snd] in *. apply run_fuel; [done|]. rewrite length_app. cbn [length]. lia.
Qed.

Lemma run_open s h :
  next_ok (next_arg_id_ h) -> run ("{"%char :: s) h = let* (p, h) := parse_replacement_field A loc ("{"%char :: s) h in run p h.
Proof. intros Hn. rewrite (run_then [] ("{"%char :: s)) by done. unfold text_then. cbn [text_of app]. by rewrite on_text_nil. Qed.

(** A character of text, and a doubled closing brace. *)
Lemma run_text u c s h :
  (forall t, text_of (u ++ t) = cons c <$> text_of t) -> Forall (fun c => is_open c = false) u -> next_ok (next_arg_id_ h) ->
  run (u ++ s) h = run s (on_text [c] h).
Proof.
  intros Hu Ho Hn. destruct (split_open s) as (t & rest & -> & Ht & Hr). rewrite app_assoc.
  rewrite !run_then by (done || by apply Forall_app). unfold text_then. rewrite Hu.
  destruct (text_of t) as [x|]; cbn [fmap option_fmap option_map]; [|done]. by rewrite on_text_app.
Qed.

Lemma run_escape t s h : next_ok (next_arg_id_ h) -> run (escape t ++ s) h = run s (on_text t h).
Proof.
  revert h. induction t as [|c t IH]; intros h Hn; cbn [escape]; [by rewrite on_text_nil|].
  change (c :: t) with ([c] ++ t). rewrite <- on_text_app.
  destruct (c =c "{"%char) eqn:Ho; cbn [orb].
  - apply Ascii.eqb_eq in Ho. subst c. cbn [app]. rewrite run_open by done.
    change (parse_replacement_field A loc ("{"%char :: "{"%char :: escape t ++ s) h) with (Ok (escape t ++ s, on_text ["{"%char] h)).
    cbn [bind]. by rewrite IH.
  - destruct (c =c "}"%char) eqn:Hc.
    + apply Ascii.eqb_eq in Hc. subst c. change (("}"%char :: "}"%char :: escape t) ++ s) with (["}"%char; "}"%char] ++ escape t ++ s).
      rewrite (run_text _ "}"%char) by (done || by repeat constructor). by rewrite IH.
    + change ((c :: escape t) ++ s) with ([c] ++ escape t ++ s).
      rewrite (run_text [c] c); [by rewrite IH| |by repeat constructor|done]. intros x. cbn [app text_of]. by rewrite Hc.
Qed.

Lemma run_show ps h : Forall piece_printable ps -> next_ok (next_arg_id_ h) -> run (show ps) h = eval args ps h.
Proof using Hargs Hloc.
  intros Hps. revert h. induction Hps as [|p ps Hp _ IH]; intros h Hn; [unfold run; cbn; done|].
  unfold show. cbn [map concat eval]. fold (show ps). destruct p as [t|r sp].
  - cbn [show_piece eval_piece bind]. rewrite run_escape by done. by apply IH.
  - assert (exists l, show_piece (replacement r sp) ++ show ps = "{"%char :: l) as [l Hl] by (destruct sp; by eexists).
    pose proof (replacement_app r sp (show ps) h Hp Hn) as Hf. rewrite Hl in *. rewrite run_open by done.
    pose proof (parse_replacement_field_ok True A loc (or_intror I) (or_intror I) [] "{"%char l h (conj Hn (or_intror I))) as Hk.
    rewrite Hf in *. destruct (eval_piece args (replacement r sp) h) as [h'| |]; [|done|done].
    cbn [bind good] in *. apply IH, Hk.
Qed.

(** The short cut for the format string with one field is what the parser does. *)
Lemma vformat_to_run buf s : vformat_to A loc buf s = let* h := run s (MkHandler 0 buf) in Ok (out_ h).
Proof.
  unfold vformat_to. case_bool_decide as Hs.
  - subst s. change (B "{}") with ("{"%char :: show_ref ref_auto ++ "}"%char :: []). rewrite run_open, plain_field_app by done. cbn. unfold on_replacement_field, get_arg, format_default. cbn [next_arg_id_ out_].
    destruct (lift (get 0 A)); cbn [bind]; [|done|done]. destruct (check_arg a); cbn [bind]; [|done|done].
    destruct (lift (visit_format_arg a0)); cbn [bind]; [|done|done]. by destruct (default_arg_formatter buf a1).
  - unfold parse_format_string. case_test; [|done]. unfold run.
    by rewrite (loops_agree A loc (length s) (S (length s)) (S (length s))) by (done || lia).
Qed.
End correct.

Lemma format_pieces args loc buf ps :
  call_ok args -> grouping loc = [] -> Forall piece_printable ps ->
  vformat_to (make_format_args args) loc buf (show ps) = let* h := eval args ps (MkHandler 0 buf) in Ok (out_ h).
Proof. intros Ha Hl Hps. rewrite vformat_to_run. by rewrite run_show by done. Qed.

(** C23: A format string means what it says: printed from pieces of text (braces doubled) and
    replacement fields (the next, an indexed or a named argument, with or without fill,
    alignment, sign, flags, width, precision and type, the counts given as numbers or taken
    from arguments), formatting it appends the texts and the arguments' fields in order, and
    throws exactly where a piece has no value, with its message.  The arguments are those of a
    call, none a floating point number; the locale does not group digits; and a field with a
    colon has specifiers behind it ([empty_specs_swallow_brace] shows what happens otherwise). *)
Theorem format_pieces_correct (args : list call_arg) (loc : locale_ref) (buf : bytes) (ps : list piece) :
  call_ok args -> grouping loc = [] -> Forall piece_printable ps ->
  vformat_to (make_format_args args) loc buf (show ps) = let* h := eval args ps (MkHandler 0 buf) in Ok (out_ h).
Proof. apply format_pieces. Qed.

Definition demo_pieces : list piece :=
  [text (B "{id}: ");
   replacement (ref_index 0) (Some (MkSpec (B "*") align.center sign.plus true false (dyn (ref_name (B "w"))) no_count "x"%char));
   text (B "|"); replacement (ref_name (B "s")) (Some (MkSpec [] align.none sign.none false false (num 6) (num 3) NUL))].
Definition demo_args : list call_arg := [(None, Cint 255); (Some (B "w"), Cint 9); (Some (B "s"), Cstring (B "abcdef"))].

Lemma format_pieces_correct_witness :
  show demo_pieces = B "{{id}}: {0:*^+#{w}x}|{s:6.3}" /\
  vformat_to (make_format_args demo_args) classic [] (show demo_pieces) = Ok (B "{id}: **+0xff**|abc   ").
Proof.
  split; [vm_compute; reflexivity|]. eapply eq_trans.
  - apply (format_pieces_correct demo_args classic [] demo_pieces); [|done|].
    + split; [reflexivity|]. repeat constructor; cbn; lia.
    + repeat constructor; try done; cbn; try lia; try (by left); try (by right); discriminate.
  - vm_compute. reflexivity.
Defined.

(** ** What the parser gets wrong *)

(** After empty specifiers the closing brace and an alignment behind it are taken for a fill. *)
Lemma empty_specs_swallow_brace :
  format_to [] (B "{:}<") [(None, Cint 3)] = Throw (B "missing '}' in format string") /\
  format_to [] (B "{:}") [(None, Cint 3)] = Ok (B "3").
Proof. vm_compute. done. Qed.

(** A precision counts characters, the width code points: cutting can split a code point. *)
Lemma precision_splits_code_points :
  format_to [] (B "{:.1}") [(None, Cstring (["195"%char; "169"%char]))] = Ok ["195"%char].
Proof. vm_compute. done. Qed.

(** The zero flag after a fill of several characters overwrites only its first. *)
Lemma zero_flag_breaks_fill :
  format_to [] (["{"%char; ":"%char; "195"%char; "169"%char] ++ B "<06.1}") [(None, Cint 3)] =
    Throw (B "precision not allowed for this argument type") /\
  format_to [] (["{"%char; ":"%char; "195"%char; "169"%char] ++ B "<06}") [(None, Cbool true)] =
    Ok ["0"%char; "169"%char; "0"%char; "169"%char; "t"%char; "r"%char; "u"%char; "e"%char].
Proof. vm_compute. done. Qed.
