(* ===== verification/FmtLog.v ===== *)
(** * Formatted messages in the log

    What the program formats with the fmt library: the messages of the proxy, through the template
    [log_] of [spdlog/logger.h] and the macros of [fileCacheProxy.cpp]; the names of rotated files
    ([sinks/rotating_file_sink-inl.h]) and of daily and hourly ones; the numbers [fmt_helper::pad2] leaves to the library.  The models of
    these use reference texts; here they are shown to be what the library writes. *)
From S2P Require Import Prelude CLib Json Fmt PatternFormatter PatternTheory Files Sinks RotatingTheory CircularQueue Logger Registry ProxyLog TimedSinks.
From S2P Require Import FmtArgs FmtWrite FmtParse FmtTheory FmtPieces.

(** ** Format strings of plain fields *)

(** Text with [{}] fields, each for the next argument. *)
Fixpoint plain_pieces (texts : list bytes) : list piece :=
  match texts with
  | [] => []
  | [t] => [text t]
  | t :: texts => text t :: replacement ref_auto None :: plain_pieces texts
  end.

Lemma plain_pieces_printable texts : Forall piece_printable (plain_pieces texts).
Proof.
  induction texts as [|t [|u texts] IH]; cbn [plain_pieces]; [done|by repeat constructor|].
  repeat constructor. exact IH.
Qed.

(** The texts and, between them, the arguments. *)
Definition arg_text (a : call_arg) : option bytes :=
  match plain (arg_map a.2) with inl t => Some t | inr _ => None end.

Fixpoint interleave (texts : list bytes) (args : list call_arg) : bytes :=
  match texts, args with
  | t :: texts, a :: args => t ++ default [] (arg_text a) ++ interleave texts args
  | t :: _, [] => t
  | [], _ => []
  end.

Lemma eval_plain pre args texts out :
  length texts = S (length args) -> Forall (fun a => is_Some (arg_text a)) args ->
  eval (pre ++ args) (plain_pieces texts) (MkHandler (Z.of_nat (length pre)) out) =
    Ok (MkHandler (Z.of_nat (length (pre ++ args))) (out ++ interleave texts args)).
Proof.
  intros Hl Ha. revert pre texts out Hl. induction Ha as [|a args [t Ht] _ IH]; intros pre texts out Hl.
  - destruct texts as [|t [|u texts]]; [done| |done]. cbn. by rewrite app_nil_r.
  - destruct texts as [|t' [|u texts]]; [done|done|]. change (plain_pieces (t' :: u :: texts)) with
      (text t' :: replacement ref_auto None :: plain_pieces (u :: texts)).
    cbn [eval eval_piece bind on_text eval_ref next_arg_id_ out_]. rewrite (proj2 (Z.leb_le 0 _)) by lia.
    rewrite Nat2Z.id, list_lookup_middle by done. cbn [bind]. unfold arg_text in Ht.
    destruct (plain (arg_map a.2)) as [x|] eqn:Hp; simplify_eq. cbn [emit bind].
    specialize (IH (pre ++ [a]) (u :: texts) ((out ++ t') ++ t)). rewrite <- app_assoc in IH. cbn [app] in IH.
    rewrite length_app in IH. replace (Z.of_nat (length pre) + 1)%Z with (Z.of_nat (length pre + length [a])) by (cbn; lia).
    rewrite IH by (cbn in *; lia). cbn [interleave]. unfold arg_text. rewrite Hp. cbn [default]. by rewrite <- !app_assoc.
Qed.

Lemma format_plain args buf texts :
  call_ok args -> length texts = S (length args) -> Forall (fun a => is_Some (arg_text a)) args ->
  format_to buf (show (plain_pieces texts)) args = Ok (buf ++ interleave texts args).
Proof.
  intros Ha Hl Hp. unfold format_to. rewrite format_pieces by (done || apply plain_pieces_printable).
  pose proof (eval_plain [] args texts buf Hl Hp) as He. cbn [app length] in He. change (Z.of_nat 0) with 0%Z in He. by rewrite He.
Qed.

(** ** Names of rotated files, and numbers of two digits *)

(** [calc_filename] for a positive index, as the source writes it. *)
Definition calc_filename_fmt (filename : bytes) (index : nat) : outcome bytes :=
  let '(basename, ext) := split_by_extension filename in
  format_to [] (B "{}.{}{}") [(None, Cstring basename); (None, Culong (Z.of_nat index)); (None, Cstring ext)].

Lemma calc_filename_formats filename index :
  0 < index -> (Z.of_nat index < 2 ^ 64)%Z -> calc_filename_fmt filename index = Ok (calc_filename filename index).
Proof.
  intros Hi Hl. unfold calc_filename_fmt, calc_filename. destruct index as [|k]; [lia|].
  destruct (split_by_extension filename) as [basename ext].
  change (B "{}.{}{}") with (show (plain_pieces [[]; B "."; []; []])).
  rewrite format_plain; [|split; [reflexivity|repeat constructor; cbn; lia]|done|by repeat constructor].
  cbn [interleave arg_text arg_map plain snd default app]. unfold dec. rewrite (proj2 (Z.ltb_ge _ 0)) by lia.
  by rewrite app_nil_r.
Qed.

Lemma show_02 : show [replacement ref_auto (Some (MkSpec [] align.none sign.none false true (num 2) no_count NUL))] = B "{:02}".
Proof. reflexivity. Qed.

Definition specs_02 : format_specs := MkSpecs 2 (-1) NUL align.numeric sign.none false (MkFill ["0"%char; NUL; NUL; NUL] 1).

Lemma field_02 n : written specs_02 (op_int n) = inl (format_02 n).
Proof.
  unfold written, bare_char. change (sp_type specs_02 =c "c"%char) with false. cbn [field]. unfold int_field, format_02, sign_text. change (sp_type specs_02) with NUL. change (sp_sign specs_02) with sign.none.
  rewrite Ascii.eqb_refl. cbn [orb]. f_equal. unfold int_body. cbn [sp_align specs_02].
  set (s := if (n <? 0)%Z then _ else []). set (d := dec_nat (Z.abs n)).
  change (sp_width specs_02) with 2%Z. set (zeros := Z.max 0 _). unfold padded. cbn [sp_align specs_02].
  change (sp_width _) with 2%Z. replace (Z.to_nat (2 - (Z.of_nat (length s + length d) + zeros))) with 0 by lia.
  cbn [fills replicate concat Nat.sub app]. rewrite app_nil_r. unfold zpad. subst s d zeros.
  destruct (n <? 0)%Z eqn:Hn; to_prop; cbn [app length].
  - rewrite Z.abs_neq by lia. do 3 f_equal. lia.
  - rewrite Z.abs_eq by lia. do 2 f_equal. lia.
Qed.

Lemma pad2_formats n dest : (- 2 ^ 31 <= n < 2 ^ 31)%Z -> format_to dest (B "{:02}") [(None, Cint n)] = Ok (dest ++ format_02 n).
Proof.
  intros Hn. rewrite <- show_02. unfold format_to. rewrite format_pieces; [|split; [reflexivity|constructor; [exact Hn|constructor]]|done|].
  2: { constructor; [split; [done|]|constructor]. split; try done; first [by left|cbn; unfold INT_MAX; lia]. }
  transitivity (let* h := (let* out := emit dest (written specs_02 (op_int n)) in Ok (MkHandler 1 out)) in Ok (out_ h)); [|by rewrite field_02].
  cbn [eval]. set (e := eval_piece _ _ _). assert (e = (let* out := emit dest (written specs_02 (op_int n)) in Ok (MkHandler 1 out))) as -> by reflexivity.
  by destruct (emit _ _).
Qed.

(** ** Names of daily and hourly files *)

(** One field at a time: the next argument as it is, or a number with leading zeros. *)
Lemma eval_next args i out ps a t :
  args !! i = Some a -> plain (arg_map a.2) = inl t ->
  eval args (replacement ref_auto None :: ps) (MkHandler (Z.of_nat i) out) = eval args ps (MkHandler (Z.of_nat (S i)) (out ++ t)).
Proof.
  intros Ha Ht. cbn [eval eval_piece eval_ref next_arg_id_ out_ bind]. rewrite (proj2 (Z.leb_le 0 _)) by lia. rewrite Nat2Z.id, Ha. cbn [bind].
  rewrite Ht. cbn [emit bind]. by rewrite Nat2Z.inj_succ, Z.add_1_r.
Qed.

Definition spec_0 (w : Z) : spec := MkSpec [] align.none sign.none false true (num w) no_count "d"%char.
Definition specs_0 (w : Z) : format_specs := MkSpecs w (-1) "d"%char align.numeric sign.none false (MkFill ["0"%char; NUL; NUL; NUL] 1).
Definition format_0 (w n : Z) : bytes := if (n <? 0)%Z then "-"%char :: zpad (Z.to_nat (w - 1)) (- n) else zpad (Z.to_nat w) n.

Lemma field_0 w n : (0 < w)%Z -> written (specs_0 w) (op_int n) = inl (format_0 w n).
Proof.
  intros Hw. unfold written, bare_char. change (sp_type (specs_0 w) =c "c"%char) with false. cbn [field]. unfold int_field, format_0, sign_text. change (sp_type (specs_0 w)) with "d"%char. change (sp_sign (specs_0 w)) with sign.none.
  change (("d" =c NUL) || ("d" =c "d") || ("d" =c "L")) with true. cbn iota. f_equal. unfold int_body. cbn [sp_align specs_0].
  set (s := if (n <? 0)%Z then _ else []). set (d := dec_nat (Z.abs n)). change (sp_width (specs_0 w)) with w.
  set (zeros := Z.max 0 _). unfold padded. cbn [sp_align specs_0]. change (sp_width _) with w.
  replace (Z.to_nat (w - (Z.of_nat (length s + length d) + zeros))) with 0 by lia.
  cbn [fills replicate concat Nat.sub app]. rewrite app_nil_r. unfold zpad. subst s d zeros. destruct (n <? 0)%Z eqn:Hn; to_prop; cbn [app length].
  - rewrite Z.abs_neq by lia. do 3 f_equal. lia.
  - rewrite Z.abs_eq by lia. do 2 f_equal. lia.
Qed.

Lemma eval_number args i out ps nm n w :
  args !! i = Some (nm, Cint n) -> (w = 2 \/ w = 4)%Z ->
  eval args (replacement ref_auto (Some (spec_0 w)) :: ps) (MkHandler (Z.of_nat i) out) = eval args ps (MkHandler (Z.of_nat (S i)) (out ++ format_0 w n)).
Proof.
  intros Ha Hw. cbn [eval eval_piece eval_ref next_arg_id_ out_ bind]. rewrite (proj2 (Z.leb_le 0 _)) by lia. rewrite Nat2Z.id, Ha. cbn [bind snd].
  assert (eval_spec args (type_constant (arg_map (Cint n))) (spec_0 w) (Z.of_nat i + 1) = Ok (specs_0 w, Z.of_nat i + 1)%Z) as -> by (by destruct Hw as [-> | ->]).
  cbn [bind arg_map]. rewrite field_0 by lia. cbn [emit bind]. by rewrite Nat2Z.inj_succ, Z.add_1_r.
Qed.

Lemma eval_text args t ps i out : eval args (text t :: ps) (MkHandler i out) = eval args ps (MkHandler i (out ++ t)).
Proof. done. Qed.

Definition daily_calc_filename_fmt (filename : bytes) (now_tm : tm) : outcome bytes :=
  let '(basename, ext) := split_by_extension filename in
  format_to [] (B "{}_{:04d}-{:02d}-{:02d}{}")
    [(None, Cstring basename); (None, Cint (tm_year now_tm + 1900)); (None, Cint (tm_mon now_tm + 1)); (None, Cint (tm_mday now_tm)); (None, Cstring ext)].
Definition hourly_calc_filename_fmt (filename : bytes) (now_tm : tm) : outcome bytes :=
  let '(basename, ext) := split_by_extension filename in
  format_to [] (B "{}_{:04d}{:02d}{:02d}_{:02d}{}")
    [(None, Cstring basename); (None, Cint (tm_year now_tm + 1900)); (None, Cint (tm_mon now_tm + 1)); (None, Cint (tm_mday now_tm));
     (None, Cint (tm_hour now_tm)); (None, Cstring ext)].

Definition next : piece := replacement ref_auto None.
Definition number (w : Z) : piece := replacement ref_auto (Some (spec_0 w)).

Lemma number_printable w : (w = 2 \/ w = 4)%Z -> piece_printable (number w).
Proof.
  intros Hw. split; [done|]. destruct Hw as [-> | ->]; split; try done; first [by right|by left|cbn; unfold INT_MAX; lia].
Qed.

Definition int_fits (n : Z) : Prop := (- 2 ^ 31 <= n < 2 ^ 31)%Z.

Lemma timed_names_format filename t :
  int_fits (tm_year t + 1900) -> int_fits (tm_mon t + 1) -> int_fits (tm_mday t) -> int_fits (tm_hour t) ->
  daily_calc_filename_fmt filename t = Ok (daily_calc_filename filename t) /\ hourly_calc_filename_fmt filename t = Ok (hourly_calc_filename filename t).
Proof.
  unfold int_fits. intros Hy Hm Hd Hh. unfold daily_calc_filename_fmt, hourly_calc_filename_fmt, daily_calc_filename, hourly_calc_filename.
  destruct (split_by_extension filename) as [basename ext].
  change (B "{}_{:04d}-{:02d}-{:02d}{}") with (show [next; text (B "_"); number 4; text (B "-"); number 2; text (B "-"); number 2; next]).
  change (B "{}_{:04d}{:02d}{:02d}_{:02d}{}") with (show [next; text (B "_"); number 4; number 2; number 2; text (B "_"); number 2; next]).
  assert (Forall piece_printable [number 4; number 2]) as Hpr by (repeat constructor; apply number_printable; auto). apply Forall_cons in Hpr as [H4 [H2 _]%Forall_cons].
  unfold format_to. split; (rewrite format_pieces; [|split; [reflexivity|repeat constructor; (done || cbn; lia)]|done|by repeat (constructor; try done)]);
    change (MkHandler 0 []) with (MkHandler (Z.of_nat 0) []); unfold next, number;
    repeat first [erewrite eval_next by reflexivity|erewrite eval_number by (reflexivity || auto)|rewrite eval_text];
    cbn [eval bind out_ app]; by rewrite <- !app_assoc.
Qed.

(** ** The proxy's messages *)

(** The calls of the logging macros in [fileCacheProxy.cpp]; the last is any without arguments. *)
Inductive proxy_event :=
  | receive_signal (signum : Z)
  | config_localhost (localhost : bytes)
  | config_port (port : Z)
  | config_threads (ThreadCount : Z)
  | config_expiredays (expiredays : Z)
  | config_client (mClientConfPath : Z) (chars : bytes)
  | thread_trying (i testNum : Z)
  | message (lvl : level_enum) (msg : bytes).

(** Values of [unsigned], [uint16_t] and [int]; a configuration path is not null. *)
Definition event_ok (e : proxy_event) : Prop :=
  match e with
  | receive_signal s => (0 <= s < 2 ^ 32)%Z
  | config_port p => (0 <= p < 2 ^ 16)%Z
  | config_threads n | config_expiredays n => (- 2 ^ 31 <= n < 2 ^ 31)%Z
  | config_client p _ => (0 < p < 2 ^ 64)%Z
  | thread_trying i n => (- 2 ^ 31 <= i < 2 ^ 31 /\ - 2 ^ 31 <= n < 2 ^ 31)%Z
  | config_localhost _ | message _ _ => True
  end.

(** What an event says. *)
Definition event_level (e : proxy_event) : level_enum := match e with message lvl _ => lvl | _ => info end.
Definition event_text (e : proxy_event) : bytes :=
  match e with
  | receive_signal s => B "Receive signal " ++ dec s
  | config_localhost h => B "----Config->LocalHost " ++ h
  | config_port p => B "----Config->port " ++ dec p
  | config_threads n => B "----Config->ThreadCount " ++ dec n
  | config_expiredays n => B "----Config->expiredays " ++ dec n
  | config_client _ path => B "----Config->clientConfPath " ++ path
  | thread_trying i n => B "Thread " ++ dec i ++ B " trying " ++ dec n ++ B " time ..."
  | message _ msg => msg
  end.

Section events.
  Context {Custom : Type} (custom_format : Custom -> padding_info -> log_msg -> tm -> bytes -> Custom * bytes).
  Context (localtime gmtime : Z -> tm) (pid pattern_now this_thread : Z).
  Abbreviation F := (pattern_formatter Custom).
#[local] Instance fmt_log_inst : Formatter F := pattern_Formatter custom_format localtime gmtime pid pattern_now.
  Context {C : Type} `{Sink F C world}.
  Abbreviation ST := (spd F (rotating_file_sink F + C) world).

  (** [logger->log(loc, lvl, fmt, args...)]: the template [log_], which formats into a buffer of its own. *)
Definition spd_log_fmt (id : nat) (loc : source_loc) (lvl : level_enum) (fmt : bytes) (args : list call_arg) : ST -> option ST :=
    on_logger id (Logger.log_ localtime this_thread loc lvl (format_to [] fmt args)).

Definition log_event (id : nat) (loc : source_loc) (e : proxy_event) (st : ST) : option ST :=
    match e with
    | receive_signal signum => spd_log_fmt id loc info (B "Receive signal {}") [(None, Cunsigned signum)] st
    | config_localhost localhost => spd_log_fmt id loc info (B "----Config->LocalHost {}") [(None, Cstring localhost)] st
    | config_port port => spd_log_fmt id loc info (B "----Config->port {}") [(None, Cushort port)] st
    | config_threads ThreadCount => spd_log_fmt id loc info (B "----Config->ThreadCount {}") [(None, Cint ThreadCount)] st
    | config_expiredays expiredays => spd_log_fmt id loc info (B "----Config->expiredays {}") [(None, Cint expiredays)] st
    | config_client mClientConfPath chars =>
        spd_log_fmt id loc info (B "----Config->clientConfPath {}") [(None, Ccharptr mClientConfPath chars)] st
    | thread_trying i testNum => spd_log_fmt id loc info (B "Thread {} trying {} time ...") [(None, Cint i); (None, Cint testNum)] st
    | message lvl msg => spd_log localtime this_thread id loc lvl msg st
    end.

Fixpoint log_events (id : nat) (evs : list (source_loc * proxy_event)) (st : ST) : option ST :=
    match evs with
    | [] => Some st
    | (loc, e) :: evs => st ← log_event id loc e st; log_events id evs st
    end.

  (** A call with arguments logs the formatted text. *)
Lemma spd_log_fmt_plain id loc lvl texts args st :
    call_ok args -> length texts = S (length args) -> Forall (fun a => is_Some (arg_text a)) args ->
    spd_log_fmt id loc lvl (show (plain_pieces texts)) args st = spd_log localtime this_thread id loc lvl (interleave texts args) st.
Proof. intros Ha Hl Hp. unfold spd_log_fmt. by rewrite format_plain. Qed.

Lemma log_event_text id loc e st :
    event_ok e -> log_event id loc e st = spd_log localtime this_thread id loc (event_level e) (event_text e) st.
Proof.
    assert (forall lvl pre v t, operand_ok (arg_map v) -> plain (arg_map v) = inl t ->
      spd_log_fmt id loc lvl (show (plain_pieces [pre; []])) [(None, v)] st = spd_log localtime this_thread id loc lvl (pre ++ t) st) as Hone.
    { intros lvl pre v t Hv Ht. assert (arg_text (None, v) = Some t) as Hat by (unfold arg_text; cbn [snd]; by rewrite Ht).
      rewrite spd_log_fmt_plain; [|split; [reflexivity|by constructor]|done|constructor; [by eexists|constructor]].
      cbn [interleave]. rewrite Hat. cbn [default]. by rewrite app_nil_r. }
    intros He. destruct e; cbn [event_ok event_level event_text log_event] in *; [..|done].
    - exact (Hone info (B "Receive signal ") (Cunsigned signum) (dec signum) He eq_refl).
    - exact (Hone info (B "----Config->LocalHost ") (Cstring localhost) localhost I eq_refl).
    - apply (Hone info (B "----Config->port ") (Cushort port) (dec port)); [cbn; lia|done].
    - exact (Hone info (B "----Config->ThreadCount ") (Cint ThreadCount) (dec ThreadCount) He eq_refl).
    - exact (Hone info (B "----Config->expiredays ") (Cint expiredays) (dec expiredays) He eq_refl).
    - apply (Hone info (B "----Config->clientConfPath ") (Ccharptr mClientConfPath chars) chars); cbn [arg_map operand_ok plain]; [lia|].
      by rewrite (proj2 (Z.eqb_neq _ 0)) by lia.
    - destruct He as [Hi Hn]. change (B "Thread {} trying {} time ...") with (show (plain_pieces [B "Thread "; B " trying "; B " time ..."])).
      rewrite spd_log_fmt_plain; [reflexivity|split; [reflexivity|repeat constructor; cbn; lia]|done|by repeat constructor].
Qed.

Definition event_request (e : source_loc * proxy_event) : Logger.request := (e.1, event_level e.2, event_text e.2).

Lemma log_events_requests id evs st :
    Forall (fun e => event_ok e.2) evs ->
    log_events id evs st = log_requests custom_format localtime gmtime pid pattern_now this_thread id (map event_request evs) st.
Proof.
    intros Hok. revert st. induction Hok as [|[loc e] evs He _ IH]; intros st; [done|].
    cbn [log_events map log_requests event_request fst snd]. rewrite log_event_text by done.
    destruct (spd_log _ _ _ _ _ _ _); [apply IH|done].
Qed.
End events.

(** ** The contract *)

(** C4: The proxy's own messages reach its log as it means them: after the start and any events
    (a signal, the configuration values, the connection attempts, the plain messages), with the
    arguments formatted by the library, the log file holds what it held and then, per event let
    through, the line with its text, up to the rotation of old lines; names of rotated files
    and numbers of two digits are formatted as their models say. *)
Theorem proxy_events_logged {Custom C} (custom_format : Custom -> padding_info -> log_msg -> tm -> bytes -> Custom * bytes)
    localtime gmtime pid pattern_now this_thread `{Sink (pattern_formatter Custom) C world} file (color : C) w ts ar evs :
  let base := c_str file in
  let size := (1024 * 1024 * logFileSize)%Z in
  let msgs := messages this_thread (map event_request evs) ts in
  let a0 := MkLog ar (contents (R base 0) w) in
  let a := foldl (log_line logFileBkupNum size) a0 (local_line localtime <$> msgs) in
  (forall s, tm_ok (localtime s) = true) ->
  name_ok base -> faults w = [] -> place_ok base logFileBkupNum w ->
  small (Z.of_nat (length (contents (R base 0) w))) ->
  (forall i, i < logFileBkupNum -> files_ w !! R base (S i) = ar !! i) -> length ar <= logFileBkupNum ->
  Forall (fun e : source_loc * proxy_event => event_ok e.2 /\ event_level e.2 <> off) evs ->
  count_enabled (map event_request evs) <= length ts -> Forall (valid_msg localtime) msgs ->
  (exists id st1 st2,
    init_logger custom_format localtime gmtime pid pattern_now file (start_spd color w ts) = (Ok id, st1) /\
    log_events custom_format localtime gmtime pid pattern_now this_thread id evs st1 = Some st2 /\
    files_ (disk (sh st2)) !! R base 0 = Some (current a) /\
    (forall i, i < logFileBkupNum -> files_ (disk (sh st2)) !! R base (S i) = archive a !! i) /\
    (exists lost, lost ++ kept a = kept a0 ++ concat (local_line localtime <$> msgs))) /\
  (forall filename index, 0 < index -> (Z.of_nat index < 2 ^ 64)%Z ->
     calc_filename_fmt filename index = Ok (calc_filename filename index)) /\
  (forall n dest, (- 2 ^ 31 <= n < 2 ^ 31)%Z -> format_to dest (B "{:02}") [(None, Cint n)] = Ok (dest ++ format_02 n)).
Proof.
  intros base size msgs a0 a Hloc Hb Hq Hp Hc Har Hlen Hev Hcnt Hv.
  split; [|split; [apply calc_filename_formats|apply pad2_formats]].
  destruct (init_logger_ok custom_format localtime gmtime pid pattern_now file base color w ts ar)
    as (id & sid & st1 & Hi & Hr & Hclk & _); try done.
  assert (Forall (fun r : Logger.request => r.1.2 <> off) (map event_request evs)) as Hoff.
  { apply Forall_fmap. eapply Forall_impl; [exact Hev|]. by intros [loc e] [_ ?]. }
  destruct (log_requests_ok custom_format localtime gmtime pid pattern_now this_thread (map event_request evs)
    id sid base logFileBkupNum size a0 st1 ts) as (st2 & Hst2 & [_ (s & _ & _ & _ & _ & Hh) H0] & _); try done.
  exists id, st1, st2. split_and!; [done| |done|by destruct Hh|apply kept_lines].
  rewrite log_events_requests; [done|]. eapply Forall_impl; [exact Hev|]. by intros e [? _].
Qed.

#[local] Existing Instance terminal_Sink.

Definition demo_events : list (source_loc * proxy_event) :=
  [(no_loc, message info (B "LOGGER INITIALIZED.")); (no_loc, config_port 8080); (no_loc, thread_trying 0 3)].

Lemma proxy_events_logged_witness :
  exists id st1 st2,
    init_logger (fun (c : unit) _ _ _ d => (c, d)) (fun _ => demo_tm) (fun _ => demo_tm) 1 0 wd_file
      (start_spd tt wd_world [5042000000%Z; 6000000000%Z; 7001000000%Z]) = (Ok id, st1) /\
    log_events (fun (c : unit) _ _ _ d => (c, d)) (fun _ => demo_tm) (fun _ => demo_tm) 1 0 140 id demo_events st1 = Some st2 /\
    files_ (disk (sh st2)) !! resolve (B "/wd/log/fileCacheProxy.log") =
      Some (B "[2024-09-04 00:08:07.042][140][info] LOGGER INITIALIZED." ++ [LF] ++
            B "[2024-09-04 00:08:07.000][140][info] ----Config->port 8080" ++ [LF] ++
            B "[2024-09-04 00:08:07.001][140][info] Thread 0 trying 3 time ..." ++ [LF]).
Proof.
  destruct (proxy_events_logged (fun (c : unit) _ _ _ d => (c, d)) (fun _ => demo_tm) (fun _ => demo_tm) 1 0 140 wd_file tt
      wd_world [5042000000%Z; 6000000000%Z; 7001000000%Z] [] demo_events) as ((id & st1 & st2 & Hi & Hr & H0 & _) & _).
  - intros _. reflexivity.
  - exists "g"%char. split; reflexivity.
  - reflexivity.
  - apply wd_place.
  - done.
  - intros i Hi. unfold logFileBkupNum in Hi. do 4 (destruct i as [|i]; [reflexivity|]). lia.
  - simpl. lia.
  - repeat constructor; done.
  - apply Nat.leb_le. reflexivity.
  - repeat constructor; done.
  - exists id, st1, st2. split; [exact Hi|]. split; [exact Hr|].
    replace (resolve (B "/wd/log/fileCacheProxy.log")) with (R (c_str wd_file) 0) by (vm_compute; reflexivity).
    rewrite H0. vm_compute. reflexivity.
Defined.
